(* ===== verification/_CoqProject ===== *)
-Q . S2P
Prelude.v
BitMagic.v
BeliefState.v
BeliefStateOffset.v
Combination.v
QueryID.v
Ident.v
Tables.v
BridgeRules.v
ReturnedBeliefs.v
Guessing.v
CachePosition.v
Evaluator.v
Context.v
MessageQueue.v
Dispatch.v
Odometer.v
Joiner.v
ContextJoin.v
Connection.v
Archives.v
Sessions.v
Client.v
StartUp.v
ContextTerms.v
Matches.v
DynamicConfiguration.v
DynamicPool.v
Topologies.v
OptTopologies.v
OptPlans.v
GenContexts.v
Spirit.v
Parsing.v
ReturnPlans.v
QueryPlans.v
PlanFiles.v
BridgeRuleFiles.v
SystemFiles.v
ServerSetup.v
DlvResults.v
DlvContext.v
SharedEvaluator.v
SolverProcess.v
BeliefStateOps.v
ClientProgram.v
Equilibria.v
CommandLines.v
Pool.v
Threads.v
