(* ===== verification/Prelude.v ===== *)
(** * DMCS: a verification library for the distributed multi-context system solver

    DMCS computes the equilibria of a multi-context system: every context has
    a knowledge base of its own and bridge rules that derive heads from the
    beliefs of other contexts.  A server process runs one or more contexts.  A
    request for the models numbered [k1] to [k2] of a context travels to the
    context's thread; the context asks its neighbors through a joiner, infers
    heads from each joined input with its bridge rules, has an answer set
    solver compute models, projects them and sends them back.  Contexts on a
    cycle are answered by a cycle breaker, which guesses its inputs.

    The library follows the C++ sources under src/ (the repository's own
    include/ and src/ directories).  Pure code is a function, fallible code
    returns [res], loops without a structural bound take fuel, and threads are
    a step relation.  Every [assert], unchecked access and null dereference of
    the code is a failure value of [res]; a theorem that says an operation
    returns [Ok] says that none of them happens.

    ** Files, parts and sources

    - [Prelude] (this file): failures, [res], loops over ranges, 64-bit
      arithmetic, tactics and bit lemmas used everywhere.
    - [BitMagic]: [bm::bvector] of bm3.7.0/src/bm.h, as a size and the number
      whose bits are the vector.
    - [BeliefState]: include/mcs/NewBeliefState.h, src/mcs/NewBeliefState.cpp:
      three-valued belief states on two bit vectors, tests, updates, order,
      iteration, [combine] and [consistent_with].
    - [BeliefStateOffset]: src/mcs/BeliefStateOffset.cpp, the layout of the
      blocks of contexts in a belief state and their masks.
    - [Combination]: what [combine] and [consistent_with] mean under that
      layout.
    - [QueryID]: include/mcs/QueryID.h, the bit fields of query identifiers.
    - [Ident]: include/mcs/ID.h, src/mcs/ID.cpp, typed identifiers.
    - [Tables]: Belief.h, BeliefTable.h, BridgeRule.h, BridgeRuleTable.h of
      include/mcs/.  The boost multi-index container is the class [Indexed]
      with the laws [IndexedLaws].
    - [BridgeRules]: src/mcs/BridgeRuleEvaluator.cpp and include/mcs/Heads.h.
    - [ReturnedBeliefs]: src/mcs/ReturnedBeliefState.cpp and
      src/network/NewOutputThread.cpp, with an explicit heap.
    - [Guessing]: the guesses of src/mcs/NewContext.cpp and their set-up in
      src/mcs/NormalContext.cpp and src/mcs/CycleBreaker.cpp.
    - [CachePosition]: src/mcs/CachePosition.cpp.
    - [Evaluator]: the reference evaluator, with belief states as values; the
      program text is that of src/dmcs/DLVEvaluator.cpp.
    - [Context]: the request handling of src/mcs/NewContext.cpp,
      NormalContext.cpp and CycleBreaker.cpp, against the interface [Solves]
      that [Evaluator] is proved to implement, and [DlvResults] for heads with
      at most one answer set.
    - [DlvContext]: a context with [DLVEvaluator]: [ContextJoin] and [Context]
      with the evaluator of [DlvResults] in the place of the interface.
    - [MessageQueue]: include/network/ConcurrentMessageQueue.h, with threads.
    - [Dispatch]: src/network/NewConcurrentMessageDispatcher.cpp, the
      dispatcher threads of include/network/ and src/mcs/ForwardMessage.cpp.
    - [Odometer]: mixed-radix counters, the specification of both loops of
      the joiner.
    - [Joiner]: src/mcs/BaseJoiner.cpp, StreamingJoiner.cpp, LeafJoiner.cpp,
      against the interface [Network] for the neighbors.
    - [ContextJoin]: [NormalContext::startup] and [process_request] of
      src/mcs/NormalContext.cpp pulling their inputs from a joiner, against
      the interface [Feeds] that both joiners are proved to implement.
    - [Connection]: include/network/connection.hpp, the framing of messages on
      a socket, against the interface [Archive] of a message type.
    - [Archives]: the [serialize], [save] and [load] functions of
      include/mcs/NewBeliefState.h, ReturnedBeliefState.h, BackwardMessage.h
      and ForwardMessage.h, which implement [Archive]; the text of a boost
      archive and the serializer of BitMagic are the classes [Boost] and
      [BvSerializer] with their laws.
    - [Sessions]: src/network/NewServer.cpp, NewHandler.cpp, NewNeighborOut.cpp,
      NewNeighborThread.cpp and the message queue set-up of
      NewOutputThread.cpp: the two ends of a connection between servers.
    - [Client]: src/network/NewClient.cpp, against the interface [Serves] of a
      server.
    - [StartUp]: src/network/NewManager.cpp and the two initialization phases
      of the servers as a step relation.
    - [ContextTerms], [Matches]: the context terms, candidate contexts and
      matches of the dynamic configuration under include/dyndmcs/ and
      src/dyndmcs/.
    - [DynamicConfiguration]: src/dyndmcs/DynamicConfiguration.cpp, the
      substitutions a context can answer with.
    - [DynamicPool]: a pool of contexts that configure each other by requests,
      each answered by a new object (include/CommandTypeFactory.h).
    - [Topologies], [OptTopologies], [OptPlans], [GenContexts]: the benchmark
      generator src/generator/new_staticGen.cpp with the topology generators
      of include/generator/, src/generator/new_dmcsGen.cpp and
      ContextGeneratorBase.cpp: topologies, optimised interfaces (shared
      belief states in an explicit heap) and the contexts' rules.
    - [Spirit]: the combinators of boost::spirit as the class [Qi] with the
      laws [QiLaws], and functions that satisfy them.
    - [Parsing]: include/parser/BaseParser.hpp and Parser.tcc, the skipper and
      the reading of files, and the printing of numbers.
    - [ReturnPlans], [QueryPlans], [BridgeRuleFiles]: the grammars
      ReturnPlanGrammar, QueryPlanGrammar and BridgeRuleGrammar of
      include/parser/ with their semantic actions, the plans of
      include/mcs/QueryPlan.h, and the writer of return plans.
    - [PlanFiles]: the texts the generator writes (src/generator/
      new_staticGen.cpp, NewLogicVisitor.cpp, ContextGeneratorBase.cpp,
      src/mcs/BeliefTable.cpp); boost::tokenizer is the class [Tokenizer].
    - [SystemFiles]: what the parsers make of these texts.
    - [ServerSetup]: the set-up of a server in src/new_dmcsd.cpp.
    - [DlvResults]: the grammar of include/parser/DLVResultGrammar.tcc and
      [DLVEvaluator] of src/dmcs/ with its objects in a store.
    - [SolverProcess]: src/process/NewProcessBuf.cpp and DLVProcess.cpp, the
      pipes to the solver process, and the loading of the knowledge base in
      src/dmcs/DLVInstantiator.cpp and InputProvider.cpp.
    - [SharedEvaluator]: a context, its cycle breaker and their evaluator
      (src/mcs/NormalContext.cpp, NewContext.cpp, src/dmcs/Evaluator.cpp) in
      sequences of whole steps.
    - [BeliefStateOps]: sequences of the operations of a belief state.
    - [ClientProgram]: src/new_dmcsc.cpp on top of [Client], and the printing of
      belief states.
    - [Equilibria]: the server a client talks to, the request loop of a context
      and the output thread, which implements [Serves], and the client and the
      client program on it.
    - [CommandLines]: the commands src/generator/new_staticGen.cpp writes, and
      how src/new_dmcsd.cpp reads its own; the shell and
      boost::program_options are the classes [Shell] and [ProgramOptions].
    - [Pool]: include/mcs/Pool.h, with the threads inside it counted.
    - [Threads]: src/network/NewThreadFactory.cpp, with thread objects in a heap.

    ** What is shown

    - Belief states: reads and writes, total order, iteration, the layout as
      a partition, [combine] as the merge of compatible states; whatever
      sequence of operations builds a state, it is well-formed.
    - Requests: bridge rules give exactly the immediate consequences; the
      reference evaluator sends exactly the requested slice of models, and
      [DLVEvaluator] does when dlv prints at most one; a context answers
      a request with exactly that slice over all its inputs, a cycle breaker
      with the models of all guesses; guesses enumerate all assignments, and
      jumping agrees with stepping.
    - Joining: in whatever packs and interleavings the neighbors answer, the
      joiner delivers exactly the joins of all combinations of their models
      and then the end, in an order that depends on the models only.
    - End to end: a context that pulls its inputs from the joiner and has
      [DLVEvaluator] solve serves a sequence of requests, each with its slice of
      one fixed stream of models, and stops asking neighbors once the slice is
      complete.  This is shown for dlv programs with at most one answer set,
      no guessing neighbors, and neighbors that have models and answer with
      those asked for.
    - Sharing: the answers of an evaluator shared by a context and its cycle
      breaker go to whoever reads first, in the order of the heads.
    - Clients: on top of such a server, a looping client is given the models it
      asks for without a gap, and the client program ends within three rounds
      when the models are pairwise distinct, and prints each model of the range
      once.
    - Output: sorted, without duplicates, every belief state freed once.
    - Communication: the queue is a bounded FIFO queue under every schedule
      and loses no wake-up between one sender and one receiver; dispatchers
      route every message to the queue it is meant for; messages are read from
      their archives as they were saved and survive the socket however the
      bytes are cut; requests reach the context of the
      other server and answers the joiner that asked; the client collects
      disjoint packs until the end.
    - Start-up: no server enters the second phase before all have finished the
      first, and the protocol always completes; the threads of a server are
      stopped and deleted once each.
    - Dynamic configuration: the returned substitutions are exactly the
      matching choices of neighbors, within one context and across a pool.
    - Generator: topologies are sound for the accepted sizes, the data of
      every context is as intended, the optimised plans have no cycle and
      still connect the contexts that must agree on a belief, and the random
      loops can end exactly under the stated bounds on the options.
    - Files: for topologies without random edges the generated return plans
      and, if no rule occurs twice, bridge rules are read back as they were
      meant, an answer set as its literals; the
      neighbors of a server are divided by the optimised plan without loss; the
      command of every server names its generated files.
    - The solver process gets exactly the program and its lines are read back,
      however the system cuts the bytes; the knowledge base is loaded without
      its empty lines.
    - Identifiers and tables: round trips and invariants.
    - Behaviour that departs from the intention, each as a theorem on the
      same definitions: beliefs outside the masks, comparison outside a
      block, models lost through the cache, a failing cache assertion, lost
      wake-ups with several senders, corrupted non-blocking sends, stale
      answers after an inconsistent neighbor, the limit of 63 neighbors,
      overflowing query numbers, iteration blocked by position 0, a shutdown
      that neighbors do not hear of, a second connection of the same invoker,
      the unregistered invoker, empty frames, contexts that stop silently,
      constant schematic atoms, generator options that are accepted although
      no run with them ends, the multiple ring of three contexts, generated
      query plans that the server rejects, an optimised plan that is replaced
      by the full one, several answer sets read into one object, which is used
      after it was freed when models are skipped, models that are not marked
      as computed, repeated bridge rules, an empty knowledge base, which is
      never loaded, answers of the shared evaluator that reach the wrong thread
      and its counter that fails an assertion, belief states without positions
      that cannot be loaded, sizes beyond 32 bits, a client that asks for ever, commands that do not name the generated files, a pool that hands
      out a slot it does not have, and threads that are stopped twice.

    ** Fuel

    Loops over bits get the size of the vector, the guess loops two to the
    number of positions, the cache search the length of the vector, the loop
    over combinations their number, the reader of a connection one more than
    the bytes received, a request that travels through a pool the number of
    its contexts, the client its pack size, the client program three rounds,
    the printing of a belief state the size of its vector; the lemmas ending in [_ok] show
    that these are enough.  The fuel of [next_join] and of the request loop
    is an argument, because the code does not know how many packs and inputs
    there are; the theorems give the bound: one more than the number of
    neighbors times the number of combinations of packs, and one more than the
    number of inputs.  [rand] reads a list of draws that stands for the
    random numbers of a run; the loops that draw until they succeed end with
    [OutOfFuel] when the list does, and the theorems on the generator say for
    which options some list is long enough.  Parsers of [qi_functions]
    iterate at most once per character, the printing of a number prints at
    most 20 digits.

    ** What is not modelled

    Sockets, the creation of processes, logging, the text format of the
    archive, the combinators of boost::spirit (parameters with laws), the
    block encoding of the bit vectors, and the deletion of belief states
    outside [ReturnedBeliefs] and [DlvResults].  [SharedEvaluator] has whole
    steps only, not the interleavings within them.  The server loop of the
    older programs, which hands requests to a dynamic configuration, is not
    among the sources.  The manager
    program, which passes its options on, the older parsers, generators and
    programs, which the build does not use or which need headers that are not
    in the repository, and the resource manager and registry are left out. *)

From stdpp Require Export base numbers list gmap strings sorting.
From Stdlib Require Export NArith Lia.

#[global] Open Scope N_scope.

(** ** Failures

    Every [assert] of the C++ code, every unchecked vector access, every
    dereference of a null pointer and every shift by the width of its operand
    or more is a failure of the model.  [Blocked] is the answer of an operation
    that waits for a message nobody will send.  [OutOfFuel] is the answer of a
    loop that was given too few iterations; the termination theorems show that
    the fuel the operations pass is always enough. *)
Inductive failure :=
  | AssertFailed
  | IndexOutOfRange
  | NullPointer
  | ShiftTooFar
  | Thrown (what : string)
  | Blocked
  | OutOfFuel.

#[export] Instance failure_eq_dec : EqDecision failure.
Proof. solve_decision. Defined.

Inductive res (A : Type) :=
  | Ok (a : A)
  | Err (e : failure).
Arguments Ok {A} a.
Arguments Err {A} e.

#[export] Instance res_ret : MRet res := fun A a => Ok a.
#[export] Instance res_bind : MBind res := fun A B f m =>
  match m with Ok a => f a | Err e => Err e end.
#[export] Instance res_fmap : FMap res := fun A B f m =>
  match m with Ok a => Ok (f a) | Err e => Err e end.

#[export] Instance res_eq_dec {A} `{EqDecision A} : EqDecision (res A).
Proof. solve_decision. Defined.

Definition is_ok {A} (m : res A) : bool :=
  match m with Ok _ => true | Err _ => false end.

(** [assert (b)] of the C library. *)
Definition assert (b : bool) : res unit := if b then Ok tt else Err AssertFailed.

(** [v[i]] on a [std::vector]. *)
Definition vec_at {A} (v : list A) (i : N) : res A :=
  match v !! N.to_nat i with Some a => Ok a | None => Err IndexOutOfRange end.

Definition not_null {A} (p : option A) : res A :=
  match p with Some a => Ok a | None => Err NullPointer end.

(** A fold whose step may fail, the shape of a [for] loop over a container. *)
Fixpoint foldM {A B} (f : B -> A -> res B) (b : B) (l : list A) : res B :=
  match l with
  | [] => mret b
  | a :: l => b' ← f b a; foldM f b' l
  end.

(** The counter values of [for (i = lo; i < hi; ++i)]. *)
Definition nrange (lo hi : N) : list N :=
  (fun k => lo + N.of_nat k) <$> seq 0 (N.to_nat (hi - lo)).

#[global] Arguments assert : simpl never.
#[global] Arguments vec_at : simpl never.
#[global] Arguments not_null : simpl never.

(** ** 64-bit unsigned arithmetic ([std::size_t]) *)

Abbreviation W64 := 18446744073709551616 (only parsing).

Definition u64_add (a b : N) : N := (a + b) mod W64.
Definition u64_sub (a b : N) : N := (a + (W64 - b)) mod W64.
Definition u64_mul (a b : N) : N := (a * b) mod W64.
Definition u64_shl (a k : N) : N := N.shiftl a k mod W64.

Lemma u64_add_small a b : a + b < W64 -> u64_add a b = a + b.
Proof. intros H. unfold u64_add. by apply N.mod_small. Qed.

Lemma u64_sub_small a b : b <= a -> a < W64 -> u64_sub a b = a - b.
Proof.
  intros Hb Ha. unfold u64_sub.
  replace (a + (W64 - b)) with ((a - b) + 1 * W64) by lia.
  rewrite N.Div0.mod_add. apply N.mod_small. lia.
Qed.

Lemma u64_mul_small a b : a * b < W64 -> u64_mul a b = a * b.
Proof. intros H. unfold u64_mul. by apply N.mod_small. Qed.

(** ** Reasoning about [res] *)

Lemma bind_ok {A B} (m : res A) (f : A -> res B) b :
  m ≫= f = Ok b <-> exists a, m = Ok a /\ f a = Ok b.
Proof. destruct m; naive_solver. Qed.

Lemma assert_ok b u : assert b = Ok u <-> b = true.
Proof. unfold assert. destruct b, u; intuition congruence. Qed.

Lemma vec_at_ok {A} (v : list A) i a : vec_at v i = Ok a <-> v !! N.to_nat i = Some a.
Proof. unfold vec_at. destruct (v !! _); naive_solver. Qed.

Lemma vec_at_lt {A} (v : list A) i :
  (N.to_nat i < length v)%nat -> exists a, vec_at v i = Ok a /\ v !! N.to_nat i = Some a.
Proof.
  intros [a Ha]%lookup_lt_is_Some. exists a. by rewrite vec_at_ok.
Qed.

Lemma foldM_app {A B} (f : B -> A -> res B) b l k :
  foldM f b (l ++ k) = (b' ← foldM f b l; foldM f b' k).
Proof.
  revert b. induction l as [|a l IH]; intros b; [done|].
  cbn [app foldM]. destruct (f b a); cbn; [apply IH|done].
Qed.

(** A property kept by the step is kept by the loop. *)
Lemma foldM_inv {A B} (P : B -> Prop) (f : B -> A -> res B) l :
  (forall b a b', a ∈ l -> P b -> f b a = Ok b' -> P b') ->
  forall b b', P b -> foldM f b l = Ok b' -> P b'.
Proof.
  induction l as [|a l IH]; intros Hf b b' Hb H; cbn in H.
  - by injection H as <-.
  - apply bind_ok in H as (c & Hc & H).
    eapply IH; [|eapply Hf; [left| |]; eauto|eauto].
    intros ???? . eapply Hf. by right.
Qed.

(** A loop whose step cannot fail is the pure fold. *)
Lemma foldM_total {A B} (P : B -> Prop) (f : B -> A -> res B) (g : B -> A -> B) l :
  (forall b a, a ∈ l -> P b -> f b a = Ok (g b a) /\ P (g b a)) ->
  forall b, P b -> foldM f b l = Ok (foldl g b l) /\ P (foldl g b l).
Proof.
  induction l as [|a l IH]; intros Hf b Hb; [done|].
  cbn. destruct (Hf b a) as [-> Hg]; [left|done|].
  cbn. apply IH; [|done]. intros ????. apply Hf; [by right|done].
Qed.

Lemma foldM_ext_in {A B} (f g : B -> A -> res B) l :
  (forall b a, a ∈ l -> f b a = g b a) -> forall b, foldM f b l = foldM g b l.
Proof.
  induction l as [|a l IH]; intros H b; [done|]. cbn. rewrite H by (by left).
  destruct (g b a); cbn; [|done]. apply IH. intros ???. apply H. by right.
Qed.

Lemma foldM_ext {A B} (f g : B -> A -> res B) l b :
  (forall b a, f b a = g b a) -> foldM f b l = foldM g b l.
Proof. intros H. apply foldM_ext_in. auto. Qed.

Lemma foldM_fmap {A B C} (f : B -> C -> res B) (h : A -> C) l b :
  foldM f b (h <$> l) = foldM (fun b a => f b (h a)) b l.
Proof. revert b. induction l as [|a l IH]; intros b; [done|]. cbn. by destruct (f b (h a)); cbn. Qed.

(** ** Counting loops *)

Lemma elem_of_nrange i lo hi : i ∈ nrange lo hi <-> lo <= i /\ i < hi.
Proof.
  unfold nrange. rewrite list_elem_of_fmap. split.
  - intros (k & -> & [_ Hk]%elem_of_seq). lia.
  - intros [??]. exists (N.to_nat (i - lo)). rewrite elem_of_seq. lia.
Qed.

Lemma length_nrange lo hi : length (nrange lo hi) = N.to_nat (hi - lo).
Proof. unfold nrange. by rewrite length_fmap, length_seq. Qed.

Lemma nrange_snoc lo hi : lo <= hi -> nrange lo (hi + 1) = nrange lo hi ++ [hi].
Proof.
  intros H. unfold nrange.
  replace (N.to_nat (hi + 1 - lo)) with (S (N.to_nat (hi - lo))) by lia.
  rewrite seq_S, fmap_app. cbn. do 2 f_equal. lia.
Qed.

Lemma nrange_nil lo hi : hi <= lo -> nrange lo hi = [].
Proof. intros H. unfold nrange. by replace (N.to_nat (hi - lo)) with 0%nat by lia. Qed.

Lemma nrange_cons lo hi : lo < hi -> nrange lo hi = lo :: nrange (lo + 1) hi.
Proof.
  intros H. unfold nrange.
  replace (N.to_nat (hi - lo)) with (S (N.to_nat (hi - (lo + 1)))) by lia.
  cbn [seq]. rewrite <- (fmap_S_seq 0), fmap_cons, <- list_fmap_compose. f_equal; [lia|].
  apply list_fmap_ext. intros i x _. cbn. lia.
Qed.

Lemma lookup_nrange lo hi i :
  nrange lo hi !! i = if decide (i < N.to_nat (hi - lo))%nat then Some (lo + N.of_nat i) else None.
Proof.
  unfold nrange. rewrite list_lookup_fmap. case_decide.
  - rewrite lookup_seq_lt by done. done.
  - rewrite lookup_seq_ge by lia. done.
Qed.

Lemma nrange_split lo mid hi : lo <= mid -> mid <= hi -> nrange lo hi = nrange lo mid ++ nrange mid hi.
Proof.
  intros H1 H2. apply list_eq. intros i. rewrite lookup_app, !lookup_nrange, length_nrange.
  repeat case_decide; try lia; try done. f_equal. lia.
Qed.

(** Induction on the number of turns of a counting loop. *)
Lemma foldM_nrange_from {B} (P : N -> B -> Prop) (f : B -> N -> res B) b lo hi :
  lo <= hi -> P lo b ->
  (forall i b, lo <= i -> i < hi -> P i b -> exists b', f b i = Ok b' /\ P (i + 1) b') ->
  exists b', foldM f b (nrange lo hi) = Ok b' /\ P hi b'.
Proof.
  intros Hle H0 Hs.
  enough (H : forall k, k <= hi - lo ->
    exists b', foldM f b (nrange lo (lo + k)) = Ok b' /\ P (lo + k) b').
  { destruct (H (hi - lo)) as (b' & E & HP); [lia|].
    replace (lo + (hi - lo)) with hi in * by lia. eauto. }
  intros k. induction k as [|k IH] using N.peano_ind; intros Hk.
  - exists b. rewrite N.add_0_r, nrange_nil by lia. done.
  - destruct IH as (b' & E & HP); [lia|].
    destruct (Hs (lo + k) b') as (b'' & E' & HP'); [lia..|done|].
    exists b''. replace (lo + N.succ k) with (lo + k + 1) by lia.
    rewrite nrange_snoc, foldM_app, E by lia. cbn. by rewrite E'.
Qed.

Lemma foldM_nrange {B} (P : N -> B -> Prop) (f : B -> N -> res B) b hi :
  P 0 b ->
  (forall i b, i < hi -> P i b -> exists b', f b i = Ok b' /\ P (i + 1) b') ->
  exists b', foldM f b (nrange 0 hi) = Ok b' /\ P hi b'.
Proof.
  intros H0 Hs. apply foldM_nrange_from; [lia|done|]. intros i b0 _. apply Hs.
Qed.

(** What every turn keeps holds when the loop has returned. *)
Lemma foldM_nrange_partial {B} (P : N -> B -> Prop) (f : B -> N -> res B) b b' lo hi :
  lo <= hi ->
  (forall i b b', lo <= i -> i < hi -> P i b -> f b i = Ok b' -> P (i + 1) b') ->
  P lo b -> foldM f b (nrange lo hi) = Ok b' -> P hi b'.
Proof.
  intros Hle Hs H0. remember (N.to_nat (hi - lo)) as k eqn:Hk. revert lo b Hle Hs H0 Hk.
  induction k as [|k IH]; intros lo b Hle Hs H0 Hk.
  - rewrite nrange_nil by lia. intros [= <-]. by replace hi with lo by lia.
  - rewrite nrange_cons by lia. cbn. destruct (f b lo) as [c|] eqn:E; [|done].
    apply IH; [lia| |by eapply Hs; [| |done|]; [lia|lia|]|lia].
    intros i ???? . apply Hs; lia.
Qed.

(** The loop [for (i = hi; i > 0; --i)]. *)
Lemma foldM_nrange_down {B} (P : N -> B -> Prop) (f : B -> N -> res B) b hi :
  P hi b ->
  (forall i b, 1 <= i -> i <= hi -> P i b -> exists b', f b i = Ok b' /\ P (i - 1) b') ->
  exists b', foldM f b (reverse (nrange 1 (hi + 1))) = Ok b' /\ P 0 b'.
Proof.
  revert b. induction hi as [|hi IH] using N.peano_ind; intros b H0 Hs; [by exists b|].
  rewrite nrange_snoc, reverse_snoc by lia. cbn [foldM].
  destruct (Hs (N.succ hi) b) as (b' & -> & Hb'); [lia..|done|]. cbn.
  replace (N.succ hi - 1) with hi in Hb' by lia. rewrite <- N.add_1_r. apply IH; [done|].
  intros i c ??. apply Hs; lia.
Qed.

(** ** Tactics *)

(** Take apart every bind, assertion and vector access known to succeed. *)
Ltac res_inv :=
  repeat match goal with
  | H : (_ ≫= _) = Ok _ |- _ => apply bind_ok in H; destruct H as (? & ? & ?)
  | H : assert _ = Ok _ |- _ => apply assert_ok in H
  | H : vec_at _ _ = Ok _ |- _ => apply vec_at_ok in H
  | H : mret _ = Ok _ |- _ => injection H as H
  | H : Ok _ = Ok _ |- _ => injection H as H
  | H : Err _ = Ok _ |- _ => discriminate H
  | H : Ok _ = Err _ |- _ => discriminate H
  end; simplify_eq/=.

(** Run the monad's binds. *)
Ltac rsimpl := cbn [mbind mret fmap res_bind res_ret res_fmap].

(** Reduce boolean comparisons on [N] to propositions. *)
Ltac bsimpl :=
  repeat match goal with
  | H : (_ <? _) = true |- _ => apply N.ltb_lt in H
  | H : (_ <? _) = false |- _ => apply N.ltb_ge in H
  | H : (_ <=? _) = true |- _ => apply N.leb_le in H
  | H : (_ <=? _) = false |- _ => apply N.leb_gt in H
  | H : (_ =? _) = true |- _ => apply N.eqb_eq in H
  | H : (_ =? _) = false |- _ => apply N.eqb_neq in H
  | H : _ && _ = true |- _ => apply andb_true_iff in H; destruct H
  | H : negb _ = true |- _ => apply negb_true_iff in H
  end.

Ltac assert_true :=
  match goal with
  | |- context [assert ?b] =>
      replace b with true by (symmetry; rewrite ?andb_true_iff, ?orb_true_iff, ?andb_true_iff, ?N.ltb_lt, ?N.leb_le, ?N.eqb_eq; try (repeat split; lia));
      change (assert true) with (Ok tt); rsimpl
  end.

(** ** Bits *)

Create HintDb bits.
Create Rewrite HintDb bits.
#[export] Hint Rewrite N.lor_spec N.land_spec N.lxor_spec N.ldiff_spec N.bits_0
  N.setbit_eqb N.clearbit_eqb : bits.

(** [n] has no bit at or above [k]. *)
Definition bits_below (n k : N) : Prop := forall i, k <= i -> N.testbit n i = false.

Lemma bits_below_lor a b k : bits_below a k -> bits_below b k -> bits_below (N.lor a b) k.
Proof. intros Ha Hb i Hi. autorewrite with bits. by rewrite Ha, Hb. Qed.

Lemma bits_below_land_l a b k : bits_below a k -> bits_below (N.land a b) k.
Proof. intros Ha i Hi. autorewrite with bits. by rewrite Ha. Qed.

Lemma bits_below_0 k : bits_below 0 k.
Proof. intros i _. apply N.bits_0. Qed.

Lemma bits_below_ldiff a b k : bits_below a k -> bits_below (N.ldiff a b) k.
Proof. intros Ha i Hi. autorewrite with bits. by rewrite Ha. Qed.

Lemma bits_below_mono a k k' : bits_below a k -> k <= k' -> bits_below a k'.
Proof. intros Ha Hk i Hi. apply Ha. lia. Qed.

Lemma bits_below_setbit a p k : bits_below a k -> p < k -> bits_below (N.setbit a p) k.
Proof.
  intros Ha Hp i Hi. rewrite N.setbit_eqb, Ha by done.
  rewrite orb_false_r. apply N.eqb_neq. lia.
Qed.

Lemma bits_below_clearbit a p k : bits_below a k -> bits_below (N.clearbit a p) k.
Proof. intros Ha i Hi. by rewrite N.clearbit_eqb, Ha. Qed.

Lemma bits_below_ones k : bits_below (N.ones k) k.
Proof. intros i Hi. by apply N.ones_spec_high. Qed.

Lemma lt_pow2_bits f w : f < 2 ^ w -> bits_below f w.
Proof.
  intros H i Hi. destruct (N.eq_dec f 0) as [->|Hf]; [apply N.bits_0|].
  apply N.bits_above_log2. apply N.log2_lt_pow2 in H; lia.
Qed.

#[export] Hint Resolve bits_below_lor bits_below_land_l bits_below_0 bits_below_ldiff
  bits_below_setbit bits_below_clearbit bits_below_ones : bits.

(** ** Finite sets *)

Lemma size_list_to_set_le {A C} `{FinSet A C} (l : list A) :
  (size (list_to_set l : C) <= length l)%nat.
Proof.
  induction l as [|a l IH]; cbn [list_to_set length]; [by rewrite size_empty|].
  rewrite size_union_alt, size_singleton.
  pose proof (subseteq_size (list_to_set l ∖ {[a]} : C) (list_to_set l) ltac:(set_solver)). lia.
Qed.
