(* ===== verification/BitMagic.v ===== *)
(** * BitMagic: the bit vectors belief states are made of

    The observable behaviour of [bm::bvector<>] as DMCS uses it
    (bm3.7.0/src/bm.h): a size and the set of positions whose bit is on, held
    as the binary digits of an [N].  The block and gap encoding below that
    interface is not modelled.  Positions are [bm::id_t], 32-bit. *)

From S2P Require Import Prelude.

Module BitMagic.

Record bvector := mk_bvector { size_ : N; bits : N }.

#[export] Instance bvector_eq_dec : EqDecision bvector.
Proof. solve_decision. Defined.

Definition id_max : N := 4294967295.

(** [bvector()] and [bvector(size_type bv_size)] *)
Definition bvector_default : bvector := mk_bvector id_max 0.
Definition bvector_sized (bv_size : N) : bvector := mk_bvector bv_size 0.

Definition get_bit (v : bvector) (n : N) : res bool :=
  _ ← assert (n <? size_ v);
  mret (N.testbit (bits v) n).

(** [set_bit_no_check] *)
Definition put_bit (v : bvector) (n : N) (val : bool) : bvector :=
  mk_bvector (size_ v) (if val then N.setbit (bits v) n else N.clearbit (bits v) n).

Definition set_bit (v : bvector) (n : N) (val : bool) : res bvector :=
  _ ← assert (n <? size_ v);
  mret (put_bit v n val).

Definition range_mask (lo hi : N) : N := N.shiftl (N.ones (hi + 1 - lo)) lo.

Definition set_range_no_check (v : bvector) (lo hi : N) (val : bool) : bvector :=
  mk_bvector (size_ v)
    (if val then N.lor (bits v) (range_mask lo hi)
     else N.ldiff (bits v) (range_mask lo hi)).

Definition set_range (v : bvector) (lo hi : N) (val : bool) : res bvector :=
  let '(lo, hi) := if hi <? lo then (hi, lo) else (lo, hi) in
  _ ← assert (lo <? size_ v);
  _ ← assert (hi <? size_ v);
  mret (set_range_no_check v lo hi val).

(** [set()]: [size_ - 1] is computed on 32 bits *)
Definition set_all (v : bvector) : res bvector :=
  set_range v 0 ((size_ v + id_max) mod (id_max + 1)) true.

Definition clear (v : bvector) : bvector := mk_bvector (size_ v) 0.

Definition resize (v : bvector) (new_size : N) : bvector :=
  if size_ v =? new_size then v
  else if size_ v <? new_size then mk_bvector new_size (bits v)
  else mk_bvector new_size (bits (set_range_no_check v new_size (size_ v - 1) false)).

(** [bit_or] and [bit_and]: [combine_operation] stretches the receiver to the
    size of a longer argument; under AND the receiver's tail beyond a shorter
    argument is cleared. *)
Definition bit_or (v w : bvector) : bvector :=
  mk_bvector (N.max (size_ v) (size_ w)) (N.lor (bits v) (bits w)).

Definition bit_and (v w : bvector) : bvector :=
  mk_bvector (N.max (size_ v) (size_ w)) (N.land (bits v) (bits w)).

(** [operator=] *)
Definition assign (v w : bvector) : bvector :=
  bit_or (resize (clear v) (size_ w)) w.

(** [operator~] *)
Definition invert (v : bvector) : bvector :=
  mk_bvector (size_ v) (N.ldiff (N.ones (size_ v)) (bits v)).

Fixpoint pos_ctz (p : positive) : N :=
  match p with
  | xO q => N.succ (pos_ctz q)
  | _ => 0
  end.

Fixpoint pos_popcount (p : positive) : N :=
  match p with
  | xO q => pos_popcount q
  | xI q => N.succ (pos_popcount q)
  | xH => 1
  end.

Definition count (v : bvector) : N :=
  match bits v with 0 => 0 | Npos p => pos_popcount p end.

(** The first bit that is on at or after [prev], 0 when there is none. *)
Definition check_or_next (v : bvector) (prev : N) : N :=
  match N.shiftr (bits v) prev with
  | 0 => 0
  | Npos p => prev + pos_ctz p
  end.

Definition get_first (v : bvector) : N := check_or_next v 0.

Definition get_next (v : bvector) (prev : N) : N :=
  if prev + 1 =? id_max then 0 else check_or_next v (prev + 1).

(** [compare]: decided by the lowest position where the vectors differ; the
    sizes play no role. *)
Definition compare (v w : bvector) : comparison :=
  match N.lxor (bits v) (bits w) with
  | 0 => Eq
  | Npos p => if N.testbit (bits v) (pos_ctz p) then Gt else Lt
  end.

Definition bv_ltb (v w : bvector) : bool :=
  match compare v w with Lt => true | _ => false end.
Definition bv_eqb (v w : bvector) : bool :=
  match compare v w with Eq => true | _ => false end.

#[global] Arguments get_bit : simpl never.
#[global] Arguments set_bit : simpl never.
#[global] Arguments set_range : simpl never.
#[global] Arguments put_bit : simpl never.
#[global] Arguments get_next : simpl never.
#[global] Arguments check_or_next : simpl never.

(** A vector holds no bit beyond its size. *)
Definition wf (v : bvector) : Prop := bits_below (bits v) (size_ v).

(** ** The lowest bit *)

Lemma pos_ctz_testbit p : N.testbit (Npos p) (pos_ctz p) = true.
Proof.
  induction p as [p _|p IH|]; [done| |done].
  cbn [pos_ctz]. change (Npos (xO p)) with (2 * Npos p)%N.
  by rewrite N.double_bits_succ.
Qed.

Lemma pos_ctz_below p i : i < pos_ctz p -> N.testbit (Npos p) i = false.
Proof.
  revert i. induction p as [p _|p IH|]; intros i Hi; cbn [pos_ctz] in Hi; try lia.
  change (Npos (xO p)) with (2 * Npos p)%N.
  destruct (N.eq_dec i 0) as [->|Hne].
  - apply N.testbit_even_0.
  - rewrite <- (N.succ_pred i Hne), N.double_bits_succ. apply IH. lia.
Qed.

Lemma check_or_next_spec v k :
  (check_or_next v k = 0 /\ forall i, k <= i -> N.testbit (bits v) i = false) \/
  (k <= check_or_next v k /\ N.testbit (bits v) (check_or_next v k) = true /\
   forall i, k <= i -> i < check_or_next v k -> N.testbit (bits v) i = false).
Proof.
  unfold check_or_next. destruct (N.shiftr (bits v) k) as [|p] eqn:E.
  - left. split; [done|]. intros i Hi.
    replace i with ((i - k) + k) by lia. rewrite <- N.shiftr_spec', E. apply N.bits_0.
  - right. split; [lia|]. split.
    + rewrite N.add_comm, <- N.shiftr_spec', E. apply pos_ctz_testbit.
    + intros i Hi Hlt. replace i with ((i - k) + k) by lia.
      rewrite <- N.shiftr_spec', E. apply pos_ctz_below. lia.
Qed.

Lemma get_next_spec v k :
  wf v -> size_ v <= id_max ->
  (get_next v k = 0 /\ forall i, k < i -> N.testbit (bits v) i = false) \/
  (k < get_next v k /\ N.testbit (bits v) (get_next v k) = true /\
   forall i, k < i -> i < get_next v k -> N.testbit (bits v) i = false).
Proof.
  intros Hwf Hmax. unfold get_next. destruct (N.eqb_spec (k + 1) id_max) as [E|E].
  - left. split; [done|]. intros i Hi. apply Hwf. lia.
  - destruct (check_or_next_spec v (k + 1)) as [[? H]|(? & ? & H)]; [left|right].
    + split; [done|]. intros i Hi. apply H. lia.
    + repeat split; [lia|done|]. intros i Hi ?. apply H; lia.
Qed.

Lemma testbit_size_nat a i : N.testbit a i = true -> i < N.of_nat (N.size_nat a).
Proof.
  destruct a as [|p]; [by rewrite N.bits_0|].
  cbn [N.size_nat]. revert i. induction p as [p IH|p IH|]; intros i Hi; cbn [Pos.size_nat];
    destruct (N.eq_dec i 0) as [->|Hne]; try lia.
  - change (Npos (xI p)) with (2 * Npos p + 1)%N in Hi.
    rewrite <- (N.succ_pred i Hne), N.testbit_odd_succ in Hi by lia.
    apply IH in Hi. lia.
  - change (Npos (xO p)) with (2 * Npos p)%N in Hi.
    rewrite <- (N.succ_pred i Hne), N.double_bits_succ in Hi. apply IH in Hi. lia.
  - by destruct i.
Qed.

Lemma count_0 v : count v = 0 <-> bits v = 0.
Proof.
  unfold count. destruct (bits v) as [|p]; [done|]. split; [|done].
  intros H. exfalso. enough (0 < pos_popcount p) by lia.
  clear H. induction p; cbn; lia.
Qed.

(** ** The order *)

(** [v] is below [w] when at the lowest position where they differ only [w]
    has the bit. *)
Definition bv_lt (a b : N) : Prop :=
  exists i, N.testbit a i = false /\ N.testbit b i = true /\
            forall j, j < i -> N.testbit a j = N.testbit b j.

Lemma bv_lt_irrefl a : ~ bv_lt a a.
Proof. intros (i & H1 & H2 & _). congruence. Qed.

Lemma bv_lt_trans a b c : bv_lt a b -> bv_lt b c -> bv_lt a c.
Proof.
  intros (i & Ha & Hb & Hab) (j & Hb' & Hc & Hbc).
  destruct (N.lt_trichotomy i j) as [Hij|[->|Hij]]; [|congruence|].
  - exists i. rewrite <- Hbc by done. repeat split; [done..|].
    intros k Hk. rewrite Hab by done. apply Hbc. lia.
  - exists j. rewrite Hab by done. repeat split; [done..|].
    intros k Hk. rewrite <- Hbc by done. apply Hab. lia.
Qed.

Lemma compare_spec v w :
  match compare v w with
  | Eq => bits v = bits w
  | Lt => bv_lt (bits v) (bits w)
  | Gt => bv_lt (bits w) (bits v)
  end.
Proof.
  unfold compare. destruct (N.lxor (bits v) (bits w)) as [|p] eqn:E.
  - by apply N.lxor_eq in E.
  - pose proof (pos_ctz_testbit p) as Hp. rewrite <- E, N.lxor_spec in Hp.
    assert (Hlow : forall j, j < pos_ctz p -> N.testbit (bits v) j = N.testbit (bits w) j).
    { intros j Hj. pose proof (pos_ctz_below p j Hj) as H.
      rewrite <- E, N.lxor_spec in H. by apply xorb_eq. }
    destruct (N.testbit (bits v) (pos_ctz p)) eqn:Ev;
      destruct (N.testbit (bits w) (pos_ctz p)) eqn:Ew; try done.
    + exists (pos_ctz p). repeat split; [done..|]. intros. symmetry. auto.
    + exists (pos_ctz p). by repeat split.
Qed.

Lemma bv_eqb_eq v w : bv_eqb v w = true <-> bits v = bits w.
Proof.
  unfold bv_eqb. pose proof (compare_spec v w) as H.
  destruct (compare v w); split; intros E; try done;
    rewrite E in H; by apply bv_lt_irrefl in H.
Qed.

Lemma bv_ltb_lt v w : bv_ltb v w = true <-> bv_lt (bits v) (bits w).
Proof.
  unfold bv_ltb. pose proof (compare_spec v w) as H.
  destruct (compare v w); split; intros E; try done; exfalso.
  - rewrite H in E. by apply bv_lt_irrefl in E.
  - eapply bv_lt_irrefl, bv_lt_trans; eauto.
Qed.

Lemma bv_lt_total a b : bv_lt a b \/ a = b \/ bv_lt b a.
Proof.
  pose proof (compare_spec (mk_bvector 0 a) (mk_bvector 0 b)) as H.
  destruct (compare _ _); cbn in H; auto.
Qed.

(** ** Well-formedness *)

Lemma wf_sized n : wf (bvector_sized n).
Proof. apply bits_below_0. Qed.

Lemma wf_put_bit v n val : wf v -> n < size_ v -> wf (put_bit v n val).
Proof. intros Hv Hn. unfold wf, put_bit. cbn [bits size_]. destruct val; eauto with bits. Qed.

Lemma wf_bit_or v w : wf v -> wf w -> wf (bit_or v w).
Proof.
  intros Hv Hw. apply bits_below_lor; eapply bits_below_mono; eauto; cbn; lia.
Qed.

Lemma wf_bit_and v w : wf v -> wf (bit_and v w).
Proof. intros Hv. apply bits_below_land_l. eapply bits_below_mono; eauto. cbn. lia. Qed.

Lemma wf_invert v : wf (invert v).
Proof. unfold wf. cbn. eauto with bits. Qed.

#[export] Hint Resolve wf_sized wf_put_bit wf_bit_or wf_bit_and wf_invert : bits.

Lemma size_resize v n : size_ (resize v n) = n.
Proof. unfold resize. destruct (N.eqb_spec (size_ v) n); [done|]. by destruct (_ <? _). Qed.

Lemma bits_resize_clear v n : bits (resize (clear v) n) = 0.
Proof.
  unfold resize. destruct (_ =? _); [done|]. destruct (_ <? _); [done|].
  done.
Qed.

(** Assignment copies. *)
Lemma assign_eq v w : assign v w = w.
Proof.
  unfold assign, bit_or. rewrite size_resize, bits_resize_clear, N.max_id, N.lor_0_l.
  by destruct w.
Qed.

Lemma testbit_put_bit v n val i :
  N.testbit (bits (put_bit v n val)) i = if n =? i then val else N.testbit (bits v) i.
Proof.
  unfold put_bit. cbn [bits]. destruct val; rewrite ?N.setbit_eqb, ?N.clearbit_eqb;
    destruct (N.eqb_spec n i); cbn; rewrite ?andb_false_r, ?andb_true_r; done.
Qed.

End BitMagic.
