(* ===== verification/BeliefState.v ===== *)
(** * Belief states

    [NewBeliefState] (include/mcs/NewBeliefState.h, src/mcs/NewBeliefState.cpp):
    a three-valued assignment held in two bit vectors, one saying which
    positions are assigned and one saying which of them are true.  The file
    ends with the abstract view [truth] that the operations refine. *)

From S2P Require Import Prelude BitMagic.
Import BitMagic.

Module BeliefState.

Inductive TruthVal := DMCS_FALSE | DMCS_TRUE | DMCS_UNDEF.

#[export] Instance TruthVal_eq_dec : EqDecision TruthVal.
Proof. solve_decision. Defined.

Record NewBeliefState := mk_bs { status_bit : bvector; value_bit : bvector }.

#[export] Instance NewBeliefState_eq_dec : EqDecision NewBeliefState.
Proof. solve_decision. Defined.

(** ** Constructors and assignment *)

Definition bs_default : NewBeliefState := mk_bs bvector_default bvector_default.

Definition set_both (bs : NewBeliefState) : res NewBeliefState :=
  s ← set_all (status_bit bs);
  v ← set_all (value_bit bs);
  mret (mk_bs s v).

Definition bs_sized (n : N) (setall : bool) : res NewBeliefState :=
  let bs := mk_bs (bvector_sized n) (bvector_sized n) in
  if setall then set_both bs else mret bs.

Definition bs_blocks (no_bs bs_size : N) (setall : bool) : res NewBeliefState :=
  let n := no_bs * (bs_size + 1) in
  let bs := mk_bs (bvector_sized n) (bvector_sized n) in
  if setall then set_both bs else mret bs.

(** The copy constructor and [operator=]. *)
Definition bs_assign (this bs : NewBeliefState) : res NewBeliefState :=
  _ ← assert (size_ (status_bit bs) =? size_ (value_bit bs));
  mret (mk_bs (assign (status_bit this) (status_bit bs))
              (assign (value_bit this) (value_bit bs))).

(** ** Comparison *)

Definition bs_eqb (a b : NewBeliefState) : bool :=
  bv_eqb (status_bit a) (status_bit b) && bv_eqb (value_bit a) (value_bit b).

Definition bs_neqb (a b : NewBeliefState) : bool :=
  negb (bv_eqb (value_bit a) (value_bit b)) || negb (bv_eqb (status_bit a) (status_bit b)).

Definition bs_ltb (a b : NewBeliefState) : bool :=
  if bv_ltb (status_bit a) (status_bit b) then true
  else bv_eqb (status_bit a) (status_bit b) && bv_ltb (value_bit a) (value_bit b).

(** ** Bitwise operators, which update their left operand *)

Definition bs_or (a b : NewBeliefState) : NewBeliefState :=
  mk_bs (bit_or (status_bit a) (status_bit b)) (bit_or (value_bit a) (value_bit b)).

Definition bs_and (a b : NewBeliefState) : NewBeliefState :=
  mk_bs (bit_and (status_bit a) (status_bit b)) (bit_and (value_bit a) (value_bit b)).

Definition bs_size (bs : NewBeliefState) : res N :=
  _ ← assert (size_ (status_bit bs) =? size_ (value_bit bs));
  mret (size_ (value_bit bs)).

Definition bs_resize (bs : NewBeliefState) (n : N) : res NewBeliefState :=
  _ ← assert (0 <? n);
  mret (mk_bs (resize (status_bit bs) n) (resize (value_bit bs) n)).

Definition bs_clear (bs : NewBeliefState) : NewBeliefState :=
  mk_bs (clear (status_bit bs)) (clear (value_bit bs)).

(** ** Reading and writing a position *)

Definition test (bs : NewBeliefState) (pos : N) : res TruthVal :=
  n ← bs_size bs;
  _ ← assert (pos <? n);
  st ← get_bit (status_bit bs) pos;
  if st : bool then
    v ← get_bit (value_bit bs) pos;
    mret (if v : bool then DMCS_TRUE else DMCS_FALSE)
  else mret DMCS_UNDEF.

Definition test_ctx (bs : NewBeliefState) (ctx_id pos : N) (starting_offset : list N) : res TruthVal :=
  _ ← assert (ctx_id <? N.of_nat (length starting_offset));
  off ← vec_at starting_offset ctx_id;
  n ← bs_size bs;
  _ ← assert (off + pos <? n);
  test bs (off + pos).

Definition set (bs : NewBeliefState) (pos : N) (val : TruthVal) : res NewBeliefState :=
  n ← bs_size bs;
  _ ← assert (pos <? n);
  let '(st, v) := match val with
    | DMCS_UNDEF => (false, false)
    | DMCS_TRUE => (true, true)
    | DMCS_FALSE => (true, false)
    end in
  s' ← set_bit (status_bit bs) pos st;
  v' ← set_bit (value_bit bs) pos v;
  mret (mk_bs s' v').

Definition set_ctx (bs : NewBeliefState) (ctx_id pos : N) (starting_offset : list N)
    (val : TruthVal) : res NewBeliefState :=
  _ ← assert (ctx_id <? N.of_nat (length starting_offset));
  off ← vec_at starting_offset ctx_id;
  n ← bs_size bs;
  _ ← assert (off + pos <? n);
  set bs (off + pos) val.

(** The epsilon bit of a block says whether the block was computed at all. *)
Definition isEpsilon (bs : NewBeliefState) (ctx_id : N) (starting_offset : list N) : res bool :=
  off ← vec_at starting_offset ctx_id;
  b ← get_bit (status_bit bs) off;
  mret (negb b).

Definition setEpsilon (bs : NewBeliefState) (ctx_id : N) (starting_offset : list N)
    : res NewBeliefState :=
  off ← vec_at starting_offset ctx_id;
  s ← set_bit (status_bit bs) off true;
  v ← set_bit (value_bit bs) off true;
  mret (mk_bs s v).

Definition setEpsilon_all (bs : NewBeliefState) (starting_offset : list N) : res NewBeliefState :=
  foldM (fun b id => setEpsilon b id starting_offset) bs
    (nrange 0 (N.of_nat (length starting_offset))).

(** ** Iterating over the true positions *)

(** The [do ... while (bit)] loop shared by [getFirst] and [getNext]. *)
Fixpoint find_true (fuel : nat) (bs : NewBeliefState) (bit : N) : res N :=
  match fuel with
  | O => Err OutOfFuel
  | S fuel =>
      b ← get_bit (value_bit bs) bit;
      if b : bool then mret bit
      else
        let bit := get_next (status_bit bs) bit in
        if bit =? 0 then mret 0 else find_true fuel bs bit
  end.

Definition scan_fuel (bs : NewBeliefState) : nat := S (N.size_nat (bits (status_bit bs))).

Definition getFirst (bs : NewBeliefState) : res N :=
  if count (status_bit bs) =? 0 then mret 0
  else find_true (scan_fuel bs) bs (get_first (status_bit bs)).

Definition getNext (bs : NewBeliefState) (bit : N) : res N :=
  _ ← assert (bit <? size_ (status_bit bs));
  let next := get_next (status_bit bs) bit in
  if next =? 0 then mret 0 else find_true (scan_fuel bs) bs next.

(** ** Combination *)

Definition and_bm (bs : NewBeliefState) (mask : bvector) : res NewBeliefState :=
  n ← bs_size bs;
  _ ← assert (n =? size_ mask);
  mret (mk_bs (bit_and (status_bit bs) mask) (bit_and (value_bit bs) mask)).

Fixpoint consistent_loop (fuel : nat) (this bm : NewBeliefState) (end_bit pos : N) : res bool :=
  match fuel with
  | O => Err OutOfFuel
  | S fuel =>
      a ← test this pos;
      b ← test bm pos;
      if bool_decide (a = b) then
        let pos := get_next (status_bit bm) pos in
        if negb (pos =? 0) && (pos <? end_bit)
        then consistent_loop fuel this bm end_bit pos
        else mret true
      else mret false
  end.

Definition consistent_with (this bm : NewBeliefState) (id : N) (starting_offsets : list N)
    : res bool :=
  _ ← assert (size_ (status_bit this) =? size_ (status_bit bm));
  _ ← assert (size_ (value_bit this) =? size_ (value_bit bm));
  e1 ← isEpsilon this id starting_offsets;
  e2 ← (if e1 : bool then mret true else isEpsilon bm id starting_offsets);
  if e2 : bool then mret true else
  start_bit ← vec_at starting_offsets id;
  end_bit ← (if id =? N.of_nat (length starting_offsets) - 1
             then mret (size_ (status_bit this))
             else vec_at starting_offsets (id + 1));
  consistent_loop (scan_fuel bm) this bm end_bit (get_next (status_bit bm) start_bit).

(** One turn of the loop of [combine] that builds the two masks. *)
Definition combine_mask_step (s t : NewBeliefState) (starting_offsets : list N)
    (masks : list bvector) (acc : bvector * bvector) (i : N) : res (bvector * bvector) :=
  let '(check, comb) := acc in
  es ← isEpsilon s i starting_offsets;
  et ← isEpsilon t i starting_offsets;
  m ← vec_at masks i;
  if negb es && negb et then mret (bit_or check m, comb)
  else if es && negb et then mret (check, bit_or comb m)
  else mret (check, comb).

(** [combine(s, t, ...)]: the answer, and [s] as it leaves it. *)
Definition combine (s t : NewBeliefState) (starting_offsets : list N) (masks : list bvector)
    : res (bool * NewBeliefState) :=
  _ ← assert (0 <? N.of_nat (length masks));
  n ← bs_size s;
  nt ← bs_size t;
  _ ← assert (n =? nt);
  m0 ← vec_at masks 0;
  _ ← assert (n =? size_ m0);
  _ ← assert (N.of_nat (length starting_offsets) =? N.of_nat (length masks));
  _ ← (if 1 <? N.of_nat (length starting_offsets) then
         l ← vec_at starting_offsets (N.of_nat (length starting_offsets) - 1);
         o1 ← vec_at starting_offsets 1;
         o0 ← vec_at starting_offsets 0;
         assert (n =? u64_sub (l + o1) o0)
       else mret tt);
  '(check, comb) ← foldM (combine_mask_step s t starting_offsets masks)
                     (bvector_sized n, bvector_sized n)
                     (nrange 0 (N.of_nat (length starting_offsets)));
  s1 ← and_bm s check;
  t1 ← and_bm t check;
  if bs_neqb s1 t1 then mret (false, s)
  else
    s2 ← and_bm s (invert comb);
    t2 ← and_bm t comb;
    (* the operands are updated in place: the assignments are to themselves *)
    let s2 := bs_or s2 t2 in
    mret (true, bs_or s s2).

#[global] Arguments test : simpl never.
#[global] Arguments set : simpl never.
#[global] Arguments bs_size : simpl never.
#[global] Arguments isEpsilon : simpl never.
#[global] Arguments getNext : simpl never.
#[global] Arguments getFirst : simpl never.
#[global] Arguments and_bm : simpl never.

(** ** The abstract view *)

(** A belief state denotes an assignment of truth values to positions. *)
Definition truth (bs : NewBeliefState) (i : N) : TruthVal :=
  if N.testbit (bits (status_bit bs)) i then
    if N.testbit (bits (value_bit bs)) i then DMCS_TRUE else DMCS_FALSE
  else DMCS_UNDEF.

(** The type invariant: both vectors have the size [n], hold no bit beyond it,
    and only assigned positions have a value. *)
Record bs_wf (n : N) (bs : NewBeliefState) : Prop := {
  wf_status_size : size_ (status_bit bs) = n;
  wf_value_size : size_ (value_bit bs) = n;
  wf_size_max : n <= id_max;
  wf_status : wf (status_bit bs);
  wf_value : wf (value_bit bs);
  wf_clean : forall i, N.testbit (bits (value_bit bs)) i = true ->
                       N.testbit (bits (status_bit bs)) i = true;
}.

Definition tv_or (a b : TruthVal) : TruthVal :=
  match a, b with
  | DMCS_TRUE, _ | _, DMCS_TRUE => DMCS_TRUE
  | DMCS_FALSE, _ | _, DMCS_FALSE => DMCS_FALSE
  | _, _ => DMCS_UNDEF
  end.

Definition tv_and (a b : TruthVal) : TruthVal :=
  match a, b with
  | DMCS_UNDEF, _ | _, DMCS_UNDEF => DMCS_UNDEF
  | DMCS_TRUE, DMCS_TRUE => DMCS_TRUE
  | _, _ => DMCS_FALSE
  end.

Lemma truth_true n bs i :
  bs_wf n bs -> truth bs i = DMCS_TRUE <-> N.testbit (bits (value_bit bs)) i = true.
Proof.
  intros Hwf. pose proof (wf_clean _ _ Hwf i) as Hc. unfold truth.
  destruct (N.testbit (bits (status_bit bs)) i), (N.testbit (bits (value_bit bs)) i);
    intuition congruence.
Qed.

Lemma truth_undef bs i :
  truth bs i = DMCS_UNDEF <-> N.testbit (bits (status_bit bs)) i = false.
Proof.
  unfold truth. destruct (N.testbit (bits (status_bit bs)) i); [|done].
  by destruct (N.testbit _ i).
Qed.

Lemma truth_beyond n bs i : bs_wf n bs -> n <= i -> truth bs i = DMCS_UNDEF.
Proof. intros Hwf Hi. apply truth_undef, (wf_status _ _ Hwf). by rewrite (wf_status_size _ _ Hwf). Qed.

(** A well-formed state is determined by its assignment. *)
Lemma bs_ext n a b : bs_wf n a -> bs_wf n b -> (forall i, truth a i = truth b i) -> a = b.
Proof.
  intros Ha Hb H.
  assert (Es : bits (status_bit a) = bits (status_bit b)).
  { apply N.bits_inj. intros i. specialize (H i). unfold truth in H.
    repeat destruct (N.testbit _ i); congruence. }
  assert (Ev : bits (value_bit a) = bits (value_bit b)).
  { apply N.bits_inj. intros i. apply eq_true_iff_eq.
    by rewrite <- (truth_true n a i Ha), <- (truth_true n b i Hb), H. }
  destruct a as [[] []], b as [[] []], Ha, Hb; cbn in *; congruence.
Qed.

Lemma bs_eqb_truth n a b :
  bs_wf n a -> bs_wf n b -> bs_eqb a b = true <-> forall i, truth a i = truth b i.
Proof.
  intros Ha Hb. unfold bs_eqb. rewrite andb_true_iff, !bv_eqb_eq. split.
  - intros [Hs Hv] i. unfold truth. by rewrite Hs, Hv.
  - intros H. by rewrite (bs_ext n a b Ha Hb H).
Qed.

Lemma bs_neqb_eqb a b : bs_neqb a b = negb (bs_eqb a b).
Proof. unfold bs_neqb, bs_eqb. by destruct (bv_eqb _ _), (bv_eqb _ _). Qed.

(** ** Reading and writing *)

Lemma bs_size_ok n bs : bs_wf n bs -> bs_size bs = Ok n.
Proof.
  intros Hwf. unfold bs_size. rewrite (wf_status_size _ _ Hwf), (wf_value_size _ _ Hwf).
  by rewrite N.eqb_refl.
Qed.

Lemma get_bit_ok v i : i < size_ v -> get_bit v i = Ok (N.testbit (bits v) i).
Proof. intros H. unfold get_bit. by assert_true. Qed.

Lemma set_bit_ok v i b : i < size_ v -> set_bit v i b = Ok (put_bit v i b).
Proof. intros H. unfold set_bit. by assert_true. Qed.

Lemma test_ok n bs i : bs_wf n bs -> i < n -> test bs i = Ok (truth bs i).
Proof.
  intros Hwf Hi. unfold test, truth. rewrite (bs_size_ok _ _ Hwf). cbn. assert_true.
  rewrite (get_bit_ok (status_bit bs)) by (by rewrite (wf_status_size _ _ Hwf)). cbn.
  destruct (N.testbit _ i); [|done].
  rewrite (get_bit_ok (value_bit bs)) by (by rewrite (wf_value_size _ _ Hwf)). done.
Qed.

Definition put (bs : NewBeliefState) (i : N) (val : TruthVal) : NewBeliefState :=
  mk_bs (put_bit (status_bit bs) i (negb (bool_decide (val = DMCS_UNDEF))))
        (put_bit (value_bit bs) i (bool_decide (val = DMCS_TRUE))).

Lemma set_ok n bs i val : bs_wf n bs -> i < n -> set bs i val = Ok (put bs i val).
Proof.
  intros Hwf Hi. unfold set. rewrite (bs_size_ok _ _ Hwf). cbn. assert_true.
  pose proof (wf_status_size _ _ Hwf). pose proof (wf_value_size _ _ Hwf).
  destruct val; rewrite !set_bit_ok by congruence; done.
Qed.

Lemma truth_put bs i val j : truth (put bs i val) j = if i =? j then val else truth bs j.
Proof.
  unfold truth, put. cbn. rewrite !testbit_put_bit.
  by destruct (i =? j); [destruct val|].
Qed.

Lemma wf_put n bs i val : bs_wf n bs -> i < n -> bs_wf n (put bs i val).
Proof.
  intros Hwf Hi. destruct Hwf as [Hs Hv Hm Ws Wv Hc]. split; cbn; try done.
  - apply wf_put_bit; [done|congruence].
  - apply wf_put_bit; [done|congruence].
  - intros j. rewrite !testbit_put_bit.
    destruct (i =? j); [by destruct val|apply Hc].
Qed.

Lemma setEpsilon_ok n bs c offs off :
  bs_wf n bs -> offs !! N.to_nat c = Some off -> off < n ->
  setEpsilon bs c offs = Ok (put bs off DMCS_TRUE).
Proof.
  intros Hwf Ho Hn. unfold setEpsilon. rewrite (proj2 (vec_at_ok _ _ _) Ho). cbn.
  rewrite !set_bit_ok by (by rewrite ?(wf_status_size _ _ Hwf), ?(wf_value_size _ _ Hwf)).
  done.
Qed.

Lemma isEpsilon_ok n bs c offs off :
  bs_wf n bs -> offs !! N.to_nat c = Some off -> off < n ->
  isEpsilon bs c offs = Ok (bool_decide (truth bs off = DMCS_UNDEF)).
Proof.
  intros Hwf Ho Hn. unfold isEpsilon. rewrite (proj2 (vec_at_ok _ _ _) Ho). cbn.
  rewrite (get_bit_ok (status_bit bs)) by (by rewrite (wf_status_size _ _ Hwf)). cbn. f_equal.
  symmetry. destruct (N.testbit _ off) eqn:E; cbn.
  - apply bool_decide_eq_false_2. rewrite truth_undef. congruence.
  - by apply bool_decide_eq_true_2, truth_undef.
Qed.

Lemma set_ctx_ok n bs c offs off pos val :
  bs_wf n bs -> offs !! N.to_nat c = Some off -> off + pos < n ->
  set_ctx bs c pos offs val = Ok (put bs (off + pos) val).
Proof.
  intros Hwf Ho Hn. unfold set_ctx.
  pose proof (lookup_lt_Some _ _ _ Ho). assert_true.
  rewrite (proj2 (vec_at_ok _ _ _) Ho). cbn. rewrite (bs_size_ok _ _ Hwf). cbn.
  assert_true. by apply set_ok with n.
Qed.

(** ** The operators *)

Lemma bs_wf_blocks no_bs bs_size :
  no_bs * (bs_size + 1) <= id_max ->
  exists bs, bs_blocks no_bs bs_size false = Ok bs /\ bs_wf (no_bs * (bs_size + 1)) bs /\
             forall i, truth bs i = DMCS_UNDEF.
Proof.
  intros H. eexists. split; [done|]. split; [|done]. split; cbn; auto with bits.
Qed.

Lemma wf_or n a b : bs_wf n a -> bs_wf n b -> bs_wf n (bs_or a b).
Proof.
  intros [] []. split; cbn; rewrite ?N.max_id in *; try lia; auto with bits.
  intros i. autorewrite with bits. rewrite !orb_true_iff. intuition.
Qed.

Lemma wf_and n a b : bs_wf n a -> bs_wf n b -> bs_wf n (bs_and a b).
Proof.
  intros [] []. split; cbn; rewrite ?N.max_id in *; try lia; auto with bits.
  intros i. autorewrite with bits. rewrite !andb_true_iff. intuition.
Qed.

Lemma truth_or n a b i :
  bs_wf n a -> bs_wf n b -> truth (bs_or a b) i = tv_or (truth a i) (truth b i).
Proof.
  intros Ha Hb. pose proof (wf_clean _ _ Ha i) as H1. pose proof (wf_clean _ _ Hb i) as H2.
  unfold truth. cbn. autorewrite with bits.
  destruct (N.testbit (bits (status_bit a)) i), (N.testbit (bits (value_bit a)) i),
    (N.testbit (bits (status_bit b)) i), (N.testbit (bits (value_bit b)) i); cbn;
    intuition congruence.
Qed.

Lemma truth_and a b i : truth (bs_and a b) i = tv_and (truth a i) (truth b i).
Proof.
  unfold truth. cbn. autorewrite with bits.
  by destruct (N.testbit (bits (status_bit a)) i), (N.testbit (bits (value_bit a)) i),
    (N.testbit (bits (status_bit b)) i), (N.testbit (bits (value_bit b)) i).
Qed.

(** Masking keeps what the mask covers. *)
Lemma and_bm_ok n bs m :
  bs_wf n bs -> size_ m = n ->
  exists bs', and_bm bs m = Ok bs' /\ bs_wf n bs' /\
    forall i, truth bs' i = if N.testbit (bits m) i then truth bs i else DMCS_UNDEF.
Proof.
  intros Hwf Hm. unfold and_bm. rewrite (bs_size_ok _ _ Hwf). cbn. assert_true.
  eexists. split; [done|]. split.
  - destruct Hwf. split; cbn; rewrite ?N.max_id in *; try lia; auto with bits.
    intros i. autorewrite with bits. rewrite !andb_true_iff. intuition.
  - intros i. unfold truth. cbn. autorewrite with bits.
    destruct (N.testbit (bits m) i); by rewrite ?andb_true_r, ?andb_false_r.
Qed.

(** ** The order used to sort results *)

Definition bs_lt (a b : NewBeliefState) : Prop := bs_ltb a b = true.

Lemma bs_ltb_lt a b :
  bs_ltb a b = true <->
  bv_lt (bits (status_bit a)) (bits (status_bit b)) \/
  (bits (status_bit a) = bits (status_bit b) /\
   bv_lt (bits (value_bit a)) (bits (value_bit b))).
Proof.
  unfold bs_ltb. destruct (bv_ltb (status_bit a) (status_bit b)) eqn:E.
  - apply bv_ltb_lt in E. tauto.
  - rewrite andb_true_iff, bv_eqb_eq, bv_ltb_lt. split; [tauto|].
    intros [H|H]; [|done]. apply bv_ltb_lt in H. congruence.
Qed.

Lemma bs_lt_irrefl a : bs_ltb a a = false.
Proof.
  apply not_true_is_false. rewrite bs_ltb_lt.
  intros [H|[_ H]]; by apply bv_lt_irrefl in H.
Qed.

Lemma bs_lt_trans a b c : bs_lt a b -> bs_lt b c -> bs_lt a c.
Proof.
  unfold bs_lt. rewrite !bs_ltb_lt.
  intros [H1|[E1 H1]] [H2|[E2 H2]]; rewrite ?E1, ?E2 in *;
    eauto using bv_lt_trans.
Qed.

Lemma bs_lt_total a b : bs_lt a b \/ bs_eqb a b = true \/ bs_lt b a.
Proof.
  unfold bs_lt, bs_eqb. rewrite !bs_ltb_lt, andb_true_iff, !bv_eqb_eq.
  destruct (bv_lt_total (bits (status_bit a)) (bits (status_bit b))) as [H|[H|H]]; auto.
  destruct (bv_lt_total (bits (value_bit a)) (bits (value_bit b))) as [H'|[H'|H']]; auto.
Qed.

(** ** Scanning *)

(** [r] is the first true position from [k] on, or 0 when there is none. *)
Definition first_true (bs : NewBeliefState) (k r : N) : Prop :=
  (r = 0 /\ forall i, k <= i -> truth bs i <> DMCS_TRUE) \/
  (k <= r /\ truth bs r = DMCS_TRUE /\ forall i, k <= i -> i < r -> truth bs i <> DMCS_TRUE).

Lemma status_lt n bs i : bs_wf n bs -> N.testbit (bits (status_bit bs)) i = true -> i < n.
Proof.
  intros Hwf H. destruct (N.lt_ge_cases i n) as [|Hge]; [done|].
  rewrite (wf_status _ _ Hwf i) in H; [done|]. by rewrite (wf_status_size _ _ Hwf).
Qed.

Lemma get_next_status n bs k :
  bs_wf n bs ->
  (get_next (status_bit bs) k = 0 /\ forall i, k < i -> truth bs i = DMCS_UNDEF) \/
  (k < get_next (status_bit bs) k /\ truth bs (get_next (status_bit bs) k) <> DMCS_UNDEF /\
   forall i, k < i -> i < get_next (status_bit bs) k -> truth bs i = DMCS_UNDEF).
Proof.
  intros Hwf. destruct (get_next_spec (status_bit bs) k) as [[? H]|(? & ? & H)].
  - apply (wf_status _ _ Hwf).
  - rewrite (wf_status_size _ _ Hwf). apply (wf_size_max _ _ Hwf).
  - left. split; [done|]. intros. by apply truth_undef, H.
  - right. repeat split; [done| |]; intros; [by rewrite truth_undef; congruence|].
    by apply truth_undef, H.
Qed.

Lemma first_true_step bs k j r :
  k < j -> truth bs k <> DMCS_TRUE -> (forall i, k < i -> i < j -> truth bs i = DMCS_UNDEF) ->
  first_true bs j r -> first_true bs k r.
Proof.
  intros Hkj Hk Hgap H.
  assert (Hlow : forall i, k <= i -> i < j -> truth bs i <> DMCS_TRUE).
  { intros i Hi Hij. destruct (N.eq_dec i k) as [->|]; [done|]. rewrite Hgap by lia. done. }
  destruct H as [[-> H]|(Hle & Ht & H)]; [left|right].
  - split; [done|]. intros i Hi. destruct (N.lt_ge_cases i j); auto.
  - split; [lia|]. split; [done|]. intros i Hi Hr. destruct (N.lt_ge_cases i j); auto.
Qed.

Lemma find_true_ok n bs fuel k :
  bs_wf n bs -> truth bs k <> DMCS_UNDEF ->
  N.of_nat (N.size_nat (bits (status_bit bs))) <= N.of_nat fuel + k ->
  exists r, find_true fuel bs k = Ok r /\ first_true bs k r.
Proof.
  intros Hwf. revert k. induction fuel as [|fuel IH]; intros k Hk Hf.
  { exfalso. rewrite truth_undef in Hk. apply not_false_is_true, testbit_size_nat in Hk. lia. }
  assert (Hkn : k < n).
  { apply (status_lt n bs); [done|]. rewrite truth_undef in Hk. by apply not_false_is_true. }
  cbn [find_true]. rewrite (get_bit_ok (value_bit bs)) by (by rewrite (wf_value_size _ _ Hwf)).
  rsimpl. destruct (N.testbit _ k) eqn:Hv.
  - exists k. split; [done|]. right. split; [lia|].
    split; [by apply (truth_true n)|lia].
  - assert (Hnt : truth bs k <> DMCS_TRUE).
    { rewrite (truth_true n bs k Hwf). congruence. }
    destruct (get_next_status n bs k Hwf) as [[-> H]|(Hlt & Hst & H)].
    + exists 0. split; [done|]. left. split; [done|]. intros i Hi.
      destruct (N.eq_dec i k) as [->|]; [done|]. rewrite H by lia. done.
    + destruct (N.eqb_spec (get_next (status_bit bs) k) 0); [lia|].
      destruct (IH (get_next (status_bit bs) k)) as (r & -> & Hr); [done|lia|].
      exists r. split; [done|]. eapply first_true_step; eauto.
Qed.

Lemma getNext_ok n bs k :
  bs_wf n bs -> k < n ->
  exists r, getNext bs k = Ok r /\ first_true bs (k + 1) r.
Proof.
  intros Hwf Hk. unfold getNext. rewrite (wf_status_size _ _ Hwf). assert_true.
  destruct (get_next_status n bs k Hwf) as [[-> H]|(Hlt & Hst & H)].
  - exists 0. split; [done|]. left. split; [done|]. intros i Hi. rewrite H by lia. done.
  - destruct (N.eqb_spec (get_next (status_bit bs) k) 0); [lia|].
    destruct (find_true_ok n bs (scan_fuel bs) (get_next (status_bit bs) k)) as (r & -> & Hr);
      [done|done|unfold scan_fuel; lia|].
    exists r. split; [done|].
    destruct (N.eq_dec (k + 1) (get_next (status_bit bs) k)) as [->|Hne]; [done|].
    eapply first_true_step; [| | |exact Hr]; [lia| |].
    + rewrite H by lia. done.
    + intros i ??. apply H; lia.
Qed.

Lemma getFirst_ok n bs :
  bs_wf n bs -> exists r, getFirst bs = Ok r /\ first_true bs 0 r.
Proof.
  intros Hwf. unfold getFirst. destruct (N.eqb_spec (count (status_bit bs)) 0) as [E|E].
  - exists 0. split; [done|]. left. split; [done|]. intros i _.
    apply count_0 in E. unfold truth. rewrite E, N.bits_0. done.
  - destruct (check_or_next_spec (status_bit bs) 0) as [[? H]|(? & Ht & H)].
    + exfalso. apply E, count_0, N.bits_inj_0. intros i. apply H. lia.
    + destruct (find_true_ok n bs (scan_fuel bs) (get_first (status_bit bs))) as (r & -> & Hr).
      * done.
      * rewrite truth_undef. unfold get_first. congruence.
      * unfold scan_fuel. lia.
      * exists r. split; [done|].
        destruct (N.eq_dec 0 (get_first (status_bit bs))) as [E0|Hne]; [by rewrite E0|].
        eapply first_true_step; [| | |exact Hr]; [lia| |].
        -- assert (truth bs 0 = DMCS_UNDEF) as ->; [|done].
           apply truth_undef, H; [lia|]. unfold get_first in *. lia.
        -- intros i ??. apply truth_undef, H; [lia|done].
Qed.

(** ** The loop [bit = getFirst(); while (bit) { ...; bit = getNext(bit); }]

    The positions its body sees, in order.  The loop is written out in
    [DLVEvaluator::solve] and in [NewContext::next_guess] and [jump_guess]. *)
Fixpoint iterate (fuel : nat) (bs : NewBeliefState) (bit : N) : res (list N) :=
  match fuel with
  | O => Err OutOfFuel
  | S fuel =>
      if bit =? 0 then mret []
      else
        next ← getNext bs bit;
        rest ← iterate fuel bs next;
        mret (bit :: rest)
  end.

Definition true_positions (bs : NewBeliefState) : res (list N) :=
  bit ← getFirst bs;
  iterate (S (scan_fuel bs)) bs bit.

(** The specification: the true positions from [k] on, in increasing order. *)
Definition trues (n : N) (bs : NewBeliefState) (k : N) : list N :=
  filter (fun i => truth bs i = DMCS_TRUE) (nrange k n).

Lemma trues_nil n bs k : (forall i, k <= i -> truth bs i <> DMCS_TRUE) -> trues n bs k = [].
Proof.
  intros H. unfold trues. apply elem_of_nil_inv. intros i.
  rewrite list_elem_of_filter, elem_of_nrange. intros [Ht [Hk _]]. by apply (H i).
Qed.

Lemma trues_step n bs k r :
  k <= r -> r < n -> truth bs r = DMCS_TRUE ->
  (forall i, k <= i -> i < r -> truth bs i <> DMCS_TRUE) ->
  trues n bs k = r :: trues n bs (r + 1).
Proof.
  intros Hk Hr Ht Hbelow. unfold trues.
  rewrite (nrange_split k r n) by lia. rewrite filter_app, (nrange_cons r n) by done.
  rewrite filter_cons_True by done.
  replace (filter _ (nrange k r)) with (@nil N); [done|].
  symmetry. apply elem_of_nil_inv. intros i.
  rewrite list_elem_of_filter, elem_of_nrange. intros [Hi [? ?]]. by apply (Hbelow i).
Qed.

Lemma iterate_ok n bs fuel k r :
  bs_wf n bs -> 0 < k -> first_true bs k r ->
  N.of_nat (N.size_nat (bits (status_bit bs))) < N.of_nat fuel + k ->
  (0 < fuel)%nat ->
  iterate fuel bs r = Ok (trues n bs k).
Proof.
  intros Hwf. revert k r. induction fuel as [|fuel IH]; intros k r Hk Hf Hfuel Hpos; [lia|].
  cbn [iterate]. destruct Hf as [[-> Hnone]|(Hkr & Ht & Hbelow)].
  - cbn. by rewrite trues_nil.
  - destruct (N.eqb_spec r 0); [lia|].
    assert (Hst : N.testbit (bits (status_bit bs)) r = true).
    { destruct (N.testbit (bits (status_bit bs)) r) eqn:E; [done|].
      apply truth_undef in E. congruence. }
    pose proof (status_lt n bs r Hwf Hst) as Hrn.
    pose proof (testbit_size_nat _ _ Hst) as Hsz.
    destruct (getNext_ok n bs r Hwf Hrn) as (r' & -> & Hf'). rsimpl.
    rewrite (IH (r + 1) r') by (done || lia). rsimpl.
    by rewrite (trues_step n bs k r).
Qed.

Lemma true_positions_ok n bs :
  bs_wf n bs -> truth bs 0 <> DMCS_TRUE -> true_positions bs = Ok (trues n bs 1).
Proof.
  intros Hwf H0. unfold true_positions.
  destruct (getFirst_ok n bs Hwf) as (r & -> & Hf). rsimpl.
  apply iterate_ok; [done|lia| |unfold scan_fuel; lia|lia].
  destruct Hf as [[-> H]|(_ & Ht & Hb)].
  - left. split; [done|]. intros i Hi. apply H. lia.
  - right. destruct (N.eq_dec r 0) as [->|]; [done|].
    split; [lia|]. split; [done|]. intros i ??. apply Hb; lia.
Qed.

(** ** Correctness *)

(** [set] then [test]: a write to a position below the size succeeds,
    keeps the representation well formed, is read back by [test], and leaves
    every other position as it was. *)
Theorem set_test_roundtrip n bs i val :
  bs_wf n bs -> i < n ->
  exists bs', set bs i val = Ok bs' /\ bs_wf n bs' /\
    forall j, j < n -> test bs' j = if i =? j then Ok val else test bs j.
Proof.
  intros Hwf Hi. exists (put bs i val). rewrite (set_ok n) by done.
  split; [done|]. split; [by apply wf_put|]. intros j Hj.
  rewrite (test_ok n (put bs i val)), truth_put by (by try apply wf_put).
  rewrite (test_ok n bs) by done. by destruct (i =? j).
Qed.

(** [operator<] is a strict total order whose equivalence is
    [operator==], and on well-formed states [operator==] holds exactly when
    the two states give every position the same truth value. *)
Lemma order_total n a b c :
  bs_wf n a -> bs_wf n b ->
  bs_ltb a a = false /\
  (bs_ltb a b = true -> bs_ltb b c = true -> bs_ltb a c = true) /\
  (bs_ltb a b = true \/ bs_eqb a b = true \/ bs_ltb b a = true) /\
  (bs_eqb a b = true <-> forall i, truth a i = truth b i) /\
  bs_neqb a b = negb (bs_eqb a b).
Proof.
  intros Ha Hb. split; [apply bs_lt_irrefl|]. split; [apply bs_lt_trans|].
  split; [apply bs_lt_total|]. split; [by apply (bs_eqb_truth n)|apply bs_neqb_eqb].
Qed.

(** Iterating with [getFirst] and [getNext] visits the true positions
    of the state, each once and in increasing order, and stops, provided
    position 0 (the epsilon position of context 0) is not itself true. *)
Theorem iteration_enumerates n bs :
  bs_wf n bs -> truth bs 0 <> DMCS_TRUE ->
  true_positions bs = Ok (filter (fun i => truth bs i = DMCS_TRUE) (nrange 1 n)).
Proof. apply true_positions_ok. Qed.

(** Position 0 doubles as the end marker of the iteration: once
    context 0 is marked as computed, [getFirst] answers 0 and the iteration
    sees no position at all, whatever else is true. *)
Lemma iteration_blocked_by_epsilon n bs :
  bs_wf n bs -> truth bs 0 = DMCS_TRUE -> getFirst bs = Ok 0 /\ true_positions bs = Ok [].
Proof.
  intros Hwf H0. assert (H : getFirst bs = Ok 0).
  { destruct (getFirst_ok n bs Hwf) as (r & -> & [[-> H]|(_ & _ & H)]); [done|].
    destruct (N.eq_dec r 0) as [->|]; [done|]. exfalso. apply (H 0); [lia..|done]. }
  split; [done|]. unfold true_positions. by rewrite H.
Qed.

(** *** A concrete state: five positions, 1 true, 3 false, 4 true *)
Definition sample : NewBeliefState := mk_bs (mk_bvector 5 26) (mk_bvector 5 18).

Lemma sample_wf : bs_wf 5 sample.
Proof.
  split; [done..| | |].
  - intros i Hi. apply N.bits_above_log2. change (N.log2 _) with 4. change (5 <= i) in Hi. lia.
  - intros i Hi. apply N.bits_above_log2. change (N.log2 _) with 4. change (5 <= i) in Hi. lia.
  - intros i. destruct (N.lt_ge_cases i 5) as [Hi|Hi].
    + assert (i = 0 \/ i = 1 \/ i = 2 \/ i = 3 \/ i = 4) as [->|[->|[->|[->| ->]]]] by lia; done.
    + rewrite (N.bits_above_log2 (bits (value_bit sample))); [done|].
      change (N.log2 _) with 4. lia.
Qed.

Lemma set_test_roundtrip_witness :
  exists bs', set sample 2 DMCS_TRUE = Ok bs' /\ bs_wf 5 bs' /\
    forall j, j < 5 -> test bs' j = if 2 =? j then Ok DMCS_TRUE else test sample j.
Proof. apply (set_test_roundtrip 5 sample 2 DMCS_TRUE); [apply sample_wf|lia]. Defined.

Lemma order_total_witness :
  bs_ltb sample sample = false /\
  (bs_ltb sample sample = true -> bs_ltb sample sample = true -> bs_ltb sample sample = true) /\
  (bs_ltb sample sample = true \/ bs_eqb sample sample = true \/ bs_ltb sample sample = true) /\
  (bs_eqb sample sample = true <-> forall i, truth sample i = truth sample i) /\
  bs_neqb sample sample = negb (bs_eqb sample sample).
Proof. apply (order_total 5 sample sample sample); apply sample_wf. Defined.

Lemma iteration_enumerates_witness :
  true_positions sample = Ok [1; 4].
Proof. apply (iteration_enumerates 5 sample); [apply sample_wf|discriminate]. Defined.

Lemma iteration_blocked_by_epsilon_witness :
  getFirst (put sample 0 DMCS_TRUE) = Ok 0 /\ true_positions (put sample 0 DMCS_TRUE) = Ok [].
Proof.
  apply (iteration_blocked_by_epsilon 5 (put sample 0 DMCS_TRUE)); [|reflexivity].
  apply wf_put; [apply sample_wf|lia].
Defined.

End BeliefState.
