(* ===== verification/BeliefStateOffset.v ===== *)
(** * The block layout of belief states

    [BeliefStateOffset] (include/mcs/BeliefStateOffset.h,
    src/mcs/BeliefStateOffset.cpp): the singleton that fixes where the block
    of each context starts and which positions its mask covers.  Offsets and
    sizes are [std::size_t], 64 bits; the sizes and positions handed to
    [bm::bvector] become [bm::id_t], 32 bits. *)

From S2P Require Import Prelude BitMagic BeliefState.
Import BitMagic.

Module BeliefStateOffset.

(** The conversion of a [std::size_t] to [bm::id_t]. *)
Definition to_id (n : N) : N := n mod (id_max + 1).

Record Offsets := mk_offsets {
  no_blocks : N;
  size_belief_state : N;
  masks : list bvector;
  starting_offsets : list N;
}.

(** The mask of one block: the inner [for] loop of the constructor. *)
Definition block_mask (no_bs size_bs off : N) : res bvector :=
  foldM (fun m j => set_bit m (to_id j) true)
    (bvector_sized (to_id (u64_mul no_bs (u64_add size_bs 1))))
    (nrange off (u64_add off size_bs)).

(** One turn of the constructor's outer loop. *)
Definition ctor_step (no_bs size_bs : N) (acc : list N * list bvector) (i : N)
    : res (list N * list bvector) :=
  let '(offs, ms) := acc in
  offs ← (if 0 <? i then
            prev ← vec_at offs (i - 1);
            mret (<[N.to_nat i := u64_add (u64_add prev size_bs) 1]> offs)
          else mret offs);
  off ← vec_at offs i;
  m ← block_mask no_bs size_bs off;
  mret (offs, ms ++ [m]).

Definition ctor (no_bs size_bs : N) : res Offsets :=
  _ ← assert ((0 <? no_bs) && (0 <? size_bs));
  '(offs, ms) ← foldM (ctor_step no_bs size_bs) (replicate (N.to_nat no_bs) 0, [])
                  (nrange 0 no_bs);
  mret (mk_offsets no_bs size_bs ms offs).

(** The singleton [_instance], null until it is created. *)
Definition create (_instance : option Offsets) (no_bs size_bs : N)
    : res (option Offsets * Offsets) :=
  match _instance with
  | None => o ← ctor no_bs size_bs; mret (Some o, o)
  | Some o => mret (_instance, o)
  end.

Definition instance (_instance : option Offsets) : res Offsets :=
  match _instance with Some o => mret o | None => Err AssertFailed end.

(** ** The layout in closed form *)

Definition block_start (size_bs c : N) : N := c * (size_bs + 1).

Definition mask_of (no_bs size_bs c : N) : bvector :=
  mk_bvector (no_bs * (size_bs + 1)) (N.shiftl (N.ones size_bs) (block_start size_bs c)).

Definition layout (no_bs size_bs : N) : Offsets :=
  mk_offsets no_bs size_bs
    (mask_of no_bs size_bs <$> nrange 0 no_bs)
    (block_start size_bs <$> nrange 0 no_bs).

Lemma testbit_mask_of no_bs size_bs c p :
  N.testbit (bits (mask_of no_bs size_bs c)) p =
  (block_start size_bs c <=? p) && (p <? block_start size_bs c + size_bs).
Proof.
  cbn. destruct (N.leb_spec (block_start size_bs c) p).
  - rewrite N.shiftl_spec_high' by done.
    destruct (N.ltb_spec p (block_start size_bs c + size_bs)).
    + apply N.ones_spec_low. lia.
    + apply N.ones_spec_high. lia.
  - by rewrite N.shiftl_spec_low.
Qed.

Lemma to_id_small n : n <= id_max -> to_id n = n.
Proof. intros H. apply N.mod_small. lia. Qed.

Lemma foldM_set_bits l v :
  size_ v <= id_max -> Forall (fun j => j < size_ v) l ->
  exists v', foldM (fun m j => set_bit m (to_id j) true) v l = Ok v' /\ size_ v' = size_ v /\
    forall p, N.testbit (bits v') p = true <-> N.testbit (bits v) p = true \/ p ∈ l.
Proof.
  intros Hv. revert v Hv. induction l as [|j l IH]; intros v Hv Hl.
  - exists v. repeat split; [done..|by left|]. intros [H|H]; [done|]. by apply not_elem_of_nil in H.
  - inversion_clear Hl as [|?? Hj Hl']. cbn [foldM].
    rewrite to_id_small, BeliefState.set_bit_ok by (done || lia). rsimpl.
    destruct (IH (put_bit v j true)) as (v' & -> & Hs & Hb); [done|done|].
    exists v'. split; [done|]. split; [done|]. intros p.
    rewrite Hb, testbit_put_bit, elem_of_cons.
    destruct (N.eqb_spec j p) as [->|]; [tauto|]. intuition congruence.
Qed.

Lemma block_mask_ok no_bs size_bs c :
  no_bs * (size_bs + 1) <= id_max -> c < no_bs ->
  block_mask no_bs size_bs (block_start size_bs c) = Ok (mask_of no_bs size_bs c).
Proof.
  intros Hmax Hc. unfold block_mask.
  assert (Hb1 : block_start size_bs c + size_bs < no_bs * (size_bs + 1)) by (unfold block_start; nia).
  rewrite (u64_add_small (block_start size_bs c)), (u64_add_small size_bs), u64_mul_small, to_id_small
    by (unfold id_max in *; nia).
  destruct (foldM_set_bits (nrange (block_start size_bs c) (block_start size_bs c + size_bs))
    (bvector_sized (no_bs * (size_bs + 1)))) as (v & -> & Hs & Hb); [done| |].
  { apply Forall_forall. intros j. rewrite elem_of_nrange. unfold block_start. cbn. nia. }
  f_equal. destruct v as [sz b]. unfold mask_of. cbn in *. f_equal; [done|].
  apply N.bits_inj. intros p. apply eq_true_iff_eq.
  pose proof (testbit_mask_of no_bs size_bs c p) as Hm. cbn [bits mask_of] in Hm.
  rewrite Hb, elem_of_nrange, Hm, andb_true_iff, N.leb_le, N.ltb_lt. intuition congruence.
Qed.

Lemma ctor_ok no_bs size_bs :
  0 < no_bs -> 0 < size_bs -> no_bs * (size_bs + 1) <= id_max ->
  ctor no_bs size_bs = Ok (layout no_bs size_bs).
Proof.
  intros Hn Hs Hmax. unfold ctor.
  assert_true.
  destruct (foldM_nrange
    (fun k (acc : list N * list bvector) =>
       length acc.1 = N.to_nat no_bs /\
       (forall c, c < k -> acc.1 !! N.to_nat c = Some (block_start size_bs c)) /\
       acc.1 !! 0%nat = Some 0 /\
       acc.2 = mask_of no_bs size_bs <$> nrange 0 k)
    (ctor_step no_bs size_bs) (replicate (N.to_nat no_bs) 0, []) no_bs)
    as ([offs ms] & E & Hlen & Hoff & _ & Hms).
  - cbn. rewrite length_replicate, nrange_nil by lia. repeat split; try done; [lia|].
    apply lookup_replicate_2. lia.
  - intros i [offs ms] Hi (Hlen & Hoff & H0 & Hms). cbn in *.
    set (offs' := if 0 <? i then <[N.to_nat i := block_start size_bs i]> offs else offs).
    assert (Hi' : offs' !! N.to_nat i = Some (block_start size_bs i)).
    { unfold offs'. destruct (N.ltb_spec 0 i).
      - apply list_lookup_insert_eq. lia.
      - replace i with 0 by lia. done. }
    exists (offs', ms ++ [mask_of no_bs size_bs i]). split.
    + assert (Hstep : (if 0 <? i then
            prev ← vec_at offs (i - 1);
            mret (<[N.to_nat i := u64_add (u64_add prev size_bs) 1]> offs)
          else mret offs) = Ok offs').
      { unfold offs'. destruct (N.ltb_spec 0 i); [|done].
        rewrite (proj2 (vec_at_ok _ _ _) (Hoff (i - 1) ltac:(lia))). cbn.
        assert (block_start size_bs (i - 1) + size_bs + 1 = block_start size_bs i) as Hst
          by (unfold block_start; nia).
        assert (block_start size_bs i <= no_bs * (size_bs + 1)) by (unfold block_start; nia).
        unfold id_max in Hmax. rewrite (u64_add_small (block_start _ _)) by lia.
        rewrite u64_add_small by lia. by rewrite Hst. }
      rewrite Hstep. rsimpl. rewrite (proj2 (vec_at_ok _ _ _) Hi').
      rsimpl. by rewrite block_mask_ok by done.
    + cbn. split; [|split; [|split]].
      * unfold offs'. destruct (0 <? i); by rewrite ?length_insert.
      * intros c Hc. destruct (N.eq_dec c i) as [->|]; [done|].
        unfold offs'. destruct (0 <? i); [rewrite list_lookup_insert_ne by lia|]; apply Hoff; lia.
      * unfold offs'. destruct (N.ltb_spec 0 i); [rewrite list_lookup_insert_ne by lia|]; done.
      * rewrite nrange_snoc, fmap_app, Hms by lia. done.
  - rewrite E. cbn in *. unfold layout. rewrite Hms. do 2 f_equal.
    apply list_eq. intros k. rewrite list_lookup_fmap, lookup_nrange. case_decide as Hk.
    + cbn. replace k with (N.to_nat (N.of_nat k)) at 1 by lia. rewrite Hoff by lia. do 2 f_equal. 
    + cbn. apply lookup_ge_None. lia.
Qed.

(** The bound is needed: the size of the masks is taken modulo 2^32, so that
    belief states of a multiple of 2^32 positions get masks of size 0 and
    setting the first bit aborts. *)
Lemma oversized_layout_aborts no_bs size_bs k :
  0 < no_bs -> 0 < size_bs -> no_bs * (size_bs + 1) = k * (id_max + 1) -> no_bs * (size_bs + 1) < W64 ->
  ctor no_bs size_bs = Err AssertFailed.
Proof.
  intros Hn Hs Hk Hw. unfold ctor. assert_true.
  assert (E : ctor_step no_bs size_bs (replicate (N.to_nat no_bs) 0, []) 0 = Err AssertFailed).
  { unfold ctor_step. cbn [N.ltb N.compare]. rsimpl.
    rewrite (proj2 (vec_at_ok _ 0 0)) by (apply lookup_replicate_2; lia). rsimpl.
    unfold block_mask. rewrite (u64_add_small size_bs), u64_mul_small, Hk by nia.
    unfold to_id at 2. rewrite N.Div0.mod_mul, (u64_add_small 0), N.add_0_l by nia.
    by rewrite (nrange_cons 0 size_bs) by done. }
  rewrite (nrange_cons 0 no_bs) by done. cbn [foldM]. by rewrite E.
Qed.

(** C39.  When a belief state has at most 2^32 - 1 positions, the constructor
    succeeds on positive sizes, and the blocks it lays out partition the
    positions of a belief state: every position below [no_bs * (size_bs + 1)]
    lies in exactly one block.  The mask of a block has the size of a belief
    state and covers the first [size_bs] of the [size_bs + 1] positions of its
    block, and nothing else. *)
Theorem blocks_partition no_bs size_bs :
  0 < no_bs -> 0 < size_bs -> no_bs * (size_bs + 1) <= id_max ->
  exists o, ctor no_bs size_bs = Ok o /\
    length (starting_offsets o) = N.to_nat no_bs /\ length (masks o) = N.to_nat no_bs /\
    (forall p, p < no_bs * (size_bs + 1) ->
       exists! c, exists st, starting_offsets o !! c = Some st /\ st <= p /\ p <= st + size_bs) /\
    (forall c st m, starting_offsets o !! c = Some st -> masks o !! c = Some m ->
       size_ m = no_bs * (size_bs + 1) /\
       forall p, N.testbit (bits m) p = true <-> st <= p /\ p < st + size_bs).
Proof.
  intros Hn Hs Hmax. exists (layout no_bs size_bs). rewrite ctor_ok by done. cbn.
  rewrite !length_fmap, length_nrange. split; [done|]. split; [lia|]. split; [lia|].
  assert (Hoff : forall c st, (block_start size_bs <$> nrange 0 no_bs) !! c = Some st <->
    (c < N.to_nat no_bs)%nat /\ st = N.of_nat c * (size_bs + 1)).
  { intros c st. rewrite list_lookup_fmap, lookup_nrange. unfold block_start.
    case_decide; cbn; split; [intros [= <-]|intros [? ->]|done|lia];
      rewrite ?N.add_0_l; (split || f_equal); (done || lia). }
  split.
  - intros p Hp. exists (N.to_nat (p / (size_bs + 1))).
    assert (p / (size_bs + 1) < no_bs) by (apply N.Div0.div_lt_upper_bound; lia).
    pose proof (N.div_mod p (size_bs + 1) ltac:(lia)).
    pose proof (N.mod_lt p (size_bs + 1) ltac:(lia)).
    generalize dependent (p mod (size_bs + 1)).
    generalize dependent (p / (size_bs + 1)). intros q Hq r Hr Hlt. split.
    + exists (q * (size_bs + 1)). rewrite Hoff.
      rewrite N2Nat.id. split; [split; [lia|done]|lia].
    + intros c (st & Hc & H1 & H2). apply Hoff in Hc as [Hc ->].
      enough (q = N.of_nat c) by lia.
      destruct (N.lt_trichotomy q (N.of_nat c)) as [H|[H|H]]; [nia|done|nia].
  - intros c st m Hc Hm. apply Hoff in Hc as [Hc ->].
    rewrite list_lookup_fmap, lookup_nrange, decide_True in Hm by lia.
    cbn in Hm. injection Hm as <-. split; [done|]. intros p.
    change (N.shiftl (N.ones size_bs) (block_start size_bs (N.of_nat c)))
      with (bits (mask_of no_bs size_bs (N.of_nat c))).
    rewrite testbit_mask_of, andb_true_iff, N.leb_le, N.ltb_lt. done.
Qed.

Lemma blocks_partition_witness :
  exists o, ctor 3 2 = Ok o /\
    length (starting_offsets o) = 3%nat /\ length (masks o) = 3%nat /\
    (forall p, p < 9 ->
       exists! c, exists st, starting_offsets o !! c = Some st /\ st <= p /\ p <= st + 2) /\
    (forall c st m, starting_offsets o !! c = Some st -> masks o !! c = Some m ->
       size_ m = 9 /\ forall p, N.testbit (bits m) p = true <-> st <= p /\ p < st + 2).
Proof. apply (blocks_partition 3 2); unfold id_max; lia. Defined.

End BeliefStateOffset.
