(* ===== verification/Combination.v ===== *)
(** * Combining belief states

    What [combine] and [consistent_with] (src/mcs/NewBeliefState.cpp) compute
    under the block layout of [BeliefStateOffset]. *)

From S2P Require Import Prelude BitMagic BeliefState BeliefStateOffset.
Import BitMagic BeliefState BeliefStateOffset.

Module Combination.

(** Address [a] of the block of context [c]. *)
Definition gpos (sb c a : N) : N := block_start sb c + a.

(** A context has been computed in a state when its epsilon position is
    assigned (the code's [isEpsilon] is the negation). *)
Definition computed (sb : N) (bs : NewBeliefState) (c : N) : bool :=
  negb (bool_decide (truth bs (block_start sb c) = DMCS_UNDEF)).

Section layout.
Context (nb sb : N) (Hnb : 0 < nb) (Hsb : 0 < sb) (Hmax : nb * (sb + 1) <= id_max).

Local Abbreviation n := (nb * (sb + 1)).
Local Abbreviation offs := (starting_offsets (layout nb sb)).
Local Abbreviation ms := (masks (layout nb sb)).

Lemma offs_lookup c : c < nb -> offs !! N.to_nat c = Some (block_start sb c).
Proof.
  intros Hc. cbn. rewrite list_lookup_fmap, lookup_nrange.
  rewrite decide_True by lia. cbn. do 2 f_equal. lia.
Qed.

Lemma masks_lookup c : c < nb -> ms !! N.to_nat c = Some (mask_of nb sb c).
Proof.
  intros Hc. cbn. rewrite list_lookup_fmap, lookup_nrange.
  rewrite decide_True by lia. cbn. do 2 f_equal. lia.
Qed.

Lemma length_offs : N.of_nat (length offs) = nb.
Proof. cbn. rewrite length_fmap, length_nrange. lia. Qed.

Lemma length_masks : N.of_nat (length ms) = nb.
Proof. cbn. rewrite length_fmap, length_nrange. lia. Qed.

Lemma gpos_lt c a : c < nb -> a <= sb -> gpos sb c a < n.
Proof. unfold gpos, block_start. nia. Qed.

Lemma isEpsilon_computed bs c :
  bs_wf n bs -> c < nb -> isEpsilon bs c offs = Ok (negb (computed sb bs c)).
Proof.
  intros Hwf Hc. unfold computed. rewrite negb_involutive.
  apply isEpsilon_ok with n; [done|by apply offs_lookup|].
  replace (block_start sb c) with (gpos sb c 0) by (unfold gpos; lia). apply gpos_lt; lia.
Qed.

(** A mask covers the addresses below [sb] of its block, and no other block. *)
Lemma mask_gpos c c' a :
  a <= sb ->
  N.testbit (bits (mask_of nb sb c)) (gpos sb c' a) = (c =? c') && (a <? sb).
Proof.
  intros Ha. rewrite testbit_mask_of. apply eq_true_iff_eq.
  rewrite !andb_true_iff, N.leb_le, N.eqb_eq, !N.ltb_lt. unfold gpos, block_start.
  split; [|intros [-> ?]; lia]. intros [H1 H2]. enough (c = c') by (subst; lia).
  destruct (N.lt_trichotomy c c') as [|[|]]; [exfalso; nia|done|exfalso; nia].
Qed.

(** ** The masks built by [combine] *)

Section pair.
Context (s t : NewBeliefState) (Hs : bs_wf n s) (Ht : bs_wf n t).

Definition both (c : N) : bool := computed sb s c && computed sb t c.
Definition only_t (c : N) : bool := negb (computed sb s c) && computed sb t c.

Definition mask_step (acc : bvector * bvector) (c : N) : bvector * bvector :=
  (if both c then bit_or acc.1 (mask_of nb sb c) else acc.1,
   if only_t c then bit_or acc.2 (mask_of nb sb c) else acc.2).

Lemma combine_mask_step_ok acc c :
  c < nb -> combine_mask_step s t offs ms acc c = Ok (mask_step acc c).
Proof.
  intros Hc. destruct acc as [check comb]. unfold combine_mask_step.
  rewrite !isEpsilon_computed by done. rsimpl.
  rewrite (proj2 (vec_at_ok _ _ _) (masks_lookup c Hc)). rsimpl.
  unfold mask_step, both, only_t. rewrite !negb_involutive.
  by destruct (computed sb s c), (computed sb t c).
Qed.

Lemma mask_fold l acc p :
  N.testbit (bits (foldl mask_step acc l).1) p =
    N.testbit (bits acc.1) p || existsb (fun c => both c && N.testbit (bits (mask_of nb sb c)) p) l /\
  N.testbit (bits (foldl mask_step acc l).2) p =
    N.testbit (bits acc.2) p || existsb (fun c => only_t c && N.testbit (bits (mask_of nb sb c)) p) l.
Proof.
  revert acc. induction l as [|c l IH]; intros acc.
  - cbn. by rewrite !orb_false_r.
  - cbn [foldl existsb]. destruct (IH (mask_step acc c)) as [-> ->].
    unfold mask_step. cbn [fst snd]. destruct (both c), (only_t c); cbn [andb];
      rewrite ?orb_assoc, ?orb_false_l, ?orb_false_r; cbn [bit_or bits];
      by rewrite ?N.lor_spec, ?orb_false_r.
Qed.

Lemma mask_fold_size l acc :
  size_ acc.1 = n -> size_ acc.2 = n ->
  size_ (foldl mask_step acc l).1 = n /\ size_ (foldl mask_step acc l).2 = n.
Proof.
  revert acc. induction l as [|c l IH]; intros acc H1 H2; [done|].
  apply IH; unfold mask_step; cbn [fst snd].
  - destruct (both c); [|done]. cbn. rewrite H1. apply N.max_id.
  - destruct (only_t c); [|done]. cbn. rewrite H2. apply N.max_id.
Qed.

Lemma existsb_block (P : N -> bool) c a :
  c < nb -> a <= sb ->
  existsb (fun i => P i && N.testbit (bits (mask_of nb sb i)) (gpos sb c a)) (nrange 0 nb)
  = P c && (a <? sb).
Proof.
  intros Hc Ha. apply eq_true_iff_eq. rewrite existsb_exists. split.
  - intros (i & _ & H). rewrite mask_gpos in H by done.
    apply andb_true_iff in H as [HP [<-%N.eqb_eq Hlt]%andb_true_iff]. by rewrite HP.
  - intros [HP Hlt]%andb_true_iff. exists c. split.
    + apply list_elem_of_In, elem_of_nrange. lia.
    + by rewrite HP, mask_gpos, N.eqb_refl, Hlt.
Qed.

(** The two masks at an address of a block. *)
Lemma combine_masks_ok :
  exists check comb,
    foldM (combine_mask_step s t offs ms) (bvector_sized n, bvector_sized n)
      (nrange 0 (N.of_nat (length offs))) = Ok (check, comb) /\
    size_ check = n /\ size_ comb = n /\
    forall c a, c < nb -> a <= sb ->
      N.testbit (bits check) (gpos sb c a) = both c && (a <? sb) /\
      N.testbit (bits comb) (gpos sb c a) = only_t c && (a <? sb).
Proof.
  rewrite length_offs.
  destruct (foldM_total (fun _ => True) (combine_mask_step s t offs ms) mask_step (nrange 0 nb))
    with (b := (bvector_sized n, bvector_sized n)) as [E _]; [|done|].
  { intros acc c Hc%elem_of_nrange _. split; [|done]. apply combine_mask_step_ok. lia. }
  destruct (foldl mask_step _ _) as [check comb] eqn:F.
  exists check, comb. split; [done|].
  pose proof (mask_fold_size (nrange 0 nb) (bvector_sized n, bvector_sized n)) as Hsz.
  rewrite F in Hsz. destruct Hsz as [? ?]; [done..|]. split; [done|]. split; [done|].
  intros c a Hc Ha.
  pose proof (mask_fold (nrange 0 nb) (bvector_sized n, bvector_sized n) (gpos sb c a)) as Hm.
  rewrite F, !existsb_block in Hm by done. exact Hm.
Qed.

End pair.

(** Every position is an address of a block. *)
Lemma gpos_of p : p < n -> exists c a, c < nb /\ a <= sb /\ p = gpos sb c a.
Proof.
  intros Hp. exists (p / (sb + 1)), (p mod (sb + 1)).
  pose proof (N.mod_lt p (sb + 1)). pose proof (N.div_mod p (sb + 1)).
  unfold gpos, block_start. repeat split; [|lia|lia].
  apply N.Div0.div_lt_upper_bound. lia.
Qed.

Lemma bs_eqb_blocks a b :
  bs_wf n a -> bs_wf n b ->
  bs_eqb a b = true <->
  forall c x, c < nb -> x <= sb -> truth a (gpos sb c x) = truth b (gpos sb c x).
Proof.
  intros Ha Hb. rewrite (bs_eqb_truth n a b Ha Hb). split; [auto|].
  intros H i. destruct (N.lt_ge_cases i n) as [Hi|Hi].
  - destruct (gpos_of i Hi) as (c & x & ? & ? & ->). by apply H.
  - by rewrite !(truth_beyond n).
Qed.

(** ** What [combine] computes *)

Definition agree (s t : NewBeliefState) : Prop :=
  forall c a, c < nb -> a < sb -> computed sb s c = true -> computed sb t c = true ->
    truth s (gpos sb c a) = truth t (gpos sb c a).

Definition merged (s t s' : NewBeliefState) : Prop :=
  forall c a, c < nb -> a <= sb ->
    truth s' (gpos sb c a) =
    if only_t s t c && (a <? sb)
    then tv_or (truth s (gpos sb c a)) (truth t (gpos sb c a))
    else truth s (gpos sb c a).

Lemma combine_prefix s t :
  bs_wf n s -> bs_wf n t ->
  combine s t offs ms =
    ('(check, comb) ← foldM (combine_mask_step s t offs ms) (bvector_sized n, bvector_sized n)
                        (nrange 0 (N.of_nat (length offs)));
     s1 ← and_bm s check;
     t1 ← and_bm t check;
     if bs_neqb s1 t1 then mret (false, s)
     else
       s2 ← and_bm s (invert comb);
       t2 ← and_bm t comb;
       mret (true, bs_or s (bs_or s2 t2))).
Proof.
  intros Hs Ht. unfold combine. rewrite length_masks, length_offs.
  assert_true. rewrite (bs_size_ok n s Hs), (bs_size_ok n t Ht). rsimpl.
  assert_true.
  rewrite (proj2 (vec_at_ok ms 0 _) (masks_lookup 0 Hnb)). rsimpl.
  rewrite N.eqb_refl. assert_true. assert_true.
  destruct (N.ltb_spec 1 nb) as [H1|H1]; [|done].
  rewrite (proj2 (vec_at_ok offs (nb - 1) _) (offs_lookup (nb - 1) ltac:(lia))).
  rewrite (proj2 (vec_at_ok offs 1 _) (offs_lookup 1 ltac:(lia))).
  rewrite (proj2 (vec_at_ok offs 0 _) (offs_lookup 0 ltac:(lia))). rsimpl.
  rewrite u64_sub_small by (unfold block_start, id_max in *; nia).
  replace (_ =? _) with true; [done|]. symmetry. apply N.eqb_eq. unfold block_start. nia.
Qed.

Lemma testbit_invert v i : i < size_ v -> N.testbit (bits (invert v)) i = negb (N.testbit (bits v) i).
Proof.
  intros Hi. cbn. rewrite N.ldiff_spec, N.ones_spec_low by done. done.
Qed.

Lemma checked_eq_agree s t s1 t1 check :
  bs_wf n s1 -> bs_wf n t1 ->
  (forall c a, c < nb -> a <= sb -> N.testbit (bits check) (gpos sb c a) = both s t c && (a <? sb)) ->
  (forall i, truth s1 i = if N.testbit (bits check) i then truth s i else DMCS_UNDEF) ->
  (forall i, truth t1 i = if N.testbit (bits check) i then truth t i else DMCS_UNDEF) ->
  bs_eqb s1 t1 = true <-> agree s t.
Proof.
  intros Hs1 Ht1 Hc Es Et. rewrite bs_eqb_blocks by done. unfold agree, both in *. split.
  - intros H c a Hcn Ha H1 H2. specialize (H c a Hcn ltac:(lia)).
    rewrite Es, Et, Hc, H1, H2 in H by lia.
    replace (a <? sb) with true in H by (symmetry; by apply N.ltb_lt). exact H.
  - intros H c a Hcn Ha. rewrite Es, Et, Hc by lia.
    destruct (computed sb s c) eqn:H1, (computed sb t c) eqn:H2, (N.ltb_spec a sb); try done.
    by apply H.
Qed.

Lemma combine_ok s t :
  bs_wf n s -> bs_wf n t ->
  exists b s', combine s t offs ms = Ok (b, s') /\ (b = true <-> agree s t) /\
    if b : bool then bs_wf n s' /\ merged s t s' else s' = s.
Proof.
  intros Hs Ht. rewrite combine_prefix by done.
  destruct (combine_masks_ok s t Hs Ht) as (check & comb & -> & Hsc & Hsm & Hmask).
  rsimpl.
  destruct (and_bm_ok n s check Hs Hsc) as (s1 & -> & Hs1 & Es1). rsimpl.
  destruct (and_bm_ok n t check Ht Hsc) as (t1 & -> & Ht1 & Et1). rsimpl.
  pose proof (checked_eq_agree s t s1 t1 check Hs1 Ht1
    (fun c a Hc Ha => proj1 (Hmask c a Hc Ha)) Es1 Et1) as Hagree.
  rewrite bs_neqb_eqb. destruct (bs_eqb s1 t1); cbn [negb].
  2: { exists false, s. split; [done|]. split; [|done]. rewrite <- Hagree. done. }
  destruct (and_bm_ok n s (invert comb) Hs Hsm) as (s2 & -> & Hs2 & Es2). rsimpl.
  destruct (and_bm_ok n t comb Ht Hsm) as (t2 & -> & Ht2 & Et2). rsimpl.
  exists true, (bs_or s (bs_or s2 t2)). split; [done|]. split; [tauto|].
  split; [by repeat apply wf_or|].
  intros c a Hc Ha. destruct (Hmask c a Hc Ha) as [_ Hcomb].
  rewrite (truth_or n) by (try apply wf_or; done). rewrite (truth_or n) by done.
  rewrite Es2, Et2, testbit_invert by (rewrite Hsm; by apply gpos_lt).
  rewrite Hcomb. destruct (only_t s t c && (a <? sb)); cbn [negb];
    by destruct (truth s (gpos sb c a)), (truth t (gpos sb c a)).
Qed.

(** ** What [consistent_with] computes *)

Section consistent.
Context (this bm : NewBeliefState) (Hthis : bs_wf n this) (Hbm : bs_wf n bm).

(** From an assigned position of [bm], the loop compares all its assigned
    positions up to [end_bit]. *)
Lemma consistent_loop_ok fuel end_bit pos :
  truth bm pos <> DMCS_UNDEF -> pos < end_bit -> end_bit <= n ->
  N.of_nat (N.size_nat (bits (status_bit bm))) <= N.of_nat fuel + pos ->
  exists b, consistent_loop fuel this bm end_bit pos = Ok b /\
    (b = true <-> forall i, pos <= i -> i < end_bit -> truth bm i <> DMCS_UNDEF ->
                            truth this i = truth bm i).
Proof.
  revert pos. induction fuel as [|fuel IH]; intros pos Hpos Hlt Hend Hf.
  { exfalso. rewrite truth_undef in Hpos. apply not_false_is_true, testbit_size_nat in Hpos. lia. }
  cbn [consistent_loop]. rewrite (test_ok n this), (test_ok n bm) by (try done; lia).
  rsimpl. case_bool_decide as Heq.
  2: { exists false. split; [done|]. split; [done|]. intros H. exfalso. apply Heq, H; [lia..|done]. }
  destruct (get_next_status n bm pos Hbm) as [[-> H]|(Hgt & Hst & H)].
  - exists true. split; [done|]. split; [|done]. intros _ i Hi ? Hi'.
    destruct (N.eq_dec i pos) as [->|]; [done|]. rewrite H in Hi' by lia. done.
  - destruct (N.eqb_spec (get_next (status_bit bm) pos) 0); [lia|].
    destruct (N.ltb_spec (get_next (status_bit bm) pos) end_bit) as [Hin|Hout]; cbn [negb andb].
    + destruct (IH (get_next (status_bit bm) pos)) as (b & -> & Hb); [done..|lia|].
      exists b. split; [done|]. rewrite Hb. split; intros Hall i Hi Hie Hi'.
      * destruct (N.eq_dec i pos) as [->|]; [done|].
        apply Hall; [|done..]. destruct (N.lt_ge_cases i (get_next (status_bit bm) pos)); [|done].
        rewrite H in Hi' by lia. done.
      * apply Hall; [lia|done..].
    + exists true. split; [done|]. split; [|done]. intros _ i Hi ? Hi'.
      destruct (N.eq_dec i pos) as [->|]; [done|]. rewrite H in Hi' by lia. done.
Qed.

Lemma consistent_prefix c :
  c < nb -> computed sb this c = true -> computed sb bm c = true ->
  consistent_with this bm c offs =
    consistent_loop (scan_fuel bm) this bm (block_start sb c + (sb + 1))
      (get_next (status_bit bm) (block_start sb c)).
Proof.
  intros Hc Ht Hb. unfold consistent_with.
  destruct (Hthis) as [-> -> _ _ _ _], (Hbm) as [-> -> _ _ _ _].
  assert_true. rewrite (isEpsilon_computed this), (isEpsilon_computed bm) by done.
  rewrite Ht, Hb. cbn [negb]; rsimpl.
  rewrite (proj2 (vec_at_ok offs c _) (offs_lookup c Hc)). rsimpl.
  rewrite length_offs. destruct (N.eqb_spec c (nb - 1)) as [->|Hne]; rsimpl.
  - f_equal. unfold block_start.
    replace (nb * (sb + 1)) with ((nb - 1 + 1) * (sb + 1)) by (f_equal; lia).
    rewrite (N.mul_add_distr_r (nb - 1)). lia.
  - rewrite (proj2 (vec_at_ok offs (c + 1) _) (offs_lookup (c + 1) ltac:(lia))).
    rsimpl. f_equal. unfold block_start. nia.
Qed.

Lemma consistent_with_ok c :
  c < nb -> computed sb this c = true -> computed sb bm c = true ->
  (exists a, 0 < a /\ a <= sb /\ truth bm (gpos sb c a) <> DMCS_UNDEF) ->
  exists b, consistent_with this bm c offs = Ok b /\
    (b = true <-> forall a, 0 < a -> a <= sb -> truth bm (gpos sb c a) <> DMCS_UNDEF ->
                            truth this (gpos sb c a) = truth bm (gpos sb c a)).
Proof.
  intros Hc Ht Hb (a0 & Ha0 & Hle & Ha). rewrite consistent_prefix by done.
  unfold gpos in *.
  destruct (get_next_status n bm (block_start sb c) Hbm) as [[_ H]|(Hgt & Hst & H)].
  { rewrite H in Ha by lia. done. }
  set (p := get_next (status_bit bm) (block_start sb c)) in *.
  assert (p <= block_start sb c + a0).
  { destruct (N.lt_ge_cases (block_start sb c + a0) p); [|done]. rewrite H in Ha by lia. done. }
  destruct (consistent_loop_ok (scan_fuel bm) (block_start sb c + (sb + 1)) p) as (b & -> & Hiff);
    [done|lia|unfold block_start; nia|unfold scan_fuel; lia|].
  exists b. split; [done|]. rewrite Hiff. split; intros Hall.
  - intros a ?? Hu. apply Hall; [|lia|done].
    destruct (N.lt_ge_cases (block_start sb c + a) p); [|done]. rewrite H in Hu by lia. done.
  - intros i Hi Hi' Hu. replace i with (block_start sb c + (i - block_start sb c)) in * by lia.
    apply Hall; [lia|lia|done].
Qed.

End consistent.

Lemma put_last_agree s t c v :
  c < nb ->
  (agree s (put t (gpos sb c sb) v) <-> agree s t) /\
  (forall c', only_t s (put t (gpos sb c sb) v) c' = only_t s t c') /\
  (forall c' a, a < sb -> truth (put t (gpos sb c sb) v) (gpos sb c' a) = truth t (gpos sb c' a)).
Proof.
  intros Hc.
  assert (Hne : forall c' a, a < sb -> gpos sb c sb <> gpos sb c' a).
  { intros c' a Ha. unfold gpos, block_start. intros E.
    destruct (N.lt_trichotomy c c') as [H|[->|H]]; nia. }
  assert (Ht : forall c' a, a < sb ->
    truth (put t (gpos sb c sb) v) (gpos sb c' a) = truth t (gpos sb c' a)).
  { intros c' a Ha. rewrite truth_put. destruct (N.eqb_spec (gpos sb c sb) (gpos sb c' a)) as [E|];
      [by destruct (Hne c' a)|done]. }
  assert (Hcomp : forall c', computed sb (put t (gpos sb c sb) v) c' = computed sb t c').
  { intros c'. unfold computed. pose proof (Ht c' 0 Hsb) as H. unfold gpos in H at 2 3.
    rewrite N.add_0_r in H. by rewrite H. }
  split; [|split; [|done]].
  - unfold agree. split; intros H c' a ????; [rewrite <- Ht by done|rewrite Ht by done];
      apply H; try done; by rewrite ?Hcomp in *.
  - intros c'. unfold only_t. by rewrite Hcomp.
Qed.

Lemma merged_unique s t s1 s2 :
  bs_wf n s1 -> bs_wf n s2 -> merged s t s1 -> merged s t s2 -> s1 = s2.
Proof.
  intros H1 H2 M1 M2. apply (bs_ext n); [done..|]. intros p.
  destruct (N.lt_ge_cases p n) as [Hp|Hp].
  - destruct (gpos_of p Hp) as (c & a & ? & ? & ->). by rewrite M1, M2.
  - by rewrite !(truth_beyond n).
Qed.

Lemma put_last_merged s t c v s' :
  c < nb -> merged s (put t (gpos sb c sb) v) s' -> merged s t s'.
Proof.
  intros Hc H c' a Hc' Ha. destruct (put_last_agree s t c v Hc) as (_ & Ho & Ht).
  rewrite H, Ho by done. destruct (N.ltb_spec a sb); [|by rewrite andb_false_r].
  by rewrite Ht.
Qed.

End layout.

(** ** Correctness *)

(** C4.  Under the layout that [BeliefStateOffset] creates, [combine]
    always returns.  It answers [true] exactly when the two states agree on
    every masked belief of the contexts that both have computed; it then
    leaves in its first argument the old state joined with the masked beliefs
    of the contexts that only the second state has computed.  When it answers
    [false] its first argument is unchanged. *)
Theorem combine_correct nb sb s t :
  0 < nb -> 0 < sb -> nb * (sb + 1) <= id_max ->
  bs_wf (nb * (sb + 1)) s -> bs_wf (nb * (sb + 1)) t ->
  exists o b s', ctor nb sb = Ok o /\
    combine s t (starting_offsets o) (masks o) = Ok (b, s') /\
    (b = true <-> agree nb sb s t) /\
    if b : bool then bs_wf (nb * (sb + 1)) s' /\ merged nb sb s t s' else s' = s.
Proof.
  intros Hnb Hsb Hmax Hs Ht.
  destruct (combine_ok nb sb Hnb Hsb Hmax s t Hs Ht) as (b & s' & E & Hb & Hs').
  exists (layout nb sb), b, s'. by rewrite ctor_ok by done.
Qed.

(** The last belief of every block (address [sb], the [sb]-th belief of
    a context) is outside its mask: giving it any other value in the second
    state changes neither the answer nor the combined state.  Two states that
    contradict each other on that belief are therefore combined, and the
    second state's value of it is lost. *)
Theorem combine_ignores_last_belief nb sb s t c v b s' :
  0 < nb -> 0 < sb -> nb * (sb + 1) <= id_max ->
  bs_wf (nb * (sb + 1)) s -> bs_wf (nb * (sb + 1)) t -> c < nb ->
  let o := layout nb sb in
  ctor nb sb = Ok o /\
  (combine s t (starting_offsets o) (masks o) = Ok (b, s') <->
   combine s (put t (gpos sb c sb) v) (starting_offsets o) (masks o) = Ok (b, s')).
Proof.
  intros Hnb Hsb Hmax Hs Ht Hc o. subst o. split; [by apply ctor_ok|].
  assert (Hp : bs_wf (nb * (sb + 1)) (put t (gpos sb c sb) v))
    by (apply wf_put; [done|apply gpos_lt; lia]).
  destruct (combine_ok nb sb Hnb Hsb Hmax s t Hs Ht) as (b1 & s1 & -> & Hb1 & Hs1).
  destruct (combine_ok nb sb Hnb Hsb Hmax s _ Hs Hp) as (b2 & s2 & -> & Hb2 & Hs2).
  destruct (put_last_agree nb sb Hnb Hsb Hmax s t c v Hc) as [Ha _].
  assert (Hbb : b1 = b2) by (apply eq_true_iff_eq; rewrite Hb1, Hb2, Ha; done).
  subst b2. assert (s1 = s2) as ->; [|done].
  destruct b1; [|by subst].
  destruct Hs1 as [W1 M1], Hs2 as [W2 M2]. apply (merged_unique nb sb Hnb Hsb Hmax s t); try done.
  by eapply (put_last_merged nb sb).
Qed.

(** When both states have computed context [c] and the second state
    assigns at least one belief of it, [consistent_with] returns, and answers
    [true] exactly when the first state gives every assigned belief of the
    second its value.  When one of them has not computed [c] it answers
    [true]. *)
Theorem consistent_with_correct nb sb this bm c :
  0 < nb -> 0 < sb -> nb * (sb + 1) <= id_max ->
  bs_wf (nb * (sb + 1)) this -> bs_wf (nb * (sb + 1)) bm -> c < nb ->
  (exists a, 0 < a /\ a <= sb /\ truth bm (gpos sb c a) <> DMCS_UNDEF) ->
  exists o b, ctor nb sb = Ok o /\ consistent_with this bm c (starting_offsets o) = Ok b /\
    (b = true <->
       (computed sb this c = true -> computed sb bm c = true ->
        forall a, 0 < a -> a <= sb -> truth bm (gpos sb c a) <> DMCS_UNDEF ->
                  truth this (gpos sb c a) = truth bm (gpos sb c a))).
Proof.
  intros Hnb Hsb Hmax Ht Hb Hc Hex.
  destruct (computed sb this c && computed sb bm c) eqn:E.
  - apply andb_true_iff in E as [E1 E2].
    destruct (consistent_with_ok nb sb Hnb Hsb Hmax this bm Ht Hb c Hc E1 E2 Hex) as (b & Hok & Hiff).
    exists (layout nb sb), b. rewrite ctor_ok by done. split; [done|]. split; [done|]. tauto.
  - exists (layout nb sb), true. rewrite ctor_ok by done. split; [done|].
    split; [|destruct (computed sb this c), (computed sb bm c); done].
    unfold consistent_with. destruct (Ht) as [-> -> _ _ _ _], (Hb) as [-> -> _ _ _ _].
    assert_true.
    rewrite (isEpsilon_computed nb sb Hnb Hsb Hmax this c Ht Hc). rsimpl.
    destruct (computed sb this c) eqn:E1; cbn [negb]; [|done]. rsimpl.
    rewrite (isEpsilon_computed nb sb Hnb Hsb Hmax bm c Hb Hc). rsimpl.
    cbn in E. by rewrite E.
Qed.

(** *** Two contexts of two beliefs each

    Both contexts are computed in [left2] and [right2]; they agree on belief 1
    of context 0 and contradict each other on its belief 2. *)
Definition left2 : NewBeliefState := mk_bs (mk_bvector 6 15) (mk_bvector 6 15).
Definition right2 : NewBeliefState := mk_bs (mk_bvector 6 15) (mk_bvector 6 11).

Lemma small_wf st v :
  st < 64 -> N.land v st = v -> bs_wf 6 (mk_bs (mk_bvector 6 st) (mk_bvector 6 v)).
Proof.
  intros Hst Hv.
  assert (Hs : bits_below st 6) by (apply lt_pow2_bits; lia).
  split; [done..| | |]; unfold wf; cbn [status_bit value_bit bits size_].
  - done.
  - rewrite <- Hv. intros i Hi. rewrite N.land_spec, Hs by done. by rewrite andb_false_r.
  - intros i Hi. rewrite <- Hv, N.land_spec in Hi. by apply andb_true_iff in Hi as [_ ?].
Qed.

Lemma combine_correct_witness :
  exists o b s', ctor 2 2 = Ok o /\
    combine left2 right2 (starting_offsets o) (masks o) = Ok (b, s') /\
    (b = true <-> agree 2 2 left2 right2) /\
    if b : bool then bs_wf 6 s' /\ merged 2 2 left2 right2 s' else s' = left2.
Proof. apply (combine_correct 2 2 left2 right2); (apply small_wf; done) || done. Defined.

(** The contradiction on belief 2 goes unnoticed. *)
Lemma combine_ignores_last_belief_witness :
  combine left2 right2 (starting_offsets (layout 2 2)) (masks (layout 2 2)) = Ok (true, left2) /\
  combine left2 (put right2 2 DMCS_UNDEF) (starting_offsets (layout 2 2)) (masks (layout 2 2))
    = Ok (true, left2).
Proof.
  pose proof (combine_ignores_last_belief 2 2 left2 right2 0 DMCS_UNDEF true left2) as H.
  assert (H' := H ltac:(done) ltac:(done) ltac:(done) ltac:(by apply small_wf)
    ltac:(by apply small_wf) ltac:(done)). cbn zeta in H'. destruct H' as [_ H'].
  split; [vm_compute; reflexivity|]. apply H'. vm_compute. reflexivity.
Defined.

Lemma consistent_with_correct_witness :
  exists o b, ctor 2 2 = Ok o /\ consistent_with left2 right2 0 (starting_offsets o) = Ok b /\
    (b = true <->
       (computed 2 left2 0 = true -> computed 2 right2 0 = true ->
        forall a, 0 < a -> a <= 2 -> truth right2 (gpos 2 0 a) <> DMCS_UNDEF ->
                  truth left2 (gpos 2 0 a) = truth right2 (gpos 2 0 a))).
Proof.
  apply (consistent_with_correct 2 2 left2 right2 0); try done; try (by apply small_wf).
  exists 1. done.
Defined.

(** When context [c] is computed but assigns no belief,
    [consistent_with] compares a position of a later block before it looks at
    the block's end: here the two states differ only in context 1, nothing is
    known about the beliefs of context 0, and yet they are reported
    inconsistent in context 0. *)
Theorem consistent_with_outside_block :
  let this := mk_bs (mk_bvector 6 25) (mk_bvector 6 25) in
  let bm := mk_bs (mk_bvector 6 17) (mk_bvector 6 1) in
  let offs := starting_offsets (layout 2 2) in
  ctor 2 2 = Ok (layout 2 2) /\
  (forall a, 0 < a -> a <= 2 -> truth this (gpos 2 0 a) = DMCS_UNDEF /\ truth bm (gpos 2 0 a) = DMCS_UNDEF) /\
  consistent_with this bm 0 offs = Ok false.
Proof.
  split; [by vm_compute|]. split; [|by vm_compute].
  intros a H1 H2. assert (a = 1 \/ a = 2) as [-> | ->] by lia; by vm_compute.
Qed.

End Combination.
