(* ===== verification/QueryID.v ===== *)
(** * Query identifiers

    include/mcs/QueryID.h, src/mcs/QueryID.cpp: a query identifier packs the
    query type, the query order, the joiner offset, the context id, the
    neighbor offset and the neighbor id into one 64-bit word. *)

From S2P Require Import Prelude.

Module QueryID.

Definition TYPE_SHUTDOWN : N := 1.
Definition TYPE_REQUEST : N := 2.
Definition TYPE_ANSWER : N := 3.

Record QueryID := mk_query_id {
  query_order_shift : N;
  local_context_shift : N;
  joiner_offset_shift : N;
  neighbor_offset_shift : N;
  neighbor_id_shift : N;
  query_type_mask : N;
  query_order_mask : N;
  local_context_mask : N;
  joiner_offset_mask : N;
  neighbor_offset_mask : N;
  neighbor_id_mask : N;
}.

(** [sizeof(std::size_t)*8] *)
Definition word_bits : N := 64.

Definition setupMask (mask_beg mask_end : N) : N :=
  foldl (fun mask i => N.lor mask (u64_shl 1 i)) 0 (nrange mask_beg mask_end).

(** The [while] loop of the constructor, which pads the type field until the
    rest of the word splits in three. *)
Fixpoint order_shift_loop (fuel : nat) (s order_len joiner_len shift : N) : res N :=
  match fuel with
  | O => Err OutOfFuel
  | S fuel =>
      if negb (u64_sub (u64_sub (u64_sub s shift) order_len) joiner_len mod 3 =? 0)
      then order_shift_loop fuel s order_len joiner_len (shift + 1)
      else mret shift
  end.

Definition ctor : res QueryID :=
  let s := word_bits in
  let query_order_length := 24 in
  let joiner_offset_length := 6 in
  query_order_shift ← order_shift_loop 3 s query_order_length joiner_offset_length 4;
  let one_third_left :=
    u64_sub (u64_sub (u64_sub s query_order_shift) query_order_length) joiner_offset_length / 3 in
  let joiner_offset_shift := query_order_shift + query_order_length in
  let local_context_shift := joiner_offset_shift + joiner_offset_length in
  let neighbor_offset_shift := local_context_shift + one_third_left in
  let neighbor_id_shift := neighbor_offset_shift + one_third_left in
  mret (mk_query_id query_order_shift local_context_shift joiner_offset_shift
          neighbor_offset_shift neighbor_id_shift
          (setupMask 0 query_order_shift)
          (setupMask query_order_shift joiner_offset_shift)
          (setupMask local_context_shift neighbor_offset_shift)
          (setupMask joiner_offset_shift local_context_shift)
          (setupMask neighbor_offset_shift neighbor_id_shift)
          (setupMask neighbor_id_shift s)).

Definition get_ok {A} (m : res A) : is_ok m = true -> A :=
  match m with Ok a => fun _ => a | Err _ => fun H => False_rect A (diff_false_true H) end.

(** [instance()]: the object is built once and never changes. *)
Definition instance : QueryID := get_ok ctor eq_refl.

(** ** Building identifiers *)

Definition query_id2 (ctx_id query_order : N) : N :=
  N.lor (N.lor TYPE_REQUEST (u64_shl query_order (query_order_shift instance)))
        (u64_shl ctx_id (local_context_shift instance)).

Definition query_id3 (ctx_id neighbor_id query_order : N) : N :=
  N.lor (N.lor (N.lor TYPE_REQUEST (u64_shl query_order (query_order_shift instance)))
               (u64_shl ctx_id (local_context_shift instance)))
        (u64_shl neighbor_id (neighbor_id_shift instance)).

Definition query_id6 (query_type ctx_id joiner_offset neighbor_id neighbor_offset query_order : N) : N :=
  N.lor (N.lor (N.lor (N.lor (N.lor query_type
    (u64_shl query_order (query_order_shift instance)))
    (u64_shl ctx_id (local_context_shift instance)))
    (u64_shl joiner_offset (joiner_offset_shift instance)))
    (u64_shl neighbor_offset (neighbor_offset_shift instance)))
    (u64_shl neighbor_id (neighbor_id_shift instance)).

Definition shutdown_query_id0 : N := TYPE_SHUTDOWN.

Definition shutdown_query_id (ctx_id neighbor_id : N) : N :=
  N.lor (N.lor TYPE_SHUTDOWN (u64_shl ctx_id (local_context_shift instance)))
        (u64_shl neighbor_id (neighbor_id_shift instance)).

(** ** Reading identifiers *)

Definition is_shutdown (qid : N) : bool := N.land qid (query_type_mask instance) =? TYPE_SHUTDOWN.
Definition is_request (qid : N) : bool := N.land qid (query_type_mask instance) =? TYPE_REQUEST.
Definition is_answer (qid : N) : bool := N.land qid (query_type_mask instance) =? TYPE_ANSWER.

Definition ctxid_from_qid (qid : N) : N :=
  N.shiftr (N.land qid (local_context_mask instance)) (local_context_shift instance).
Definition invoker_from_qid (qid : N) : N := ctxid_from_qid qid.
Definition joiner_offset_from_qid (qid : N) : N :=
  N.shiftr (N.land qid (joiner_offset_mask instance)) (joiner_offset_shift instance).
Definition neighbor_offset_from_qid (qid : N) : N :=
  N.shiftr (N.land qid (neighbor_offset_mask instance)) (neighbor_offset_shift instance).
Definition neighbor_id_from_qid (qid : N) : N :=
  N.shiftr (N.land qid (neighbor_id_mask instance)) (neighbor_id_shift instance).
Definition receiver_from_qid (qid : N) : N := neighbor_id_from_qid qid.
Definition qorder_from_qid (qid : N) : N :=
  N.shiftr (N.land qid (query_order_mask instance)) (query_order_shift instance).

(** ** Updating identifiers: a setter only adds bits *)

Definition set_joiner_offset (qid j_offset : N) : N :=
  N.lor qid (u64_shl j_offset (joiner_offset_shift instance)).
Definition set_neighbor_offset (qid n_offset : N) : N :=
  N.lor qid (u64_shl n_offset (neighbor_offset_shift instance)).
Definition set_neighbor_id (qid nid : N) : N :=
  N.lor qid (u64_shl nid (neighbor_id_shift instance)).

(** [qid &= ~mask] on 64-bit words *)
Definition unset_joiner_offset (qid : N) : N :=
  N.land qid (N.lxor (W64 - 1) (joiner_offset_mask instance)).
Definition unset_neighbor_offset (qid : N) : N :=
  N.land qid (N.lxor (W64 - 1) (neighbor_offset_mask instance)).
Definition unset_neighbor_id (qid : N) : N :=
  N.land qid (N.lxor (W64 - 1) (neighbor_id_mask instance)).

(** ** Fields of a word *)

(** The [w] bits of [x] from bit [sh] on. *)
Definition field (sh w x : N) : N := N.shiftr (N.land x (N.shiftl (N.ones w) sh)) sh.

Lemma field_testbit sh w x i : N.testbit (field sh w x) i = (i <? w) && N.testbit x (i + sh).
Proof.
  unfold field. rewrite N.shiftr_spec', N.land_spec, N.shiftl_spec_high' by lia.
  rewrite N.add_sub. destruct (N.ltb_spec i w).
  - by rewrite N.ones_spec_low, andb_true_r.
  - by rewrite N.ones_spec_high, andb_false_r.
Qed.

Lemma field_lor sh w x y : field sh w (N.lor x y) = N.lor (field sh w x) (field sh w y).
Proof.
  apply N.bits_inj. intros i. rewrite N.lor_spec, !field_testbit, N.lor_spec.
  by destruct (i <? w).
Qed.

Lemma u64_shl_field f w sh : f < 2 ^ w -> sh + w <= 64 -> u64_shl f sh = N.shiftl f sh.
Proof.
  intros Hf Hs. unfold u64_shl. apply N.mod_small. rewrite N.shiftl_mul_pow2.
  apply N.lt_le_trans with (2 ^ w * 2 ^ sh).
  - apply N.mul_lt_mono_pos_r; [|done]. apply N.neq_0_lt_0, N.pow_nonzero. lia.
  - rewrite <- N.pow_add_r. change W64 with (2 ^ 64). apply N.pow_le_mono_r; lia.
Qed.

Lemma field_same f w sh : f < 2 ^ w -> sh + w <= 64 -> field sh w (u64_shl f sh) = f.
Proof.
  intros Hf Hs. rewrite (u64_shl_field f w) by done. apply N.bits_inj. intros i.
  rewrite field_testbit, N.shiftl_spec_high' by lia. rewrite N.add_sub.
  destruct (N.ltb_spec i w); [done|]. symmetry. by apply (lt_pow2_bits f w).
Qed.

Lemma field_other f w sh w' sh' :
  f < 2 ^ w -> sh + w <= 64 -> sh' + w' <= sh \/ sh + w <= sh' ->
  field sh' w' (u64_shl f sh) = 0.
Proof.
  intros Hf Hs Hd. rewrite (u64_shl_field f w) by done. apply N.bits_inj_0. intros i.
  rewrite field_testbit. destruct (N.ltb_spec i w'); [|done]. cbn [andb].
  destruct Hd.
  - apply N.shiftl_spec_low. lia.
  - rewrite N.shiftl_spec_high' by lia. apply (lt_pow2_bits f w); [done|lia].
Qed.

Lemma field_low_other f w w' sh' : f < 2 ^ w -> w <= sh' -> field sh' w' f = 0.
Proof.
  intros Hf Hd. apply N.bits_inj_0. intros i. rewrite field_testbit.
  destruct (N.ltb_spec i w'); [|done]. cbn. apply (lt_pow2_bits f w); [done|lia].
Qed.

Lemma field_low f w : f < 2 ^ w -> field 0 w f = f.
Proof.
  intros Hf. apply N.bits_inj. intros i. rewrite field_testbit, N.add_0_r.
  destruct (N.ltb_spec i w); [done|]. symmetry. by apply (lt_pow2_bits f w).
Qed.

(** ** The layout the constructor chooses *)

Lemma ctxid_field q : ctxid_from_qid q = field 34 10 q. Proof. reflexivity. Qed.
Lemma joiner_field q : joiner_offset_from_qid q = field 28 6 q. Proof. reflexivity. Qed.
Lemma noff_field q : neighbor_offset_from_qid q = field 44 10 q. Proof. reflexivity. Qed.
Lemma nid_field q : neighbor_id_from_qid q = field 54 10 q. Proof. reflexivity. Qed.
Lemma qorder_field q : qorder_from_qid q = field 4 24 q. Proof. reflexivity. Qed.
Lemma type_field q : N.land q (query_type_mask instance) = field 0 4 q.
Proof. unfold field. by rewrite N.shiftr_0_r. Qed.

Create Rewrite HintDb qid_fields.
#[export] Hint Rewrite ctxid_field joiner_field noff_field nid_field qorder_field type_field
  field_lor : qid_fields.

(** Resolve every field of a word built from in-range fields. *)
Ltac qid_field :=
  repeat first
    [ erewrite field_same by (first [eassumption | done])
    | erewrite field_other by (first [eassumption | done | lia])
    | erewrite (field_low _ 4) by eassumption
    | erewrite (field_low_other _ 4) by (first [eassumption | lia]) ];
  rewrite ?N.lor_0_l, ?N.lor_0_r; try done.

(** ** Clearing a field *)

Definition unset (sh w x : N) : N := N.land x (N.lxor (N.ones 64) (N.shiftl (N.ones w) sh)).

Lemma unset_testbit sh w x i :
  i < 64 -> N.testbit (unset sh w x) i = N.testbit x i && negb ((sh <=? i) && (i <? sh + w)).
Proof.
  intros Hi. unfold unset. rewrite N.land_spec, N.lxor_spec, N.ones_spec_low by done.
  f_equal. rewrite xorb_true_l. f_equal. destruct (N.leb_spec sh i).
  - rewrite N.shiftl_spec_high' by done. destruct (N.ltb_spec i (sh + w)).
    + apply N.ones_spec_low. lia.
    + apply N.ones_spec_high. lia.
  - by rewrite N.shiftl_spec_low.
Qed.

Lemma unset_high sh w x i : 64 <= i -> sh + w <= 64 -> N.testbit (unset sh w x) i = false.
Proof.
  intros Hi Hs. unfold unset.
  by rewrite N.land_spec, N.lxor_spec, N.ones_spec_high, N.shiftl_spec_high',
    N.ones_spec_high, andb_false_r by lia.
Qed.

Lemma unset_lor sh w x y : unset sh w (N.lor x y) = N.lor (unset sh w x) (unset sh w y).
Proof. apply N.land_lor_distr_l. Qed.

(** Clearing a field that is already clear changes nothing. *)
Lemma unset_clear sh w x :
  bits_below x 64 -> sh + w <= 64 -> field sh w x = 0 -> unset sh w x = x.
Proof.
  intros Hx Hs H0. apply N.bits_inj. intros i. destruct (N.lt_ge_cases i 64) as [Hi|Hi].
  2: { by rewrite unset_high, Hx. }
  rewrite unset_testbit by done. destruct (N.leb_spec sh i), (N.ltb_spec i (sh + w));
    cbn [andb negb]; rewrite ?andb_true_r; try done.
  pose proof (field_testbit sh w x (i - sh)) as H'. rewrite H0, N.bits_0, N.sub_add in H' by done.
  destruct (N.ltb_spec (i - sh) w); [|lia]. cbn in H'. by rewrite <- H'.
Qed.

Lemma unset_own f w sh : f < 2 ^ w -> sh + w <= 64 -> unset sh w (u64_shl f sh) = 0.
Proof.
  intros Hf Hs. apply N.bits_inj_0. intros i. destruct (N.lt_ge_cases i 64) as [Hi|Hi].
  2: { by apply unset_high. }
  rewrite unset_testbit, (u64_shl_field f w) by done.
  destruct (N.leb_spec sh i); [|by rewrite N.shiftl_spec_low].
  rewrite N.shiftl_spec_high' by done. destruct (N.ltb_spec i (sh + w)); [by rewrite andb_false_r|].
  by rewrite (lt_pow2_bits f w Hf (i - sh)) by lia.
Qed.

Lemma shl_below f w sh : f < 2 ^ w -> sh + w <= 64 -> bits_below (u64_shl f sh) 64.
Proof.
  intros Hf Hs i Hi. rewrite (u64_shl_field f w) by done.
  rewrite N.shiftl_spec_high' by lia. apply (lt_pow2_bits f w); [done|lia].
Qed.

Lemma unset_other f w sh w' sh' :
  f < 2 ^ w -> sh + w <= 64 -> sh' + w' <= 64 -> sh' + w' <= sh \/ sh + w <= sh' ->
  unset sh' w' (u64_shl f sh) = u64_shl f sh.
Proof.
  intros Hf Hs Hs' Hd. apply unset_clear; [by apply (shl_below f w)|done|].
  by apply (field_other f w).
Qed.

Lemma query_id2_below ctx order : order < 2 ^ 24 -> ctx < 2 ^ 10 -> bits_below (query_id2 ctx order) 64.
Proof.
  intros Ho Hc. unfold query_id2. repeat apply bits_below_lor.
  - apply (bits_below_mono _ 4); [|done]. by apply lt_pow2_bits.
  - by eapply shl_below.
  - by eapply shl_below.
Qed.

(** What [StreamingJoiner::ask_neighbor] does to the identifier it forwards. *)
Definition forward_qid (qid nid noff joff : N) : N :=
  set_joiner_offset (set_neighbor_offset (set_neighbor_id qid nid) noff) joff.

(** What [StreamingJoiner::ask_first_packs] strips from a returned one. *)
Definition strip_qid (qid : N) : N :=
  unset_joiner_offset (unset_neighbor_offset (unset_neighbor_id qid)).

Lemma forward_fields ctx order nid noff joff :
  order < 2 ^ 24 -> ctx < 2 ^ 10 -> nid < 2 ^ 10 -> noff < 2 ^ 10 -> joff < 2 ^ 6 ->
  let q := forward_qid (query_id2 ctx order) nid noff joff in
  ctxid_from_qid q = ctx /\ qorder_from_qid q = order /\ neighbor_id_from_qid q = nid /\
  neighbor_offset_from_qid q = noff /\ joiner_offset_from_qid q = joff /\
  N.land q (query_type_mask instance) = TYPE_REQUEST.
Proof.
  intros Ho Hc Hn Hno Hj q.
  assert (Ht : TYPE_REQUEST < 2 ^ 4) by done.
  unfold q, forward_qid, set_joiner_offset, set_neighbor_offset, set_neighbor_id, query_id2.
  autorewrite with qid_fields. cbn [instance].
  change (query_order_shift instance) with 4. change (local_context_shift instance) with 34.
  change (neighbor_id_shift instance) with 54. change (neighbor_offset_shift instance) with 44.
  change (joiner_offset_shift instance) with 28.
  repeat split; qid_field.
Qed.

Lemma strip_forward ctx order nid noff joff :
  order < 2 ^ 24 -> ctx < 2 ^ 10 -> nid < 2 ^ 10 -> noff < 2 ^ 10 -> joff < 2 ^ 6 ->
  strip_qid (forward_qid (query_id2 ctx order) nid noff joff) = query_id2 ctx order.
Proof.
  intros Ho Hc Hn Hno Hj.
  assert (Hclear : forall sh w, sh + w <= 64 -> 44 <= sh \/ sh = 28 /\ w = 6 ->
    unset sh w (query_id2 ctx order) = query_id2 ctx order).
  { intros sh w Hw Hsh. apply unset_clear; [by apply query_id2_below|done|].
    unfold query_id2. rewrite !field_lor.
    change (query_order_shift instance) with 4. change (local_context_shift instance) with 34.
    rewrite (field_low_other TYPE_REQUEST 4), (field_other order 24), (field_other ctx 10)
      by (done || lia). done. }
  unfold strip_qid, forward_qid.
  change unset_joiner_offset with (unset 28 6). change unset_neighbor_offset with (unset 44 10).
  change unset_neighbor_id with (unset 54 10).
  unfold set_joiner_offset, set_neighbor_offset, set_neighbor_id.
  change (neighbor_id_shift instance) with 54. change (neighbor_offset_shift instance) with 44.
  change (joiner_offset_shift instance) with 28.
  rewrite !unset_lor, !Hclear by lia.
  rewrite (unset_own nid 10 54), (unset_other noff 10 44 10 54), (unset_other joff 6 28 10 54)
    by (done || lia).
  rewrite (unset_own noff 10 44), (unset_other joff 6 28 10 44), (unset_own joff 6 28)
    by (done || lia).
  change (unset 44 10 0) with 0. change (unset 28 6 0) with 0. by rewrite !N.lor_0_r.
Qed.

(** The fields of a query identifier, in the order [query_id6] takes them. *)
Definition fields (qid : N) : N * N * N * N * N * N :=
  (N.land qid (query_type_mask instance), ctxid_from_qid qid, joiner_offset_from_qid qid,
   neighbor_id_from_qid qid, neighbor_offset_from_qid qid, qorder_from_qid qid).

(** ** Correctness *)

(** [query_id6] packs six fields into one 64-bit word without overlap:
    as long as each value fits its field, every accessor reads back exactly
    the value that was packed, and the word stays below 2^64. *)
Theorem query_id_roundtrip query_type ctx_id joiner_offset neighbor_id neighbor_offset query_order :
  query_type < 2 ^ 4 -> ctx_id < 2 ^ 10 -> joiner_offset < 2 ^ 6 -> neighbor_id < 2 ^ 10 ->
  neighbor_offset < 2 ^ 10 -> query_order < 2 ^ 24 ->
  let qid := query_id6 query_type ctx_id joiner_offset neighbor_id neighbor_offset query_order in
  fields qid = (query_type, ctx_id, joiner_offset, neighbor_id, neighbor_offset, query_order) /\
  bits_below qid 64.
Proof.
  intros Ht Hc Hj Hn Hno Ho qid. unfold qid, fields, query_id6.
  autorewrite with qid_fields. cbn [instance].
  change (query_order_shift instance) with 4. change (local_context_shift instance) with 34.
  change (neighbor_id_shift instance) with 54. change (neighbor_offset_shift instance) with 44.
  change (joiner_offset_shift instance) with 28.
  split; [repeat f_equal; qid_field|].
  repeat apply bits_below_lor; try (by eapply shl_below).
  apply (bits_below_mono _ 4); [|done]. by apply lt_pow2_bits.
Qed.

(** A request that a joiner forwards to a neighbor keeps its type, its
    context and its query order, carries the neighbor's identity, offset and
    the joiner's offset, and stripping those three fields from the answer's
    identifier gives back the identifier the joiner was asked with. *)
Lemma forwarded_query_id ctx order nid noff joff :
  order < 2 ^ 24 -> ctx < 2 ^ 10 -> nid < 2 ^ 10 -> noff < 2 ^ 10 -> joff < 2 ^ 6 ->
  let qid := query_id2 ctx order in
  let q := forward_qid qid nid noff joff in
  fields q = (TYPE_REQUEST, ctx, joff, nid, noff, order) /\ is_request q = true /\
  strip_qid q = qid.
Proof.
  intros Ho Hc Hn Hno Hj qid q. unfold fields, is_request.
  destruct (forward_fields ctx order nid noff joff Ho Hc Hn Hno Hj)
    as (E1 & E2 & E3 & E4 & E5 & E6).
  unfold q, qid. rewrite E1, E2, E3, E4, E5, E6.
  split; [done|]. split; [done|]. by apply strip_forward.
Qed.

(** The query order has 24 bits and is not checked: the identifier of
    query number [2^24 + k] of a context reads back as query [k] arriving
    from joiner offset 1, for every [k] and context that fit their fields. *)
Lemma query_order_overflow ctx k :
  ctx < 2 ^ 10 -> k < 2 ^ 24 ->
  let q := query_id2 ctx (2 ^ 24 + k) in
  qorder_from_qid q = k /\ joiner_offset_from_qid q = 1 /\ ctxid_from_qid q = ctx.
Proof.
  intros Hc Hk q.
  assert (E : q = query_id6 TYPE_REQUEST ctx 1 0 0 k).
  { unfold q, query_id2, query_id6.
    change (query_order_shift instance) with 4. change (local_context_shift instance) with 34.
    change (neighbor_id_shift instance) with 54. change (neighbor_offset_shift instance) with 44.
    change (joiner_offset_shift instance) with 28.
    change (u64_shl 0 44) with 0. change (u64_shl 0 54) with 0. rewrite !N.lor_0_r.
    rewrite (u64_shl_field _ 25), (u64_shl_field k 24), (u64_shl_field 1 6) by lia.
    replace (2 ^ 24 + k) with (N.lor k (N.shiftl 1 24)).
    - rewrite N.shiftl_lor, N.shiftl_shiftl. change (24 + 4) with 28.
      rewrite !N.lor_assoc. rewrite <- (N.lor_assoc _ (N.shiftl 1 28)).
      by rewrite (N.lor_comm (N.shiftl 1 28)), N.lor_assoc.
    - assert (Hd : N.land k (2 ^ 24) = 0); [|by rewrite N.shiftl_1_l, <- N.lxor_lor,
        <- N.add_nocarry_lxor, N.add_comm].
      apply N.bits_inj_0. intros i. rewrite N.land_spec.
      destruct (N.eq_dec i 24) as [->|]; [by rewrite (lt_pow2_bits k 24)|].
      by rewrite N.pow2_bits_false, andb_false_r by lia. }
  rewrite E. unfold query_id6. autorewrite with qid_fields.
  change (query_order_shift instance) with 4. change (local_context_shift instance) with 34.
  change (neighbor_id_shift instance) with 54. change (neighbor_offset_shift instance) with 44.
  change (joiner_offset_shift instance) with 28.
  assert (TYPE_REQUEST < 2 ^ 4) by done. assert (1 < 2 ^ 6) by done.
  assert (0 < 2 ^ 10) by done. repeat split; qid_field.
Qed.

Lemma query_id_roundtrip_witness :
  fields (query_id6 TYPE_ANSWER 1023 63 7 5 16777215) = (TYPE_ANSWER, 1023, 63, 7, 5, 16777215) /\
  bits_below (query_id6 TYPE_ANSWER 1023 63 7 5 16777215) 64.
Proof. apply (query_id_roundtrip TYPE_ANSWER 1023 63 7 5 16777215); reflexivity. Defined.

Lemma forwarded_query_id_witness :
  fields (forward_qid (query_id2 3 9) 4 1 2) = (TYPE_REQUEST, 3, 2, 4, 1, 9) /\
  is_request (forward_qid (query_id2 3 9) 4 1 2) = true /\
  strip_qid (forward_qid (query_id2 3 9) 4 1 2) = query_id2 3 9.
Proof. apply (forwarded_query_id 3 9 4 1 2); reflexivity. Defined.

Lemma query_order_overflow_witness :
  qorder_from_qid (query_id2 3 16777216) = 0 /\ joiner_offset_from_qid (query_id2 3 16777216) = 1 /\
  ctxid_from_qid (query_id2 3 16777216) = 3.
Proof. apply (query_order_overflow 3 0); reflexivity. Defined.

End QueryID.
