(* ===== verification/Ident.v ===== *)
(** * Identifiers of terms, atoms, literals, rules and beliefs

    [ID] (include/mcs/ID.h, src/mcs/ID.cpp): a 32-bit kind, whose fields are
    tested by masks, and a 32-bit address. *)

From S2P Require Import Prelude.

Module Ident.

Record ID := mk_ID { kind : N; address : N }.

#[export] Instance ID_eq_dec : EqDecision ID.
Proof. solve_decision. Defined.

Definition ALL_ONES : N := 0xFFFFFFFF.
Definition NAF_MASK : N := 0x80000000.
Definition MAINKIND_MASK : N := 0x70000000.
Definition MAINKIND_SHIFT : N := 28.
Definition SUBKIND_MASK : N := 0x0F000000.
Definition SUBKIND_SHIFT : N := 24.
Definition PROPERTY_MASK : N := 0x00FF0000.
Definition PROPERTY_SHIFT : N := 16.
Definition CONTEXT_ID_MASK : N := 0x0000FFFF.

Definition MAINKIND_ATOM : N := 0x00000000.
Definition MAINKIND_TERM : N := 0x10000000.
Definition MAINKIND_LITERAL : N := 0x20000000.
Definition MAINKIND_RULE : N := 0x30000000.
Definition MAINKIND_BELIEF : N := 0x40000000.

Definition SUBKIND_TERM_CONSTANT : N := 0x00000000.
Definition SUBKIND_TERM_INTEGER : N := 0x01000000.
Definition SUBKIND_TERM_VARIABLE : N := 0x02000000.
Definition SUBKIND_TERM_BUILTIN : N := 0x03000000.
Definition SUBKIND_TERM_PREDICATE : N := 0x04000000.

Definition SUBKIND_ATOM_ORDINARYG : N := 0x00000000.
Definition SUBKIND_ATOM_ORDINARYN : N := 0x01000000.
Definition SUBKIND_ATOM_BUILTIN : N := 0x02000000.
Definition SUBKIND_ATOM_AGGREGATE : N := 0x03000000.
Definition SUBKIND_ATOM_EXTERNAL : N := 0x06000000.
Definition SUBKIND_ATOM_MODULE : N := 0x0A000000.

Definition SUBKIND_RULE_REGULAR : N := 0x00000000.
Definition SUBKIND_RULE_CONSTRAINT : N := 0x01000000.
Definition SUBKIND_RULE_WEAKCONSTRAINT : N := 0x02000000.
Definition SUBKIND_RULE_BRIDGE_RULE : N := 0x03000000.

Definition PROPERTY_VAR_ANONYMOUS : N := 0x00010000.
Definition PROPERTY_RULE_EXTATOMS : N := 0x00080000.
Definition PROPERTY_RULE_DISJ : N := 0x00100000.
Definition PROPERTY_RULE_MODATOMS : N := 0x00400000.
Definition PROPERTY_AUX : N := 0x00800000.

Definition ID_FAIL : ID := mk_ID ALL_ONES ALL_ONES.

(** [~m] on a 32-bit word *)
Definition not32 (m : N) : N := N.lxor ALL_ONES m.

(** [(kind & mask) == k] *)
Definition kind_is (i : ID) (mask k : N) : bool := N.land (kind i) mask =? k.

Definition isTerm (i : ID) : bool := kind_is i MAINKIND_MASK MAINKIND_TERM.
Definition isAtom (i : ID) : bool := kind_is i MAINKIND_MASK MAINKIND_ATOM.
Definition isLiteral (i : ID) : bool := kind_is i MAINKIND_MASK MAINKIND_LITERAL.
Definition isBelief (i : ID) : bool := kind_is i MAINKIND_MASK MAINKIND_BELIEF.
Definition isRule (i : ID) : bool := kind_is i MAINKIND_MASK MAINKIND_RULE.
Definition isNaf (i : ID) : bool := kind_is i NAF_MASK NAF_MASK.
Definition isAuxiliary (i : ID) : bool := kind_is i PROPERTY_AUX PROPERTY_AUX.

(** The predicates on subkinds and properties assert the main kind first. *)
Definition checked (pre post : bool) : res bool := _ ← assert pre; mret post.

Definition isConstantTerm (i : ID) := checked (isTerm i) (kind_is i SUBKIND_MASK SUBKIND_TERM_CONSTANT).
Definition isIntegerTerm (i : ID) := checked (isTerm i) (kind_is i SUBKIND_MASK SUBKIND_TERM_INTEGER).
Definition isVariableTerm (i : ID) := checked (isTerm i) (kind_is i SUBKIND_MASK SUBKIND_TERM_VARIABLE).
Definition isBuiltinTerm (i : ID) := checked (isTerm i) (kind_is i SUBKIND_MASK SUBKIND_TERM_BUILTIN).
Definition isPredicateTerm (i : ID) := checked (isTerm i) (kind_is i SUBKIND_MASK SUBKIND_TERM_PREDICATE).

Definition isOrdinaryAtom (i : ID) :=
  checked (isAtom i || isLiteral i) (negb (kind_is i SUBKIND_ATOM_BUILTIN SUBKIND_ATOM_BUILTIN)).
Definition isOrdinaryGroundAtom (i : ID) :=
  checked (isAtom i || isLiteral i) (kind_is i SUBKIND_MASK 0).
Definition isOrdinaryNongroundAtom (i : ID) :=
  checked (isAtom i || isLiteral i) (kind_is i SUBKIND_MASK SUBKIND_ATOM_ORDINARYN).
Definition isBuiltinAtom (i : ID) :=
  checked (isAtom i || isLiteral i) (kind_is i SUBKIND_MASK SUBKIND_ATOM_BUILTIN).
Definition isAggregateAtom (i : ID) :=
  checked (isAtom i || isLiteral i) (kind_is i SUBKIND_MASK SUBKIND_ATOM_AGGREGATE).
Definition isExternalAtom (i : ID) :=
  checked (isAtom i || isLiteral i) (kind_is i SUBKIND_MASK SUBKIND_ATOM_EXTERNAL).
Definition isModuleAtom (i : ID) :=
  checked (isAtom i || isLiteral i) (kind_is i SUBKIND_MASK SUBKIND_ATOM_MODULE).

Definition isRegularRule (i : ID) := checked (isRule i) (kind_is i SUBKIND_MASK SUBKIND_RULE_REGULAR).
Definition isConstraint (i : ID) := checked (isRule i) (kind_is i SUBKIND_MASK SUBKIND_RULE_CONSTRAINT).
Definition isWeakConstraint (i : ID) := checked (isRule i) (kind_is i SUBKIND_MASK SUBKIND_RULE_WEAKCONSTRAINT).
Definition isBridgeRule (i : ID) := checked (isRule i) (kind_is i SUBKIND_MASK SUBKIND_RULE_BRIDGE_RULE).
Definition doesRuleContainExtatoms (i : ID) :=
  checked (isRule i) (kind_is i PROPERTY_RULE_EXTATOMS PROPERTY_RULE_EXTATOMS).
Definition doesRuleContainModatoms (i : ID) :=
  checked (isRule i) (kind_is i PROPERTY_RULE_MODATOMS PROPERTY_RULE_MODATOMS).
Definition isRuleDisjunctive (i : ID) :=
  checked (isRule i) (kind_is i PROPERTY_RULE_DISJ PROPERTY_RULE_DISJ).
Definition isAnonymousVariable (i : ID) : res bool :=
  v ← isVariableTerm i;
  checked v (kind_is i PROPERTY_VAR_ANONYMOUS PROPERTY_VAR_ANONYMOUS).

Definition contextID (i : ID) : res N :=
  _ ← assert (isBelief i);
  mret (N.land (kind i) CONTEXT_ID_MASK).

Definition termFromInteger (i : N) : ID := mk_ID (N.lor MAINKIND_TERM SUBKIND_TERM_INTEGER) i.
Definition termFromBuiltin (b : N) : ID := mk_ID (N.lor MAINKIND_TERM SUBKIND_TERM_BUILTIN) b.

Definition posLiteralFromAtom (atom : ID) : res ID :=
  _ ← assert (isAtom atom);
  mret (mk_ID (N.lor (kind atom) MAINKIND_LITERAL) (address atom)).

Definition nafLiteralFromAtom (atom : ID) : res ID :=
  _ ← assert (isAtom atom);
  mret (mk_ID (N.lor (N.lor (kind atom) MAINKIND_LITERAL) NAF_MASK) (address atom)).

Definition literalFromAtom (atom : ID) (naf : bool) : res ID :=
  _ ← assert (isAtom atom);
  if naf then nafLiteralFromAtom atom else posLiteralFromAtom atom.

Definition atomFromLiteral (literal : ID) : res ID :=
  _ ← assert (isLiteral literal);
  mret (mk_ID (N.lor (N.land (kind literal) (not32 (N.lor NAF_MASK MAINKIND_MASK))) MAINKIND_ATOM)
              (address literal)).

Definition posLiteralFromBelief (belief : ID) : res ID :=
  _ ← assert (isBelief belief);
  mret (mk_ID (N.lor (N.land (kind belief) (not32 NAF_MASK)) MAINKIND_BELIEF) (address belief)).

Definition nafLiteralFromBelief (belief : ID) : res ID :=
  _ ← assert (isBelief belief);
  mret (mk_ID (N.lor (N.lor (kind belief) MAINKIND_BELIEF) NAF_MASK) (address belief)).

Definition literalFromBelief (belief : ID) (naf : bool) : res ID :=
  _ ← assert (isBelief belief);
  if naf then nafLiteralFromBelief belief else posLiteralFromBelief belief.

Definition id_eqb (a b : ID) : bool := (kind a =? kind b) && (address a =? address b).
Definition id_or (a b : ID) : ID := mk_ID (N.lor (kind a) (kind b)) (N.lor (address a) (address b)).
Definition id_and (a b : ID) : ID := mk_ID (N.land (kind a) (kind b)) (N.land (address a) (address b)).

(** ** Builtin terms *)

(** [enum TermBuiltinAddress], the addresses of builtin terms *)
Definition TERM_BUILTIN_EQ : N := 0.
Definition TERM_BUILTIN_NE : N := 1.
Definition TERM_BUILTIN_LT : N := 2.
Definition TERM_BUILTIN_LE : N := 3.
Definition TERM_BUILTIN_GT : N := 4.
Definition TERM_BUILTIN_GE : N := 5.
Definition TERM_BUILTIN_MUL : N := 6.
Definition TERM_BUILTIN_ADD : N := 7.
Definition TERM_BUILTIN_SUB : N := 8.
Definition TERM_BUILTIN_DIV : N := 9.
Definition TERM_BUILTIN_AGGCOUNT : N := 10.
Definition TERM_BUILTIN_AGGMIN : N := 11.
Definition TERM_BUILTIN_AGGMAX : N := 12.
Definition TERM_BUILTIN_AGGSUM : N := 13.
Definition TERM_BUILTIN_AGGTIMES : N := 14.
Definition TERM_BUILTIN_AGGAVG : N := 15.
Definition TERM_BUILTIN_AGGANY : N := 16.
Definition TERM_BUILTIN_INT : N := 17.
Definition TERM_BUILTIN_SUCC : N := 18.
Definition TERM_BUILTIN_MOD : N := 19.

Definition builtinTerms : list string :=
  ["="; "!="; "<"; "<="; ">"; ">="; "*"; "+"; "-"; "/";
   "#count"; "#min"; "#max"; "#sum"; "#times"; "#avg"; "#any"; "#int"; "#succ"; "#mod"]%string.

Definition stringFromBuiltinTerm (addr : N) : res string :=
  _ ← assert (addr <? N.of_nat (length builtinTerms));
  vec_at builtinTerms addr.

Definition termFromBuiltinString (op : string) : res ID :=
  let op_is s := bool_decide (op = s) in
  _ ← assert (negb (op_is ""%string));
  match String.length op with
  | 1%nat =>
      if op_is "="%string then mret (termFromBuiltin TERM_BUILTIN_EQ)
      else if op_is "<"%string then mret (termFromBuiltin TERM_BUILTIN_LT)
      else if op_is ">"%string then mret (termFromBuiltin TERM_BUILTIN_GT)
      else if op_is "*"%string then mret (termFromBuiltin TERM_BUILTIN_MUL)
      else if op_is "+"%string then mret (termFromBuiltin TERM_BUILTIN_ADD)
      else if op_is "-"%string then mret (termFromBuiltin TERM_BUILTIN_SUB)
      else if op_is "/"%string then mret (termFromBuiltin TERM_BUILTIN_DIV)
      else Err AssertFailed
  | 2%nat =>
      if op_is "=="%string then mret (termFromBuiltin TERM_BUILTIN_EQ)
      else if op_is "!="%string || op_is "<>"%string then mret (termFromBuiltin TERM_BUILTIN_NE)
      else if op_is "<="%string then mret (termFromBuiltin TERM_BUILTIN_LE)
      else if op_is ">="%string then mret (termFromBuiltin TERM_BUILTIN_GE)
      else Err AssertFailed
  | _ =>
      if op_is "#succ"%string then mret (termFromBuiltin TERM_BUILTIN_SUCC)
      else if op_is "#int"%string then mret (termFromBuiltin TERM_BUILTIN_INT)
      else if op_is "#count"%string then mret (termFromBuiltin TERM_BUILTIN_AGGCOUNT)
      else if op_is "#min"%string then mret (termFromBuiltin TERM_BUILTIN_AGGMIN)
      else if op_is "#max"%string then mret (termFromBuiltin TERM_BUILTIN_AGGMAX)
      else if op_is "#sum"%string then mret (termFromBuiltin TERM_BUILTIN_AGGSUM)
      else if op_is "#times"%string then mret (termFromBuiltin TERM_BUILTIN_AGGTIMES)
      else if op_is "#avg"%string then mret (termFromBuiltin TERM_BUILTIN_AGGAVG)
      else if op_is "#any"%string then mret (termFromBuiltin TERM_BUILTIN_AGGANY)
      else if op_is "#mod"%string then mret (termFromBuiltin TERM_BUILTIN_MOD)
      else Err AssertFailed
  end.

(** ** Kinds as bit fields *)

(** Masking a kind built by OR and AND with constants. *)
Ltac kind_bits :=
  unfold kind_is; cbn [kind address];
  rewrite ?N.land_lor_distr_l, <- ?N.land_assoc.

Lemma belief_literal_ok b naf :
  isBelief b = true ->
  exists l, literalFromBelief b naf = Ok l /\
    isBelief l = true /\ isNaf l = naf /\ address l = address b /\
    contextID l = contextID b.
Proof.
  intros Hb. unfold literalFromBelief, nafLiteralFromBelief, posLiteralFromBelief.
  rewrite Hb. change (assert true) with (Ok tt). rsimpl.
  pose proof Hb as Hk. apply N.eqb_eq in Hk.
  destruct naf; eexists; (split; [done|]).
  - assert (HB : isBelief (mk_ID (N.lor (N.lor (kind b) MAINKIND_BELIEF) NAF_MASK) (address b)) = true).
    { unfold isBelief. kind_bits. by rewrite Hk. }
    split; [done|]. split; [|split; [done|]].
    + unfold isNaf. kind_bits. apply N.eqb_eq.
      change (N.land NAF_MASK NAF_MASK) with NAF_MASK.
      change (N.land MAINKIND_BELIEF NAF_MASK) with 0.
      apply N.bits_inj. intros i. autorewrite with bits.
      by destruct (N.testbit (kind b) i), (N.testbit NAF_MASK i).
    + unfold contextID. rewrite HB, Hb. change (assert true) with (Ok tt). rsimpl.
      f_equal. kind_bits. change (N.land MAINKIND_BELIEF CONTEXT_ID_MASK) with 0.
      change (N.land NAF_MASK CONTEXT_ID_MASK) with 0. by rewrite !N.lor_0_r.
  - assert (HB : isBelief (mk_ID (N.lor (N.land (kind b) (not32 NAF_MASK)) MAINKIND_BELIEF) (address b)) = true).
    { unfold isBelief. kind_bits.
      change (N.land (not32 NAF_MASK) MAINKIND_MASK) with MAINKIND_MASK. by rewrite Hk. }
    split; [done|]. split; [|split; [done|]].
    + unfold isNaf. kind_bits. change (N.land (not32 NAF_MASK) NAF_MASK) with 0.
      by rewrite N.land_0_r.
    + unfold contextID. rewrite HB, Hb. change (assert true) with (Ok tt). rsimpl.
      f_equal. kind_bits. change (N.land (not32 NAF_MASK) CONTEXT_ID_MASK) with CONTEXT_ID_MASK.
      change (N.land MAINKIND_BELIEF CONTEXT_ID_MASK) with 0. by rewrite N.lor_0_r.
Qed.

(** An atom of a 32-bit kind without the NAF bit survives the trip through
    either of its literals. *)
Lemma atom_literal_ok a naf :
  isAtom a = true -> isNaf a = false -> bits_below (kind a) 32 ->
  exists l, literalFromAtom a naf = Ok l /\ isLiteral l = true /\ isNaf l = naf /\
    atomFromLiteral l = Ok a.
Proof.
  intros Ha Hn H32. unfold literalFromAtom, nafLiteralFromAtom, posLiteralFromAtom.
  rewrite Ha. change (assert true) with (Ok tt). rsimpl.
  pose proof Ha as Hk. apply N.eqb_eq in Hk.
  assert (Hn0 : N.land (kind a) NAF_MASK = 0).
  { unfold isNaf, kind_is in Hn. apply N.eqb_neq in Hn.
    change NAF_MASK with (2 ^ 31) in *. apply N.bits_inj_0. intros i.
    rewrite N.land_spec. destruct (N.eq_dec i 31) as [->|Hi].
    - destruct (N.testbit (kind a) 31) eqn:E; [|done]. exfalso. apply Hn.
      apply N.bits_inj. intros j. rewrite N.land_spec.
      destruct (N.eq_dec j 31) as [->|]; [by rewrite E|].
      by rewrite N.pow2_bits_false, andb_false_r by lia.
    - by rewrite N.pow2_bits_false, andb_false_r by lia. }
  assert (Hkeep : N.land (kind a) (not32 (N.lor NAF_MASK MAINKIND_MASK)) = kind a).
  { apply N.bits_inj. intros i. rewrite N.land_spec. unfold not32.
    destruct (N.lt_ge_cases i 32) as [Hi|Hi]; [|by rewrite H32].
    rewrite N.lxor_spec. change ALL_ONES with (N.ones 32). rewrite N.ones_spec_low, N.lor_spec by done.
    assert (N.testbit (kind a) i && N.testbit NAF_MASK i = false) by (by rewrite <- N.land_spec, Hn0, N.bits_0).
    assert (N.testbit (kind a) i && N.testbit MAINKIND_MASK i = false) by (by rewrite <- N.land_spec, Hk, N.bits_0).
    by destruct (N.testbit (kind a) i), (N.testbit NAF_MASK i), (N.testbit MAINKIND_MASK i). }
  destruct naf; eexists; (split; [done|]).
  - assert (HL : isLiteral (mk_ID (N.lor (N.lor (kind a) MAINKIND_LITERAL) NAF_MASK) (address a)) = true).
    { unfold isLiteral. kind_bits. by rewrite Hk. }
    split; [done|]. split; [unfold isNaf; kind_bits; by rewrite Hn0|].
    unfold atomFromLiteral. rewrite HL. change (assert true) with (Ok tt). rsimpl. kind_bits.
    rewrite Hkeep. destruct a as [k ad]. cbn. do 2 f_equal. by rewrite !N.lor_0_r.
  - assert (HL : isLiteral (mk_ID (N.lor (kind a) MAINKIND_LITERAL) (address a)) = true).
    { unfold isLiteral. kind_bits. by rewrite Hk. }
    split; [done|]. split; [unfold isNaf; kind_bits; by rewrite Hn0|].
    unfold atomFromLiteral. rewrite HL. change (assert true) with (Ok tt). rsimpl. kind_bits.
    rewrite Hkeep. destruct a as [k ad]. cbn. do 2 f_equal. by rewrite !N.lor_0_r.
Qed.

(** A belief and its literals: [literalFromBelief] succeeds on every
    belief identifier, gives a literal of the requested polarity with the same
    address and context, and the literal is itself accepted as a belief. *)
Lemma belief_literal b naf :
  isBelief b = true ->
  exists l, literalFromBelief b naf = Ok l /\
    isBelief l = true /\ isNaf l = naf /\ address l = address b /\ contextID l = contextID b.
Proof. apply belief_literal_ok. Qed.

Lemma belief_literal_witness :
  exists l, literalFromBelief (mk_ID (N.lor MAINKIND_BELIEF 5) 9) true = Ok l /\
    isBelief l = true /\ isNaf l = true /\ address l = 9 /\
    contextID l = contextID (mk_ID (N.lor MAINKIND_BELIEF 5) 9).
Proof. apply (belief_literal (mk_ID (N.lor MAINKIND_BELIEF 5) 9) true). reflexivity. Defined.

End Ident.
