(* ===== verification/Tables.v ===== *)
(** * Belief tables and bridge-rule tables

    [Belief], [BeliefTable], [BridgeRule] and [BridgeRuleTable] (include/mcs/).
    Both tables sit on a [boost::multi_index_container], which is not part of
    the program: the class [Indexed] states what the tables rely on, and the
    tables' operations and theorems are parametric in it. *)

From S2P Require Import Prelude Ident.
Import Ident.

Module Tables.

(** ** The container

    [conflict x y] says that two elements may not be stored together (they
    agree on the key of some unique index).  [order] is the guarantee on the
    iteration order: insertion order for a random-access index, none for a
    hashed one. *)
Class Indexed (A : Type) (conflict : A -> A -> bool) (order : relation (list A)) (T : Type) := {
  idx_empty : T;
  idx_elements : T -> list A;
  idx_find : (A -> bool) -> T -> option A;
  idx_insert : A -> T -> T * bool;
}.

Class IndexedLaws (A : Type) conflict order T `{I : Indexed A conflict order T} : Prop := {
  idx_empty_elements : idx_elements (Indexed := I) idx_empty = [];
  idx_find_some p t a : idx_find p t = Some a -> a ∈ idx_elements t /\ p a = true;
  idx_find_none p t a : idx_find p t = None -> a ∈ idx_elements t -> p a = false;
  idx_insert_fresh x t :
    (forall y, y ∈ idx_elements t -> conflict x y = false) ->
    exists t', idx_insert x t = (t', true) /\ order (idx_elements t') (idx_elements t ++ [x]);
  idx_insert_dup x y t :
    y ∈ idx_elements t -> conflict x y = true -> idx_insert x t = (t, false);
}.

(** A list satisfies the laws, for either guarantee on the order. *)
#[export] Instance list_indexed A conflict order : Indexed A conflict order (list A) := {
  idx_empty := [];
  idx_elements t := t;
  idx_find p t := List.find p t;
  idx_insert x t := if existsb (conflict x) t then (t, false) else (t ++ [x], true);
}.

#[export] Instance list_indexed_laws A conflict order `{!Reflexive order} :
  IndexedLaws A conflict order (list A).
Proof.
  split; cbn; [done|..].
  - intros p t a H. apply List.find_some in H as [H Hp]. split; [|done]. by apply list_elem_of_In.
  - intros p t a H Ha. apply (List.find_none _ _ H). by apply list_elem_of_In.
  - intros x t H. destruct (existsb (conflict x) t) eqn:E; [|by eexists].
    apply existsb_exists in E as (y & Hy & E). apply list_elem_of_In in Hy.
    rewrite (H y Hy) in E. done.
  - intros x y t Hy Hc. replace (existsb (conflict x) t) with true; [done|].
    symmetry. apply existsb_exists. exists y. by rewrite <- list_elem_of_In.
Qed.

(** ** Beliefs *)

Record Belief := mk_belief { b_address : N; b_kind : N; b_text : string }.

#[export] Instance Belief_eq_dec : EqDecision Belief.
Proof. solve_decision. Defined.

Definition belief_new (ctx_id : N) (text : string) : Belief :=
  mk_belief 0 (N.lor MAINKIND_BELIEF (ctx_id mod 2 ^ 16)) text.

Definition belief_new_at (ctx_id addr : N) (text : string) : Belief :=
  mk_belief addr (N.lor MAINKIND_BELIEF (ctx_id mod 2 ^ 16)) text.

Definition belief_ctx_id (b : Belief) : N := N.land (b_kind b) CONTEXT_ID_MASK.

Definition belief_id (b : Belief) : ID := mk_ID (b_kind b) (b_address b).

(** The two unique indices of the belief table: address and text. *)
Definition belief_conflict (x y : Belief) : bool :=
  (b_address x =? b_address y) || bool_decide (b_text x = b_text y).

Definition rule_tuple : Type := list ID.

Record BridgeRule := mk_rule { r_kind : N; r_head : ID; r_body : rule_tuple }.

#[export] Instance ID_eq_dec : EqDecision ID.
Proof. solve_decision. Defined.
#[export] Instance BridgeRule_eq_dec : EqDecision BridgeRule.
Proof. solve_decision. Defined.

(** Both constructors assert that the kind is that of a bridge rule. *)
Definition rule_new (kind : N) (head : ID) (body : rule_tuple) : res BridgeRule :=
  b ← isBridgeRule (mk_ID kind 0);
  _ ← assert b;
  mret (mk_rule kind head body).

(** The unique index of the bridge-rule table: the whole element. *)
Definition rule_conflict (x y : BridgeRule) : bool :=
  (r_kind x =? r_kind y) && id_eqb (r_head x) (r_head y) && bool_decide (r_body x = r_body y).

(** ** The belief table *)

Section belief_table.
Context {T : Type} `{I : Indexed Belief belief_conflict (≡ₚ) T}.

Record BeliefTable := mk_btab { container : T; nextAddress : N }.

Definition btab_new : BeliefTable := mk_btab idx_empty 0.

Definition btab_getSize (t : BeliefTable) : N := N.of_nat (length (idx_elements (container t))).

Definition btab_getByID (t : BeliefTable) (id : ID) : res Belief :=
  _ ← assert (isBelief id);
  match idx_find (fun b => b_address b =? address id) (container t) with
  | None => Err (Thrown "BeliefUnknownException")
  | Some b => mret b
  end.

Definition btab_getIDByString (t : BeliefTable) (str : string) : ID :=
  match idx_find (fun b => bool_decide (b_text b = str)) (container t) with
  | None => ID_FAIL
  | Some b => mk_ID (b_kind b) (b_address b)
  end.

Definition btab_storeAndGetID (t : BeliefTable) (b : Belief) : res (BeliefTable * ID) :=
  _ ← assert (isBelief (mk_ID (b_kind b) 0));
  _ ← assert (negb (bool_decide (b_text b = ""%string)));
  let nb := mk_belief (nextAddress t) (b_kind b) (b_text b) in
  let next := (nextAddress t + 1) mod 2 ^ 32 in
  let '(c, success) := idx_insert nb (container t) in
  _ ← assert success;
  mret (mk_btab c next, mk_ID (b_kind nb) (b_address nb)).

Definition btab_storeWithID (t : BeliefTable) (b : Belief) (setid : ID)
    : res (BeliefTable * ID) :=
  _ ← assert (isBelief setid);
  _ ← assert (negb (bool_decide (b_text b = ""%string)));
  _ ← assert (nextAddress t =? 0);
  let nb := mk_belief (address setid) (kind setid) (b_text b) in
  let '(c, success) := idx_insert nb (container t) in
  _ ← assert success;
  mret (mk_btab c (nextAddress t), setid).

Definition btab_getAllByAddress (t : BeliefTable) : list Belief := idx_elements (container t).

End belief_table.
Arguments BeliefTable T : clear implicits.

(** ** The bridge-rule table *)

Section rule_table.
Context {T : Type} `{I : Indexed BridgeRule rule_conflict (=) T}.

Definition rtab_new : T := idx_empty.

Definition rtab_getByID (t : T) (id : ID) : res BridgeRule :=
  b ← isBridgeRule id;
  _ ← assert b;
  _ ← assert (address id <? N.of_nat (length (idx_elements t)));
  vec_at (idx_elements t) (address id).

(** [project(it) - begin()]: the position of an element in the random-access
    index. *)
Definition rtab_position (t : T) (r : BridgeRule) : option nat :=
  fst <$> list_find (fun x => x = r) (idx_elements t).

Definition rtab_getIDByElement (t : T) (r : BridgeRule) : ID :=
  match idx_find (rule_conflict r) t with
  | None => ID_FAIL
  | Some x =>
      match rtab_position t x with
      | Some i => mk_ID (r_kind x) (N.of_nat i mod 2 ^ 32)
      | None => ID_FAIL
      end
  end.

Definition rtab_storeAndGetID (t : T) (r : BridgeRule) : res (T * ID) :=
  b ← isBridgeRule (mk_ID (r_kind r) 0);
  _ ← assert b;
  _ ← assert (negb (bool_decide (r_body r = [])));
  let '(c, success) := idx_insert r t in
  _ ← assert success;
  mret (c, mk_ID (r_kind r) ((N.of_nat (length (idx_elements c)) - 1) mod 2 ^ 32)).

Definition rtab_clear (t : T) : T := idx_empty.

Definition rtab_getAllByAddress (t : T) : list BridgeRule := idx_elements t.

End rule_table.

(** ** Lookups *)

Section find.
Context {A : Type} {conflict : A -> A -> bool} {order : relation (list A)} {T : Type}.
Context `{L : IndexedLaws A conflict order T}.

(** At most one element satisfies [p]. *)
Definition only_one (p : A -> bool) (t : T) : Prop :=
  forall a b, a ∈ idx_elements t -> b ∈ idx_elements t -> p a = true -> p b = true -> a = b.

Lemma find_iff p t a :
  only_one p t -> idx_find p t = Some a <-> a ∈ idx_elements t /\ p a = true.
Proof.
  intros H1. split; [apply idx_find_some|]. intros [Ha Hp].
  destruct (idx_find p t) as [b|] eqn:E.
  - apply idx_find_some in E as [??]. by rewrite (H1 b a).
  - rewrite (idx_find_none p t a) in Hp by done. done.
Qed.

Lemma find_ext p t t' :
  only_one p t ->
  (forall a, p a = true -> a ∈ idx_elements t <-> a ∈ idx_elements t') ->
  idx_find p t = idx_find p t'.
Proof.
  intros H1 Heq.
  assert (H1' : only_one p t') by (intros a b ????; apply H1; try done; by apply Heq).
  apply option_eq. intros a. rewrite !find_iff by done. split; intros []; split; try done; by apply Heq.
Qed.

Lemma find_none_iff p t : idx_find p t = None <-> forall a, a ∈ idx_elements t -> p a = false.
Proof.
  split; [intros ???; by eapply idx_find_none|]. intros H.
  destruct (idx_find p t) as [a|] eqn:E; [|done].
  apply idx_find_some in E as [Ha Hp]. rewrite H in Hp by done. done.
Qed.
End find.

(** ** The belief table keeps its indices *)

Section belief_table_laws.
Context {T : Type} `{L : IndexedLaws Belief belief_conflict (≡ₚ) T}.

(** The invariant of a table filled by [storeAndGetID]. *)
Record btab_inv (t : BeliefTable T) : Prop := {
  inv_unique : forall x y, x ∈ idx_elements (container t) -> y ∈ idx_elements (container t) ->
    belief_conflict x y = true -> x = y;
  inv_below : forall x, x ∈ idx_elements (container t) -> b_address x < nextAddress t;
  inv_kind : forall x, x ∈ idx_elements (container t) -> isBelief (mk_ID (b_kind x) 0) = true;
}.

Lemma btab_new_inv : btab_inv btab_new.
Proof. split; cbn; rewrite idx_empty_elements; intros; by apply not_elem_of_nil in H. Qed.

Lemma text_only_one t s : btab_inv t -> only_one (fun b => bool_decide (b_text b = s)) (container t).
Proof.
  intros H a b Ha Hb Ea Eb. apply (inv_unique t H); [done..|]. unfold belief_conflict.
  apply bool_decide_eq_true in Ea, Eb. apply orb_true_iff. right. apply bool_decide_eq_true. congruence.
Qed.

Lemma address_only_one t k : btab_inv t -> only_one (fun b => b_address b =? k) (container t).
Proof.
  intros H a b Ha Hb Ea Eb. apply (inv_unique t H); [done..|]. unfold belief_conflict.
  bsimpl. apply orb_true_iff. left. apply N.eqb_eq. congruence.
Qed.

Lemma unknown_text t s :
  btab_inv t -> btab_getIDByString t s = ID_FAIL ->
  forall x, x ∈ idx_elements (container t) -> b_text x <> s.
Proof.
  intros H Hs x Hx Ht. unfold btab_getIDByString in Hs.
  destruct (idx_find _ (container t)) as [b|] eqn:E.
  - apply idx_find_some in E as [Hb _]. apply (inv_kind t H) in Hb.
    injection Hs as Hk _. rewrite Hk in Hb. done.
  - apply (idx_find_none _ _ x) in E; [|done]. by apply bool_decide_eq_false in E.
Qed.

Lemma insert_inv t b t' c :
  btab_inv t -> (forall y, y ∈ idx_elements (container t) -> belief_conflict b y = false) ->
  isBelief (mk_ID (b_kind b) 0) = true -> b_address b = nextAddress t ->
  idx_elements c ≡ₚ idx_elements (container t) ++ [b] -> t' = mk_btab c (nextAddress t + 1) ->
  btab_inv t'.
Proof.
  intros H Hfresh Hk Hb Hel ->.
  assert (Hin : forall x, x ∈ idx_elements c <-> x ∈ idx_elements (container t) \/ x = b).
  { intros x. rewrite Hel, elem_of_app, list_elem_of_singleton. done. }
  assert (Hsym : forall x y, belief_conflict x y = belief_conflict y x).
  { intros x y. unfold belief_conflict. rewrite N.eqb_sym. f_equal. by apply bool_decide_ext. }
  split; cbn [container nextAddress].
  - intros x y [Hx| ->]%Hin [Hy| ->]%Hin Hc; [by apply (inv_unique t H)| | |done].
    + rewrite Hsym, Hfresh in Hc by done. done.
    + rewrite Hfresh in Hc by done. done.
  - intros x [Hx| ->]%Hin; [apply (inv_below t H) in Hx; lia|lia].
  - intros x [Hx| ->]%Hin; [by apply (inv_kind t H)|done].
Qed.

(** Storing a belief with a new text in a table that was filled by
    [storeAndGetID] succeeds and keeps the table's invariant (addresses and
    texts unique, addresses below the counter).  The identifier carries the
    belief's kind and the running address; looking it up gives the belief,
    looking the text up gives the identifier, and no other lookup, by
    identifier or by text, changes its answer. *)
Theorem belief_table_store t b :
  btab_inv t -> nextAddress t + 1 < 2 ^ 32 ->
  isBelief (mk_ID (b_kind b) 0) = true -> b_text b <> ""%string ->
  btab_getIDByString t (b_text b) = ID_FAIL ->
  exists t', btab_storeAndGetID t b = Ok (t', mk_ID (b_kind b) (nextAddress t)) /\
    btab_inv t' /\
    btab_getByID t' (mk_ID (b_kind b) (nextAddress t))
      = Ok (mk_belief (nextAddress t) (b_kind b) (b_text b)) /\
    btab_getIDByString t' (b_text b) = mk_ID (b_kind b) (nextAddress t) /\
    (forall id, address id <> nextAddress t -> btab_getByID t' id = btab_getByID t id) /\
    (forall s, s <> b_text b -> btab_getIDByString t' s = btab_getIDByString t s).
Proof.
  intros H Hmax Hk Hne Hnew. set (nb := mk_belief (nextAddress t) (b_kind b) (b_text b)).
  assert (Hfresh : forall y, y ∈ idx_elements (container t) -> belief_conflict nb y = false).
  { intros y Hy. unfold belief_conflict. apply orb_false_iff. split.
    - apply N.eqb_neq. cbn. pose proof (inv_below t H y Hy). lia.
    - apply bool_decide_eq_false. cbn. intros E. by apply (unknown_text t _ H Hnew y). }
  destruct (idx_insert_fresh nb (container t) Hfresh) as (c & Hins & Hel).
  set (t' := mk_btab c (nextAddress t + 1)). exists t'.
  assert (Hinv : btab_inv t') by (by eapply (insert_inv t nb t' c)).
  assert (Hin : forall x, x ∈ idx_elements c <-> x ∈ idx_elements (container t) \/ x = nb).
  { intros x. rewrite Hel, elem_of_app, list_elem_of_singleton. done. }
  assert (Hstore : btab_storeAndGetID t b = Ok (t', mk_ID (b_kind b) (nextAddress t))).
  { unfold btab_storeAndGetID. fold nb. rewrite Hk, bool_decide_false by done.
    cbn [negb]. change (assert true) with (Ok tt). rsimpl. rewrite Hins.
    change (assert true) with (Ok tt). rsimpl. rewrite N.mod_small by done. done. }
  split; [done|]. split; [done|]. split; [|split; [|split]].
  - unfold btab_getByID. change (isBelief _) with (isBelief (mk_ID (b_kind b) 0)). rewrite Hk.
    change (assert true) with (Ok tt). rsimpl. cbn [address].
    assert (idx_find (fun x => b_address x =? nextAddress t) (container t') = Some nb) as ->; [|done].
    apply find_iff; [by apply address_only_one|]. split; [|apply N.eqb_refl]. apply Hin. by right.
  - unfold btab_getIDByString.
    assert (idx_find (fun x => bool_decide (b_text x = b_text b)) (container t') = Some nb) as ->; [|done].
    apply find_iff; [by apply text_only_one|]. split; [|by apply bool_decide_eq_true].
    apply Hin. by right.
  - intros id Hid. unfold btab_getByID.
    rewrite <- (find_ext (fun x => b_address x =? address id) (container t) (container t')); [done|..].
    + by apply address_only_one.
    + intros a Ha. change (container t') with c. rewrite Hin. bsimpl. split; [tauto|].
      intros [?|E]; [done|]. subst a. cbn in Ha. congruence.
  - intros s Hs. unfold btab_getIDByString.
    rewrite <- (find_ext (fun x => bool_decide (b_text x = s)) (container t) (container t')); [done|..].
    + by apply text_only_one.
    + intros a Ha. change (container t') with c. rewrite Hin. apply bool_decide_eq_true in Ha.
      split; [tauto|]. intros [?|E]; [done|]. subst a. cbn in Ha. congruence.
Qed.

(** Storing a text twice trips the assertion on the insertion. *)
Lemma belief_table_duplicate t b x :
  x ∈ idx_elements (container t) -> b_text x = b_text b ->
  exists e, btab_storeAndGetID t b = Err e.
Proof.
  intros Hx Ht. unfold btab_storeAndGetID, assert.
  destruct (isBelief _); rsimpl; [|by eexists].
  destruct (negb _); rsimpl; [|by eexists].
  rewrite (idx_insert_dup _ x); [by eexists|done|].
  unfold belief_conflict. apply orb_true_iff. right. by apply bool_decide_eq_true.
Qed.
End belief_table_laws.

(** ** The bridge-rule table *)

Section rule_table_laws.
Context {T : Type} `{L : IndexedLaws BridgeRule rule_conflict (=) T}.

Lemma rule_conflict_eq x y : rule_conflict x y = true <-> x = y.
Proof.
  unfold rule_conflict, id_eqb. rewrite !andb_true_iff, !N.eqb_eq, bool_decide_eq_true.
  destruct x as [k [hk ha] b], y as [k' [hk' ha'] b']. cbn. naive_solver.
Qed.

(** The comment on [BridgeRuleTable::storeAndGetID] says that no
    duplicate check is done or required.  A rule that is new to the table is
    indeed appended, with the next free address, and is found again under the
    identifier returned; but a rule that is already stored makes the
    insertion fail and the assertion behind it abort. *)
Theorem bridge_rule_store t r :
  isBridgeRule (mk_ID (r_kind r) 0) = Ok true -> r_body r <> [] ->
  N.of_nat (length (idx_elements t)) < 2 ^ 32 ->
  (r ∉ idx_elements t ->
     exists t', let id := mk_ID (r_kind r) (N.of_nat (length (idx_elements t))) in
       rtab_storeAndGetID t r = Ok (t', id) /\
       idx_elements t' = idx_elements t ++ [r] /\
       rtab_getByID t' id = Ok r) /\
  (r ∈ idx_elements t -> rtab_storeAndGetID t r = Err AssertFailed).
Proof.
  intros Hk Hb Hmax. unfold rtab_storeAndGetID.
  rewrite Hk, bool_decide_false by done. rsimpl. cbn [negb].
  change (assert true) with (Ok tt). rsimpl. split.
  - intros Hr. destruct (idx_insert_fresh r t) as (t' & -> & Hel).
    { intros y Hy. apply not_true_is_false. rewrite rule_conflict_eq. by intros ->. }
    exists t'. change (assert true) with (Ok tt). rsimpl. cbn zeta. split; [|split; [done|]].
    + rewrite Hel, length_app. cbn [length]. rewrite N.mod_small by lia. do 3 f_equal. lia.
    + unfold rtab_getByID, isBridgeRule, checked in *.
      change (isRule _) with (isRule (mk_ID (r_kind r) 0)).
      change (kind_is _ _ _) with (kind_is (mk_ID (r_kind r) 0) SUBKIND_MASK SUBKIND_RULE_BRIDGE_RULE).
      rewrite Hk. rsimpl. rewrite Hel. cbn [address]. rewrite length_app. cbn [length].
      replace (_ <? _) with true by (symmetry; apply N.ltb_lt; lia).
      change (assert true) with (Ok tt). rsimpl. apply vec_at_ok.
      rewrite Nat2N.id. by apply list_lookup_middle.
  - intros Hr. by rewrite (idx_insert_dup r r) by (done || by apply rule_conflict_eq).
Qed.
End rule_table_laws.

(** ** On the list container *)

Lemma belief_table_store_witness :
  let b := belief_new 3 "a" in
  exists t', btab_storeAndGetID (T := list Belief) btab_new b = Ok (t', mk_ID (b_kind b) 0) /\
    btab_inv t' /\
    btab_getByID t' (mk_ID (b_kind b) 0) = Ok (mk_belief 0 (b_kind b) (b_text b)) /\
    btab_getIDByString t' (b_text b) = mk_ID (b_kind b) 0 /\
    (forall id, address id <> 0 -> btab_getByID t' id = btab_getByID btab_new id) /\
    (forall s, s <> b_text b -> btab_getIDByString t' s = btab_getIDByString (T := list Belief) btab_new s).
Proof.
  apply (belief_table_store (T := list Belief) btab_new (belief_new 3 "a"));
    [apply btab_new_inv|done|done|discriminate|done].
Defined.

Definition sample_rule : BridgeRule :=
  mk_rule (N.lor MAINKIND_RULE SUBKIND_RULE_BRIDGE_RULE) (mk_ID MAINKIND_BELIEF 1)
    [mk_ID (N.lor MAINKIND_BELIEF 1) 2].

Lemma bridge_rule_store_witness :
  let id := mk_ID (r_kind sample_rule) 0 in
  (exists t', rtab_storeAndGetID (T := list BridgeRule) [] sample_rule = Ok (t', id) /\
     t' = [sample_rule] /\ rtab_getByID t' id = Ok sample_rule) /\
  rtab_storeAndGetID (T := list BridgeRule) [sample_rule] sample_rule = Err AssertFailed.
Proof.
  split.
  - destruct (bridge_rule_store (T := list BridgeRule) [] sample_rule) as [H _]; [done|done|done|].
    apply H, not_elem_of_nil.
  - destruct (bridge_rule_store (T := list BridgeRule) [sample_rule] sample_rule) as [_ H]; [done|done|done|].
    apply H. by apply list_elem_of_singleton.
Defined.

End Tables.
