(* ===== verification/BridgeRules.v ===== *)
(** * Bridge rules and the heads they derive

    [satisfied] and [evaluate_bridge_rules] (src/mcs/BridgeRuleEvaluator.cpp)
    and the classes [Heads] and [HeadsPlusBeliefState] (include/mcs/Heads.h). *)

From S2P Require Import Prelude BitMagic BeliefState BeliefStateOffset Combination Ident Tables.
Import BitMagic BeliefState BeliefStateOffset Combination Ident Tables.

Module BridgeRules.

(** ** Heads

    A null [heads] pointer marks the end of a stream of heads. [input] is the
    belief state the heads were inferred from, null for a plain [Heads]. *)
Record Heads := mk_heads {
  heads : option NewBeliefState;
  k1 : N;
  k2 : N;
  input : option NewBeliefState;
}.

Definition heads_eqb (a b : Heads) : bool :=
  match heads a, heads b with
  | None, None => true
  | None, Some _ => false
  | Some _, None => false
  | Some x, Some y => bs_eqb x y && (k1 a =? k1 b) && (k2 a =? k2 b)
  end.

Definition heads_neqb (a b : Heads) : bool :=
  match heads a, heads b with
  | None, None => false
  | None, Some _ => true
  | Some _, None => true
  | Some x, Some y => bs_neqb x y || negb (k1 a =? k1 b) || negb (k2 a =? k2 b)
  end.

(** ** Evaluation *)

(** One literal of a body: [true] when the loop goes on. *)
Definition literal_holds (inp : NewBeliefState) (starting_offset : list N) (l : ID) : res bool :=
  _ ← assert (isBelief l);
  ctx_id ← contextID l;
  off ← vec_at starting_offset ctx_id;
  let global_address := address l + off in
  v ← test inp global_address;
  if isNaf l then mret (negb (bool_decide (v = DMCS_TRUE)))
  else mret (bool_decide (v = DMCS_TRUE)).

Fixpoint satisfied_body (body : rule_tuple) (inp : NewBeliefState) (starting_offset : list N)
    : res bool :=
  match body with
  | [] => mret true
  | l :: body =>
      b ← literal_holds inp starting_offset l;
      if b : bool then satisfied_body body inp starting_offset else mret false
  end.

Definition satisfied (r : BridgeRule) (inp : NewBeliefState) (starting_offset : list N) : res bool :=
  satisfied_body (r_body r) inp starting_offset.

(** One turn of the loop over the table. *)
Definition evaluate_step (inp : NewBeliefState) (starting_offset : list N)
    (h : NewBeliefState) (r : BridgeRule) : res NewBeliefState :=
  s ← satisfied r inp starting_offset;
  if s : bool then
    ctx_id ← contextID (r_head r);
    off ← vec_at starting_offset ctx_id;
    set h (address (r_head r) + off) DMCS_TRUE
  else mret h.

Definition evaluate_bridge_rules (_instance : option Offsets) (rules : list BridgeRule)
    (inp : NewBeliefState) (k1 k2 : N) (starting_offset : list N) : res Heads :=
  o ← instance _instance;
  h ← bs_blocks (no_blocks o) (size_belief_state o) false;
  h ← foldM (evaluate_step inp starting_offset) h rules;
  mret (mk_heads (Some h) k1 k2 (Some inp)).

(** ** What the evaluator computes *)

Definition lit_ctx (l : ID) : N := N.land (kind l) CONTEXT_ID_MASK.

(** A literal refers to a belief of the layout. *)
Definition literal_wf (nb sb : N) (l : ID) : Prop :=
  isBelief l = true /\ lit_ctx l < nb /\ address l <= sb.

Definition rule_wf (nb sb : N) (r : BridgeRule) : Prop :=
  literal_wf nb sb (r_head r) /\ Forall (literal_wf nb sb) (r_body r).

(** A literal holds in a state: a positive one when its belief is true, a
    negated one when it is not (false or undefined). *)
Definition holds (sb : N) (bs : NewBeliefState) (l : ID) : Prop :=
  if isNaf l then truth bs (gpos sb (lit_ctx l) (address l)) <> DMCS_TRUE
  else truth bs (gpos sb (lit_ctx l) (address l)) = DMCS_TRUE.

#[export] Instance holds_dec sb bs l : Decision (holds sb bs l).
Proof. unfold holds. destruct (isNaf l); apply _. Defined.

Definition fires (sb : N) (bs : NewBeliefState) (r : BridgeRule) : Prop :=
  Forall (holds sb bs) (r_body r).

Definition head_pos (sb : N) (r : BridgeRule) : N := gpos sb (lit_ctx (r_head r)) (address (r_head r)).

Section layout.
Context (nb sb : N) (Hnb : 0 < nb) (Hsb : 0 < sb) (Hmax : nb * (sb + 1) <= id_max).
Local Abbreviation n := (nb * (sb + 1)).
Local Abbreviation offs := (starting_offsets (layout nb sb)).
Context (inp : NewBeliefState) (Hinp : bs_wf n inp).

Lemma contextID_ok l : isBelief l = true -> contextID l = Ok (lit_ctx l).
Proof. intros H. unfold contextID. by rewrite H. Qed.

Lemma offset_of l : literal_wf nb sb l ->
  vec_at offs (lit_ctx l) = Ok (block_start sb (lit_ctx l)).
Proof. intros (_ & Hc & _). by apply vec_at_ok, offs_lookup. Qed.

Lemma literal_holds_ok l :
  literal_wf nb sb l -> literal_holds inp offs l = Ok (bool_decide (holds sb inp l)).
Proof.
  intros Hl. pose proof Hl as (Hb & Hc & Ha). unfold literal_holds. rewrite Hb.
  change (assert true) with (Ok tt). rsimpl. rewrite contextID_ok by done. rsimpl.
  rewrite offset_of by done. rsimpl. rewrite N.add_comm.
  change (block_start sb (lit_ctx l) + address l) with (gpos sb (lit_ctx l) (address l)).
  rewrite (test_ok n) by (done || by apply gpos_lt). rsimpl.
  destruct (bool_decide (holds sb inp l)) eqn:Hh;
    [apply bool_decide_eq_true in Hh|apply bool_decide_eq_false in Hh];
    unfold holds in Hh; destruct (isNaf l); case_bool_decide; cbn [negb]; tauto.
Qed.

Lemma satisfied_ok r :
  rule_wf nb sb r -> satisfied r inp offs = Ok (bool_decide (fires sb inp r)).
Proof.
  intros [_ Hr]. unfold satisfied, fires. induction Hr as [|l body Hl Hb IH]; [done|].
  cbn [satisfied_body]. rewrite literal_holds_ok by done. rsimpl.
  destruct (decide (holds sb inp l)) as [Hh|Hh].
  - rewrite bool_decide_true by done. rewrite IH. f_equal.
    apply bool_decide_ext. rewrite Forall_cons. tauto.
  - rewrite !bool_decide_false; [done|rewrite Forall_cons; tauto|done].
Qed.

Lemma evaluate_step_ok h r :
  rule_wf nb sb r -> bs_wf n h ->
  evaluate_step inp offs h r =
    Ok (if decide (fires sb inp r) then put h (head_pos sb r) DMCS_TRUE else h).
Proof.
  intros Hr Hh. pose proof Hr as [Hhd _]. pose proof Hhd as (Hb & Hc & Ha).
  unfold evaluate_step. rewrite satisfied_ok by done. rsimpl.
  case_bool_decide; case_decide; try done.
  rewrite contextID_ok by done. rsimpl. rewrite offset_of by done. rsimpl.
  rewrite N.add_comm. rewrite (set_ok n); [done..|]. by apply gpos_lt.
Qed.

Lemma evaluate_fold rules h :
  Forall (rule_wf nb sb) rules -> bs_wf n h ->
  exists h', foldM (evaluate_step inp offs) h rules = Ok h' /\ bs_wf n h' /\
    forall p, truth h' p =
      if decide (Exists (fun r => fires sb inp r /\ head_pos sb r = p) rules)
      then DMCS_TRUE else truth h p.
Proof.
  intros Hr. revert h. induction Hr as [|r rules Hr Hrs IH]; intros h Hh.
  { exists h. split; [done|]. split; [done|]. intros p.
    rewrite decide_False; [done|]. intros H. by apply Exists_nil in H. }
  pose proof Hr as [(_ & Hc & Ha) _]. cbn [foldM]. rewrite evaluate_step_ok by done. rsimpl.
  destruct (IH (if decide (fires sb inp r) then put h (head_pos sb r) DMCS_TRUE else h))
    as (h' & -> & Hwf & Ht).
  { case_decide; [|done]. apply wf_put; [done|]. by apply gpos_lt. }
  exists h'. split; [done|]. split; [done|]. intros p. rewrite Ht.
  destruct (decide (Exists _ rules)) as [He|He].
  - rewrite decide_True; [done|]. by right.
  - destruct (decide (fires sb inp r)) as [Hf|Hf].
    + rewrite truth_put. destruct (N.eqb_spec (head_pos sb r) p) as [E|E].
      * rewrite decide_True; [done|]. by left.
      * rewrite decide_False; [done|]. rewrite Exists_cons. tauto.
    + rewrite decide_False; [done|]. rewrite Exists_cons. tauto.
Qed.

End layout.

Lemma evaluate_bridge_rules_ok nb sb inp rules k1 k2 :
  0 < nb -> 0 < sb -> nb * (sb + 1) <= id_max ->
  bs_wf (nb * (sb + 1)) inp -> Forall (rule_wf nb sb) rules ->
  exists h, bs_wf (nb * (sb + 1)) h /\
    (forall p, truth h p =
      if decide (Exists (fun r => fires sb inp r /\ head_pos sb r = p) rules)
      then DMCS_TRUE else DMCS_UNDEF) /\
    evaluate_bridge_rules (Some (layout nb sb)) rules inp k1 k2 (starting_offsets (layout nb sb))
      = Ok (mk_heads (Some h) k1 k2 (Some inp)).
Proof.
  intros Hnb Hsb Hmax Hinp Hr.
  destruct (bs_wf_blocks nb sb Hmax) as (h0 & E0 & W0 & T0).
  destruct (evaluate_fold nb sb Hnb Hsb Hmax inp Hinp rules h0 Hr W0) as (h & E & W & Ht).
  exists h. split; [done|]. split; [intros p; by rewrite Ht, T0|].
  unfold evaluate_bridge_rules. cbn [instance]. rsimpl. cbn [no_blocks size_belief_state layout].
  rewrite E0. rsimpl. rewrite E. done.
Qed.

(** ** Correctness *)

(** C35.  Evaluating the bridge rules on an input state never fails when the
    rules refer to beliefs of the layout, and the heads it returns are exactly
    the immediate consequences: a position is true when it is the head of a
    rule whose positive literals are true in the input and whose negated
    literals are not, and undefined otherwise.  The range of models asked for
    and the input state are passed on. *)
Theorem evaluate_bridge_rules_correct nb sb inp rules k1 k2 :
  0 < nb -> 0 < sb -> nb * (sb + 1) <= id_max ->
  bs_wf (nb * (sb + 1)) inp -> Forall (rule_wf nb sb) rules ->
  exists o h, ctor nb sb = Ok o /\
    evaluate_bridge_rules (Some o) rules inp k1 k2 (starting_offsets o)
      = Ok (mk_heads (Some h) k1 k2 (Some inp)) /\
    bs_wf (nb * (sb + 1)) h /\
    forall p, truth h p =
      if decide (Exists (fun r => fires sb inp r /\ head_pos sb r = p) rules)
      then DMCS_TRUE else DMCS_UNDEF.
Proof.
  intros Hnb Hsb Hmax Hinp Hr.
  destruct (evaluate_bridge_rules_ok nb sb inp rules k1 k2 Hnb Hsb Hmax Hinp Hr) as (h & W & Ht & E).
  exists (layout nb sb), h. by rewrite ctor_ok by done.
Qed.

(** [operator!=] of [Heads] is the negation of [operator==]. *)
Lemma heads_neqb_eqb a b : heads_neqb a b = negb (heads_eqb a b).
Proof.
  unfold heads_neqb, heads_eqb. destruct (heads a), (heads b); try done.
  rewrite bs_neqb_eqb. by destruct (bs_eqb _ _), (_ =? _), (_ =? _).
Qed.

(** *** Two contexts of two beliefs; [0:1 <- 1:1, not 1:2] on an input where
    belief 1 of context 1 is true and belief 2 undefined *)
Definition sample_input : NewBeliefState := mk_bs (mk_bvector 6 24) (mk_bvector 6 24).
Definition sample_rule2 : BridgeRule :=
  mk_rule (N.lor MAINKIND_RULE SUBKIND_RULE_BRIDGE_RULE) (mk_ID MAINKIND_BELIEF 1)
    [mk_ID (N.lor MAINKIND_BELIEF 1) 1; mk_ID (N.lor (N.lor MAINKIND_BELIEF NAF_MASK) 1) 2].

Lemma evaluate_bridge_rules_correct_witness :
  exists o h, ctor 2 2 = Ok o /\
    evaluate_bridge_rules (Some o) [sample_rule2] sample_input 0 0 (starting_offsets o)
      = Ok (mk_heads (Some h) 0 0 (Some sample_input)) /\
    bs_wf 6 h /\
    forall p, truth h p =
      if decide (Exists (fun r => fires 2 sample_input r /\ head_pos 2 r = p) [sample_rule2])
      then DMCS_TRUE else DMCS_UNDEF.
Proof.
  apply (evaluate_bridge_rules_correct 2 2 sample_input [sample_rule2] 0 0); try done.
  - by apply small_wf.
  - assert (Hl : forall l, bool_decide (isBelief l = true /\ lit_ctx l < 2 /\ address l <= 2) = true ->
      literal_wf 2 2 l) by (intros l Hl; by apply bool_decide_eq_true in Hl).
    apply Forall_singleton. split; [apply Hl; vm_compute; reflexivity|].
    apply Forall_cons. split; [apply Hl; vm_compute; reflexivity|].
    apply Forall_cons. split; [apply Hl; vm_compute; reflexivity|]. by apply Forall_nil.
Defined.

End BridgeRules.
