(* ===== verification/ReturnedBeliefs.v ===== *)
(** * Returned belief states

    [ReturnedBeliefState] (include/mcs/ReturnedBeliefState.h,
    src/mcs/ReturnedBeliefState.cpp) and what [NewOutputThread::write_result]
    (src/network/NewOutputThread.cpp) does with a list of them: sort, then
    remove duplicates in place, freeing the belief states that are dropped. *)

From S2P Require Import Prelude BitMagic BeliefState QueryID.
Import BitMagic BeliefState.

Module ReturnedBeliefs.

(** ** Values: the belief state pointed to, null for the end of a stream,
    and the query identifier *)

Definition rvalue : Type := option NewBeliefState * N.

Definition my_compare (rbs1 rbs2 : rvalue) : bool :=
  match rbs1.1 with
  | None => false
  | Some a =>
      match rbs2.1 with
      | None => true
      | Some b =>
          if bs_ltb a b then true
          else if bs_eqb a b then rbs1.2 <? rbs2.2
          else false
      end
  end.

Definition rbs_eqb (rbs1 rbs2 : rvalue) : bool :=
  match rbs1.1, rbs2.1 with
  | None, None => true
  | None, _ | _, None => false
  | Some a, Some b => bs_eqb a b && (rbs1.2 =? rbs2.2)
  end.

(** ** The heap

    Two kinds of objects are allocated: belief states, and the
    [ReturnedBeliefState] records that point to them.  Freeing or reading an
    object that is not allocated is a failure. *)
Definition loc := N.

Record heap := mk_heap {
  bs_heap : gmap loc NewBeliefState;
  rbs_heap : gmap loc (option loc * N);
}.

Definition deref {A} (m : gmap loc A) (l : loc) : res A := not_null (m !! l).

Definition read_bs (h : heap) (p : option loc) : res (option NewBeliefState) :=
  match p with
  | None => mret None
  | Some l => bs ← deref (bs_heap h) l; mret (Some bs)
  end.

Definition read_rbs (h : heap) (l : loc) : res rvalue :=
  c ← deref (rbs_heap h) l;
  bs ← read_bs h c.1;
  mret (bs, c.2).

(** [delete pbs]: nothing on a null pointer. *)
Definition delete_bs (h : heap) (p : option loc) : res heap :=
  match p with
  | None => mret h
  | Some l => _ ← deref (bs_heap h) l; mret (mk_heap (delete l (bs_heap h)) (rbs_heap h))
  end.

(** The [for] loop that deletes the belief states of the positions
    [\[from, to)] of the list. *)
Definition delete_range (rbsl : list loc) (from to : N) (h : heap) : res heap :=
  foldM (fun h it =>
    l ← vec_at rbsl it;
    c ← deref (rbs_heap h) l;
    delete_bs h c.1) h (nrange from to).

(** The iterators of [remove_duplication], as positions of the list. *)
Record cursor := mk_cursor { c_heap : heap; mid : N; beg_remove : N }.

Definition dedup_step (rbsl : list loc) (st : cursor) (first : N) : res cursor :=
  lm ← vec_at rbsl (mid st);
  lf ← vec_at rbsl first;
  vm ← read_rbs (c_heap st) lm;
  vf ← read_rbs (c_heap st) lf;
  if negb (rbs_eqb vm vf) then
    h ← delete_range rbsl (beg_remove st) first (c_heap st);
    cf ← deref (rbs_heap h) lf;
    lm' ← vec_at rbsl (mid st + 1);
    _ ← deref (rbs_heap h) lm';
    mret (mk_cursor (mk_heap (bs_heap h) (<[lm' := cf]> (rbs_heap h))) (mid st + 1) (first + 1))
  else mret st.

Definition remove_duplication (h : heap) (rbsl : list loc) : res (heap * list loc) :=
  let last := N.of_nat (length rbsl) in
  _ ← vec_at rbsl 0;
  st ← foldM (dedup_step rbsl) (mk_cursor h 0 1) (nrange 1 last);
  h ← delete_range rbsl (beg_remove st) last (c_heap st);
  mret (h, take (S (N.to_nat (mid st))) rbsl).

(** [NewOutputThread::clean_up]. *)
Definition clean_up (h : heap) (rbsl : list loc) : res heap :=
  foldM (fun h l =>
    c ← deref (rbs_heap h) l;
    h ← delete_bs h c.1;
    mret (mk_heap (bs_heap h) (delete l (rbs_heap h)))) h rbsl.

(** [output_list->sort(my_compare)]: the stable merge sort of [std::list]. *)
Definition sort_step (a b : loc * rvalue) : Prop := my_compare b.2 a.2 = false.
#[export] Instance sort_step_dec a b : Decision (sort_step a b).
Proof. unfold sort_step. apply _. Defined.

Definition sort_list (h : heap) (rbsl : list loc) : res (list loc) :=
  vs ← foldM (fun acc l => v ← read_rbs h l; mret (acc ++ [(l, v)])) [] rbsl;
  mret (fst <$> merge_sort sort_step vs).

(** [write_result]: the values written to the connection, and the heap when
    the list has been cleaned up. *)
Definition write_result (h : heap) (output_list : list loc) : res (heap * list rvalue) :=
  sorted ← sort_list h output_list;
  '(h, l) ← remove_duplication h sorted;
  bmess ← foldM (fun acc p => v ← read_rbs h p; mret (acc ++ [v])) [] l;
  h ← clean_up h l;
  mret (h, bmess).

(** The state of [NewOutputThread::startup]: the heap, the records received
    since the last message, and the messages written. *)
Record output_state := mk_output {
  o_heap : heap;
  output_list : list loc;
  o_written : list (list rvalue);
}.

(** One turn of its loop on the received pointer; [false] says that it broke
    out of the loop. *)
Definition output_step (invoker_id : N) (st : output_state) (received : option loc)
    : res (output_state * bool) :=
  match received with
  | None =>
      h ← clean_up (o_heap st) (output_list st);
      mret (mk_output h [] (o_written st), false)
  | Some p =>
      c ← deref (rbs_heap (o_heap st)) p;
      _ ← assert (QueryID.ctxid_from_qid c.2 =? invoker_id);
      let l := output_list st ++ [p] in
      match c.1 with
      | None =>
          '(h, msg) ← write_result (o_heap st) l;
          mret (mk_output h [] (o_written st ++ [msg]), true)
      | Some _ => mret (mk_output (o_heap st) l (o_written st), true)
      end
  end.

Fixpoint output_startup (invoker_id : N) (st : output_state) (received : list (option loc))
    : res output_state :=
  match received with
  | [] => mret st
  | r :: received =>
      '(st, continue) ← output_step invoker_id st r;
      if continue : bool then output_startup invoker_id st received else mret st
  end.

(** ** [my_compare] is a strict weak order with [operator==] as its equivalence *)

Lemma bs_eqb_bits a b :
  bs_eqb a b = true <->
  bits (status_bit a) = bits (status_bit b) /\ bits (value_bit a) = bits (value_bit b).
Proof. unfold bs_eqb. by rewrite andb_true_iff, !bv_eqb_eq. Qed.

Lemma bs_ltb_eqb a a' b b' :
  bs_eqb a a' = true -> bs_eqb b b' = true -> bs_ltb a b = bs_ltb a' b'.
Proof.
  intros [E1 E2]%bs_eqb_bits [E3 E4]%bs_eqb_bits. apply eq_true_iff_eq.
  by rewrite !bs_ltb_lt, E1, E2, E3, E4.
Qed.

Lemma bs_eqb_refl a : bs_eqb a a = true.
Proof. by apply bs_eqb_bits. Qed.

Lemma bs_eqb_sym a b : bs_eqb a b = true -> bs_eqb b a = true.
Proof. rewrite !bs_eqb_bits. intuition. Qed.

Lemma bs_eqb_trans a b c : bs_eqb a b = true -> bs_eqb b c = true -> bs_eqb a c = true.
Proof. rewrite !bs_eqb_bits. intuition congruence. Qed.

Lemma bs_ltb_not_eqb a b : bs_ltb a b = true -> bs_eqb a b = false.
Proof.
  intros H. destruct (bs_eqb a b) eqn:E; [|done].
  rewrite (bs_ltb_eqb a b b b) in H by (done || apply bs_eqb_refl).
  by rewrite bs_lt_irrefl in H.
Qed.

Lemma my_compare_irrefl a : my_compare a a = false.
Proof.
  unfold my_compare. destruct a as [[a|] q]; cbn; [|done].
  rewrite bs_lt_irrefl, bs_eqb_refl. apply N.ltb_irrefl.
Qed.

Lemma my_compare_some a b q r :
  my_compare (Some a, q) (Some b, r) = true <->
  bs_ltb a b = true \/ bs_eqb a b = true /\ q < r.
Proof.
  unfold my_compare. cbn. destruct (bs_ltb a b) eqn:E; [tauto|].
  destruct (bs_eqb a b); rewrite ?N.ltb_lt; intuition congruence.
Qed.

Lemma my_compare_trans a b c :
  my_compare a b = true -> my_compare b c = true -> my_compare a c = true.
Proof.
  destruct a as [[a|] q], b as [[b|] r], c as [[c|] t]; try done.
  rewrite !my_compare_some. intros [H|[H Hq]] [H'|[H' Hq']].
  - left. by eapply bs_lt_trans.
  - left. rewrite <- (bs_ltb_eqb a a b c); [done|apply bs_eqb_refl|done].
  - left. rewrite (bs_ltb_eqb a b c c); [done|done|apply bs_eqb_refl].
  - right. split; [by eapply bs_eqb_trans|lia].
Qed.

Lemma rbs_eqb_refl a : rbs_eqb a a = true.
Proof. destruct a as [[a|] q]; cbn; [|done]. by rewrite bs_eqb_refl, N.eqb_refl. Qed.

Lemma rbs_eqb_sym a b : rbs_eqb a b = rbs_eqb b a.
Proof.
  destruct a as [[a|] q], b as [[b|] r]; cbn; try done.
  rewrite N.eqb_sym. f_equal. apply eq_true_iff_eq. split; apply bs_eqb_sym.
Qed.

Lemma rbs_eqb_trans a b c : rbs_eqb a b = true -> rbs_eqb b c = true -> rbs_eqb a c = true.
Proof.
  destruct a as [[a|] q], b as [[b|] r], c as [[c|] t]; cbn; try done.
  rewrite !andb_true_iff, !N.eqb_eq. intros [H ->] [H' ->]. split; [by eapply bs_eqb_trans|done].
Qed.

(** Trichotomy. *)
Lemma my_compare_total a b :
  my_compare a b = true \/ rbs_eqb a b = true \/ my_compare b a = true.
Proof.
  destruct a as [[a|] q], b as [[b|] r]; try (cbn; tauto).
  rewrite !my_compare_some. cbn [rbs_eqb fst snd]. rewrite andb_true_iff, N.eqb_eq.
  destruct (bs_lt_total a b) as [H|[H|H]]; [tauto| |tauto].
  pose proof (bs_eqb_sym a b H). destruct (N.lt_trichotomy q r) as [|[|]]; tauto.
Qed.

Lemma my_compare_asym a b : my_compare a b = true -> my_compare b a = false.
Proof.
  intros H. destruct (my_compare b a) eqn:E; [|done].
  pose proof (my_compare_trans a b a H E) as Ht. by rewrite my_compare_irrefl in Ht.
Qed.

Lemma my_compare_not_eqb a b : my_compare a b = true -> rbs_eqb a b = false.
Proof.
  destruct a as [[a|] q], b as [[b|] r]; try done.
  rewrite my_compare_some. intros [H|[_ H]]; cbn.
  - by rewrite bs_ltb_not_eqb.
  - rewrite andb_false_iff, N.eqb_neq. right. lia.
Qed.

Lemma my_compare_eqb_r c a b : my_compare c a = true -> rbs_eqb a b = true -> my_compare c b = true.
Proof.
  intros H E. destruct (my_compare_total c b) as [|[E'|H']]; [done| |].
  - rewrite rbs_eqb_sym in E. pose proof (rbs_eqb_trans c b a E' E) as Hx.
    by rewrite my_compare_not_eqb in Hx.
  - pose proof (my_compare_not_eqb b a (my_compare_trans b c a H' H)) as Hx.
    rewrite rbs_eqb_sym in Hx. congruence.
Qed.

#[export] Instance sort_step_total : Total sort_step.
Proof.
  intros a b. unfold sort_step. destruct (my_compare b.2 a.2) eqn:E; [|by left].
  right. by apply my_compare_asym.
Qed.

#[export] Instance sort_step_trans : Transitive sort_step.
Proof.
  intros a b c Hab Hbc. unfold sort_step in *. destruct (my_compare c.2 a.2) eqn:E; [|done].
  destruct (my_compare_total a.2 b.2) as [H|[H|H]]; [| |congruence].
  - rewrite (my_compare_trans c.2 a.2 b.2) in Hbc by done. done.
  - rewrite (my_compare_eqb_r c.2 a.2 b.2) in Hbc by done. done.
Qed.

(** ** Removing adjacent duplicates from a list of values *)

Definition dd_step (acc : list rvalue) (v : rvalue) : list rvalue :=
  match last acc with
  | Some u => if rbs_eqb u v then acc else acc ++ [v]
  | None => [v]
  end.

Definition dd (l : list rvalue) : list rvalue := foldl dd_step [] l.

Lemma dd_snoc l v : dd (l ++ [v]) = dd_step (dd l) v.
Proof. unfold dd. by rewrite foldl_app. Qed.

Definition le_value (a b : rvalue) : Prop := my_compare b a = false.
Definition lt_value (a b : rvalue) : Prop := my_compare a b = true.

Lemma dd_last l u : last l = Some u -> exists w, last (dd l) = Some w /\ rbs_eqb w u = true.
Proof.
  induction l as [|x l _] using rev_ind; [done|]. rewrite last_snoc. intros [= ->].
  rewrite dd_snoc. unfold dd_step. destruct (last (dd l)) as [w|] eqn:E.
  - destruct (rbs_eqb w u) eqn:Ew; [by exists w|]. rewrite last_snoc.
    exists u. by rewrite rbs_eqb_refl.
  - exists u. cbn. by rewrite rbs_eqb_refl.
Qed.

Lemma dd_incl l v : v ∈ dd l -> v ∈ l.
Proof.
  revert v. induction l as [|x l IH] using rev_ind; intros v; [done|].
  rewrite dd_snoc, elem_of_app, list_elem_of_singleton. unfold dd_step.
  destruct (last (dd l)) as [w|]; [destruct (rbs_eqb w x)|];
    rewrite ?elem_of_app, ?list_elem_of_singleton; naive_solver.
Qed.

Lemma dd_complete l v : v ∈ l -> exists u, u ∈ dd l /\ rbs_eqb u v = true.
Proof.
  revert v. induction l as [|x l IH] using rev_ind; intros v; [by intros ?%not_elem_of_nil|].
  rewrite elem_of_app, list_elem_of_singleton, dd_snoc. unfold dd_step.
  intros [Hv| ->].
  - destruct (IH v Hv) as (u & Hu & E). exists u. split; [|done].
    destruct (last (dd l)) as [w|] eqn:El; [destruct (rbs_eqb w x)|]; rewrite ?elem_of_app; try tauto.
    apply last_None in El. rewrite El in Hu. by apply not_elem_of_nil in Hu.
  - destruct (last (dd l)) as [w|] eqn:El; [destruct (rbs_eqb w x) eqn:Ew|].
    + exists w. split; [|done]. apply last_Some in El as [l' ->]. set_solver.
    + exists x. rewrite rbs_eqb_refl. set_solver.
    + exists x. rewrite rbs_eqb_refl. set_solver.
Qed.

Lemma StronglySorted_snoc {A} (R : relation A) l x :
  StronglySorted R l -> (forall y, y ∈ l -> R y x) -> StronglySorted R (l ++ [x]).
Proof.
  induction l as [|a l IH]; intros Hs Hx; cbn.
  - repeat constructor.
  - inversion_clear Hs as [|?? Hs' Ha]. constructor.
    + apply IH; [done|]. intros y Hy. apply Hx. by right.
    + apply Forall_app. split; [done|]. apply Forall_singleton. apply Hx. by left.
Qed.

Lemma StronglySorted_snoc_inv {A} (R : relation A) l x :
  StronglySorted R (l ++ [x]) -> StronglySorted R l /\ forall y, y ∈ l -> R y x.
Proof.
  induction l as [|a l IH]; cbn; intros Hs.
  - split; [constructor|]. by intros y ?%not_elem_of_nil.
  - inversion_clear Hs as [|?? Hs' Ha]. apply IH in Hs' as [Hs' Hx].
    apply Forall_app in Ha as [Ha Hax]. rewrite Forall_singleton in Hax. split; [by constructor|].
    intros y [->|Hy]%elem_of_cons; [exact Hax|by apply Hx].
Qed.

(** On a sorted list, removing adjacent duplicates leaves no duplicates. *)
Lemma dd_sorted l : StronglySorted le_value l -> StronglySorted lt_value (dd l).
Proof.
  induction l as [|x l IH] using rev_ind; intros Hs; [constructor|].
  apply StronglySorted_snoc_inv in Hs as [Hs Hx]. specialize (IH Hs).
  rewrite dd_snoc. unfold dd_step. destruct (last (dd l)) as [w|] eqn:El.
  2: { by repeat constructor. }
  destruct (rbs_eqb w x) eqn:Ew; [done|]. apply StronglySorted_snoc; [done|].
  assert (Hw : my_compare w x = true).
  { destruct (my_compare_total w x) as [|[|H]]; [done|congruence|].
    assert (w ∈ l) as Hin by (apply dd_incl; apply last_Some in El as [l' ->]; set_solver).
    specialize (Hx w Hin). unfold le_value in Hx. congruence. }
  intros y Hy. apply last_Some in El as [l' El]. rewrite El in *.
  apply StronglySorted_snoc_inv in IH as [_ Hlt].
  apply elem_of_app in Hy as [Hy| ->%list_elem_of_singleton]; [|done].
  eapply my_compare_trans; [by apply Hlt|done].
Qed.

(** ** The in-place algorithm on the heap *)

Lemma deref_ok {A} (m : gmap loc A) l a : deref m l = Ok a <-> m !! l = Some a.
Proof. unfold deref, not_null. destruct (m !! l); naive_solver. Qed.

Section inplace.
(** A list of distinct records whose belief states are distinct and
    allocated: what the output thread has received. *)
Context (h0 : heap) (rbsl : list loc) (cells : list (option loc * N)) (vals : list rvalue).

Local Abbreviation cell j := (cells !! N.to_nat j).
Local Abbreviation ptr j := (cells !! N.to_nat j ≫= fst).
Local Abbreviation len := (N.of_nat (length rbsl)).

Record view : Prop := {
  own_nodup : NoDup rbsl;
  own_cells : Forall2 (fun l c => rbs_heap h0 !! l = Some c) rbsl cells;
  own_distinct : forall i j l, ptr i = Some l -> ptr j = Some l -> i = j;
  own_vals : Forall2 (fun c v => read_bs h0 c.1 = Ok v.1 /\ v.2 = c.2) cells vals;
}.

Context (Hown : view).

Lemma len_cells : length cells = length rbsl.
Proof. symmetry. by eapply Forall2_length, own_cells. Qed.

Lemma len_vals : length vals = length rbsl.
Proof. rewrite <- len_cells. symmetry. by eapply Forall2_length, own_vals. Qed.

Lemma cell_at j : j < len -> exists l c v,
  rbsl !! N.to_nat j = Some l /\ cell j = Some c /\ vals !! N.to_nat j = Some v /\
  read_bs h0 c.1 = Ok v.1 /\ v.2 = c.2.
Proof.
  intros Hj. destruct (lookup_lt_is_Some_2 rbsl (N.to_nat j)) as [l Hl]; [lia|].
  destruct (Forall2_lookup_l _ _ _ _ _ (own_cells Hown) Hl) as (c & Hc & _).
  destruct (Forall2_lookup_l _ _ _ _ _ (own_vals Hown) Hc) as (v & Hv & ? & ?).
  by exists l, c, v.
Qed.

Lemma loc_inj i j l : rbsl !! N.to_nat i = Some l -> rbsl !! N.to_nat j = Some l -> i = j.
Proof. intros Hi Hj. apply (NoDup_lookup _ _ _ _ (own_nodup Hown) Hi) in Hj. lia. Qed.

(** Deleting the belief states of positions [from] to [to]. *)
Lemma delete_range_ok h from to :
  from <= to -> to <= len ->
  (forall j l, from <= j -> j < to -> rbsl !! N.to_nat j = Some l -> rbs_heap h !! l = cell j) ->
  (forall j l, from <= j -> j < to -> ptr j = Some l -> is_Some (bs_heap h !! l)) ->
  exists h', delete_range rbsl from to h = Ok h' /\ rbs_heap h' = rbs_heap h /\
    (forall j l, ptr j = Some l ->
       bs_heap h' !! l = if decide (from <= j /\ j < to) then None else bs_heap h !! l) /\
    (forall l, (forall j, ptr j <> Some l) -> bs_heap h' !! l = bs_heap h !! l).
Proof.
  intros Hle Hlen Hcell Halloc.
  destruct (foldM_nrange_from
    (fun k g => rbs_heap g = rbs_heap h /\
      (forall j l, ptr j = Some l ->
         bs_heap g !! l = if decide (from <= j /\ j < k) then None else bs_heap h !! l) /\
      (forall l, (forall j, ptr j <> Some l) -> bs_heap g !! l = bs_heap h !! l))
    (fun h it => l ← vec_at rbsl it; c ← deref (rbs_heap h) l; delete_bs h c.1) h from to)
    as (h' & E & H'); [done| | |by exists h'].
  { split; [done|]. split; [|done]. intros j l _. rewrite decide_False by lia. done. }
  intros k g Hk Hk' (Hr & Hb & Ho).
  destruct (cell_at k) as (l & c & v & Hl & Hc & _); [lia|].
  rewrite (proj2 (vec_at_ok _ _ _) Hl). rsimpl.
  assert (Hd : rbs_heap g !! l = Some c) by (rewrite Hr, (Hcell k l) by done; done).
  rewrite (proj2 (deref_ok _ _ _) Hd). rsimpl.
  assert (Hp : ptr k = c.1) by (by rewrite Hc).
  destruct (c.1) as [q|] eqn:Eq; cbn [delete_bs].
  2: { exists g. split; [done|]. split; [done|]. split; [|done]. intros j l' Hj.
       rewrite (Hb j l' Hj). repeat case_decide; try done; [lia|].
       assert (j = k) as -> by lia. congruence. }
  destruct (Halloc k q) as [b Hq]; [done..|].
  assert (Hgq : bs_heap g !! q = Some b) by (rewrite (Hb k q Hp), decide_False by lia; done).
  rewrite (proj2 (deref_ok _ _ _) Hgq). rsimpl.
  eexists. split; [done|]. cbn [bs_heap rbs_heap]. split; [done|]. split.
  - intros j l' Hj. destruct (decide (l' = q)) as [->|Hne].
    + rewrite (own_distinct Hown j k q Hj Hp), lookup_delete_eq, decide_True by lia. done.
    + rewrite lookup_delete_ne by done. rewrite (Hb j l' Hj).
      repeat case_decide; try done; [lia|]. assert (j = k) as -> by lia. congruence.
  - intros l' Hl'. rewrite lookup_delete_ne; [by apply Ho|]. intros ->. by apply (Hl' k).
Qed.

(** The loop invariant: [K] is the list of positions kept so far. *)
Record dedup_inv (i : N) (st : cursor) (K : list N) : Prop := {
  di_len : N.of_nat (length K) = mid st + 1;
  di_mid : mid st < beg_remove st;
  di_beg : beg_remove st <= i;
  di_last : last K = Some (beg_remove st - 1);
  di_below : forall k, k ∈ K -> k < beg_remove st;
  di_nodup : NoDup K;
  di_rest : forall l, l ∉ rbsl -> rbs_heap (c_heap st) !! l = rbs_heap h0 !! l;
  di_rbs : forall j l, rbsl !! N.to_nat j = Some l ->
    rbs_heap (c_heap st) !! l =
      if decide (j <= mid st) then K !! N.to_nat j ≫= (fun k => cell k) else cell j;
  di_bs : forall j l, ptr j = Some l ->
    bs_heap (c_heap st) !! l =
      if decide (j < beg_remove st /\ j ∉ K) then None else bs_heap h0 !! l;
  di_other : forall l, (forall j, ptr j <> Some l) -> bs_heap (c_heap st) !! l = bs_heap h0 !! l;
  di_vals : omap (fun k => vals !! N.to_nat k) K = dd (take (N.to_nat i) vals);
}.

Lemma read_rbs_ok h l c v :
  rbs_heap h !! l = Some c -> read_bs h0 c.1 = Ok v.1 -> v.2 = c.2 ->
  (forall q, c.1 = Some q -> bs_heap h !! q = bs_heap h0 !! q) ->
  read_rbs h l = Ok v.
Proof.
  intros Hl Hr Hq Hs. unfold read_rbs. rewrite (proj2 (deref_ok _ _ _) Hl). rsimpl.
  destruct c as [[q|] n], v as [w m]; cbn in *.
  - unfold deref in *. rewrite (Hs q eq_refl). destruct (not_null _); [|done].
    cbn in *. injection Hr as <-. by subst.
  - injection Hr as <-. by subst.
Qed.

Lemma dedup_init : 0 < len -> dedup_inv 1 (mk_cursor h0 0 1) [0].
Proof.
  intros Hlen. destruct (cell_at 0 Hlen) as (l0 & c0 & v0 & Hl0 & Hc0 & Hv0 & _).
  split; cbn [mid beg_remove c_heap]; try done; try lia.
  - intros k ->%list_elem_of_singleton. lia.
  - apply NoDup_singleton.
  - intros j l Hj. destruct (Forall2_lookup_l _ _ _ _ _ (own_cells Hown) Hj) as (c & Hc & ->).
    case_decide; [|done]. replace j with 0 in * by lia. cbn. by rewrite <- Hc.
  - intros j l _. rewrite decide_False; [done|]. intros [Hj Hn]. apply Hn.
    apply list_elem_of_singleton. lia.
  - clear Hown. destruct vals as [|v vs]; [done|]. done.
Qed.

Lemma omap_snoc {A B} (f : A -> option B) l x y :
  f x = Some y -> omap f (l ++ [x]) = omap f l ++ [y].
Proof. intros H. rewrite omap_app. cbn. by rewrite H. Qed.

(** The kept position of [mid] gives the last value kept. *)
Lemma dedup_mid i st K :
  dedup_inv i st K -> i <= len ->
  exists lm cm vm, rbsl !! N.to_nat (mid st) = Some lm /\ cell (beg_remove st - 1) = Some cm /\
    vals !! N.to_nat (beg_remove st - 1) = Some vm /\
    last (dd (take (N.to_nat i) vals)) = Some vm /\ read_rbs (c_heap st) lm = Ok vm.
Proof.
  intros H Hi. pose proof (di_mid _ _ _ H). pose proof (di_beg _ _ _ H).
  destruct (cell_at (mid st)) as (lm & _ & _ & Hlm & _); [lia|].
  destruct (cell_at (beg_remove st - 1)) as (_ & cm & vm & _ & Hcm & Hvm & Hr & Hq); [lia|].
  assert (HK : K !! N.to_nat (mid st) = Some (beg_remove st - 1)).
  { rewrite <- (di_last _ _ _ H), last_lookup. f_equal. pose proof (di_len _ _ _ H). lia. }
  exists lm, cm, vm. split; [done|]. split; [done|]. split; [done|]. split.
  - rewrite <- (di_vals _ _ _ H). pose proof (di_last _ _ _ H) as Hl.
    apply last_Some in Hl as [K' ->]. 
    by rewrite (omap_snoc (fun k => vals !! N.to_nat k) _ _ _ Hvm), last_snoc.
  - apply (read_rbs_ok _ _ cm); try done.
    + rewrite (di_rbs _ _ _ H _ _ Hlm), decide_True, HK by lia. done.
    + intros q Hcq. rewrite (di_bs _ _ _ H (beg_remove st - 1) q), decide_False; [done| |by rewrite Hcm].
      intros [_ Hn]. apply Hn. by eapply list_elem_of_lookup_2.
Qed.

Lemma dedup_cell i st K j l :
  dedup_inv i st K -> beg_remove st <= j -> rbsl !! N.to_nat j = Some l ->
  rbs_heap (c_heap st) !! l = cell j /\
  (forall q, ptr j = Some q -> bs_heap (c_heap st) !! q = bs_heap h0 !! q).
Proof.
  intros H Hj Hl. pose proof (di_mid _ _ _ H). split.
  - rewrite (di_rbs _ _ _ H _ _ Hl), decide_False by lia. done.
  - intros q Hq. rewrite (di_bs _ _ _ H j q Hq), decide_False by lia. done.
Qed.

Lemma alloc_at j l : ptr j = Some l -> is_Some (bs_heap h0 !! l).
Proof.
  intros Hj. destruct (cell j) as [c|] eqn:Hc; [|done]. cbn in Hj.
  destruct (Forall2_lookup_l _ _ _ _ _ (own_vals Hown) Hc) as (v & _ & Hr & _).
  rewrite Hj in Hr. unfold read_bs, deref, not_null in Hr. by destruct (bs_heap h0 !! l).
Qed.

Lemma pending_ok i st K to :
  dedup_inv i st K -> beg_remove st <= to -> to <= len ->
  exists h', delete_range rbsl (beg_remove st) to (c_heap st) = Ok h' /\
    rbs_heap h' = rbs_heap (c_heap st) /\
    (forall j l, ptr j = Some l ->
       bs_heap h' !! l = if decide (j < to /\ j ∉ K) then None else bs_heap h0 !! l) /\
    (forall l, (forall j, ptr j <> Some l) -> bs_heap h' !! l = bs_heap h0 !! l).
Proof.
  intros H Hto Hlen.
  destruct (delete_range_ok (c_heap st) (beg_remove st) to) as (h' & E & Hr & Hb & Ho); [done..| | |].
  - intros j l Hj _ Hl. by eapply dedup_cell.
  - intros j l Hj ? Hl. destruct (cell_at j) as (lj & _ & _ & Hlj & _); [lia|].
    rewrite (proj2 (dedup_cell _ _ _ _ _ H Hj Hlj) l Hl). by eapply alloc_at.
  - exists h'. split; [done|]. split; [done|]. split.
    + intros j l Hj. rewrite (Hb j l Hj). case_decide as Hd1.
      * rewrite decide_True; [done|]. split; [lia|]. intros Hn%(di_below _ _ _ H). lia.
      * rewrite (di_bs _ _ _ H j l Hj).
        destruct (decide (j < beg_remove st /\ j ∉ K)) as [[? ?]|Hx],
          (decide (j < to /\ j ∉ K)) as [[? ?]|Hy]; try done; exfalso.
        -- apply Hy. split; [lia|done].
        -- apply Hd1. split; [|done]. destruct (N.lt_ge_cases j (beg_remove st)); [|done].
           by destruct Hx.
    + intros l Hl. rewrite Ho by done. by apply (di_other _ _ _ H).
Qed.

Lemma dedup_step_ok i st K :
  dedup_inv i st K -> i < len ->
  exists st' K', dedup_step rbsl st i = Ok st' /\ dedup_inv (i + 1) st' K'.
Proof.
  intros H Hi. pose proof (di_mid _ _ _ H) as Hm. pose proof (di_beg _ _ _ H) as Hbi.
  destruct (dedup_mid i st K H) as (lm & cm & vm & Hlm & Hcm & Hvm & Hlast & Hrm); [lia|].
  destruct (cell_at i Hi) as (lf & cf & vf & Hlf & Hcf & Hvf & Hr & Hq).
  destruct (dedup_cell i st K i lf H Hbi Hlf) as [Hcell Hbs].
  assert (Hrf : read_rbs (c_heap st) lf = Ok vf).
  { apply (read_rbs_ok _ _ cf); try done; [by rewrite Hcell|].
    intros q Hcq. apply Hbs. by rewrite Hcf. }
  assert (Htake : take (N.to_nat (i + 1)) vals = take (N.to_nat i) vals ++ [vf]).
  { replace (N.to_nat (i + 1)) with (S (N.to_nat i)) by lia. by apply take_S_r. }
  unfold dedup_step. rewrite (proj2 (vec_at_ok _ _ _) Hlm), (proj2 (vec_at_ok _ _ _) Hlf). rsimpl.
  rewrite Hrm, Hrf. rsimpl. destruct (rbs_eqb vm vf) eqn:Eq; cbn [negb].
  { exists st, K. split; [done|]. destruct H. split; try done; [lia|].
    rewrite Htake, dd_snoc. unfold dd_step. rewrite Hlast, Eq. done. }
  destruct (pending_ok i st K i H Hbi ltac:(lia)) as (h' & -> & Hr' & Hb' & Ho'). rsimpl.
  rewrite Hr'. rewrite (proj2 (deref_ok _ _ _) (eq_trans Hcell Hcf)). rsimpl.
  destruct (cell_at (mid st + 1)) as (lm' & cm' & _ & Hlm' & Hcm' & _); [lia|].
  rewrite (proj2 (vec_at_ok _ _ _) Hlm'). rsimpl.
  assert (Hd : rbs_heap (c_heap st) !! lm' = Some cm').
  { rewrite (di_rbs _ _ _ H _ _ Hlm'), decide_False by lia. done. }
  rewrite (proj2 (deref_ok _ _ _) Hd). rsimpl.
  eexists _, (K ++ [i]). split; [done|]. pose proof (di_len _ _ _ H) as HlenK.
  split; cbn [mid beg_remove c_heap bs_heap rbs_heap].
  - rewrite length_app. cbn. lia.
  - lia.
  - lia.
  - rewrite last_snoc. f_equal. lia.
  - intros k [Hk%(di_below _ _ _ H)| ->%list_elem_of_singleton]%elem_of_app; lia.
  - apply NoDup_app. split; [by apply (di_nodup _ _ _ H)|]. split; [|apply NoDup_singleton].
    intros k Hk%(di_below _ _ _ H) ->%list_elem_of_singleton. lia.
  - intros l Hl. rewrite lookup_insert_ne by (intros <-; apply Hl; by eapply list_elem_of_lookup_2).
    by apply (di_rest _ _ _ H).
  - intros j l Hj. destruct (N.eq_dec j (mid st + 1)) as [->|Hne].
    + assert (l = lm') as -> by congruence. rewrite lookup_insert_eq, decide_True by lia.
      rewrite lookup_app_r by lia. replace (_ - _)%nat with 0%nat by lia. by cbn.
    + rewrite lookup_insert_ne by (intros <-; by destruct (Hne (loc_inj _ _ _ Hj Hlm'))).
      rewrite (di_rbs _ _ _ H _ _ Hj).
      destruct (decide (j <= mid st)); [rewrite decide_True by lia|rewrite decide_False by lia; done].
      by rewrite lookup_app_l by lia.
  - intros j l Hj. rewrite (Hb' j l Hj).
    destruct (decide (j < i /\ j ∉ K)) as [[? ?]|Hx],
      (decide (j < i + 1 /\ j ∉ K ++ [i])) as [[? Hy]|Hy]; try done; exfalso.
    + apply Hy. rewrite not_elem_of_app, list_elem_of_singleton. split; [lia|]. split; [done|lia].
    + rewrite not_elem_of_app, list_elem_of_singleton in Hy. apply Hx. split; [lia|tauto].
  - done.
  - rewrite Htake, dd_snoc. unfold dd_step. rewrite Hlast, Eq, <- (di_vals _ _ _ H).
    by apply (omap_snoc (fun k => vals !! N.to_nat k)).
Qed.

(** The outcome of a run that kept the positions [K]. *)
Record run (h' : heap) (K : list N) : Prop := {
  run_length : (length K <= length rbsl)%nat;
  run_nodup : NoDup K;
  run_rest : forall l, l ∉ take (length K) rbsl -> rbs_heap h' !! l = rbs_heap h0 !! l;
  run_vals : omap (fun k => vals !! N.to_nat k) K = dd vals;
  run_rbs : forall j l, (j < length K)%nat -> rbsl !! j = Some l ->
    rbs_heap h' !! l = K !! j ≫= (fun k => cell k);
  run_lt : forall k, k ∈ K -> k < len;
  run_bs : forall j l, ptr j = Some l ->
    bs_heap h' !! l = if decide (j ∉ K) then None else bs_heap h0 !! l;
  run_other : forall l, (forall j, ptr j <> Some l) -> bs_heap h' !! l = bs_heap h0 !! l;
}.

Lemma remove_duplication_ok :
  0 < len -> exists h' K, remove_duplication h0 rbsl = Ok (h', take (length K) rbsl) /\ run h' K.
Proof.
  intros Hlen. unfold remove_duplication.
  destruct (cell_at 0 Hlen) as (l0 & _ & _ & Hl0 & _).
  rewrite (proj2 (vec_at_ok rbsl 0 l0) Hl0). rsimpl.
  destruct (foldM_nrange_from (fun i st => exists K, dedup_inv i st K) (dedup_step rbsl)
    (mk_cursor h0 0 1) 1 len) as (st & -> & K & H).
  - lia.
  - exists [0]. by apply dedup_init.
  - intros i st _ Hi [K H]. destruct (dedup_step_ok i st K H Hi) as (st' & K' & E & H').
    exists st'. split; [done|]. by exists K'.
  - rsimpl. pose proof (di_len _ _ _ H). pose proof (di_mid _ _ _ H). pose proof (di_beg _ _ _ H).
    destruct (pending_ok len st K len H) as (h' & -> & Hr & Hb & Ho); [done|lia|]. rsimpl.
    exists h', K. replace (S (N.to_nat (mid st))) with (length K) by lia.
    split; [done|]. split; [lia|by apply (di_nodup _ _ _ H)|..].
    + intros l Hl. rewrite Hr. destruct (decide (l ∈ rbsl)) as [Hin|]; [|by apply (di_rest _ _ _ H)].
      apply list_elem_of_lookup in Hin as [j Hj].
      replace j with (N.to_nat (N.of_nat j)) in Hj by lia.
      rewrite (di_rbs _ _ _ H _ _ Hj), decide_False.
      * destruct (Forall2_lookup_l _ _ _ _ _ (own_cells Hown) Hj) as (c & -> & ->). done.
      * intros Hle. apply Hl. apply list_elem_of_lookup. exists (N.to_nat (N.of_nat j)).
        rewrite lookup_take_lt by lia. done.
    + rewrite (di_vals _ _ _ H), take_ge; [done|]. rewrite len_vals. lia.
    + intros j l Hj Hl. rewrite Hr.
      replace j with (N.to_nat (N.of_nat j)) in Hl |- * by lia.
      rewrite (di_rbs _ _ _ H _ _ Hl), decide_True by lia. done.
    + intros k Hk%(di_below _ _ _ H). lia.
    + intros j l Hj. rewrite (Hb j l Hj).
      assert (j < len).
      { destruct (cell j) as [c|] eqn:Hc; [|done]. apply lookup_lt_Some in Hc.
        rewrite len_cells in Hc. lia. }
      destruct (decide (j ∉ K)), (decide (j < len /\ j ∉ K)); try done; tauto.
    + done.
Qed.

End inplace.

(** ** What the output thread owns

    Distinct records, each readable, no two sharing a belief state. *)
Record owned (h : heap) (rbsl : list loc) : Prop := {
  owned_nodup : NoDup rbsl;
  owned_read : forall p, p ∈ rbsl -> exists v, read_rbs h p = Ok v;
  owned_distinct : forall p q l n m, p ∈ rbsl -> q ∈ rbsl ->
    rbs_heap h !! p = Some (Some l, n) -> rbs_heap h !! q = Some (Some l, m) -> p = q;
}.

Definition cell_of (h : heap) (p : loc) : option loc * N := default (None, 0) (rbs_heap h !! p).
Definition value_of (h : heap) (p : loc) : rvalue :=
  match read_rbs h p with Ok v => v | Err _ => (None, 0) end.

(** The belief states the records of a list point to. *)
Definition pointees (h : heap) (rbsl : list loc) : list loc :=
  omap (fun p => rbs_heap h !! p ≫= fst) rbsl.

Lemma read_rbs_inv h p v :
  read_rbs h p = Ok v -> exists c, rbs_heap h !! p = Some c /\ read_bs h c.1 = Ok v.1 /\ v.2 = c.2.
Proof.
  unfold read_rbs. intros H. apply bind_ok in H as (c & Hc%deref_ok & H).
  apply bind_ok in H as (b & Hb & [= <-]). by exists c.
Qed.

Lemma owned_perm h l l' : l ≡ₚ l' -> owned h l -> owned h l'.
Proof.
  intros Hp [H1 H2 H3]. split.
  - by rewrite <- Hp.
  - intros p. rewrite <- Hp. apply H2.
  - intros p q k n m. rewrite <- Hp. apply H3.
Qed.

Lemma owned_view h rbsl :
  owned h rbsl -> view h rbsl (cell_of h <$> rbsl) (value_of h <$> rbsl).
Proof.
  intros [H1 H2 H3].
  assert (Hcell : forall p, p ∈ rbsl -> rbs_heap h !! p = Some (cell_of h p)).
  { intros p Hp. destruct (H2 p Hp) as (v & (c & Hc & _)%read_rbs_inv).
    unfold cell_of. by rewrite Hc. }
  split; [done|..].
  - apply Forall2_fmap_r, Forall2_same_length_lookup. split; [done|].
    intros i x y Hx Hy. assert (x = y) as -> by congruence. apply Hcell. by eapply list_elem_of_lookup_2.
  - intros i j l Hi Hj. rewrite !list_lookup_fmap in *.
    destruct (rbsl !! N.to_nat i) as [p|] eqn:Ep; [|done].
    destruct (rbsl !! N.to_nat j) as [q|] eqn:Eq; [|done]. cbn in Hi, Hj.
    pose proof (list_elem_of_lookup_2 _ _ _ Ep) as Hp. pose proof (list_elem_of_lookup_2 _ _ _ Eq) as Hq.
    pose proof (Hcell p Hp) as Cp. pose proof (Hcell q Hq) as Cq.
    destruct (cell_of h p) as [? n], (cell_of h q) as [? m]. cbn in *. subst.
    rewrite (H3 p q l n m Hp Hq Cp Cq) in Ep.
    apply (NoDup_lookup _ _ _ _ H1 Ep) in Eq. lia.
  - apply Forall2_fmap, Forall2_same_length_lookup. split; [done|].
    intros i x y Hx Hy. assert (x = y) as -> by congruence. apply list_elem_of_lookup_2 in Hy.
    destruct (H2 y Hy) as (v & Hv). unfold value_of, cell_of. rewrite Hv.
    apply read_rbs_inv in Hv as (c & -> & ? & ?). done.
Qed.

Lemma read_list_ok h rbsl vs :
  Forall2 (fun p v => read_rbs h p = Ok v) rbsl vs ->
  forall acc, foldM (fun acc p => v ← read_rbs h p; mret (acc ++ [v])) acc rbsl = Ok (acc ++ vs).
Proof.
  induction 1 as [|p v rbsl vs Hp _ IH]; intros acc; cbn [foldM].
  - by rewrite app_nil_r.
  - rewrite Hp. rsimpl. rewrite IH, <- app_assoc. done.
Qed.

Lemma value_of_ok h rbsl p : owned h rbsl -> p ∈ rbsl -> read_rbs h p = Ok (value_of h p).
Proof. intros H Hp. unfold value_of. by destruct (owned_read h rbsl H p Hp) as (v & ->). Qed.

(** What a run of [remove_duplication] leaves behind. *)
Record deduplicated (h : heap) (rbsl : list loc) (h' : heap) (l : list loc) : Prop := {
  dd_prefix : exists k, l = take k rbsl;
  dd_rest : forall p, p ∉ l -> rbs_heap h' !! p = rbs_heap h !! p;
  dd_owned : owned h' l;
  dd_values : value_of h' <$> l = dd (value_of h <$> rbsl);
  dd_freed : forall q, q ∈ pointees h rbsl ->
    bs_heap h' !! q = if decide (q ∈ pointees h' l) then bs_heap h !! q else None;
  dd_sub : forall q, q ∈ pointees h' l -> q ∈ pointees h rbsl;
  dd_kept : forall q, q ∉ pointees h rbsl -> bs_heap h' !! q = bs_heap h !! q;
}.

Lemma omap_total_lookup {A B} (f : A -> option B) (l : list A) (i : nat) x :
  (forall y, y ∈ l -> is_Some (f y)) -> l !! i = Some x -> omap f l !! i = f x.
Proof.
  revert i. induction l as [|y l IH]; intros i Hf Hi; [done|].
  destruct (Hf y) as [z Hz]; [by left|]. cbn. rewrite Hz.
  destruct i as [|i]; cbn in *; [congruence|]. apply IH; [|done]. intros ??. apply Hf. by right.
Qed.

Lemma omap_total_length {A B} (f : A -> option B) (l : list A) :
  (forall y, y ∈ l -> is_Some (f y)) -> length (omap f l) = length l.
Proof.
  induction l as [|y l IH]; intros Hf; [done|]. destruct (Hf y) as [z Hz]; [by left|].
  cbn. rewrite Hz. cbn. f_equal. apply IH. intros ??. apply Hf. by right.
Qed.

Section outcome.
Context (h : heap) (rbsl : list loc) (Hown : owned h rbsl).
Context (h' : heap) (K : list N).
Context (Hrun : run h rbsl (cell_of h <$> rbsl) (value_of h <$> rbsl) h' K).
Local Abbreviation l := (take (length K) rbsl).

Lemma cells_lookup k p :
  rbsl !! N.to_nat k = Some p -> (cell_of h <$> rbsl) !! N.to_nat k = Some (cell_of h p).
Proof. intros Hp. by rewrite list_lookup_fmap, Hp. Qed.

(** Position [j] of the result holds the record kept at position [K !! j]. *)
Lemma result_at j p :
  l !! j = Some p -> exists k q, K !! j = Some k /\
    rbsl !! N.to_nat k = Some q /\ rbs_heap h' !! p = Some (cell_of h q) /\
    read_rbs h' p = Ok (value_of h q).
Proof.
  intros Hj. apply lookup_take_Some in Hj as [Hj HjK].
  destruct (lookup_lt_is_Some_2 K j HjK) as [k Hk].
  pose proof (list_elem_of_lookup_2 _ _ _ Hk) as HkK.
  destruct (lookup_lt_is_Some_2 rbsl (N.to_nat k)) as [q Hq].
  { pose proof (run_lt _ _ _ _ _ _ Hrun k HkK). lia. }
  exists k, q. split; [done|]. split; [done|].
  assert (Hp : rbs_heap h' !! p = Some (cell_of h q)).
  { rewrite (run_rbs _ _ _ _ _ _ Hrun j p HjK Hj), Hk. cbn. by apply cells_lookup. }
  split; [done|].
  pose proof (value_of_ok h rbsl q Hown ltac:(by eapply list_elem_of_lookup_2)) as Hvq.
  apply read_rbs_inv in Hvq as (c & Hc & Hcb & Hcq).
  assert (Hceq : cell_of h q = c) by (unfold cell_of; by rewrite Hc).
  rewrite Hceq in *. apply (read_rbs_ok h h' p c); try done.
  intros b Hb. rewrite (run_bs _ _ _ _ _ _ Hrun k b), decide_False; [done|tauto|].
  rewrite (cells_lookup k q Hq), Hceq. done.
Qed.

Lemma pointees_result q :
  q ∈ pointees h' l <-> exists k p, k ∈ K /\ rbsl !! N.to_nat k = Some p /\ (cell_of h p).1 = Some q.
Proof.
  unfold pointees. rewrite list_elem_of_omap. split.
  - intros (p & Hp & Hq). apply list_elem_of_lookup in Hp as [j Hj].
    destruct (result_at j p Hj) as (k & p' & Hk & Hp' & Hr & _). rewrite Hr in Hq. cbn in Hq.
    exists k, p'. split; [by eapply list_elem_of_lookup_2|done].
  - intros (k & p & Hk & Hp & Hq). apply list_elem_of_lookup in Hk as [j Hj].
    destruct (lookup_lt_is_Some_2 l j) as [p' Hp'].
    { rewrite length_take. apply lookup_lt_Some in Hj.
      pose proof (run_length _ _ _ _ _ _ Hrun). lia. }
    destruct (result_at j p' Hp') as (k' & q' & Hk' & Hq' & Hr & _).
    assert (k' = k) as -> by congruence. assert (q' = p) as -> by congruence.
    exists p'. split; [by eapply list_elem_of_lookup_2|]. by rewrite Hr.
Qed.

Lemma pointees_input q :
  q ∈ pointees h rbsl <-> exists j, (cell_of h <$> rbsl) !! N.to_nat j ≫= fst = Some q.
Proof.
  unfold pointees. rewrite list_elem_of_omap. split.
  - intros (p & Hp & Hq). apply list_elem_of_lookup in Hp as [j Hj]. exists (N.of_nat j).
    rewrite Nat2N.id, list_lookup_fmap, Hj. cbn. unfold cell_of. by destruct (rbs_heap h !! p).
  - intros (j & Hj). rewrite list_lookup_fmap in Hj.
    destruct (rbsl !! N.to_nat j) as [p|] eqn:Hp; [|done]. exists p.
    split; [by eapply list_elem_of_lookup_2|]. cbn in Hj. unfold cell_of in Hj.
    by destruct (rbs_heap h !! p).
Qed.

Lemma result_owned : owned h' l.
Proof.
  pose proof (owned_view h rbsl Hown) as Hv. split.
  - eapply sublist_NoDup; [apply (owned_nodup h rbsl Hown)|apply sublist_take].
  - intros p Hp. apply list_elem_of_lookup in Hp as [j Hj].
    destruct (result_at j p Hj) as (k & q & _ & _ & _ & ->). by eexists.
  - intros p q b n m Hp Hq Cp Cq. apply list_elem_of_lookup in Hp as [i Hi], Hq as [j Hj].
    destruct (result_at i p Hi) as (k1 & q1 & Hk1 & Hq1 & Hr1 & _).
    destruct (result_at j q Hj) as (k2 & q2 & Hk2 & Hq2 & Hr2 & _).
    rewrite Hr1 in Cp. rewrite Hr2 in Cq. injection Cp as Cp. injection Cq as Cq.
    assert (k1 = k2) as ->.
    { apply (own_distinct _ _ _ _ Hv k1 k2 b); [rewrite (cells_lookup k1 q1 Hq1), Cp|
        rewrite (cells_lookup k2 q2 Hq2), Cq]; done. }
    assert (i = j) as -> by (eapply NoDup_lookup; [apply (run_nodup _ _ _ _ _ _ Hrun)|done..]).
    congruence.
Qed.

Lemma result_values : value_of h' <$> l = dd (value_of h <$> rbsl).
Proof.
  apply list_eq. intros j. rewrite <- (run_vals _ _ _ _ _ _ Hrun), list_lookup_fmap.
  assert (Htot : forall k, k ∈ K -> is_Some ((value_of h <$> rbsl) !! N.to_nat k)).
  { intros k Hk. apply lookup_lt_is_Some_2. rewrite length_fmap.
    pose proof (run_lt _ _ _ _ _ _ Hrun k Hk). lia. }
  destruct (l !! j) as [p|] eqn:Hj.
  - destruct (result_at j p Hj) as (k & q & Hk & Hq & _ & Hr).
    rewrite (omap_total_lookup _ _ _ _ Htot Hk), list_lookup_fmap, Hq. cbn.
    unfold value_of at 1. by rewrite Hr.
  - symmetry. apply lookup_ge_None. rewrite omap_total_length by done.
    apply lookup_ge_None in Hj. rewrite length_take in Hj.
    pose proof (run_length _ _ _ _ _ _ Hrun). lia.
Qed.

Lemma result_freed q :
  q ∈ pointees h rbsl ->
  bs_heap h' !! q = if decide (q ∈ pointees h' l) then bs_heap h !! q else None.
Proof.
  intros (j & Hj)%pointees_input. rewrite (run_bs _ _ _ _ _ _ Hrun j q Hj).
  destruct (decide (q ∈ pointees h' l)) as [Hq|Hq].
  - apply pointees_result in Hq as (k & p & Hk & Hp & Hq).
    assert (j = k) as ->.
    { apply (own_distinct _ _ _ _ (owned_view h rbsl Hown) j k q); [done|].
      by rewrite (cells_lookup k p Hp). }
    rewrite decide_False by tauto. done.
  - rewrite decide_True; [done|]. intros Hk. apply Hq, pointees_result.
    rewrite list_lookup_fmap in Hj. destruct (rbsl !! N.to_nat j) as [p|] eqn:Hp; [|done].
    by exists j, p.
Qed.

Lemma outcome : deduplicated h rbsl h' l.
Proof.
  split.
  - by exists (length K).
  - apply (run_rest _ _ _ _ _ _ Hrun).
  - apply result_owned.
  - apply result_values.
  - apply result_freed.
  - intros q (k & p & _ & Hp & Hq)%pointees_result. apply pointees_input. exists k.
    by rewrite (cells_lookup k p Hp).
  - intros q Hq. apply (run_other _ _ _ _ _ _ Hrun). intros j Hj. apply Hq, pointees_input. by exists j.
Qed.
End outcome.

Lemma remove_duplication_dedup h rbsl :
  owned h rbsl -> rbsl <> [] ->
  exists h' l, remove_duplication h rbsl = Ok (h', l) /\ deduplicated h rbsl h' l.
Proof.
  intros Hown Hne.
  assert (Hlen : 0 < N.of_nat (length rbsl)) by (destruct rbsl; [done|cbn; lia]).
  destruct (remove_duplication_ok h rbsl _ _ (owned_view h rbsl Hown) Hlen) as (h' & K & E & Hrun).
  exists h', (take (length K) rbsl). split; [done|]. by apply outcome.
Qed.

(** ** Cleaning up *)

Lemma pointees_cons h p l :
  pointees h (p :: l) = match rbs_heap h !! p ≫= fst with
                        | Some q => q :: pointees h l
                        | None => pointees h l
                        end.
Proof. done. Qed.

Lemma owned_cons_distinct h p l q n :
  owned h (p :: l) -> rbs_heap h !! p = Some (Some q, n) -> q ∉ pointees h l.
Proof.
  intros H Hp Hq. unfold pointees in Hq. apply list_elem_of_omap in Hq as (r & Hr & Hq).
  destruct (rbs_heap h !! r) as [[[q'|] m]|] eqn:Er; cbn in Hq; try done. injection Hq as ->.
  assert (p = r) as -> by (eapply (owned_distinct _ _ H p r q); [by left|by right|done..]).
  pose proof (owned_nodup _ _ H) as Hnd. by apply NoDup_cons_1_1 in Hnd.
Qed.

Lemma owned_cons_rest h p l c :
  owned h (p :: l) -> rbs_heap h !! p = Some c ->
  let h1 := mk_heap (match c.1 with Some q => delete q (bs_heap h) | None => bs_heap h end)
                    (delete p (rbs_heap h)) in
  owned h1 l /\ pointees h1 l = pointees h l.
Proof.
  intros H Hp h1. pose proof (owned_nodup _ _ H) as Hnd.
  apply NoDup_cons in Hnd as [Hpl Hnd].
  assert (Hr : forall r, r ∈ l -> rbs_heap h1 !! r = rbs_heap h !! r).
  { intros r Hr. cbn. rewrite lookup_delete_ne; [done|]. by intros ->. }
  split; [split; [done|..]|].
  - intros r Hrl. destruct (owned_read _ _ H r) as (v & Hv); [by right|].
    apply read_rbs_inv in Hv as (c' & Hc' & Hb & Hq). exists v.
    apply (read_rbs_ok h h1 r c'); try done; [by rewrite Hr|].
    intros b Hb'. cbn. destruct c as [[q|] n]; cbn; [|done].
    rewrite lookup_delete_ne; [done|]. intros ->.
    apply (owned_cons_distinct h p l b n H Hp). unfold pointees.
    apply list_elem_of_omap. exists r. split; [done|]. rewrite Hc'. cbn. done.
  - intros r r' b n m Hrl Hrl' E E'. rewrite Hr in E, E' by done.
    eapply (owned_distinct _ _ H r r' b); [by right|by right|done..].
  - clear -Hr. induction l as [|r l IH]; [done|]. rewrite !pointees_cons.
    rewrite Hr by (by left). rewrite IH; [done|]. intros r' ?. apply Hr. by right.
Qed.

Lemma clean_up_ok h l :
  owned h l -> exists h', clean_up h l = Ok h' /\
    (forall q, bs_heap h' !! q = if decide (q ∈ pointees h l) then None else bs_heap h !! q) /\
    (forall p, rbs_heap h' !! p = if decide (p ∈ l) then None else rbs_heap h !! p).
Proof.
  revert h. induction l as [|p l IH]; intros h H.
  { exists h. split; [done|]. split; intros x; rewrite decide_False; try done;
      apply not_elem_of_nil. }
  destruct (owned_read _ _ H p) as (v & Hv); [by left|].
  apply read_rbs_inv in Hv as (c & Hc & Hb & _).
  destruct (owned_cons_rest h p l c H Hc) as [H1 Hpt].
  destruct (IH _ H1) as (h' & E & Hbs & Hrbs). exists h'. split.
  - unfold clean_up in *. cbn [foldM]. rewrite (proj2 (deref_ok _ _ _) Hc). rsimpl.
    destruct c as [[q|] n]; cbn in *; [|done].
    apply bind_ok in Hb as (b & Hq & _). rewrite Hq. rsimpl. done.
  - rewrite Hpt in Hbs. rewrite pointees_cons, Hc. cbn [mbind option_bind]. split.
    + intros q. rewrite Hbs. cbn [bs_heap]. destruct (c.1) as [q'|]; [|done].
      destruct (decide (q ∈ pointees h l)); [rewrite decide_True; [done|by right]|].
      destruct (decide (q = q')) as [->|]; [rewrite lookup_delete_eq, decide_True; [done|by left]|].
      rewrite lookup_delete_ne by done. rewrite decide_False; [done|].
      by intros [?|?]%elem_of_cons.
    + intros r. rewrite Hrbs. cbn [rbs_heap].
      destruct (decide (r ∈ l)); [rewrite decide_True; [done|by right]|].
      destruct (decide (r = p)) as [->|]; [rewrite lookup_delete_eq, decide_True; [done|by left]|].
      rewrite lookup_delete_ne by done. rewrite decide_False; [done|].
      by intros [?|?]%elem_of_cons.
Qed.

(** ** Sorting *)

Lemma zip_read_ok h l :
  (forall p, p ∈ l -> read_rbs h p = Ok (value_of h p)) ->
  forall acc, foldM (fun acc p => v ← read_rbs h p; mret (acc ++ [(p, v)])) acc l
    = Ok (acc ++ ((fun p => (p, value_of h p)) <$> l)).
Proof.
  induction l as [|p l IH]; intros H acc; cbn [foldM].
  - by rewrite app_nil_r.
  - rewrite H by (by left). rsimpl. rewrite IH by (intros ??; apply H; by right).
    by rewrite <- app_assoc.
Qed.

Lemma sort_list_ok h l :
  owned h l -> exists l', sort_list h l = Ok l' /\ l' ≡ₚ l /\
    StronglySorted le_value (value_of h <$> l').
Proof.
  intros H. unfold sort_list. rewrite zip_read_ok by (intros p Hp; by eapply value_of_ok).
  rsimpl. cbn [app]. set (ps := (fun p => (p, value_of h p)) <$> l).
  pose proof (merge_sort_Permutation sort_step ps) as Hperm.
  pose proof (StronglySorted_merge_sort sort_step ps) as Hsort.
  eexists. split; [done|]. split.
  - rewrite Hperm. unfold ps. rewrite <- list_fmap_compose. cbn. by rewrite list_fmap_id.
  - assert (Hin : forall x, x ∈ merge_sort sort_step ps -> value_of h x.1 = x.2).
    { intros x. rewrite Hperm. unfold ps. intros (p & -> & _)%list_elem_of_fmap. done. }
    revert Hsort Hin. generalize (merge_sort sort_step ps). intros s. induction 1 as [|x s Hs IH Hx];
      intros Hin; cbn; constructor.
    + apply IH. intros y Hy. apply Hin. by right.
    + pose proof (proj1 (Forall_forall _ _) Hx) as Hx'. apply Forall_forall. intros v (p & -> & (y & -> & Hy)%list_elem_of_fmap)%list_elem_of_fmap.
      rewrite (Hin x), (Hin y) by (by left || by right). by apply Hx'.
Qed.

(** ** Correctness *)

(** [remove_duplication] works in place without touching a freed
    object: on a non-empty list of readable records that share nothing it
    returns a prefix of the list, whose records read as the input values with
    adjacent duplicates removed.  A belief state of the input is still
    allocated, and unchanged, exactly when a record of the result points to
    it; each of the others has been freed, once; nothing else is touched. *)
Theorem remove_duplication_correct h rbsl :
  owned h rbsl -> rbsl <> [] ->
  exists h' l, remove_duplication h rbsl = Ok (h', l) /\
    (exists k, l = take k rbsl) /\ owned h' l /\
    value_of h' <$> l = dd (value_of h <$> rbsl) /\
    (forall q, q ∈ pointees h rbsl ->
       bs_heap h' !! q = if decide (q ∈ pointees h' l) then bs_heap h !! q else None) /\
    (forall q, q ∉ pointees h rbsl -> bs_heap h' !! q = bs_heap h !! q).
Proof.
  intros H Hne. destruct (remove_duplication_dedup h rbsl H Hne) as (h' & l & E & D).
  exists h', l. destruct D. done.
Qed.

(** The message that is written. *)
Lemma write_result_values h out :
  owned h out -> out <> [] ->
  exists h' msg, write_result h out = Ok (h', msg) /\ StronglySorted lt_value msg /\
    (forall v, v ∈ msg -> exists p, p ∈ out /\ value_of h p = v) /\
    (forall p, p ∈ out -> exists v, v ∈ msg /\ rbs_eqb v (value_of h p) = true).
Proof.
  intros H Hne. unfold write_result.
  destruct (sort_list_ok h out H) as (s & -> & Hperm & Hsort). rsimpl.
  assert (Hs : owned h s) by (by eapply owned_perm).
  destruct (remove_duplication_dedup h s Hs) as (h1 & l & -> & [_ _ Ho Hv _ _ _]).
  { intros ->. apply Permutation_nil_l in Hperm. by subst. }
  rsimpl. rewrite (read_list_ok h1 l (value_of h1 <$> l)).
  2: { apply Forall2_fmap_r, Forall2_same_length_lookup. split; [done|]. intros i x y Hx Hy.
       assert (x = y) as -> by congruence. apply (value_of_ok h1 l); [done|]. by eapply list_elem_of_lookup_2. }
  rsimpl. cbn [app]. destruct (clean_up_ok h1 l Ho) as (h' & -> & _). rsimpl.
  exists h', (value_of h1 <$> l). split; [done|]. rewrite Hv. split; [by apply dd_sorted|]. split.
  - intros v (p & -> & Hp)%dd_incl%list_elem_of_fmap. exists p. split; [|done]. by rewrite <- Hperm.
  - intros p Hp. apply dd_complete, list_elem_of_fmap_2. by rewrite Hperm.
Qed.

(** C38.  [write_result] sends a strictly increasing message: sorted by
    [my_compare], no two entries equal under [operator==], every entry the
    value of a received record and every received value represented.  When it
    returns, all belief states it was given have been freed.  The records of
    the removed duplicates have not: [length out - length msg] of them stay
    allocated with no pointer to them left. *)
Theorem write_result_correct h out :
  owned h out -> out <> [] ->
  exists h' msg kept leaked, write_result h out = Ok (h', msg) /\
    StronglySorted lt_value msg /\
    (forall v, v ∈ msg -> exists p, p ∈ out /\ value_of h p = v) /\
    (forall p, p ∈ out -> exists v, v ∈ msg /\ rbs_eqb v (value_of h p) = true) /\
    (forall q, q ∈ pointees h out -> bs_heap h' !! q = None) /\
    kept ++ leaked ≡ₚ out /\ length kept = length msg /\
    (forall p, p ∈ kept -> rbs_heap h' !! p = None) /\
    (forall p, p ∈ leaked -> is_Some (rbs_heap h' !! p)).
Proof.
  intros H Hne. unfold write_result.
  destruct (sort_list_ok h out H) as (s & -> & Hperm & Hsort). rsimpl.
  assert (Hs : owned h s) by (by eapply owned_perm).
  destruct (remove_duplication_dedup h s Hs) as (h1 & l & -> & [[k Hl] Hrest Ho Hv Hf Hsub _]).
  { intros ->. apply Permutation_nil_l in Hperm. by subst. }
  rsimpl. rewrite (read_list_ok h1 l (value_of h1 <$> l)).
  2: { apply Forall2_fmap_r, Forall2_same_length_lookup. split; [done|]. intros i x y Hx Hy.
       assert (x = y) as -> by congruence. apply (value_of_ok h1 l); [done|]. by eapply list_elem_of_lookup_2. }
  rsimpl. cbn [app]. destruct (clean_up_ok h1 l Ho) as (h' & -> & Hbs & Hrbs). rsimpl.
  exists h', (value_of h1 <$> l), l, (drop k s). split; [done|]. rewrite Hv.
  split; [by apply dd_sorted|]. split; [|split; [|split; [|split; [|split; [|split]]]]].
  - intros v (p & -> & Hp)%dd_incl%list_elem_of_fmap. exists p. split; [|done]. by rewrite <- Hperm.
  - intros p Hp. apply dd_complete, list_elem_of_fmap_2. by rewrite Hperm.
  - intros q Hq. rewrite Hbs. case_decide; [done|].
    rewrite Hf, decide_False; [done|done|]. unfold pointees. by rewrite Hperm.
  - rewrite Hl, take_drop. done.
  - by rewrite <- Hv, length_fmap.
  - intros p Hp. by rewrite Hrbs, decide_True.
  - intros p Hp. assert (p ∉ l).
    { pose proof (owned_nodup _ _ Hs) as Hnd. rewrite <- (take_drop k s), <- Hl in Hnd.
      apply NoDup_app in Hnd as (_ & Hd & _). intros Hpl. by apply (Hd p). }
    rewrite Hrbs, decide_False, Hrest by done.
    destruct (owned_read _ _ Hs p) as (v & (c & Hc & _)%read_rbs_inv); [|by rewrite Hc].
    rewrite <- (take_drop k s). apply elem_of_app. by right.
Qed.

(** In a strictly increasing list an end marker can only come last. *)
Lemma null_last msg v :
  StronglySorted lt_value msg -> v ∈ msg -> v.1 = None ->
  exists msg', msg = msg' ++ [v] /\ forall u, u ∈ msg' -> u.1 <> None.
Proof.
  induction msg as [|u msg IH]; intros Hs Hv Hn; [by apply not_elem_of_nil in Hv|].
  inversion_clear Hs as [|?? Hs' Hu]. pose proof (proj1 (Forall_forall _ _) Hu) as Hlt.
  destruct u as [[b|] q].
  - apply elem_of_cons in Hv as [->|Hv]; [done|].
    destruct (IH Hs' Hv Hn) as (msg' & -> & H). exists ((Some b, q) :: msg'). split; [done|].
    intros u [->|Hin]%elem_of_cons; [done|by apply H].
  - destruct msg as [|w msg]; [|by specialize (Hlt w ltac:(by left))].
    apply list_elem_of_singleton in Hv as ->. exists []. split; [done|].
    by intros u ?%not_elem_of_nil.
Qed.

(** When the output thread receives the end marker of a stream, after
    records of distinct belief states addressed to its invoker, it writes one
    message, which holds every received value once, in strictly increasing
    order, with the end marker as its last entry and nowhere else, and the
    list of pending records is empty again. *)
Theorem output_end_of_stream iid st p q :
  rbs_heap (o_heap st) !! p = Some (None, q) -> QueryID.ctxid_from_qid q = iid ->
  owned (o_heap st) (output_list st ++ [p]) ->
  exists st' msg e, output_step iid st (Some p) = Ok (st', true) /\
    output_list st' = [] /\ o_written st' = o_written st ++ [msg ++ [(None, e)]] /\
    StronglySorted lt_value (msg ++ [(None, e)]) /\
    (forall u, u ∈ msg -> u.1 <> None) /\
    (forall r, r ∈ output_list st ++ [p] ->
       exists v, v ∈ msg ++ [(None, e)] /\ rbs_eqb v (value_of (o_heap st) r) = true).
Proof.
  intros Hp Hq Ho. unfold output_step. rewrite (proj2 (deref_ok _ _ _) Hp). rsimpl.
  cbn [fst snd]. rewrite Hq, N.eqb_refl. change (assert true) with (Ok tt). rsimpl.
  destruct (write_result_values _ _ Ho) as (h' & msg & Hw & Hst & _ & Hall); [by destruct (output_list st)|].
  rewrite Hw. rsimpl.
  destruct (Hall p) as (v & Hin & Ev); [set_solver|].
  assert (Hvn : v.1 = None).
  { unfold value_of, read_rbs in Ev. rewrite (proj2 (deref_ok _ _ _) Hp) in Ev. cbn in Ev.
    by destruct v as [[?|] ?]. }
  destruct (null_last msg v Hst Hin Hvn) as (msg' & Emsg & Hnn).
  destruct v as [vb e]. cbn in Hvn. subst vb.
  eexists _, msg', e. split; [done|]. split; [done|]. split; [by rewrite <- Emsg|].
  rewrite <- Emsg. done.
Qed.

(** *** Two equal answers and an end marker *)

Definition st1 : NewBeliefState := mk_bs (mk_bvector 3 6) (mk_bvector 3 2).
Definition sample_heap : heap :=
  mk_heap {[ 10 := st1; 11 := st1 ]} {[ 20 := (None, 2); 21 := (Some 10, 2); 22 := (Some 11, 2) ]}.

Lemma sample_owned : owned sample_heap [20; 21; 22].
Proof.
  split.
  - repeat (apply NoDup_cons; split; [set_solver|]). apply NoDup_nil_2.
  - intros p Hp. assert (p = 20 \/ p = 21 \/ p = 22) as [->|[->| ->]] by set_solver;
      eexists; vm_compute; reflexivity.
  - intros p q l n m Hp Hq.
    assert (p = 20 \/ p = 21 \/ p = 22) as [->|[->| ->]] by set_solver;
    assert (q = 20 \/ q = 21 \/ q = 22) as [->|[->| ->]] by set_solver; try done;
    cbn; intros E1 E2; vm_compute in E1, E2; congruence.
Qed.

Example sample_message :
  snd <$> write_result sample_heap [20; 21; 22] = Ok [(Some st1, 2); (None, 2)].
Proof. vm_compute. reflexivity. Qed.

Lemma remove_duplication_correct_witness :
  exists h' l, remove_duplication sample_heap [20; 21; 22] = Ok (h', l) /\
    (exists k, l = take k [20; 21; 22]) /\ owned h' l /\
    value_of h' <$> l = dd (value_of sample_heap <$> [20; 21; 22]) /\
    (forall q, q ∈ pointees sample_heap [20; 21; 22] ->
       bs_heap h' !! q = if decide (q ∈ pointees h' l) then bs_heap sample_heap !! q else None) /\
    (forall q, q ∉ pointees sample_heap [20; 21; 22] -> bs_heap h' !! q = bs_heap sample_heap !! q).
Proof.
  apply (remove_duplication_correct sample_heap [20; 21; 22]); [apply sample_owned|discriminate].
Defined.

Lemma write_result_correct_witness :
  exists h' msg kept leaked, write_result sample_heap [20; 21; 22] = Ok (h', msg) /\
    StronglySorted lt_value msg /\
    (forall v, v ∈ msg -> exists p, p ∈ [20; 21; 22] /\ value_of sample_heap p = v) /\
    (forall p, p ∈ [20; 21; 22] ->
       exists v, v ∈ msg /\ rbs_eqb v (value_of sample_heap p) = true) /\
    (forall q, q ∈ pointees sample_heap [20; 21; 22] -> bs_heap h' !! q = None) /\
    kept ++ leaked ≡ₚ [20; 21; 22] /\ length kept = length msg /\
    (forall p, p ∈ kept -> rbs_heap h' !! p = None) /\
    (forall p, p ∈ leaked -> is_Some (rbs_heap h' !! p)).
Proof. apply (write_result_correct sample_heap [20; 21; 22]); [apply sample_owned|discriminate]. Defined.

Lemma output_end_of_stream_witness :
  let st := mk_output sample_heap [21; 22] [] in
  exists st' msg e, output_step 0 st (Some 20) = Ok (st', true) /\
    output_list st' = [] /\ o_written st' = [msg ++ [(None, e)]] /\
    StronglySorted lt_value (msg ++ [(None, e)]) /\
    (forall u, u ∈ msg -> u.1 <> None) /\
    (forall r, r ∈ [21; 22; 20] ->
       exists v, v ∈ msg ++ [(None, e)] /\ rbs_eqb v (value_of sample_heap r) = true).
Proof.
  apply (output_end_of_stream 0 (mk_output sample_heap [21; 22] []) 20 2); [done|done|].
  apply (owned_perm _ [20; 21; 22]); [|apply sample_owned].
  change ([20; 21; 22] ≡ₚ [21; 22] ++ [20]). by rewrite Permutation_app_comm.
Defined.

End ReturnedBeliefs.
