(* ===== verification/Guessing.v ===== *)
(** * Guessing the input of a cycle

    [next_guess] and [jump_guess] of [NewContext] (src/mcs/NewContext.cpp) and
    the [init] functions of [NormalContext] and [CycleBreaker], which prepare
    the guessing input and the starting guess.  The guessing positions act as
    the digits of a binary counter, least significant first. *)

From S2P Require Import Prelude BitMagic BeliefState BeliefStateOffset Combination Tables.
Import BitMagic BeliefState BeliefStateOffset Combination Tables.

Module Guessing.

(** ** The operations *)

Definition loop_fuel (bs : NewBeliefState) : nat := S (S (scan_fuel bs)).

(** [while (previous_bit < bit)]: clear the positions below [bit]. *)
Fixpoint clear_before (fuel : nat) (guessing_input : NewBeliefState) (s bit previous_bit : N)
    (guess : NewBeliefState) : res NewBeliefState :=
  match fuel with
  | O => Err OutOfFuel
  | S fuel =>
      if previous_bit <? bit then
        guess ← (if negb (previous_bit mod (s + 1) =? 0)
                 then set guess previous_bit DMCS_FALSE else mret guess);
        previous_bit ← getNext guessing_input previous_bit;
        clear_before fuel guessing_input s bit previous_bit guess
      else mret guess
  end.

(** The [do ... while (bit)] loop of [next_guess]; the bit it ends with is 0
    when there is no further guess. *)
Fixpoint next_guess_loop (fuel : nat) (guessing_input : NewBeliefState) (s first_bit_set bit : N)
    (current_guess : NewBeliefState) : res (N * NewBeliefState) :=
  match fuel with
  | O => Err OutOfFuel
  | S fuel =>
      bit ← getNext guessing_input bit;
      v ← (if negb (bit mod (s + 1) =? 0) then test current_guess bit else mret DMCS_UNDEF);
      if negb (bit mod (s + 1) =? 0) && bool_decide (v = DMCS_FALSE) then
        g ← set current_guess bit DMCS_TRUE;
        previous_bit ← getNext guessing_input first_bit_set;
        g ← clear_before (loop_fuel guessing_input) guessing_input s bit previous_bit g;
        mret (bit, g)
      else if bit =? 0 then mret (0, current_guess)
      else next_guess_loop fuel guessing_input s first_bit_set bit current_guess
  end.

Definition next_guess (o : Offsets) (current_guess guessing_input : NewBeliefState)
    : res (option NewBeliefState) :=
  let s := size_belief_state o in
  first_bit_set ← getFirst guessing_input;
  _ ← assert (first_bit_set mod (s + 1) =? 0);
  '(bit, g) ← next_guess_loop (loop_fuel guessing_input) guessing_input s first_bit_set
                first_bit_set current_guess;
  mret (if bit =? 0 then None else Some g).

(** The binary digits of [step], least significant first. *)
Fixpoint bin_step_loop (fuel : nat) (step : N) : res (list bool) :=
  match fuel with
  | O => Err OutOfFuel
  | S fuel =>
      if 0 <? step then
        rest ← bin_step_loop fuel (step / 2);
        mret ((step mod 2 =? 1) :: rest)
      else mret []
  end.

(** The first loop of [jump_guess]: the bit it ends with, the digits left. *)
Fixpoint jump_loop (fuel : nat) (guessing_input : NewBeliefState) (s bit : N) (it : list bool)
    (guess : NewBeliefState) : res (N * list bool * NewBeliefState) :=
  match fuel with
  | O => Err OutOfFuel
  | S fuel =>
      bit ← getNext guessing_input bit;
      if negb (bit mod (s + 1) =? 0) then
        match it with
        | [] => Err IndexOutOfRange
        | d :: it =>
            guess ← set guess bit (if d : bool then DMCS_TRUE else DMCS_FALSE);
            match it with
            | [] => mret (bit, [], guess)
            | _ => if bit =? 0 then mret (bit, it, guess)
                   else jump_loop fuel guessing_input s bit it guess
            end
        end
      else if bit =? 0 then mret (bit, it, guess)
      else jump_loop fuel guessing_input s bit it guess
  end.

(** The second loop: the remaining digits are 0. *)
Fixpoint jump_rest (fuel : nat) (guessing_input : NewBeliefState) (s bit : N)
    (guess : NewBeliefState) : res NewBeliefState :=
  match fuel with
  | O => Err OutOfFuel
  | S fuel =>
      if bit =? 0 then mret guess
      else
        bit ← getNext guessing_input bit;
        guess ← (if negb (bit mod (s + 1) =? 0) then set guess bit DMCS_FALSE else mret guess);
        jump_rest fuel guessing_input s bit guess
  end.

Definition jump_guess (o : Offsets) (starting_guess guessing_input : NewBeliefState) (step : N)
    : res (option NewBeliefState) :=
  guess ← bs_blocks (no_blocks o) (size_belief_state o) false;
  guess ← bs_assign guess starting_guess;
  if step =? 0 then mret (Some guess)
  else
    let s := size_belief_state o in
    bin_step ← bin_step_loop (S (N.size_nat step)) step;
    first_bit_set ← getFirst guessing_input;
    _ ← assert (first_bit_set mod (s + 1) =? 0);
    '(bit, it, guess) ← jump_loop (loop_fuel guessing_input) guessing_input s first_bit_set
                          bin_step guess;
    guess ← jump_rest (loop_fuel guessing_input) guessing_input s bit guess;
    mret (match it with [] => Some guess | _ => None end).

(** *** Preparing the guesses

    One neighbor: mark its block in both states, then make its input beliefs
    guessing positions, false in the starting guess. *)
Definition init_beliefs (starting_offsets : list N) (cid : N)
    (acc : NewBeliefState * NewBeliefState) (b : Belief) : res (NewBeliefState * NewBeliefState) :=
  let '(total, start) := acc in
  total ← set_ctx total cid (b_address b) starting_offsets DMCS_TRUE;
  start ← set_ctx start cid (b_address b) starting_offsets DMCS_FALSE;
  mret (total, start).

Definition init_neighbor (starting_offsets : list N) (acc : NewBeliefState * NewBeliefState)
    (cid : N) (signature : list Belief) : res (NewBeliefState * NewBeliefState) :=
  let '(total, start) := acc in
  total ← setEpsilon total cid starting_offsets;
  start ← setEpsilon start cid starting_offsets;
  foldM (init_beliefs starting_offsets cid) (total, start) signature.

(** A query plan maps a context to the signature of the beliefs it passes on
    ([groundInputSignature], possibly null). *)
Definition queryplan_map : Type := list (N * option (list Belief)).

Definition plan_find (qp : queryplan_map) (cid : N) : option (option (list Belief)) :=
  snd <$> List.find (fun e => e.1 =? cid) qp.

(** [NormalContext::init]: [guessing_neighbors] may be null. *)
Definition normal_init (o : Offsets) (guessing_neighbors : option (list N)) (qp : queryplan_map)
    : res (option (NewBeliefState * NewBeliefState)) :=
  match guessing_neighbors with
  | None => mret None
  | Some gnbs =>
      total ← bs_blocks (no_blocks o) (size_belief_state o) false;
      start ← bs_blocks (no_blocks o) (size_belief_state o) false;
      acc ← foldM (fun acc nid =>
        match plan_find qp nid with
        | None => Err AssertFailed
        | Some sig => init_neighbor (starting_offsets o) acc nid (default [] sig)
        end) (total, start) gnbs;
      mret (Some acc)
  end.

(** [CycleBreaker::init]: every context of the query plan with a signature. *)
Definition breaker_init (o : Offsets) (qp : queryplan_map)
    : res (NewBeliefState * NewBeliefState) :=
  total ← bs_blocks (no_blocks o) (size_belief_state o) false;
  start ← bs_blocks (no_blocks o) (size_belief_state o) false;
  foldM (fun acc (e : N * option (list Belief)) =>
    match e.2 with
    | None => mret acc
    | Some sig => init_neighbor (starting_offsets o) acc e.1 sig
    end) (total, start) qp.

#[global] Arguments next_guess : simpl never.
#[global] Arguments jump_guess : simpl never.

(** ** The guessing positions *)

Lemma trues_NoDup n bs k : NoDup (trues n bs k).
Proof.
  unfold trues. apply NoDup_filter, NoDup_alt. intros i j x. rewrite !lookup_nrange.
  repeat case_decide; try done. intros [= <-] [= ?]. lia.
Qed.

Lemma elem_of_trues n bs k p : p ∈ trues n bs k <-> truth bs p = DMCS_TRUE /\ k <= p /\ p < n.
Proof. unfold trues. rewrite list_elem_of_filter, elem_of_nrange. done. Qed.

Lemma trues_length n bs k : (length (trues n bs k) < scan_fuel bs)%nat.
Proof.
  unfold scan_fuel.
  enough (length (trues n bs k) <= length (nrange 0 (N.of_nat (N.size_nat (bits (status_bit bs))))))%nat
    by (rewrite length_nrange in *; lia).
  apply submseteq_length, NoDup_submseteq; [apply trues_NoDup|].
  intros p [Ht _]%elem_of_trues. apply elem_of_nrange. split; [lia|].
  apply testbit_size_nat. destruct (N.testbit (bits (status_bit bs)) p) eqn:E; [done|].
  apply truth_undef in E. congruence.
Qed.

(** [getNext] walks down the list of true positions. *)
Lemma getNext_trues n bs k :
  bs_wf n bs -> k < n ->
  match trues n bs (k + 1) with
  | [] => getNext bs k = Ok 0
  | p :: l => getNext bs k = Ok p /\ l = trues n bs (p + 1) /\ k < p /\ p < n
  end.
Proof.
  intros Hwf Hk. destruct (getNext_ok n bs k Hwf Hk) as (r & -> & [[-> H]|(Hr & Ht & H)]).
  - by rewrite trues_nil.
  - assert (r < n).
    { destruct (N.lt_ge_cases r n); [done|]. rewrite (truth_beyond n) in Ht by done. done. }
    rewrite (trues_step n bs (k + 1) r) by done. repeat split; lia.
Qed.

Lemma nrange_sorted lo hi : StronglySorted N.lt (nrange lo hi).
Proof.
  remember (N.to_nat (hi - lo)) as k eqn:E. revert lo E.
  induction k as [|k IH]; intros lo E.
  - rewrite nrange_nil by lia. constructor.
  - rewrite nrange_cons by lia. constructor; [apply IH; lia|].
    apply Forall_forall. intros x Hx%elem_of_nrange. lia.
Qed.

Lemma StronglySorted_filter_lt (P : N -> Prop) `{!forall x, Decision (P x)} l :
  StronglySorted N.lt l -> StronglySorted N.lt (filter P l).
Proof.
  induction 1 as [|x l Hl IH Hx]; [constructor|]. rewrite filter_cons. case_decide; [|done].
  constructor; [done|]. apply Forall_forall. intros y [_ Hy]%list_elem_of_filter.
  by apply (proj1 (Forall_forall _ _) Hx).
Qed.

Lemma StronglySorted_lt_NoDup l : StronglySorted N.lt l -> NoDup l.
Proof.
  induction 1 as [|x l Hl IH Hx]; [constructor|]. apply NoDup_cons. split; [|done].
  intros Hin. pose proof (proj1 (Forall_forall _ _) Hx x Hin). lia.
Qed.

(** A position that is not an epsilon position. *)
Definition digit (s p : N) : bool := negb (p mod (s + 1) =? 0).

(** The digits of the counter. *)
Definition digits (n s : N) (gi : NewBeliefState) (first : N) : list N :=
  filter (fun p => digit s p = true) (trues n gi (first + 1)).

Lemma digits_sorted n s gi first : StronglySorted N.lt (digits n s gi first).
Proof. unfold digits, trues. apply StronglySorted_filter_lt, StronglySorted_filter_lt, nrange_sorted. Qed.

(** The number a guess stands for. *)
Fixpoint val (g : NewBeliefState) (ps : list N) : N :=
  match ps with
  | [] => 0
  | p :: ps => (if decide (truth g p = DMCS_TRUE) then 1 else 0) + 2 * val g ps
  end.

Definition guess_wf (g : NewBeliefState) (ps : list N) : Prop :=
  forall p, p ∈ ps -> truth g p <> DMCS_UNDEF.

Lemma val_lt g ps : val g ps < 2 ^ N.of_nat (length ps).
Proof.
  induction ps as [|p ps IH]; [done|]. cbn [val length].
  rewrite Nat2N.inj_succ, N.pow_succ_r'. case_decide; lia.
Qed.

Lemma val_ext g g' ps : (forall p, p ∈ ps -> truth g p = truth g' p) -> val g ps = val g' ps.
Proof.
  induction ps as [|p ps IH]; intros H; [done|]. cbn [val].
  rewrite IH by (intros ??; apply H; by right). by rewrite (H p ltac:(by left)).
Qed.

Lemma val_full g ps :
  guess_wf g ps -> (forall q, q ∈ ps -> truth g q <> DMCS_FALSE) ->
  val g ps + 1 = 2 ^ N.of_nat (length ps).
Proof.
  induction ps as [|p ps IH]; intros Hw H; [done|]. cbn [val length].
  rewrite Nat2N.inj_succ, N.pow_succ_r', <- IH.
  - assert (truth g p = DMCS_TRUE) as ->; [|rewrite decide_True by done; lia].
    pose proof (Hw p ltac:(by left)). pose proof (H p ltac:(by left)). by destruct (truth g p).
  - intros q Hq. apply Hw. by right.
  - intros q Hq. apply H. by right.
Qed.

Lemma val_inj g g' ps :
  guess_wf g ps -> guess_wf g' ps -> val g ps = val g' ps ->
  forall p, p ∈ ps -> truth g p = truth g' p.
Proof.
  induction ps as [|a ps IH]; intros Hg Hg' E p; [by intros ?%not_elem_of_nil|].
  cbn [val] in E.
  assert (truth g a = truth g' a /\ val g ps = val g' ps) as [Ea Es].
  { pose proof (Hg a ltac:(by left)). pose proof (Hg' a ltac:(by left)).
    destruct (truth g a), (truth g' a); try done;
      repeat match type of E with context [decide ?P] => destruct (decide P) end;
      try done; (split; [done|lia]) || (exfalso; lia). }
  intros [->|Hp]%elem_of_cons; [done|]. apply IH; try done.
  - intros q Hq. apply Hg. by right.
  - intros q Hq. apply Hg'. by right.
Qed.

(** Adding one: the lowest 0 becomes 1 and the 1s below it become 0. *)
Lemma val_succ g g' ps p :
  StronglySorted N.lt ps -> guess_wf g ps -> p ∈ ps -> truth g p = DMCS_FALSE ->
  (forall q, q ∈ ps -> q < p -> truth g q <> DMCS_FALSE) ->
  (forall q, q ∈ ps -> truth g' q =
     if decide (q = p) then DMCS_TRUE else if decide (q < p) then DMCS_FALSE else truth g q) ->
  val g' ps = val g ps + 1.
Proof.
  intros Hs. induction Hs as [|a ps Hs IH Ha]; intros Hw Hp Hpf Hlow Hg'.
  { by apply not_elem_of_nil in Hp. }
  pose proof (proj1 (Forall_forall _ _) Ha) as Hlt. cbn [val].
  rewrite (Hg' a) by (by left). destruct (decide (a = p)) as [->|Hne].
  - rewrite decide_True, Hpf, decide_False by done.
    rewrite (val_ext g' g ps); [lia|]. intros q Hq. rewrite Hg' by (by right).
    specialize (Hlt q Hq). rewrite decide_False, decide_False by lia. done.
  - apply elem_of_cons in Hp as [->|Hp]; [done|]. specialize (Hlt p Hp).
    rewrite (decide_True (P := a < p)) by done. rewrite decide_False by done.
    rewrite IH; try done.
    + assert (truth g a = DMCS_TRUE) as ->; [|rewrite decide_True by done; lia].
      pose proof (Hw a ltac:(by left)). pose proof (Hlow a ltac:(by left) Hlt). by destruct (truth g a).
    + intros q Hq. apply Hw. by right.
    + intros q Hq. apply Hlow. by right.
    + intros q Hq. apply Hg'. by right.
Qed.

(** ** [next_guess] *)

Section guess.
Context (n s : N) (gi : NewBeliefState) (Hgi : bs_wf n gi).

Lemma trues_cons_ge k p l q : trues n gi (k + 1) = p :: l -> l = trues n gi (p + 1) ->
  q ∈ p :: l -> p <= q.
Proof.
  intros _ -> [->|(_ & ? & _)%elem_of_trues]%elem_of_cons; lia.
Qed.

Lemma clear_before_ok fuel k prev g bit :
  bs_wf n g -> k < n -> getNext gi k = Ok prev -> bit ∈ trues n gi (k + 1) ->
  (length (trues n gi (k + 1)) < fuel)%nat ->
  exists g', clear_before fuel gi s bit prev g = Ok g' /\ bs_wf n g' /\
    forall q, truth g' q =
      if decide (q ∈ trues n gi (k + 1) /\ q < bit /\ digit s q = true) then DMCS_FALSE else truth g q.
Proof.
  revert k prev g. induction fuel as [|fuel IH]; intros k prev g Hg Hk Hn Hbit Hf; [lia|].
  pose proof (getNext_trues n gi k Hgi Hk) as Ht.
  destruct (trues n gi (k + 1)) as [|p l] eqn:El; [by apply not_elem_of_nil in Hbit|].
  destruct Ht as (Hp & Hl & Hkp & Hpn). assert (prev = p) as -> by congruence.
  pose proof (trues_cons_ge k p l bit El Hl Hbit) as Hpb.
  cbn [clear_before]. destruct (N.ltb_spec p bit) as [Hlt|Hge].
  2: { assert (p = bit) as -> by lia. exists g. split; [done|]. split; [done|]. intros q.
       rewrite decide_False; [done|]. intros (Hq & Hqb & _).
       pose proof (trues_cons_ge k bit l q El Hl Hq). lia. }
  apply elem_of_cons in Hbit as [->|Hbit]; [lia|]. rewrite Hl in Hbit.
  set (g1 := if digit s p then put g p DMCS_FALSE else g).
  assert (Eg1 : (if negb (p mod (s + 1) =? 0) then set g p DMCS_FALSE else mret g) = Ok g1).
  { unfold g1, digit. destruct (negb _); [by apply (set_ok n)|done]. }
  assert (Hg1 : bs_wf n g1) by (unfold g1; destruct (digit s p); [by apply wf_put|done]).
  rewrite Eg1. rsimpl. destruct (getNext_ok n gi p Hgi Hpn) as (r & Er & _). rewrite Er. rsimpl.
  destruct (IH p r g1) as (g' & -> & Hg' & Htr); [done..| |].
  { rewrite <- Hl. cbn in Hf. lia. }
  exists g'. split; [done|]. split; [done|]. intros q. rewrite Htr, <- Hl.
  destruct (decide (q ∈ l /\ q < bit /\ digit s q = true)) as [(?&?&?)|Hno].
  - rewrite decide_True; [done|]. split; [by right|done].
  - unfold g1. destruct (decide (q = p)) as [->|Hqp].
    + destruct (digit s p) eqn:Ed.
      * rewrite truth_put, N.eqb_refl, decide_True; [done|]. split; [by left|done].
      * rewrite decide_False; [done|]. by intros (_ & _ & ?).
    + rewrite (decide_False (P := q ∈ p :: l /\ _)).
      * destruct (digit s p); [|done]. rewrite truth_put.
        destruct (N.eqb_spec p q); [congruence|done].
      * intros ([?|?]%elem_of_cons & ? & ?); [done|tauto].
Qed.

(** What [next_guess] does to the digits in [trues n gi (k + 1)]. *)
Definition stepped (first p : N) (g g' : NewBeliefState) : Prop :=
  bs_wf n g' /\ forall q, truth g' q =
    if decide (q = p) then DMCS_TRUE
    else if decide (q ∈ trues n gi (first + 1) /\ q < p /\ digit s q = true) then DMCS_FALSE
    else truth g q.

Lemma next_guess_loop_ok first fuel k g :
  bs_wf n g -> first <= k -> k < n ->
  (length (trues n gi (k + 1)) < fuel)%nat ->
  (exists p g', next_guess_loop fuel gi s first k g = Ok (p, g') /\ 0 < p /\
     p ∈ trues n gi (k + 1) /\ digit s p = true /\ truth g p = DMCS_FALSE /\
     (forall q, q ∈ trues n gi (k + 1) -> q < p -> digit s q = true -> truth g q <> DMCS_FALSE) /\
     stepped first p g g') \/
  (next_guess_loop fuel gi s first k g = Ok (0, g) /\
   forall q, q ∈ trues n gi (k + 1) -> digit s q = true -> truth g q <> DMCS_FALSE).
Proof.
  intros Hg. revert k. induction fuel as [|fuel IH]; intros k Hfk Hk Hf; [lia|].
  pose proof (getNext_trues n gi k Hgi Hk) as Ht. cbn [next_guess_loop].
  destruct (trues n gi (k + 1)) as [|p l] eqn:El.
  { right. rewrite Ht. rsimpl. rewrite N.Div0.mod_0_l. cbn. split; [done|].
    by intros q ?%not_elem_of_nil. }
  destruct Ht as (Hp & Hl & Hkp & Hpn). rewrite Hp. rsimpl.
  assert (Ev : (if negb (p mod (s + 1) =? 0) then test g p else mret DMCS_UNDEF)
    = Ok (if digit s p then truth g p else DMCS_UNDEF)).
  { unfold digit. destruct (negb _); [by apply (test_ok n)|done]. }
  rewrite Ev. rsimpl. fold (digit s p).
  destruct (digit s p && bool_decide ((if digit s p then truth g p else DMCS_UNDEF) = DMCS_FALSE)) eqn:Ec.
  - apply andb_true_iff in Ec as [Ed Ef]. rewrite Ed in Ef. apply bool_decide_eq_true in Ef.
    left. rewrite (set_ok n) by done. rsimpl.
    assert (Hfn : first < n) by lia.
    destruct (getNext_ok n gi first Hgi Hfn) as (r & Er & _). rewrite Er. rsimpl.
    assert (Hpt : p ∈ trues n gi (first + 1)).
    { assert (Hin : p ∈ trues n gi (k + 1)) by (rewrite El; by left).
      apply elem_of_trues in Hin as (? & ? & ?). apply elem_of_trues. split; [done|lia]. }
    destruct (clear_before_ok (loop_fuel gi) first r (put g p DMCS_TRUE) p) as (g' & -> & Hg' & Htr);
      [by apply wf_put|done..| |].
    { pose proof (trues_length n gi (first + 1)). unfold loop_fuel. lia. }
    exists p, g'. rsimpl. split; [done|]. split; [lia|]. split; [by left|]. split; [done|].
    split; [done|]. split.
    + intros q Hq. pose proof (trues_cons_ge k p l q El Hl Hq). lia.
    + split; [done|]. intros q. rewrite Htr, truth_put.
      destruct (decide (q = p)) as [->|Hne].
      * rewrite decide_False by lia. by rewrite N.eqb_refl.
      * destruct (N.eqb_spec p q); [congruence|]. done.
  - assert (Hpf : digit s p = true -> truth g p <> DMCS_FALSE).
    { intros Ed. rewrite Ed in Ec. cbn in Ec. by apply bool_decide_eq_false in Ec. }
    destruct (N.eqb_spec p 0); [lia|].
    destruct (IH p) as [(p' & g' & E & H0 & Hin & Hd & Hpf' & Hlow & Hst)|(E & Hno)];
      [lia|done|rewrite <- Hl; cbn in Hf; lia|left|right]; rewrite <- Hl in *.
    + exists p', g'. split; [done|]. split; [done|]. split; [by right|]. split; [done|].
      split; [done|]. split; [|done]. intros q [->|Hq]%elem_of_cons; [tauto|by apply Hlow].
    + split; [done|]. intros q [->|Hq]%elem_of_cons; [done|by apply Hno].
Qed.

Lemma digits_cons k p l :
  k < n -> trues n gi (k + 1) = p :: l -> l = trues n gi (p + 1) ->
  digits n s gi k = if digit s p then p :: digits n s gi p else digits n s gi p.
Proof.
  intros _ El Hl. unfold digits. rewrite El, filter_cons, Hl.
  by destruct (digit s p) eqn:E; [rewrite decide_True|rewrite decide_False].
Qed.

Lemma elem_of_digits k p : p ∈ digits n s gi k <-> p ∈ trues n gi (k + 1) /\ digit s p = true.
Proof. unfold digits. rewrite list_elem_of_filter. tauto. Qed.

(** The second loop of [jump_guess] clears the digits above [k]. *)
Lemma jump_rest_ok fuel k g :
  bs_wf n g -> 0 < k -> k < n -> (S (length (trues n gi (k + 1))) < fuel)%nat ->
  exists g', jump_rest fuel gi s k g = Ok g' /\ bs_wf n g' /\
    forall q, truth g' q = if decide (q ∈ digits n s gi k) then DMCS_FALSE else truth g q.
Proof.
  revert k g. induction fuel as [|fuel IH]; intros k g Hg H0 Hk Hf; [lia|].
  pose proof (getNext_trues n gi k Hgi Hk) as Ht. cbn [jump_rest].
  destruct (N.eqb_spec k 0); [lia|].
  destruct (trues n gi (k + 1)) as [|p l] eqn:El.
  { rewrite Ht. rsimpl. rewrite N.Div0.mod_0_l. cbn [N.eqb negb]. rsimpl.
    destruct fuel; [cbn in Hf; lia|]. cbn. exists g. split; [done|]. split; [done|]. intros q.
    rewrite decide_False; [done|]. unfold digits. rewrite El. apply not_elem_of_nil. }
  destruct Ht as (Hp & Hl & Hkp & Hpn). rewrite Hp. rsimpl.
  set (g1 := if digit s p then put g p DMCS_FALSE else g).
  assert (Eg1 : (if negb (p mod (s + 1) =? 0) then set g p DMCS_FALSE else mret g) = Ok g1).
  { unfold g1, digit. destruct (negb _); [by apply (set_ok n)|done]. }
  rewrite Eg1. rsimpl.
  destruct (IH p g1) as (g' & -> & Hg' & Htr).
  - unfold g1. destruct (digit s p); [by apply wf_put|done].
  - lia.
  - done.
  - rewrite <- Hl. cbn in Hf. lia.
  - exists g'. split; [done|]. split; [done|]. intros q. rewrite Htr.
    rewrite (digits_cons k p l Hk El Hl). unfold g1. destruct (digit s p) eqn:Ed; [|done].
    destruct (decide (q ∈ digits n s gi p)); [rewrite decide_True; [done|by right]|].
    rewrite truth_put. destruct (N.eqb_spec p q) as [->|Hne].
    + rewrite decide_True; [done|by left].
    + rewrite decide_False; [done|]. intros [?|?]%elem_of_cons; congruence.
Qed.

(** The number denoted by a list of binary digits. *)
Fixpoint bits2N (it : list bool) : N :=
  match it with [] => 0 | d :: it => (if d : bool then 1 else 0) + 2 * bits2N it end.

(** The first loop of [jump_guess] writes its digits, or runs out of
    positions. *)
Lemma jump_loop_ok fuel k it g :
  bs_wf n g -> k < n -> it <> [] -> (length (trues n gi (k + 1)) < fuel)%nat ->
  (exists p g' ds, jump_loop fuel gi s k it g = Ok (p, [], g') /\ 0 < p /\ p < n /\ bs_wf n g' /\
     digits n s gi k = ds ++ digits n s gi p /\ length ds = length it /\
     val g' ds = bits2N it /\ guess_wf g' ds /\
     forall q, q ∉ ds -> truth g' q = truth g q) \/
  (exists it' g', jump_loop fuel gi s k it g = Ok (0, it', g') /\ it' <> [] /\
     (length (digits n s gi k) < length it)%nat).
Proof.
  revert k it g. induction fuel as [|fuel IH]; intros k it g Hg Hk Hit Hf; [lia|].
  pose proof (getNext_trues n gi k Hgi Hk) as Ht. cbn [jump_loop].
  destruct (trues n gi (k + 1)) as [|p l] eqn:El.
  { right. rewrite Ht. rsimpl. rewrite N.Div0.mod_0_l. cbn. exists it, g. split; [done|].
    split; [done|]. unfold digits. rewrite El. destruct it; [done|cbn; lia]. }
  destruct Ht as (Hp & Hl & Hkp & Hpn). rewrite Hp. rsimpl. fold (digit s p).
  assert (Hfuel : (length (trues n gi (p + 1)) < fuel)%nat) by (rewrite <- Hl; cbn in Hf; lia).
  rewrite (digits_cons k p l Hk El Hl). destruct (digit s p) eqn:Ed.
  2: { destruct (N.eqb_spec p 0); [lia|]. apply (IH p it g); done. }
  destruct it as [|d it]; [done|]. rewrite (set_ok n) by done. rsimpl.
  set (g1 := put g p (if d then DMCS_TRUE else DMCS_FALSE)).
  assert (Hg1 : bs_wf n g1) by (by apply wf_put).
  assert (Hg1p : truth g1 p = if d then DMCS_TRUE else DMCS_FALSE)
    by (unfold g1; by rewrite truth_put, N.eqb_refl).
  destruct it as [|d' it].
  - left. exists p, g1, [p]. split; [done|]. split; [lia|]. split; [done|]. split; [done|].
    split; [done|]. split; [done|]. cbn [val bits2N]. rewrite Hg1p.
    split; [by destruct d|]. split.
    + intros q ->%list_elem_of_singleton. rewrite Hg1p. by destruct d.
    + intros q Hq. unfold g1. rewrite truth_put. destruct (N.eqb_spec p q) as [->|]; [|done].
      destruct Hq. by apply list_elem_of_singleton.
  - destruct (N.eqb_spec p 0); [lia|].
    destruct (IH p (d' :: it) g1) as [(p' & g' & ds & E & H0 & Hpn' & Hwf & Eds & Hlen & Hval & Hgw & Hsame)
      |(it' & g' & E & Hit' & Hlen)]; [done..|left|right].
    + assert (Hpds : p ∉ ds).
      { intros Hin. assert (Hin' : p ∈ digits n s gi p) by (rewrite Eds; set_solver).
        apply elem_of_digits in Hin' as [(_ & ? & _)%elem_of_trues _]. lia. }
      exists p', g', (p :: ds). split; [done|]. split; [done|]. split; [done|]. split; [done|].
      split; [by rewrite Eds|]. split; [cbn in *; lia|].
      cbn [val bits2N]. rewrite Hval, Hsame, Hg1p by done. split; [by destruct d|]. split.
      * intros q [->|Hq]%elem_of_cons; [rewrite Hsame, Hg1p by done; by destruct d|by apply Hgw].
      * intros q Hq. rewrite not_elem_of_cons in Hq. destruct Hq as [Hqp Hq].
        rewrite Hsame by done. unfold g1. rewrite truth_put.
        destruct (N.eqb_spec p q); congruence.
    + exists it', g'. split; [done|]. split; [done|]. cbn [length] in *. lia.
Qed.

End guess.

Lemma bin_step_loop_ok fuel step :
  (N.size_nat step < fuel)%nat ->
  exists l, bin_step_loop fuel step = Ok l /\ bits2N l = step /\ step < 2 ^ N.of_nat (length l) /\
    (step = 0 -> l = []) /\
    (0 < step -> l <> [] /\ 2 ^ N.of_nat (length l) <= 2 * step).
Proof.
  revert step. induction fuel as [|fuel IH]; intros step Hf; [lia|]. cbn [bin_step_loop].
  destruct (N.ltb_spec 0 step) as [H0|H0].
  2: { exists []. assert (step = 0) as -> by lia. split; [done|]. split; [done|].
       split; [cbn; lia|]. split; [done|]. intros ?. lia. }
  assert (Hhalf : (N.size_nat (step / 2) < fuel)%nat).
  { rewrite <- N.div2_div. destruct step as [|[p|p|]]; cbn in *; lia. }
  destruct (IH (step / 2) Hhalf) as (l & -> & Hb & Hlt & Hz & Hge). rsimpl.
  exists ((step mod 2 =? 1) :: l). split; [done|].
  pose proof (N.div_mod step 2 ltac:(lia)) as Hdm. pose proof (N.mod_lt step 2 ltac:(lia)) as Hm.
  cbn [bits2N length]. rewrite Hb, Nat2N.inj_succ, N.pow_succ_r'.
  set (r := step mod 2) in *. set (h := step / 2) in *. clearbody r h.
  split; [destruct (N.eqb_spec r 1); cbv iota; lia|]. split; [lia|]. split; [lia|].
  intros _. split; [done|].
  destruct (N.eq_dec h 0) as [E|E]; [|destruct (Hge ltac:(lia)); lia].
  rewrite (Hz E). cbn. lia.
Qed.

(** The lowest true position is an epsilon position: what the assertions in
    [next_guess] and [jump_guess] require, and what [init] establishes. *)
Record guessing_wf (n s : N) (gi : NewBeliefState) (first : N) : Prop := {
  gw_wf : bs_wf n gi;
  gw_first : getFirst gi = Ok first;
  gw_eps : first mod (s + 1) = 0;
  gw_lt : first < n;
}.

Lemma next_guess_ok o n gi first g :
  let s := size_belief_state o in
  let ds := digits n s gi first in
  guessing_wf n s gi first -> bs_wf n g -> guess_wf g ds ->
  if decide (val g ds + 1 = 2 ^ N.of_nat (length ds))
  then next_guess o g gi = Ok None
  else exists g', next_guess o g gi = Ok (Some g') /\ bs_wf n g' /\ guess_wf g' ds /\
    val g' ds = val g ds + 1 /\ forall q, q ∉ ds -> truth g' q = truth g q.
Proof.
  intros s ds [Hgi Hfirst Heps Hlt] Hg Hgw. unfold next_guess. rewrite Hfirst. rsimpl. fold s.
  rewrite Heps. change (assert (0 =? 0)) with (Ok tt). rsimpl.
  pose proof (trues_length n gi (first + 1)) as Hlen.
  destruct (next_guess_loop_ok n s gi Hgi first (loop_fuel gi) first g Hg)
    as [(p & g' & -> & H0 & Hin & Hd & Hpf & Hlow & Hwf' & Htr)|(-> & Hno)];
    [done..|unfold loop_fuel; lia| |]; rsimpl.
  - assert (Hpds : p ∈ ds) by (by apply elem_of_digits).
    assert (Hval : val g' ds = val g ds + 1).
    { apply (val_succ g g' ds p); try done; [apply digits_sorted| |].
      - intros q [Hq Hdq]%elem_of_digits Hqp. by apply Hlow.
      - intros q [Hq Hdq]%elem_of_digits. rewrite Htr. case_decide; [done|].
        destruct (decide (q < p)); [rewrite decide_True by done|rewrite decide_False by tauto]; done. }
    destruct (N.eqb_spec p 0); [lia|].
    rewrite decide_False by (pose proof (val_lt g' ds); lia).
    exists g'. split; [done|]. split; [done|]. split; [|split; [done|]].
    + intros q Hq. rewrite Htr. repeat case_decide; try done. by apply Hgw.
    + intros q Hq. rewrite Htr, decide_False by (by intros ->).
      rewrite decide_False; [done|]. intros (? & _ & ?). apply Hq. by apply elem_of_digits.
  - rewrite decide_True; [done|]. apply val_full; [done|].
    intros q [Hq Hd]%elem_of_digits. by apply Hno.
Qed.

Lemma val_app g l1 l2 : val g (l1 ++ l2) = val g l1 + 2 ^ N.of_nat (length l1) * val g l2.
Proof.
  induction l1 as [|p l1 IH]; [cbn [app val length]; cbn; lia|].
  cbn [app val length]. rewrite IH, Nat2N.inj_succ, N.pow_succ_r'. lia.
Qed.

Lemma val_false g ps : (forall p, p ∈ ps -> truth g p = DMCS_FALSE) -> val g ps = 0.
Proof.
  induction ps as [|p ps IH]; intros H; [done|]. cbn [val].
  rewrite (H p) by (by left). rewrite IH by (intros ??; apply H; by right). done.
Qed.

Lemma jump_guess_ok o n gi first start step :
  let s := size_belief_state o in
  let ds := digits n s gi first in
  n = no_blocks o * (s + 1) ->
  guessing_wf n s gi first -> bs_wf n start -> (forall p, p ∈ ds -> truth start p = DMCS_FALSE) ->
  if decide (step < 2 ^ N.of_nat (length ds))
  then exists g, jump_guess o start gi step = Ok (Some g) /\ bs_wf n g /\ guess_wf g ds /\
    val g ds = step /\ forall q, q ∉ ds -> truth g q = truth start q
  else jump_guess o start gi step = Ok None.
Proof.
  intros s ds Hn [Hgi Hfirst Heps Hlt] Hstart Hfalse. unfold jump_guess. fold s.
  destruct (bs_wf_blocks (no_blocks o) s) as (g0 & -> & _).
  { rewrite <- Hn. apply (wf_size_max _ _ Hgi). }
  rsimpl. unfold bs_assign. rewrite (wf_status_size _ _ Hstart), (wf_value_size _ _ Hstart).
  assert_true. rewrite !assign_eq. replace (mk_bs _ _) with start by (by destruct start).
  destruct (N.eqb_spec step 0) as [->|H0].
  { rewrite decide_True by (apply N.neq_0_lt_0, N.pow_nonzero; lia).
    exists start. split; [done|]. split; [done|]. split; [|split; [by apply val_false|done]].
    intros p Hp. by rewrite Hfalse. }
  destruct (bin_step_loop_ok (S (N.size_nat step)) step) as (it & -> & Hb & Hsz & _ & Hpos); [lia|].
  destruct (Hpos ltac:(lia)) as [Hit Hge]. rsimpl. rewrite Hfirst. rsimpl.
  rewrite Heps. change (assert (0 =? 0)) with (Ok tt). rsimpl.
  pose proof (trues_length n gi (first + 1)) as Hlen.
  destruct (jump_loop_ok n s gi Hgi (loop_fuel gi) first it start Hstart)
    as [(p & g1 & ds1 & -> & Hp0 & Hpn & Hg1 & Eds & Hlen1 & Hval & Hgw & Hsame)
       |(it' & g1 & E & Hit' & Hshort)]; [done|done|unfold loop_fuel; lia| |].
  - rsimpl. pose proof (trues_length n gi (p + 1)).
    destruct (jump_rest_ok n s gi Hgi (loop_fuel gi) p g1) as (g & -> & Hg & Htr);
      [done..|unfold loop_fuel; lia|]. rsimpl.
    pose proof (digits_sorted n s gi first) as Hnd. apply StronglySorted_lt_NoDup in Hnd.
    rewrite Eds in Hnd. apply NoDup_app in Hnd as (_ & Hdisj & _).
    fold ds in Eds. rewrite decide_True.
    2: { rewrite Eds, length_app, Nat2N.inj_add, Hlen1.
         eapply N.lt_le_trans; [done|]. apply N.pow_le_mono_r; lia. }
    exists g. split; [done|]. split; [done|]. rewrite Eds. split; [|split].
    + intros q Hq. rewrite Htr. case_decide; [done|].
      apply elem_of_app in Hq as [Hq|Hq]; [by apply Hgw|done].
    + rewrite val_app, (val_false g (digits n s gi p)), (val_ext g g1 ds1).
      * rewrite Hval, Hb. lia.
      * intros q Hq. rewrite Htr, decide_False; [done|]. by apply Hdisj.
      * intros q Hq. by rewrite Htr, decide_True.
    + intros q Hq. rewrite not_elem_of_app in Hq. destruct Hq as [Hq1 Hq2].
      rewrite Htr, decide_False by done. by apply Hsame.
  - rewrite E. rsimpl. assert (Er : jump_rest (loop_fuel gi) gi s 0 g1 = Ok g1) by done.
    rewrite Er. rsimpl. fold ds in Hshort. rewrite decide_False; [by destruct it'|].
    assert (2 * 2 ^ N.of_nat (length ds) <= 2 ^ N.of_nat (length it)); [|lia].
    rewrite <- N.pow_succ_r', <- Nat2N.inj_succ. apply N.pow_le_mono_r; lia.
Qed.

Lemma decide_ext' {A} (P Q : Prop) `{!Decision P, !Decision Q} (a b : A) :
  (P <-> Q) -> (if decide P then a else b) = (if decide Q then a else b).
Proof. intros H. destruct (decide P), (decide Q); tauto. Qed.

(** [next_guess] applied [k] times, until there is no further guess. *)
Fixpoint advance (o : Offsets) (gi : NewBeliefState) (k : nat) (g : NewBeliefState)
    : res (option NewBeliefState) :=
  match k with
  | O => mret (Some g)
  | S k =>
      g ← advance o gi k g;
      match g with Some g => next_guess o g gi | None => mret None end
  end.

Lemma advance_ok o n gi first start k :
  let s := size_belief_state o in
  let ds := digits n s gi first in
  guessing_wf n s gi first -> bs_wf n start -> (forall p, p ∈ ds -> truth start p = DMCS_FALSE) ->
  if decide (N.of_nat k < 2 ^ N.of_nat (length ds))
  then exists g, advance o gi k start = Ok (Some g) /\ bs_wf n g /\ guess_wf g ds /\
    val g ds = N.of_nat k /\ forall q, q ∉ ds -> truth g q = truth start q
  else advance o gi k start = Ok None.
Proof.
  intros s ds Hgi Hstart Hfalse. induction k as [|k IH].
  { rewrite decide_True by (apply N.neq_0_lt_0, N.pow_nonzero; lia).
    exists start. split; [done|]. split; [done|].
    split; [intros p Hp; by rewrite Hfalse|]. split; [by apply val_false|done]. }
  cbn [advance]. destruct (decide (N.of_nat k < 2 ^ N.of_nat (length ds))) as [Hk|Hk].
  - destruct IH as (g & -> & Hg & Hgw & Hval & Hsame). rsimpl.
    pose proof (next_guess_ok o n gi first g Hgi Hg Hgw) as Hnext. fold s ds in Hnext.
    rewrite Hval in Hnext.
    destruct (decide (N.of_nat k + 1 = 2 ^ N.of_nat (length ds))) as [E|E].
    + rewrite decide_False by lia. done.
    + destruct Hnext as (g' & -> & Hg' & Hgw' & Hval' & Hsame').
      rewrite decide_True by lia. exists g'. split; [done|]. split; [done|]. split; [done|].
      split; [lia|]. intros q Hq. by rewrite Hsame', Hsame.
  - rewrite IH. rsimpl. rewrite decide_False by lia. done.
Qed.

(** ** What [init] establishes *)

Section init.
Context (nb sb : N) (Hnb : 0 < nb) (Hsb : 0 < sb) (Hmax : nb * (sb + 1) <= id_max).
Local Abbreviation n := (nb * (sb + 1)).
Local Abbreviation offs := (starting_offsets (layout nb sb)).

(** The entries of a query plan: contexts and the beliefs they pass on. *)
Definition entry_wf (e : N * list Belief) : Prop :=
  e.1 < nb /\ Forall (fun b => 0 < b_address b /\ b_address b <= sb) e.2.

Definition eps_positions (es : list (N * list Belief)) : list N := (fun e => block_start sb e.1) <$> es.
Definition belief_positions (es : list (N * list Belief)) : list N :=
  es ≫= (fun e => (fun b => gpos sb e.1 (b_address b)) <$> e.2).

(** The states [init] prepares. *)
Record prepared (es : list (N * list Belief)) (total start : NewBeliefState) : Prop := {
  pr_total_wf : bs_wf n total;
  pr_start_wf : bs_wf n start;
  pr_total : forall p, truth total p =
    if decide (p ∈ eps_positions es \/ p ∈ belief_positions es) then DMCS_TRUE else DMCS_UNDEF;
  pr_start : forall p, truth start p =
    if decide (p ∈ belief_positions es) then DMCS_FALSE
    else if decide (p ∈ eps_positions es) then DMCS_TRUE else DMCS_UNDEF;
}.

Lemma init_beliefs_ok c sig total start :
  c < nb -> Forall (fun b => 0 < b_address b /\ b_address b <= sb) sig ->
  bs_wf n total -> bs_wf n start ->
  exists total' start', foldM (init_beliefs offs c) (total, start) sig = Ok (total', start') /\
    bs_wf n total' /\ bs_wf n start' /\
    forall p,
      truth total' p = (if decide (p ∈ (fun b => gpos sb c (b_address b)) <$> sig)
                        then DMCS_TRUE else truth total p) /\
      truth start' p = (if decide (p ∈ (fun b => gpos sb c (b_address b)) <$> sig)
                        then DMCS_FALSE else truth start p).
Proof.
  intros Hc Hsig. revert total start. induction Hsig as [|b sig [Hb0 Hb] _ IH]; intros total start Ht Hs.
  { exists total, start. split; [done|]. split; [done|]. split; [done|]. intros p.
    by rewrite !decide_False by apply not_elem_of_nil. }
  assert (Hlt : gpos sb c (b_address b) < n) by (by apply gpos_lt).
  assert (Estep : init_beliefs offs c (total, start) b =
    Ok (put total (gpos sb c (b_address b)) DMCS_TRUE, put start (gpos sb c (b_address b)) DMCS_FALSE)).
  { unfold init_beliefs.
    rewrite (set_ctx_ok n total c offs (block_start sb c)) by (done || by apply offs_lookup). rsimpl.
    by rewrite (set_ctx_ok n start c offs (block_start sb c)) by (done || by apply offs_lookup). }
  cbn [foldM]. rewrite Estep. rsimpl.
  destruct (IH (put total (gpos sb c (b_address b)) DMCS_TRUE)
    (put start (gpos sb c (b_address b)) DMCS_FALSE)) as (t' & s' & -> & Ht' & Hs' & H);
    [by apply wf_put..|].
  exists t', s'. split; [done|]. split; [done|]. split; [done|]. intros p.
  destruct (H p) as [-> ->]. rewrite !truth_put, fmap_cons.
  destruct (decide (p ∈ (fun b => gpos sb c (b_address b)) <$> sig)) as [Hin|Hin].
  { by rewrite !decide_True by (by right). }
  destruct (N.eqb_spec (gpos sb c (b_address b)) p) as [->|Hne].
  - by rewrite !decide_True by (by left).
  - by rewrite !decide_False by (intros [?|?]%elem_of_cons; congruence).
Qed.

Lemma belief_not_eps es c : Forall entry_wf es -> block_start sb c ∉ belief_positions es.
Proof.
  intros Hes Hin. unfold belief_positions in Hin.
  apply list_elem_of_bind in Hin as (e & (b & Hb & Hbin)%list_elem_of_fmap & He).
  pose proof (proj1 (Forall_forall _ _) Hes e He) as [_ Hsig].
  pose proof (proj1 (Forall_forall _ _) Hsig b Hbin) as [H0 H1].
  unfold gpos, block_start in Hb. destruct (N.lt_trichotomy c e.1) as [H|[H|H]]; nia.
Qed.

Lemma init_neighbor_ok es total start c sig :
  prepared es total start -> Forall entry_wf es -> entry_wf (c, sig) ->
  exists total' start', init_neighbor offs (total, start) c sig = Ok (total', start') /\
    prepared (es ++ [(c, sig)]) total' start'.
Proof.
  intros [Ht Hs Htt Hst] Hes [Hc Hsig]. cbn in Hc, Hsig. unfold init_neighbor.
  assert (Hlt : block_start sb c < n).
  { replace (block_start sb c) with (gpos sb c 0) by (unfold gpos; lia). apply gpos_lt; lia. }
  rewrite (setEpsilon_ok n total c offs (block_start sb c)) by (done || by apply offs_lookup).
  rsimpl. rewrite (setEpsilon_ok n start c offs (block_start sb c)) by (done || by apply offs_lookup).
  rsimpl.
  destruct (init_beliefs_ok c sig (put total (block_start sb c) DMCS_TRUE)
    (put start (block_start sb c) DMCS_TRUE)) as (t' & s' & -> & Ht' & Hs' & H);
    [done|done|by apply wf_put..|].
  exists t', s'. split; [done|].
  assert (Heps : forall p, p ∈ eps_positions (es ++ [(c, sig)]) <-> p ∈ eps_positions es \/ p = block_start sb c).
  { intros p. unfold eps_positions. rewrite fmap_app, elem_of_app. cbn. rewrite list_elem_of_singleton. done. }
  assert (Hbel : forall p, p ∈ belief_positions (es ++ [(c, sig)]) <->
    p ∈ belief_positions es \/ p ∈ (fun b => gpos sb c (b_address b)) <$> sig).
  { intros p. unfold belief_positions. rewrite bind_app, elem_of_app. cbn. by rewrite app_nil_r. }
  pose proof (belief_not_eps es c Hes) as Hne.
  split; [done|done|..]; intros p; destruct (H p) as [E1 E2]; rewrite ?E1, ?E2, !truth_put.
  - destruct (decide (p ∈ (fun b => gpos sb c (b_address b)) <$> sig)).
    { rewrite decide_True; [done|]. rewrite Hbel. tauto. }
    rewrite Htt. destruct (N.eqb_spec (block_start sb c) p) as [<-|Hn].
    { rewrite decide_True; [done|]. rewrite Heps. tauto. }
    apply decide_ext'. rewrite Heps, Hbel. intuition congruence.
  - destruct (decide (p ∈ (fun b => gpos sb c (b_address b)) <$> sig)).
    { rewrite decide_True; [done|]. rewrite Hbel. tauto. }
    rewrite Hst. destruct (N.eqb_spec (block_start sb c) p) as [<-|Hn].
    { rewrite decide_False by (rewrite Hbel; tauto). rewrite decide_True; [done|]. rewrite Heps. tauto. }
    rewrite (decide_ext' (p ∈ belief_positions (es ++ [(c, sig)])) (p ∈ belief_positions es))
      by (rewrite Hbel; tauto).
    destruct (decide (p ∈ belief_positions es)); [done|].
    apply decide_ext'. rewrite Heps. intuition congruence.
Qed.

Lemma init_fold (f : NewBeliefState * NewBeliefState -> N * list Belief -> res (NewBeliefState * NewBeliefState)) es :
  (forall acc e, e ∈ es -> f acc e = init_neighbor offs acc e.1 e.2) ->
  Forall entry_wf es ->
  forall es0 total start, prepared es0 total start -> Forall entry_wf es0 ->
  exists total' start', foldM f (total, start) es = Ok (total', start') /\
    prepared (es0 ++ es) total' start'.
Proof.
  intros Hf Hes. induction Hes as [|[c sig] es He _ IH]; intros es0 total start Hp Hes0.
  { exists total, start. by rewrite app_nil_r. }
  cbn [foldM]. rewrite Hf by (by left). cbn [fst snd].
  destruct (init_neighbor_ok es0 total start c sig Hp Hes0 He) as (t & st & -> & Hp'). rsimpl.
  destruct (IH ltac:(intros ???; apply Hf; by right) (es0 ++ [(c, sig)]) t st Hp')
    as (t' & s' & -> & Hp''); [by apply Forall_app; split; [|apply Forall_singleton]|].
  exists t', s'. by rewrite <- app_assoc in Hp''.
Qed.

Lemma prepared_nil bs1 bs2 :
  bs_wf n bs1 -> bs_wf n bs2 -> (forall i, truth bs1 i = DMCS_UNDEF) ->
  (forall i, truth bs2 i = DMCS_UNDEF) -> prepared [] bs1 bs2.
Proof.
  intros H1 H2 H3 H4. split; [done|done|..]; intros p; rewrite ?H3, ?H4.
  - rewrite decide_False; [done|]. by intros [?%not_elem_of_nil|?%not_elem_of_nil].
  - rewrite !decide_False by apply not_elem_of_nil. done.
Qed.

(** The contexts of the plan that pass on beliefs. *)
Definition plan_entries (qp : queryplan_map) : list (N * list Belief) :=
  omap (fun e => (fun sig => (e.1, sig)) <$> e.2) qp.

Lemma foldM_omap {A B C} (f : C -> B -> res C) (h : A -> option B) l c :
  foldM (fun acc e => match h e with None => mret acc | Some x => f acc x end) c l =
  foldM f c (omap h l).
Proof.
  revert c. induction l as [|a l IH]; intros c; [done|]. cbn.
  destruct (h a) eqn:E; cbn; [|apply IH]. destruct (f c b); cbn; [apply IH|done].
Qed.

Lemma breaker_init_ok qp :
  Forall entry_wf (plan_entries qp) ->
  exists total start, breaker_init (layout nb sb) qp = Ok (total, start) /\
    prepared (plan_entries qp) total start.
Proof.
  intros Hes. unfold breaker_init. cbn [no_blocks size_belief_state layout starting_offsets].
  destruct (bs_wf_blocks nb sb Hmax) as (b0 & -> & Hb & Hu). rsimpl.
  destruct (init_fold (fun acc e => init_neighbor offs acc e.1 e.2) (plan_entries qp)
    ltac:(done) Hes [] b0 b0) as (t & st & E & Hp); [by apply prepared_nil|by constructor|].
  exists t, st. split; [|done]. rewrite <- E. unfold plan_entries. rewrite <- foldM_omap.
  apply foldM_ext. intros acc [c [sig|]]; done.
Qed.

(** The neighbors of a normal context, with what the plan says of them. *)
Definition neighbor_entries (gnbs : list N) (qp : queryplan_map) : list (N * list Belief) :=
  (fun nid => (nid, default [] (default None (plan_find qp nid)))) <$> gnbs.

Lemma normal_init_ok gnbs qp :
  Forall (fun nid => is_Some (plan_find qp nid)) gnbs ->
  Forall entry_wf (neighbor_entries gnbs qp) ->
  exists total start, normal_init (layout nb sb) (Some gnbs) qp = Ok (Some (total, start)) /\
    prepared (neighbor_entries gnbs qp) total start.
Proof.
  intros Hfind Hes. unfold normal_init. cbn [no_blocks size_belief_state layout starting_offsets].
  destruct (bs_wf_blocks nb sb Hmax) as (b0 & -> & Hb & Hu). rsimpl.
  destruct (init_fold (fun acc e => init_neighbor offs acc e.1 e.2) (neighbor_entries gnbs qp)
    ltac:(done) Hes [] b0 b0) as (t & st & E & Hp); [by apply prepared_nil|by constructor|].
  exists t, st. split; [|done]. unfold neighbor_entries in E. rewrite foldM_fmap in E.
  erewrite foldM_ext_in; [by rewrite E|]. intros acc nid Hnid. cbn [fst snd].
  pose proof (proj1 (Forall_forall _ _) Hfind nid Hnid) as [sig ->]. done.
Qed.

(** *** The prepared states are fit for guessing *)

Lemma block_start_mod c : block_start sb c mod (sb + 1) = 0.
Proof. unfold block_start. apply N.Div0.mod_mul. Qed.

Lemma gpos_mod c a : a <= sb -> gpos sb c a mod (sb + 1) = a.
Proof.
  intros Ha. unfold gpos, block_start. rewrite N.add_comm, N.Div0.mod_add.
  apply N.mod_small. lia.
Qed.

Lemma prepared_guessing es total start :
  Forall entry_wf es -> prepared es total start ->
  exists first, guessing_wf n sb total first /\
    forall p, p ∈ digits n sb total first <-> p ∈ belief_positions es.
Proof.
  intros Hes [Ht Hs Htt Hst].
  assert (Hbel : forall p, p ∈ belief_positions es -> exists c a,
    p = gpos sb c a /\ 0 < a /\ a <= sb /\ c < nb /\ block_start sb c ∈ eps_positions es).
  { intros p. unfold belief_positions.
    intros (e & (b & -> & Hbin)%list_elem_of_fmap & He)%list_elem_of_bind.
    pose proof (proj1 (Forall_forall _ _) Hes e He) as [Hc Hsig].
    pose proof (proj1 (Forall_forall _ _) Hsig b Hbin) as [H0 H1].
    exists e.1, (b_address b). split; [done|]. split; [done|]. split; [done|]. split; [done|].
    unfold eps_positions. apply list_elem_of_fmap. by exists e. }
  assert (Heps : forall p, p ∈ eps_positions es -> exists c, p = block_start sb c /\ c < nb).
  { unfold eps_positions. intros p (e & -> & He)%list_elem_of_fmap.
    pose proof (proj1 (Forall_forall _ _) Hes e He) as [Hc _]. by exists e.1. }
  destruct (getFirst_ok n total Ht) as (first & Ef & Hf). exists first.
  assert (Hlow : forall p, truth total p = DMCS_TRUE -> first <= p).
  { destruct Hf as [[-> _]|(_ & _ & Hb)]; [lia|]. intros p Hp.
    destruct (N.lt_ge_cases p first); [|done]. exfalso. by apply (Hb p); [lia|..]. }
  assert (Hfm : first mod (sb + 1) = 0 /\ first < n).
  { destruct Hf as [[-> _]|(_ & Hft & _)]; [split; [apply N.Div0.mod_0_l|nia]|].
    assert (Hfn : first < n).
    { destruct (N.lt_ge_cases first n); [done|]. rewrite (truth_beyond n) in Hft by done. done. }
    split; [|done]. pose proof Hft as Hft'. rewrite Htt in Hft'.
    destruct (decide (first ∈ eps_positions es \/ first ∈ belief_positions es)) as [[H|H]|]; [| |done].
    - apply Heps in H as (c & -> & _). apply block_start_mod.
    - apply Hbel in H as (c & a & -> & H0 & _ & _ & He). exfalso.
      assert (truth total (block_start sb c) = DMCS_TRUE) as Hc by (rewrite Htt, decide_True by tauto; done).
      apply Hlow in Hc. unfold gpos in Hc. lia. }
  split; [by split; [..|apply Hfm|apply Hfm]|].
  intros p. rewrite elem_of_digits, elem_of_trues, Htt. unfold digit. split.
  - intros [[Hp _] Hd]. destruct (decide (p ∈ eps_positions es \/ p ∈ belief_positions es)) as [[H|H]|];
      [|done|done]. apply Heps in H as (c & -> & _). by rewrite block_start_mod in Hd.
  - intros Hp. rewrite decide_True by tauto. apply Hbel in Hp as (c & a & -> & H0 & Ha & Hc & He).
    rewrite gpos_mod by done.
    assert (truth total (block_start sb c) = DMCS_TRUE) as Hct by (rewrite Htt, decide_True by tauto; done).
    apply Hlow in Hct. split; [|by destruct (N.eqb_spec a 0); [lia|]].
    split; [done|]. split; [unfold gpos; lia|by apply gpos_lt].
Qed.

End init.

Lemma bits2N_lt it : bits2N it < 2 ^ N.of_nat (length it).
Proof.
  induction it as [|d it IH]; [done|]. cbn [bits2N length].
  rewrite Nat2N.inj_succ, N.pow_succ_r'. destruct d; lia.
Qed.

Lemma val_bits g ps (f : N -> bool) :
  guess_wf g ps -> val g ps = bits2N (f <$> ps) ->
  forall p, p ∈ ps -> truth g p = if f p then DMCS_TRUE else DMCS_FALSE.
Proof.
  induction ps as [|a ps IH]; intros Hg E p; [by intros ?%not_elem_of_nil|].
  rewrite fmap_cons in E. cbn [val bits2N] in E. pose proof (Hg a ltac:(by left)) as Ha.
  assert (truth g a = (if f a then DMCS_TRUE else DMCS_FALSE) /\ val g ps = bits2N (f <$> ps)) as [E1 E2].
  { destruct (truth g a), (f a); try done;
      match type of E with context [decide ?P] => destruct (decide P) end; try done;
      (split; [done|lia]) || (exfalso; lia). }
  intros [->|Hp]%elem_of_cons; [done|]. apply IH; try done. intros q Hq. apply Hg. by right.
Qed.

(** ** Correctness *)

(** [next_guess] is the successor of a binary counter whose digits are
    the guessing positions, least significant first: it returns null exactly
    when every digit is 1, and otherwise a guess that stands for the next
    number and agrees with the old one everywhere else. *)
Theorem next_guess_correct o n gi first g :
  let s := size_belief_state o in
  let ds := digits n s gi first in
  guessing_wf n s gi first -> bs_wf n g -> guess_wf g ds ->
  if decide (val g ds + 1 = 2 ^ N.of_nat (length ds))
  then next_guess o g gi = Ok None
  else exists g', next_guess o g gi = Ok (Some g') /\ bs_wf n g' /\ guess_wf g' ds /\
    val g' ds = val g ds + 1 /\ forall q, q ∉ ds -> truth g' q = truth g q.
Proof. apply next_guess_ok. Qed.

(** C10.  [jump_guess] is a shortcut for [next_guess]: jumping to step [k]
    gives the very guess (or null) that [k] applications of [next_guess] to
    the starting guess give. *)
Theorem jump_guess_is_iterated_next o n gi first start k :
  let s := size_belief_state o in
  n = no_blocks o * (s + 1) ->
  guessing_wf n s gi first -> bs_wf n start ->
  (forall p, p ∈ digits n s gi first -> truth start p = DMCS_FALSE) ->
  jump_guess o start gi (N.of_nat k) = advance o gi k start.
Proof.
  intros s Hn Hgi Hstart Hfalse.
  pose proof (jump_guess_ok o n gi first start (N.of_nat k) Hn Hgi Hstart Hfalse) as Hj.
  pose proof (advance_ok o n gi first start k Hgi Hstart Hfalse) as Ha.
  cbv zeta in Hj, Ha. fold s in Hj, Ha. case_decide; [|by rewrite Hj, Ha].
  destruct Hj as (g & -> & Hg & Hgw & Hval & Hsame), Ha as (g' & -> & Hg' & Hgw' & Hval' & Hsame').
  do 2 f_equal. apply (bs_ext n); [done..|]. intros q.
  destruct (decide (q ∈ digits n s gi first)) as [Hq|Hq].
  - eapply (val_inj g g'); [done|done| |done]. congruence.
  - by rewrite Hsame, Hsame'.
Qed.

(** C9.  From the states that [CycleBreaker::init] prepares, the sequence of
    guesses visits every assignment of truth values to the input beliefs of
    the query plan, each exactly once, changes nothing else, and then ends
    with null after [2^m] guesses, [m] the number of input beliefs. *)
Theorem guesses_enumerate nb sb qp :
  0 < nb -> 0 < sb -> nb * (sb + 1) <= id_max -> Forall (entry_wf nb sb) (plan_entries qp) ->
  exists total start ds, breaker_init (layout nb sb) qp = Ok (total, start) /\
    NoDup ds /\ (forall p, p ∈ ds <-> p ∈ belief_positions sb (plan_entries qp)) /\
    (forall f : N -> bool, exists k g,
       advance (layout nb sb) total k start = Ok (Some g) /\
       forall p, truth g p = if decide (p ∈ ds) then (if f p then DMCS_TRUE else DMCS_FALSE)
                             else truth start p) /\
    (forall k k' g, advance (layout nb sb) total k start = Ok (Some g) ->
       advance (layout nb sb) total k' start = Ok (Some g) -> k = k') /\
    (forall k, advance (layout nb sb) total k start = Ok None <->
               2 ^ N.of_nat (length ds) <= N.of_nat k).
Proof.
  intros Hnb Hsb Hmax Hes.
  destruct (breaker_init_ok nb sb Hnb Hsb Hmax qp Hes) as (total & start & E & Hp).
  destruct (prepared_guessing nb sb Hnb Hsb Hmax _ _ _ Hes Hp) as (first & Hgi & Hds).
  exists total, start, (digits (nb * (sb + 1)) sb total first). split; [done|].
  split; [apply StronglySorted_lt_NoDup, digits_sorted|]. split; [done|].
  set (ds := digits (nb * (sb + 1)) sb total first) in *.
  assert (Hfalse : forall p, p ∈ ds -> truth start p = DMCS_FALSE).
  { intros p Hpd. rewrite (pr_start _ _ _ _ _ Hp), decide_True; [done|]. by apply Hds. }
  pose proof (fun k => advance_ok (layout nb sb) _ total first start k Hgi
    (pr_start_wf _ _ _ _ _ Hp) Hfalse) as Hadv. cbv zeta in Hadv.
  cbn [size_belief_state layout] in Hadv. fold ds in Hadv. split; [|split].
  - intros f. pose proof (bits2N_lt (f <$> ds)) as Hlt. rewrite length_fmap in Hlt.
    specialize (Hadv (N.to_nat (bits2N (f <$> ds)))). rewrite N2Nat.id, decide_True in Hadv by done.
    destruct Hadv as (g & Eg & Hg & Hgw & Hval & Hsame). eexists _, g. split; [done|].
    intros p. case_decide; [by eapply val_bits|by apply Hsame].
  - intros k k' g Ek Ek'. pose proof (Hadv k) as H1. pose proof (Hadv k') as H2.
    rewrite Ek in H1. rewrite Ek' in H2.
    case_decide; [|done]. case_decide; [|done].
    destruct H1 as (g1 & [= <-] & _ & _ & V1 & _), H2 as (g2 & [= <-] & _ & _ & V2 & _). lia.
  - intros k. specialize (Hadv k). case_decide as Hk.
    + destruct Hadv as (g & -> & _). split; [done|lia].
    + split; [lia|done].
Qed.

(** *** A plan with two input beliefs of context 1 *)
Definition sample_plan : queryplan_map :=
  [(1, Some [belief_new_at 1 1 "a"; belief_new_at 1 2 "b"]); (0, None)].

Lemma sample_plan_wf : Forall (entry_wf 2 2) (plan_entries sample_plan).
Proof.
  apply Forall_cons. split; [|apply Forall_nil_2]. split; [done|].
  repeat (apply Forall_cons; split; [done|]). apply Forall_nil_2.
Qed.

Definition sample_total : NewBeliefState := mk_bs (mk_bvector 6 56) (mk_bvector 6 56).
Definition sample_start : NewBeliefState := mk_bs (mk_bvector 6 56) (mk_bvector 6 8).

Example sample_init : breaker_init (layout 2 2) sample_plan = Ok (sample_total, sample_start).
Proof. vm_compute. reflexivity. Qed.

Lemma sample_guessing : guessing_wf 6 2 sample_total 3.
Proof. split; [by apply small_wf|done..]. Qed.

Lemma next_guess_correct_witness :
  exists g', next_guess (layout 2 2) sample_start sample_total = Ok (Some g') /\ bs_wf 6 g' /\
    guess_wf g' [4; 5] /\ val g' [4; 5] = 1 /\
    forall q, q ∉ [4; 5] -> truth g' q = truth sample_start q.
Proof.
  apply (next_guess_correct (layout 2 2) 6 sample_total 3 sample_start);
    [apply sample_guessing|by apply small_wf|].
  intros p Hp. change (p ∈ [4; 5]) in Hp.
  apply elem_of_cons in Hp as [->|Hp]; [done|]. by apply list_elem_of_singleton in Hp as ->.
Defined.

Lemma jump_guess_is_iterated_next_witness :
  jump_guess (layout 2 2) sample_start sample_total 3 = advance (layout 2 2) sample_total 3 sample_start.
Proof.
  apply (jump_guess_is_iterated_next (layout 2 2) 6 sample_total 3 sample_start 3);
    [done|apply sample_guessing|by apply small_wf|].
  intros p Hp. change (p ∈ [4; 5]) in Hp.
  apply elem_of_cons in Hp as [->|Hp]; [done|]. by apply list_elem_of_singleton in Hp as ->.
Defined.

Lemma guesses_enumerate_witness :
  exists total start ds, breaker_init (layout 2 2) sample_plan = Ok (total, start) /\
    NoDup ds /\ (forall p, p ∈ ds <-> p ∈ belief_positions 2 (plan_entries sample_plan)) /\
    (forall f : N -> bool, exists k g,
       advance (layout 2 2) total k start = Ok (Some g) /\
       forall p, truth g p = if decide (p ∈ ds) then (if f p then DMCS_TRUE else DMCS_FALSE)
                             else truth start p) /\
    (forall k k' g, advance (layout 2 2) total k start = Ok (Some g) ->
       advance (layout 2 2) total k' start = Ok (Some g) -> k = k') /\
    (forall k, advance (layout 2 2) total k start = Ok None <->
               2 ^ N.of_nat (length ds) <= N.of_nat k).
Proof. apply (guesses_enumerate 2 2 sample_plan); [done|done|done|apply sample_plan_wf]. Defined.

End Guessing.
