(* ===== verification/CachePosition.v ===== *)
(** * The cache of guessing steps

    [CachePosition] (include/mcs/CachePosition.h, src/mcs/CachePosition.cpp):
    [mark\[i\]] accumulates the numbers of models reported for the steps
    [1, ..., i + 1], and a binary search finds the step to resume from. *)

From S2P Require Import Prelude.

Module CachePosition.

Definition update_cache (mark : list N) (index k : N) : res (list N) :=
  if index <=? N.of_nat (length mark) then mret mark
  else
    _ ← assert (index =? N.of_nat (length mark) + 1);
    if index =? 1 then mret (mark ++ [k])
    else
      back ← vec_at mark (N.of_nat (length mark) - 1);
      mret (mark ++ [u64_add k back]).

(** The [while (beg+1 < end)] loop: [inl] the position returned from inside
    it, [inr] the value of [beg] when it ends. *)
Fixpoint search_loop (fuel : nat) (mark : list N) (k beg end_ : N) : res (N + N) :=
  match fuel with
  | O => Err OutOfFuel
  | S fuel =>
      if beg + 1 <? end_ then
        let mid := (beg + end_) / 2 in
        m ← vec_at mark mid;
        if m <? k then search_loop fuel mark k mid end_
        else if k <? m then search_loop fuel mark k beg mid
        else mret (inl mid)
      else mret (inr beg)
  end.

Definition find_position (mark : list N) (k : N) : res N :=
  match mark with
  | [] => mret 0
  | _ =>
      r ← search_loop (length mark) mark k 0 (N.of_nat (length mark));
      match r with
      | inl mid => mret mid
      | inr beg =>
          m ← vec_at mark beg;
          mret (if m =? k then beg else beg + 1)
      end
  end.

(** ** Invariant: the marks never decrease *)

Definition mark_sorted (mark : list N) : Prop :=
  forall i j a b, (i <= j)%nat -> mark !! i = Some a -> mark !! j = Some b -> a <= b.

Lemma mark_sorted_snoc mark m :
  mark_sorted mark -> (forall a, last mark = Some a -> a <= m) -> mark_sorted (mark ++ [m]).
Proof.
  intros Hs Hm i j a b Hij Ha Hb.
  destruct (decide (j < length mark)%nat) as [Hj|Hj].
  - rewrite lookup_app_l in Ha, Hb by lia. exact (Hs i j a b Hij Ha Hb).
  - apply lookup_snoc_Some in Hb as [[? _]|[-> <-]]; [lia|].
    apply lookup_snoc_Some in Ha as [[Hi Ha]|[_ <-]]; [|lia].
    destruct (last mark) as [l|] eqn:El.
    + specialize (Hm l eq_refl). rewrite last_lookup in El.
      pose proof (Hs i (pred (length mark)) a l ltac:(lia) Ha El). lia.
    + apply last_None in El. by subst.
Qed.

(** Where [k] falls among the marks. *)
Definition located (mark : list N) (k r : N) : Prop :=
  mark !! N.to_nat r = Some k \/
  (0 < r /\ r <= N.of_nat (length mark) /\
   (forall a, mark !! N.to_nat (r - 1) = Some a -> a < k \/ r = 1 /\ k < a) /\
   (forall b, mark !! N.to_nat r = Some b -> k < b)).

Lemma search_loop_ok mark k fuel beg end_ :
  mark_sorted mark -> beg < end_ -> end_ <= N.of_nat (length mark) ->
  (beg = 0 \/ exists a, mark !! N.to_nat beg = Some a /\ a < k) ->
  (forall b, mark !! N.to_nat end_ = Some b -> k < b) ->
  end_ - beg <= N.of_nat fuel ->
  (exists mid, search_loop fuel mark k beg end_ = Ok (inl mid) /\ mark !! N.to_nat mid = Some k) \/
  (exists beg', search_loop fuel mark k beg end_ = Ok (inr beg') /\
     beg' < N.of_nat (length mark) /\
     (beg' = 0 \/ exists a, mark !! N.to_nat beg' = Some a /\ a < k) /\
     forall b, mark !! N.to_nat (beg' + 1) = Some b -> k < b).
Proof.
  intros Hs. revert beg end_. induction fuel as [|fuel IH]; intros beg end_ Hlt Hlen Hbeg Hend Hf; [lia|].
  cbn [search_loop]. destruct (N.ltb_spec (beg + 1) end_) as [Hmore|Hdone].
  2: { right. exists beg. assert (end_ = beg + 1) as -> by lia. split; [done|]. split; [lia|]. done. }
  assert (Hmid : beg < (beg + end_) / 2 /\ (beg + end_) / 2 < end_).
  { split; [pose proof (N.div_le_lower_bound (beg + end_) 2 (beg + 1)); lia|].
    apply N.Div0.div_lt_upper_bound; lia. }
  generalize dependent ((beg + end_) / 2). intros mid Hmid.
  destruct (vec_at_lt mark mid) as (m & -> & Hm); [lia|]. rsimpl.
  destruct (N.ltb_spec m k) as [Hmk|Hmk].
  - apply IH; try done; [lia| |lia]. right. by exists m.
  - destruct (N.ltb_spec k m) as [Hkm|Hkm].
    + apply IH; try done; [lia|lia| |lia]. intros b Hb. assert (b = m) as -> by congruence. done.
    + left. exists mid. split; [done|]. rewrite Hm. f_equal. lia.
Qed.

(** ** Correctness *)

(** [update_cache] keeps the marks sorted and changes them only by
    appending; as long as the sum of the marks fits 64 bits, the entry
    appended for step [index] is the number of models of that step added to
    the previous mark. *)
Lemma update_cache_correct mark index k :
  mark_sorted mark -> (forall a, last mark = Some a -> k + a < W64) ->
  index <= N.of_nat (length mark) + 1 ->
  exists mark', update_cache mark index k = Ok mark' /\ mark_sorted mark' /\
    mark' = if index <=? N.of_nat (length mark) then mark
            else mark ++ [k + default 0 (last mark)].
Proof.
  intros Hs Hk Hi. unfold update_cache. destruct (N.leb_spec index (N.of_nat (length mark))).
  { by exists mark. }
  assert_true. destruct (N.eqb_spec index 1) as [->|Hne]; rsimpl.
  - assert (mark = []) as -> by (apply length_zero_iff_nil; lia).
    exists [k]. split; [done|]. split; [|cbn [last default app]; do 2 f_equal; lia].
    intros i j a b Hij Ha Hb. apply list_lookup_singleton_Some in Ha as [-> <-], Hb as [-> <-]. lia.
  - destruct (vec_at_lt mark (N.of_nat (length mark) - 1)) as (m & -> & Hm); [lia|]. rsimpl.
    assert (El : last mark = Some m) by (rewrite last_lookup, <- Hm; f_equal; lia).
    rewrite u64_add_small by (by apply Hk). eexists. split; [done|]. rewrite El. cbn.
    split; [|done]. apply mark_sorted_snoc; [done|]. intros a [= <-]%(eq_trans (eq_sym El)). lia.
Qed.

(** The binary search ends, stays inside the vector and finds the place
    of [k]: with no marks the answer is 0; otherwise it is the index of a mark
    equal to [k] if there is one on the search path, or the index [r] after
    the last mark below [k], with [k] below the mark at [r] if any.  For a [k]
    below every mark the answer is 1, not 0. *)
Theorem find_position_correct mark k :
  mark_sorted mark ->
  exists r, find_position mark k = Ok r /\ if decide (mark = []) then r = 0 else located mark k r.
Proof.
  intros Hs. unfold find_position. destruct mark as [|m0 mark'] eqn:Em; [by exists 0|].
  rewrite <- Em in *. assert (Hpos : 0 < N.of_nat (length mark)) by (subst; cbn; lia).
  enough (H : exists r, (x ← search_loop (length mark) mark k 0 (N.of_nat (length mark));
      match x with inl mid => mret mid | inr beg =>
        m ← vec_at mark beg; mret (if m =? k then beg else beg + 1) end) = Ok r /\ located mark k r).
  { destruct H as (r & -> & Hr). exists r. split; [done|]. by rewrite decide_False by (by subst). }
  destruct (search_loop_ok mark k (length mark) 0 (N.of_nat (length mark)))
    as [(mid & -> & Hmid)|(beg & -> & Hbeg & Hlow & Hup)]; try done; [by left| |lia|..].
  - intros b Hb. apply lookup_lt_Some in Hb. lia.
  - exists mid. split; [done|]. by left.
  - rsimpl. destruct (vec_at_lt mark beg) as (m & -> & Hm); [lia|]. rsimpl.
    destruct (N.eqb_spec m k) as [->|Hne]; eexists; (split; [done|]); [by left|].
    right. split; [lia|]. split; [lia|]. split; [|done]. intros a Ha.
    replace (beg + 1 - 1) with beg in Ha by lia. assert (a = m) as -> by congruence.
    destruct Hlow as [->|(a & Ha' & Hlt)]; [|left; congruence].
    destruct (N.lt_trichotomy m k) as [|[|]]; [by left|done|right; lia].
Qed.

Lemma sample_marks_sorted : mark_sorted [2; 2; 5; 9].
Proof.
  intros i j a b Hij Ha Hb.
  destruct i as [|[|[|[|i]]]], j as [|[|[|[|j]]]]; cbn in *; simplify_eq; lia.
Qed.

Lemma update_cache_correct_witness :
  exists mark', update_cache [2; 2; 5; 9] 5 4 = Ok mark' /\ mark_sorted mark' /\
    mark' = [2; 2; 5; 9; 13].
Proof.
  apply (update_cache_correct [2; 2; 5; 9] 5 4); [apply sample_marks_sorted| |cbn; lia].
  intros a [= <-]. reflexivity.
Defined.

Lemma find_position_correct_witness :
  exists r, find_position [2; 2; 5; 9] 6 = Ok r /\ located [2; 2; 5; 9] 6 r.
Proof. apply (find_position_correct [2; 2; 5; 9] 6), sample_marks_sorted. Defined.

Example find_position_below : find_position [2; 2; 5; 9] 1 = Ok 1.
Proof. reflexivity. Qed.

End CachePosition.
