(* ===== verification/Evaluator.v ===== *)
(** * The evaluator of a context: the reference

    For each set of heads an evaluator starts the answer-set solver on the
    local knowledge base extended with the heads, reads the models the solver
    prints and sends the consistent ones back, all of them or those numbered
    [k1] to [k2], followed by an end marker.  The program text and the test for
    cost lines are those of src/dmcs/DLVEvaluator.cpp.

    The evaluator of this file keeps belief states as values: every line is
    read into a state of its own by the parameter [parseString].  It is what
    contexts expect of an evaluator.  [DLVEvaluator] itself, with its parser
    and its pointers, is in [DlvResults], which says when it meets this
    reference.

    The solver is a separate program and a parameter: [dlv] gives the lines
    printed for a program text. *)

From S2P Require Import Prelude BitMagic BeliefState BeliefStateOffset Combination Ident Tables BridgeRules.
Import BitMagic BeliefState BeliefStateOffset Combination Ident Tables BridgeRules.

Module Evaluator.

(** An entry of [EVAL_OUT_MQ]: the heads solved for, and a model or null. *)
Definition HeadsBeliefStatePair : Type := Heads * option NewBeliefState.

Record evaluator := mk_eval {
  models_counter : N;
  eval_out : list HeadsBeliefStatePair;
}.

(** [Evaluator::Evaluator]: the counter starts at the maximum. *)
Definition eval_new : evaluator := mk_eval (W64 - 1) [].

(** [str.compare(0, 22, "Cost ([Weight:Level]):") == 0]. *)
Definition is_cost_line (line : string) : bool := String.prefix "Cost ([Weight:Level]):" line.

Definition newline : string := String.String (Ascii.ascii_of_nat 10) EmptyString.

Section solver.
Context (dlv : string -> list string) (parseString : string -> res NewBeliefState).
Context {T : Type} `{I : Indexed Belief belief_conflict (≡ₚ) T}.

(** ** The program given to the solver *)

(** The facts for the heads: one line per true position. *)
Fixpoint head_facts (ctx_id this_starting_offset : N) (btab : BeliefTable T) (poss : list N)
    (program : string) : res string :=
  match poss with
  | [] => mret program
  | pos :: poss =>
      let id := mk_ID (N.lor MAINKIND_BELIEF ctx_id)
                      (u64_sub pos this_starting_offset mod 2 ^ 32) in
      belief ← btab_getByID btab id;
      head_facts ctx_id this_starting_offset btab poss
        (program ++ b_text belief ++ "." ++ newline)%string
  end.

(** [reset_process]: the counter is reset and the program text written; the
    result is what the solver prints for it. *)
Definition reset_process (o : Offsets) (local_kb : string) (ctx_id : N) (hs : Heads)
    (btab : BeliefTable T) (ev : evaluator) : res (evaluator * list string) :=
  off ← vec_at (starting_offsets o) ctx_id;
  program ← match heads hs with
    | None => mret local_kb
    | Some head_input =>
        poss ← true_positions head_input;
        head_facts ctx_id off btab poss local_kb
    end;
  mret (mk_eval 0 (eval_out ev), dlv program).

(** ** Reading the models *)

Definition test_and_send (o : Offsets) (local_model : NewBeliefState)
    (input_bs : option NewBeliefState) (hs : Heads) (ctx_id : N) (ev : evaluator) : res evaluator :=
  inp ← not_null input_bs;
  c ← consistent_with local_model inp ctx_id (starting_offsets o);
  if negb c then mret ev
  else mret (mk_eval (models_counter ev + 1)
                     (eval_out ev ++ [(hs, Some (bs_or local_model inp))])).

(** The lines are what [std::getline] returns one after the other; after the
    last one it returns the empty string. *)
Fixpoint read_all (o : Offsets) (ctx_id : N) (hs : Heads) (lines : list string) (ev : evaluator)
    : res evaluator :=
  match lines with
  | [] => mret ev
  | str_input :: lines =>
      if bool_decide (str_input = ""%string) then mret ev
      else if is_cost_line str_input then read_all o ctx_id hs lines ev
      else
        local_model ← parseString str_input;
        ev ← test_and_send o local_model (input hs) hs ctx_id ev;
        read_all o ctx_id hs lines ev
  end.

(** The first loop of [read_until_k2]: skip models until [k1 - 1] consistent
    ones have been seen. *)
Fixpoint skip_until (o : Offsets) (ctx_id k1 : N) (hs : Heads) (lines : list string) (ev : evaluator)
    : res (evaluator * list string) :=
  if models_counter ev <? k1 - 1 then
    match lines with
    | [] => mret (ev, [])
    | str_input :: lines =>
        if bool_decide (str_input = ""%string) then mret (ev, lines)
        else if is_cost_line str_input then skip_until o ctx_id k1 hs lines ev
        else
          local_model ← parseString str_input;
          inp ← not_null (input hs);
          c ← consistent_with local_model inp ctx_id (starting_offsets o);
          skip_until o ctx_id k1 hs lines
            (if c : bool then mk_eval (models_counter ev + 1) (eval_out ev) else ev)
    end
  else mret (ev, lines).

(** The second loop: send models until [k2] have been counted. *)
Fixpoint send_until (o : Offsets) (ctx_id k2 : N) (hs : Heads) (lines : list string) (ev : evaluator)
    : res evaluator :=
  if models_counter ev <? k2 then
    match lines with
    | [] => mret ev
    | str_input :: lines =>
        if bool_decide (str_input = ""%string) then mret ev
        else if is_cost_line str_input then send_until o ctx_id k2 hs lines ev
        else
          local_model ← parseString str_input;
          ev ← test_and_send o local_model (input hs) hs ctx_id ev;
          send_until o ctx_id k2 hs lines ev
    end
  else mret ev.

Definition read_until_k2 (o : Offsets) (ctx_id k1 k2 : N) (hs : Heads) (lines : list string)
    (ev : evaluator) : res evaluator :=
  _ ← assert ((0 <? k1) && (k1 <=? k2));
  '(ev, lines) ← skip_until o ctx_id k1 hs lines ev;
  if models_counter ev <? k1 - 1 then mret ev
  else send_until o ctx_id k2 hs lines ev.

Definition solve (o : Offsets) (local_kb : string) (ctx_id : N) (hs : Heads)
    (btab : BeliefTable T) (ev : evaluator) : res evaluator :=
  '(ev, lines) ← reset_process o local_kb ctx_id hs btab ev;
  ev ← (if (k1 hs =? 0) && (k2 hs =? 0) then read_all o ctx_id hs lines ev
        else
          _ ← assert (k1 hs <=? k2 hs);
          read_until_k2 o ctx_id (k1 hs) (k2 hs) hs lines ev);
  mret (mk_eval (models_counter ev) (eval_out ev ++ [(hs, None)])).

(** [Evaluator::startup]: solve for every heads received, until null. *)
Fixpoint startup (o : Offsets) (local_kb : string) (ctx_id : N) (btab : BeliefTable T)
    (eval_in : list (option Heads)) (ev : evaluator) : res evaluator :=
  match eval_in with
  | [] => mret ev
  | Some hs :: eval_in =>
      ev ← solve o local_kb ctx_id hs btab ev;
      startup o local_kb ctx_id btab eval_in ev
  | None :: _ => mret ev
  end.

(** ** Specification

    What a line contributes: nothing, or the model joined with the input. *)
Definition line_model (o : Offsets) (ctx_id : N) (inp : NewBeliefState) (line : string)
    : res (option NewBeliefState) :=
  if is_cost_line line then mret None
  else
    m ← parseString line;
    c ← consistent_with m inp ctx_id (starting_offsets o);
    mret (if c : bool then Some (bs_or m inp) else None).

(** The solver's answer, up to the first empty line. *)
Fixpoint answer (lines : list string) : list string :=
  match lines with
  | [] => []
  | l :: lines => if bool_decide (l = ""%string) then [] else l :: answer lines
  end.

(** The consistent models of an answer, in the order printed; every line must
    be readable. *)
Fixpoint models (o : Offsets) (ctx_id : N) (inp : NewBeliefState) (lines : list string)
    : res (list NewBeliefState) :=
  match lines with
  | [] => mret []
  | l :: lines =>
      m ← line_model o ctx_id inp l;
      ms ← models o ctx_id inp lines;
      mret (match m with Some x => x :: ms | None => ms end)
  end.

Section reading.
Context (o : Offsets) (ctx_id : N) (hs : Heads) (inp : NewBeliefState).
Context (Hinp : input hs = Some inp).

Definition entries (ms : list NewBeliefState) : list HeadsBeliefStatePair :=
  (fun m => (hs, Some m)) <$> ms.

Lemma models_cons l lines ms :
  models o ctx_id inp (l :: lines) = Ok ms ->
  exists m ms', line_model o ctx_id inp l = Ok m /\ models o ctx_id inp lines = Ok ms' /\
    ms = match m with Some x => x :: ms' | None => ms' end.
Proof.
  cbn [models]. intros H. apply bind_ok in H as (m & Hm & H).
  apply bind_ok in H as (ms' & Hms & [= <-]). eauto.
Qed.

(** Reading one line that is not a cost line. *)
Lemma line_send l m ev :
  line_model o ctx_id inp l = Ok m -> is_cost_line l = false ->
  (local_model ← parseString l; test_and_send o local_model (input hs) hs ctx_id ev)
  = Ok (match m with
        | Some x => mk_eval (models_counter ev + 1) (eval_out ev ++ [(hs, Some x)])
        | None => ev
        end).
Proof.
  unfold line_model. intros H Hc. rewrite Hc in H.
  apply bind_ok in H as (lm & -> & H). apply bind_ok in H as (c & Hcons & [= <-]). rsimpl.
  unfold test_and_send. rewrite Hinp. change (not_null (Some inp)) with (Ok inp). rsimpl.
  rewrite Hcons. rsimpl. by destruct c.
Qed.

Lemma line_cost l m :
  line_model o ctx_id inp l = Ok m -> is_cost_line l = true -> m = None.
Proof. unfold line_model. intros H Hc. rewrite Hc in H. by injection H. Qed.

Lemma read_all_ok lines ms ev :
  models o ctx_id inp (answer lines) = Ok ms ->
  read_all o ctx_id hs lines ev =
    Ok (mk_eval (models_counter ev + N.of_nat (length ms)) (eval_out ev ++ entries ms)).
Proof.
  revert ms ev. induction lines as [|l lines IH]; intros ms ev H; cbn [read_all answer] in *.
  { injection H as <-. cbn. rewrite N.add_0_r, app_nil_r. by destruct ev. }
  destruct (bool_decide (l = ""%string)).
  { injection H as <-. cbn. rewrite N.add_0_r, app_nil_r. by destruct ev. }
  apply models_cons in H as (m & ms' & Hm & Hms & ->).
  destruct (is_cost_line l) eqn:Ec; [rewrite (line_cost l m Hm Ec); by apply IH|].
  pose proof (line_send l m ev Hm Ec) as Hsend.
  destruct (parseString l) as [lm|]; [|done]. rsimpl. cbn in Hsend. rewrite Hsend. rsimpl.
  rewrite (IH ms' _ Hms). destruct m as [x|]; cbn [models_counter eval_out length entries fmap list_fmap]; [|done].
  do 2 f_equal; [lia|]. by rewrite <- app_assoc.
Qed.

Lemma skip_until_ok k1 lines ms ev :
  0 < k1 -> models o ctx_id inp (answer lines) = Ok ms -> models_counter ev <= k1 - 1 ->
  let d := k1 - 1 - models_counter ev in
  exists lines', skip_until o ctx_id k1 hs lines ev =
      Ok (mk_eval (models_counter ev + N.min d (N.of_nat (length ms))) (eval_out ev), lines') /\
    (d <= N.of_nat (length ms) -> models o ctx_id inp (answer lines') = Ok (drop (N.to_nat d) ms)).
Proof.
  intros Hk. revert ms ev. induction lines as [|l lines IH]; intros ms ev H Hle d; cbn [skip_until answer] in *.
  { injection H as <-. destruct (N.ltb_spec (models_counter ev) (k1 - 1)); eexists;
      (split; [cbn; rewrite N.min_0_r, N.add_0_r; by destruct ev|]);
      intros _; cbn; by rewrite drop_nil. }
  destruct (N.ltb_spec (models_counter ev) (k1 - 1)) as [Hlt|Hge].
  2: { exists (l :: lines). assert (d = 0) as Ed by (unfold d; lia). rewrite Ed, N.min_0_l, N.add_0_r.
       split; [by destruct ev|]. intros _. cbn [answer]. by rewrite H. }
  destruct (bool_decide (l = ""%string)) eqn:El.
  { injection H as <-. eexists. split; [cbn; rewrite N.min_0_r, N.add_0_r; by destruct ev|].
    intros Hd. cbn in Hd. unfold d in Hd. lia. }
  apply models_cons in H as (m & ms' & Hm & Hms & ->).
  destruct (is_cost_line l) eqn:Ec; [rewrite (line_cost l m Hm Ec); by apply IH|].
  pose proof (Hm) as Hm'. unfold line_model in Hm'. rewrite Ec in Hm'.
  apply bind_ok in Hm' as (lm & -> & Hm'). apply bind_ok in Hm' as (c & Hcons & [= <-]). rsimpl.
  rewrite Hinp. change (not_null (Some inp)) with (Ok inp). rsimpl. rewrite Hcons. rsimpl.
  destruct c; [|by apply IH].
  destruct (IH ms' (mk_eval (models_counter ev + 1) (eval_out ev)) Hms) as (lines' & -> & Hrest);
    [cbn; lia|]. cbn [models_counter eval_out length] in *.
  exists lines'. split; [do 3 f_equal; unfold d; lia|]. intros Hd.
  rewrite Hrest by (unfold d in *; lia). f_equal. unfold d.
  replace (N.to_nat (k1 - 1 - models_counter ev)) with
    (S (N.to_nat (k1 - 1 - (models_counter ev + 1)))) by lia. done.
Qed.

Lemma send_until_ok k2 lines ms ev :
  models o ctx_id inp (answer lines) = Ok ms -> models_counter ev <= k2 ->
  let sent := take (N.to_nat (k2 - models_counter ev)) ms in
  send_until o ctx_id k2 hs lines ev =
    Ok (mk_eval (models_counter ev + N.of_nat (length sent)) (eval_out ev ++ entries sent)).
Proof.
  revert ms ev. induction lines as [|l lines IH]; intros ms ev H Hle sent; cbn [send_until answer] in *.
  { injection H as <-. unfold sent. rewrite take_nil. cbn. rewrite N.add_0_r, app_nil_r.
    destruct ev, (_ <? _); done. }
  destruct (N.ltb_spec (models_counter ev) k2) as [Hlt|Hge].
  2: { unfold sent. replace (k2 - models_counter ev) with 0 by lia. cbn.
       rewrite N.add_0_r, app_nil_r. by destruct ev. }
  destruct (bool_decide (l = ""%string)).
  { injection H as <-. unfold sent. rewrite take_nil. cbn. rewrite N.add_0_r, app_nil_r. by destruct ev. }
  apply models_cons in H as (m & ms' & Hm & Hms & ->).
  destruct (is_cost_line l) eqn:Ec; [unfold sent; rewrite (line_cost l m Hm Ec); by apply IH|].
  pose proof (line_send l m ev Hm Ec) as Hsend.
  destruct (parseString l) as [lm|]; [|done]. rsimpl. cbn in Hsend. rewrite Hsend. rsimpl.
  destruct m as [x|]; [|by apply IH].
  rewrite (IH ms' _ Hms) by (cbn; lia). cbn [models_counter eval_out]. unfold sent.
  replace (N.to_nat (k2 - models_counter ev)) with (S (N.to_nat (k2 - (models_counter ev + 1)))) by lia.
  cbn [take length entries fmap list_fmap]. do 2 f_equal; [lia|]. by rewrite <- app_assoc.
Qed.

(** The models numbered [k1] to [k2], counting from 1; all of them for 0, 0. *)
Definition slice {A} (k1 k2 : N) (l : list A) : list A :=
  if (k1 =? 0) && (k2 =? 0) then l
  else take (N.to_nat (k2 - (k1 - 1))) (drop (N.to_nat (k1 - 1)) l).

Lemma read_until_k2_ok k1 k2 lines ms ev :
  0 < k1 -> k1 <= k2 -> models o ctx_id inp (answer lines) = Ok ms -> models_counter ev = 0 ->
  read_until_k2 o ctx_id k1 k2 hs lines ev =
    Ok (mk_eval (N.min k2 (N.of_nat (length ms))) (eval_out ev ++ entries (slice k1 k2 ms))).
Proof.
  intros Hk1 Hk2 H H0. unfold read_until_k2, slice.
  assert (Has : (0 <? k1) && (k1 <=? k2) = true) by (apply andb_true_iff; rewrite N.ltb_lt, N.leb_le; lia).
  rewrite Has. change (assert true) with (Ok tt). rsimpl.
  destruct (N.eqb_spec k1 0); [lia|]. cbn [andb].
  destruct (skip_until_ok k1 lines ms ev Hk1 H) as (lines' & -> & Hrest); [lia|].
  rsimpl. cbn [models_counter]. rewrite H0, N.sub_0_r, N.add_0_l in *.
  destruct (N.ltb_spec (N.min (k1 - 1) (N.of_nat (length ms))) (k1 - 1)) as [Hlt|Hge].
  - rewrite drop_ge by lia. rewrite take_nil. cbn. rewrite app_nil_r. do 2 f_equal. lia.
  - rewrite (send_until_ok k2 lines' (drop (N.to_nat (k1 - 1)) ms)).
    + cbn [models_counter eval_out]. rewrite N.min_l by lia. do 2 f_equal.
      rewrite length_take, length_drop. lia.
    + apply Hrest. lia.
    + cbn [models_counter]. lia.
Qed.

End reading.

Lemma solve_ok o local_kb ctx_id hs inp btab ev ev0 lines ms :
  input hs = Some inp ->
  reset_process o local_kb ctx_id hs btab ev = Ok (ev0, lines) ->
  models o ctx_id inp (answer lines) = Ok ms ->
  (k1 hs = 0 /\ k2 hs = 0 \/ 0 < k1 hs /\ k1 hs <= k2 hs) ->
  solve o local_kb ctx_id hs btab ev =
    Ok (mk_eval (if (k1 hs =? 0) && (k2 hs =? 0) then N.of_nat (length ms)
                 else N.min (k2 hs) (N.of_nat (length ms)))
                (eval_out ev ++ entries hs (slice (k1 hs) (k2 hs) ms) ++ [(hs, None)])).
Proof.
  intros Hinp Hreset Hms Hk. unfold solve. rewrite Hreset. rsimpl.
  assert (Hev0 : models_counter ev0 = 0 /\ eval_out ev0 = eval_out ev).
  { unfold reset_process in Hreset. apply bind_ok in Hreset as (off & _ & Hreset).
    apply bind_ok in Hreset as (pr & _ & [= <- _]). done. }
  destruct Hev0 as [H0 Hout]. destruct Hk as [[-> ->]|[Hk1 Hk2]].
  - cbn [N.eqb andb slice]. rewrite (read_all_ok o ctx_id hs inp Hinp lines ms) by done. rsimpl.
    cbn [models_counter eval_out]. rewrite H0, Hout, <- app_assoc. done.
  - destruct (N.eqb_spec (k1 hs) 0); [lia|]. cbn [andb].
    rewrite (proj2 (N.leb_le _ _) Hk2). change (assert true) with (Ok tt). rsimpl.
    rewrite (read_until_k2_ok o ctx_id hs inp Hinp) with (ms := ms) by done. rsimpl.
    cbn [models_counter eval_out]. rewrite Hout, <- app_assoc. done.
Qed.

(** Given heads inferred from an input state, [solve] appends to the
    evaluator's output queue exactly the requested slice of the solver's
    consistent models, each joined with the input, in the solver's order:
    all of them for the range (0, 0), those numbered [k1] to [k2] otherwise;
    then one end marker.  The counter it leaves is the number of consistent
    models it has seen. *)
Lemma solve_sends_slice o local_kb ctx_id hs inp btab ev ev0 lines ms :
  input hs = Some inp ->
  reset_process o local_kb ctx_id hs btab ev = Ok (ev0, lines) ->
  models o ctx_id inp (answer lines) = Ok ms ->
  (k1 hs = 0 /\ k2 hs = 0 \/ 0 < k1 hs /\ k1 hs <= k2 hs) ->
  solve o local_kb ctx_id hs btab ev =
    Ok (mk_eval (if (k1 hs =? 0) && (k2 hs =? 0) then N.of_nat (length ms)
                 else N.min (k2 hs) (N.of_nat (length ms)))
                (eval_out ev ++ entries hs (slice (k1 hs) (k2 hs) ms) ++ [(hs, None)])).
Proof. apply solve_ok. Qed.

End solver.

(** *** A solver that prints three models and a cost line *)
Definition sample_dlv (program : string) : list string :=
  ["{a}"; "{b}"; "Cost ([Weight:Level]): <[1:1]>"; "{a, b}"; ""; "{}"]%string.

Definition sample_parse (line : string) : res NewBeliefState :=
  if bool_decide (line = "{a}"%string) then mret (mk_bs (mk_bvector 6 7) (mk_bvector 6 3))
  else if bool_decide (line = "{b}"%string) then mret (mk_bs (mk_bvector 6 7) (mk_bvector 6 5))
  else mret (mk_bs (mk_bvector 6 7) (mk_bvector 6 7)).

Definition sample_heads : Heads :=
  mk_heads (Some (mk_bs (mk_bvector 6 0) (mk_bvector 6 0))) 2 3 (Some sample_input).

(** Models 2 and 3, joined with the input that says belief 1 of context 1 is true. *)
Lemma solve_sends_slice_sample :
  solve (T := list Belief) sample_dlv sample_parse (layout 2 2) ""%string 0 sample_heads btab_new eval_new
  = Ok (mk_eval 3 [(sample_heads, Some (mk_bs (mk_bvector 6 31) (mk_bvector 6 29)));
                   (sample_heads, Some (mk_bs (mk_bvector 6 31) (mk_bvector 6 31)));
                   (sample_heads, None)]).
Proof.
  apply (solve_sends_slice sample_dlv sample_parse (T := list Belief) (layout 2 2) ""%string 0 sample_heads
    sample_input btab_new eval_new (mk_eval 0 []) (sample_dlv "")
    [mk_bs (mk_bvector 6 31) (mk_bvector 6 27); mk_bs (mk_bvector 6 31) (mk_bvector 6 29);
     mk_bs (mk_bvector 6 31) (mk_bvector 6 31)]).
  - reflexivity.
  - vm_compute. reflexivity.
  - vm_compute. reflexivity.
  - right. split; [reflexivity|discriminate].
Defined.

End Evaluator.
