(* ===== verification/Context.v ===== *)
(** * Contexts: from a request to the models sent back

    [NewContext] (src/mcs/NewContext.cpp), the request handling of
    [NormalContext] (src/mcs/NormalContext.cpp) and of [CycleBreaker]
    (src/mcs/CycleBreaker.cpp).  A context hands heads to its evaluator, reads
    the answers up to the end marker, projects them to the interface with the
    invoker and sends them out, going through the inputs and the guesses until
    the models numbered [k1] to [k2] have been sent.

    A context uses its evaluator only through the queue protocol that the
    class [Solves] states; the theorems are proved against it, and
    [dlv_solves] discharges it for the reference evaluator, and
    [DlvResults.single_model_solves] for [DLVEvaluator] on heads for which dlv
    prints at most one answer set. *)

From S2P Require Import Prelude BitMagic BeliefState BeliefStateOffset Combination QueryID Ident.
From S2P Require Import Tables BridgeRules Guessing CachePosition Evaluator.
Import BitMagic BeliefState BeliefStateOffset Combination Ident Tables BridgeRules Guessing
  CachePosition Evaluator.

Module Context.

(** ** What a context relies on

    [models_of heads input] is the list of models the evaluator finds for the
    heads, whatever range of them is asked for; [dom] are the heads it can be
    asked to solve. *)
Class Solves (dom : Heads -> Prop) (solve : Heads -> evaluator -> res evaluator)
    (models_of : option NewBeliefState -> option NewBeliefState -> list NewBeliefState) : Prop :=
  solves : forall hs ev, dom hs ->
    (k1 hs = 0 /\ k2 hs = 0 \/ 0 < k1 hs /\ k1 hs <= k2 hs) ->
    let ms := models_of (heads hs) (input hs) in
    solve hs ev =
      Ok (mk_eval (if (k1 hs =? 0) && (k2 hs =? 0) then N.of_nat (length ms)
                   else N.min (k2 hs) (N.of_nat (length ms)))
                  (eval_out ev ++ entries hs (slice (k1 hs) (k2 hs) ms) ++ [(hs, None)])).

(** The parts of a context that do not change while it runs. *)
Record setup := mk_setup {
  offsets : Offsets;
  bridge_rules : list BridgeRule;
  return_plan : list (N * NewBeliefState);
  guessing : option (NewBeliefState * NewBeliefState);  (* total_guessing_input, starting_guess *)
  guessing_neighbors : list N;
}.

(** The parts that do: the cache, the evaluator with its output queue, and the
    belief states sent to the output dispatcher. *)
Record ctx_state := mk_ctx {
  cache : list N;
  eval : evaluator;
  sent : list (option NewBeliefState * N);
}.

(** [return_plan->find(ctx)]. *)
Definition plan_lookup (rp : list (N * NewBeliefState)) (c : N) : option NewBeliefState :=
  snd <$> List.find (fun e => e.1 =? c) rp.

Section context.
Context (solve : Heads -> evaluator -> res evaluator) (su : setup).

(** ** Sending the models out *)

(** It never refuses a model: the conflict test is compiled out. *)
Definition send_out_result (parent_qid : N) (hs : Heads) (belief_state : NewBeliefState)
    (out : list (option NewBeliefState * N)) : res (list (option NewBeliefState * N) * bool) :=
  bs ← match heads hs with
       | Some _ =>
           match plan_lookup (return_plan su) (QueryID.invoker_from_qid parent_qid) with
           | None => Err AssertFailed
           | Some interface => mret (bs_and belief_state interface)
           end
       | None => mret belief_state
       end;
  mret (out ++ [(Some bs, parent_qid)], true).

(** Read the evaluator's queue up to the end marker.  The counts of models
    sent and of models in conflict. *)
Fixpoint read_loop (parent_qid : N) (queue : list HeadsBeliefStatePair)
    (out : list (option NewBeliefState * N)) (models_sent conflict_models : N)
    : res (list HeadsBeliefStatePair * list (option NewBeliefState * N) * N * N) :=
  match queue with
  | [] => Err (Thrown "blocked on EVAL_OUT_MQ")
  | (hs, None) :: queue => mret (queue, out, models_sent, conflict_models)
  | (hs, Some belief_state) :: queue =>
      '(out, ok) ← send_out_result parent_qid hs belief_state out;
      if ok : bool then read_loop parent_qid queue out (models_sent + 1) conflict_models
      else read_loop parent_qid queue out models_sent (conflict_models + 1)
  end.

Definition read_and_send (parent_qid : N) (st : ctx_state) : res (ctx_state * N * N) :=
  '(q, out, models_sent, conflict_models) ← read_loop parent_qid (eval_out (eval st)) (sent st) 0 0;
  mret (mk_ctx (cache st) (mk_eval (models_counter (eval st)) q) out, models_sent, conflict_models).

(** The result: the state, the range still to be served, and whether the
    whole range has been served. *)
Definition read_and_send_k1_k2 (parent_qid current_step k1 k2 : N) (st : ctx_state)
    : res (ctx_state * N * N * bool) :=
  '(st, models_sent, conflict_models) ← read_and_send parent_qid st;
  if (k1 =? 0) && (k2 =? 0) then mret (st, k1, k2, false)
  else
    let models_counter := models_counter (eval st) in
    _ ← assert (conflict_models <=? models_counter);
    let models_counter := u64_sub models_counter conflict_models in
    if models_sent =? 0 then
      _ ← assert (models_counter <? k1);
      let k2 := u64_sub k2 models_counter in
      let k1 := u64_sub k1 models_counter in
      mark ← (if 0 <? current_step then update_cache (cache st) current_step models_counter
              else mret (cache st));
      mret (mk_ctx mark (eval st) (sent st), k1, k2, false)
    else if models_sent <? u64_add (u64_sub k2 k1) 1 then
      mret (st, 1, u64_add (u64_sub (u64_sub k2 models_sent) k1) 1, false)
    else
      _ ← assert (models_sent =? u64_add (u64_sub k2 k1) 1);
      mret (st, k1, k2, true).

Definition compute (inp : NewBeliefState) (parent_qid current_step k1 k2 : N) (st : ctx_state)
    : res (ctx_state * N * N * bool) :=
  hs ← evaluate_bridge_rules (Some (offsets su)) (bridge_rules su) inp k1 k2
         (starting_offsets (offsets su));
  ev ← solve hs (eval st);
  read_and_send_k1_k2 parent_qid current_step k1 k2 (mk_ctx (cache st) ev (sent st)).

(** ** Going through the guesses *)

Fixpoint any_epsilon (inp : NewBeliefState) (neighbors : list N) : res bool :=
  match neighbors with
  | [] => mret false
  | nid :: neighbors =>
      e ← isEpsilon inp nid (starting_offsets (offsets su));
      if e : bool then mret true else any_epsilon inp neighbors
  end.

Definition must_guess (inp : NewBeliefState) : res bool :=
  match guessing su with
  | None => mret false
  | Some _ => any_epsilon inp (guessing_neighbors su)
  end.

(** The guess to start from, after looking the range up in the cache. *)
Definition first_guess (total start : NewBeliefState) (k1 : N) (st : ctx_state)
    : res (N * option NewBeliefState) :=
  current_step ← find_position (cache st) k1;
  if current_step =? 0 then
    g ← bs_blocks (no_blocks (offsets su)) (size_belief_state (offsets su)) false;
    g ← bs_assign g start;
    mret (current_step, Some g)
  else
    g ← jump_guess (offsets su) start total current_step;
    mret (current_step, g).

(** The [do ... while (current_guess)] loop of [process_input]. *)
Fixpoint guess_loop (fuel : nat) (total inp : NewBeliefState) (parent_qid : N)
    (current_guess : NewBeliefState) (current_step k1 k2 : N) (st : ctx_state)
    : res (ctx_state * N * N * bool) :=
  match fuel with
  | O => Err OutOfFuel
  | S fuel =>
      let combined_input := bs_or inp current_guess in
      '(st, k1, k2, done) ← compute combined_input parent_qid current_step k1 k2 st;
      if done : bool then mret (st, k1, k2, true)
      else
        g ← next_guess (offsets su) current_guess total;
        match g with
        | Some g => guess_loop fuel total inp parent_qid g (current_step + 1) k1 k2 st
        | None => mret (st, k1, k2, false)
        end
  end.

(** Enough turns for every guess: there are at most [scan_fuel total]
    guessing positions. *)
Definition guess_fuel (total : NewBeliefState) : nat := S (N.to_nat (2 ^ N.of_nat (scan_fuel total))).

Definition process_input (inp : NewBeliefState) (parent_qid k1 k2 : N) (st : ctx_state)
    : res (ctx_state * N * N * bool) :=
  g ← must_guess inp;
  match (if g : bool then guessing su else None) with
  | Some (total, start) =>
      '(current_step, current_guess) ← first_guess total start k1 st;
      current_guess ← not_null current_guess;
      guess_loop (guess_fuel total) total inp parent_qid current_guess current_step k1 k2 st
  | None => compute inp parent_qid 0 k1 k2 st
  end.

(** The reference loop of [process_request] over a given list of inputs, one after the other,
    until the range has been served; [ContextJoin] has the loop that pulls them from a joiner. *)
Fixpoint process_request (inputs : list NewBeliefState) (parent_qid k1 k2 : N) (st : ctx_state)
    : res ctx_state :=
  match inputs with
  | [] => mret st
  | inp :: inputs =>
      '(st, k1, k2, done) ← process_input inp parent_qid k1 k2 st;
      if done : bool then mret st else process_request inputs parent_qid k1 k2 st
  end.

Definition range_ok (k1 k2 : N) : bool :=
  ((k1 =? 0) && (k2 =? 0)) || ((0 <? k1) && (k1 <? u64_add k2 1)).

(** One request served by the reference loop, with the end marker. *)
Definition normal_request (inputs : list NewBeliefState) (parent_qid k1 k2 : N) (st : ctx_state)
    : res ctx_state :=
  _ ← assert (range_ok k1 k2);
  st ← process_request inputs parent_qid k1 k2 st;
  mret (mk_ctx (cache st) (eval st) (sent st ++ [(None, parent_qid)])).

(** The [while (current_guess)] loop of [CycleBreaker::startup]. *)
Fixpoint breaker_loop (fuel : nat) (total : NewBeliefState) (parent_qid : N)
    (current_guess : option NewBeliefState) (current_step k1 k2 : N) (st : ctx_state)
    : res ctx_state :=
  match current_guess with
  | None => mret st
  | Some g =>
      match fuel with
      | O => Err OutOfFuel
      | S fuel =>
          '(st, k1, k2, done) ← compute g parent_qid current_step k1 k2 st;
          if done : bool then mret st
          else
            g ← next_guess (offsets su) g total;
            breaker_loop fuel total parent_qid g (current_step + 1) k1 k2 st
      end
  end.

(** One request in [CycleBreaker::startup], with the end marker. *)
Definition breaker_request (parent_qid k1 k2 : N) (st : ctx_state) : res ctx_state :=
  _ ← assert (range_ok k1 k2);
  match guessing su with
  | None => Err NullPointer
  | Some (total, start) =>
      '(current_step, g) ← first_guess total start k1 st;
      st ← breaker_loop (guess_fuel total) total parent_qid g current_step k1 k2 st;
      mret (mk_ctx (cache st) (eval st) (sent st ++ [(None, parent_qid)]))
  end.

End context.

#[global] Arguments compute : simpl never.
#[global] Arguments read_and_send_k1_k2 : simpl never.
#[global] Arguments process_input : simpl never.

(** ** Slices of a stream of models *)

Lemma slice_all {A} (l : list A) : slice 0 0 l = l.
Proof. done. Qed.

Lemma slice_nil {A} k1 k2 : slice k1 k2 (@nil A) = [].
Proof. unfold slice. rewrite drop_nil, take_nil. by destruct (_ && _). Qed.

(** The part of the range that is left after the models of [l]. *)
Lemma slice_app {A} k1 k2 (l rest : list A) :
  0 < k1 -> k1 <= k2 -> N.of_nat (length l) < k2 ->
  slice k1 k2 (l ++ rest) = slice k1 k2 l ++
    slice (N.max 1 (k1 - N.of_nat (length l))) (k2 - N.of_nat (length l)) rest.
Proof.
  intros H1 H2 Hl. unfold slice. destruct (N.eqb_spec k1 0); [lia|].
  destruct (N.eqb_spec (N.max 1 (k1 - N.of_nat (length l))) 0); [lia|]. cbn [andb].
  rewrite drop_app, take_app, length_drop. f_equal. f_equal; [lia|]. f_equal. lia.
Qed.

Lemma slice_app_full {A} k1 k2 (l rest : list A) :
  0 < k1 -> k1 <= k2 -> k2 <= N.of_nat (length l) -> slice k1 k2 (l ++ rest) = slice k1 k2 l.
Proof.
  intros H1 H2 Hl. unfold slice. destruct (N.eqb_spec k1 0); [lia|]. cbn [andb].
  rewrite drop_app, take_app, length_drop.
  replace (N.to_nat (k2 - (k1 - 1)) - (length l - N.to_nat (k1 - 1)))%nat with 0%nat by lia.
  cbn [take]. by rewrite app_nil_r.
Qed.

Lemma length_slice {A} k1 k2 (l : list A) :
  0 < k1 -> k1 <= k2 ->
  N.of_nat (length (slice k1 k2 l)) = N.min k2 (N.of_nat (length l)) - (k1 - 1).
Proof.
  intros H1 H2. unfold slice. destruct (N.eqb_spec k1 0); [lia|]. cbn [andb].
  rewrite length_take, length_drop. lia.
Qed.

(** *** 64-bit arithmetic on the range *)

Lemma u64_range k1 k2 : 0 < k1 -> k1 <= k2 -> k2 < W64 -> u64_add (u64_sub k2 k1) 1 = k2 - k1 + 1.
Proof. intros. rewrite u64_sub_small, u64_add_small by lia. done. Qed.

(** The intermediate difference may wrap; the final sum is right. *)
Lemma u64_rest k1 k2 m :
  0 < k1 -> k1 <= k2 -> k2 < W64 -> m < k2 - k1 + 1 ->
  u64_add (u64_sub (u64_sub k2 m) k1) 1 = k2 - k1 + 1 - m.
Proof.
  intros H1 H2 H3 Hm. rewrite (u64_sub_small k2 m) by lia. unfold u64_add, u64_sub.
  rewrite N.Div0.add_mod_idemp_l.
  replace (k2 - m + (W64 - k1) + 1) with (k2 - k1 + 1 - m + 1 * W64) by lia.
  rewrite N.Div0.mod_add. apply N.mod_small. lia.
Qed.

(** ** Serving a request without guessing *)

Section serving.
Context (dom : Heads -> Prop) (solve : Heads -> evaluator -> res evaluator).
Context (models_of : option NewBeliefState -> option NewBeliefState -> list NewBeliefState).
Context `{Hsolve : !Solves dom solve models_of}.
Context (nb sb : N) (Hnb : 0 < nb) (Hsb : 0 < sb) (Hmax : nb * (sb + 1) <= id_max).
Local Abbreviation n := (nb * (sb + 1)).
Context (su : setup) (Hoff : offsets su = layout nb sb).
Context (Hrules : Forall (rule_wf nb sb) (bridge_rules su)).
Context (parent_qid : N) (interface : NewBeliefState).
Context (Hplan : plan_lookup (return_plan su) (QueryID.invoker_from_qid parent_qid) = Some interface).

(** What the invoker gets to see of a model. *)
Definition answer_for (m : NewBeliefState) : option NewBeliefState * N :=
  (Some (bs_and m interface), parent_qid).

(** The heads derived from an input and the models for them. *)
Definition heads_for (inp : NewBeliefState) : option NewBeliefState :=
  match evaluate_bridge_rules (Some (offsets su)) (bridge_rules su) inp 0 0
          (starting_offsets (offsets su)) with
  | Ok hs => heads hs
  | Err _ => None
  end.

Definition input_models (inp : NewBeliefState) : list NewBeliefState :=
  models_of (heads_for inp) (Some inp).

Lemma heads_for_ok inp k1 k2 :
  bs_wf n inp -> exists h, heads_for inp = Some h /\
    evaluate_bridge_rules (Some (offsets su)) (bridge_rules su) inp k1 k2
      (starting_offsets (offsets su)) = Ok (mk_heads (Some h) k1 k2 (Some inp)).
Proof.
  intros Hinp. unfold heads_for. rewrite Hoff.
  destruct (evaluate_bridge_rules_ok nb sb inp (bridge_rules su) 0 0 Hnb Hsb Hmax Hinp Hrules)
    as (h & _ & _ & E).
  unfold evaluate_bridge_rules in *. apply bind_ok in E as (o & Eo & E). rewrite Eo. rsimpl.
  apply bind_ok in E as (h0 & Eh0 & E). rewrite Eh0. rsimpl.
  apply bind_ok in E as (h' & Eh & E). rewrite Eh. rsimpl. injection E as <-. by exists h'.
Qed.

Context (Hdom : forall inp h k1 k2, bs_wf n inp -> heads_for inp = Some h ->
  dom (mk_heads (Some h) k1 k2 (Some inp))).

Lemma read_loop_ok hs h ms rest out a c :
  heads hs = Some h ->
  read_loop su parent_qid (entries hs ms ++ (hs, None) :: rest) out a c =
    Ok (rest, out ++ (answer_for <$> ms), a + N.of_nat (length ms), c).
Proof.
  intros Hh. revert out a. induction ms as [|m ms IH]; intros out a; cbn [entries fmap list_fmap app read_loop].
  - cbn. by rewrite app_nil_r, N.add_0_r.
  - unfold send_out_result. rewrite Hh, Hplan. rsimpl. rewrite IH, <- app_assoc.
    cbn [length]. do 3 f_equal. lia.
Qed.

(** One input.  The evaluator's queue is empty before and after. *)
Lemma compute_all inp st :
  bs_wf n inp -> eval_out (eval st) = [] ->
  exists mc, compute solve su inp parent_qid 0 0 0 st =
    Ok (mk_ctx (cache st) (mk_eval mc []) (sent st ++ (answer_for <$> input_models inp)), 0, 0, false).
Proof.
  intros Hinp Hq. unfold compute, input_models.
  destruct (heads_for_ok inp 0 0 Hinp) as (h & Eh & ->). rsimpl.
  rewrite solves; [|by apply Hdom|by left]. rewrite Eh. rewrite Hq. rsimpl. cbn [k1 k2 heads input N.eqb andb app].
  unfold read_and_send_k1_k2, read_and_send. cbn [eval eval_out sent cache].
  rewrite slice_all, (read_loop_ok _ h) by done. rsimpl. by eexists.
Qed.

Lemma compute_range inp k1 k2 st :
  bs_wf n inp -> eval_out (eval st) = [] -> 0 < k1 -> k1 <= k2 -> k2 < W64 ->
  let ms := input_models inp in
  let l := N.of_nat (length ms) in
  exists mc, compute solve su inp parent_qid 0 k1 k2 st =
    Ok (mk_ctx (cache st) (mk_eval mc []) (sent st ++ (answer_for <$> slice k1 k2 ms)),
        if k2 <=? l then k1 else N.max 1 (k1 - l), if k2 <=? l then k2 else k2 - l, k2 <=? l).
Proof.
  intros Hinp Hq H1 H2 H3. unfold compute, input_models.
  destruct (heads_for_ok inp k1 k2 Hinp) as (h & Eh & ->). rewrite Eh. rsimpl.
  set (l := N.of_nat (length (models_of (Some h) (Some inp)))). cbn zeta.
  rewrite solves; [|by apply Hdom|by right]. rewrite Hq. rsimpl. cbn [BridgeRules.k1 BridgeRules.k2 heads input app].
  destruct (N.eqb_spec k1 0); [lia|]. cbn [andb].
  unfold read_and_send_k1_k2, read_and_send. cbn [eval eval_out sent cache models_counter].
  rewrite (read_loop_ok _ h) by done. rsimpl.
  destruct (N.eqb_spec k1 0); [lia|]. cbn [andb eval models_counter].
  rewrite N.add_0_l, length_slice by done. rewrite u64_range by done. fold l.
  rewrite (proj2 (N.leb_le 0 _)) by lia. change (assert true) with (Ok tt). rsimpl.
  eexists (N.min k2 l). rewrite (u64_sub_small (N.min k2 l) 0), N.sub_0_r by lia.
  destruct (N.leb_spec k2 l) as [Hfull|Hpart].
  - rewrite N.min_l by lia. destruct (N.eqb_spec (k2 - (k1 - 1)) 0); [lia|].
    destruct (N.ltb_spec (k2 - (k1 - 1)) (k2 - k1 + 1)); [lia|].
    replace (k2 - (k1 - 1) =? k2 - k1 + 1) with true by (symmetry; apply N.eqb_eq; lia). done.
  - rewrite N.min_r by lia. destruct (N.eqb_spec (l - (k1 - 1)) 0) as [Hnone|Hsome].
    + replace (l <? k1) with true by (symmetry; apply N.ltb_lt; lia).
      change (assert true) with (Ok tt). rsimpl. change (0 <? 0) with false. rsimpl.
      rewrite !u64_sub_small by lia. replace (N.max 1 (k1 - l)) with (k1 - l) by lia. done.
    + destruct (N.ltb_spec (l - (k1 - 1)) (k2 - k1 + 1)); [|lia].
      rewrite u64_rest by lia. rsimpl. replace (N.max 1 (k1 - l)) with 1 by lia.
      replace (k2 - k1 + 1 - (l - (k1 - 1))) with (k2 - l) by lia. done.
Qed.

(** A stream of inputs, none of which needs guessing. *)
Lemma process_request_ok inputs k1 k2 st :
  guessing su = None -> Forall (bs_wf n) inputs -> eval_out (eval st) = [] ->
  (k1 = 0 /\ k2 = 0 \/ 0 < k1 /\ k1 <= k2) -> k2 < W64 ->
  exists st', process_request solve su inputs parent_qid k1 k2 st = Ok st' /\
    cache st' = cache st /\ eval_out (eval st') = [] /\
    sent st' = sent st ++ (answer_for <$> slice k1 k2 (inputs ≫= input_models)).
Proof.
  intros Hg Hin. revert k1 k2 st. induction Hin as [|inp inputs Hinp Hin IH]; intros k1 k2 st Hq Hk HW.
  { exists st. split; [done|]. split; [done|]. split; [done|].
    change ([] ≫= input_models) with (@nil NewBeliefState). rewrite slice_nil. cbn.
    by rewrite app_nil_r. }
  cbn [process_request]. unfold process_input, must_guess. rewrite Hg. rsimpl.
  rewrite bind_cons. destruct Hk as [[-> ->]|[H1 H2]].
  - destruct (compute_all inp st Hinp Hq) as (mc & ->). rsimpl.
    destruct (IH 0 0 (mk_ctx (cache st) (mk_eval mc []) (sent st ++ (answer_for <$> input_models inp))))
      as (st' & -> & Hc & Hq' & Hs); [done|by left|done|].
    exists st'. split; [done|]. split; [done|]. split; [done|].
    rewrite Hs. cbn [sent]. rewrite !slice_all, fmap_app, <- app_assoc. done.
  - destruct (compute_range inp k1 k2 st Hinp Hq H1 H2 HW) as (mc & ->). rsimpl.
    destruct (N.leb_spec k2 (N.of_nat (length (input_models inp)))) as [Hfull|Hpart].
    + eexists. split; [done|]. split; [done|]. split; [done|]. cbn [sent].
      by rewrite slice_app_full.
    + match goal with |- context [process_request _ _ _ _ ?a ?b ?c] =>
        destruct (IH a b c) as (st' & -> & Hc & Hq' & Hs); [done|right; lia|lia|] end.
      exists st'. split; [done|]. split; [done|]. split; [done|].
      rewrite Hs. cbn [sent]. rewrite slice_app, fmap_app, <- app_assoc by done. done.
Qed.

(** *** All models of all guesses *)

Section all_guesses.
Context (total start : NewBeliefState) (first : N).
Local Abbreviation ds := (digits n sb total first).
Context (Hgi : guessing_wf n sb total first) (Hstart : bs_wf n start).
Context (Hfalse : forall p, p ∈ ds -> truth start p = DMCS_FALSE).

(** The [k]-th guess. *)
Definition guess_at (k : nat) : NewBeliefState :=
  match advance (layout nb sb) total k start with Ok (Some g) => g | _ => start end.

Lemma guess_at_ok k :
  if decide (N.of_nat k < 2 ^ N.of_nat (length ds))
  then advance (layout nb sb) total k start = Ok (Some (guess_at k)) /\ bs_wf n (guess_at k)
  else advance (layout nb sb) total k start = Ok None.
Proof.
  pose proof (advance_ok (layout nb sb) n total first start k Hgi Hstart Hfalse) as H.
  cbv zeta in H. cbn [size_belief_state layout] in H. case_decide; [|done].
  destruct H as (g & E & Hg & _). unfold guess_at. by rewrite E.
Qed.

Lemma breaker_loop_all fuel k st :
  N.of_nat k < 2 ^ N.of_nat (length ds) -> eval_out (eval st) = [] ->
  (N.to_nat (2 ^ N.of_nat (length ds)) - k <= fuel)%nat ->
  exists st', breaker_loop solve su fuel total parent_qid (Some (guess_at k)) (N.of_nat k) 0 0 st = Ok st' /\
    cache st' = cache st /\ eval_out (eval st') = [] /\
    sent st' = sent st ++ (answer_for <$>
      (seq k (N.to_nat (2 ^ N.of_nat (length ds)) - k) ≫= (fun i => input_models (guess_at i)))).
Proof.
  revert k st. induction fuel as [|fuel IH]; intros k st Hk Hq Hf; [lia|].
  pose proof (guess_at_ok k) as Hgk. rewrite decide_True in Hgk by done. destruct Hgk as [Ek Hgk].
  pose proof (guess_at_ok (S k)) as Hgs.
  assert (Es : advance (layout nb sb) total (S k) start = next_guess (layout nb sb) (guess_at k) total).
  { cbn [advance]. rewrite Ek. done. }
  assert (Hcomp : exists mc, compute solve su (guess_at k) parent_qid (N.of_nat k) 0 0 st =
    Ok (mk_ctx (cache st) (mk_eval mc []) (sent st ++ (answer_for <$> input_models (guess_at k))), 0, 0, false)).
  { destruct (compute_all (guess_at k) st Hgk Hq) as (mc & E). exists mc. rewrite <- E. done. }
  destruct Hcomp as (mc & Ec). cbn [breaker_loop]. rewrite Ec. rsimpl.
  rewrite Hoff, <- Es.
  replace (N.to_nat (2 ^ N.of_nat (length ds)) - k)%nat
    with (S (N.to_nat (2 ^ N.of_nat (length ds)) - S k)) by lia.
  cbn [seq]. rewrite bind_cons, fmap_app.
  destruct (decide (N.of_nat (S k) < 2 ^ N.of_nat (length ds))) as [Hlt|Hge].
  - destruct Hgs as [-> _]. rsimpl. replace (N.of_nat k + 1) with (N.of_nat (S k)) by lia.
    destruct (IH (S k) (mk_ctx (cache st) (mk_eval mc []) (sent st ++ (answer_for <$> input_models (guess_at k)))))
      as (st' & -> & Hc & Hq' & Hs); [done|done|lia|].
    exists st'. split; [done|]. split; [done|]. split; [done|]. rewrite Hs. cbn [sent].
    by rewrite <- app_assoc.
  - rewrite Hgs. rsimpl.
    replace (N.to_nat (2 ^ N.of_nat (length ds)) - S k)%nat with 0%nat by lia. cbn.
    destruct fuel; eexists; (split; [done|]); (split; [done|]); (split; [done|]); cbn [sent];
      by rewrite app_nil_r.
Qed.

(** A cycle breaker asked for all models, with an empty cache, sends the
    projections of all models of all guesses, guess after guess in the order
    of the binary counter, and then the end marker. *)
Lemma breaker_request_all st :
  guessing su = Some (total, start) -> cache st = [] -> eval_out (eval st) = [] ->
  exists st', breaker_request solve su parent_qid 0 0 st = Ok st' /\ eval_out (eval st') = [] /\
    cache st' = [] /\
    sent st' = sent st ++ (answer_for <$>
      (seq 0 (N.to_nat (2 ^ N.of_nat (length ds))) ≫= (fun i => input_models (guess_at i))))
      ++ [(None, parent_qid)].
Proof.
  intros Hg Hc Hq. unfold breaker_request. change (assert (range_ok 0 0)) with (Ok tt). rsimpl.
  rewrite Hg. unfold first_guess. rewrite Hc. cbn [find_position]. rsimpl. cbn [N.eqb].
  rewrite Hoff. cbn [no_blocks size_belief_state layout].
  destruct (bs_wf_blocks nb sb Hmax) as (b0 & -> & _). rsimpl. unfold bs_assign.
  rewrite (wf_status_size _ _ Hstart), (wf_value_size _ _ Hstart). assert_true.
  rewrite !assign_eq. replace (mk_bs _ _) with start by (by destruct start).
  destruct (breaker_loop_all (guess_fuel total) 0 st) as (st' & E & Hc' & Hq' & Hs); [|done| |].
  - cbn. apply N.neq_0_lt_0, N.pow_nonzero. lia.
  - unfold guess_fuel. rewrite Nat.sub_0_r.
    assert (2 ^ N.of_nat (length ds) <= 2 ^ N.of_nat (scan_fuel total)); [|lia].
    apply N.pow_le_mono_r; [lia|]. pose proof (trues_length n total (first + 1)).
    assert (length ds <= length (trues n total (first + 1)))%nat; [|lia].
    unfold digits. apply length_filter.
  - change (guess_at 0) with start in E. change (N.of_nat 0) with 0 in E. rewrite E. rsimpl.
    eexists. split; [done|]. cbn [eval cache sent]. split; [done|]. split; [congruence|].
    rewrite Hs, Nat.sub_0_r, <- app_assoc. done.
Qed.

End all_guesses.

(** A request for the models [k1] to [k2] of a context that does not
    have to guess is answered with exactly those: the slice of the models of
    all inputs, taken in the order the joiner delivers the inputs and the
    solver prints the models, each projected to the interface with the
    invoker, followed by one end marker; (0, 0) stands for all models.  The
    evaluator's queue is left empty. *)
Theorem request_serves_slice inputs k1 k2 st :
  guessing su = None -> Forall (bs_wf n) inputs -> eval_out (eval st) = [] ->
  (k1 = 0 /\ k2 = 0 \/ 0 < k1 /\ k1 <= k2) -> k2 + 1 < W64 ->
  exists st', normal_request solve su inputs parent_qid k1 k2 st = Ok st' /\
    sent st' = sent st ++ (answer_for <$> slice k1 k2 (inputs ≫= input_models)) ++ [(None, parent_qid)] /\
    cache st' = cache st /\ eval_out (eval st') = [].
Proof.
  intros Hg Hin Hq Hk HW. unfold normal_request.
  assert (Hr : range_ok k1 k2 = true).
  { unfold range_ok. rewrite u64_add_small by lia. apply orb_true_iff.
    rewrite !andb_true_iff, !N.eqb_eq, !N.ltb_lt. destruct Hk as [Hk|Hk]; [by left|right; lia]. }
  rewrite Hr. change (assert true) with (Ok tt). rsimpl.
  destruct (process_request_ok inputs k1 k2 st Hg Hin Hq Hk ltac:(lia)) as (st' & -> & Hc & Hq' & Hs).
  rsimpl. eexists. split; [done|]. cbn [sent cache eval]. rewrite Hs, <- app_assoc. done.
Qed.

End serving.

(** ** The reference evaluator satisfies the interface *)

Section dlv.
Context (dlv : string -> list string) (parseString : string -> res NewBeliefState).
Context {T : Type} `{I : Indexed Belief belief_conflict (≡ₚ) T}.
Context (o : Offsets) (local_kb : string) (ctx_id : N) (btab : BeliefTable T).

(** What the solver prints for the heads. *)
Definition printed (h : option NewBeliefState) : res (list string) :=
  snd <$> reset_process dlv o local_kb ctx_id (mk_heads h 0 0 None) btab eval_new.

Definition dlv_models (h inp : option NewBeliefState) : list NewBeliefState :=
  match inp, printed h with
  | Some i, Ok lines =>
      match models parseString o ctx_id i (answer lines) with Ok ms => ms | Err _ => [] end
  | _, _ => []
  end.

(** Heads whose beliefs are known and whose models can be read. *)
Definition dlv_dom (hs : Heads) : Prop :=
  exists inp lines ms, input hs = Some inp /\ printed (heads hs) = Ok lines /\
    models parseString o ctx_id inp (answer lines) = Ok ms.

Lemma dlv_solves :
  Solves dlv_dom (fun hs ev => solve dlv parseString o local_kb ctx_id hs btab ev) dlv_models.
Proof.
  intros hs ev (inp & lines & ms & Hinp & Hpr & Hms) Hk. cbv zeta.
  assert (Hreset : reset_process dlv o local_kb ctx_id hs btab ev = Ok (mk_eval 0 (eval_out ev), lines)).
  { unfold printed, reset_process in Hpr |- *. cbn [heads] in Hpr.
    destruct (vec_at _ _); [|done]. cbn in Hpr |- *.
    destruct (match heads hs with Some _ => _ | None => _ end); [|done]. cbn in *. injection Hpr as <-. done. }
  rewrite (solve_ok dlv parseString o local_kb ctx_id hs inp btab ev _ lines ms Hinp Hreset Hms Hk).
  unfold dlv_models. rewrite Hinp, Hpr, Hms. done.
Qed.
End dlv.

(** ** Concrete runs *)

(** A reference evaluator: the interface read as a program. *)
Definition ref_solve (models_of : option NewBeliefState -> option NewBeliefState -> list NewBeliefState)
    (hs : Heads) (ev : evaluator) : res evaluator :=
  let ms := models_of (heads hs) (input hs) in
  mret (mk_eval (if (k1 hs =? 0) && (k2 hs =? 0) then N.of_nat (length ms)
                 else N.min (k2 hs) (N.of_nat (length ms)))
                (eval_out ev ++ entries hs (slice (k1 hs) (k2 hs) ms) ++ [(hs, None)])).

#[export] Instance ref_solves models_of : Solves (fun _ => True) (ref_solve models_of) models_of.
Proof. intros hs ev _ _. done. Qed.

Definition everything : NewBeliefState := mk_bs (mk_bvector 6 63) (mk_bvector 6 63).

Definition sample_models (h inp : option NewBeliefState) : list NewBeliefState :=
  match inp with Some i => [i; left2] | None => [] end.

Definition sample_qid : N := QueryID.query_id2 0 1.

Definition sample_setup : setup :=
  mk_setup (layout 2 2) [sample_rule2] [(0, everything)] None [].

Lemma sample_rule2_wf : Forall (rule_wf 2 2) [sample_rule2].
Proof.
  assert (Hl : forall l, bool_decide (isBelief l = true /\ lit_ctx l < 2 /\ address l <= 2) = true ->
    literal_wf 2 2 l) by (intros l Hl; by apply bool_decide_eq_true in Hl).
  apply Forall_singleton. split; [apply Hl; vm_compute; reflexivity|].
  apply Forall_cons. split; [apply Hl; vm_compute; reflexivity|].
  apply Forall_cons. split; [apply Hl; vm_compute; reflexivity|]. by apply Forall_nil.
Qed.

(** The second to the third of four models, from two inputs. *)
Lemma request_serves_slice_witness :
  exists st', normal_request (ref_solve sample_models) sample_setup [sample_input; right2] sample_qid 2 3
      (mk_ctx [] eval_new []) = Ok st' /\
    sent st' = [(Some left2, sample_qid); (Some right2, sample_qid); (None, sample_qid)] /\
    cache st' = [] /\ eval_out (eval st') = [].
Proof.
  apply (request_serves_slice (fun _ => True) (ref_solve sample_models) sample_models 2 2 ltac:(done)
    ltac:(done) ltac:(done) sample_setup eq_refl sample_rule2_wf sample_qid everything eq_refl
    ltac:(done) [sample_input; right2] 2 3 (mk_ctx [] eval_new [])); try done.
  - apply Forall_cons. split; [by apply small_wf|]. apply Forall_singleton. by apply small_wf.
  - right. done.
Defined.

Definition breaker_setup : setup :=
  mk_setup (layout 2 2) [sample_rule2] [(0, everything)] (Some (sample_total, sample_start)) [].

(** *** A cycle breaker of context 0 that guesses beliefs 1 and 2 of context 1

    The bridge rules derive [p] from the first and [q] from the second, so that
    the program given to the solver tells the guesses apart. *)
Definition pq_table : BeliefTable (list Belief) :=
  mk_btab [mk_belief 1 MAINKIND_BELIEF "p"; mk_belief 2 MAINKIND_BELIEF "q"] 0.

Definition pq_rules : list BridgeRule :=
  let kd := N.lor MAINKIND_RULE SUBKIND_RULE_BRIDGE_RULE in
  [mk_rule kd (mk_ID MAINKIND_BELIEF 1) [mk_ID (N.lor MAINKIND_BELIEF 1) 1];
   mk_rule kd (mk_ID MAINKIND_BELIEF 2) [mk_ID (N.lor MAINKIND_BELIEF 1) 2]].

Definition pq_setup : setup :=
  mk_setup (layout 2 2) pq_rules [(0, mk_bs (mk_bvector 6 7) (mk_bvector 6 7))]
    (Some (sample_total, sample_start)) [].

(** [dlv] given by its answers for the programs [""] and ["p."]; no models
    for the other two. *)
Definition pq_dlv (for_none for_p : list string) (program : string) : list string :=
  if bool_decide (program = ""%string) then for_none
  else if bool_decide (program = ("p." ++ newline)%string) then for_p
  else [].

Definition pq_request (for_none for_p : list string) (k1 k2 : N) (st : ctx_state) : res ctx_state :=
  breaker_request (fun hs ev =>
    solve (pq_dlv for_none for_p) sample_parse (layout 2 2) ""%string 0 hs pq_table ev)
    pq_setup sample_qid k1 k2 st.

Definition fresh : ctx_state := mk_ctx [] eval_new [].
Definition a_model : option NewBeliefState * N := (Some (mk_bs (mk_bvector 6 7) (mk_bvector 6 3)), sample_qid).
Definition b_model : option NewBeliefState * N := (Some (mk_bs (mk_bvector 6 7) (mk_bvector 6 5)), sample_qid).
Definition end_marker : option NewBeliefState * N := (None, sample_qid).

(** The cache makes a cycle breaker forget models.  There are two
    models, [a] for the first guess and [b] for the second.  A fresh breaker
    answers (0, 0) with both and (2, 2) with [b].  After it has served a
    request beyond the last model, (5, 5), it answers (0, 0) with [b] only
    and (2, 2) with nothing: the position found in the cache skips guesses
    whose models are still counted in the range. *)
Theorem cached_request_loses_models :
  let request := pq_request ["{a}"] ["{b}"] in
  sent <$> request 0 0 fresh = Ok [a_model; b_model; end_marker] /\
  sent <$> request 2 2 fresh = Ok [b_model; end_marker] /\
  exists st1, request 5 5 fresh = Ok st1 /\ sent st1 = [end_marker] /\
    sent <$> request 0 0 st1 = Ok [end_marker; b_model; end_marker] /\
    sent <$> request 2 2 st1 = Ok [end_marker; end_marker].
Proof.
  cbv zeta. split; [vm_compute; reflexivity|]. split; [vm_compute; reflexivity|].
  eexists. split; [vm_compute; reflexivity|]. split; [reflexivity|].
  split; vm_compute; reflexivity.
Qed.

(** A legal request can make the cache's assertion fail: the first
    guess has no models, the second has one, and two models are asked for.
    The second guess sends its model, which does not update the cache; the
    third has none and is recorded as step 2 of an empty cache. *)
Theorem cache_assertion_fails :
  range_ok 1 2 = true /\ pq_request [] ["{a}"] 1 2 fresh = Err AssertFailed.
Proof. split; [reflexivity|]. vm_compute. reflexivity. Qed.

End Context.
