(* ===== verification/MessageQueue.v ===== *)
(** * The message queue between threads

    [ConcurrentMessageQueue] (include/network/ConcurrentMessageQueue.h): a
    bounded queue of memory blocks with one mutex and one condition variable
    that senders and receivers share.

    The code between two points where a thread waits is one critical section
    and one step of the model: [turn] runs an operation from the head of its
    waiting loop to the next wait or to its return.  The waiting threads, whom
    [notify_one] wakes, time-outs and spurious wake-ups are the step relation
    [step]; it fixes no scheduler.  The counters [enq] and [deq] count threads
    and are not wrapped at 64 bits. *)

From S2P Require Import Prelude.

Module MessageQueue.

(** The bytes of a block: [s] is their number, [m] points to them. *)
Definition Block : Type := list N.

Record queue := mk_queue {
  q : list Block;
  n : N;
  enq : N;
  deq : N;
}.

(** ** Constructors *)

Definition queue_default : queue := mk_queue [] 1 0 0.

Definition queue_new (capacity : N) : queue :=
  mk_queue [] (if 0 <? capacity then capacity else 1) 0 0.

Definition queue_copy (c : queue) : queue := mk_queue [] (n c) 0 0.

(** ** The private operations *)

Definition q_size (c : queue) : N := N.of_nat (length (q c)).
Definition set_q (c : queue) (l : list Block) : queue := mk_queue l (n c) (enq c) (deq c).
Definition set_enq (c : queue) (k : N) : queue := mk_queue (q c) (n c) k (deq c).
Definition set_deq (c : queue) (k : N) : queue := mk_queue (q c) (n c) (enq c) k.

(** Whether [cnd.notify_one()] is called. *)
Definition notifyConsumer (c : queue) : bool := 0 <? deq c.
Definition notifyProducer (c : queue) : bool := 0 <? enq c.

(** The head of a waiting loop: [None] when the thread waits, otherwise
    whether it leaves the loop with a notification. *)
Definition waitOnCapacity (c : queue) : queue * option bool :=
  if n c =? q_size c then (set_enq c (enq c + 1), None) else (c, Some (notifyConsumer c)).

Definition waitOnEmpty (c : queue) : queue * option bool :=
  if q_size c =? 0 then (set_deq c (deq c + 1), None) else (c, Some (notifyProducer c)).

Definition waitOnTimedCapacity (no_timeout : bool) (c : queue) : queue * option bool :=
  if (n c =? q_size c) && no_timeout then (set_enq c (enq c + 1), None)
  else (c, Some (notifyConsumer c)).

Definition waitOnTimedEmpty (no_timeout : bool) (c : queue) : queue * option bool :=
  if (q_size c =? 0) && no_timeout then (set_deq c (deq c + 1), None)
  else (c, Some (notifyProducer c)).

Definition pushBlock (c : queue) (buf : Block) : queue := set_q c (q c ++ [buf]).

(** What is copied to the receiver's buffer of [size] bytes, and the length of
    the block. *)
Definition popBlock (c : queue) (size : N) : res (queue * (Block * N)) :=
  match q c with
  | [] => Err IndexOutOfRange
  | b :: l =>
      let s := N.of_nat (length b) in
      _ ← assert (0 <? s);
      mret (set_q c l, (if s <=? size then b else take (N.to_nat size) b, s))
  end.

(** ** The public operations *)

Inductive op :=
  | Send (buf : Block)
  | TrySend (buf : Block)
  | TimedSend (buf : Block)
  | Receive (size : N)
  | TryReceive (size : N)
  | TimedReceive (size : N).

Inductive outcome :=
  | Sent (ret : bool)
  | Received (r : option (Block * N)).

Definition empty (c : queue) : bool := q_size c =? 0.

(** [bool size ()] converts the capacity to a [bool]. *)
Definition size (c : queue) : bool := negb (n c =? 0).

(** A turn of an operation: the queue after it, whether it notified, and its
    result, or [None] when the thread now waits.  [no_timeout] is the value
    of that variable at the head of the loop. *)
Definition turn (no_timeout : bool) (o : op) (c : queue) : res (queue * bool * option outcome) :=
  match o with
  | Send buf =>
      _ ← assert (0 <? N.of_nat (length buf));
      match waitOnCapacity c with
      | (c, None) => mret (c, false, None)
      | (c, Some notified) => mret (pushBlock c buf, notified, Some (Sent true))
      end
  | TrySend buf =>
      _ ← assert (0 <? N.of_nat (length buf));
      if q_size c <? n c then
        let c := pushBlock c buf in
        mret (c, notifyConsumer c, Some (Sent true))
      else mret (c, false, Some (Sent false))
  | TimedSend buf =>
      _ ← assert (0 <? N.of_nat (length buf));
      match waitOnTimedCapacity no_timeout c with
      | (c, None) => mret (c, false, None)
      | (c, Some notified) =>
          if no_timeout then mret (pushBlock c buf, notified, Some (Sent true))
          else mret (c, notified, Some (Sent false))
      end
  | Receive size =>
      _ ← assert (0 <? size);
      match waitOnEmpty c with
      | (c, None) => mret (c, false, None)
      | (c, Some notified) =>
          '(c, r) ← popBlock c size;
          mret (c, notified, Some (Received (Some r)))
      end
  | TryReceive size =>
      _ ← assert (0 <? size);
      if negb (empty c) then
        '(c, r) ← popBlock c size;
        mret (c, notifyProducer c, Some (Received (Some r)))
      else mret (c, false, Some (Received None))
  | TimedReceive size =>
      _ ← assert (0 <? size);
      match waitOnTimedEmpty no_timeout c with
      | (c, None) => mret (c, false, None)
      | (c, Some notified) =>
          if no_timeout then
            '(c, r) ← popBlock c size;
            mret (c, notified, Some (Received (Some r)))
          else mret (c, notified, Some (Received None))
      end
  end.

(** The [--enq] or [--deq] of a thread that comes out of [cnd.wait]. *)
Definition sender (o : op) : bool :=
  match o with Send _ | TrySend _ | TimedSend _ => true | _ => false end.

Definition timed (o : op) : bool :=
  match o with TimedSend _ | TimedReceive _ => true | _ => false end.

Definition unwait (o : op) (c : queue) : queue :=
  if sender o then set_enq c (enq c - 1) else set_deq c (deq c - 1).

(** ** Threads *)

Inductive status :=
  | Running                        (* about to lock the mutex *)
  | Waits                          (* inside [cnd.wait] *)
  | Wakes (no_timeout : bool).     (* released, about to lock the mutex again *)

#[export] Instance status_eq_dec : EqDecision status.
Proof. solve_decision. Defined.

(** A thread has a sequence of operations to run and their results so far. *)
Record thread := mk_thread { todo : list op; at_ : status; results : list outcome }.

(** [history] records the operations that have returned, each with its thread
    and its result, in the order in which their critical sections ran. *)
Record state := mk_state {
  shared : queue;
  threads : list thread;
  history : list (nat * op * outcome);
}.

(** What the callers handed over and were told that it was sent. *)
Definition sent_block (e : nat * op * outcome) : option Block :=
  match e with
  | (_, (Send buf | TrySend buf | TimedSend buf), Sent true) => Some buf
  | _ => None
  end.

(** What the callers were given, each with the size of its buffer. *)
Definition received_block (e : nat * op * outcome) : option (N * (Block * N)) :=
  match e with
  | (_, (Receive size | TryReceive size | TimedReceive size), Received (Some r)) => Some (size, r)
  | _ => None
  end.

Definition sent (h : list (nat * op * outcome)) : list Block := omap sent_block h.
Definition received (h : list (nat * op * outcome)) : list (N * (Block * N)) := omap received_block h.

(** A receiver with room for [size] bytes gets the block, or as much of it as
    fits, and its length. *)
Definition delivered (b : Block) (r : N * (Block * N)) : Prop :=
  r.2 = (take (N.to_nat r.1) b, N.of_nat (length b)).

(** The operations of one thread and their results. *)
Definition of_thread (i : nat) (h : list (nat * op * outcome)) : list (op * outcome) :=
  omap (fun e => if decide (e.1.1 = i) then Some (e.1.2, e.2) else None) h.

(** [notify_one] wakes one waiting thread, whatever it waits for. *)
Inductive notify_one : list thread -> list thread -> Prop :=
  | notify_nobody ts :
      (forall j t, ts !! j = Some t -> at_ t <> Waits) -> notify_one ts ts
  | notify_some ts j t :
      ts !! j = Some t -> at_ t = Waits ->
      notify_one ts (<[j := mk_thread (todo t) (Wakes true) (results t)]> ts).

Definition notify (called : bool) (ts ts' : list thread) : Prop :=
  if called then notify_one ts ts' else ts' = ts.

(** The entry of a turn in the history. *)
Definition entry (i : nat) (o : op) (r : option outcome) : list (nat * op * outcome) :=
  match r with None => [] | Some x => [(i, o, x)] end.

(** The thread after a turn of its first operation. *)
Definition after (t : thread) (r : option outcome) : thread :=
  match r with
  | None => mk_thread (todo t) Waits (results t)
  | Some x => mk_thread (tail (todo t)) Running (results t ++ [x])
  end.

Inductive label := Turn (i : nat) | Timeout (i : nat) | Spurious (i : nat).

(** What a thread brings into its turn. *)
Definition ready (t : thread) (o : op) (c : queue) : option (bool * queue) :=
  match at_ t with
  | Running => Some (true, c)
  | Waits => None
  | Wakes no_timeout => Some (no_timeout, unwait o c)
  end.

Inductive step : label -> state -> state -> Prop :=
  | step_turn i s t o os nt c c' called r ts' :
      threads s !! i = Some t -> todo t = o :: os ->
      ready t o (shared s) = Some (nt, c) ->
      turn nt o c = Ok (c', called, r) ->
      notify called (<[i := after t r]> (threads s)) ts' ->
      step (Turn i) s (mk_state c' ts' (history s ++ entry i o r))
  | step_timeout i s t o os :
      threads s !! i = Some t -> todo t = o :: os -> at_ t = Waits -> timed o = true ->
      step (Timeout i) s
        (mk_state (shared s) (<[i := mk_thread (todo t) (Wakes false) (results t)]> (threads s))
           (history s))
  | step_spurious i s t :
      threads s !! i = Some t -> at_ t = Waits ->
      step (Spurious i) s
        (mk_state (shared s) (<[i := mk_thread (todo t) (Wakes true) (results t)]> (threads s))
           (history s)).

(** Runs whose labels satisfy [ok]. *)
Inductive reachable (ok : label -> Prop) (s0 : state) : state -> Prop :=
  | reach_refl : reachable ok s0 s0
  | reach_step l s s' : reachable ok s0 s -> ok l -> step l s s' -> reachable ok s0 s'.

Definition initial (capacity : N) (progs : list (list op)) : state :=
  mk_state (queue_new capacity) ((fun os => mk_thread os Running []) <$> progs) [].

(** ** The effect of a turn *)

Definition op_wf (o : op) : Prop :=
  match o with
  | Send buf | TrySend buf | TimedSend buf => buf <> []
  | Receive size | TryReceive size | TimedReceive size => 0 < size
  end.

Record queue_wf (c : queue) : Prop := {
  wf_capacity : 0 < n c;
  wf_bound : q_size c <= n c;
  wf_blocks : Forall (fun b => b <> []) (q c);
}.

Definition carries (o : op) (b : Block) : Prop := o = Send b \/ o = TrySend b \/ o = TimedSend b.
Definition wants (o : op) (size : N) : Prop := o = Receive size \/ o = TryReceive size \/ o = TimedReceive size.

Lemma carries_sender o b : carries o b -> sender o = true.
Proof. by intros [->|[->| ->]]. Qed.

Lemma wants_sender o size : wants o size -> sender o = false.
Proof. by intros [->|[->| ->]]. Qed.

Inductive turned (o : op) (c : queue) : queue -> bool -> option outcome -> Prop :=
  | turned_wait_send : sender o = true -> q_size c = n c ->
      turned o c (set_enq c (enq c + 1)) false None
  | turned_wait_receive : sender o = false -> q c = [] ->
      turned o c (set_deq c (deq c + 1)) false None
  | turned_push b : carries o b -> b <> [] -> q_size c < n c ->
      turned o c (set_q c (q c ++ [b])) (0 <? deq c) (Some (Sent true))
  | turned_pop b l size r : wants o size -> q c = b :: l -> delivered b (size, r) ->
      turned o c (set_q c l) (0 <? enq c) (Some (Received (Some r)))
  | turned_give_up called r : r = Sent false \/ r = Received None -> turned o c c called (Some r).

Lemma assert_nonempty {A} (l : list A) : l <> [] -> assert (0 <? N.of_nat (length l)) = Ok tt.
Proof. destruct l; [done|]. intros _. unfold assert. by destruct (N.ltb_spec 0 (N.of_nat (length (a :: l)))); [|simpl in *; lia]. Qed.

Lemma popBlock_ok c size b l :
  q c = b :: l -> b <> [] -> exists r, popBlock c size = Ok (set_q c l, r) /\ delivered b (size, r).
Proof.
  intros E Hb. unfold popBlock. rewrite E, assert_nonempty by done. eexists. split; [reflexivity|].
  unfold delivered. cbn. destruct (N.leb_spec (N.of_nat (length b)) size); [|done].
  by rewrite take_ge by lia.
Qed.

Lemma turn_send_ok (nt : bool) buf c :
  buf <> [] -> queue_wf c ->
  exists c' called r,
    (if (n c =? q_size c) && nt then Ok (set_enq c (enq c + 1), false, None)
     else if nt then Ok (pushBlock c buf, notifyConsumer c, Some (Sent true))
     else Ok (c, notifyConsumer c, Some (Sent false))) = Ok (c', called, r) /\
    forall o, carries o buf -> turned o c c' called r.
Proof.
  intros Hb [Hn Hq _]. destruct (N.eqb_spec (n c) (q_size c)), nt; cbn; do 3 eexists; split; try reflexivity;
    intros o Ho; try (by apply turned_give_up; left).
  - apply turned_wait_send; [by eapply carries_sender|done].
  - apply turned_push; [done|done|lia].
Qed.

Lemma turn_receive_ok (nt : bool) size c :
  queue_wf c ->
  exists c' called r,
    (if (q_size c =? 0) && nt then Ok (set_deq c (deq c + 1), false, None)
     else if nt then '(c1, r) ← popBlock c size; mret (c1, notifyProducer c, Some (Received (Some r)))
     else Ok (c, notifyProducer c, Some (Received None))) = Ok (c', called, r) /\
    forall o, wants o size -> turned o c c' called r.
Proof.
  intros [Hn Hq Hb]. unfold q_size. destruct (q c) as [|b l] eqn:E, nt; cbn -[popBlock];
    try (do 3 eexists; split; [reflexivity|]; intros o Ho; by apply turned_give_up; right).
  - do 3 eexists. split; [reflexivity|]. intros o Ho.
    apply turned_wait_receive; [by eapply wants_sender|done].
  - apply Forall_cons in Hb as [Hb _].
    destruct (popBlock_ok c size b l E Hb) as (r & Hr & Hd). rewrite Hr. cbn.
    do 3 eexists. split; [reflexivity|]. intros o Ho. exact (turned_pop o c b l size r Ho E Hd).
Qed.

(** A turn never fails, and has one of the five effects. *)
Lemma turn_ok nt o c :
  op_wf o -> queue_wf c ->
  exists c' called r, turn nt o c = Ok (c', called, r) /\ turned o c c' called r.
Proof.
  intros Ho Hc. destruct o as [buf|buf|buf|sz|sz|sz]; cbn -[popBlock] in Ho |- *;
    try (rewrite assert_nonempty by done; cbn -[popBlock]);
    try (replace (0 <? sz) with true by (symmetry; by apply N.ltb_lt);
         change (assert true) with (Ok tt); cbn -[popBlock]).
  - destruct (turn_send_ok true buf c Ho Hc) as (c' & k & r & E & H). exists c', k, r.
    split; [|apply H; unfold carries, wants; by auto]. rewrite <- E. unfold waitOnCapacity. rewrite andb_true_r. by destruct (_ =? _).
  - destruct (N.ltb_spec (q_size c) (n c)); do 3 eexists; split; try reflexivity.
    + apply turned_push; [unfold carries; by auto|done|done].
    + by apply turned_give_up; left.
  - destruct (turn_send_ok nt buf c Ho Hc) as (c' & k & r & E & H). exists c', k, r.
    split; [|apply H; unfold carries, wants; by auto]. rewrite <- E. unfold waitOnTimedCapacity. by destruct ((_ =? _) && _), nt.
  - destruct (turn_receive_ok true sz c Hc) as (c' & k & r & E & H). exists c', k, r.
    split; [|apply H; unfold carries, wants; by auto]. rewrite <- E. unfold waitOnEmpty. rewrite andb_true_r. by destruct (_ =? _).
  - unfold empty. destruct (turn_receive_ok true sz c Hc) as (c' & k & r & E & H).
    rewrite andb_true_r in E. destruct (q_size c =? 0); cbn -[popBlock] in E |- *.
    + do 3 eexists. split; [reflexivity|]. by apply turned_give_up; right.
    + destruct (popBlock c sz) as [[c1 r1]|] eqn:Ep; [|done]. cbn in E |- *.
      injection E as <- <- <-. specialize (H (TryReceive sz) (or_intror (or_introl eq_refl))).
      do 3 eexists. split; [reflexivity|].
      inversion H as [| | |b l size r Hw Hq Hd|k r [Hr|Hr]]; subst; [|done|done].
      change (notifyProducer (set_q c l)) with (0 <? enq c). by eapply turned_pop.
  - destruct (turn_receive_ok nt sz c Hc) as (c' & k & r & E & H). exists c', k, r.
    split; [|apply H; unfold carries, wants; by auto]. rewrite <- E. unfold waitOnTimedEmpty. by destruct ((_ =? _) && _), nt.
Qed.

(** ** The invariant of every run *)

(** A thread inside a waiting loop, as a sender or as a receiver. *)
Definition in_wait (snd : bool) (t : thread) : bool :=
  match todo t, at_ t with
  | o :: _, (Waits | Wakes _) => Bool.eqb (sender o) snd
  | _, _ => false
  end.

Definition waiting (snd : bool) (ts : list thread) : N :=
  N.of_nat (length (filter (fun t => in_wait snd t = true) ts)).

Record thread_wf (t : thread) : Prop := {
  wf_todo : Forall op_wf (todo t);
  wf_busy : at_ t <> Running -> todo t <> [];
}.

Record inv (s : state) : Prop := {
  inv_queue : queue_wf (shared s);
  inv_enq : enq (shared s) = waiting true (threads s);
  inv_deq : deq (shared s) = waiting false (threads s);
  inv_fifo : exists popped, sent (history s) = popped ++ q (shared s) /\
               Forall2 delivered popped (received (history s));
  inv_threads : Forall thread_wf (threads s);
}.

Lemma waiting_app snd ts ts' : waiting snd (ts ++ ts') = waiting snd ts + waiting snd ts'.
Proof. unfold waiting. rewrite filter_app, length_app. lia. Qed.

Lemma waiting_cons snd t ts : waiting snd (t :: ts) = N.b2n (in_wait snd t) + waiting snd ts.
Proof.
  unfold waiting. rewrite filter_cons. destruct (decide _) as [E|E].
  - rewrite length_cons, E. cbn [N.b2n]. lia.
  - apply not_true_is_false in E. by rewrite E.
Qed.

(** Replacing one thread changes the count by that thread only. *)
Lemma waiting_insert snd ts i t t' :
  ts !! i = Some t ->
  waiting snd (<[i := t']> ts) + N.b2n (in_wait snd t) = waiting snd ts + N.b2n (in_wait snd t').
Proof.
  intros Hi. rewrite (insert_take_drop ts i t') by (by eapply lookup_lt_Some).
  rewrite <- (take_drop_middle ts i t Hi) at 3.
  rewrite !waiting_app, !waiting_cons. lia.
Qed.

Lemma waiting_pos snd ts i t : ts !! i = Some t -> in_wait snd t = true -> 0 < waiting snd ts.
Proof.
  intros Hi Ht. rewrite <- (take_drop_middle ts i t Hi), waiting_app, waiting_cons, Ht. cbn. lia.
Qed.

Lemma waiting_release snd ts i t nt :
  ts !! i = Some t -> at_ t = Waits ->
  waiting snd (<[i := mk_thread (todo t) (Wakes nt) (results t)]> ts) = waiting snd ts.
Proof.
  intros Hi Ht. pose proof (waiting_insert snd ts i t (mk_thread (todo t) (Wakes nt) (results t)) Hi) as H.
  unfold in_wait in H. cbn in H. rewrite Ht in H. destruct (todo t); lia.
Qed.

Lemma release_wf ts i t nt :
  ts !! i = Some t -> at_ t = Waits -> Forall thread_wf ts ->
  Forall thread_wf (<[i := mk_thread (todo t) (Wakes nt) (results t)]> ts).
Proof.
  intros Hi Ht H. apply Forall_insert; [done|].
  destruct (Forall_lookup_1 _ _ _ _ H Hi) as [H1 H2]. split; [done|]. intros _. apply H2. by rewrite Ht.
Qed.

Lemma notify_waiting called ts ts' snd : notify called ts ts' -> waiting snd ts' = waiting snd ts.
Proof.
  unfold notify. destruct called; [|by intros ->].
  intros [|]; [done|]. by apply waiting_release.
Qed.

Lemma notify_wf called ts ts' : notify called ts ts' -> Forall thread_wf ts -> Forall thread_wf ts'.
Proof.
  unfold notify. destruct called; [|by intros ->].
  intros [|]; [done|]. by apply release_wf.
Qed.

(** The counters seen by a thread in its turn count the other threads. *)
Lemma ready_counters s i t o os nt c :
  inv s -> threads s !! i = Some t -> todo t = o :: os -> ready t o (shared s) = Some (nt, c) ->
  q c = q (shared s) /\ n c = n (shared s) /\
  enq c + N.b2n (in_wait true t) = waiting true (threads s) /\
  deq c + N.b2n (in_wait false t) = waiting false (threads s).
Proof.
  intros [_ He Hd _ _] Hi Ht Hr. unfold ready in Hr.
  destruct (at_ t) eqn:Ea; [| done |]; injection Hr as <- <-.
  - unfold in_wait. rewrite Ht, Ea, <- He, <- Hd. cbn [N.b2n]. repeat split; lia.
  - pose proof (waiting_pos (sender o) (threads s) i t Hi) as Hp.
    unfold in_wait in Hp |- *. rewrite Ht, Ea in Hp |- *. specialize (Hp (eqb_reflx _)).
    unfold unwait. destruct (sender o); cbn [Bool.eqb N.b2n enq deq q n set_enq set_deq] in *;
      repeat split; lia.
Qed.

Lemma queue_wf_eq c c' :
  q c' = q c -> n c' = n c -> queue_wf c -> queue_wf c'.
Proof. intros Eq En [H1 H2 H3]. unfold q_size in *. split; unfold q_size; by rewrite ?Eq, ?En. Qed.

Lemma turned_queue_wf o c c' called r : queue_wf c -> turned o c c' called r -> queue_wf c'.
Proof.
  intros Hc. pose proof Hc as [H1 H2 H3].
  intros [Ho Hf|Ho Hf|b Ho Hb Hf|b l size x Ho Hf|]; try (by eapply queue_wf_eq; [| |exact Hc]).
  - unfold q_size in *. split; unfold q_size; cbn; [done| |].
    + rewrite length_app. cbn. lia.
    + apply Forall_app. by split; [|apply Forall_singleton].
  - unfold q_size in *. rewrite Hf in H2, H3. cbn in H2. apply Forall_cons in H3 as [_ H3].
    split; unfold q_size; cbn; [done|lia|done].
Qed.

Lemma sent_app h e : sent (h ++ e) = sent h ++ sent e.
Proof. apply omap_app. Qed.

Lemma received_app h e : received (h ++ e) = received h ++ received e.
Proof. apply omap_app. Qed.

Lemma of_thread_app i h e : of_thread i (h ++ e) = of_thread i h ++ of_thread i e.
Proof. apply omap_app. Qed.

Lemma turned_fifo i o c c' called r :
  turned o c c' called r ->
  exists popped, q c ++ sent (entry i o r) = popped ++ q c' /\
    Forall2 delivered popped (received (entry i o r)).
Proof.
  intros [Ho Hf|Ho Hf|b Ho Hb Hf|b l size x Ho Hf Hd|k x Hx]; cbn [entry].
  - exists []. rewrite app_nil_r. by split; [|apply Forall2_nil].
  - exists []. rewrite app_nil_r. by split; [|apply Forall2_nil].
  - exists []. by destruct Ho as [->|[->| ->]]; (split; [|apply Forall2_nil]).
  - exists [b]. rewrite Hf. destruct Ho as [->|[->| ->]]; cbn; rewrite app_nil_r;
      (split; [done|]); apply Forall2_cons; by split; [|apply Forall2_nil].
  - exists []. destruct Hx as [->| ->], o; cbn; rewrite app_nil_r; by split; [|apply Forall2_nil].
Qed.

Lemma fifo_turn h i o c c' called r :
  (exists popped, sent h = popped ++ q c /\ Forall2 delivered popped (received h)) ->
  turned o c c' called r ->
  exists popped, sent (h ++ entry i o r) = popped ++ q c' /\
    Forall2 delivered popped (received (h ++ entry i o r)).
Proof.
  intros (p1 & E1 & H1) HT. destruct (turned_fifo i _ _ _ _ _ HT) as (p2 & E2 & H2).
  exists (p1 ++ p2). rewrite sent_app, received_app. split; [|by apply Forall2_app].
  by rewrite E1, <- !app_assoc, E2.
Qed.

Lemma in_wait_after snd t o os r :
  todo t = o :: os ->
  in_wait snd (after t r) = match r with None => Bool.eqb (sender o) snd | Some _ => false end.
Proof. intros Ht. unfold in_wait, after. destruct r; cbn; rewrite Ht; [|done]. by destruct os. Qed.

Lemma turned_counters o c c' called r t os snd :
  turned o c c' called r -> todo t = o :: os ->
  (if snd : bool then enq c' else deq c') = (if snd then enq c else deq c) + N.b2n (in_wait snd (after t r)).
Proof.
  intros H Ht. rewrite (in_wait_after snd t o os r Ht).
  destruct H as [Ho|Ho| | |]; rewrite ?Ho; destruct snd;
    cbn [enq deq set_enq set_deq set_q N.b2n Bool.eqb]; lia.
Qed.

Lemma after_wf t o os r : todo t = o :: os -> thread_wf t -> thread_wf (after t r).
Proof.
  intros Ht [H1 H2]. rewrite Ht in H1. destruct r; split; cbn; rewrite ?Ht; try done.
  by apply Forall_cons in H1 as [_ H1].
Qed.

Lemma step_inv l s s' : step l s s' -> inv s -> inv s'.
Proof.
  intros [i s1 t o os nt c c' called r ts' Hi Ht Hr Hturn Hn|i s1 t o os Hi Ht Ha Hto|i s1 t Hi Ha] Hs.
  - destruct (ready_counters _ _ _ _ _ _ _ Hs Hi Ht Hr) as (Eq & En & He & Hd).
    destruct Hs as [Hq He' Hd' Hf Hth].
    pose proof (queue_wf_eq _ c Eq En Hq) as Hc.
    pose proof (Forall_lookup_1 _ _ _ _ Hth Hi) as Htw.
    assert (Ho : op_wf o) by (destruct Htw as [H1 _]; rewrite Ht in H1; by inversion H1).
    destruct (turn_ok nt o c Ho Hc) as (c1 & k1 & r1 & E1 & HT). rewrite Hturn in E1. injection E1 as <- <- <-.
    pose proof (turned_counters _ _ _ _ _ t os true HT Ht).
    pose proof (turned_counters _ _ _ _ _ t os false HT Ht). cbn in *.
    split; cbn.
    + by eapply turned_queue_wf.
    + rewrite (notify_waiting _ _ _ _ Hn). pose proof (waiting_insert true _ _ _ (after t r) Hi). lia.
    + rewrite (notify_waiting _ _ _ _ Hn). pose proof (waiting_insert false _ _ _ (after t r) Hi). lia.
    + rewrite <- Eq in Hf. by eapply fifo_turn.
    + eapply notify_wf; [done|]. apply Forall_insert; [done|]. by eapply after_wf.
  - destruct Hs as [Hq He Hd Hf Hth]. split; cbn; rewrite ?waiting_release; try done. by apply release_wf.
  - destruct Hs as [Hq He Hd Hf Hth]. split; cbn; rewrite ?waiting_release; try done. by apply release_wf.
Qed.

Lemma initial_inv capacity progs : Forall (Forall op_wf) progs -> inv (initial capacity progs).
Proof.
  intros Hp.
  assert (Hw : forall snd, waiting snd (threads (initial capacity progs)) = 0).
  { intros snd. cbn. clear Hp. induction progs as [|os progs IH]; [done|].
    cbn. rewrite waiting_cons, IH. unfold in_wait. by destruct os. }
  split; cbn; rewrite ?Hw; try done.
  - split; unfold q_size; cbn; [|lia|by apply Forall_nil]. destruct (N.ltb_spec 0 capacity); lia.
  - exists []. by split; [|apply Forall2_nil].
  - apply Forall_fmap. eapply Forall_impl; [exact Hp|]. intros os Hos. by split.
Qed.

Lemma reachable_inv ok capacity progs s :
  Forall (Forall op_wf) progs -> reachable ok (initial capacity progs) s -> inv s.
Proof.
  intros Hp. induction 1 as [|l s s' _ IH _ Hs]; [by apply initial_inv|]. by eapply step_inv.
Qed.

Lemma notify_exists called ts : exists ts', notify called ts ts'.
Proof.
  destruct called; [|by exists ts]. cbn.
  destruct (decide (Exists (fun t => at_ t = Waits) ts)) as [He|Hne].
  - apply Exists_exists in He as (t & [j Hj]%list_elem_of_lookup & Ht).
    eexists. by eapply notify_some.
  - exists ts. apply notify_nobody. intros j t Hj Ht. apply Hne, Exists_exists.
    exists t. split; [|done]. by eapply list_elem_of_lookup_2.
Qed.

(** A thread that does not wait can take its turn. *)
Lemma turn_enabled s i t o os :
  inv s -> threads s !! i = Some t -> todo t = o :: os -> at_ t <> Waits ->
  exists s', step (Turn i) s s'.
Proof.
  intros Hs Hi Ht Ha.
  assert (exists nt c, ready t o (shared s) = Some (nt, c)) as (nt & c & Hr).
  { unfold ready. destruct (at_ t); [|done|]; by do 2 eexists. }
  destruct (ready_counters _ _ _ _ _ _ _ Hs Hi Ht Hr) as (Eq & En & _ & _).
  destruct Hs as [Hq _ _ _ Hth].
  destruct (Forall_lookup_1 _ _ _ _ Hth Hi) as [Hw _]. rewrite Ht in Hw. apply Forall_cons in Hw as [Ho _].
  destruct (turn_ok nt o c Ho (queue_wf_eq _ _ Eq En Hq)) as (c' & k & r & E & _).
  destruct (notify_exists k (<[i := after t r]> (threads s))) as [ts' Hn].
  eexists. by eapply step_turn.
Qed.

Lemma step_capacity l s s' : step l s s' -> inv s -> n (shared s') = n (shared s).
Proof.
  intros [i s1 t o os nt c c' called r ts' Hi Ht Hr Hturn Hn| |] Hs; [|done|done].
  destruct (ready_counters _ _ _ _ _ _ _ Hs Hi Ht Hr) as (Eq & En & _ & _).
  destruct Hs as [Hq _ _ _ Hth].
  destruct (Forall_lookup_1 _ _ _ _ Hth Hi) as [Hw _]. rewrite Ht in Hw. apply Forall_cons in Hw as [Ho _].
  destruct (turn_ok nt o c Ho (queue_wf_eq _ _ Eq En Hq)) as (c1 & k1 & r1 & E1 & HT).
  rewrite Hturn in E1. injection E1 as <- <- <-. cbn. rewrite <- En. by destruct HT.
Qed.

Lemma reachable_capacity ok capacity progs s :
  Forall (Forall op_wf) progs -> reachable ok (initial capacity progs) s ->
  n (shared s) = N.max 1 capacity.
Proof.
  intros Hp. induction 1 as [|l s s' Hr IH _ Hs].
  - cbn. destruct (N.ltb_spec 0 capacity); lia.
  - rewrite <- IH. eapply step_capacity; [done|]. by eapply reachable_inv.
Qed.

(** ** One sender and one receiver *)

Definition is_send (o : op) : Prop := match o with Send _ => True | _ => False end.
Definition is_receive (o : op) : Prop := match o with Receive _ => True | _ => False end.

(** Nobody waits for what is already there. *)
Record awake (s : state) (p c : thread) : Prop := {
  awake_threads : threads s = [p; c];
  awake_sends : Forall is_send (todo p);
  awake_receives : Forall is_receive (todo c);
  awake_sender : at_ p = Waits -> q_size (shared s) = n (shared s);
  awake_receiver : at_ c = Waits -> q (shared s) = [];
  awake_in_time : at_ p <> Wakes false /\ at_ c <> Wakes false;
}.

(** A turn of an untimed operation does not give up. *)
Lemma turn_untimed o c c' called r :
  (is_send o \/ is_receive o) -> op_wf o -> queue_wf c -> turn true o c = Ok (c', called, r) ->
  (r = None /\ called = false /\ q c' = q c /\ n c' = n c /\
     if sender o then q_size c = n c else q c = []) \/
  (sender o = true /\ q_size c' = q_size c + 1 /\ n c' = n c /\ called = (0 <? deq c) /\ r <> None) \/
  (sender o = false /\ q_size c' + 1 = q_size c /\ n c' = n c /\ called = (0 <? enq c) /\ r <> None).
Proof.
  intros Hk Ho Hc E. destruct (turn_ok true o c Ho Hc) as (c1 & k1 & r1 & E1 & HT).
  rewrite E in E1. injection E1 as <- <- <-. destruct HT as [Hs|Hs|b Hs|b l size x Hs Hq|k x].
  - left. by rewrite Hs.
  - left. by rewrite Hs.
  - right. left. apply carries_sender in Hs. repeat split; try done.
    unfold q_size. cbn. rewrite length_app. cbn. lia.
  - right. right. apply wants_sender in Hs. repeat split; try done. unfold q_size. cbn. rewrite Hq. cbn. lia.
  - exfalso. destruct o; cbn in Hk; try tauto.
    + cbn in E. apply bind_ok in E as (? & _ & E). unfold waitOnCapacity in E.
      destruct (_ =? _); [done|]. injection E as E _ _. apply (f_equal (length ∘ q)) in E. cbn in E.
      rewrite length_app in E. cbn in E. lia.
    + cbn in E. apply bind_ok in E as (? & _ & E). unfold waitOnEmpty in E.
      destruct (_ =? _); [done|]. apply bind_ok in E as ([c2 x2] & Hp & E).
      unfold popBlock in Hp. destruct (q c) as [|b l] eqn:Eq; [done|].
      apply bind_ok in Hp as (? & _ & Hp). injection Hp as <- _. injection E as E _ _.
      apply (f_equal (length ∘ q)) in E. cbn in E. rewrite Eq in E. cbn in E. lia.
Qed.

(** The other thread after a notification by a thread that does not wait. *)
Definition told (called : bool) (t t' : thread) : Prop :=
  todo t' = todo t /\
  (t' = t /\ (called = false \/ at_ t <> Waits) \/ at_ t' = Wakes true).

Lemma told_same (called : bool) t : called = false \/ at_ t <> Waits -> told called t t.
Proof. intros H. split; [done|]. by left. Qed.

Lemma notify_second called a b ts' :
  notify called [a; b] ts' -> at_ a <> Waits -> exists b', ts' = [a; b'] /\ told called b b'.
Proof.
  unfold notify. destruct called; [|intros -> _; exists b; split; [done|]; apply told_same; by left].
  intros H Ha. inversion H as [ts Hn|ts j t Hj Ht]; subst.
  - exists b. split; [done|]. apply told_same. right. by apply (Hn 1%nat).
  - destruct j as [|[|j]]; cbn in Hj; [congruence| |done]. injection Hj as ->.
    eexists. split; [reflexivity|]. split; [done|]. by right.
Qed.

Lemma notify_first called a b ts' :
  notify called [a; b] ts' -> at_ b <> Waits -> exists a', ts' = [a'; b] /\ told called a a'.
Proof.
  unfold notify. destruct called; [|intros -> _; exists a; split; [done|]; apply told_same; by left].
  intros H Hb. inversion H as [ts Hn|ts j t Hj Ht]; subst.
  - exists a. split; [done|]. apply told_same. right. by apply (Hn 0%nat).
  - destruct j as [|[|j]]; cbn in Hj; [|congruence|done]. injection Hj as ->.
    eexists. split; [reflexivity|]. split; [done|]. by right.
Qed.

Lemma told_waits called t t' : told called t t' -> at_ t' = Waits -> t' = t /\ called = false.
Proof. intros [_ [[-> [|]]|]]; [done|congruence|congruence]. Qed.

Lemma told_in_time called t t' : told called t t' -> at_ t <> Wakes false -> at_ t' <> Wakes false.
Proof. intros [_ [[-> _]|]]; congruence. Qed.

Lemma after_status t r : at_ (after t r) = match r with None => Waits | Some _ => Running end.
Proof. by destruct r. Qed.

Lemma ready_in_time t o c nt c' : ready t o c = Some (nt, c') -> at_ t <> Wakes false -> nt = true.
Proof. unfold ready. destruct (at_ t) as [| |[]]; naive_solver. Qed.

Lemma awake_sender_turn s p c o os nt c1 c' called r ts' :
  inv s -> awake s p c -> todo p = o :: os -> ready p o (shared s) = Some (nt, c1) ->
  turn nt o c1 = Ok (c', called, r) -> notify called (<[0%nat := after p r]> (threads s)) ts' ->
  forall h, exists p' c2, awake (mk_state c' ts' h) p' c2.
Proof.
  intros Hs [Hth Hsend Hrecv Hp Hc [Hip Hic]] Ht Hr Hturn Hn h.
  assert (Hi : threads s !! 0%nat = Some p) by (by rewrite Hth).
  pose proof (ready_in_time _ _ _ _ _ Hr Hip) as ->.
  destruct (ready_counters _ _ _ _ _ _ _ Hs Hi Ht Hr) as (Eq & En & _ & Hd).
  destruct Hs as [Hq _ _ _ Htw]. pose proof (queue_wf_eq _ _ Eq En Hq) as Hq1.
  destruct (Forall_lookup_1 _ _ _ _ Htw Hi) as [Hw _]. rewrite Ht in Hw, Hsend.
  apply Forall_cons in Hw as [Ho _]. pose proof Hsend as Hso. apply Forall_cons in Hso as [Hso Hos].
  assert (sender o = true) as Hsnd by (by destruct o).
  rewrite Hth in Hn, Hd. cbn in Hn.
  destruct (turn_untimed o c1 c' called r (or_introl Hso) Ho Hq1 Hturn)
    as [(-> & -> & Eq' & En' & Hf)|[(_ & Hsz & En' & -> & Hr')|(? & _)]]; [| |congruence].
  - rewrite Hsnd in Hf. cbn in Hn. subst ts'. exists (after p None), c.
    split; cbn; [done|by rewrite Ht|done| | |done].
    + intros _. unfold q_size in *. rewrite Eq', En'. done.
    + intros Hcw. rewrite Eq', Eq. by apply Hc.
  - destruct r as [x|]; [|done].
    destruct (notify_second _ _ _ _ Hn) as (c2 & -> & Htold); [done|].
    exists (after p (Some x)), c2. split; cbn; [done|by rewrite Ht| |done| |].
    + by destruct Htold as [-> _].
    + intros Hcw. exfalso. destruct (told_waits _ _ _ Htold Hcw) as [-> Hk].
      apply N.ltb_ge in Hk. rewrite !waiting_cons in Hd.
      assert (in_wait false p = false) as Hpw.
      { unfold in_wait. rewrite Ht, Hsnd. by destruct (at_ p). }
      assert (in_wait false c = true) as Hcw'.
      { unfold in_wait. rewrite Hcw.
        destruct (Forall_lookup_1 _ _ 1%nat c Htw) as [_ Hb]; [by rewrite Hth|].
        destruct (todo c) as [|oc osc]; [by destruct Hb; [rewrite Hcw|]|].
        apply Forall_cons in Hrecv as [Hoc _]. by destruct oc. }
      rewrite Hpw, Hcw' in Hd. cbn [N.b2n] in Hd. lia.
    + split; [done|]. by eapply told_in_time.
Qed.

Lemma awake_receiver_turn s p c o os nt c1 c' called r ts' :
  inv s -> awake s p c -> todo c = o :: os -> ready c o (shared s) = Some (nt, c1) ->
  turn nt o c1 = Ok (c', called, r) -> notify called (<[1%nat := after c r]> (threads s)) ts' ->
  forall h, exists p' c2, awake (mk_state c' ts' h) p' c2.
Proof.
  intros Hs [Hth Hsend Hrecv Hp Hc [Hip Hic]] Ht Hr Hturn Hn h.
  assert (Hi : threads s !! 1%nat = Some c) by (by rewrite Hth).
  pose proof (ready_in_time _ _ _ _ _ Hr Hic) as ->.
  destruct (ready_counters _ _ _ _ _ _ _ Hs Hi Ht Hr) as (Eq & En & Hd & _).
  destruct Hs as [Hq _ _ _ Htw]. pose proof (queue_wf_eq _ _ Eq En Hq) as Hq1.
  destruct (Forall_lookup_1 _ _ _ _ Htw Hi) as [Hw _]. rewrite Ht in Hw, Hrecv.
  apply Forall_cons in Hw as [Ho _]. pose proof Hrecv as Hso. apply Forall_cons in Hso as [Hso Hos].
  assert (sender o = false) as Hsnd by (by destruct o).
  rewrite Hth in Hn, Hd. cbn in Hn.
  destruct (turn_untimed o c1 c' called r (or_intror Hso) Ho Hq1 Hturn)
    as [(-> & -> & Eq' & En' & Hf)|[(? & _)|(_ & Hsz & En' & -> & Hr')]]; [|congruence|].
  - rewrite Hsnd in Hf. cbn in Hn. subst ts'. exists p, (after c None).
    split; cbn; [done|done|by rewrite Ht| | |done].
    + intros Hpw. unfold q_size in *. rewrite Eq', En', Eq, En. by apply Hp.
    + intros _. by rewrite Eq'.
  - destruct r as [x|]; [|done].
    destruct (notify_first _ _ _ _ Hn) as (p2 & -> & Htold); [done|].
    exists p2, (after c (Some x)). split; cbn; [done| |by rewrite Ht| |done|].
    + by destruct Htold as [-> _].
    + intros Hpw. exfalso. destruct (told_waits _ _ _ Htold Hpw) as [-> Hk].
      apply N.ltb_ge in Hk. rewrite !waiting_cons in Hd.
      assert (in_wait true c = false) as Hcw.
      { unfold in_wait. rewrite Ht, Hsnd. by destruct (at_ c). }
      assert (in_wait true p = true) as Hpw'.
      { unfold in_wait. rewrite Hpw.
        destruct (Forall_lookup_1 _ _ 0%nat p Htw) as [_ Hb]; [by rewrite Hth|].
        destruct (todo p) as [|oc osc]; [by destruct Hb; [rewrite Hpw|]|].
        apply Forall_cons in Hsend as [Hoc _]. by destruct oc. }
      rewrite Hcw, Hpw' in Hd. cbn [N.b2n] in Hd. lia.
    + split; [|done]. by eapply told_in_time.
Qed.

Lemma awake_release s p c i t h :
  awake s p c -> threads s !! i = Some t -> at_ t = Waits ->
  exists p' c', awake (mk_state (shared s)
    (<[i := mk_thread (todo t) (Wakes true) (results t)]> (threads s)) h) p' c'.
Proof.
  intros [Hth Hsend Hrecv Hp Hc [Hip Hic]] Hi Ha. rewrite Hth in Hi |- *.
  destruct i as [|[|i]]; cbn in Hi; [| |done]; injection Hi as <-; do 2 eexists; by split; cbn.
Qed.

Lemma step_awake l s s' p c : step l s s' -> inv s -> awake s p c -> exists p' c', awake s' p' c'.
Proof.
  intros [i s1 t o os nt c1 c' called r ts' Hi Ht Hr Hturn Hn|i s1 t o os Hi Ht Ha Hto|i s1 t Hi Ha] Hs Hw.
  - pose proof Hi as Hi'. rewrite (awake_threads _ _ _ Hw) in Hi'.
    destruct i as [|[|i]]; cbn in Hi'; [| |done]; injection Hi' as <-.
    + by eapply awake_sender_turn.
    + by eapply awake_receiver_turn.
  - exfalso. destruct Hw as [Hth Hsend Hrecv _ _ _]. rewrite Hth in Hi.
    destruct i as [|[|i]]; cbn in Hi; [| |done]; injection Hi as <-.
    + rewrite Ht in Hsend. apply Forall_cons in Hsend as [Ho _]. by destruct o.
    + rewrite Ht in Hrecv. apply Forall_cons in Hrecv as [Ho _]. by destruct o.
  - by eapply awake_release.
Qed.

Lemma reachable_awake ok capacity sends receives s :
  Forall (fun o => is_send o /\ op_wf o) sends -> Forall (fun o => is_receive o /\ op_wf o) receives ->
  reachable ok (initial capacity [sends; receives]) s -> inv s /\ exists p c, awake s p c.
Proof.
  intros Hs Hr.
  assert (Hp : Forall (Forall op_wf) [sends; receives]).
  { apply Forall_cons. split; [|apply Forall_singleton]; eapply Forall_impl; try done; by intros o []. }
  induction 1 as [|l s s' Hreach [IH1 (p & c & IH2)] _ Hst].
  - split; [by apply initial_inv|]. do 2 eexists. split; cbn; try done.
    + eapply Forall_impl; [exact Hs|]. by intros o [].
    + eapply Forall_impl; [exact Hr|]. by intros o [].
  - split; [by eapply step_inv|]. by eapply step_awake.
Qed.

(** The history agrees with the threads: the operations of a thread are those
    that have returned followed by those to do, and its results are those of
    the operations that have returned. *)
Definition logged (progs : list (list op)) (s : state) : Prop :=
  forall i t, threads s !! i = Some t ->
    progs !! i = Some ((of_thread i (history s)).*1 ++ todo t) /\
    results t = (of_thread i (history s)).*2.

Lemma notify_logs called ts ts' i t' :
  notify called ts ts' -> ts' !! i = Some t' ->
  exists t, ts !! i = Some t /\ todo t' = todo t /\ results t' = results t.
Proof.
  unfold notify. destruct called; [|intros ->; by eauto]. intros [|ts1 j t Hj Ha] Hi; [by eauto|].
  destruct (decide (j = i)) as [->|Hne]; [|rewrite list_lookup_insert_ne in Hi by done; by eauto].
  apply lookup_lt_Some in Hj as Hl. rewrite list_lookup_insert_eq in Hi by done.
  injection Hi as <-. by eauto.
Qed.

Lemma release_logged progs s i t nt :
  logged progs s -> threads s !! i = Some t ->
  logged progs (mk_state (shared s) (<[i := mk_thread (todo t) (Wakes nt) (results t)]> (threads s)) (history s)).
Proof.
  intros Hl Hi j t' Hj. cbn [threads history] in Hj |- *.
  destruct (decide (i = j)) as [->|Hne]; [|rewrite list_lookup_insert_ne in Hj by done; by apply Hl].
  apply lookup_lt_Some in Hi as Hlt. rewrite list_lookup_insert_eq in Hj by done.
  injection Hj as <-. exact (Hl _ _ Hi).
Qed.

Lemma of_thread_entry i j o r :
  of_thread j (entry i o r) = if decide (i = j) then match r with None => [] | Some x => [(o, x)] end else [].
Proof. destruct r; unfold of_thread; cbn; by case_decide. Qed.

Lemma step_logged progs l s s' : step l s s' -> logged progs s -> logged progs s'.
Proof.
  intros [i s1 t o os nt c c' called r ts' Hi Ht Hr Hturn Hn|i s1 t o os Hi Ht Ha Hto|i s1 t Hi Ha] Hl;
    [|by apply release_logged|by apply release_logged].
  intros j t' Hj. cbn [threads history] in Hj |- *. destruct (notify_logs _ _ _ _ _ Hn Hj) as (t1 & Hj1 & -> & ->).
  rewrite of_thread_app, of_thread_entry, !fmap_app. case_decide as E.
  - subst j. apply lookup_lt_Some in Hi as Hlt. rewrite list_lookup_insert_eq in Hj1 by done.
    injection Hj1 as <-. destruct (Hl i t Hi) as [H1 H2]. rewrite H1, Ht, <- H2. unfold after.
    destruct r; cbn; rewrite ?Ht, ?app_nil_r, <- ?app_assoc; by split.
  - rewrite list_lookup_insert_ne in Hj1 by done. cbn. rewrite !app_nil_r. by apply Hl.
Qed.

Lemma reachable_logged ok capacity progs s :
  reachable ok (initial capacity progs) s -> logged progs s.
Proof.
  induction 1 as [|l s s' _ IH _ Hs]; [|by eapply step_logged].
  intros i t Hi. cbn in Hi. apply list_lookup_fmap_Some in Hi as (os & -> & Hi). by split.
Qed.

(** C36.  Let threads run sequences of operations with nonempty messages and
    nonempty buffers on a new queue.  Whatever the order in which they are
    scheduled, notified, timed out or woken for no reason, the queue is a
    bounded FIFO queue: the messages whose sending returned true are, in
    order, those the successful receives have returned, each unchanged or cut
    to the receiver's buffer and with its length, followed by those the queue
    holds; the returned operations of a thread are the first of its program,
    with their results; the queue holds at most its capacity (1 if 0 was
    asked for); [enq] and [deq] are the numbers of senders and receivers in
    their waiting loops; and a thread that is not waiting can always take its
    turn: no assertion fails and nothing is popped from an empty queue. *)
Theorem queue_is_bounded_fifo ok capacity progs s :
  Forall (Forall op_wf) progs -> reachable ok (initial capacity progs) s ->
  (exists popped, sent (history s) = popped ++ q (shared s) /\
     Forall2 delivered popped (received (history s))) /\
  (forall i t, threads s !! i = Some t ->
     progs !! i = Some ((of_thread i (history s)).*1 ++ todo t) /\
     results t = (of_thread i (history s)).*2) /\
  q_size (shared s) <= N.max 1 capacity /\
  enq (shared s) = waiting true (threads s) /\ deq (shared s) = waiting false (threads s) /\
  (forall i t o os, threads s !! i = Some t -> todo t = o :: os -> at_ t <> Waits ->
     exists s', step (Turn i) s s').
Proof.
  intros Hp Hr. pose proof (reachable_inv _ _ _ _ Hp Hr) as Hs.
  pose proof (reachable_capacity _ _ _ _ Hp Hr) as Hn.
  pose proof Hs as [Hq He Hd Hf _].
  split; [done|]. split; [by eapply reachable_logged|]. split; [rewrite <- Hn; by apply wf_bound|].
  split; [done|]. split; [done|]. intros i t o os Hi Ht Ha. by eapply turn_enabled.
Qed.

(** C37.  With one sending and one receiving thread no wake-up is lost: in
    every reachable state some thread can take its turn, unless both are
    done, or the receiver is left with an empty queue by a sender that is
    done, or the sender with a full queue by a receiver that is done. *)
Theorem one_to_one_no_deadlock ok capacity sends receives s :
  Forall (fun o => is_send o /\ op_wf o) sends -> Forall (fun o => is_receive o /\ op_wf o) receives ->
  reachable ok (initial capacity [sends; receives]) s ->
  exists p c, threads s = [p; c] /\
    ((exists i s', step (Turn i) s s') \/
     (todo p = [] /\ todo c = []) \/
     (todo p = [] /\ q (shared s) = []) \/
     (todo c = [] /\ q_size (shared s) = n (shared s))).
Proof.
  intros Hs Hr H. destruct (reachable_awake _ _ _ _ _ Hs Hr H) as [Hinv (p & c & Hw)].
  destruct Hw as [Hth _ _ Hp Hc _]. exists p, c. split; [done|].
  assert (Hen : forall i t, threads s !! i = Some t -> todo t <> [] -> at_ t <> Waits ->
            exists i s', step (Turn i) s s').
  { intros i t Hi Ht Ha. destruct (todo t) as [|o os] eqn:E; [done|].
    exists i. by eapply turn_enabled. }
  destruct (decide (todo p = [])) as [Ep|Ep], (decide (todo c = [])) as [Ec|Ec]; [by right; left| | |].
  - destruct (decide (at_ c = Waits)) as [Hcw|Hcw]; [right; right; left; by auto|].
    left. apply (Hen 1%nat c); [by rewrite Hth|done|done].
  - destruct (decide (at_ p = Waits)) as [Hpw|Hpw]; [right; right; right; by auto|].
    left. apply (Hen 0%nat p); [by rewrite Hth|done|done].
  - left. destruct (decide (at_ p = Waits)) as [Hpw|Hpw].
    + apply (Hen 1%nat c); [by rewrite Hth|done|]. intros Hcw.
      destruct Hinv as [[Hn _ _] _ _ _ _]. specialize (Hp Hpw). specialize (Hc Hcw).
      unfold q_size in Hp. rewrite Hc in Hp. cbn in Hp. lia.
    + apply (Hen 0%nat p); [by rewrite Hth|done|done].
Qed.

(** ** Concrete runs *)

(** The turn of thread [i], with the thread that its notification wakes. *)
Definition exec_notify (called : bool) (woken : option nat) (ts : list thread) : option (list thread) :=
  match called, woken with
  | false, None => Some ts
  | true, None => if decide (Forall (fun t => at_ t <> Waits) ts) then Some ts else None
  | true, Some j =>
      t ← ts !! j;
      if decide (at_ t = Waits) then Some (<[j := mk_thread (todo t) (Wakes true) (results t)]> ts)
      else None
  | false, Some _ => None
  end.

Definition exec_turn (s : state) (iw : nat * option nat) : option state :=
  let '(i, woken) := iw in
  t ← threads s !! i;
  match todo t with
  | [] => None
  | o :: _ =>
      '(nt, c) ← ready t o (shared s);
      match turn nt o c with
      | Err _ => None
      | Ok (c', called, r) =>
          ts' ← exec_notify called woken (<[i := after t r]> (threads s));
          Some (mk_state c' ts' (history s ++ entry i o r))
      end
  end.

Fixpoint exec (s : state) (sched : list (nat * option nat)) : option state :=
  match sched with
  | [] => Some s
  | iw :: sched => s' ← exec_turn s iw; exec s' sched
  end.

Lemma exec_notify_ok called woken ts ts' : exec_notify called woken ts = Some ts' -> notify called ts ts'.
Proof.
  unfold exec_notify. destruct called, woken as [j|]; try done.
  - intros (t & Hj & H)%bind_Some. case_decide; [|done]. injection H as <-. by apply notify_some.
  - case_decide as Hf; [|done]. intros [= <-]. apply notify_nobody. intros j t Hj.
    exact (Forall_lookup_1 _ _ _ _ Hf Hj).
  - by intros [= <-].
Qed.

Lemma exec_turn_ok s i woken s' : exec_turn s (i, woken) = Some s' -> step (Turn i) s s'.
Proof.
  unfold exec_turn. intros (t & Hi & H)%bind_Some. destruct (todo t) as [|o os] eqn:Ht; [done|].
  apply bind_Some in H as ([nt c] & Hr & H). destruct (turn nt o c) as [[[c' called] r]|] eqn:E; [|done].
  apply bind_Some in H as (ts' & Hn & H). injection H as <-.
  eapply step_turn; try done. by eapply exec_notify_ok.
Qed.

Definition is_turn (l : label) : Prop := match l with Turn _ => True | _ => False end.

Lemma exec_reachable s0 sched s s' :
  reachable is_turn s0 s -> exec s sched = Some s' -> reachable is_turn s0 s'.
Proof.
  revert s. induction sched as [|[i w] sched IH]; intros s Hr H; cbn in H.
  - by injection H as <-.
  - apply bind_Some in H as (s1 & H1 & H). apply (IH s1); [|done].
    apply (reach_step _ _ (Turn i) s); [done|exact I|]. by eapply exec_turn_ok.
Qed.

Definition three_senders : list (list op) :=
  [[Send [1]]; [Send [2]]; [Send [3]]; [Receive 8; Receive 8; Receive 8]].

Definition stuck_state : state :=
  mk_state (mk_queue [[2]] 1 1 1)
    [mk_thread [] Running [Sent true]; mk_thread [] Running [Sent true];
     mk_thread [Send [3]] Waits [];
     mk_thread [Receive 8; Receive 8] Waits [Received (Some ([1], 1))]]
    [(0%nat, Send [1], Sent true); (3%nat, Receive 8, Received (Some ([1], 1)));
     (1%nat, Send [2], Sent true)].

(** With more than one sender a wake-up can be lost, because senders and
    receivers wait on the same condition variable and [notify_one] may pick
    the wrong one.  Three senders and a receiver share a queue of capacity 1;
    in the state reached here the queue holds a message, the receiver waits
    for one, the third sender waits for room, and without a spurious wake-up
    nothing can happen any more. *)
Theorem wakeup_lost :
  reachable is_turn (initial 1 three_senders) stuck_state /\
  q (shared stuck_state) = [[2]] /\
  (exists t, threads stuck_state !! 3%nat = Some t /\ todo t = [Receive 8; Receive 8] /\ at_ t = Waits) /\
  (exists t, threads stuck_state !! 2%nat = Some t /\ todo t = [Send [3]] /\ at_ t = Waits) /\
  ~ exists l s', step l stuck_state s' /\ (is_turn l \/ exists i, l = Timeout i).
Proof.
  split; [|split; [done|split; [by eexists|split; [by eexists|]]]].
  - apply (exec_reachable _ [(0, None); (1, None); (2, None); (3, Some 1); (3, None); (1, Some 2);
      (2, None)]%nat (initial 1 three_senders)); [apply reach_refl|vm_compute; reflexivity].
  - intros (l & s' & Hst & Hl). inversion Hst as [i s t o os nt c c' called r ts' Hi Ht Hr|
      i s t o os Hi Ht Ha Hto|i s t Hi Ha]; subst.
    + destruct i as [|[|[|[|i]]]]; cbn in Hi; try done; injection Hi as <-; cbn in Ht, Hr; try done;
        injection Ht as <- <-; done.
    + destruct i as [|[|[|[|i]]]]; cbn in Hi; try done; injection Hi as <-; cbn in Ht; try done;
        injection Ht as <- <-; done.
    + destruct Hl as [[]|[? [=]]].
Qed.

Lemma queue_is_bounded_fifo_witness :
  let s := stuck_state in
  (exists popped, sent (history s) = popped ++ q (shared s) /\
     Forall2 delivered popped (received (history s))) /\
  q_size (shared s) <= 1 /\ enq (shared s) = 1 /\ deq (shared s) = 1.
Proof.
  destruct (queue_is_bounded_fifo is_turn 1 three_senders stuck_state) as (H1 & _ & H2 & H3 & H4 & _).
  - repeat (first [apply Forall_nil; exact I | apply Forall_cons; split]); try done.
  - apply (exec_reachable _ [(0, None); (1, None); (2, None); (3, Some 1); (3, None); (1, Some 2);
      (2, None)]%nat (initial 1 three_senders)); [apply reach_refl|vm_compute; reflexivity].
  - split; [exact H1|split; [exact H2|split; [exact H3|exact H4]]].
Defined.

Definition waiting_pair : state :=
  mk_state (mk_queue [[1]] 1 1 0)
    [mk_thread [Send [2]] Waits [Sent true]; mk_thread [Receive 8; Receive 8] Running []]
    [(0%nat, Send [1], Sent true)].

Lemma one_to_one_no_deadlock_witness :
  exists p c, threads waiting_pair = [p; c] /\
    ((exists i s', step (Turn i) waiting_pair s') \/
     (todo p = [] /\ todo c = []) \/
     (todo p = [] /\ q (shared waiting_pair) = []) \/
     (todo c = [] /\ q_size (shared waiting_pair) = n (shared waiting_pair))).
Proof.
  apply (one_to_one_no_deadlock is_turn 1 [Send [1]; Send [2]] [Receive 8; Receive 8] waiting_pair).
  - repeat (first [apply Forall_nil; exact I | apply Forall_cons; split]); done.
  - repeat (first [apply Forall_nil; exact I | apply Forall_cons; split]); done.
  - apply (exec_reachable _ [(0, None); (0, None)]%nat (initial 1 [[Send [1]; Send [2]]; [Receive 8; Receive 8]]));
      [apply reach_refl|vm_compute; reflexivity].
Defined.

End MessageQueue.
