(* ===== verification/Dispatch.v ===== *)
(** * Routing messages between threads

    [NewConcurrentMessageDispatcher] (src/network/, include/network/), the
    registry of message queues with its typed [send] and [receive];
    [NewBaseDispatcher] (include/mcs/NewBaseDispatcher.h), the map from
    identifiers to queue offsets; and one turn of the three dispatcher
    threads: [RequestDispatcher], [NewOutputDispatcher] and
    [NewJoinerDispatcher] (include/network/).  [ForwardMessage]
    (src/mcs/ForwardMessage.cpp) is what requests are made of.

    The queues are those of [MessageQueue], used by one thread at a time: an
    operation that would wait answers [Blocked], or its time-out. *)

From S2P Require Import Prelude QueryID MessageQueue.
Import MessageQueue.

Module Dispatch.

(** ** Requests *)

Record ForwardMessage := mk_fwd {
  fm_qid : N;
  fm_k1 : N;
  fm_k2 : N;
  history : gset N;
}.

Definition fwd_default : ForwardMessage := mk_fwd 0 1 1 ∅.

Definition fwd_new (q : N) (h : gset N) (k_one k_two : N) : ForwardMessage := mk_fwd q k_one k_two h.

Definition getPackSize (f : ForwardMessage) : N :=
  if fm_k2 f =? 0 then 0 else u64_add (u64_sub (fm_k2 f) (fm_k1 f)) 1.

Definition setPackRequest (f : ForwardMessage) (k_one k_two : N) : res ForwardMessage :=
  _ ← assert (k_one <=? k_two);
  mret (mk_fwd (fm_qid f) k_one k_two (history f)).

(** ** Identifiers and offsets: [NewBaseDispatcher] *)

Definition registerIdOffset (id2offset : gmap N N) (id offset : N) : res (gmap N N) :=
  match id2offset !! id with
  | Some o => _ ← assert (offset =? o); mret id2offset
  | None => mret (<[id := offset]> id2offset)
  end.

Definition unregisterIdOffset (id2offset : gmap N N) (id offset : N) : res (gmap N N) :=
  match id2offset !! id with
  | None => Err AssertFailed
  | Some o => _ ← assert (o =? offset); mret (delete id id2offset)
  end.

Definition get_offset (id2offset : gmap N N) (id : N) : res N :=
  match id2offset !! id with None => Err AssertFailed | Some o => mret o end.

(** ** The registry of queues *)

Definition REQUEST_DISPATCHER_MQ : N := 0.
Definition OUTPUT_DISPATCHER_MQ : N := 1.
Definition JOINER_DISPATCHER_MQ : N := 2.
Definition SEPARATOR : N := 3.
Definition REQUEST_MQ : N := 4.
Definition CYCLE_BREAKER_MQ : N := 5.
Definition NEIGHBOR_OUT_MQ : N := 6.
Definition NEIGHBOR_IN_MQ : N := 7.
Definition JOIN_IN_MQ : N := 8.
Definition EVAL_IN_MQ : N := 9.
Definition EVAL_OUT_MQ : N := 10.
Definition OUTPUT_MQ : N := 11.
Definition JOIN_OUT_MQ : N := 12.
Definition END_OF_MQ : N := 13.

(** A slot of a vector of queue pointers; [None] is the null pointer. *)
Abbreviation queue_vec := (list (option queue)).

Record dispatcher := mk_md { queue_size : N; cmqs : list queue_vec }.

Definition set_vec (md : dispatcher) (i : N) (v : queue_vec) : dispatcher :=
  mk_md (queue_size md) (<[N.to_nat i := v]> (cmqs md)).

Definition two_dim (type : N) : bool := (SEPARATOR <? type) && (type <? END_OF_MQ).

Definition registerMQ1 (md : dispatcher) (mq : queue) (id : N) : res dispatcher :=
  _ ← assert (id <? SEPARATOR);
  v ← vec_at (cmqs md) 0;
  _ ← vec_at v id;
  mret (set_vec md 0 (<[N.to_nat id := Some mq]> v)).

(** Storing a queue pointer, after growing the vector to hold [id]. *)
Definition put_queue (v : queue_vec) (id : N) (mq : queue) : queue_vec :=
  if id <? N.of_nat (length v) then <[N.to_nat id := Some mq]> v
  else if id =? N.of_nat (length v) then v ++ [Some mq]
  else <[N.to_nat id := Some mq]> (v ++ replicate (N.to_nat id + 1 - length v) None).

Definition registerMQ (md : dispatcher) (mq : queue) (type id : N) : res dispatcher :=
  _ ← assert (two_dim type);
  v ← vec_at (cmqs md) (type - SEPARATOR);
  mret (set_vec md (type - SEPARATOR) (put_queue v id mq)).

Definition getMQ1 (md : dispatcher) (id : N) : res (option queue) :=
  _ ← assert (id <? SEPARATOR);
  v ← vec_at (cmqs md) 0;
  vec_at v id.

Definition getMQ (md : dispatcher) (type id : N) : res (option queue) :=
  _ ← assert (two_dim type);
  v ← vec_at (cmqs md) (type - SEPARATOR);
  _ ← assert (id <? N.of_nat (length v));
  vec_at v id.

Definition createAndRegisterMQ (md : dispatcher) (type : N) : res (dispatcher * N) :=
  _ ← assert (two_dim type);
  v ← vec_at (cmqs md) (type - SEPARATOR);
  let v := v ++ [Some (queue_new (queue_size md))] in
  mret (set_vec md (type - SEPARATOR) v, N.of_nat (length v) - 1).

Definition createAndRegisterMQ_at (md : dispatcher) (type id : N) : res dispatcher :=
  _ ← assert (two_dim type);
  v ← vec_at (cmqs md) (type - SEPARATOR);
  mret (set_vec md (type - SEPARATOR) (put_queue v id (queue_new (queue_size md)))).

Definition init_neighbor_mqs (k : N) (md : dispatcher) (i : N) : res dispatcher :=
  md ← registerMQ md (queue_new k) NEIGHBOR_IN_MQ i;
  registerMQ md (queue_new k) NEIGHBOR_OUT_MQ i.

Definition init_mqs (md : dispatcher) (k no_neighbors : N) : res dispatcher :=
  let md := mk_md (queue_size md) (cmqs md ++ [replicate (N.to_nat SEPARATOR) None]) in
  md ← registerMQ1 md (queue_new k) REQUEST_DISPATCHER_MQ;
  md ← registerMQ1 md (queue_new k) OUTPUT_DISPATCHER_MQ;
  md ← registerMQ1 md (queue_new k) JOINER_DISPATCHER_MQ;
  let md := mk_md (queue_size md)
              (cmqs md ++ replicate (N.to_nat (JOIN_OUT_MQ - SEPARATOR)) []) in
  foldM (init_neighbor_mqs k) md (nrange 0 no_neighbors).

Definition md_new (k no_neighbors : N) : res dispatcher := init_mqs (mk_md k []) k no_neighbors.

(** ** Sending and receiving pointers *)

(** The bytes of a pointer variable, least significant first. *)
Fixpoint le_bytes (k : nat) (w : N) : Block :=
  match k with O => [] | S k => w mod 256 :: le_bytes k (w / 256) end.

Definition le_word (b : Block) : N := foldr (fun x acc => x + 256 * acc) 0 b.

Definition sizeof_ptr : N := 8.
Definition ptr_bytes (p : N) : Block := le_bytes (N.to_nat sizeof_ptr) p.

(** An operation run while no other thread moves. *)
Definition run (o : op) (c : queue) : res (queue * outcome) :=
  '(c, _, r) ← turn true o c;
  match r with
  | Some x => mret (c, x)
  | None =>
      if timed o then
        '(c, _, r) ← turn false o (unwait o c);
        match r with Some x => mret (c, x) | None => Err Blocked end
      else Err Blocked
  end.

Section memory.
(** The first [sizeof (mess)] bytes of the object at an address. *)
Context (mem : N -> Block).

Definition send_cmq (cmq : option queue) (mess : N) (msecs : Z) : res (queue * bool) :=
  c ← (match cmq with None => Err AssertFailed | Some c => mret c end);
  '(c, r) ← (if (0 <? msecs)%Z then run (TimedSend (ptr_bytes mess)) c
             else if (msecs <? 0)%Z then
               _ ← assert (negb (mess =? 0));
               run (TrySend (mem mess)) c
             else run (Send (ptr_bytes mess)) c);
  match r with Sent b => mret (c, b) | Received _ => Err AssertFailed end.

Definition receive_cmq (cmq : option queue) (msecs : Z) : res (queue * N) :=
  c ← (match cmq with None => Err AssertFailed | Some c => mret c end);
  '(c, r) ← run (if (0 <? msecs)%Z then TimedReceive sizeof_ptr
                 else if (msecs <? 0)%Z then TryReceive sizeof_ptr
                 else Receive sizeof_ptr) c;
  match r with
  | Received None => mret (c, 0)
  | Received (Some (b, recvd)) => _ ← assert (sizeof_ptr =? recvd); mret (c, le_word b)
  | Sent _ => Err AssertFailed
  end.

(** The queue of [(type, id)], or of the one-dimensional [type]. *)
Definition getq (md : dispatcher) (type id : N) : res (option queue) :=
  if type <? SEPARATOR then getMQ1 md type else getMQ md type id.

Definition putq (md : dispatcher) (type id : N) (c : queue) : res dispatcher :=
  if type <? SEPARATOR then registerMQ1 md c type else registerMQ md c type id.

Definition send (md : dispatcher) (type id mess : N) (msecs : Z) : res (dispatcher * bool) :=
  cmq ← getq md type id;
  '(c, b) ← send_cmq cmq mess msecs;
  md ← putq md type id c;
  mret (md, b).

Definition receive (md : dispatcher) (type id : N) (msecs : Z) : res (dispatcher * N) :=
  cmq ← getq md type id;
  '(c, p) ← receive_cmq cmq msecs;
  md ← putq md type id c;
  mret (md, p).

(** ** The dispatcher threads

    Each function is one turn of the [while] loop; [false] says that it broke
    out of the loop. The objects are found under their addresses. *)

Definition request_turn (heap : gmap N ForwardMessage) (id2offset : gmap N N) (md : dispatcher)
    : res (dispatcher * bool) :=
  '(md, p) ← receive md REQUEST_DISPATCHER_MQ 0 0;
  if p =? 0 then mret (md, false)
  else
    request ← not_null (heap !! p);
    let qid := fm_qid request in
    let receiver := QueryID.receiver_from_qid qid in
    offset ← get_offset id2offset receiver;
    if QueryID.is_shutdown qid then
      '(md, _) ← send md REQUEST_MQ offset p 0;
      '(md, _) ← send md CYCLE_BREAKER_MQ offset p 0;
      mret (md, true)
    else if bool_decide (receiver ∈ history request) then
      '(md, _) ← send md CYCLE_BREAKER_MQ offset p 0;
      mret (md, true)
    else
      '(md, _) ← send md REQUEST_MQ offset p 0;
      mret (md, true).

(** The records are given by their query identifiers. *)
Definition output_turn (heap : gmap N N) (id2offset : gmap N N) (md : dispatcher)
    : res (dispatcher * bool) :=
  '(md, p) ← receive md OUTPUT_DISPATCHER_MQ 0 0;
  if p =? 0 then mret (md, false)
  else
    qid ← not_null (heap !! p);
    offset ← get_offset id2offset (QueryID.ctxid_from_qid qid);
    '(md, _) ← send md OUTPUT_MQ offset p 0;
    mret (md, true).

Definition move_record (heap : gmap N N) (neighbor_offset : N) (md : dispatcher) (i : N)
    : res dispatcher :=
  '(md, p) ← receive md NEIGHBOR_IN_MQ neighbor_offset 0;
  qid ← not_null (heap !! p);
  '(md, _) ← send md JOIN_IN_MQ (QueryID.joiner_offset_from_qid qid) p 0;
  mret md.

(** A notification is a neighbor offset and a number of records. *)
Definition joiner_turn (notes : gmap N (N * N)) (heap : gmap N N) (md : dispatcher)
    : res (dispatcher * bool) :=
  '(md, p) ← receive md JOINER_DISPATCHER_MQ 0 0;
  if p =? 0 then mret (md, false)
  else
    '(neighbor_offset, no_belief_state) ← not_null (notes !! p);
    md ← foldM (move_record heap neighbor_offset) md (nrange 0 no_belief_state);
    mret (md, true).

End memory.

(** ** The queues a dispatcher starts with *)

Lemma put_queue_snoc v q : put_queue v (N.of_nat (length v)) q = v ++ [Some q].
Proof. unfold put_queue. by rewrite N.ltb_irrefl, N.eqb_refl. Qed.

(** The three queues of the dispatchers, and one queue for requests to and one
    for answers from every neighbor. *)
Lemma md_new_ok k no_neighbors :
  let q := Some (queue_new k) in
  let qs := replicate (N.to_nat no_neighbors) q in
  md_new k no_neighbors = Ok (mk_md k [[q; q; q]; []; []; qs; qs; []; []; []; []; []]).
Proof.
  intros q qs. unfold md_new, init_mqs. cbn [queue_size cmqs app replicate N.to_nat SEPARATOR].
  change (registerMQ1 _ (queue_new k) REQUEST_DISPATCHER_MQ) with (Ok (mk_md k [[q; None; None]])). rsimpl.
  change (registerMQ1 _ (queue_new k) OUTPUT_DISPATCHER_MQ) with (Ok (mk_md k [[q; q; None]])). rsimpl.
  change (registerMQ1 _ (queue_new k) JOINER_DISPATCHER_MQ) with (Ok (mk_md k [[q; q; q]])). rsimpl.
  destruct (foldM_nrange (fun i md => md = mk_md k [[q; q; q]; []; []; replicate (N.to_nat i) q;
    replicate (N.to_nat i) q; []; []; []; []; []]) (init_neighbor_mqs k)
    (mk_md k [[q; q; q]; []; []; []; []; []; []; []; []; []]) no_neighbors) as (md & E & ->); [done| |exact E].
  intros i md Hi ->. exists (mk_md k [[q; q; q]; []; []; replicate (N.to_nat (i + 1)) q;
    replicate (N.to_nat (i + 1)) q; []; []; []; []; []]). split; [|done].
  assert (Hput : put_queue (replicate (N.to_nat i) q) i (queue_new k) = replicate (N.to_nat (i + 1)) q).
  { replace (N.to_nat (i + 1)) with (N.to_nat i + 1)%nat by lia. rewrite replicate_add.
    pose proof (put_queue_snoc (replicate (N.to_nat i) q) (queue_new k)) as Hp.
    rewrite length_replicate, N2Nat.id in Hp. exact Hp. }
  unfold init_neighbor_mqs, registerMQ. cbn [cmqs queue_size].
  change (assert (two_dim NEIGHBOR_IN_MQ)) with (Ok tt). change (assert (two_dim NEIGHBOR_OUT_MQ)) with (Ok tt). rsimpl.
  change (NEIGHBOR_IN_MQ - SEPARATOR) with 4. change (NEIGHBOR_OUT_MQ - SEPARATOR) with 3.
  change (vec_at [[q; q; q]; []; []; replicate (N.to_nat i) q; replicate (N.to_nat i) q; []; []; []; []; []] 4)
    with (Ok (replicate (N.to_nat i) q)). rsimpl. rewrite Hput.
  unfold set_vec. cbn [cmqs queue_size]. 
  cbn [N.to_nat Pos.to_nat Pos.iter_op Nat.add insert list_insert].
  match goal with |- context [vec_at ?v 3] => change (vec_at v 3) with (Ok (replicate (N.to_nat i) q)) end.
  rsimpl. rewrite Hput. done.
Qed.

(** ** Words and bytes *)

Lemma le_word_bytes k w : le_word (le_bytes k w) = w mod 256 ^ N.of_nat k.
Proof.
  revert w. induction k as [|k IH]; intros w; [by rewrite N.mod_1_r|].
  cbn [le_bytes]. unfold le_word in *. cbn [foldr]. rewrite IH, Nat2N.inj_succ, N.pow_succ_r'.
  by rewrite N.Div0.mod_mul_r.
Qed.

Lemma length_le_bytes k w : length (le_bytes k w) = k.
Proof. revert w. induction k; intros w; cbn; by f_equal. Qed.

Lemma ptr_roundtrip p : p < W64 -> le_word (ptr_bytes p) = p.
Proof. intros Hp. unfold ptr_bytes. rewrite le_word_bytes. by apply N.mod_small. Qed.

Lemma length_ptr_bytes p : length (ptr_bytes p) = 8%nat.
Proof. apply length_le_bytes. Qed.

Lemma ptr_bytes_nonempty p : ptr_bytes p <> [].
Proof. intros H. apply (f_equal length) in H. by rewrite length_ptr_bytes in H. Qed.

#[global] Arguments ptr_bytes : simpl never.

(** ** Slots *)

(** Where a queue is kept. *)
Definition slot (type id : N) : nat * nat :=
  if type <? SEPARATOR then (0%nat, N.to_nat type) else (N.to_nat (type - SEPARATOR), N.to_nat id).

Definition a_type (type : N) : Prop := type < END_OF_MQ /\ type <> SEPARATOR.

Lemma getq_ok md type id x :
  getq md type id = Ok x <->
  a_type type /\ exists v, cmqs md !! (slot type id).1 = Some v /\ v !! (slot type id).2 = Some x.
Proof.
  unfold getq, getMQ1, getMQ, slot, a_type, two_dim. change END_OF_MQ with 13. change SEPARATOR with 3.
  destruct (N.ltb_spec type 3) as [Ht|Ht].
  - change (assert true) with (Ok tt). rsimpl. cbn [fst snd]. split.
    + intros (v & Hv%vec_at_ok & Hx%vec_at_ok)%bind_ok. split; [lia|]. by exists v.
    + intros [_ (v & Hv & Hx)]. apply bind_ok. exists v. by rewrite !vec_at_ok.
  - cbn [fst snd]. split.
    + intros ([] & Ha%assert_ok & H)%bind_ok. bsimpl.
      apply bind_ok in H as (v & Hv%vec_at_ok & H). apply bind_ok in H as ([] & _ & Hx%vec_at_ok).
      split; [lia|]. by exists v.
    + intros [Ht' (v & Hv & Hx)]. apply bind_ok. exists tt.
      split; [rewrite assert_ok, andb_true_iff, !N.ltb_lt; lia|].
      apply bind_ok. exists v. rewrite vec_at_ok. split; [done|].
      apply bind_ok. exists tt. rewrite assert_ok, N.ltb_lt, vec_at_ok. split; [|done].
      apply lookup_lt_Some in Hx. lia.
Qed.

Lemma slot_type t t' i i' : t <> SEPARATOR -> t' <> SEPARATOR -> slot t i = slot t' i' -> t = t'.
Proof.
  unfold slot. change SEPARATOR with 3. intros H H'.
  destruct (N.ltb_spec t 3), (N.ltb_spec t' 3); intros [= E]; lia.
Qed.

Lemma slot_id t i i' : SEPARATOR < t -> slot t i = slot t i' -> i = i'.
Proof.
  unfold slot. change SEPARATOR with 3. intros Ht. destruct (N.ltb_spec t 3); [lia|]. intros [= E]. lia.
Qed.

(** Two slots differ because their types or their identifiers do. *)
Ltac other_slot :=
  solve [ let E := fresh in intros E; apply slot_type in E;
          [vm_compute in E; discriminate E|vm_compute; discriminate|vm_compute; discriminate]
        | let E := fresh in intros E; apply slot_id in E; [congruence|reflexivity] ].

(** Storing into an occupied slot changes that slot only. *)
Lemma putq_ok md type id x c :
  getq md type id = Ok x ->
  exists md', putq md type id c = Ok md' /\ queue_size md' = queue_size md /\
    getq md' type id = Ok (Some c) /\
    forall type' id', slot type' id' <> slot type id ->
      forall y, getq md' type' id' = Ok y <-> getq md type' id' = Ok y.
Proof.
  intros [Ht (v & Hv & Hx)]%getq_ok.
  exists (mk_md (queue_size md) (<[(slot type id).1 := <[(slot type id).2 := Some c]> v]> (cmqs md))).
  assert (Hput : putq md type id c = Ok (mk_md (queue_size md)
    (<[(slot type id).1 := <[(slot type id).2 := Some c]> v]> (cmqs md)))).
  { unfold putq, registerMQ1, registerMQ, slot, two_dim, set_vec, a_type in *.
    change END_OF_MQ with 13 in *. change SEPARATOR with 3 in *.
    destruct (N.ltb_spec type 3) as [Hlt|Hge]; cbn [fst snd] in *.
    - change (assert true) with (Ok tt). rsimpl. apply bind_ok. exists v. rewrite vec_at_ok. split; [done|].
      apply bind_ok. exists x. by rewrite vec_at_ok.
    - apply bind_ok. exists tt. split; [rewrite assert_ok, andb_true_iff, !N.ltb_lt; lia|].
      apply bind_ok. exists v. rewrite vec_at_ok. split; [done|].
      apply lookup_lt_Some in Hx. unfold put_queue.
      by destruct (N.ltb_spec id (N.of_nat (length v))); [|lia]. }
  split; [done|]. split; [done|]. split.
  - apply getq_ok. split; [done|]. eexists. cbn. split.
    + apply list_lookup_insert_eq. by eapply lookup_lt_Some.
    + apply list_lookup_insert_eq. by eapply lookup_lt_Some.
  - intros type' id' Hne y. rewrite !getq_ok. cbn [cmqs].
    destruct (slot type id) as [a b], (slot type' id') as [a' b']. cbn [fst snd] in *.
    f_equiv. destruct (decide (a' = a)) as [->|Hn]; [|by rewrite list_lookup_insert_ne].
    rewrite list_lookup_insert_eq by (by eapply lookup_lt_Some). rewrite Hv.
    assert (b' <> b) by congruence.
    split; intros (w & [= <-] & Hy); (eexists; split; [reflexivity|]).
    + by rewrite list_lookup_insert_ne in Hy.
    + by rewrite list_lookup_insert_ne.
Qed.

(** ** Operations that need not wait *)

Lemma run_send b c : b <> [] -> q_size c < n c -> run (Send b) c = Ok (pushBlock c b, Sent true).
Proof.
  intros Hb Hc. unfold run. cbn [turn]. rewrite (assert_nonempty _ Hb). rsimpl.
  unfold waitOnCapacity. by destruct (N.eqb_spec (n c) (q_size c)); [lia|].
Qed.

Lemma run_try_send b c : b <> [] -> q_size c < n c -> run (TrySend b) c = Ok (pushBlock c b, Sent true).
Proof.
  intros Hb Hc. unfold run. cbn [turn]. rewrite (assert_nonempty _ Hb). rsimpl.
  by destruct (N.ltb_spec (q_size c) (n c)); [|lia].
Qed.

Lemma run_receive c b l :
  q c = b :: l -> length b = 8%nat ->
  run (Receive sizeof_ptr) c = Ok (set_q c l, Received (Some (b, sizeof_ptr))).
Proof.
  intros Hq Hb. unfold run. cbn [turn]. change (assert (0 <? sizeof_ptr)) with (Ok tt). rsimpl.
  unfold waitOnEmpty.
  destruct (N.eqb_spec (q_size c) 0) as [E|_]; [unfold q_size in E; rewrite Hq in E; cbn in E; lia|].
  unfold popBlock. rewrite Hq, Hb. reflexivity.
Qed.

(** ** Queues of pointers

    The queue of [(type, id)] has capacity [k] and holds the pointers [ps]. *)
Definition chan (md : dispatcher) (type id k : N) (ps : list N) : Prop :=
  exists c, getq md type id = Ok (Some c) /\ n c = k /\ q c = ptr_bytes <$> ps /\
    Forall (fun p => p < W64) ps /\ 0 < k /\ N.of_nat (length ps) <= k.

Definition others_same (md md' : dispatcher) (type id : N) : Prop :=
  forall type' id', slot type' id' <> slot type id ->
    forall k ps, chan md type' id' k ps -> chan md' type' id' k ps.

Lemma chan_queue_wf c k ps :
  n c = k -> q c = ptr_bytes <$> ps -> 0 < k -> N.of_nat (length ps) <= k -> queue_wf c.
Proof.
  intros <- Hq Hk Hl. split; [done|unfold q_size; by rewrite Hq, length_fmap|].
  rewrite Hq. apply Forall_fmap, Forall_forall. intros p _. apply ptr_bytes_nonempty.
Qed.

Lemma putq_chan md type id x c k ps :
  getq md type id = Ok x -> n c = k -> q c = ptr_bytes <$> ps -> Forall (fun p => p < W64) ps ->
  0 < k -> N.of_nat (length ps) <= k ->
  exists md', putq md type id c = Ok md' /\ chan md' type id k ps /\ others_same md md' type id.
Proof.
  intros Hg Hn Hq Hp Hk Hl. destruct (putq_ok md type id x c Hg) as (md' & H & _ & Hg' & Ho).
  exists md'. split; [done|]. split; [by exists c|].
  intros type' id' Hne k' ps' (c' & Hc' & H'). exists c'. split; [|done]. by apply Ho.
Qed.

Section fifo.
Context (mem : N -> Block).

Lemma send_ok md type id k ps p :
  chan md type id k ps -> N.of_nat (length ps) < k -> p < W64 ->
  exists md', send mem md type id p 0 = Ok (md', true) /\
    chan md' type id k (ps ++ [p]) /\ others_same md md' type id.
Proof.
  intros (c & Hg & Hn & Hq & Hps & Hk & Hl) Hroom Hp.
  destruct (putq_chan md type id (Some c) (pushBlock c (ptr_bytes p)) k (ps ++ [p]) Hg)
    as (md' & Hput & Hch & Ho); [done| | |done| |].
  - cbn. by rewrite Hq, fmap_app.
  - apply Forall_app. by split; [|apply Forall_singleton].
  - rewrite length_app. cbn. lia.
  - exists md'. split; [|done]. unfold send. rewrite Hg. rsimpl.
    unfold send_cmq. rsimpl. change (0 <? 0)%Z with false. cbn match.
    rewrite run_send; [|apply ptr_bytes_nonempty|unfold q_size; rewrite Hq, length_fmap, Hn; lia].
    rsimpl. rewrite Hput. reflexivity.
Qed.

Lemma receive_ok md type id k p ps :
  chan md type id k (p :: ps) ->
  exists md', receive md type id 0 = Ok (md', p) /\
    chan md' type id k ps /\ others_same md md' type id.
Proof.
  intros (c & Hg & Hn & Hq & Hps & Hk & Hl). apply Forall_cons in Hps as [Hp Hps]. cbn in Hl.
  rewrite fmap_cons in Hq.
  destruct (putq_chan md type id (Some c) (set_q c (ptr_bytes <$> ps)) k ps Hg)
    as (md' & Hput & Hch & Ho); [done|done|done|done|lia|].
  exists md'. split; [|done]. unfold receive. rewrite Hg. rsimpl.
  unfold receive_cmq. rsimpl. change (0 <? 0)%Z with false. cbn match.
  rewrite (run_receive c _ _ Hq (length_ptr_bytes p)). rsimpl.
  change (assert (sizeof_ptr =? sizeof_ptr)) with (Ok tt). rsimpl. rewrite ptr_roundtrip by done.
  rewrite Hput. reflexivity.
Qed.

(** Through a queue of the dispatcher, pointers travel unchanged and in
    order: an untimed [send] into a queue with room appends the pointer, an
    untimed [receive] takes the oldest one, and no other queue is touched. *)
Theorem pointers_travel_in_order md type id k ps p :
  chan md type id k (p :: ps) -> N.of_nat (length (p :: ps)) < k -> forall p', p' < W64 ->
  exists md1 md2, send mem md type id p' 0 = Ok (md1, true) /\
    receive md1 type id 0 = Ok (md2, p) /\
    chan md2 type id k (ps ++ [p']) /\ others_same md md2 type id.
Proof.
  intros Hc Hroom p' Hp'. destruct (send_ok md type id k (p :: ps) p' Hc Hroom Hp') as (md1 & H1 & Hc1 & Ho1).
  destruct (receive_ok md1 type id k p (ps ++ [p']) Hc1) as (md2 & H2 & Hc2 & Ho2).
  exists md1, md2. repeat split; try done. intros t' i' Hne k' ps' Hch. by apply Ho2, Ho1.
Qed.

(** A non-blocking [send] ([msecs < 0]) does not send the pointer but
    the first bytes of the object it points to: the receiver gets the
    object's first word in place of its address.  A null pointer, the marker
    for the end of work, makes the queue's assertion fail. *)
Theorem nonblocking_send_corrupts md type id k p msecs :
  chan md type id k [] -> (msecs < 0)%Z ->
  (length (mem p) = 8%nat -> p <> 0 ->
   exists md1 md2, send mem md type id p msecs = Ok (md1, true) /\
     receive md1 type id 0 = Ok (md2, le_word (mem p))) /\
  send mem md type id 0 msecs = Err AssertFailed.
Proof.
  intros (c & Hg & Hn & Hq & _ & Hk & _) Hm.
  assert ((0 <? msecs)%Z = false /\ (msecs <? 0)%Z = true) as [Hneg1 Hneg2] by (split; lia).
  split.
  - intros Hlen Hp.
    assert (Hne : mem p <> []) by (intros E; by rewrite E in Hlen).
    destruct (putq_ok md type id (Some c) (pushBlock c (mem p)) Hg) as (md1 & Hput1 & _ & Hg1 & _).
    destruct (putq_ok md1 type id _ (set_q (pushBlock c (mem p)) []) Hg1) as (md2 & Hput2 & _ & _ & _).
    exists md1, md2. split.
    + unfold send. rewrite Hg. rsimpl. unfold send_cmq. rsimpl. rewrite Hneg1, Hneg2.
      replace (negb (p =? 0)) with true by (symmetry; apply negb_true_iff, N.eqb_neq; done).
      change (assert true) with (Ok tt). rsimpl.
      rewrite run_try_send; [|done|unfold q_size; rewrite Hq, Hn; cbn; lia].
      rsimpl. rewrite Hput1. reflexivity.
    + unfold receive. rewrite Hg1. rsimpl. unfold receive_cmq. rsimpl. change (0 <? 0)%Z with false. cbn match.
      rewrite (run_receive _ (mem p) []); [|cbn; by rewrite Hq|done]. rsimpl.
      change (assert (sizeof_ptr =? sizeof_ptr)) with (Ok tt). rsimpl. rewrite Hput2. reflexivity.
  - unfold send. rewrite Hg. rsimpl. unfold send_cmq. rsimpl. by rewrite Hneg1, Hneg2.
Qed.

Lemma chan_frame md md' type id type' id' k ps :
  others_same md md' type id -> slot type' id' <> slot type id ->
  chan md type' id' k ps -> chan md' type' id' k ps.
Proof. intros Ho Hne. by apply Ho. Qed.

(** C40.  The request dispatcher delivers each request to the context it is
    addressed to: to the context's own queue when the context is not in the
    request's history, to its cycle breaker when it is, and to both when the
    request is a shutdown.  Queues of other contexts are not touched. *)
Theorem request_routed heap ids md p f off k0 k1 k2 ps qs bs :
  let shut := QueryID.is_shutdown (fm_qid f) in
  let seen := bool_decide (QueryID.receiver_from_qid (fm_qid f) ∈ history f) in
  chan md REQUEST_DISPATCHER_MQ 0 k0 (p :: ps) -> p <> 0 -> heap !! p = Some f ->
  ids !! QueryID.receiver_from_qid (fm_qid f) = Some off ->
  chan md REQUEST_MQ off k1 qs -> N.of_nat (length qs) < k1 ->
  chan md CYCLE_BREAKER_MQ off k2 bs -> N.of_nat (length bs) < k2 ->
  exists md', request_turn mem heap ids md = Ok (md', true) /\
    chan md' REQUEST_DISPATCHER_MQ 0 k0 ps /\
    chan md' REQUEST_MQ off k1 (if shut || negb seen then qs ++ [p] else qs) /\
    chan md' CYCLE_BREAKER_MQ off k2 (if shut || seen then bs ++ [p] else bs) /\
    (forall off' k qs', off' <> off -> chan md REQUEST_MQ off' k qs' -> chan md' REQUEST_MQ off' k qs') /\
    (forall off' k qs', off' <> off ->
       chan md CYCLE_BREAKER_MQ off' k qs' -> chan md' CYCLE_BREAKER_MQ off' k qs').
Proof.
  intros shut seen Hc Hp Hf Hids Hq Hqr Hb Hbr.
  assert (Hp64 : p < W64) by (destruct Hc as (c & _ & _ & _ & H & _); by inversion H).
  destruct (receive_ok md _ _ _ _ _ Hc) as (m1 & R1 & C1 & O1).
  apply (chan_frame _ _ _ _ _ _ _ _ O1) in Hq; [|other_slot].
  apply (chan_frame _ _ _ _ _ _ _ _ O1) in Hb; [|other_slot].
  destruct (send_ok m1 _ _ _ _ p Hq Hqr Hp64) as (m2 & R2 & C2 & O2).
  destruct (send_ok m1 _ _ _ _ p Hb Hbr Hp64) as (m3 & R3 & C3 & O3).
  pose proof Hb as Hb2. apply (chan_frame _ _ _ _ _ _ _ _ O2) in Hb2; [|other_slot].
  destruct (send_ok m2 _ _ _ _ p Hb2 Hbr Hp64) as (m4 & R4 & C4 & O4).
  unfold request_turn. rewrite R1. rsimpl. destruct (N.eqb_spec p 0); [done|]. rewrite Hf.
  change (not_null (Some f)) with (Ok f). rsimpl. unfold get_offset. rewrite Hids. rsimpl.
  fold shut. fold seen. destruct shut; [|destruct seen]; cbn [orb negb].
  - rewrite R2. rsimpl. rewrite R4. rsimpl. exists m4.
    split; [done|]. split; [apply O4; [other_slot|]; apply O2; [other_slot|done]|].
    split; [apply O4; [other_slot|done]|]. split; [done|].
    split; intros off' k qs' Hne H;
      (apply O4; [other_slot|]; apply O2; [other_slot|]; apply O1; [other_slot|done]).
  - rewrite R3. rsimpl. exists m3.
    split; [done|]. split; [apply O3; [other_slot|done]|]. split; [apply O3; [other_slot|done]|]. split; [done|].
    split; intros off' k qs' Hne H; (apply O3; [other_slot|]; apply O1; [other_slot|done]).
  - rewrite R2. rsimpl. exists m2.
    split; [done|]. split; [apply O2; [other_slot|done]|]. split; [done|]. split; [apply O2; [other_slot|done]|].
    split; intros off' k qs' Hne H; (apply O2; [other_slot|]; apply O1; [other_slot|done]).
Qed.

(** One pack of records, moved from the neighbor's queue to the joiner's. *)
Lemma move_records_ok heap noff j l rs : forall md k k' rest js,
  length l = length rs ->
  chan md NEIGHBOR_IN_MQ noff k (rs ++ rest) -> chan md JOIN_IN_MQ j k' js ->
  Forall (fun r => exists qid, heap !! r = Some qid /\ QueryID.joiner_offset_from_qid qid = j) rs ->
  N.of_nat (length js + length rs) <= k' ->
  exists md', foldM (move_record mem heap noff) md l = Ok md' /\
    chan md' NEIGHBOR_IN_MQ noff k rest /\ chan md' JOIN_IN_MQ j k' (js ++ rs) /\
    (forall t i k ps, slot t i <> slot NEIGHBOR_IN_MQ noff -> slot t i <> slot JOIN_IN_MQ j ->
       chan md t i k ps -> chan md' t i k ps).
Proof.
  revert l. induction rs as [|r rs IH]; intros l md k k' rest js Hl Hin Hj Hrs Hroom.
  - destruct l; [|done]. exists md. rewrite app_nil_r. by cbn.
  - destruct l as [|x l]; [done|]. cbn [length app] in *. apply Forall_cons in Hrs as [(qid & Hr & Hqj) Hrs].
    assert (Hr64 : r < W64) by (destruct Hin as (c & _ & _ & _ & H & _); by inversion H).
    destruct (receive_ok md _ _ _ _ _ Hin) as (m1 & R1 & C1 & O1).
    apply (chan_frame _ _ _ _ _ _ _ _ O1) in Hj; [|other_slot].
    destruct (send_ok m1 _ _ _ _ r Hj ltac:(lia) Hr64) as (m2 & R2 & C2 & O2).
    apply (chan_frame _ _ _ _ _ _ _ _ O2) in C1; [|other_slot].
    destruct (IH l m2 k k' rest (js ++ [r]) ltac:(lia) C1 C2 Hrs) as (m3 & R3 & C3 & C4 & O3);
      [rewrite length_app; cbn; lia|].
    exists m3. rewrite <- app_assoc in C4. split; [|split; [done|split; [done|]]].
    + assert (Hstep : move_record mem heap noff md x = Ok m2).
      { unfold move_record. rewrite R1. rsimpl. rewrite Hr.
        change (not_null (Some qid)) with (Ok qid). rsimpl. by rewrite Hqj, R2. }
      cbn [foldM]. rewrite Hstep. exact R3.
    + intros t i k1 ps Hn1 Hn2 H. apply O3; [done|done|]. apply O2; [done|]. by apply O1.
Qed.

(** The joiner dispatcher hands each announced pack to the joiner that
    asked for it: on a notification of [length rs] records from a neighbor,
    all addressed to joiner [j], it moves exactly these from the neighbor's
    queue to the end of the joiner's, in order, and touches no other queue. *)
Theorem pack_delivered notes heap md p ps noff rs rest j js k0 k k' :
  chan md JOINER_DISPATCHER_MQ 0 k0 (p :: ps) -> p <> 0 ->
  notes !! p = Some (noff, N.of_nat (length rs)) ->
  chan md NEIGHBOR_IN_MQ noff k (rs ++ rest) -> chan md JOIN_IN_MQ j k' js ->
  Forall (fun r => exists qid, heap !! r = Some qid /\ QueryID.joiner_offset_from_qid qid = j) rs ->
  N.of_nat (length js + length rs) <= k' ->
  exists md', joiner_turn mem notes heap md = Ok (md', true) /\
    chan md' JOINER_DISPATCHER_MQ 0 k0 ps /\
    chan md' NEIGHBOR_IN_MQ noff k rest /\ chan md' JOIN_IN_MQ j k' (js ++ rs) /\
    (forall t i k ps, t <> SEPARATOR -> t <> JOINER_DISPATCHER_MQ ->
       slot t i <> slot NEIGHBOR_IN_MQ noff -> slot t i <> slot JOIN_IN_MQ j ->
       chan md t i k ps -> chan md' t i k ps).
Proof.
  intros Hc Hp Hn Hin Hj Hrs Hroom.
  destruct (receive_ok md _ _ _ _ _ Hc) as (m1 & R1 & C1 & O1).
  apply (chan_frame _ _ _ _ _ _ _ _ O1) in Hj; [|other_slot].
  apply (chan_frame _ _ _ _ _ _ _ _ O1) in Hin; [|other_slot].
  destruct (move_records_ok heap noff j (nrange 0 (N.of_nat (length rs))) rs m1 k k' rest js)
    as (m2 & R2 & C2 & C3 & O2); try done.
  { rewrite length_nrange. lia. }
  exists m2. split; [|split; [apply O2; [other_slot|other_slot|done]|split; [done|split; [done|]]]].
  - unfold joiner_turn. rewrite R1. rsimpl. destruct (N.eqb_spec p 0); [done|]. rewrite Hn.
    cbn [not_null]. change (not_null (Some (noff, N.of_nat (length rs)))) with (Ok (noff, N.of_nat (length rs))).
    rsimpl. rewrite R2. reflexivity.
  - intros t i k1 ps1 Ht1 Ht2 Hn1 Hn2 H. apply O2; [done|done|]. apply O1; [|done].
    intros E. apply slot_type in E; [done|done|]. by vm_compute.
Qed.

End fifo.

(** ** Concrete registries *)

Definition the_md : dispatcher := Eval vm_compute in
  match
    md ← md_new 4 1;
    '(md, _) ← createAndRegisterMQ md REQUEST_MQ;
    '(md, _) ← createAndRegisterMQ md REQUEST_MQ;
    md ← createAndRegisterMQ_at md CYCLE_BREAKER_MQ 1;
    md ← createAndRegisterMQ_at md JOIN_IN_MQ 1;
    '(md, _) ← send ptr_bytes md REQUEST_DISPATCHER_MQ 0 4096 0;
    '(md, _) ← send ptr_bytes md JOINER_DISPATCHER_MQ 0 8192 0;
    '(md, _) ← send ptr_bytes md NEIGHBOR_IN_MQ 0 4104 0;
    '(md, _) ← send ptr_bytes md NEIGHBOR_IN_MQ 0 4112 0;
    mret md
  with Ok md => md | Err _ => mk_md 0 [] end.

Ltac channel := eexists; split; [vm_compute; reflexivity|]; split; [reflexivity|]; split; [vm_compute; reflexivity|];
  split; [repeat (first [apply Forall_nil; exact I|apply Forall_cons; split; [reflexivity|]])|];
  split; [reflexivity|vm_compute; discriminate].

Definition a_request : ForwardMessage :=
  fwd_new (QueryID.set_neighbor_id (QueryID.query_id2 2 7) 5) {[5]} 1 3.

Lemma pointers_travel_in_order_witness :
  exists md1 md2, send ptr_bytes the_md NEIGHBOR_IN_MQ 0 4120 0 = Ok (md1, true) /\
    receive md1 NEIGHBOR_IN_MQ 0 0 = Ok (md2, 4104) /\
    chan md2 NEIGHBOR_IN_MQ 0 4 ([4112] ++ [4120]) /\ others_same the_md md2 NEIGHBOR_IN_MQ 0.
Proof.
  apply (pointers_travel_in_order ptr_bytes the_md NEIGHBOR_IN_MQ 0 4 [4112] 4104); [channel|reflexivity|reflexivity].
Defined.

Lemma nonblocking_send_corrupts_witness :
  (exists md1 md2, send (fun p => ptr_bytes (p + 1)) the_md NEIGHBOR_OUT_MQ 0 4096 (-1) = Ok (md1, true) /\
     receive md1 NEIGHBOR_OUT_MQ 0 0 = Ok (md2, 4097)) /\
  send (fun p => ptr_bytes (p + 1)) the_md NEIGHBOR_OUT_MQ 0 0 (-1) = Err AssertFailed.
Proof.
  destruct (nonblocking_send_corrupts (fun p => ptr_bytes (p + 1)) the_md NEIGHBOR_OUT_MQ 0 4 4096 (-1))
    as [H1 H2]; [channel|lia|].
  split; [|exact H2]. exact (H1 eq_refl ltac:(discriminate)).
Defined.

Lemma request_routed_witness :
  exists md', request_turn ptr_bytes {[4096 := a_request]} {[5 := 1]} the_md = Ok (md', true) /\
    chan md' REQUEST_DISPATCHER_MQ 0 4 [] /\
    chan md' REQUEST_MQ 1 4 [] /\ chan md' CYCLE_BREAKER_MQ 1 4 [4096].
Proof.
  destruct (request_routed ptr_bytes {[4096 := a_request]} {[5 := 1]} the_md 4096 a_request 1 4 4 4 [] [] [])
    as (md' & H1 & H2 & H3 & H4 & _);
    [channel|discriminate|vm_compute; reflexivity|vm_compute; reflexivity|channel|reflexivity|channel|reflexivity|].
  exists md'. split; [exact H1|]. split; [exact H2|]. split; [exact H3|exact H4].
Defined.

Lemma pack_delivered_witness :
  let qid := QueryID.set_joiner_offset (QueryID.query_id2 2 7) 1 in
  exists md', joiner_turn ptr_bytes {[8192 := (0, 2)]} {[4104 := qid; 4112 := qid]} the_md = Ok (md', true) /\
    chan md' JOINER_DISPATCHER_MQ 0 4 [] /\ chan md' NEIGHBOR_IN_MQ 0 4 [] /\
    chan md' JOIN_IN_MQ 1 4 [4104; 4112].
Proof.
  intros qid.
  destruct (pack_delivered ptr_bytes {[8192 := (0, 2)]} {[4104 := qid; 4112 := qid]} the_md 8192 [] 0
    [4104; 4112] [] 1 [] 4 4 4) as (md' & H1 & H2 & H3 & H4 & _);
    [channel|discriminate|vm_compute; reflexivity|channel|channel| |vm_compute; discriminate|].
  - apply Forall_cons. split; [exists qid; split; vm_compute; reflexivity|].
    apply Forall_cons. split; [exists qid; split; vm_compute; reflexivity|]. apply Forall_nil. exact I.
  - exists md'. split; [exact H1|]. split; [exact H2|]. split; [exact H3|exact H4].
Defined.

End Dispatch.
