(* ===== verification/Odometer.v ===== *)
(** * Mixed-radix counters

    [StreamingJoiner] goes through all combinations twice, once over the packs
    of its neighbors and once over the belief states of the packs at hand.
    Both loops advance a vector of positions like an odometer.  This file has
    the counter they are compared with: [csucc] advances the first digit and
    carries to the right. *)

From S2P Require Import Prelude.

Module Odometer.

(** The radices [ps] and the digits [v], least significant first. *)
Fixpoint csucc (ps v : list N) : option (list N) :=
  match ps, v with
  | p :: ps, d :: v =>
      if d + 1 <? p then Some (d + 1 :: v) else cons 0 <$> csucc ps v
  | _, _ => None
  end.

Fixpoint cval (ps v : list N) : N :=
  match ps, v with p :: ps, d :: v => d + p * cval ps v | _, _ => 0 end.

Fixpoint capacity (ps : list N) : N := match ps with [] => 1 | p :: ps => p * capacity ps end.

Definition in_range (ps v : list N) : Prop := Forall2 (fun p d => d < p) ps v.

Definition zeros (ps : list N) : list N := replicate (length ps) 0.

Lemma zeros_range ps : Forall (fun p => 0 < p) ps -> in_range ps (zeros ps).
Proof. intros H. induction H as [|p ps Hp _ IH]; by constructor. Qed.

Lemma cval_zeros ps : cval ps (zeros ps) = 0.
Proof. induction ps as [|p ps IH]; [done|]. cbn. fold (zeros ps). rewrite IH. lia. Qed.

Lemma cval_lt ps v : in_range ps v -> cval ps v < capacity ps.
Proof. intros H. induction H as [|p d ps v Hd _ IH]; cbn; [lia|]. nia. Qed.

Lemma cval_inj ps v w : in_range ps v -> in_range ps w -> cval ps v = cval ps w -> v = w.
Proof.
  intros Hv. revert w. induction Hv as [|p d ps v Hd _ IH]; intros w Hw E; inversion Hw as [|? e ? w' He Hw']; subst; [done|].
  cbn in E. assert (cval ps v = cval ps w') as Ev by nia.
  rewrite Ev in E. f_equal; [nia|]. by apply IH.
Qed.

Lemma csucc_some ps v v' :
  in_range ps v -> csucc ps v = Some v' -> in_range ps v' /\ cval ps v' = cval ps v + 1.
Proof.
  intros Hv. revert v'. induction Hv as [|p d ps v Hd Hv IH]; intros v' H; cbn in H; [done|].
  destruct (N.ltb_spec (d + 1) p).
  - injection H as <-. split; [by constructor|]. cbn. lia.
  - apply fmap_Some in H as (w & Hw & ->). destruct (IH w Hw) as [H1 H2]. split.
    + constructor; [lia|done].
    + cbn. rewrite H2. nia.
Qed.

Lemma csucc_none ps v : in_range ps v -> csucc ps v = None -> cval ps v + 1 = capacity ps.
Proof.
  intros Hv. induction Hv as [|p d ps v Hd Hv IH]; intros H; cbn in H |- *; [done|].
  destruct (N.ltb_spec (d + 1) p); [done|]. apply fmap_None in H. specialize (IH H). nia.
Qed.

(** Induction along the counter, from its last value backwards. *)
Lemma counter_ind ps (P : list N -> Prop) :
  (forall v, in_range ps v -> csucc ps v = None -> P v) ->
  (forall v v', in_range ps v -> csucc ps v = Some v' -> P v' -> P v) ->
  forall v, in_range ps v -> P v.
Proof.
  intros Hlast Hstep.
  assert (H : forall k v, in_range ps v -> capacity ps <= cval ps v + N.of_nat k -> P v).
  { induction k as [|k IH]; intros v Hv Hk.
    - pose proof (cval_lt ps v Hv). lia.
    - destruct (csucc ps v) as [v'|] eqn:E; [|by apply Hlast].
      destruct (csucc_some ps v v' Hv E) as [Hr Hc].
      apply (Hstep v v' Hv E), IH; [done|lia]. }
  intros v Hv. apply (H (N.to_nat (capacity ps)) v Hv). lia.
Qed.

(** The values not yet reached: this one, and those after it. *)
Lemma later_values ps v w :
  in_range ps v -> in_range ps w ->
  (cval ps v <= cval ps w <->
   w = v \/ exists v', csucc ps v = Some v' /\ cval ps v' <= cval ps w).
Proof.
  intros Hv Hw. split.
  - intros H. destruct (N.eq_dec (cval ps w) (cval ps v)) as [E|E]; [left; by eapply cval_inj|].
    right. destruct (csucc ps v) as [v'|] eqn:Es.
    + exists v'. split; [done|]. destruct (csucc_some ps v v' Hv Es). lia.
    + pose proof (csucc_none ps v Hv Es). pose proof (cval_lt ps w Hw). lia.
  - intros [->|(v' & Es & H)]; [done|]. destruct (csucc_some ps v v' Hv Es). lia.
Qed.

(** When the first [j] digits are at their last values, the carry reaches
    digit [j]. *)
Lemma csucc_carry j ps v :
  length v = length ps ->
  (forall i p d, (i < j)%nat -> ps !! i = Some p -> v !! i = Some d -> p <= d + 1) ->
  (j <= length ps)%nat ->
  csucc ps v = (fun w => replicate j 0 ++ w) <$> csucc (drop j ps) (drop j v).
Proof.
  revert ps v. induction j as [|j IH]; intros ps v Hl Hfull Hj.
  - cbn. symmetry. apply option_fmap_id.
  - destruct ps as [|p ps], v as [|d v]; cbn in Hl, Hj; try lia.
    assert (p <= d + 1) by (by apply (Hfull 0%nat); [lia| |]).
    cbn [csucc drop]. destruct (N.ltb_spec (d + 1) p); [lia|].
    rewrite (IH ps v); [|lia| |lia].
    + by destruct (csucc (drop j ps) (drop j v)).
    + intros i q e Hi Hq He. apply (Hfull (S i)); [lia|done|done].
Qed.

Lemma capacity_app ps qs : capacity (ps ++ qs) = capacity ps * capacity qs.
Proof. induction ps as [|p ps IH]; cbn; [lia|]. rewrite IH. lia. Qed.

Lemma capacity_rev ps : capacity (rev ps) = capacity ps.
Proof. induction ps as [|p ps IH]; [done|]. cbn. rewrite capacity_app, IH. cbn. lia. Qed.

Lemma in_range_rev ps v : in_range ps v -> in_range (rev ps) (rev v).
Proof.
  intros H. induction H as [|p d ps v Hd _ IH]; [by constructor|].
  cbn. apply Forall2_app; [done|]. by repeat constructor.
Qed.

(** Counting from the right: the last digit moves first. *)
Lemma csucc_snoc_rev ps v p d :
  csucc (rev (ps ++ [p])) (rev (v ++ [d])) =
  if d + 1 <? p then Some (d + 1 :: rev v) else cons 0 <$> csucc (rev ps) (rev v).
Proof. by rewrite !rev_unit. Qed.

(** The values after [v], in order. *)
Fixpoint counters_from (k : nat) (ps v : list N) : list (list N) :=
  match k with
  | O => []
  | S k => match csucc ps v with Some v' => v' :: counters_from k ps v' | None => [] end
  end.

Definition counters_after (ps v : list N) : list (list N) :=
  counters_from (N.to_nat (capacity ps - cval ps v)) ps v.

Lemma counters_after_last ps v : csucc ps v = None -> counters_after ps v = [].
Proof. intros H. unfold counters_after. destruct (N.to_nat _); cbn; [done|]. by rewrite H. Qed.

Lemma counters_after_step ps v v' :
  in_range ps v -> csucc ps v = Some v' -> counters_after ps v = v' :: counters_after ps v'.
Proof.
  intros Hv H. destruct (csucc_some ps v v' Hv H) as [Hv' Hc]. pose proof (cval_lt ps v' Hv').
  unfold counters_after. replace (N.to_nat (capacity ps - cval ps v))
    with (S (N.to_nat (capacity ps - cval ps v'))) by lia. cbn [counters_from]. by rewrite H.
Qed.

Lemma elem_of_counters_after ps v :
  in_range ps v -> forall u, u ∈ counters_after ps v <-> in_range ps u /\ cval ps v < cval ps u.
Proof.
  revert v. apply (counter_ind ps (fun v => forall u, _)).
  - intros v Hv H u. rewrite counters_after_last by done. split; [by intros ?%not_elem_of_nil|].
    intros [Hu Hlt]. pose proof (csucc_none ps v Hv H). pose proof (cval_lt ps u Hu). lia.
  - intros v v' Hv H IH u. rewrite (counters_after_step ps v v' Hv H), elem_of_cons, IH.
    destruct (csucc_some ps v v' Hv H) as [Hv' Hc]. split.
    + intros [->|[Hu Hlt]]; (split; [done|lia]).
    + intros [Hu Hlt]. destruct (N.eq_dec (cval ps u) (cval ps v')) as [E|E]; [left; by eapply cval_inj|].
      right. split; [done|lia].
Qed.

End Odometer.
