(* ===== verification/Joiner.v ===== *)
(** * Joining the answers of the neighbors

    [BaseJoiner], [StreamingJoiner] and [LeafJoiner] (src/mcs/): a context
    asks its neighbors for models, pack by pack, and combines one model of
    each into the inputs it computes with.

    The rest of the system is the parameter [respond]: what arrives in
    [JOIN_IN_MQ] in answer to the requests sent so far and to those just sent.
    The joiner is the only reader of that queue, so all answers to the
    outstanding requests are put into it when the joiner starts to read; a
    joiner that waits for more than comes is [Blocked].  The class [Network]
    states what the theorems rely on: the answer to a request for the models
    [k1] to [k2] of a neighbor has exactly these models and an end marker
    ([request_serves_slice] of [Context] and [output_end_of_stream] of
    [ReturnedBeliefs] are the corresponding facts about a context), and answers
    of different neighbors arrive interleaved in any way.  Belief states are
    values here; the deletion of their copies is not modelled. *)

From S2P Require Import Prelude BitMagic BeliefState BeliefStateOffset Combination QueryID.
From S2P Require Import ReturnedBeliefs Evaluator Dispatch Odometer.
Import BitMagic BeliefState BeliefStateOffset Combination Dispatch Odometer.

Module Joiner.

Abbreviation rvalue := ReturnedBeliefs.rvalue.
Abbreviation slice := Evaluator.slice.

(** ** State *)

Record NewNeighbor := mk_neighbor {
  neighbor_id : N;
  neighbor_offset : N;
  hostname : string;
  port : string;
}.

Record joiner := mk_joiner {
  input_belief_states : list (list NewBeliefState);
  joined_results : list rvalue;
  next_neighbor : N;
  asking_next : bool;
  pack_count : list N;
}.

(** A request as it is put into [NEIGHBOR_OUT_MQ] of an offset. *)
Abbreviation request := (N * ForwardMessage)%type.

(** The joiner, the table of the joiner dispatcher, the requests that are
    outstanding and those that were answered, and the contents of
    [JOIN_IN_MQ]. *)
Record jstate := mk_js {
  jn : joiner;
  jd : gmap N N;
  outstanding : list request;
  answered : list request;
  join_in : list rvalue;
}.

Definition set_inputs (j : joiner) (l : list (list NewBeliefState)) : joiner :=
  mk_joiner l (joined_results j) (next_neighbor j) (asking_next j) (pack_count j).
Definition set_joined (j : joiner) (l : list rvalue) : joiner :=
  mk_joiner (input_belief_states j) l (next_neighbor j) (asking_next j) (pack_count j).
Definition set_next (j : joiner) (i : N) (b : bool) : joiner :=
  mk_joiner (input_belief_states j) (joined_results j) i b (pack_count j).
Definition set_count (j : joiner) (l : list N) : joiner :=
  mk_joiner (input_belief_states j) (joined_results j) (next_neighbor j) (asking_next j) l.
Definition with_jn (st : jstate) (j : joiner) : jstate :=
  mk_js j (jd st) (outstanding st) (answered st) (join_in st).
Definition with_inbox (st : jstate) (l : list rvalue) : jstate :=
  mk_js (jn st) (jd st) (outstanding st) (answered st) l.
Definition with_jd (st : jstate) (m : gmap N N) : jstate :=
  mk_js (jn st) m (outstanding st) (answered st) (join_in st).

Section joiner.
Context (pack_size joiner_offset : N) (neighbors : list NewNeighbor) (o : Offsets).
Context (respond : list request -> list request -> list rvalue).

Definition no_neighbors : N := N.of_nat (length neighbors).

(** ** Set-up and reset *)

Definition joiner_new : joiner :=
  mk_joiner (replicate (length neighbors) []) [] 0 false (replicate (length neighbors) 0).

(** [insert] keeps the entry that is there. *)
Definition offset2index : gmap N N :=
  foldl (fun m e => match m !! e.2 with Some _ => m | None => <[e.2 := e.1]> m end) ∅
    (imap (fun i nb => (N.of_nat i, neighbor_offset nb)) neighbors).

Definition cleanup_input (j : joiner) (neighbor_index : N) : res joiner :=
  _ ← vec_at (input_belief_states j) neighbor_index;
  mret (set_inputs j (<[N.to_nat neighbor_index := []]> (input_belief_states j))).

Definition base_reset (j : joiner) : res joiner :=
  foldM cleanup_input (set_joined j []) (nrange 0 no_neighbors).

Definition reset (st : jstate) : res jstate :=
  j ← base_reset (jn st);
  mret (with_jn st (set_count (set_next j 0 false) (replicate (length (pack_count j)) 0))).

(** ** Asking *)

Definition ask_neighbor (hist : gset N) (neighbor_index qid k1 k2 : N) (st : jstate) : res jstate :=
  j ← cleanup_input (jn st) neighbor_index;
  nb ← vec_at neighbors neighbor_index;
  let noff := neighbor_offset nb in
  let qid := QueryID.forward_qid qid (neighbor_id nb) noff joiner_offset in
  m ← registerIdOffset (jd st) qid joiner_offset;
  mret (mk_js j m (outstanding st ++ [(noff, fwd_new qid hist k1 k2)]) (answered st) (join_in st)).

(** The environment answers. *)
Definition deliver (st : jstate) : jstate :=
  mk_js (jn st) (jd st) [] (answered st ++ outstanding st)
    (join_in st ++ respond (answered st) (outstanding st)).

Definition push_input (j : joiner) (neighbor_index : N) (bs : NewBeliefState) : res joiner :=
  bsv ← vec_at (input_belief_states j) neighbor_index;
  mret (set_inputs j (<[N.to_nat neighbor_index := bsv ++ [bs]]> (input_belief_states j))).

(** The [while (1)] loop of [ask_neighbor_and_receive], on what is in the
    queue. *)
Fixpoint receive_pack (neighbor_index : N) (inbox : list rvalue) (count_models_read : N) (st : jstate)
    : res (jstate * N) :=
  match inbox with
  | [] => Err Blocked
  | (Some bs, qid) :: inbox =>
      nb ← vec_at neighbors neighbor_index;
      _ ← assert (neighbor_offset nb =? QueryID.neighbor_offset_from_qid qid);
      j ← push_input (jn st) neighbor_index bs;
      receive_pack neighbor_index inbox (count_models_read + 1) (with_jn st j)
  | (None, qid) :: inbox =>
      m ← unregisterIdOffset (jd st) qid joiner_offset;
      mret (with_inbox (with_jd st m) inbox, count_models_read)
  end.

Definition ask_neighbor_and_receive (hist : gset N) (neighbor_index forward_qid k1 k2 : N) (st : jstate)
    : res (jstate * bool) :=
  st ← ask_neighbor hist neighbor_index forward_qid k1 k2 st;
  let st := deliver st in
  '(st, count) ← receive_pack neighbor_index (join_in st) 0 st;
  mret (st, negb (count =? 0)).

(** [a << k] for [std::size_t]: the width is 64. *)
Definition shl (a k : N) : res N := if k <? 64 then mret (u64_shl a k) else Err ShiftTooFar.

(** The [while (marking_neighbors != all_neighbors_returned)] loop. *)
Fixpoint receive_first (forward_qid all : N) (inbox : list rvalue) (marking : N)
    (count_models_read : list N) (st : jstate) : res (jstate * bool) :=
  if marking =? all then mret (with_inbox st inbox, true)
  else
    match inbox with
    | [] => Err Blocked
    | (bs, qid) :: inbox =>
        let noff := QueryID.neighbor_offset_from_qid qid in
        let neighbor_index := default 0 (offset2index !! noff) in
        match bs with
        | Some bs =>
            _ ← assert (QueryID.strip_qid qid =? forward_qid);
            c ← vec_at count_models_read neighbor_index;
            j ← push_input (jn st) neighbor_index bs;
            receive_first forward_qid all inbox marking
              (<[N.to_nat neighbor_index := c + 1]> count_models_read) (with_jn st j)
        | None =>
            m ← unregisterIdOffset (jd st) qid joiner_offset;
            c ← vec_at count_models_read neighbor_index;
            if c =? 0 then mret (with_inbox (with_jd st m) inbox, false)
            else
              bit ← shl 1 neighbor_index;
              receive_first forward_qid all inbox (N.lor marking bit) count_models_read (with_jd st m)
        end
    end.

Definition ask_first_packs (hist : gset N) (forward_qid from_neighbor to_neighbor : N) (st : jstate)
    : res (jstate * bool) :=
  _ ← assert ((from_neighbor <=? to_neighbor) && (to_neighbor <? no_neighbors));
  st ← foldM (fun st i =>
         if 0 <? pack_size then ask_neighbor hist i forward_qid 1 pack_size st
         else ask_neighbor hist i forward_qid 0 0 st) st (nrange from_neighbor (to_neighbor + 1));
  bit ← shl 1 (to_neighbor - from_neighbor + 1);
  all ← shl (u64_sub bit 1) from_neighbor;
  let st := deliver st in
  receive_first forward_qid all (join_in st) 0 (replicate (N.to_nat to_neighbor + 1) 0) st.

(** ** Joining *)

(** The loop of the one-shot [join]: [None] when a belief state does not
    combine. *)
Fixpoint combine_all (result : NewBeliefState) (rest : list NewBeliefState) : res (option NewBeliefState) :=
  match rest with
  | [] => mret (Some result)
  | next_bs :: rest =>
      '(ok, result) ← combine result next_bs (starting_offsets o) (masks o);
      if ok : bool then combine_all result rest else mret None
  end.

(** The belief states the iterators [run_it] point to. *)
Fixpoint deref_all (inputs : list (list NewBeliefState)) (run_it : list N) : res (list NewBeliefState) :=
  match inputs, run_it with
  | bsv :: inputs, i :: run_it => bs ← vec_at bsv i; l ← deref_all inputs run_it; mret (bs :: l)
  | _, _ => mret []
  end.

Definition join_one (query_id : N) (run_it : list N) (j : joiner) : res (joiner * bool) :=
  l ← deref_all (input_belief_states j) run_it;
  match l with
  | [] => Err IndexOutOfRange
  | first_bs :: rest =>
      r ← combine_all first_bs rest;
      match r with
      | Some result => mret (set_joined j (joined_results j ++ [(Some result, query_id)]), true)
      | None => mret (j, false)
      end
  end.

(** The inner [while (inc >= 0)], with [k = inc + 1]: it advances the last
    iterator that does not reach its end. *)
Fixpoint advance_iters (k : nat) (run_it ends : list N) : res (list N * nat) :=
  match k with
  | O => mret (run_it, O)
  | S inc =>
      r ← vec_at run_it (N.of_nat inc);
      e ← vec_at ends (N.of_nat inc);
      let run_it := <[inc := r + 1]> run_it in
      if r + 1 =? e then advance_iters inc run_it ends else mret (run_it, k)
  end.

(** The iterators from index [k] on go back to the beginning. *)
Definition rewind (k : nat) (run_it : list N) : list N :=
  take k run_it ++ replicate (length run_it - k) 0.

Fixpoint join_loop (fuel : nat) (query_id : N) (run_it ends : list N) (ret : bool) (j : joiner)
    : res (joiner * bool) :=
  match fuel with
  | O => Err OutOfFuel
  | S fuel =>
      '(j, ok) ← join_one query_id run_it j;
      let ret := ret || ok in
      '(run_it, k) ← advance_iters (length run_it) run_it ends;
      let run_it := rewind k run_it in
      match k with
      | O => mret (j, ret)
      | S _ => join_loop fuel query_id run_it ends ret j
      end
  end.

Definition join (query_id : N) (j : joiner) : res (joiner * bool) :=
  let ends := (fun bsv => N.of_nat (length bsv)) <$> input_belief_states j in
  match input_belief_states j with
  | [] => mret (j, false)
  | _ => join_loop (N.to_nat (capacity ends)) query_id (replicate (length ends) 0) ends false j
  end.

Definition do_join (query_id : N) (j : joiner) : res (joiner * bool) :=
  _ ← foldM (fun _ bsv => assert (negb (N.of_nat (length bsv) =? 0))) tt (input_belief_states j);
  join query_id j.

(** ** The two operations *)

(** [joined_results.front()] and [pop_front()]. *)
Definition pop_result (st : jstate) : res (jstate * rvalue) :=
  match joined_results (jn st) with
  | [] => Err IndexOutOfRange
  | rbs :: l => mret (with_jn st (set_joined (jn st) l), rbs)
  end.

Fixpoint next_join_loop (fuel : nat) (hist : gset N) (query_id : N) (st : jstate)
    : res (jstate * rvalue) :=
  match fuel with
  | O => Err OutOfFuel
  | S fuel =>
      let next := next_neighbor (jn st) in
      if next =? no_neighbors then
        st ← reset st;
        mret (st, (None, query_id))
      else
        c ← vec_at (pack_count (jn st)) next;
        let pc := u64_add c 1 in
        let st := with_jn st (set_count (jn st) (<[N.to_nat next := pc]> (pack_count (jn st)))) in
        let k_one := u64_add (u64_mul pc pack_size) 1 in
        let k_two := u64_mul (u64_add pc 1) pack_size in
        '(st, got) ← ask_neighbor_and_receive hist next query_id k_one k_two st;
        if got : bool then
          st ← (if asking_next (jn st) then
                  _ ← assert (0 <? next);
                  '(st, ret) ← ask_first_packs hist query_id 0 (next - 1) st;
                  _ ← assert ret;
                  mret (with_jn st (set_count (jn st)
                    (replicate (N.to_nat next) 0 ++ drop (N.to_nat next) (pack_count (jn st)))))
                else mret st);
          '(j, succeeded) ← do_join query_id (jn st);
          let st := with_jn st (set_next j 0 false) in
          if succeeded : bool then pop_result st else next_join_loop fuel hist query_id st
        else
          next_join_loop fuel hist query_id (with_jn st (set_next (jn st) (next + 1) true))
  end.

Definition next_join (fuel : nat) (hist : gset N) (query_id : N) (st : jstate) : res (jstate * rvalue) :=
  match joined_results (jn st) with
  | _ :: _ => pop_result st
  | [] =>
      if pack_size =? 0 then mret (st, (None, query_id))
      else next_join_loop fuel hist query_id st
  end.

Definition first_join (fuel : nat) (hist : gset N) (query_id : N) (st : jstate) : res (jstate * rvalue) :=
  st ← reset st;
  '(st, ok) ← ask_first_packs hist query_id 0 (u64_sub no_neighbors 1) st;
  if ok : bool then
    '(j, succeeded) ← do_join query_id (jn st);
    let st := with_jn st (set_next j 0 false) in
    if succeeded : bool then pop_result st
    else if 0 <? pack_size then next_join fuel hist query_id st
    else mret (st, (None, query_id))
  else
    st ← reset st;
    mret (st, (None, query_id)).

(** The calls of [NormalContext::process_request], as long as it asks for
    more: the inputs up to the null one.  [qids] are the identifiers it makes
    for the calls, and [calls] bounds their number. *)
Fixpoint join_rest (calls fuel : nat) (hist : gset N) (qids : nat -> N) (st : jstate)
    : res (jstate * list NewBeliefState) :=
  match calls with
  | O => Err OutOfFuel
  | S calls =>
      '(st, rbs) ← next_join fuel hist (qids O) st;
      match rbs.1 with
      | None => mret (st, [])
      | Some input =>
          '(st, l) ← join_rest calls fuel hist (fun k => qids (S k)) st;
          mret (st, input :: l)
      end
  end.

Definition join_inputs (calls fuel : nat) (hist : gset N) (qids : nat -> N) (st : jstate)
    : res (jstate * list NewBeliefState) :=
  '(st, rbs) ← first_join fuel hist (qids O) st;
  match rbs.1 with
  | None => mret (st, [])
  | Some input =>
      '(st, l) ← join_rest calls fuel hist (fun k => qids (S k)) st;
      mret (st, input :: l)
  end.

End joiner.

(** ** Contexts without neighbors: [LeafJoiner] *)

Definition leaf_first_join (o : Offsets) (query_id : N) : res rvalue :=
  input ← bs_blocks (no_blocks o) (size_belief_state o) false;
  mret (Some input, query_id).

Definition leaf_next_join (query_id : N) : rvalue := (None, query_id).


(** ** What a join is *)

Section layout.
Context (nb sb : N) (Hnb : 0 < nb) (Hsb : 0 < sb) (Hmax : nb * (sb + 1) <= id_max).
Local Abbreviation W := (nb * (sb + 1)).
Local Abbreviation o := (layout nb sb).

(** [r] is [s] joined with the states of [row] one after the other: each
    agrees with what has been joined so far and is merged into it. *)
Fixpoint joins (s : NewBeliefState) (row : list NewBeliefState) (r : NewBeliefState) : Prop :=
  match row with
  | [] => r = s
  | t :: row => exists s', bs_wf W s' /\ agree nb sb s t /\ merged nb sb s t s' /\ joins s' row r
  end.

Definition joined (row : list NewBeliefState) (r : NewBeliefState) : Prop :=
  match row with [] => False | s :: row => joins s row r end.

(** [r] joins one state of each input. *)
Definition joined_from (inputs : list (list NewBeliefState)) (r : NewBeliefState) : Prop :=
  exists row, Forall2 (fun b bsv => b ∈ bsv) row inputs /\ joined row r.

Lemma joins_unique row : forall s r r', joins s row r -> joins s row r' -> r = r'.
Proof.
  induction row as [|t row IH]; intros s r r'; cbn; [congruence|].
  intros (s1 & W1 & A1 & M1 & J1) (s2 & W2 & A2 & M2 & J2).
  rewrite (merged_unique nb sb Hnb Hsb Hmax s t s2 s1) in J2 by done. by eapply IH.
Qed.

Lemma combine_all_ok row : forall s,
  bs_wf W s -> Forall (bs_wf W) row ->
  exists x, combine_all o s row = Ok x /\
    match x with Some r => bs_wf W r /\ joins s row r | None => forall r, ~ joins s row r end.
Proof.
  induction row as [|t row IH]; intros s Hs Hrow; cbn [combine_all].
  - by exists (Some s).
  - apply Forall_cons in Hrow as [Ht Hrow].
    destruct (combine_ok nb sb Hnb Hsb Hmax s t Hs Ht) as (b & s' & -> & Hb & Hs'). rsimpl.
    destruct b.
    + destruct Hs' as [Ws' Ms']. destruct (IH s' Ws' Hrow) as (x & -> & Hx). exists x. split; [done|].
      destruct x as [r|].
      * destruct Hx as [Wr Jr]. split; [done|]. cbn. exists s'. by rewrite <- Hb.
      * intros r (s2 & W2 & A2 & M2 & J2). rewrite (merged_unique nb sb Hnb Hsb Hmax s t s2 s') in J2 by done.
        by apply (Hx r).
    + exists None. split; [done|]. intros r (s2 & W2 & A2 & _). by apply Hb in A2.
Qed.

(** ** The iterators *)

Lemma deref_all_ok inputs run :
  Forall2 (fun bsv i => i < N.of_nat (length bsv)) inputs run ->
  exists row, deref_all inputs run = Ok row /\ Forall2 (fun b bsv => b ∈ bsv) row inputs.
Proof.
  induction 1 as [|bsv i inputs run Hi _ (row & IH & Hrow)]; cbn [deref_all]; [by exists []|].
  destruct (vec_at_lt bsv i) as (b & -> & Hb); [lia|]. rsimpl. rewrite IH. rsimpl.
  exists (b :: row). split; [done|]. constructor; [|done]. by eapply list_elem_of_lookup_2.
Qed.

Lemma deref_all_onto row inputs :
  Forall2 (fun b bsv => b ∈ bsv) row inputs ->
  exists run, Forall2 (fun bsv i => i < N.of_nat (length bsv)) inputs run /\ deref_all inputs run = Ok row.
Proof.
  induction 1 as [|b bsv row inputs Hb _ (run & Hrun & IH)]; [by exists []|].
  apply list_elem_of_lookup in Hb as [i Hi].
  exists (N.of_nat i :: run). split.
  - constructor; [|done]. apply lookup_lt_Some in Hi. lia.
  - cbn [deref_all]. assert (vec_at bsv (N.of_nat i) = Ok b) as -> by (by rewrite vec_at_ok, Nat2N.id).
    rsimpl. by rewrite IH.
Qed.

(** Advancing the iterators is counting from the right. *)
Lemma advance_iters_ok ps : forall v q lq,
  in_range ps v ->
  match csucc (rev ps) (rev v) with
  | Some w => exists run' k, advance_iters (length v) (v ++ q) (ps ++ lq) = Ok (run', S k) /\
                rewind (S k) run' = rev w ++ replicate (length q) 0
  | None => exists run', advance_iters (length v) (v ++ q) (ps ++ lq) = Ok (run', O)
  end.
Proof.
  induction ps as [|p ps IH] using rev_ind; intros v q lq Hv.
  - inversion Hv; subst. by exists q.
  - apply Forall2_app_inv_l in Hv as (v' & v2 & Hv & H2 & ->).
    inversion H2 as [|? d ? ? Hd Hnil]; subst. inversion Hnil; subst.
    pose proof (Forall2_length _ _ _ Hv) as Hl.
    rewrite csucc_snoc_rev, length_app. cbn [length]. rewrite Nat.add_1_r. cbn [advance_iters].
    rewrite <- !app_assoc. cbn [app].
    assert (vec_at (v' ++ d :: q) (N.of_nat (length v')) = Ok d) as ->
      by (rewrite vec_at_ok, Nat2N.id; by apply list_lookup_middle).
    assert (vec_at (ps ++ p :: lq) (N.of_nat (length v')) = Ok p) as ->
      by (rewrite vec_at_ok, Nat2N.id; by apply list_lookup_middle).
    rsimpl. rewrite insert_app_r_alt, Nat.sub_diag by lia. cbn [insert list_insert].
    destruct (N.eqb_spec (d + 1) p) as [E|E], (N.ltb_spec (d + 1) p); try lia.
    + specialize (IH v' (d + 1 :: q) (p :: lq) Hv). destruct (csucc (rev ps) (rev v')) as [w|]; cbn [fmap option_fmap option_map].
      * destruct IH as (run' & k & -> & Hr). exists run', k. split; [done|]. rewrite Hr. cbn.
        by rewrite <- app_assoc.
      * exact IH.
    + do 2 eexists. split; [reflexivity|]. unfold rewind.
      rewrite (cons_middle (d + 1) v' q), app_assoc. cbn [rev]. rewrite rev_involutive.
      rewrite take_app_length' by (rewrite length_app; cbn; lia).
      f_equal. f_equal. rewrite !length_app. cbn. lia.
Qed.

(** ** All combinations of the inputs at hand *)

Lemma row_wf row inputs :
  Forall2 (fun b bsv => b ∈ bsv) row inputs -> Forall (Forall (bs_wf W)) inputs -> Forall (bs_wf W) row.
Proof.
  induction 1 as [|b bsv row inputs Hb _ IH]; intros Hw; [by apply Forall_nil|].
  apply Forall_cons in Hw as [Hbsv Hw]. apply Forall_cons. split; [|by apply IH].
  rewrite Forall_forall in Hbsv. by apply Hbsv.
Qed.

(** The join of a row, as a list of at most one state, and the joins of all
    rows of the inputs, in the order of the iterators. *)
Definition row_joins (row : list NewBeliefState) : list NewBeliefState :=
  match row with
  | [] => []
  | s :: row => match combine_all o s row with Ok (Some r) => [r] | _ => [] end
  end.

Definition joins_at (inputs : list (list NewBeliefState)) (u : list N) : list NewBeliefState :=
  match deref_all inputs (rev u) with Ok row => row_joins row | Err _ => [] end.

Definition joins_of (inputs : list (list NewBeliefState)) : list NewBeliefState :=
  let ends := rev ((fun bsv => N.of_nat (length bsv)) <$> inputs) in
  (zeros ends :: counters_after ends (zeros ends)) ≫= joins_at inputs.

Lemma elem_of_row_joins row r :
  Forall (bs_wf W) row -> r ∈ row_joins row <-> joined row r.
Proof.
  destruct row as [|s row]; cbn; [by rewrite elem_of_nil|]. intros [Hs Hw]%Forall_cons.
  destruct (combine_all_ok row s Hs Hw) as (x & -> & Hx). destruct x as [r0|].
  - rewrite list_elem_of_singleton. destruct Hx as [_ Hx]. split; [by intros ->|].
    intros Hr. by eapply joins_unique.
  - rewrite elem_of_nil. split; [done|]. intros Hr. by apply Hx in Hr.
Qed.

Section inputs.
Context (qid : N) (inputs : list (list NewBeliefState)).
Hypothesis Hinputs : inputs <> [].
Hypothesis Hwf : Forall (Forall (bs_wf W)) inputs.
Local Abbreviation ends := ((fun bsv => N.of_nat (length bsv)) <$> inputs).

Definition answers (rs : list NewBeliefState) : list rvalue := (fun r => (Some r, qid)) <$> rs.

Lemma deref_range u :
  in_range (rev ends) u ->
  exists row, deref_all inputs (rev u) = Ok row /\ Forall2 (fun b bsv => b ∈ bsv) row inputs.
Proof.
  intros Hu%in_range_rev. rewrite rev_involutive in Hu. unfold in_range in Hu.
  rewrite Forall2_fmap_l in Hu. by apply deref_all_ok.
Qed.

Lemma join_one_ok u j :
  input_belief_states j = inputs -> in_range (rev ends) u ->
  join_one o qid (rev u) j =
    Ok (set_joined j (joined_results j ++ answers (joins_at inputs u)),
        negb (bool_decide (joins_at inputs u = []))).
Proof.
  intros Hj Hu. destruct (deref_range u Hu) as (row & Hd & Hrow).
  pose proof (row_wf _ _ Hrow Hwf) as Hw. unfold join_one, joins_at. rewrite Hj, Hd. rsimpl.
  destruct row as [|s row]; [inversion Hrow; congruence|]. apply Forall_cons in Hw as [Hs Hw]. cbn [row_joins].
  destruct (combine_all_ok row s Hs Hw) as (x & -> & _). rsimpl. destruct x as [r0|]; [done|].
  unfold answers. cbn. rewrite app_nil_r. by destruct j.
Qed.

Lemma answers_app rs rs' : answers (rs ++ rs') = answers rs ++ answers rs'.
Proof. apply fmap_app. Qed.

Lemma nonempty_app {A} `{EqDecision A} (l l' : list A) :
  negb (bool_decide (l ++ l' = [])) = negb (bool_decide (l = [])) || negb (bool_decide (l' = [])).
Proof. destruct l, l'; reflexivity. Qed.

Lemma join_loop_ok u :
  in_range (rev ends) u ->
  forall fuel ret j, input_belief_states j = inputs ->
  capacity (rev ends) <= cval (rev ends) u + N.of_nat fuel ->
  let rs := (u :: counters_after (rev ends) u) ≫= joins_at inputs in
  join_loop o fuel qid (rev u) ends ret j =
    Ok (set_joined j (joined_results j ++ answers rs), ret || negb (bool_decide (rs = []))).
Proof.
  revert u. apply (counter_ind (rev ends) (fun u => forall fuel ret j, input_belief_states j = inputs ->
    capacity (rev ends) <= cval (rev ends) u + N.of_nat fuel -> _)).
  - intros u Hu Hlast fuel ret j Hj Hf. destruct fuel as [|fuel]; [pose proof (cval_lt _ _ Hu); lia|].
    cbv zeta. rewrite counters_after_last, bind_cons, app_nil_r by done.
    cbn [join_loop]. rewrite (join_one_ok u j Hj Hu). rsimpl.
    pose proof (in_range_rev _ _ Hu) as Hu'. rewrite rev_involutive in Hu'.
    pose proof (advance_iters_ok ends (rev u) [] [] Hu') as Ha.
    rewrite rev_involutive, Hlast, !app_nil_r in Ha. destruct Ha as (run' & ->). reflexivity.
  - intros u v Hu Hv IH fuel ret j Hj Hf. destruct fuel as [|fuel]; [pose proof (cval_lt _ _ Hu); lia|].
    destruct (csucc_some _ _ _ Hu Hv) as [Hvr Hvc]. cbv zeta.
    rewrite (counters_after_step _ u v Hu Hv), bind_cons.
    cbn [join_loop]. rewrite (join_one_ok u j Hj Hu). rsimpl.
    pose proof (in_range_rev _ _ Hu) as Hu'. rewrite rev_involutive in Hu'.
    pose proof (advance_iters_ok ends (rev u) [] [] Hu') as Ha.
    rewrite rev_involutive, Hv, !app_nil_r in Ha. destruct Ha as (run' & k & -> & Hr).
    rsimpl. rewrite Hr. cbn [length replicate]. rewrite ?app_nil_r, IH by (done || lia). f_equal.
    rewrite answers_app, nonempty_app, app_assoc, orb_assoc. by destruct j.
Qed.

(** [do_join] adds the joins of all combinations, and says whether there is
    one. *)
Lemma do_join_ok j :
  input_belief_states j = inputs -> Forall (fun bsv => bsv <> []) inputs ->
  do_join o qid j =
    Ok (set_joined j (joined_results j ++ answers (joins_of inputs)),
        negb (bool_decide (joins_of inputs = []))).
Proof.
  intros Hj Hne.
  assert (Hz : in_range (rev ends) (zeros (rev ends))).
  { apply zeros_range, Forall_rev, Forall_fmap. eapply Forall_impl; [exact Hne|].
    intros [|b bsv] Hb; [done|]. cbn. lia. }
  unfold do_join. rewrite Hj.
  assert (forall l, Forall (fun bsv : list NewBeliefState => bsv <> []) l ->
    foldM (fun _ bsv => assert (negb (N.of_nat (length bsv) =? 0))) tt l = Ok tt) as Hall.
  { induction l as [|bsv l IH]; [done|]. intros [Hb Hl]%Forall_cons. cbn [foldM].
    destruct bsv; [done|]. change (assert (negb (N.of_nat (length (n :: bsv)) =? 0))) with (Ok tt). by apply IH. }
  rewrite (Hall inputs Hne). rsimpl. unfold join. rewrite Hj.
  assert (replicate (length ends) 0 = rev (zeros (rev ends))) as ->.
  { unfold zeros. rewrite length_rev, rev_alt. symmetry. apply reverse_replicate. }
  pose proof (join_loop_ok (zeros (rev ends)) Hz (N.to_nat (capacity ends)) false j Hj) as E.
  destruct inputs; [done|]. apply E. rewrite capacity_rev, cval_zeros. lia.
Qed.

Lemma elem_of_joins_of r :
  Forall (fun bsv => bsv <> []) inputs -> r ∈ joins_of inputs <-> joined_from inputs r.
Proof.
  intros Hne. assert (Hz : in_range (rev ends) (zeros (rev ends))).
  { apply zeros_range, Forall_rev, Forall_fmap. eapply Forall_impl; [exact Hne|].
    intros [|b bsv] Hb; [done|]. cbn. lia. }
  unfold joins_of. rewrite list_elem_of_bind. split.
  - intros (u & Hr & Hu). assert (in_range (rev ends) u) as Hur.
    { apply elem_of_cons in Hu as [->|Hu]; [done|]. by apply (elem_of_counters_after _ _ Hz) in Hu as [? _]. }
    destruct (deref_range u Hur) as (row & Hd & Hrow). exists row. split; [done|].
    unfold joins_at in Hr. rewrite Hd in Hr. apply elem_of_row_joins; [|done]. by eapply row_wf.
  - intros (row & Hrow & Hr). destruct (deref_all_onto row inputs Hrow) as (run & Hrun & Hd).
    assert (in_range (rev ends) (rev run)) as Hur.
    { apply in_range_rev. unfold in_range. by rewrite Forall2_fmap_l. }
    exists (rev run). split.
    + unfold joins_at. rewrite rev_involutive, Hd. apply elem_of_row_joins; [|done]. by eapply row_wf.
    + destruct (decide (rev run = zeros (rev ends))) as [->|Hn]; [by left|]. right.
      apply (elem_of_counters_after _ _ Hz). split; [done|]. rewrite cval_zeros.
      destruct (N.eq_dec (cval (rev ends) (rev run)) 0) as [E|E]; [|lia]. exfalso. apply Hn.
      apply (cval_inj (rev ends)); [done|done|by rewrite cval_zeros].
Qed.

End inputs.
End layout.

(** ** What the joiner relies on *)

(** A list that is made up of the given lists, in any interleaving. *)
Inductive interleaving {A} : list (list A) -> list A -> Prop :=
  | il_nil ls : Forall (fun l => l = []) ls -> interleaving ls []
  | il_cons ls i x l r :
      ls !! i = Some (x :: l) -> interleaving (<[i := l]> ls) r -> interleaving ls (x :: r).

Definition off (neighbors : list NewNeighbor) (i : nat) : N :=
  default 0 (neighbor_offset <$> neighbors !! i).

(** The records that answer a request: the models and the end marker. *)
Definition answer (reply : nat -> N -> N -> list NewBeliefState) (i : nat) (f : ForwardMessage)
    : list rvalue :=
  ((fun m => (Some m, fm_qid f)) <$> reply i (fm_k1 f) (fm_k2 f)) ++ [(None, fm_qid f)].

Class Network (neighbors : list NewNeighbor) (respond : list request -> list request -> list rvalue)
    (models : list (list NewBeliefState)) (reply : nat -> N -> N -> list NewBeliefState) : Prop := {
  net_reply i ms k1 k2 x :
    models !! i = Some ms -> (k1 = 0 /\ k2 = 0 \/ 0 < k1 /\ k1 <= k2) ->
    x ∈ reply i k1 k2 <-> x ∈ slice k1 k2 ms;
  net_respond log reqs :
    Forall (fun e => (e.1 < length neighbors)%nat) reqs ->
    interleaving ((fun e => answer reply e.1 e.2) <$> reqs)
      (respond log ((fun e => (off neighbors e.1, e.2)) <$> reqs));
}.

(** Neighbors that fit the fields of a query identifier and the 64 bits of
    the mask. *)
Record neighbors_wf (joff : N) (neighbors : list NewNeighbor) : Prop := {
  nbs_some : (0 < length neighbors)%nat;
  nbs_few : (length neighbors < 64)%nat;
  nbs_offsets : NoDup (neighbor_offset <$> neighbors);
  nbs_fields : Forall (fun b => neighbor_offset b < 2 ^ 10 /\ neighbor_id b < 2 ^ 10) neighbors;
  nbs_joiner : joff < 2 ^ 6;
}.

Definition valid_qid (qid : N) : Prop :=
  exists ctx order, ctx < 2 ^ 10 /\ order < 2 ^ 24 /\ qid = QueryID.query_id2 ctx order.

(** ** Identifiers of forwarded requests *)

Section neighbors.
Context (joff : N) (neighbors : list NewNeighbor) (Hnbs : neighbors_wf joff neighbors).
Local Abbreviation m := (length neighbors).

Definition fq (qid : N) (i : nat) : N :=
  match neighbors !! i with
  | Some b => QueryID.forward_qid qid (neighbor_id b) (neighbor_offset b) joff
  | None => 0
  end.

Lemma fq_facts qid i :
  valid_qid qid -> (i < m)%nat ->
  QueryID.neighbor_offset_from_qid (fq qid i) = off neighbors i /\
  QueryID.strip_qid (fq qid i) = qid /\ QueryID.joiner_offset_from_qid (fq qid i) = joff.
Proof.
  intros (ctx & order & Hc & Ho & ->) [b Hb]%lookup_lt_is_Some. unfold fq, off. rewrite Hb. cbn.
  destruct Hnbs as [_ _ _ Hf Hj]. destruct (Forall_lookup_1 _ _ _ _ Hf Hb) as [H1 H2].
  destruct (QueryID.forward_fields ctx order _ _ _ Ho Hc H2 H1 Hj) as (_ & _ & _ & E4 & E5 & _).
  split; [exact E4|]. split; [|exact E5]. by apply QueryID.strip_forward.
Qed.

Lemma off_inj i j : (i < m)%nat -> (j < m)%nat -> off neighbors i = off neighbors j -> i = j.
Proof.
  intros [b Hb]%lookup_lt_is_Some [c Hc]%lookup_lt_is_Some. unfold off. rewrite Hb, Hc. cbn. intros E.
  eapply NoDup_lookup; [exact (nbs_offsets _ _ Hnbs)|by rewrite list_lookup_fmap, Hb|].
  rewrite list_lookup_fmap, Hc. cbn. by rewrite E.
Qed.

Lemma fq_inj qid i j : valid_qid qid -> (i < m)%nat -> (j < m)%nat -> fq qid i = fq qid j -> i = j.
Proof.
  intros Hq Hi Hj E. apply off_inj; [done|done|].
  destruct (fq_facts qid i Hq Hi) as [<- _], (fq_facts qid j Hq Hj) as [<- _]. by rewrite E.
Qed.

(** The map from offsets to indices finds the index. *)
Lemma keep_first (l : list (N * N)) : forall (t : gmap N N) k x,
  t !! k = Some x ->
  foldl (fun t e => match t !! e.2 with Some _ => t | None => <[e.2 := e.1]> t end) t l !! k = Some x.
Proof.
  induction l as [|[i k'] l IH]; intros t k x Hk; cbn; [done|]. apply IH.
  destruct (t !! k') eqn:E; [done|]. rewrite lookup_insert_ne; [done|]. congruence.
Qed.

Lemma insert_all (l : list (N * N)) : forall (t : gmap N N) i k,
  NoDup (l.*2) -> (i, k) ∈ l -> t !! k = None ->
  foldl (fun t e => match t !! e.2 with Some _ => t | None => <[e.2 := e.1]> t end) t l !! k = Some i.
Proof.
  induction l as [|[i' k'] l IH]; intros t i k Hnd Hin Hk; [by apply not_elem_of_nil in Hin|].
  cbn in Hnd |- *. apply NoDup_cons in Hnd as [Hn Hnd]. apply elem_of_cons in Hin as [[= <- <-]|Hin].
  - rewrite Hk. apply keep_first, lookup_insert_eq.
  - assert (k' <> k) by (intros ->; apply Hn, list_elem_of_fmap; by exists (i, k)).
    apply IH; [done|done|]. destruct (t !! k'); [done|]. by rewrite lookup_insert_ne.
Qed.

Lemma offset2index_ok i :
  (i < m)%nat -> offset2index neighbors !! off neighbors i = Some (N.of_nat i).
Proof.
  intros [b Hb]%lookup_lt_is_Some. unfold offset2index, off. rewrite Hb. cbn. apply insert_all.
  - pose proof (nbs_offsets _ _ Hnbs) as H.
    replace ((imap (fun i nb => (N.of_nat i, neighbor_offset nb)) neighbors).*2)
      with (neighbor_offset <$> neighbors); [done|].
    rewrite fmap_imap. apply list_eq. intros k. by rewrite list_lookup_fmap, list_lookup_imap.
  - apply elem_of_lookup_imap. by exists i, b.
  - apply lookup_empty.
Qed.

End neighbors.

(** ** Shifts *)

Lemma pow2_small k : k < 64 -> 2 ^ k < W64.
Proof. intros Hk. change W64 with (2 ^ 64). apply N.pow_lt_mono_r; lia. Qed.

Lemma shl_pow k : k < 64 -> shl 1 k = Ok (2 ^ k).
Proof.
  intros Hk. unfold shl. destruct (N.ltb_spec k 64); [|lia].
  unfold u64_shl. rewrite N.shiftl_1_l, N.mod_small; [done|]. by apply pow2_small.
Qed.

(** ** Reset *)

Lemma cleared_step (I : list (list NewBeliefState)) k :
  (k < length I)%nat ->
  <[k := []]> (replicate k [] ++ drop k I) = replicate (S k) [] ++ drop (S k) I.
Proof.
  intros [x Hx]%lookup_lt_is_Some. rewrite (drop_S I x k Hx), insert_app_r_alt; rewrite length_replicate; [|done].
  rewrite Nat.sub_diag. cbn [insert list_insert]. rewrite replicate_S_end, <- app_assoc. reflexivity.
Qed.

Lemma reset_ok neighbors st :
  length (input_belief_states (jn st)) = length neighbors ->
  reset neighbors st = Ok (with_jn st (mk_joiner (replicate (length neighbors) []) [] 0 false
                             (replicate (length (pack_count (jn st))) 0))).
Proof.
  intros Hl. set (I := input_belief_states (jn st)) in *.
  destruct (foldM_nrange (fun k j => j = set_inputs (set_joined (jn st) [])
      (replicate (N.to_nat k) [] ++ drop (N.to_nat k) I)) cleanup_input (set_joined (jn st) [])
      (no_neighbors neighbors)) as (j & Hj & ->).
  - cbn. by destruct (jn st).
  - intros k j Hk ->. unfold no_neighbors in Hk. eexists. split; [|reflexivity].
    unfold cleanup_input. cbn [input_belief_states set_inputs].
    destruct (vec_at_lt (replicate (N.to_nat k) [] ++ drop (N.to_nat k) I) k) as (x & -> & _).
    { rewrite length_app, length_replicate, length_drop. lia. }
    rsimpl. rewrite cleared_step by lia. by replace (N.to_nat (k + 1)) with (S (N.to_nat k)) by lia.
  - unfold reset, base_reset. rewrite Hj. rsimpl. unfold no_neighbors.
    rewrite Nat2N.id, (drop_ge I), app_nil_r by lia. reflexivity.
Qed.

(** ** Asking the neighbors *)

Section network.
Context (pack_size joff : N) (neighbors : list NewNeighbor).
Context (respond : list request -> list request -> list rvalue).
Context (models : list (list NewBeliefState)) (reply : nat -> N -> N -> list NewBeliefState).
Context (Hnet : Network neighbors respond models reply) (Hnbs : neighbors_wf joff neighbors).
Context (hist : gset N) (qid : N) (Hq : valid_qid qid).
Local Abbreviation m := (length neighbors).
Local Abbreviation id_of := (fq joff neighbors qid).

Lemma ask_neighbor_ok i k1 k2 st :
  (i < m)%nat -> length (input_belief_states (jn st)) = m -> jd st !! id_of i = None ->
  ask_neighbor joff neighbors hist (N.of_nat i) qid k1 k2 st =
    Ok (mk_js (set_inputs (jn st) (<[i := []]> (input_belief_states (jn st))))
          (<[id_of i := joff]> (jd st))
          (outstanding st ++ [(off neighbors i, fwd_new (id_of i) hist k1 k2)])
          (answered st) (join_in st)).
Proof.
  intros Hi Hl Hjd. pose proof Hi as [b Hb]%lookup_lt_is_Some.
  unfold ask_neighbor, cleanup_input.
  destruct (vec_at_lt (input_belief_states (jn st)) (N.of_nat i)) as (x & -> & _); [lia|]. rsimpl.
  assert (vec_at neighbors (N.of_nat i) = Ok b) as -> by (by rewrite vec_at_ok, Nat2N.id). rsimpl.
  rewrite Nat2N.id. unfold off. unfold fq in Hjd |- *. rewrite Hb in Hjd |- *. cbn [fmap option_fmap option_map default].
  unfold registerIdOffset. rewrite Hjd. reflexivity.
Qed.

(** The table of the joiner dispatcher with the requests [open] registered. *)
Definition registered (jd0 : gmap N N) (open : nat -> Prop) (t : gmap N N) : Prop :=
  (forall i, (i < m)%nat -> open i -> t !! id_of i = Some joff) /\
  (forall id, (forall i, (i < m)%nat -> open i -> id <> id_of i) -> t !! id = jd0 !! id).

Lemma registered_open jd0 (P : nat -> Prop) i t :
  (i < m)%nat -> registered jd0 P t -> registered jd0 (fun k => P k \/ k = i) (<[id_of i := joff]> t).
Proof.
  intros Hi [H1 H2]. split.
  - intros k Hk [HP| ->]; [|by rewrite lookup_insert_eq].
    destruct (decide (id_of i = id_of k)) as [->|Hne]; [by rewrite lookup_insert_eq|].
    rewrite lookup_insert_ne by done. by apply H1.
  - intros id Hid. rewrite lookup_insert_ne by (apply not_eq_sym, Hid; [done|by right]).
    apply H2. intros k Hk HP. apply Hid; [done|by left].
Qed.

Lemma registered_close jd0 (P Q : nat -> Prop) i t :
  (i < m)%nat -> jd0 !! id_of i = None -> registered jd0 P t ->
  (forall k, Q k <-> P k /\ k <> i) -> registered jd0 Q (delete (id_of i) t).
Proof.
  intros Hi Hnone [H1 H2] HQ. split.
  - intros k Hk [HP Hne]%HQ. rewrite lookup_delete_ne; [by apply H1|].
    intros E. apply Hne. by eapply fq_inj.
  - intros id Hid. destruct (decide (id = id_of i)) as [->|Hne]; [by rewrite lookup_delete_eq|].
    rewrite lookup_delete_ne by done. apply H2. intros k Hk HP. destruct (decide (k = i)) as [->|Hki]; [done|].
    apply Hid; [done|]. by apply HQ.
Qed.

Lemma registered_none jd0 (P : nat -> Prop) t :
  (forall i, (i < m)%nat -> ~ P i) -> registered jd0 P t -> t = jd0.
Proof. intros HP [_ H2]. apply map_eq. intros id. apply H2. intros i Hi H. by apply HP in H. Qed.

Lemma registered_fresh jd0 (P : nat -> Prop) i t :
  (i < m)%nat -> jd0 !! id_of i = None -> ~ P i -> registered jd0 P t -> t !! id_of i = None.
Proof.
  intros Hi Hnone HP [_ H2]. rewrite H2; [done|]. intros k Hk HPk E.
  apply (fq_inj joff neighbors Hnbs) in E; [|done..]. by subst.
Qed.

(** The requests for the first packs. *)
Local Abbreviation K1 := (if 0 <? pack_size then 1 else 0).
Local Abbreviation K2 := (if 0 <? pack_size then pack_size else 0).
Definition first_requests (t : nat) : list (nat * ForwardMessage) :=
  (fun i => (i, fwd_new (id_of i) hist K1 K2)) <$> seq 0 t.

Lemma ask_all_ok t st :
  (t <= m)%nat -> length (input_belief_states (jn st)) = m -> outstanding st = [] ->
  (forall i, (i < m)%nat -> jd st !! id_of i = None) ->
  exists d, registered (jd st) (fun i => i < t)%nat d /\
    foldM (fun st i =>
       if 0 <? pack_size then ask_neighbor joff neighbors hist i qid 1 pack_size st
       else ask_neighbor joff neighbors hist i qid 0 0 st) st (nrange 0 (N.of_nat t)) =
    Ok (mk_js (set_inputs (jn st) (replicate t [] ++ drop t (input_belief_states (jn st)))) d
          ((fun e => (off neighbors e.1, e.2)) <$> first_requests t) (answered st) (join_in st)).
Proof.
  intros Ht Hl Hout Hnone. set (I := input_belief_states (jn st)) in *.
  destruct (foldM_nrange (fun k s => exists d, registered (jd st) (fun i => i < N.to_nat k)%nat d /\
      s = mk_js (set_inputs (jn st) (replicate (N.to_nat k) [] ++ drop (N.to_nat k) I)) d
          ((fun e => (off neighbors e.1, e.2)) <$> first_requests (N.to_nat k)) (answered st) (join_in st))
     (fun st i =>
       if 0 <? pack_size then ask_neighbor joff neighbors hist i qid 1 pack_size st
       else ask_neighbor joff neighbors hist i qid 0 0 st) st (N.of_nat t)) as (s & Hs & d & Hd & ->).
  - exists (jd st). split.
    + split; [intros; lia|done].
    + subst I. destruct st as [[] ? out ? ?]. cbn in Hout. subst out. reflexivity.
  - intros k s Hk (d & Hd & ->).
    set (s1 := mk_js (set_inputs (jn st) (replicate (N.to_nat k) [] ++ drop (N.to_nat k) I)) d
          ((fun e => (off neighbors e.1, e.2)) <$> first_requests (N.to_nat k)) (answered st) (join_in st)).
    assert (Hstep : ask_neighbor joff neighbors hist k qid K1 K2 s1 =
      Ok (mk_js (set_inputs (jn st) (replicate (N.to_nat (k + 1)) [] ++ drop (N.to_nat (k + 1)) I))
            (<[id_of (N.to_nat k) := joff]> d)
            ((fun e => (off neighbors e.1, e.2)) <$> first_requests (N.to_nat (k + 1))) (answered st) (join_in st))).
    { rewrite <- (N2Nat.id k) at 1. rewrite ask_neighbor_ok; cbn [jn jd s1 set_inputs input_belief_states].
      - replace (N.to_nat (k + 1)) with (S (N.to_nat k)) by lia. rewrite cleared_step by lia.
        unfold first_requests. rewrite seq_S, !fmap_app. reflexivity.
      - lia.
      - rewrite length_app, length_replicate, length_drop. lia.
      - eapply registered_fresh; [lia|apply Hnone; lia| |exact Hd]. cbn. lia. }
    eexists. split; [|].
    + destruct (0 <? pack_size); exact Hstep.
    + eexists. split; [|reflexivity].
      destruct (registered_open _ _ (N.to_nat k) d ltac:(lia) Hd) as [H1 H2]. split.
      * intros i Hi Hlt. apply H1; [done|]. lia.
      * intros id Hid. apply H2. intros i Hi [Hlt| ->]; apply Hid; lia.
  - rewrite Nat2N.id in *. by exists d.
Qed.

(** ** Receiving the first packs

    Of each neighbor either some models are still to come, or its end marker
    has been read. *)
Definition stream (i : nat) (ph : option (list NewBeliefState)) : list rvalue :=
  match ph with
  | Some rem => ((fun b => (Some b, id_of i)) <$> rem) ++ [(None, id_of i)]
  | None => []
  end.

Definition is_open (phs : list (option (list NewBeliefState))) (i : nat) : Prop :=
  exists rem, phs !! i = Some (Some rem).

Section first_packs.
Context (t : nat) (Ht : (0 < t <= m)%nat) (R : nat -> list NewBeliefState).
Context (jd0 : gmap N N) (Hjd0 : forall i, (i < m)%nat -> jd0 !! id_of i = None).
Context (rest : list (list NewBeliefState)).

Record receiving (phs : list (option (list NewBeliefState))) (cur : list (list NewBeliefState))
    (counts : list N) (marking : N) (st : jstate) : Prop := {
  rcv_length : length phs = t;
  rcv_cur : length cur = t;
  rcv_counts : counts = (fun c => N.of_nat (length c)) <$> cur;
  rcv_inputs : input_belief_states (jn st) = cur ++ rest;
  rcv_phase i ph c : phs !! i = Some ph -> cur !! i = Some c ->
    match ph with
    | Some rem => c ++ rem = R i /\ N.testbit marking (N.of_nat i) = false
    | None => c = R i /\ R i <> [] /\ N.testbit marking (N.of_nat i) = true
    end;
  rcv_below : bits_below marking (N.of_nat t);
  rcv_jd : registered jd0 (is_open phs) (jd st);
}.

Lemma all_closed phs cur counts marking st :
  receiving phs cur counts marking st -> marking = N.ones (N.of_nat t) ->
  (forall i, ~ is_open phs i) /\ cur = R <$> seq 0 t /\ (forall i, (i < t)%nat -> R i <> []).
Proof.
  intros [H1 H2 _ _ Hph _ _] Hm.
  assert (Hall : forall i c, cur !! i = Some c -> phs !! i = Some None /\ c = R i /\ R i <> []).
  { intros i c Hc. pose proof (lookup_lt_Some _ _ _ Hc) as Hi.
    destruct (lookup_lt_is_Some_2 phs i) as [ph Hp]; [lia|].
    pose proof (Hph i ph c Hp Hc) as H. destruct ph as [rem|].
    - destruct H as [_ H]. rewrite Hm, N.ones_spec_low in H; [done|lia].
    - by destruct H as (? & ? & _). }
  split; [|split].
  - intros i (rem & Hr). pose proof (lookup_lt_Some _ _ _ Hr).
    destruct (lookup_lt_is_Some_2 cur i) as [c Hc]; [lia|]. destruct (Hall i c Hc) as [? _]. congruence.
  - apply list_eq. intros i. rewrite list_lookup_fmap. destruct (decide (i < t)%nat) as [Hi|Hi].
    + destruct (lookup_lt_is_Some_2 cur i) as [c Hc]; [lia|]. rewrite Hc, lookup_seq_lt by done. cbn.
      by destruct (Hall i c Hc) as (_ & -> & _).
    + rewrite !lookup_ge_None_2; [done|rewrite length_seq; lia|lia].
  - intros i Hi. destruct (lookup_lt_is_Some_2 cur i) as [c Hc]; [lia|]. by destruct (Hall i c Hc) as (_ & _ & ?).
Qed.

Lemma some_open phs cur counts marking st :
  receiving phs cur counts marking st -> marking <> N.ones (N.of_nat t) -> exists i, is_open phs i.
Proof.
  intros [H1 H2 _ _ Hph Hb _] Hm.
  destruct (decide (Forall (fun ph => ph = None) phs)) as [Hn|Hn].
  - exfalso. apply Hm. apply N.bits_inj. intros i. destruct (N.lt_ge_cases i (N.of_nat t)) as [Hi|Hi].
    + rewrite N.ones_spec_low by done. rewrite <- (N2Nat.id i).
      destruct (lookup_lt_is_Some_2 phs (N.to_nat i)) as [ph Hp]; [lia|].
      destruct (lookup_lt_is_Some_2 cur (N.to_nat i)) as [c Hc]; [lia|].
      pose proof (Forall_lookup_1 _ _ _ _ Hn Hp) as ->. by destruct (Hph _ _ _ Hp Hc) as (_ & _ & ?).
    + rewrite N.ones_spec_high by done. by apply Hb.
  - apply not_Forall_Exists in Hn; [|apply _]. apply Exists_exists in Hn as (ph & [i Hi]%list_elem_of_lookup & Hne).
    destruct ph as [rem|]; [by exists i, rem|]. exfalso. by apply Hne.
Qed.

Lemma streams_closed phs l : (forall i, ~ is_open phs i) -> interleaving (imap stream phs) l -> l = [].
Proof.
  intros Hn H. inversion H as [|ls i x l' r Hi _]; subst; [done|].
  rewrite list_lookup_imap in Hi. destruct (phs !! i) as [[rem|]|] eqn:E; cbn in Hi; [|done|done].
  exfalso. apply (Hn i). by exists rem.
Qed.

Lemma streams_insert phs i ph :
  (i < length phs)%nat -> <[i := stream i ph]> (imap stream phs) = imap stream (<[i := ph]> phs).
Proof.
  intros Hi. apply list_eq. intros k. rewrite list_lookup_imap. destruct (decide (k = i)) as [->|Hne].
  - by rewrite !list_lookup_insert_eq by (rewrite ?length_imap; done).
  - by rewrite !list_lookup_insert_ne, list_lookup_imap by done.
Qed.

Lemma receiving_push phs cur counts marking st i rem b c :
  receiving phs cur counts marking st -> phs !! i = Some (Some (b :: rem)) -> cur !! i = Some c ->
  receiving (<[i := Some rem]> phs) (<[i := c ++ [b]]> cur)
    (<[i := N.of_nat (length c) + 1]> counts) marking
    (with_jn st (set_inputs (jn st) (<[i := c ++ [b]]> cur ++ rest))).
Proof.
  intros [H1 H2 H3 H4 Hph Hb Hd] Hp Hc.
  pose proof (lookup_lt_Some _ _ _ Hc) as Hi.
  split; rewrite ?length_insert; try done.
  - rewrite H3, list_fmap_insert, length_app. cbn. f_equal. lia.
  - intros k ph c' Hk Hc'. destruct (decide (k = i)) as [->|Hne].
    + rewrite list_lookup_insert_eq in Hk by lia. rewrite list_lookup_insert_eq in Hc' by lia. injection Hk as <-. injection Hc' as <-.
      destruct (Hph i _ _ Hp Hc) as [E ?]. split; [|done]. by rewrite <- app_assoc.
    + rewrite list_lookup_insert_ne in Hk by done. rewrite list_lookup_insert_ne in Hc' by done.
      by eapply Hph.
  - cbn. destruct Hd as [D1 D2]. split.
    + intros k Hk (r & Hr). apply D1; [done|]. destruct (decide (k = i)) as [->|Hne]; [by exists (b :: rem)|].
      rewrite list_lookup_insert_ne in Hr by done. by exists r.
    + intros id Hid. apply D2. intros k Hk (r & Hr). apply Hid; [done|].
      destruct (decide (k = i)) as [->|Hne].
      * exists rem. by rewrite list_lookup_insert_eq by lia.
      * exists r. by rewrite list_lookup_insert_ne.
Qed.

Lemma receiving_close phs cur counts marking st i c :
  receiving phs cur counts marking st -> phs !! i = Some (Some []) -> cur !! i = Some c -> c <> [] ->
  receiving (<[i := None]> phs) cur counts (N.lor marking (2 ^ N.of_nat i))
    (with_jd st (delete (id_of i) (jd st))).
Proof.
  intros [H1 H2 H3 H4 Hph Hb Hd] Hp Hc Hne0.
  pose proof (lookup_lt_Some _ _ _ Hc) as Hi.
  split; rewrite ?length_insert; try done.
  - intros k ph c' Hk Hc'. rewrite N.lor_spec, N.pow2_bits_eqb. destruct (decide (k = i)) as [->|Hne].
    + rewrite list_lookup_insert_eq in Hk by lia. injection Hk as <-. rewrite Hc in Hc'. injection Hc' as <-.
      destruct (Hph i _ _ Hp Hc) as [E ?]. rewrite app_nil_r in E. subst c.
      by rewrite N.eqb_refl, orb_true_r.
    + rewrite list_lookup_insert_ne in Hk by done. pose proof (Hph k _ _ Hk Hc') as H.
      replace (N.of_nat i =? N.of_nat k) with false by (symmetry; apply N.eqb_neq; lia).
      by rewrite orb_false_r.
  - intros k Hk. rewrite N.lor_spec, N.pow2_bits_eqb, Hb by done. cbn. apply N.eqb_neq. lia.
  - cbn. eapply registered_close; [lia|apply Hjd0; lia|exact Hd|]. intros k. unfold is_open. split.
    + intros (r & Hr). destruct (decide (k = i)) as [->|Hne].
      * rewrite list_lookup_insert_eq in Hr by lia. done.
      * rewrite list_lookup_insert_ne in Hr by done. split; [by exists r|done].
    + intros [(r & Hr) Hne]. exists r. by rewrite list_lookup_insert_ne.
Qed.

(** The loop ends with all packs read, or at a neighbor without models. *)
Lemma receive_first_ok ss inbox :
  interleaving ss inbox -> forall phs cur counts marking st,
  ss = imap stream phs -> receiving phs cur counts marking st ->
  exists st' b, receive_first joff neighbors qid (N.ones (N.of_nat t)) inbox marking counts st = Ok (st', b) /\
    outstanding st' = outstanding st /\ answered st' = answered st /\
    (if b : bool then
       (forall i, (i < t)%nat -> R i <> []) /\ jd st' = jd0 /\ join_in st' = [] /\
       jn st' = set_inputs (jn st) ((R <$> seq 0 t) ++ rest)
     else (exists i, (i < t)%nat /\ R i = []) /\
       exists inp, length inp = (t + length rest)%nat /\ jn st' = set_inputs (jn st) inp).
Proof.
  induction 1 as [ss Hnil|ss i x l r Hi Hil IH]; intros phs cur counts marking st -> Hr;
    cbn [receive_first]; destruct (N.eqb_spec marking (N.ones (N.of_nat t))) as [Hm|Hm].
  1, 3: destruct (all_closed _ _ _ _ _ Hr Hm) as (Hcl & Hcur & Hne).
  - do 2 eexists. split; [reflexivity|]. split; [done|]. split; [done|]. split; [done|]. cbn.
    split; [eapply registered_none; [|exact (rcv_jd _ _ _ _ _ Hr)]; intros; apply Hcl|].
    split; [done|]. rewrite <- Hcur, <- (rcv_inputs _ _ _ _ _ Hr). by destruct (jn st).
  - exfalso. assert (interleaving (imap stream phs) (x :: r)) as H by (by eapply il_cons).
    apply streams_closed in H; [done|done].
  - exfalso. destruct (some_open _ _ _ _ _ Hr Hm) as (i & rem & Hi).
    assert (H : imap stream phs !! i = Some (stream i (Some rem))) by (by rewrite list_lookup_imap, Hi).
    pose proof (Forall_lookup_1 _ _ _ _ Hnil H) as E. cbn in E. by destruct rem.
  - rewrite list_lookup_imap in Hi. destruct (phs !! i) as [[rem|]|] eqn:Hp; cbn in Hi; [|done|done].
    pose proof (lookup_lt_Some _ _ _ Hp) as Hit. rewrite (rcv_length _ _ _ _ _ Hr) in Hit.
    destruct (fq_facts joff neighbors Hnbs qid i Hq) as (F1 & F2 & _); [lia|].
    pose proof (offset2index_ok joff neighbors Hnbs i) as Hix.
    destruct (lookup_lt_is_Some_2 cur i) as [c Hc]; [by rewrite (rcv_cur _ _ _ _ _ Hr)|].
    assert (Hcount : vec_at counts (N.of_nat i) = Ok (N.of_nat (length c))).
    { rewrite vec_at_ok, Nat2N.id, (rcv_counts _ _ _ _ _ Hr), list_lookup_fmap, Hc. done. }
    destruct rem as [|b rem]; cbn in Hi; injection Hi as <- <-.
    + rewrite F1, Hix by lia. change (default 0 (Some (N.of_nat i))) with (N.of_nat i).
      unfold unregisterIdOffset. destruct (rcv_jd _ _ _ _ _ Hr) as [D1 _].
      rewrite D1 by (lia || by exists []). rewrite N.eqb_refl. change (assert true) with (Ok tt). rsimpl.
      rewrite Hcount. rsimpl. destruct c as [|b0 c].
      * do 2 eexists. split; [reflexivity|]. split; [done|]. split; [done|]. split.
        -- exists i. split; [done|]. destruct (rcv_phase _ _ _ _ _ Hr i _ _ Hp Hc) as [HE _]. exact (eq_sym HE).
        -- exists (input_belief_states (jn st)). split; [|cbn; by destruct (jn st)].
           rewrite (rcv_inputs _ _ _ _ _ Hr), length_app, (rcv_cur _ _ _ _ _ Hr). done.
      * destruct (N.eqb_spec (N.of_nat (length (b0 :: c))) 0); [cbn in *; lia|].
        rewrite shl_pow by (pose proof (nbs_few _ _ Hnbs); lia). rsimpl.
        assert (Hlt : (i < length phs)%nat) by (by rewrite (rcv_length _ _ _ _ _ Hr)).
        exact (IH _ _ _ _ _ (streams_insert phs i None Hlt)
          (receiving_close _ _ _ _ _ i (b0 :: c) Hr Hp Hc ltac:(done))).
    + rewrite F1, F2, N.eqb_refl, Hix by lia. change (default 0 (Some (N.of_nat i))) with (N.of_nat i). change (assert true) with (Ok tt). rsimpl.
      rewrite Hcount. rsimpl. unfold push_input.
      assert (vec_at (input_belief_states (jn st)) (N.of_nat i) = Ok c) as ->.
      { rewrite vec_at_ok, Nat2N.id, (rcv_inputs _ _ _ _ _ Hr), lookup_app_l; [done|].
        by rewrite (rcv_cur _ _ _ _ _ Hr). }
      rsimpl. rewrite Nat2N.id, (rcv_inputs _ _ _ _ _ Hr), insert_app_l by (by rewrite (rcv_cur _ _ _ _ _ Hr)).
      assert (Hlt : (i < length phs)%nat) by (by rewrite (rcv_length _ _ _ _ _ Hr)).
      exact (IH _ _ _ _ _ (streams_insert phs i (Some rem) Hlt) (receiving_push _ _ _ _ _ i rem b c Hr Hp Hc)).
Qed.

End first_packs.

Lemma all_mask t :
  (0 < t <= m)%nat ->
  (bit ← shl 1 (N.of_nat t - 1 - 0 + 1); shl (u64_sub bit 1) 0) = Ok (N.ones (N.of_nat t)).
Proof.
  intros Ht. pose proof (nbs_few _ _ Hnbs).
  replace (N.of_nat t - 1 - 0 + 1) with (N.of_nat t) by lia.
  pose proof (pow2_small (N.of_nat t) ltac:(lia)). pose proof (N.pow_nonzero 2 (N.of_nat t)).
  rewrite shl_pow by lia. rsimpl. rewrite u64_sub_small by lia.
  change (shl (2 ^ N.of_nat t - 1) 0) with (Ok (u64_shl (2 ^ N.of_nat t - 1) 0)).
  unfold u64_shl. rewrite N.shiftl_0_r, N.mod_small by lia.
  by rewrite N.ones_equiv, N.sub_1_r.
Qed.

(** Asking the first [t] neighbors for their first packs. *)
Lemma ask_first_packs_ok t st :
  (0 < t <= m)%nat -> length (input_belief_states (jn st)) = m ->
  outstanding st = [] -> join_in st = [] -> (forall i, (i < m)%nat -> jd st !! id_of i = None) ->
  exists st' b,
    ask_first_packs pack_size joff neighbors respond hist qid 0 (N.of_nat t - 1) st = Ok (st', b) /\
    outstanding st' = [] /\
    (if b : bool then
       (forall i, (i < t)%nat -> reply i K1 K2 <> []) /\ jd st' = jd st /\ join_in st' = [] /\
       jn st' = set_inputs (jn st)
         (((fun i => reply i K1 K2) <$> seq 0 t) ++ drop t (input_belief_states (jn st)))
     else (exists i, (i < t)%nat /\ reply i K1 K2 = []) /\
       exists inp, length inp = m /\ jn st' = set_inputs (jn st) inp).
Proof.
  intros Ht Hl Hout Hin Hnone. set (I := input_belief_states (jn st)) in *.
  destruct (ask_all_ok t st) as (d & Hd & Hask); [lia|done|done|done|].
  unfold ask_first_packs, no_neighbors.
  destruct (N.leb_spec 0 (N.of_nat t - 1)); [|lia]. destruct (N.ltb_spec (N.of_nat t - 1) (N.of_nat m)); [|lia].
  change (assert (true && true)) with (Ok tt). rsimpl.
  replace (N.of_nat t - 1 + 1) with (N.of_nat t) by lia. rewrite Hask. rsimpl.
  pose proof (all_mask t Ht) as Hmask. apply bind_ok in Hmask as (bit & -> & Hall). rsimpl. rewrite Hall. rsimpl.
  unfold deliver. cbn [jn jd outstanding answered join_in]. rewrite Hin. cbn [app].
  replace (N.to_nat (N.of_nat t - 1) + 1)%nat with t by lia.
  assert (Hil : interleaving ((fun e => answer reply e.1 e.2) <$> first_requests t)
    (respond (answered st) ((fun e => (off neighbors e.1, e.2)) <$> first_requests t))).
  { apply net_respond. unfold first_requests. apply Forall_fmap, Forall_seq. cbn. lia. }
  set (inbox := respond _ _) in *.
  destruct (receive_first_ok t Ht (fun i => reply i K1 K2) (jd st) Hnone (drop t I) _ inbox Hil
    ((fun i => Some (reply i K1 K2)) <$> seq 0 t) (replicate t []) (replicate t 0) 0
    (mk_js (set_inputs (jn st) (replicate t [] ++ drop t I)) d []
       (answered st ++ ((fun e => (off neighbors e.1, e.2)) <$> first_requests t)) inbox))
    as (st' & b & Hrf & Ho & _ & Hres).
  - apply list_eq. intros k. unfold first_requests. rewrite list_lookup_imap, !list_lookup_fmap.
    destruct (seq 0 t !! k) as [k'|] eqn:E; [|done]. apply lookup_seq in E as [-> _]. done.
  - split; rewrite ?length_fmap, ?length_seq, ?length_replicate; try done.
    + by rewrite fmap_replicate.
    + intros i ph c Hph Hc. rewrite list_lookup_fmap in Hph.
      destruct (seq 0 t !! i) as [i'|] eqn:E; [|done]. apply lookup_seq in E as [-> _].
      injection Hph as <-. apply lookup_replicate in Hc as [-> _]. split; [done|apply N.bits_0].
    + cbn. destruct Hd as [D1 D2]. split.
      * intros i Hi (rem & Hr). apply D1; [done|]. apply lookup_lt_Some in Hr.
        by rewrite length_fmap, length_seq in Hr.
      * intros id Hid. apply D2. intros i Hi Hit. apply Hid; [done|]. exists (reply i K1 K2).
        by rewrite list_lookup_fmap, lookup_seq_lt.
  - exists st', b. split; [exact Hrf|]. split; [done|]. destruct b; [exact Hres|].
    destruct Hres as [He (inp & Hlen & Hj)]. split; [done|]. exists inp. split; [|done].
    rewrite Hlen, length_drop. fold I. lia.
Qed.

(** Asking one neighbor and waiting for its answer. *)
Lemma receive_pack_ok i ms : forall cur count st,
  (i < m)%nat -> input_belief_states (jn st) !! i = Some cur -> jd st !! id_of i = Some joff ->
  receive_pack joff neighbors (N.of_nat i)
    (((fun b => (Some b, id_of i)) <$> ms) ++ [(None, id_of i)]) count st =
  Ok (mk_js (set_inputs (jn st) (<[i := cur ++ ms]> (input_belief_states (jn st))))
        (delete (id_of i) (jd st)) (outstanding st) (answered st) [], count + N.of_nat (length ms)).
Proof.
  induction ms as [|b ms IH]; intros cur count st Hi Hc Hjd; cbn [fmap list_fmap app receive_pack].
  - unfold unregisterIdOffset. rewrite Hjd, N.eqb_refl. change (assert true) with (Ok tt). rsimpl.
    rewrite app_nil_r, list_insert_id, N.add_0_r by done. by destruct st as [[] ? ? ? ?].
  - destruct (fq_facts joff neighbors Hnbs qid i Hq Hi) as (F1 & _ & _).
    pose proof Hi as [nbr Hn]%lookup_lt_is_Some.
    assert (vec_at neighbors (N.of_nat i) = Ok nbr) as -> by (by rewrite vec_at_ok, Nat2N.id). rsimpl.
    rewrite F1. unfold off. rewrite Hn. cbn [fmap option_fmap option_map default]. rewrite N.eqb_refl.
    change (assert true) with (Ok tt). rsimpl. unfold push_input.
    assert (vec_at (input_belief_states (jn st)) (N.of_nat i) = Ok cur) as -> by (by rewrite vec_at_ok, Nat2N.id).
    rsimpl. rewrite Nat2N.id. rewrite (IH (cur ++ [b])); [|done| |done].
    + cbn [jn jd outstanding answered with_jn set_inputs input_belief_states].
      rewrite list_insert_insert_eq, <- app_assoc. cbn [app length]. do 2 f_equal. lia.
    + cbn. rewrite list_lookup_insert_eq; [done|]. by eapply lookup_lt_Some.
Qed.

Lemma interleaving_single {A} (l r : list A) : interleaving [l] r -> r = l.
Proof.
  intros H. remember [l] as ls eqn:E. revert l E.
  induction H as [ls Hn|ls i x l' r Hi _ IH]; intros l ->.
  - apply Forall_cons in Hn as [-> _]. done.
  - destruct i as [|i]; [|done]. injection Hi as ->. f_equal. by apply IH.
Qed.

Lemma ask_neighbor_and_receive_ok i k1 k2 st :
  (i < m)%nat -> length (input_belief_states (jn st)) = m ->
  outstanding st = [] -> join_in st = [] -> jd st !! id_of i = None ->
  exists ans,
    ask_neighbor_and_receive joff neighbors respond hist (N.of_nat i) qid k1 k2 st =
    Ok (mk_js (set_inputs (jn st) (<[i := reply i k1 k2]> (input_belief_states (jn st)))) (jd st) []
          ans [], negb (bool_decide (reply i k1 k2 = []))).
Proof.
  intros Hi Hl Hout Hin Hjd. unfold ask_neighbor_and_receive.
  rewrite ask_neighbor_ok by done. rsimpl. rewrite Hout, Hin. unfold deliver. cbn [jn jd outstanding answered join_in app].
  assert (Hil : interleaving [answer reply i (fwd_new (id_of i) hist k1 k2)]
    (respond (answered st) [(off neighbors i, fwd_new (id_of i) hist k1 k2)])).
  { apply (net_respond (answered st) [(i, fwd_new (id_of i) hist k1 k2)]). by apply Forall_singleton. }
  apply interleaving_single in Hil. rewrite Hil. unfold answer. cbn [fm_qid fm_k1 fm_k2 fwd_new].
  rewrite (receive_pack_ok i _ []); [|done| |].
  - rsimpl. cbn [jn jd outstanding answered set_inputs input_belief_states app].
    rewrite list_insert_insert_eq, delete_insert_id by done. eexists. do 2 f_equal.
    destruct (reply i k1 k2); [done|]. cbn. by destruct (N.eqb_spec (0 + N.pos (Pos.of_succ_nat (length l))) 0).
  - cbn. apply list_lookup_insert_eq. lia.
  - cbn. apply lookup_insert_eq.
Qed.

End network.

(** ** The packs of the neighbors *)

Section stream.
Context (nb sb : N) (Hnb : 0 < nb) (Hsb : 0 < sb) (Hmax : nb * (sb + 1) <= id_max).
Context (pack_size joff : N) (neighbors : list NewNeighbor).
Context (respond : list request -> list request -> list rvalue).
Context (models : list (list NewBeliefState)) (reply : nat -> N -> N -> list NewBeliefState).
Context (Hnet : Network neighbors respond models reply) (Hnbs : neighbors_wf joff neighbors).
Context (Hlen : length models = length neighbors).
Context (Hwf : Forall (Forall (bs_wf (nb * (sb + 1)))) models).
Context (Hbig : Forall (fun ms => N.of_nat (length ms) + 2 * pack_size < W64) models).
Context (hist : gset N).
Context (jd0 : gmap N N) (Hjd0 : forall id x, jd0 !! id = Some x -> QueryID.joiner_offset_from_qid id <> joff).
Local Abbreviation m := (length neighbors).
Local Abbreviation o := (layout nb sb).

Lemma jd0_free qid i : valid_qid qid -> (i < m)%nat -> jd0 !! fq joff neighbors qid i = None.
Proof.
  intros Hq Hi. destruct (jd0 !! _) as [x|] eqn:E; [|done]. apply Hjd0 in E.
  by destruct (fq_facts joff neighbors Hnbs qid i Hq Hi) as (_ & _ & ?).
Qed.

(** Pack number [c] of neighbor [i], counting from 0, and the numbers of
    non-empty packs. *)
Definition pack (i : nat) (c : N) : list NewBeliefState :=
  reply i (c * pack_size + 1) ((c + 1) * pack_size).

Definition packs (v : list N) : list (list NewBeliefState) := imap pack v.

Definition no_packs (ms : list NewBeliefState) : N := (N.of_nat (length ms) + pack_size - 1) / pack_size.
Definition nps : list N := no_packs <$> models.

Lemma elem_of_take_drop {A} (x : A) k d l :
  x ∈ take k (drop d l) <-> exists i, l !! (d + i)%nat = Some x /\ (i < k)%nat.
Proof.
  rewrite list_elem_of_lookup. split.
  - intros [i Hi]. apply lookup_take_Some in Hi as [Hi Hk]. rewrite lookup_drop in Hi. by exists i.
  - intros (i & Hi & Hk). exists i. apply lookup_take_Some. by rewrite lookup_drop.
Qed.

(** Nothing is under way. *)
Definition quiet (st : jstate) : Prop := jd st = jd0 /\ outstanding st = [] /\ join_in st = [].

Record joiner_ready (st : jstate) : Prop := {
  jr_inputs : length (input_belief_states (jn st)) = m;
  jr_count : length (pack_count (jn st)) = m;
  jr_quiet : quiet st;
}.

(** Calls of [next_join] deliver the inputs one by one and then null, and
    after every one of them the joiner is ready for another request. *)
Inductive delivers (fuel : nat) : (nat -> N) -> jstate -> list NewBeliefState -> Prop :=
  | del_end qids st st' q :
      next_join pack_size joff neighbors o respond fuel hist (qids O) st = Ok (st', (None, q)) ->
      joiner_ready st' -> delivers fuel qids st []
  | del_more qids st st' x q l :
      next_join pack_size joff neighbors o respond fuel hist (qids O) st = Ok (st', (Some x, q)) ->
      joiner_ready st' -> delivers fuel (fun k => qids (S k)) st' l -> delivers fuel qids st (x :: l).

Section positive.
Context (Hps : 0 < pack_size).
Local Abbreviation loop := (next_join_loop pack_size joff neighbors o respond).

Lemma elem_of_pack i ms c x :
  models !! i = Some ms ->
  x ∈ pack i c <-> exists k, ms !! k = Some x /\ N.of_nat k / pack_size = c.
Proof.
  intros Hi. unfold pack. rewrite (net_reply i ms) by (done || right; nia).
  unfold slice, Evaluator.slice. destruct (N.eqb_spec (c * pack_size + 1) 0); [lia|]. cbn [andb].
  replace (c * pack_size + 1 - 1) with (c * pack_size) by lia. rewrite elem_of_take_drop. split.
  - intros (k & Hk & Hlt). eexists. split; [exact Hk|].
    symmetry. apply (N.div_unique _ pack_size c (N.of_nat k)); nia.
  - intros (k & Hk & <-). exists (k - N.to_nat (N.of_nat k / pack_size * pack_size))%nat.
    pose proof (N.div_mod (N.of_nat k) pack_size ltac:(lia)).
    pose proof (N.mod_lt (N.of_nat k) pack_size ltac:(lia)).
    set (q := N.of_nat k / pack_size) in *. set (d := N.of_nat k mod pack_size) in *.
    clearbody q d. rewrite (N.mul_comm pack_size q) in *.
    split; [rewrite <- Hk; f_equal; lia|]. rewrite N.mul_add_distr_r. lia.
Qed.

Lemma pack_empty i ms c : models !! i = Some ms -> pack i c = [] <-> no_packs ms <= c.
Proof.
  intros Hi. unfold no_packs.
  pose proof (N.div_mod (N.of_nat (length ms) + pack_size - 1) pack_size ltac:(lia)).
  pose proof (N.mod_lt (N.of_nat (length ms) + pack_size - 1) pack_size ltac:(lia)).
  set (np := (N.of_nat (length ms) + pack_size - 1) / pack_size) in *.
  set (d := (N.of_nat (length ms) + pack_size - 1) mod pack_size) in *. clearbody np d.
  split.
  - intros E. destruct (N.le_gt_cases np c) as [|Hlt]; [done|]. exfalso.
    assert ((c + 1) * pack_size <= np * pack_size) by (apply N.mul_le_mono_r; lia).
    destruct (lookup_lt_is_Some_2 ms (N.to_nat (c * pack_size))) as [x Hx]; [lia|].
    assert (x ∈ pack i c) as Hin.
    { apply (elem_of_pack i ms c x Hi). eexists. split; [exact Hx|]. rewrite N2Nat.id. apply N.div_mul. lia. }
    rewrite E in Hin. by apply not_elem_of_nil in Hin.
  - intros Hle. destruct (pack i c) as [|x l] eqn:E; [done|]. exfalso.
    assert (x ∈ pack i c) as Hin by (rewrite E; by left).
    apply (elem_of_pack i ms c x Hi) in Hin as (k & Hk & <-).
    apply lookup_lt_Some in Hk.
    pose proof (N.div_mod (N.of_nat k) pack_size ltac:(lia)).
    pose proof (N.mod_lt (N.of_nat k) pack_size ltac:(lia)).
    set (q := N.of_nat k / pack_size) in *. set (d' := N.of_nat k mod pack_size) in *. clearbody q d'.
    assert (np * pack_size <= q * pack_size) by (apply N.mul_le_mono_r; lia). lia.
Qed.

Lemma pack_range i ms c x : models !! i = Some ms -> x ∈ pack i c -> c < no_packs ms.
Proof.
  intros Hi Hx. destruct (N.lt_ge_cases c (no_packs ms)) as [|Hge]; [done|].
  apply (pack_empty i ms c Hi) in Hge. rewrite Hge in Hx. by apply not_elem_of_nil in Hx.
Qed.

Lemma row_packs s L : forall row,
  (forall i ms, L !! i = Some ms -> models !! (s + i)%nat = Some ms) ->
  Forall2 (fun b bsv => b ∈ bsv) row L <->
  exists v, in_range (no_packs <$> L) v /\
    Forall2 (fun b bsv => b ∈ bsv) row (imap (fun i => pack (s + i)) v).
Proof.
  revert s. induction L as [|ms L IH]; intros s row HL.
  - split.
    + intros H. inversion H; subst. exists []. split; constructor.
    + intros (v & Hv & H). inversion Hv; subst. exact H.
  - pose proof (HL 0%nat ms eq_refl) as Hms. rewrite Nat.add_0_r in Hms.
    assert (HL' : forall i ms', L !! i = Some ms' -> models !! (S s + i)%nat = Some ms').
    { intros i ms' Hi. rewrite Nat.add_succ_comm. by apply HL. }
    assert (Hext : forall v, imap (fun i => pack (S s + i)) v = imap ((fun i => pack (s + i)) ∘ S) v).
    { intros v. apply imap_ext. intros i x _. cbn. by rewrite Nat.add_succ_r. }
    split.
    + intros H. inversion H as [|b ? row' ? Hb Hrow]; subst.
      apply (IH (S s) row' HL') in Hrow as (v & Hv & Hrow).
      apply list_elem_of_lookup in Hb as [k Hk].
      assert (b ∈ pack s (N.of_nat k / pack_size)) as Hin by (apply (elem_of_pack s ms); [done|by exists k]).
      exists (N.of_nat k / pack_size :: v). split.
      * constructor; [by eapply pack_range|done].
      * rewrite imap_cons. constructor; [by rewrite Nat.add_0_r|]. by rewrite <- Hext.
    + intros (v & Hv & H). inversion Hv as [|? c ? v' Hc Hv']; subst. rewrite imap_cons, <- Hext in H.
      inversion H as [|b ? row' ? Hb Hrow]; subst. constructor.
      * rewrite Nat.add_0_r in Hb. apply (elem_of_pack s ms) in Hb as (k & Hk & _); [|done].
        by eapply list_elem_of_lookup_2.
      * apply (IH (S s) row' HL'). by exists v'.
Qed.

(** The combinations of models are those of the packs. *)
Lemma joined_from_packs r :
  joined_from nb sb models r <-> exists v, in_range nps v /\ joined_from nb sb (packs v) r.
Proof.
  unfold joined_from, packs, nps. split.
  - intros (row & Hrow & Hr). apply (row_packs 0 models row) in Hrow as (v & Hv & Hrow); [|done].
    exists v. split; [done|]. by exists row.
  - intros (v & Hv & row & Hrow & Hr). exists row. split; [|done].
    apply (row_packs 0 models row); [done|]. by exists v.
Qed.

Lemma packs_lookup v i c : v !! i = Some c -> packs v !! i = Some (pack i c).
Proof. intros H. unfold packs. by rewrite list_lookup_imap, H. Qed.

Lemma range_lookup v i c :
  in_range nps v -> v !! i = Some c -> exists ms, models !! i = Some ms /\ c < no_packs ms.
Proof.
  intros Hv Hc. destruct (Forall2_lookup_r _ _ _ _ _ Hv Hc) as (p & Hp & Hlt).
  unfold nps in Hp. rewrite list_lookup_fmap in Hp. destruct (models !! i) as [ms|] eqn:E; [|done].
  injection Hp as <-. by exists ms.
Qed.

Lemma range_length v : in_range nps v -> length v = m.
Proof. intros H%Forall2_length. unfold nps in H. rewrite length_fmap in H. lia. Qed.

Lemma packs_wf v : in_range nps v -> Forall (Forall (bs_wf (nb * (sb + 1)))) (packs v).
Proof.
  intros Hv. apply Forall_lookup. intros i l Hl. unfold packs in Hl. rewrite list_lookup_imap in Hl.
  destruct (v !! i) as [c|] eqn:Ec; [|done]. injection Hl as <-.
  destruct (range_lookup v i c Hv Ec) as (ms & Hi & _).
  apply Forall_forall. intros x Hx. apply (elem_of_pack i ms c x Hi) in Hx as (k & Hk & _).
  eapply Forall_lookup_1; [|exact Hk]. exact (Forall_lookup_1 _ _ _ _ Hwf Hi).
Qed.

Lemma packs_nonempty v : in_range nps v -> Forall (fun bsv => bsv <> []) (packs v).
Proof.
  intros Hv. apply Forall_lookup. intros i l Hl. unfold packs in Hl. rewrite list_lookup_imap in Hl.
  destruct (v !! i) as [c|] eqn:Ec; [|done]. injection Hl as <-.
  destruct (range_lookup v i c Hv Ec) as (ms & Hi & Hc). rewrite (pack_empty i ms c Hi). lia.
Qed.

Lemma packs_some v : in_range nps v -> packs v <> [].
Proof.
  intros Hv E. apply (f_equal length) in E. unfold packs in E. rewrite length_imap, (range_length v Hv) in E.
  pose proof (nbs_some _ _ Hnbs). cbn in E. lia.
Qed.

(** ** The state between two calls *)

Record at_packs (v : list N) (rs : list rvalue) (st : jstate) : Prop := {
  ap_range : in_range nps v;
  ap_jn : jn st = mk_joiner (packs v) rs 0 false v;
  ap_jd : jd st = jd0;
  ap_out : outstanding st = [];
  ap_in : join_in st = [];
}.

(** ** Looking for the next combination of packs

    The first [j] neighbors have no more packs, the others are at [v]. *)
Record scanning (j : nat) (v : list N) (inp : list (list NewBeliefState)) (st : jstate) : Prop := {
  sc_range : in_range nps v;
  sc_bound : (j <= m)%nat;
  sc_full i ms d : (i < j)%nat -> models !! i = Some ms -> v !! i = Some d -> no_packs ms <= d + 1;
  sc_jn : jn st = mk_joiner inp [] (N.of_nat j) (negb (j =? 0)%nat) (take j nps ++ drop j v);
  sc_length : length inp = m;
  sc_inp i : (j <= i)%nat -> inp !! i = packs v !! i;
  sc_jd : jd st = jd0;
  sc_out : outstanding st = [];
  sc_in : join_in st = [];
}.

Lemma length_nps : length nps = m.
Proof. unfold nps. by rewrite length_fmap. Qed.

Lemma at_packs_scanning v st : at_packs v [] st -> scanning 0 v (packs v) st.
Proof.
  intros [Hv Hj H1 H2 H3]. split; try done.
  - lia.
  - by intros; lia.
  - unfold packs. by rewrite length_imap, (range_length v Hv).
Qed.

Lemma scanning_count j v inp st d :
  scanning j v inp st -> v !! j = Some d -> vec_at (pack_count (jn st)) (N.of_nat j) = Ok d.
Proof.
  intros [Hv Hb _ Hj _ _ _ _ _] Hd. rewrite Hj. cbn [pack_count]. rewrite vec_at_ok, Nat2N.id.
  rewrite lookup_app_r; rewrite length_take, length_nps; [|lia].
  rewrite lookup_drop. rewrite <- Hd. f_equal. lia.
Qed.

(** The numbers of the next pack do not overflow. *)
Lemma pack_numbers ms d :
  ms ∈ models -> d < no_packs ms ->
  u64_add d 1 = d + 1 /\
  u64_add (u64_mul (d + 1) pack_size) 1 = (d + 1) * pack_size + 1 /\
  u64_mul (u64_add (d + 1) 1) pack_size = (d + 1 + 1) * pack_size.
Proof.
  intros Hms Hd. rewrite Forall_forall in Hbig. specialize (Hbig ms Hms). cbn in Hbig. unfold no_packs in Hd.
  pose proof (N.div_mod (N.of_nat (length ms) + pack_size - 1) pack_size ltac:(lia)).
  set (np := (N.of_nat (length ms) + pack_size - 1) / pack_size) in *.
  set (e := (N.of_nat (length ms) + pack_size - 1) mod pack_size) in *. clearbody np e.
  assert ((d + 1) * pack_size <= np * pack_size) by (apply N.mul_le_mono_r; lia).
  assert (d + 1 <= (d + 1) * pack_size) by nia.
  rewrite !u64_add_small, !u64_mul_small by (rewrite ?u64_mul_small by lia; lia). done.
Qed.

Lemma csucc_at j v inp st d ms :
  scanning j v inp st -> v !! j = Some d -> models !! j = Some ms ->
  csucc nps v = (fun w => replicate j 0 ++ w) <$>
    (if d + 1 <? no_packs ms then Some (d + 1 :: drop (S j) v)
     else cons 0 <$> csucc (drop (S j) nps) (drop (S j) v)).
Proof.
  intros [Hv Hb Hfull _ _ _ _ _ _] Hd Hms.
  rewrite (csucc_carry j nps v).
  - rewrite (drop_S v d j Hd), (drop_S nps (no_packs ms) j); [done|].
    unfold nps. by rewrite list_lookup_fmap, Hms.
  - by rewrite length_nps, (range_length v Hv).
  - intros i p e Hi Hp He. unfold nps in Hp. rewrite list_lookup_fmap in Hp.
    destruct (models !! i) as [ms'|] eqn:E; [|done]. injection Hp as <-. by eapply Hfull.
  - by rewrite length_nps.
Qed.

(** A neighbor that has no further pack. *)
Lemma scan_skip j v inp st qid d ms :
  valid_qid qid -> scanning j v inp st -> v !! j = Some d -> models !! j = Some ms -> no_packs ms <= d + 1 ->
  exists inp' st', scanning (S j) v inp' st' /\
    forall fuel, next_join_loop pack_size joff neighbors o respond (S fuel) hist qid st =
                 next_join_loop pack_size joff neighbors o respond fuel hist qid st'.
Proof.
  intros Hq Hsc Hd Hms Hend. pose proof Hsc as [Hv Hb Hfull Hj Hl Hinp Hjd Hout Hin].
  pose proof (lookup_lt_Some _ _ _ Hd) as Hjm. rewrite (range_length v Hv) in Hjm.
  destruct (range_lookup v j d Hv Hd) as (ms' & Hms' & Hdr). rewrite Hms in Hms'. injection Hms' as <-.
  destruct (pack_numbers ms d) as (N1 & N2 & N3); [by eapply list_elem_of_lookup_2|done|].
  set (st1 := with_jn st (set_count (jn st) (<[j := d + 1]> (pack_count (jn st))))).
  destruct (ask_neighbor_and_receive_ok joff neighbors respond models reply Hnet Hnbs hist qid Hq j
    ((d + 1) * pack_size + 1) ((d + 1 + 1) * pack_size) st1) as (ans & Hask).
  { done. } { cbn. by rewrite Hj. } { done. } { done. } { cbn. rewrite Hjd. by apply jd0_free. }
  fold (pack j (d + 1)) in Hask. rewrite (proj2 (pack_empty j ms (d + 1) Hms) Hend) in Hask.
  exists (<[j := []]> inp). eexists. split; [|intros fuel; cbn [next_join_loop]].
  2: { rewrite Hj at 1. cbn [next_neighbor]. unfold no_neighbors.
       destruct (N.eqb_spec (N.of_nat j) (N.of_nat m)); [lia|].
       replace (next_neighbor (jn st)) with (N.of_nat j) by (by rewrite Hj).
       rewrite (scanning_count j v inp st d Hsc Hd). rsimpl. rewrite N1, N2, N3, Nat2N.id.
       fold st1. rewrite Hask. rsimpl. cbn match. reflexivity. }
  split; cbn; try done.
  - intros i ms' d' Hi Hms' Hd'. destruct (decide (i = j)) as [->|Hne].
    + rewrite Hms in Hms'. rewrite Hd in Hd'. by injection Hms' as <-; injection Hd' as <-.
    + by eapply (Hfull i); [lia|..].
  - rewrite Hj. unfold set_next, set_inputs, set_count. cbn. f_equal; [lia|].
    rewrite (drop_S v d j Hd), insert_app_r_alt; rewrite length_take, length_nps; [|lia].
    replace (j - j `min` m)%nat with 0%nat by lia. cbn [insert list_insert].
    assert (nps !! j = Some (d + 1)) as Hnp.
    { unfold nps. rewrite list_lookup_fmap, Hms. cbn. f_equal. lia. }
    by rewrite (take_S_r nps j (d + 1) Hnp), <- app_assoc.
  - by rewrite length_insert.
  - intros i Hi. rewrite list_lookup_insert_ne by lia. apply Hinp. lia.
Qed.

(** The packs after a step of the counter. *)
Lemma packs_step j v inp st d d1 :
  scanning j v inp st -> v !! j = Some d ->
  packs (replicate j 0 ++ d1 :: drop (S j) v) =
    ((fun i => pack i 0) <$> seq 0 j) ++ drop j (<[j := pack j d1]> inp).
Proof.
  intros [Hv Hb _ _ Hl Hinp _ _ _] Hd. pose proof (lookup_lt_Some _ _ _ Hd) as Hjm.
  apply list_eq. intros i. unfold packs. rewrite list_lookup_imap.
  destruct (lt_eq_lt_dec i j) as [[Hi| ->]|Hi].
  - rewrite lookup_app_l by (by rewrite length_replicate).
    rewrite lookup_replicate_2 by done. rewrite lookup_app_l by (by rewrite length_fmap, length_seq).
    by rewrite list_lookup_fmap, lookup_seq_lt.
  - rewrite lookup_app_r, length_replicate, Nat.sub_diag by (by rewrite length_replicate).
    rewrite lookup_app_r, length_fmap, length_seq, Nat.sub_diag by (by rewrite length_fmap, length_seq).
    rewrite lookup_drop, Nat.add_0_r, list_lookup_insert_eq; [done|].
    rewrite (range_length v Hv) in Hjm. lia.
  - rewrite lookup_app_r, length_replicate by (rewrite length_replicate; lia).
    rewrite lookup_app_r, length_fmap, length_seq by (rewrite length_fmap, length_seq; lia).
    destruct (i - j)%nat as [|k] eqn:Ek; [lia|]. rewrite lookup_cons.
    rewrite !lookup_drop, list_lookup_insert_ne by lia.
    replace (j + S k)%nat with i by lia. replace (S j + k)%nat with i by lia. rewrite Hinp by lia.
    unfold packs. by rewrite list_lookup_imap.
Qed.

Lemma count_step j v d d1 :
  in_range nps v -> v !! j = Some d ->
  replicate j 0 ++ drop j (<[j := d1]> (take j nps ++ drop j v)) = replicate j 0 ++ d1 :: drop (S j) v.
Proof.
  intros Hv Hd. pose proof (lookup_lt_Some _ _ _ Hd) as Hjm. rewrite (range_length v Hv) in Hjm.
  f_equal. rewrite (drop_S v d j Hd), insert_app_r_alt; rewrite length_take, length_nps; [|lia].
  replace (j - j `min` m)%nat with 0%nat by lia. cbn [insert list_insert].
  apply drop_app_length'. rewrite length_take, length_nps. lia.
Qed.

Lemma first_pack i : (if 0 <? pack_size then 1 else 0) = 1 /\
  reply i (if 0 <? pack_size then 1 else 0) (if 0 <? pack_size then pack_size else 0) = pack i 0.
Proof.
  destruct (N.ltb_spec 0 pack_size); [|lia]. split; [done|]. unfold pack. f_equal; lia.
Qed.

(** Reloading the first packs of the neighbors before [j]. *)
Lemma reload_ok j v inp st st2 qid d :
  valid_qid qid -> scanning j v inp st -> v !! j = Some d -> d + 1 < default 0 (nps !! j) ->
  jn st2 = mk_joiner (<[j := pack j (d + 1)]> inp) [] (N.of_nat j) (negb (j =? 0)%nat)
             (<[j := d + 1]> (take j nps ++ drop j v)) ->
  jd st2 = jd0 -> outstanding st2 = [] -> join_in st2 = [] ->
  let v' := replicate j 0 ++ (d + 1) :: drop (S j) v in
  exists st3,
    (if asking_next (jn st2) then
       _ ← assert (0 <? N.of_nat j);
       '(st, ret) ← ask_first_packs pack_size joff neighbors respond hist qid 0 (N.of_nat j - 1) st2;
       _ ← assert ret;
       mret (with_jn st (set_count (jn st)
         (replicate j 0 ++ drop j (pack_count (jn st)))))
     else mret st2) = Ok st3 /\
    jn st3 = mk_joiner (packs v') [] (N.of_nat j) (negb (j =? 0)%nat) v' /\
    jd st3 = jd0 /\ outstanding st3 = [] /\ join_in st3 = [].
Proof.
  intros Hq Hsc Hd Hd1 Hj2 Hjd2 Ho2 Hi2 v'. pose proof Hsc as [Hv Hb _ _ Hl _ _ _ _].
  pose proof (lookup_lt_Some _ _ _ Hd) as Hjm. rewrite (range_length v Hv) in Hjm.
  pose proof (packs_step j v inp st d (d + 1) Hsc Hd) as Hpk. fold v' in Hpk.
  pose proof (count_step j v d (d + 1) Hv Hd) as Hct. fold v' in Hct.
  rewrite Hj2. cbn [asking_next]. destruct j as [|j].
  - exists st2. split; [done|]. split; [|done]. rewrite Hj2. f_equal; [exact (eq_sym Hpk)|exact Hct].
  - cbn [Nat.eqb negb]. replace (0 <? N.of_nat (S j)) with true by (symmetry; apply N.ltb_lt; lia).
    change (assert true) with (Ok tt). rsimpl.
    destruct (ask_first_packs_ok pack_size joff neighbors respond models reply Hnet Hnbs hist qid Hq (S j) st2)
      as (st3 & b & Hask & Ho3 & Hres); [lia|rewrite Hj2; cbn [input_belief_states]; by rewrite length_insert|done|done|
      intros i Hi; rewrite Hjd2; by apply jd0_free|].
    rewrite Hask. rsimpl. destruct b.
    + destruct Hres as (_ & Hjd3 & Hin3 & Hjn3). change (assert true) with (Ok tt). rsimpl.
      eexists. split; [reflexivity|]. cbn [jn jd outstanding join_in with_jn]. rewrite Hjn3, Hj2, Hjd3, Hjd2, Ho3, Hin3. split; [|done].
      unfold set_count, set_inputs. cbn [input_belief_states joined_results next_neighbor asking_next pack_count].
      rewrite Hct, Hpk. do 2 f_equal. apply list_fmap_ext. intros k i _. apply first_pack.
    + exfalso. destruct Hres as [(i & Hi & He) _]. rewrite (proj2 (first_pack i)) in He.
      destruct (lookup_lt_is_Some_2 v i) as [e Hei]; [rewrite (range_length v Hv); lia|].
      destruct (range_lookup v i e Hv Hei) as (ms & Hms & Hlt).
      apply (pack_empty i ms 0 Hms) in He. lia.
Qed.

(** The next combination of packs is found and joined. *)
Lemma scan_found j v inp st qid d ms :
  valid_qid qid -> scanning j v inp st -> v !! j = Some d -> models !! j = Some ms -> d + 1 < no_packs ms ->
  let v' := replicate j 0 ++ (d + 1) :: drop (S j) v in
  in_range nps v' ->
  let rs := joins_of nb sb (packs v') in
  exists st', at_packs v' (answers qid rs) st' /\
    forall fuel, next_join_loop pack_size joff neighbors o respond (S fuel) hist qid st =
      if negb (bool_decide (rs = [])) then pop_result st'
      else next_join_loop pack_size joff neighbors o respond fuel hist qid st'.
Proof.
  intros Hq Hsc Hd Hms Hlt v' Hv' rs. pose proof Hsc as [Hv Hb Hfull Hj Hl Hinp Hjd Hout Hin].
  pose proof (lookup_lt_Some _ _ _ Hd) as Hjm. rewrite (range_length v Hv) in Hjm.
  destruct (pack_numbers ms d) as (N1 & N2 & N3); [by eapply list_elem_of_lookup_2|lia|].
  set (st1 := with_jn st (set_count (jn st) (<[j := d + 1]> (pack_count (jn st))))).
  destruct (ask_neighbor_and_receive_ok joff neighbors respond models reply Hnet Hnbs hist qid Hq j
    ((d + 1) * pack_size + 1) ((d + 1 + 1) * pack_size) st1) as (ans & Hask).
  { done. } { cbn. by rewrite Hj. } { done. } { done. } { cbn. rewrite Hjd. by apply jd0_free. }
  fold (pack j (d + 1)) in Hask.
  assert (pack j (d + 1) <> []) as Hne by (rewrite (pack_empty j ms (d + 1) Hms); lia).
  rewrite bool_decide_eq_false_2 in Hask by done. cbn [negb] in Hask.
  set (st2 := mk_js _ _ _ _ _) in Hask.
  destruct (reload_ok j v inp st st2 qid d Hq Hsc Hd) as (st3 & Hre & Hj3 & Hjd3 & Ho3 & Hi3).
  { unfold nps. by rewrite list_lookup_fmap, Hms. } { cbn. by rewrite Hj. } { done. } { done. } { done. }
  fold v' in Hj3.
  assert (E := do_join_ok nb sb Hnb Hsb Hmax qid (packs v') (packs_some v' Hv') (packs_wf v' Hv') (jn st3)
    ltac:(by rewrite Hj3) (packs_nonempty v' Hv')).
  fold rs in E. eexists. split; [|intros fuel; cbn [next_join_loop]].
  2: { replace (next_neighbor (jn st)) with (N.of_nat j) by (by rewrite Hj). unfold no_neighbors.
       destruct (N.eqb_spec (N.of_nat j) (N.of_nat m)); [lia|].
       rewrite (scanning_count j v inp st d Hsc Hd). rsimpl. rewrite N1, N2, N3, Nat2N.id.
       fold st1. rewrite Hask. rsimpl. cbn match.
       setoid_rewrite Hre. rsimpl. rewrite E. rsimpl. reflexivity. }
  split; cbn; try done. by rewrite Hj3.
Qed.

(** One round of the loop: a step of the counter. *)
Lemma scan_ok k : forall j v inp st qid,
  (j + k = m)%nat -> valid_qid qid -> scanning j v inp st ->
  exists turns, (turns <= k + 1)%nat /\
    match csucc nps v with
    | None => exists st', joiner_ready st' /\ forall fuel, loop (turns + fuel) hist qid st = Ok (st', (None, qid))
    | Some v' =>
        let rs := joins_of nb sb (packs v') in
        exists st', at_packs v' (answers qid rs) st' /\
          forall fuel, loop (turns + fuel) hist qid st =
            if negb (bool_decide (rs = [])) then pop_result st' else loop fuel hist qid st'
    end.
Proof.
  induction k as [|k IH]; intros j v inp st qid Hjk Hq Hsc.
  - assert (j = m) as -> by lia. exists 1%nat. split; [lia|].
    pose proof Hsc as [Hv _ Hfull Hj Hl _ Hjd Hout Hin].
    rewrite (csucc_carry m nps v);
      [|by rewrite length_nps, (range_length v Hv)| |by rewrite length_nps].
    2: { intros i p d Hi Hp Hd. unfold nps in Hp. rewrite list_lookup_fmap in Hp.
         destruct (models !! i) as [ms|] eqn:E; [|done]. injection Hp as <-. by eapply Hfull. }
    rewrite drop_ge by (rewrite length_nps; lia). cbn [csucc fmap option_fmap option_map].
    eexists. split; [|intros fuel; cbn [Nat.add next_join_loop]; unfold no_neighbors at 1;
      rewrite Hj at 1; cbn [next_neighbor]; rewrite N.eqb_refl, reset_ok by (by rewrite Hj); reflexivity].
    split; [by cbn; rewrite length_replicate| |done]. cbn. rewrite Hj. cbn [pack_count].
    rewrite length_replicate, length_app, length_take, length_drop, length_nps, (range_length v Hv). lia.
  - assert (Hjm : (j < m)%nat) by lia. pose proof (sc_range _ _ _ _ Hsc) as Hv.
    destruct (lookup_lt_is_Some_2 v j) as [d Hd]; [by rewrite (range_length v Hv)|].
    destruct (range_lookup v j d Hv Hd) as (ms & Hms & _).
    pose proof (csucc_at j v inp st d ms Hsc Hd Hms) as Hc.
    destruct (N.ltb_spec (d + 1) (no_packs ms)) as [Hlt|Hge].
    + cbn [fmap option_fmap option_map] in Hc. rewrite Hc.
      destruct (csucc_some nps v _ Hv Hc) as [Hv' _].
      destruct (scan_found j v inp st qid d ms Hq Hsc Hd Hms Hlt Hv') as (st' & Hap & Hrun).
      exists 1%nat. split; [lia|]. by exists st'.
    + destruct (scan_skip j v inp st qid d ms Hq Hsc Hd Hms Hge) as (inp' & st1 & Hsc' & Hrun).
      destruct (IH (S j) v inp' st1 qid ltac:(lia) Hq Hsc') as (turns & Ht & H).
      exists (S turns). split; [lia|]. destruct (csucc nps v) as [v'|];
        destruct H as (st' & Hst' & Hrun'); exists st'; (split; [done|]);
        intros fuel; cbn [Nat.add]; by rewrite Hrun.
Qed.

(** The inputs still to come after the packs [v]. *)
Definition stream_after (v : list N) : list NewBeliefState :=
  counters_after nps v ≫= (fun u => joins_of nb sb (packs u)).

Lemma elem_of_joins_packs v r : in_range nps v -> r ∈ joins_of nb sb (packs v) <-> joined_from nb sb (packs v) r.
Proof. intros Hv. apply elem_of_joins_of; auto using packs_wf, packs_nonempty. Qed.

Lemma elem_of_stream_after v r :
  in_range nps v ->
  r ∈ stream_after v <-> exists u, in_range nps u /\ cval nps v < cval nps u /\ joined_from nb sb (packs u) r.
Proof.
  intros Hv. unfold stream_after. rewrite list_elem_of_bind. split.
  - intros (u & Hr & Hu). apply (elem_of_counters_after nps v Hv) in Hu as [Hu Hlt].
    exists u. split; [done|]. split; [done|]. by apply elem_of_joins_packs.
  - intros (u & Hu & Hlt & Hr). exists u. split; [by apply elem_of_joins_packs|].
    by apply (elem_of_counters_after nps v Hv).
Qed.

(** One call when nothing that has been joined is left. *)
Lemma next_join_loop_ok v :
  in_range nps v -> forall st qid fuel, at_packs v [] st -> valid_qid qid ->
  N.of_nat (S m) * (capacity nps - cval nps v) <= N.of_nat fuel ->
  match stream_after v with
  | [] => exists st', loop fuel hist qid st = Ok (st', (None, qid)) /\ joiner_ready st'
  | r :: l => exists st' u rs, loop fuel hist qid st = Ok (st', (Some r, qid)) /\
      at_packs u (answers qid rs) st' /\ l = rs ++ stream_after u /\ cval nps v < cval nps u
  end.
Proof.
  revert v. apply (counter_ind nps (fun v => forall st qid fuel, at_packs v [] st -> valid_qid qid ->
    N.of_nat (S m) * (capacity nps - cval nps v) <= N.of_nat fuel -> _)).
  - intros v Hv Hlast st qid fuel Hap Hq Hf. unfold stream_after. rewrite counters_after_last by done. cbn.
    destruct (scan_ok m 0 v (packs v) st qid eq_refl Hq (at_packs_scanning v st Hap)) as (turns & Ht & H).
    rewrite Hlast in H. destruct H as (st' & Hready & Hrun). exists st'.
    pose proof (csucc_none nps v Hv Hlast) as Hc.
    replace fuel with (turns + (fuel - turns))%nat by nia. split; [apply Hrun|done].
  - intros v v' Hv Hs IH st qid fuel Hap Hq Hf.
    destruct (scan_ok m 0 v (packs v) st qid eq_refl Hq (at_packs_scanning v st Hap)) as (turns & Ht & H).
    rewrite Hs in H. destruct H as (st' & Hap' & Hrun).
    destruct (csucc_some nps v v' Hv Hs) as [Hv' Hc]. pose proof (cval_lt nps v' Hv').
    assert (Hfuel : fuel = (turns + (fuel - turns))%nat) by nia.
    unfold stream_after. rewrite (counters_after_step nps v v' Hv Hs), bind_cons. fold (stream_after v').
    destruct (joins_of nb sb (packs v')) as [|r rs] eqn:Ers.
    + specialize (IH st' qid (fuel - turns)%nat Hap' Hq ltac:(nia)).
      rewrite Hfuel, Hrun, bool_decide_eq_true_2 by done. cbn [negb app].
      destruct (stream_after v') as [|r l]; [done|].
      destruct IH as (st2 & u & rs & E & Hap2 & Hl & Hlt). exists st2, u, rs.
      split; [done|]. split; [done|]. split; [done|lia].
    + exists (with_jn st' (set_joined (jn st') (answers qid rs))), v', rs.
      split; [|split; [|split; [done|lia]]].
      * rewrite Hfuel, Hrun, bool_decide_eq_false_2 by done. cbn [negb].
        unfold pop_result. by rewrite (ap_jn _ _ _ Hap').
      * destruct Hap' as [? Hj ? ? ?]. split; cbn; try done. by rewrite Hj.
Qed.

Lemma at_packs_ready v rs st : at_packs v rs st -> joiner_ready st.
Proof.
  intros [Hv Hj ? ? ?]. split; rewrite ?Hj; cbn; [unfold packs; rewrite length_imap| |done];
    by apply range_length.
Qed.

(** All further calls. *)
Lemma next_delivers k : forall v rs st qid0 qids fuel,
  capacity nps <= cval nps v + N.of_nat k -> at_packs v (answers qid0 rs) st ->
  (forall i, (i <= length (rs ++ stream_after v))%nat -> valid_qid (qids i)) ->
  N.of_nat (S m) * capacity nps <= N.of_nat fuel ->
  delivers fuel qids st (rs ++ stream_after v).
Proof.
  induction k as [|k IH]; intros v rs st qid0 qids fuel Hk Hap Hqs Hf;
    [pose proof (cval_lt nps v (ap_range _ _ _ Hap)); lia|].
  revert st qids Hap Hqs. induction rs as [|x rs IHrs]; intros st qids Hap Hqs.
  - pose proof Hap as [Hv Hj _ _ _].
    pose proof (next_join_loop_ok v Hv st (qids 0%nat) fuel Hap (Hqs 0%nat ltac:(lia)) ltac:(nia)) as H.
    assert (Hn : next_join pack_size joff neighbors o respond fuel hist (qids 0%nat) st =
                 loop fuel hist (qids 0%nat) st).
    { unfold next_join. rewrite Hj. cbn [joined_results answers fmap list_fmap].
      by destruct (N.eqb_spec pack_size 0); [lia|]. }
    cbn [app] in Hqs |- *. destruct (stream_after v) as [|r l].
    + destruct H as (st' & E & Hr). eapply del_end; [by rewrite Hn, E|done].
    + destruct H as (st' & u & rs & E & Hap' & -> & Hlt).
      eapply del_more; [by rewrite Hn, E|by eapply at_packs_ready|].
      eapply IH; [lia|done| |done]. intros i Hi. apply Hqs. cbn. lia.
  - pose proof Hap as [Hv Hj ? ? ?].
    eapply (del_more _ _ _ (with_jn st (set_joined (jn st) (answers qid0 rs))) x qid0).
    + unfold next_join, pop_result. by rewrite Hj.
    + split; cbn; rewrite ?Hj; cbn; [|by apply range_length|done].
      unfold packs. by rewrite length_imap, (range_length v Hv).
    + apply IHrs; [|intros i Hi; apply Hqs; cbn; lia]. split; cbn; try done. by rewrite Hj.
Qed.

End positive.
(** ** The first call *)

Local Abbreviation K1 := (if 0 <? pack_size then 1 else 0).
Local Abbreviation K2 := (if 0 <? pack_size then pack_size else 0).
Local Abbreviation first_packs := ((fun i => reply i K1 K2) <$> seq 0 m).

(** Either a neighbor has no model at all, or the first call goes on like a
    further call from the first packs. *)
Lemma first_join_ok st qid fuel :
  joiner_ready st -> valid_qid qid ->
  ((exists i, (i < m)%nat /\ reply i K1 K2 = []) /\
   exists st', first_join pack_size joff neighbors o respond fuel hist qid st = Ok (st', (None, qid))) \/
  ((forall i, (i < m)%nat -> reply i K1 K2 <> []) /\
   exists st1, quiet st1 /\ jn st1 = mk_joiner first_packs [] 0 false (replicate m 0) /\
     forall rs, do_join o qid (jn st1) =
        Ok (set_joined (jn st1) (answers qid rs), negb (bool_decide (rs = []))) ->
      first_join pack_size joff neighbors o respond fuel hist qid st =
      next_join pack_size joff neighbors o respond fuel hist qid
        (with_jn st1 (set_joined (jn st1) (answers qid rs)))).
Proof.
  intros [Hl Hc (Hjd & Hout & Hin)] Hq. pose proof (nbs_some _ _ Hnbs). pose proof (nbs_few _ _ Hnbs).
  unfold first_join. rewrite reset_ok by done. rsimpl. rewrite Hc.
  set (st0 := with_jn st _).
  assert (u64_sub (no_neighbors neighbors) 1 = N.of_nat m - 1) as ->
    by (unfold no_neighbors; apply u64_sub_small; lia).
  destruct (ask_first_packs_ok pack_size joff neighbors respond models reply Hnet Hnbs hist qid Hq m st0)
    as (st1 & b & -> & Ho1 & Hres); [lia|cbn; by rewrite length_replicate|done|done|
    intros i Hi; cbn; rewrite Hjd; by apply jd0_free|].
  rsimpl. destruct b.
  - right. destruct Hres as (Hne & Hjd1 & Hin1 & Hj1). split; [done|]. exists st1.
    cbn [jn st0 with_jn input_belief_states] in Hj1.
    rewrite (drop_ge (replicate m [])), app_nil_r in Hj1 by (by rewrite length_replicate).
    split; [split; [by rewrite Hjd1|done]|]. split; [done|].
    intros rs ->. rsimpl. destruct rs as [|r rs]; cbn match.
    + rewrite bool_decide_eq_true_2 by done. cbn [negb]. unfold next_join.
      rewrite Hj1. cbn. destruct (N.ltb_spec 0 pack_size), (N.eqb_spec pack_size 0); try lia; try done.
    + rewrite bool_decide_eq_false_2 by done. cbn [negb]. unfold next_join, pop_result. rewrite Hj1. done.
  - left. destruct Hres as [He (inp & Hli & Hj1)]. split; [done|]. eexists.
    rewrite reset_ok by (by rewrite Hj1). reflexivity.
Qed.

Lemma reply_all i ms : pack_size = 0 -> models !! i = Some ms -> forall x, x ∈ reply i K1 K2 <-> x ∈ ms.
Proof.
  intros Hz Hi x. destruct (N.ltb_spec 0 pack_size); [lia|].
  by rewrite (net_reply i ms 0 0 x Hi (or_introl (conj eq_refl eq_refl))).
Qed.

(** A neighbor without models leaves nothing to join. *)
Lemma first_pack_empty i : (i < m)%nat -> reply i K1 K2 = [] -> models !! i = Some [].
Proof.
  intros Hi He. rewrite <- Hlen in Hi. destruct (lookup_lt_is_Some_2 models i Hi) as [ms Hms].
  rewrite Hms. f_equal. destruct ms as [|x ms]; [done|]. exfalso.
  destruct (N.eq_dec pack_size 0) as [Hz|Hz].
  - assert (x ∈ x :: ms) as Hx by left. apply (reply_all i (x :: ms) Hz Hms) in Hx.
    rewrite He in Hx. by apply not_elem_of_nil in Hx.
  - rewrite (proj2 (first_pack ltac:(lia) i)) in He. apply (pack_empty ltac:(lia) i (x :: ms) 0 Hms) in He.
    unfold no_packs in He. cbn [length] in He.
    pose proof (N.div_le_lower_bound (N.of_nat (S (length ms)) + pack_size - 1) pack_size 1 Hz). lia.
Qed.

Lemma no_models_no_join i : (i < m)%nat -> reply i K1 K2 = [] -> forall r, ~ joined_from nb sb models r.
Proof.
  intros Hi He r (row & Hrow & _). pose proof (first_pack_empty i Hi He) as Hms.
  destruct (Forall2_lookup_r _ _ _ _ _ Hrow Hms) as (x & _ & Hx). by apply not_elem_of_nil in Hx.
Qed.

Lemma first_packs_wf : Forall (Forall (bs_wf (nb * (sb + 1)))) first_packs.
Proof.
  apply Forall_fmap, Forall_seq. intros i [_ Hi]. cbn in Hi |- *. rewrite <- Hlen in Hi.
  destruct (lookup_lt_is_Some_2 models i Hi) as [ms Hms]. pose proof (Forall_lookup_1 _ _ _ _ Hwf Hms) as Hw.
  apply Forall_forall. intros x Hx. rewrite Forall_forall in Hw. apply Hw.
  destruct (N.eq_dec pack_size 0) as [Hz|Hz]; [by apply (reply_all i ms Hz Hms)|].
  rewrite (proj2 (first_pack ltac:(lia) i)) in Hx.
  apply (elem_of_pack ltac:(lia) i ms 0 x Hms) in Hx as (k & Hk & _). by eapply list_elem_of_lookup_2.
Qed.

(** Popping what has been joined, when there is nothing further to ask. *)
Lemma pop_delivers rs : pack_size = 0 -> forall st qid0 qids fuel,
  joined_results (jn st) = answers qid0 rs -> joiner_ready st -> delivers fuel qids st rs.
Proof.
  intros Hz. induction rs as [|x rs IH]; intros st qid0 qids fuel Hj Hr.
  - eapply (del_end _ _ _ st); [|done]. unfold next_join. rewrite Hj, Hz. done.
  - eapply (del_more _ _ _ (with_jn st (set_joined (jn st) (answers qid0 rs))) x qid0);
      [unfold next_join, pop_result; by rewrite Hj|by destruct Hr|].
    eapply IH; [done|by destruct Hr].
Qed.

Lemma joined_from_ext (I J : list (list NewBeliefState)) r :
  Forall2 (fun a b => forall x, x ∈ a <-> x ∈ b) I J -> joined_from nb sb I r <-> joined_from nb sb J r.
Proof.
  intros HIJ. unfold joined_from. f_equiv. intros row. f_equiv.
  revert row. induction HIJ as [|a b I J Hab _ IH]; intros row; [done|].
  split; intros H; inversion H; subst; constructor; try (by apply Hab); by apply IH.
Qed.

Lemma first_packs_zeros : 0 < pack_size -> first_packs = packs (replicate m 0).
Proof.
  intros Hps. apply list_eq. intros i. unfold packs. rewrite list_lookup_imap, list_lookup_fmap.
  destruct (decide (i < m)%nat) as [Hi|Hi].
  - rewrite lookup_seq_lt, lookup_replicate_2 by done. cbn. f_equal. exact (proj2 (first_pack Hps i)).
  - rewrite !lookup_ge_None_2; [done|rewrite length_replicate; lia|rewrite length_seq; lia].
Qed.

Lemma joined_from_first r : pack_size = 0 -> joined_from nb sb first_packs r <-> joined_from nb sb models r.
Proof.
  intros Hz. apply joined_from_ext, Forall2_same_length_lookup. split.
  { rewrite length_fmap, length_seq. lia. }
  intros i a ms Ha Hms. rewrite list_lookup_fmap in Ha. destruct (seq 0 m !! i) as [k|] eqn:Es; [|done].
  apply lookup_seq in Es as [-> _]. injection Ha as <-. by apply reply_all.
Qed.

(** The inputs of a request, in the order of their delivery. *)
Definition joined_stream : list NewBeliefState :=
  if bool_decide (Forall (fun bsv => bsv <> []) first_packs)
  then joins_of nb sb first_packs ++ (if decide (0 < pack_size) then stream_after (zeros nps) else [])
  else [].

Lemma first_packs_dec :
  (exists i, (i < m)%nat /\ reply i K1 K2 = []) \/ Forall (fun bsv => bsv <> []) first_packs.
Proof.
  destruct (decide (Forall (fun bsv => bsv <> []) first_packs)) as [H|H]; [by right|]. left.
  apply not_Forall_Exists in H; [|apply _]. apply Exists_exists in H as (l & Hl & He).
  apply list_elem_of_fmap in Hl as (i & -> & Hi%elem_of_seq). exists i. split; [lia|]. by apply dec_stable.
Qed.

Lemma zeros_in_range : 0 < pack_size -> Forall (fun bsv => bsv <> []) first_packs -> in_range nps (zeros nps).
Proof.
  intros Hps Hne. apply zeros_range, Forall_fmap, Forall_lookup. intros i ms Hms.
  pose proof (lookup_lt_Some _ _ _ Hms) as Hi. rewrite Hlen in Hi.
  rewrite Forall_fmap, Forall_seq in Hne. specialize (Hne i ltac:(lia)). cbn in Hne.
  rewrite (proj2 (first_pack Hps i)), (pack_empty Hps i ms 0 Hms) in Hne. cbn. lia.
Qed.

(** The inputs are exactly the joins of the models of the neighbors. *)
Lemma elem_of_joined_stream r : r ∈ joined_stream <-> joined_from nb sb models r.
Proof.
  unfold joined_stream. destruct first_packs_dec as [(i & Hi & He)|Hne].
  { rewrite bool_decide_eq_false_2, elem_of_nil.
    - split; [done|]. intros Hr. by apply (no_models_no_join i Hi He) in Hr.
    - rewrite Forall_fmap, Forall_seq. intros Hall. by apply (Hall i ltac:(lia)). }
  rewrite bool_decide_eq_true_2, elem_of_app, elem_of_joins_of by auto using first_packs_wf.
  destruct (decide (0 < pack_size)) as [Hps|Hz].
  - rewrite (first_packs_zeros Hps), (joined_from_packs Hps).
    pose proof (zeros_in_range Hps Hne) as Hz. rewrite (elem_of_stream_after Hps _ _ Hz), cval_zeros.
    assert (replicate m 0 = zeros nps) as -> by (unfold zeros; by rewrite length_nps). split.
    + intros [Hr|(u & Hu & _ & Hr)]; [by exists (zeros nps)|by exists u].
    + intros (u & Hu & Hr). destruct (decide (u = zeros nps)) as [->|Hn]; [by left|].
      right. exists u. split; [done|]. split; [|done].
      destruct (N.eq_dec (cval nps u) 0) as [E0|]; [|lia]. exfalso. apply Hn.
      apply (cval_inj nps); [done|done|by rewrite cval_zeros].
  - rewrite elem_of_nil, <- (joined_from_first r ltac:(lia)). tauto.
Qed.

(** The first call, seen as a further call from a state that has the first
    packs. *)
Lemma first_delivers st qids fuel :
  joiner_ready st -> (forall i, (i <= length joined_stream)%nat -> valid_qid (qids i)) ->
  N.of_nat (S m) * capacity nps <= N.of_nat fuel ->
  (joined_stream = [] /\ (exists i, (i < m)%nat /\ models !! i = Some []) /\
   exists st', first_join pack_size joff neighbors o respond fuel hist (qids 0%nat) st = Ok (st', (None, qids 0%nat))) \/
  exists st2, delivers fuel qids st2 joined_stream /\
    first_join pack_size joff neighbors o respond fuel hist (qids 0%nat) st =
    next_join pack_size joff neighbors o respond fuel hist (qids 0%nat) st2.
Proof.
  intros Hr Hqs Hf. pose proof (nbs_some _ _ Hnbs).
  destruct (first_join_ok st (qids 0%nat) fuel Hr (Hqs 0%nat ltac:(lia)))
    as [[(i & Hi & He) (st' & E)]|[Hne (st1 & Hquiet & Hj & Hnext)]].
  - left. split; [|split; [|by exists st']].
    + unfold joined_stream. rewrite bool_decide_eq_false_2; [done|]. rewrite Forall_fmap, Forall_seq.
      intros Hall. by apply (Hall i ltac:(lia)).
    + exists i. split; [done|]. by apply first_pack_empty.
  - right. assert (Hfp : Forall (fun bsv => bsv <> []) first_packs)
      by (apply Forall_fmap, Forall_seq; intros i [_ Hi]; by apply Hne).
    assert (Hsome : first_packs <> []).
    { intros H0. apply (f_equal length) in H0. rewrite length_fmap, length_seq in H0. cbn in H0. lia. }
    assert (E := do_join_ok nb sb Hnb Hsb Hmax (qids 0%nat) first_packs Hsome first_packs_wf (jn st1)
      ltac:(by rewrite Hj) Hfp).
    replace (joined_results (jn st1)) with (@nil rvalue) in E by (by rewrite Hj).
    cbn [app] in E. specialize (Hnext _ E). eexists. split; [|exact Hnext].
    unfold joined_stream in Hqs |- *. rewrite bool_decide_eq_true_2 in Hqs |- * by done.
    destruct (decide (0 < pack_size)) as [Hps|Hz].
    + rewrite (first_packs_zeros Hps) in Hj, Hqs |- *.
      assert (Hz0 : replicate m 0 = zeros nps) by (unfold zeros; by rewrite length_nps). rewrite Hz0 in *.
      eapply (next_delivers Hps (N.to_nat (capacity nps))); [lia| |done|done].
      destruct Hquiet as (? & ? & ?). split; cbn; try done; [by apply zeros_in_range|by rewrite Hj].
    + rewrite app_nil_r. eapply pop_delivers; [lia|done|].
      split; cbn; rewrite ?Hj; cbn; [by rewrite length_fmap, length_seq|by rewrite length_replicate|done].
Qed.

Lemma delivers_rest fuel qids st l :
  delivers fuel qids st l -> forall calls, (length l < calls)%nat ->
  exists st', join_rest pack_size joff neighbors o respond calls fuel hist qids st = Ok (st', l) /\ joiner_ready st'.
Proof.
  induction 1 as [qids st st' q E Hr|qids st st' x q l E Hr _ IH]; intros calls Hc;
    (destruct calls as [|calls]; [cbn in Hc; lia|]); cbn [join_rest]; rewrite E; rsimpl; cbn [fst].
  - by exists st'.
  - destruct (IH calls) as (st2 & -> & Hr2); [cbn in Hc; lia|]. by exists st2.
Qed.

Lemma join_inputs_rest calls fuel qids st st2 :
  first_join pack_size joff neighbors o respond fuel hist (qids 0%nat) st =
    next_join pack_size joff neighbors o respond fuel hist (qids 0%nat) st2 ->
  join_inputs pack_size joff neighbors o respond calls fuel hist qids st =
  join_rest pack_size joff neighbors o respond (S calls) fuel hist qids st2.
Proof. intros E. unfold join_inputs. rewrite E. reflexivity. Qed.

(** C3.  The streaming joiner is complete and sound.  Let every neighbor answer
    each request for a range with its models of that range and an end marker
    ([Network]; a neighbor's answer may drop duplicates and be in any order,
    and answers of different neighbors may be interleaved), and let the joiner
    start with nothing of its own in the queue or the dispatcher's table.
    Whatever pack size it works with, the sequence of [first_join] and [next_join] calls ends with null after
    delivering exactly the joins of all combinations of one model of each
    neighbor, in an order that depends only on the packs the neighbors send
    ([joined_stream]).  If, moreover, every neighbor has a model, nothing is left
    behind in [JOIN_IN_MQ] or in the table of the joiner dispatcher, and the
    joiner is ready for the next request; without that condition messages can
    stay behind, and the next request aborts
    ([stale_answer_aborts_next_request]). *)
Theorem joiner_delivers_all_joins st qids fuel calls :
  joiner_ready st -> (forall k, valid_qid (qids k)) ->
  N.of_nat (S m) * capacity nps <= N.of_nat fuel -> (length joined_stream <= calls)%nat ->
  (forall r, r ∈ joined_stream <-> joined_from nb sb models r) /\
  exists st', join_inputs pack_size joff neighbors o respond calls fuel hist qids st = Ok (st', joined_stream) /\
    (Forall (fun ms => ms <> []) models -> joiner_ready st').
Proof.
  intros Hr Hqs Hf Hc. split; [exact elem_of_joined_stream|].
  destruct (first_delivers st qids fuel Hr ltac:(intros; apply Hqs) Hf)
    as [(-> & (i & Hi & He) & (st' & E))|(st2 & Hdel & E)].
  - exists st'. unfold join_inputs. rewrite E. split; [done|].
    intros Hall. by pose proof (Forall_lookup_1 _ _ _ _ Hall He).
  - destruct (delivers_rest fuel qids st2 joined_stream Hdel (S calls)) as (st' & E' & Hr'); [lia|].
    exists st'. rewrite (join_inputs_rest calls fuel qids st st2 E). done.
Qed.

End stream.

(** ** Concrete networks *)

(** Neighbors with ids 1, 2, ... and offsets 0, 1, ..., which answer one after
    the other. *)
Definition nbs (k : nat) : list NewNeighbor :=
  (fun i => mk_neighbor (N.of_nat (S i)) (N.of_nat i) "localhost" "5000") <$> seq 0 k.

Definition exact_reply (models : list (list NewBeliefState)) (i : nat) (k1 k2 : N) : list NewBeliefState :=
  slice k1 k2 (default [] (models !! i)).

Definition in_turn (models : list (list NewBeliefState)) (log reqs : list request) : list rvalue :=
  concat ((fun e => answer (exact_reply models) (N.to_nat e.1) e.2) <$> reqs).

Lemma interleaving_concat {A} (ls : list (list A)) : forall pre,
  Forall (fun l => l = []) pre -> interleaving (pre ++ ls) (concat ls).
Proof.
  induction ls as [|l ls IH]; intros pre Hpre.
  - apply il_nil. by rewrite app_nil_r.
  - cbn. induction l as [|x l IHl]; cbn.
    + rewrite (cons_middle [] pre ls), app_assoc. apply IH. apply Forall_app. by split; [|apply Forall_singleton].
    + eapply (il_cons _ (length pre) x l); [by apply list_lookup_middle|].
      rewrite insert_app_r_alt, Nat.sub_diag by done. exact IHl.
Qed.

Lemma nbs_lookup k i : (i < k)%nat -> nbs k !! i = Some (mk_neighbor (N.of_nat (S i)) (N.of_nat i) "localhost" "5000").
Proof. intros Hi. unfold nbs. by rewrite list_lookup_fmap, lookup_seq_lt. Qed.

Lemma length_nbs k : length (nbs k) = k.
Proof. unfold nbs. by rewrite length_fmap, length_seq. Qed.

#[export] Instance in_turn_network k models : Network (nbs k) (in_turn models) models (exact_reply models).
Proof.
  split.
  - intros i ms k1 k2 x Hi _. unfold exact_reply. by rewrite Hi.
  - intros log reqs Hreqs. unfold in_turn.
    replace ((fun e => answer (exact_reply models) (N.to_nat e.1) e.2) <$>
             ((fun e => (off (nbs k) e.1, e.2)) <$> reqs))
      with ((fun e => answer (exact_reply models) e.1 e.2) <$> reqs);
      [by apply (interleaving_concat _ [])|].
    rewrite <- list_fmap_compose. apply list_fmap_ext. intros i [j f] He. cbn.
    pose proof (Forall_lookup_1 _ _ _ _ Hreqs He) as Hj. cbn in Hj. rewrite length_nbs in Hj.
    unfold off. rewrite nbs_lookup by done. cbn. by rewrite Nat2N.id.
Qed.

Lemma nbs_wf k joff : (0 < k < 64)%nat -> joff < 2 ^ 6 -> neighbors_wf joff (nbs k).
Proof.
  intros Hk Hj. split; rewrite ?length_nbs; try lia.
  - unfold nbs. rewrite <- list_fmap_compose. apply NoDup_fmap_2; [|apply NoDup_seq].
    intros i j E. cbn in E. lia.
  - apply Forall_fmap, Forall_seq. intros i Hi. cbn. lia.
Qed.

Definition ask_ids (k : nat) : N := QueryID.query_id2 0 (N.of_nat k).
Definition start_state (k : nat) : jstate := mk_js (joiner_new (nbs k)) ∅ [] [] [].

(** Two neighbors, the first with two models, asked for one model at a time. *)
Lemma joiner_delivers_all_joins_witness :
  let ms := [[left2; right2]; [right2]] in
  let stream := joined_stream 2 2 1 (nbs 2) ms (exact_reply ms) in
  (forall r, r ∈ stream <-> joined_from 2 2 ms r) /\
  exists st', join_inputs 1 3 (nbs 2) (layout 2 2) (in_turn ms) 10 10 ∅ (fun _ => ask_ids 7) (start_state 2) =
      Ok (st', stream) /\
    (Forall (fun ms => ms <> []) ms -> joiner_ready (nbs 2) ∅ st').
Proof.
  assert (Hwf : Forall (Forall (bs_wf (2 * (2 + 1)))) [[left2; right2]; [right2]]).
  { repeat (first [apply Forall_cons; split | apply Forall_nil; exact I]); by apply small_wf. }
  apply (joiner_delivers_all_joins 2 2 ltac:(done) ltac:(done) ltac:(done) 1 3 (nbs 2)
    (in_turn [[left2; right2]; [right2]]) [[left2; right2]; [right2]] (exact_reply [[left2; right2]; [right2]])
    _ (nbs_wf 2 3 ltac:(lia) ltac:(done)) eq_refl Hwf).
  - repeat (first [apply Forall_cons; split; [done|] | apply Forall_nil; exact I]).
  - intros id x H. by rewrite lookup_empty in H.
  - split; [done|done|]. by repeat split.
  - intros _. exists 0, 7. done.
  - vm_compute. discriminate.
  - vm_compute. lia.
Defined.

(** A neighbor without models makes the joiner give up at once, but the
    answers of the other neighbors still arrive: after such a request
    [JOIN_IN_MQ] holds the answer of the second neighbor, and the next
    request reads it, finds that it does not belong to its own query, and
    fails the assertion in [ask_first_packs]. *)
Theorem stale_answer_aborts_next_request :
  let respond := in_turn [[]; [right2]] in
  exists st1,
    join_inputs 1 3 (nbs 2) (layout 2 2) respond 10 10 ∅ ask_ids (start_state 2) = Ok (st1, []) /\
    join_in st1 = [(Some right2, fq 3 (nbs 2) (ask_ids 0) 1); (None, fq 3 (nbs 2) (ask_ids 0) 1)] /\
    join_inputs 1 3 (nbs 2) (layout 2 2) respond 10 10 ∅ (fun k => ask_ids (k + 1)) st1 = Err AssertFailed.
Proof. cbv zeta. eexists. split; [vm_compute; reflexivity|]. split; vm_compute; reflexivity. Qed.

(** The comment in [ask_first_packs] expects up to 64 neighbors, but
    with exactly 64 the mask is computed by a shift of 64, whose behaviour is
    undefined; with 63 the first call succeeds. *)
Lemma sixty_four_neighbors_overflow :
  let run k := snd <$> first_join 1 3 (nbs k) (layout 2 2) (in_turn (replicate k [right2])) 1 ∅
                         (ask_ids 0) (start_state k) in
  run 63%nat = Ok (Some right2, ask_ids 0) /\ run 64%nat = Err ShiftTooFar.
Proof. cbv zeta. split; vm_compute; reflexivity. Qed.

End Joiner.
