(* ===== verification/ContextJoin.v ===== *)
(** * A context and its joiner

    [NormalContext::startup] and [NormalContext::process_request]
    (src/mcs/NormalContext.cpp): the request loop of a context, which pulls
    its inputs one by one out of its joiner and stops as soon as the requested
    models have been sent.  [Context] has what happens to one input; this file
    composes it with the joiners of [Joiner].

    The joiner is used through the virtual functions of [BaseJoiner], here the
    record [BaseJoiner]; the class [Feeds] says what a context relies on.
    [streaming_feeds] and [leaf_feeds] discharge it for the two joiners. *)

From S2P Require Import Prelude BitMagic BeliefState BeliefStateOffset Combination QueryID Ident.
From S2P Require Import Tables BridgeRules Guessing CachePosition Evaluator Context.
From S2P Require Import ReturnedBeliefs Dispatch Odometer Joiner.
Import BitMagic BeliefState BeliefStateOffset Combination Ident Tables BridgeRules Guessing
  CachePosition Evaluator Context Dispatch Odometer Joiner.

Module ContextJoin.

(** The virtual functions of a joiner with the state [J]. *)
Record BaseJoiner (J : Type) := mk_base_joiner {
  virtual_first_join : gset N -> N -> J -> res (J * rvalue);
  virtual_next_join : gset N -> N -> J -> res (J * rvalue);
}.
Arguments virtual_first_join {J}.
Arguments virtual_next_join {J}.

(** [StreamingJoiner], and [LeafJoiner], which has no state. *)
Definition streaming (pack_size joff : N) (neighbors : list NewNeighbor) (o : Offsets)
    (respond : list request -> list request -> list rvalue) (fuel : nat) : BaseJoiner jstate :=
  mk_base_joiner _ (first_join pack_size joff neighbors o respond fuel)
    (next_join pack_size joff neighbors o respond fuel).

Definition leaf (o : Offsets) : BaseJoiner unit :=
  mk_base_joiner _ (fun _ qid j => rbs ← leaf_first_join o qid; mret (j, rbs))
    (fun _ qid j => mret (j, leaf_next_join qid)).

(** ** The request loop *)

(** What changes while a context runs: the parts of [ctx_state], the joiner
    and the counter that numbers the context's own queries. *)
Record node (J : Type) := mk_node {
  node_ctx : ctx_state;
  node_joiner : J;
  query_counter : N;
}.
Arguments mk_node {J}.
Arguments node_ctx {J}.
Arguments node_joiner {J}.
Arguments query_counter {J}.

Section node.
Context {J : Type} (jn : BaseJoiner J) (solve : Heads -> evaluator -> res evaluator) (su : setup).
Context (ctx_id : N).

(** [query_id(ctx_id, ++query_counter)] and a call of the joiner. *)
Definition call_join (first : bool) (hist : gset N) (nd : node J) : res (node J * option NewBeliefState) :=
  let counter := u64_add (query_counter nd) 1 in
  let this_qid := QueryID.query_id2 ctx_id counter in
  '(j, rbs) ← (if first then virtual_first_join jn else virtual_next_join jn) hist this_qid (node_joiner nd);
  mret (mk_node (node_ctx nd) j counter, rbs.1).

(** The [while (input != NULL)] loop; [calls] bounds the number of inputs. *)
Fixpoint process_loop (calls : nat) (hist : gset N) (parent_qid k1 k2 : N) (nd : node J)
    (inp : option NewBeliefState) : res (node J) :=
  match inp with
  | None => mret nd
  | Some inp =>
      match calls with
      | O => Err OutOfFuel
      | S calls =>
          '(st, k1, k2, done) ← process_input solve su inp parent_qid k1 k2 (node_ctx nd);
          let nd := mk_node st (node_joiner nd) (query_counter nd) in
          if done : bool then mret nd
          else
            '(nd, inp) ← call_join false hist nd;
            process_loop calls hist parent_qid k1 k2 nd inp
      end
  end.

Definition process_request (calls : nat) (hist : gset N) (parent_qid k1 k2 : N) (nd : node J) : res (node J) :=
  _ ← assert (range_ok k1 k2);
  '(nd, inp) ← call_join true hist nd;
  process_loop calls hist parent_qid k1 k2 nd inp.

(** One turn of the [while (1)] loop of [startup]; [None] is the [break]. *)
Definition startup_turn (calls : nat) (fwd_mess : ForwardMessage) (nd : node J) : res (option (node J)) :=
  let parent_qid := fm_qid fwd_mess in
  if QueryID.is_shutdown parent_qid then mret None
  else
    _ ← assert (range_ok (fm_k1 fwd_mess) (fm_k2 fwd_mess));
    _ ← assert (bool_decide (ctx_id ∉ history fwd_mess));
    nd ← process_request calls ({[ctx_id]} ∪ history fwd_mess) parent_qid (fm_k1 fwd_mess) (fm_k2 fwd_mess) nd;
    let st := node_ctx nd in
    mret (Some (mk_node (mk_ctx (cache st) (eval st) (sent st ++ [(None, parent_qid)]))
      (node_joiner nd) (query_counter nd))).

(** The loop on the messages that arrive in [REQUEST_MQ], and whether it was
    left; the messages behind a shutdown stay in the queue. *)
Fixpoint startup_loop (calls : nat) (msgs : list ForwardMessage) (nd : node J) : res (node J * bool) :=
  match msgs with
  | [] => mret (nd, false)
  | msg :: msgs =>
      r ← startup_turn calls msg nd;
      match r with
      | Some nd => startup_loop calls msgs nd
      | None => mret (nd, true)
      end
  end.

(** ** What a context relies on *)

(** Calls of the joiner give the inputs one by one and then null; [after]
    holds of its state after every call. *)
Inductive feeds (after : J -> Prop) (hist : gset N) : bool -> (nat -> N) -> J -> list NewBeliefState -> Prop :=
  | feeds_end (first : bool) qids j j' q :
      (if first then virtual_first_join jn else virtual_next_join jn) hist (qids O) j = Ok (j', (None, q)) ->
      after j' -> feeds after hist first qids j []
  | feeds_more (first : bool) qids j j' x q l :
      (if first then virtual_first_join jn else virtual_next_join jn) hist (qids O) j = Ok (j', (Some x, q)) ->
      after j' -> feeds after hist false (fun k => qids (S k)) j' l -> feeds after hist first qids j (x :: l).

Class Feeds (ready after : J -> Prop) (stream : list NewBeliefState) : Prop :=
  feeds_stream : forall hist qids j, ready j ->
    (forall i, (i <= length stream)%nat -> valid_qid (qids i)) ->
    feeds after hist true qids j stream.

(** ** Pulling the inputs is going through the list of them *)

(** The identifiers a context makes for its calls. *)
Definition next_qid (counter : N) (k : nat) : N :=
  QueryID.query_id2 ctx_id (counter + 1 + N.of_nat k).

Lemma call_join_ok (first : bool) hist j st counter j' rbs :
  counter + 1 < W64 ->
  (if first then virtual_first_join jn else virtual_next_join jn) hist (next_qid counter 0) j = Ok (j', rbs) ->
  call_join first hist (mk_node st j counter) = Ok (mk_node st j' (counter + 1), rbs.1).
Proof.
  intros Hc E. unfold call_join. cbn [query_counter node_joiner node_ctx]. rewrite u64_add_small by done.
  unfold next_qid in E. rewrite N.add_0_r in E. by rewrite E.
Qed.

Lemma next_qid_succ counter k : next_qid (counter + 1) k = next_qid counter (S k).
Proof. unfold next_qid. f_equal. lia. Qed.

Lemma process_loop_feeds after hist first qids j l :
  feeds after hist first qids j l -> first = false -> after j ->
  forall calls parent_qid k1 k2 st counter inp st',
  (length l < calls)%nat -> counter + N.of_nat (length l) + 1 < W64 ->
  (forall i, qids i = next_qid counter i) ->
  Context.process_request solve su (inp :: l) parent_qid k1 k2 st = Ok st' ->
  exists j' counter',
    process_loop calls hist parent_qid k1 k2 (mk_node st j counter) (Some inp) = Ok (mk_node st' j' counter') /\
    after j' /\ counter <= counter' /\ counter' <= counter + N.of_nat (length l) + 1.
Proof.
  induction 1 as [first qids j j1 q E Hj1|first qids j j1 x q l E Hj1 _ IH];
    intros -> Hj calls parent_qid k1 k2 st counter inp st' Hl Hc Hq Hp;
    (destruct calls as [|calls]; [cbn in Hl; lia|]); cbn [length] in Hl, Hc |- *;
    cbn [Context.process_request] in Hp; cbn [process_loop node_ctx node_joiner query_counter];
    apply bind_ok in Hp as ([[[st1 k1'] k2'] dn] & -> & Hp); rsimpl;
    (destruct dn; [injection Hp as ->; exists j, counter; split; [done|]; split; [done|lia]|]);
    rewrite Hq in E; rewrite (call_join_ok false hist j st1 counter j1 _ ltac:(lia) E); rsimpl; cbn [fst].
  - injection Hp as ->. exists j1, (counter + 1). destruct calls; (split; [done|]; split; [done|lia]).
  - destruct (IH eq_refl Hj1 calls parent_qid k1' k2' st1 (counter + 1) x st') as (j' & c' & -> & Ha & Hc');
      [lia|lia|intros i; by rewrite Hq, next_qid_succ|done|].
    exists j', c'. split; [done|]. split; [done|lia].
Qed.

Lemma process_request_feeds after hist j l calls parent_qid k1 k2 st counter st' :
  feeds after hist true (next_qid counter) j l ->
  (length l <= calls)%nat -> counter + N.of_nat (length l) + 2 < W64 -> range_ok k1 k2 = true ->
  Context.process_request solve su l parent_qid k1 k2 st = Ok st' ->
  exists j' counter',
    process_request calls hist parent_qid k1 k2 (mk_node st j counter) = Ok (mk_node st' j' counter') /\
    after j' /\ counter <= counter' /\ counter' <= counter + N.of_nat (length l) + 1.
Proof.
  intros Hf Hl Hc Hr Hp. unfold process_request. rewrite Hr. change (assert true) with (Ok tt). rsimpl.
  inversion Hf as [first qids j0 j1 q E Hj1|first qids j0 j1 x q l' E Hj1 Hf']; subst;
    rewrite (call_join_ok true hist j st counter j1 _ ltac:(lia) E); rsimpl; cbn [fst].
  - injection Hp as ->. exists j1, (counter + 1). cbn. destruct calls; (split; [done|]; split; [done|lia]).
  - cbn [length] in Hl, Hc |- *.
    destruct (process_loop_feeds _ _ _ _ _ _ Hf' eq_refl Hj1 calls parent_qid k1 k2 st (counter + 1) x st')
      as (j' & c' & -> & Ha & Hc'); [lia|lia|intros i; by rewrite next_qid_succ|done|].
    exists j', c'. split; [done|]. split; [done|lia].
Qed.

End node.

Lemma feeds_impl {J} (jn : BaseJoiner J) (P Q : J -> Prop) hist first qids j l :
  (forall j, P j -> Q j) -> feeds jn P hist first qids j l -> feeds jn Q hist first qids j l.
Proof.
  intros HPQ. induction 1 as [first qids j j1 q E Hj1|first qids j j1 x q l E Hj1 _ IH];
    [eapply feeds_end|eapply feeds_more]; eauto.
Qed.

(** ** The two joiners *)

Section streaming.
Context (nb sb : N) (Hnb : 0 < nb) (Hsb : 0 < sb) (Hmax : nb * (sb + 1) <= id_max).
Context (pack_size joff : N) (neighbors : list NewNeighbor).
Context (respond : list request -> list request -> list rvalue).
Context (models : list (list NewBeliefState)) (reply : nat -> N -> N -> list NewBeliefState).
Context (Hnet : Network neighbors respond models reply) (Hnbs : neighbors_wf joff neighbors).
Context (Hlen : length models = length neighbors).
Context (Hwf : Forall (Forall (bs_wf (nb * (sb + 1)))) models).
Context (Hbig : Forall (fun ms => N.of_nat (length ms) + 2 * pack_size < W64) models).
Context (jd0 : gmap N N) (Hjd0 : forall id x, jd0 !! id = Some x -> QueryID.joiner_offset_from_qid id <> joff).
Context (fuel : nat) (Hfuel : N.of_nat (S (length neighbors)) * capacity (nps pack_size models) <= N.of_nat fuel).
Local Abbreviation jn := (streaming pack_size joff neighbors (layout nb sb) respond fuel).
Local Abbreviation stream := (joined_stream nb sb pack_size neighbors models reply).

Lemma delivers_feeds hist qids st l :
  delivers nb sb pack_size joff neighbors respond hist jd0 fuel qids st l ->
  feeds jn (joiner_ready neighbors jd0) hist false qids st l.
Proof. induction 1; [eapply feeds_end|eapply feeds_more]; eauto. Qed.

#[export] Instance streaming_feeds :
  Feeds jn (joiner_ready neighbors jd0)
    (fun st => Forall (fun ms => ms <> []) models -> joiner_ready neighbors jd0 st) stream.
Proof.
  intros hist qids st Hr Hqs.
  destruct (first_delivers nb sb Hnb Hsb Hmax pack_size joff neighbors respond models reply Hnet Hnbs Hlen
    Hwf Hbig hist jd0 Hjd0 st qids fuel Hr Hqs Hfuel) as [(-> & (i & Hi & He) & (st' & E))|(st2 & Hdel & E)].
  - eapply feeds_end; [exact E|]. intros Hall. by pose proof (Forall_lookup_1 _ _ _ _ Hall He).
  - apply (feeds_impl jn (joiner_ready neighbors jd0)); [done|].
    inversion Hdel; subst; [eapply feeds_end|eapply feeds_more]; eauto using delivers_feeds;
      cbn; by rewrite E.
Qed.

Lemma stream_wf : Forall (bs_wf (nb * (sb + 1))) stream.
Proof.
  apply Forall_forall. intros r Hr.
  eapply elem_of_joined_stream in Hr as (row & Hrow & Hr); [|eassumption..]. pose proof (row_wf nb sb _ _ Hrow Hwf) as Hw.
  destruct row as [|s row]; [done|]. apply Forall_cons in Hw as [Hs Hw].
  destruct (combine_all_ok nb sb Hnb Hsb Hmax row s Hs Hw) as (x & _ & Hx). destruct x as [r'|].
  - destruct Hx as [Wr Jr]. by rewrite (joins_unique nb sb Hnb Hsb Hmax row s r r').
  - by apply Hx in Hr.
Qed.
End streaming.

(** The one input of a leaf: nothing is known of any context. *)
Definition unknown (nb sb : N) : NewBeliefState :=
  match bs_blocks nb sb false with Ok b => b | Err _ => mk_bs (mk_bvector 0 0) (mk_bvector 0 0) end.

Lemma unknown_ok nb sb : nb * (sb + 1) <= id_max ->
  bs_blocks nb sb false = Ok (unknown nb sb) /\ bs_wf (nb * (sb + 1)) (unknown nb sb).
Proof. intros Hmax. unfold unknown. by destruct (bs_wf_blocks nb sb Hmax) as (b & -> & ? & ?). Qed.

#[export] Instance leaf_feeds nb sb : nb * (sb + 1) <= id_max ->
  Feeds (leaf (layout nb sb)) (fun _ => True) (fun _ => True) [unknown nb sb].
Proof.
  intros Hmax hist qids [] _ _. destruct (unknown_ok nb sb Hmax) as [E _].
  eapply (feeds_more _ _ _ _ _ _ tt _ (qids 0%nat)); [|done|].
  { cbn [leaf virtual_first_join]. unfold leaf_first_join. cbn [no_blocks size_belief_state layout]. by rewrite E. }
  by eapply (feeds_end _ _ _ _ _ _ tt (qids 1%nat)).
Qed.

(** ** Serving requests *)

Section serving.
Context (dom : Heads -> Prop) (solve : Heads -> evaluator -> res evaluator).
Context (models_of : option NewBeliefState -> option NewBeliefState -> list NewBeliefState).
Context `{Hsolve : !Solves dom solve models_of}.
Context (nb sb : N) (Hnb : 0 < nb) (Hsb : 0 < sb) (Hmax : nb * (sb + 1) <= id_max).
Local Abbreviation n := (nb * (sb + 1)).
Context (su : setup) (Hoff : offsets su = layout nb sb).
Context (Hrules : Forall (rule_wf nb sb) (bridge_rules su)).
Context (Hdom : forall inp h k1 k2, bs_wf n inp -> heads_for su inp = Some h ->
  dom (mk_heads (Some h) k1 k2 (Some inp))).
Context (Hguess : guessing su = None).
Context (ctx_id : N) (Hid : ctx_id < 2 ^ 10).
Context {J : Type} (jn : BaseJoiner J) (ready after : J -> Prop) (stream : list NewBeliefState).
Context `{Hfeeds : !Feeds jn ready after stream} (Hstream : Forall (bs_wf n) stream).

(** A request the context can serve: it is no shutdown, the range is legal,
    the context is not in the history, and there is a return plan for the
    invoker. *)
Record request_wf (f : ForwardMessage) : Prop := {
  rq_type : QueryID.is_shutdown (fm_qid f) = false;
  rq_range : fm_k1 f = 0 /\ fm_k2 f = 0 \/ 0 < fm_k1 f /\ fm_k1 f <= fm_k2 f;
  rq_width : fm_k2 f + 1 < W64;
  rq_history : ctx_id ∉ history f;
  rq_plan : is_Some (plan_lookup (return_plan su) (QueryID.invoker_from_qid (fm_qid f)));
}.

(** All models of the context, over all inputs. *)
Definition all_models : list NewBeliefState := stream ≫= input_models models_of su.

(** The records that answer a request. *)
Definition served (f : ForwardMessage) : list (option NewBeliefState * N) :=
  let interface := default (mk_bs (mk_bvector 0 0) (mk_bvector 0 0))
    (plan_lookup (return_plan su) (QueryID.invoker_from_qid (fm_qid f))) in
  (answer_for (fm_qid f) interface <$> slice (fm_k1 f) (fm_k2 f) all_models) ++ [(None, fm_qid f)].

Lemma range_ok_spec k1 k2 :
  (k1 = 0 /\ k2 = 0 \/ 0 < k1 /\ k1 <= k2) -> k2 + 1 < W64 -> range_ok k1 k2 = true.
Proof.
  intros Hk HW. unfold range_ok. rewrite u64_add_small by lia. apply orb_true_iff.
  rewrite !andb_true_iff, !N.eqb_eq, !N.ltb_lt. destruct Hk as [Hk|Hk]; [by left|right; lia].
Qed.

Lemma startup_turn_ok f calls nd :
  request_wf f -> ready (node_joiner nd) -> eval_out (eval (node_ctx nd)) = [] ->
  query_counter nd + N.of_nat (length stream) + 1 < 2 ^ 24 -> (length stream <= calls)%nat ->
  exists nd', startup_turn jn solve su ctx_id calls f nd = Ok (Some nd') /\
    sent (node_ctx nd') = sent (node_ctx nd) ++ served f /\ cache (node_ctx nd') = cache (node_ctx nd) /\
    eval_out (eval (node_ctx nd')) = [] /\ after (node_joiner nd') /\
    query_counter nd' <= query_counter nd + N.of_nat (length stream) + 1.
Proof.
  intros [Ht Hk HW Hh [iface Hp]] Hr Hq Hc Hl. destruct nd as [st j counter]. cbn in Hr, Hq, Hc |- *.
  unfold startup_turn. rewrite Ht, (range_ok_spec _ _ Hk HW), (bool_decide_eq_true_2 _ Hh).
  change (assert true) with (Ok tt). rsimpl.
  destruct (process_request_ok dom solve models_of nb sb Hnb Hsb Hmax su Hoff Hrules (fm_qid f) iface Hp Hdom
    stream (fm_k1 f) (fm_k2 f) st Hguess Hstream Hq Hk ltac:(lia)) as (st' & E & Hc' & Hq' & Hs).
  destruct (process_request_feeds jn solve su ctx_id after ({[ctx_id]} ∪ history f) j stream calls (fm_qid f)
    (fm_k1 f) (fm_k2 f) st counter st') as (j' & c' & E' & Ha & _ & Hle); [|done|lia|by apply range_ok_spec|done|].
  { apply Hfeeds; [done|]. intros i Hi. exists ctx_id, (counter + 1 + N.of_nat i). split; [done|]. split; [lia|done]. }
  rewrite E'. rsimpl. eexists. split; [done|]. cbn. unfold served. rewrite Hp. cbn [default].
  rewrite Hs, <- app_assoc. done.
Qed.

(** A sequence of requests: each is answered in full before the next one, and
    the context is ready for what follows. *)
Lemma startup_loop_ok calls msgs nd :
  (forall j, after j -> ready j) -> Forall request_wf msgs ->
  ready (node_joiner nd) -> eval_out (eval (node_ctx nd)) = [] ->
  query_counter nd + N.of_nat (length msgs) * (N.of_nat (length stream) + 1) < 2 ^ 24 ->
  (length stream <= calls)%nat ->
  exists nd', (forall rest, startup_loop jn solve su ctx_id calls (msgs ++ rest) nd =
                 startup_loop jn solve su ctx_id calls rest nd') /\
    sent (node_ctx nd') = sent (node_ctx nd) ++ (msgs ≫= served) /\
    ready (node_joiner nd') /\ eval_out (eval (node_ctx nd')) = [].
Proof.
  intros Har Hm. revert nd. induction Hm as [|f msgs Hf _ IH]; intros nd Hr Hq Hc Hl.
  { exists nd. cbn. by rewrite app_nil_r. }
  cbn [length] in Hc. destruct (startup_turn_ok f calls nd Hf Hr Hq) as (nd1 & E & Hs & _ & Hq1 & Ha & Hc1);
    [nia|done|].
  destruct (IH nd1) as (nd' & Hrest & Hs' & Hr' & Hq'); [by apply Har|done|nia|done|].
  exists nd'. split; [|split; [|done]].
  - intros rest. cbn [app startup_loop]. rewrite E. rsimpl. apply Hrest.
  - by rewrite Hs', Hs, bind_cons, <- app_assoc.
Qed.

End serving.

(** ** A context in its network *)

Section networked.
Context (dom : Heads -> Prop) (solve : Heads -> evaluator -> res evaluator).
Context (models_of : option NewBeliefState -> option NewBeliefState -> list NewBeliefState).
Context `{Hsolve : !Solves dom solve models_of}.
Context (nb sb : N) (Hnb : 0 < nb) (Hsb : 0 < sb) (Hmax : nb * (sb + 1) <= id_max).
Context (su : setup) (Hoff : offsets su = layout nb sb).
Context (Hrules : Forall (rule_wf nb sb) (bridge_rules su)).
Context (Hdom : forall inp h k1 k2, bs_wf (nb * (sb + 1)) inp -> heads_for su inp = Some h ->
  dom (mk_heads (Some h) k1 k2 (Some inp))).
Context (Hguess : guessing su = None).
Context (ctx_id : N) (Hid : ctx_id < 2 ^ 10).

(** A context without neighbors answers every request of a sequence with
    exactly the slice of the models it has for its empty input, projected to
    the interface with the invoker, and an end marker; a shutdown ends the
    loop. *)
Theorem leaf_serves_requests calls msgs nd :
  let stream := [unknown nb sb] in
  Forall (request_wf su ctx_id) msgs -> eval_out (eval (node_ctx nd)) = [] ->
  query_counter nd + 2 * N.of_nat (length msgs) < 2 ^ 24 -> (1 <= calls)%nat ->
  exists nd', (forall rest, startup_loop (leaf (layout nb sb)) solve su ctx_id calls (msgs ++ rest) nd =
                 startup_loop (leaf (layout nb sb)) solve su ctx_id calls rest nd') /\
    (forall f rest, QueryID.is_shutdown (fm_qid f) = true ->
       startup_loop (leaf (layout nb sb)) solve su ctx_id calls (msgs ++ f :: rest) nd = Ok (nd', true)) /\
    sent (node_ctx nd') = sent (node_ctx nd) ++ (msgs ≫= served models_of su stream).
Proof.
  intros stream Hm Hq Hc Hl. destruct (unknown_ok nb sb Hmax) as [_ Hwf].
  pose proof (leaf_feeds nb sb Hmax) as Hfeeds. fold stream in Hfeeds.
  destruct (startup_loop_ok dom solve models_of nb sb Hnb Hsb Hmax su Hoff Hrules Hdom Hguess ctx_id Hid
    (leaf (layout nb sb)) (fun _ => True) (fun _ => True) stream (proj2 (Forall_singleton _ _) Hwf) calls msgs nd)
    as (nd' & Hrest & Hs & _); try done; [cbn; lia|].
  exists nd'. split; [done|]. split; [|done]. intros f rest Hf. rewrite Hrest. cbn. unfold startup_turn.
  by rewrite Hf.
Qed.

Section neighbors.
Context (pack_size joff : N) (neighbors : list NewNeighbor).
Context (respond : list request -> list request -> list rvalue).
Context (models : list (list NewBeliefState)) (reply : nat -> N -> N -> list NewBeliefState).
Context (Hnet : Network neighbors respond models reply) (Hnbs : neighbors_wf joff neighbors).
Context (Hlen : length models = length neighbors).
Context (Hwf : Forall (Forall (bs_wf (nb * (sb + 1)))) models).
Context (Hbig : Forall (fun ms => N.of_nat (length ms) + 2 * pack_size < W64) models).
Context (jd0 : gmap N N) (Hjd0 : forall id x, jd0 !! id = Some x -> QueryID.joiner_offset_from_qid id <> joff).
Local Abbreviation jn := (streaming pack_size joff neighbors (layout nb sb) respond).
Local Abbreviation stream := (joined_stream nb sb pack_size neighbors models reply).

(** End to end: a context whose neighbors all have models answers every
    request of a sequence with exactly the requested slice of its models over
    all joins of its neighbors' models, each projected to the interface with
    the invoker, and an end marker, in the order of the requests.  The order
    of the models is the same for every request, so that consecutive packs of
    models fit together.  It never blocks, no assertion fails, and a shutdown
    ends the loop.  The fuel of the joiner covers the combinations of packs. *)
Theorem context_serves_requests fuel calls msgs nd :
  Forall (fun ms => ms <> []) models ->
  N.of_nat (S (length neighbors)) * capacity (nps pack_size models) <= N.of_nat fuel ->
  (length stream <= calls)%nat ->
  Forall (request_wf su ctx_id) msgs ->
  joiner_ready neighbors jd0 (node_joiner nd) -> eval_out (eval (node_ctx nd)) = [] ->
  query_counter nd + N.of_nat (length msgs) * (N.of_nat (length stream) + 1) < 2 ^ 24 ->
  (forall r, r ∈ stream <-> joined_from nb sb models r) /\
  exists nd', (forall rest, startup_loop (jn fuel) solve su ctx_id calls (msgs ++ rest) nd =
                 startup_loop (jn fuel) solve su ctx_id calls rest nd') /\
    (forall f rest, QueryID.is_shutdown (fm_qid f) = true ->
       startup_loop (jn fuel) solve su ctx_id calls (msgs ++ f :: rest) nd = Ok (nd', true)) /\
    sent (node_ctx nd') = sent (node_ctx nd) ++ (msgs ≫= served models_of su stream) /\
    joiner_ready neighbors jd0 (node_joiner nd').
Proof.
  intros Hne Hf Hl Hm Hr Hq Hc. split; [intros r; by eapply elem_of_joined_stream|].
  pose proof (streaming_feeds nb sb Hnb Hsb Hmax pack_size joff neighbors respond models reply Hnet Hnbs Hlen
    Hwf Hbig jd0 Hjd0 fuel Hf) as Hfeeds.
  assert (Hswf : Forall (bs_wf (nb * (sb + 1))) stream) by (by eapply stream_wf).
  destruct (startup_loop_ok dom solve models_of nb sb Hnb Hsb Hmax su Hoff Hrules Hdom Hguess ctx_id Hid
    (jn fuel) _ _ stream Hswf calls msgs nd) as (nd' & Hrest & Hs & Hr' & _); try done; [by auto|].
  exists nd'. split; [done|]. split; [|done]. intros f rest Hsf. rewrite Hrest. cbn. unfold startup_turn.
  by rewrite Hsf.
Qed.
End neighbors.
End networked.

(** ** Concrete runs *)

(** Context 3 with two neighbors, asked by context 0 for its second to third
    model and then for all of them. *)
Definition sample_msgs : list ForwardMessage :=
  [fwd_new sample_qid ∅ 2 3; fwd_new (QueryID.query_id2 0 2) {[7]} 0 0].
Definition sample_shutdown : ForwardMessage := fwd_new (QueryID.shutdown_query_id 0 3) ∅ 1 1.

Lemma sample_msgs_wf : Forall (request_wf sample_setup 3) sample_msgs.
Proof.
  apply Forall_cons. split; [|apply Forall_singleton]; (split; [reflexivity| |reflexivity| |by eexists]).
  - right. done.
  - set_solver.
  - by left.
  - set_solver.
Qed.

Lemma leaf_serves_requests_witness :
  exists nd', (forall rest, startup_loop (leaf (layout 2 2)) (ref_solve sample_models) sample_setup 3 1
                   (sample_msgs ++ rest) (mk_node (mk_ctx [] eval_new []) tt 0) =
                 startup_loop (leaf (layout 2 2)) (ref_solve sample_models) sample_setup 3 1 rest nd') /\
    (forall f rest, QueryID.is_shutdown (fm_qid f) = true ->
       startup_loop (leaf (layout 2 2)) (ref_solve sample_models) sample_setup 3 1
         (sample_msgs ++ f :: rest) (mk_node (mk_ctx [] eval_new []) tt 0) = Ok (nd', true)) /\
    sent (node_ctx nd') = [] ++ (sample_msgs ≫= served sample_models sample_setup [unknown 2 2]).
Proof.
  apply (leaf_serves_requests (fun _ => True) (ref_solve sample_models) sample_models 2 2 ltac:(done)
    ltac:(done) ltac:(done) sample_setup eq_refl sample_rule2_wf ltac:(done) eq_refl 3 ltac:(done) 1
    sample_msgs (mk_node (mk_ctx [] eval_new []) tt 0)); try done; exact sample_msgs_wf.
Defined.

Definition sample_neighbors : list (list NewBeliefState) := [[left2; right2]; [right2]].

Lemma context_serves_requests_witness :
  let stream := joined_stream 2 2 1 (nbs 2) sample_neighbors (exact_reply sample_neighbors) in
  let loop := startup_loop (streaming 1 3 (nbs 2) (layout 2 2) (in_turn sample_neighbors) 10)
    (ref_solve sample_models) sample_setup 3 10 in
  let nd := mk_node (mk_ctx [] eval_new []) (start_state 2) 0 in
  (forall r, r ∈ stream <-> joined_from 2 2 sample_neighbors r) /\
  exists nd', (forall rest, loop (sample_msgs ++ rest) nd = loop rest nd') /\
    (forall f rest, QueryID.is_shutdown (fm_qid f) = true -> loop (sample_msgs ++ f :: rest) nd = Ok (nd', true)) /\
    sent (node_ctx nd') = [] ++ (sample_msgs ≫= served sample_models sample_setup stream) /\
    joiner_ready (nbs 2) ∅ (node_joiner nd').
Proof.
  assert (Hwf : Forall (Forall (bs_wf (2 * (2 + 1)))) sample_neighbors).
  { repeat (first [apply Forall_cons; split | apply Forall_nil; exact I]); by apply small_wf. }
  apply (context_serves_requests (fun _ => True) (ref_solve sample_models) sample_models 2 2 ltac:(done)
    ltac:(done) ltac:(done) sample_setup eq_refl sample_rule2_wf ltac:(done) eq_refl 3 ltac:(done)
    1 3 (nbs 2) (in_turn sample_neighbors) sample_neighbors (exact_reply sample_neighbors) _
    (nbs_wf 2 3 ltac:(lia) ltac:(done)) eq_refl Hwf).
  - repeat (first [apply Forall_cons; split; [done|] | apply Forall_nil; exact I]).
  - intros id x H. by rewrite lookup_empty in H.
  - repeat (first [apply Forall_cons; split; [done|] | apply Forall_nil; exact I]).
  - vm_compute. discriminate.
  - vm_compute. lia.
  - exact sample_msgs_wf.
  - split; [done|done|]. by repeat split.
  - done.
  - vm_compute. reflexivity.
Defined.

(** The run itself: the models of the two requests and their end markers, and
    then the shutdown. *)
Example sample_run :
  let run := startup_loop (streaming 1 3 (nbs 2) (layout 2 2) (in_turn sample_neighbors) 10)
    (ref_solve sample_models) sample_setup 3 10 (sample_msgs ++ [sample_shutdown])
    (mk_node (mk_ctx [] eval_new []) (start_state 2) 0) in
  (fun r => (length (sent (node_ctx r.1)), r.2)) <$> run = Ok (8%nat, true).
Proof. vm_compute. reflexivity. Qed.

End ContextJoin.
