(* ===== verification/Connection.v ===== *)
(** * Messages on a socket

    [connection] (include/network/connection.hpp): every message is written as
    a header of eight characters, the length of the serialized data in
    hexadecimal, followed by the data.

    The socket is the list of bytes that have arrived and not been read.
    [boost::asio::async_read] completes when as many bytes are there as were
    asked for, so a read from a shorter list is [Pending].  [Archive] is the
    interface to the text archives: what the members of a message become, and
    how they are read.  [ArchiveLaws] says that loading gives back what was
    saved, for the messages that are [storable], and that an archive is never
    empty (it starts with a signature); Archives implements it for the
    messages of the program. *)

From S2P Require Import Prelude.
From Stdlib Require Export Ascii.

Module Connection.

Abbreviation bytes := (list ascii).

Definition header_length : N := 8.

(** ** Numbers in hexadecimal *)

(** [<< std::hex]: lower-case digits. *)
Definition hex_digit (d : N) : ascii := ascii_of_N (if d <? 10 then 48 + d else 87 + d).

Fixpoint hex_loop (fuel : nat) (n : N) (acc : bytes) : bytes :=
  match fuel with
  | O => acc
  | S fuel =>
      let acc := hex_digit (n mod 16) :: acc in
      if n / 16 =? 0 then acc else hex_loop fuel (n / 16) acc
  end.

(** Sixteen digits hold a [std::size_t]. *)
Definition to_hex (n : N) : bytes := hex_loop 16 n [].

(** [<< std::setw(w)]: filled with blanks on the left. *)
Definition setw (w : N) (s : bytes) : bytes := replicate (N.to_nat w - length s) " "%char ++ s.

Definition digit_value (c : ascii) : option N :=
  let n := N_of_ascii c in
  if (48 <=? n) && (n <=? 57) then Some (n - 48)
  else if (97 <=? n) && (n <=? 102) then Some (n - 87)
  else if (65 <=? n) && (n <=? 70) then Some (n - 55)
  else None.

Definition is_space (c : ascii) : bool :=
  let n := N_of_ascii c in (n =? 32) || ((9 <=? n) && (n <=? 13)).

Fixpoint skip_space (s : bytes) : bytes :=
  match s with c :: t => if is_space c then skip_space t else s | [] => [] end.

(** The digits read so far have the value [v]; [some] says whether there was
    one. *)
Fixpoint scan_digits (s : bytes) (v : N) (some : bool) : option N :=
  match s with
  | c :: s =>
      match digit_value c with
      | Some d => scan_digits s (16 * v + d) true
      | None => if some then Some v else None
      end
  | [] => if some then Some v else None
  end.

(** Zeros and the prefixes 0x and 0X before the digits. *)
Fixpoint scan_prefix (s : bytes) (found_zero : bool) : option N :=
  match s with
  | c :: t =>
      if bool_decide (c = "0"%char) && negb found_zero then scan_prefix t true
      else if found_zero && (bool_decide (c = "x"%char) || bool_decide (c = "X"%char)) then scan_prefix t false
      else scan_digits s 0 found_zero
  | [] => scan_digits s 0 found_zero
  end.

(** [is >> std::hex >> n] for an unsigned [n]: blanks, a sign, a prefix and
    digits; a negative number is taken modulo the width. *)
Definition read_hex (s : bytes) : option N :=
  match skip_space s with
  | "-"%char :: s => (fun v => u64_sub 0 v) <$> scan_prefix s false
  | "+"%char :: s => scan_prefix s false
  | s => scan_prefix s false
  end.

(** ** Writing *)

(** What is put on the socket, or the error [invalid_argument]. *)
Definition write_data (data : bytes) : option bytes :=
  let header := setw header_length (to_hex (N.of_nat (length data))) in
  if negb (N.of_nat (length header) =? header_length) then None else Some (header ++ data).

(** ** Reading *)

(** An operation waits, reports an error to its handler, or completes. *)
Inductive completion (A : Type) :=
  | Pending
  | Failed
  | Completed (a : A) (rest : bytes).
Arguments Pending {A}.
Arguments Failed {A}.
Arguments Completed {A}.

(** [std::vector<char>::max_size()]. *)
Definition max_size : N := 2 ^ 63 - 1.

(** [handle_read_header] and [handle_read_data]: the address of the first byte
    is taken, which an empty vector does not have. *)
Definition read_data (sock : bytes) : res (completion bytes) :=
  if N.of_nat (length sock) <? header_length then mret Pending
  else
    match read_hex (take (N.to_nat header_length) sock) with
    | None => mret Failed
    | Some inbound_data_size =>
        let sock := drop (N.to_nat header_length) sock in
        if max_size <? inbound_data_size then Err (Thrown "std::length_error")
        else if N.of_nat (length sock) <? inbound_data_size then mret Pending
        else if inbound_data_size =? 0 then Err IndexOutOfRange
        else mret (Completed (take (N.to_nat inbound_data_size) sock) (drop (N.to_nat inbound_data_size) sock))
    end.

(** ** Archives *)

(** The text archive of a type: [save] and [load] run the functions that write
    and read its members and can fail as these do; [storable] says for which
    values they are a round trip. *)
Class Archive (T : Type) := {
  save : T -> res bytes;
  load : bytes -> res T;
  storable : T -> bool;
}.

Class ArchiveLaws (T : Type) `{!Archive T} : Prop :=
  archive_roundtrip (t : T) : storable t = true -> exists b, save t = Ok b /\ b <> [] /\ load b = Ok t.

Section typed.
Context {T : Type} `{!Archive T}.

Definition write (t : T) : res (option bytes) :=
  outbound_data_ ← save t;
  mret (write_data outbound_data_).

Definition read (sock : bytes) : res (completion T) :=
  c ← read_data sock;
  match c with
  | Pending => mret Pending
  | Failed => mret Failed
  | Completed data rest =>
      match load data with
      | Ok t => mret (Completed t rest)
      | Err (Thrown _) => mret Failed
      | Err e => Err e
      end
  end.

(** Reading one message after the other as long as they are complete. *)
Fixpoint read_all (fuel : nat) (sock : bytes) : res (list T * bytes) :=
  match fuel with
  | O => Err OutOfFuel
  | S fuel =>
      c ← read sock;
      match c with
      | Completed t rest => '(l, rest) ← read_all fuel rest; mret (t :: l, rest)
      | _ => mret ([], sock)
      end
  end.
End typed.

(** ** Digits *)

Lemma digit_value_hex d : d < 16 -> digit_value (hex_digit d) = Some d /\ is_space (hex_digit d) = false /\
  hex_digit d <> "-"%char /\ hex_digit d <> "+"%char /\ hex_digit d <> "x"%char /\ hex_digit d <> "X"%char /\
  (hex_digit d = "0"%char <-> d = 0).
Proof.
  intros Hd.
  assert (H : d ∈ nrange 0 16) by (apply elem_of_nrange; lia). revert H. clear Hd.
  change (nrange 0 16) with [0; 1; 2; 3; 4; 5; 6; 7; 8; 9; 10; 11; 12; 13; 14; 15].
  intros H. repeat (apply elem_of_cons in H as [->|H]; [by vm_compute|]). by apply not_elem_of_nil in H.
Qed.

Definition hex_val (v : N) (ds : list N) : N := foldl (fun v d => 16 * v + d) v ds.

(** The digits printed for [n], how many there are, and their value. *)
Lemma hex_loop_ok fuel : forall n acc,
  (0 < fuel)%nat -> n < 16 ^ N.of_nat fuel ->
  exists ds, hex_loop fuel n acc = (hex_digit <$> ds) ++ acc /\ Forall (fun d => d < 16) ds /\
    hex_val 0 ds = n /\ ds <> [] /\ forall k, (0 < k)%nat -> (length ds <= k)%nat <-> n < 16 ^ N.of_nat k.
Proof.
  induction fuel as [|fuel IH]; intros n acc Hf Hn; [lia|]. cbn [hex_loop].
  assert (exists q r, n / 16 = q /\ n mod 16 = r /\ n = 16 * q + r /\ r < 16)
    as (q & r & -> & -> & -> & Hr).
  { exists (n / 16), (n mod 16). split; [done|]. split; [done|]. split; [by apply N.div_mod|by apply N.mod_lt]. }
  destruct (N.eqb_spec q 0) as [->|Hz].
  - exists [r]. split; [done|]. split; [by apply Forall_singleton|]. split; [done|]. split; [done|].
    intros k Hk. split; [intros _|cbn; lia]. apply (N.lt_le_trans _ (16 ^ 1)); [change (16 ^ 1) with 16; lia|].
    apply N.pow_le_mono_r; lia.
  - rewrite Nat2N.inj_succ, N.pow_succ_r' in Hn.
    destruct fuel as [|fuel]; [change (16 ^ N.of_nat 0) with 1 in Hn; lia|].
    destruct (IH q (hex_digit r :: acc)) as (ds & -> & Hds & Hv & Hne & Hlen); [lia|lia|].
    exists (ds ++ [r]). split; [by rewrite fmap_app, <- app_assoc|].
    split; [by apply Forall_app; split; [|apply Forall_singleton]|].
    split; [unfold hex_val in *; rewrite foldl_app, Hv; cbn [foldl]; lia|]. split; [by destruct ds|].
    intros [|[|k]] Hk; [lia| |]; rewrite length_app; cbn [length].
    + destruct ds; [done|]. change (16 ^ N.of_nat 1) with 16. cbn [length]. lia.
    + rewrite (Nat2N.inj_succ (S k)), N.pow_succ_r'. specialize (Hlen (S k) ltac:(lia)).
      rewrite Nat.add_comm. cbn [Nat.add]. rewrite <- Nat.succ_le_mono, Hlen. lia.
Qed.

Lemma scan_digits_hex ds : forall v some,
  Forall (fun d => d < 16) ds -> some = true \/ ds <> [] ->
  scan_digits (hex_digit <$> ds) v some = Some (hex_val v ds).
Proof.
  induction ds as [|d ds IH]; intros v some Hds Hs; cbn.
  - by destruct Hs as [->|].
  - apply Forall_cons in Hds as [Hd Hds]. rewrite (proj1 (digit_value_hex d Hd)). rewrite IH by auto. done.
Qed.

Lemma scan_prefix_hex ds : forall found_zero,
  Forall (fun d => d < 16) ds -> found_zero = true \/ ds <> [] ->
  scan_prefix (hex_digit <$> ds) found_zero = Some (hex_val 0 ds).
Proof.
  induction ds as [|d ds IH]; intros z Hds Hz; cbn [fmap list_fmap scan_prefix].
  - by destruct Hz as [->|].
  - pose proof Hds as [Hd Hds']%Forall_cons.
    destruct (digit_value_hex d Hd) as (_ & _ & _ & _ & Hx & HX & H0).
    rewrite (bool_decide_eq_false_2 _ Hx), (bool_decide_eq_false_2 _ HX), andb_false_r.
    case_bool_decide as Hd0; [|by apply (scan_digits_hex (d :: ds))].
    destruct z; cbn [negb andb]; [by apply (scan_digits_hex (d :: ds)); auto|].
    rewrite IH by auto. apply H0 in Hd0 as ->. done.
Qed.

Lemma skip_blanks k s : skip_space (replicate k " "%char ++ s) = skip_space s.
Proof. induction k as [|k IH]; [done|]. exact IH. Qed.

(** A header of eight characters exists exactly for sizes of 32 bits, and it
    is read back. *)
Lemma header_ok n : n < W64 ->
  N.of_nat (length (setw header_length (to_hex n))) = header_length <-> n < 2 ^ 32.
Proof.
  intros Hn. destruct (hex_loop_ok 16 n [] ltac:(lia) Hn) as (ds & E & _ & _ & _ & Hlen).
  unfold setw, to_hex. rewrite E, app_nil_r, length_app, length_replicate, length_fmap.
  change (2 ^ 32) with (16 ^ N.of_nat 8). rewrite <- Hlen by lia. change (N.to_nat header_length) with 8%nat.
  change header_length with 8. lia.
Qed.

Lemma read_header n : n < W64 -> read_hex (setw header_length (to_hex n)) = Some n.
Proof.
  intros Hn. destruct (hex_loop_ok 16 n [] ltac:(lia) Hn) as (ds & E & Hds & Hv & Hne & _).
  unfold read_hex, setw, to_hex. rewrite E, app_nil_r, skip_blanks.
  assert (Hp := scan_prefix_hex ds false Hds (or_intror Hne)). rewrite Hv in Hp.
  destruct ds as [|d ds]; [done|]. pose proof Hds as [Hd _]%Forall_cons.
  destruct (digit_value_hex d Hd) as (_ & Hs & Hm & Hpl & _).
  cbn [fmap list_fmap skip_space] in Hp |- *. rewrite Hs.
  destruct (hex_digit d) as [[] [] [] [] [] [] [] []]; try exact Hp; by exfalso.
Qed.

(** ** Frames *)

(** [write] fails exactly for data of four gigabytes or more. *)
Lemma write_data_ok data :
  N.of_nat (length data) < W64 ->
  write_data data = None <-> 2 ^ 32 <= N.of_nat (length data).
Proof.
  intros Hl. pose proof (header_ok _ Hl) as Hh. unfold write_data.
  destruct (N.eqb_spec (N.of_nat (length (setw header_length (to_hex (N.of_nat (length data)))))) header_length)
    as [E|E]; cbn [negb]; [|split; [intros _|done]].
  - apply Hh in E. split; [done|lia].
  - destruct (N.lt_ge_cases (N.of_nat (length data)) (2 ^ 32)) as [Hlt|]; [|done]. by apply Hh in Hlt.
Qed.

Lemma write_data_some data frame :
  N.of_nat (length data) < W64 -> write_data data = Some frame ->
  N.of_nat (length data) < 2 ^ 32 /\
  exists header, frame = header ++ data /\ length header = 8%nat /\
    read_hex header = Some (N.of_nat (length data)).
Proof.
  intros Hl E. assert (Hlt : N.of_nat (length data) < 2 ^ 32).
  { destruct (N.lt_ge_cases (N.of_nat (length data)) (2 ^ 32)) as [|Hge]; [done|].
    apply (write_data_ok data Hl) in Hge. congruence. }
  split; [done|]. pose proof (proj2 (header_ok _ Hl) Hlt) as Hh. unfold write_data in E.
  rewrite Hh, N.eqb_refl in E. injection E as <-. eexists. split; [done|].
  split; [apply Nat2N.inj; exact Hh|]. by apply read_header.
Qed.

(** A complete frame is read, and what follows is left; a frame that has
    arrived in part is waited for. *)
Lemma read_frame data frame rest :
  N.of_nat (length data) < W64 -> data <> [] -> write_data data = Some frame ->
  read_data (frame ++ rest) = Ok (Completed data rest).
Proof.
  intros Hl Hne E. destruct (write_data_some data frame Hl E) as (Hlt & header & -> & Hh & Hread).
  unfold read_data. rewrite <- app_assoc. change header_length with 8. change (N.to_nat 8) with 8%nat.
  destruct (N.ltb_spec (N.of_nat (length (header ++ data ++ rest))) 8) as [Hshort|_];
    [rewrite !length_app in Hshort; lia|].
  rewrite take_app_length', drop_app_length', Hread by done.
  destruct (N.ltb_spec max_size (N.of_nat (length data))) as [Hbig|_]; [unfold max_size in Hbig; lia|].
  destruct (N.ltb_spec (N.of_nat (length (data ++ rest))) (N.of_nat (length data))) as [Hs|_];
    [rewrite length_app in Hs; lia|].
  destruct (N.eqb_spec (N.of_nat (length data)) 0); [destruct data; [done|cbn in *; lia]|].
  by rewrite Nat2N.id, take_app_length, drop_app_length.
Qed.

Lemma read_partial data frame p q :
  N.of_nat (length data) < W64 -> write_data data = Some frame -> frame = p ++ q -> q <> [] ->
  read_data p = Ok Pending.
Proof.
  intros Hl E Hpq Hq. destruct (write_data_some data frame Hl E) as (Hlt & header & -> & Hh & Hread).
  unfold read_data. change header_length with 8. change (N.to_nat 8) with 8%nat.
  assert (Hlen : (length p < 8 + length data)%nat).
  { apply (f_equal length) in Hpq. rewrite !length_app in Hpq. destruct q; [done|]. cbn in Hpq. lia. }
  destruct (N.ltb_spec (N.of_nat (length p)) 8) as [|Hlong]; [done|].
  assert (Hp : take 8 p = header).
  { apply (f_equal (take 8)) in Hpq. rewrite take_app_length', take_app_le in Hpq by lia. done. }
  rewrite Hp, Hread. destruct (N.ltb_spec max_size (N.of_nat (length data))) as [Hbig|_]; [unfold max_size in Hbig; lia|].
  rewrite length_drop. destruct (N.ltb_spec (N.of_nat (length p - 8)) (N.of_nat (length data))); [done|lia].
Qed.

(** A header that announces no data makes the reader take the address of the
    first byte of an empty vector.  No archive is empty, so [write] never sends
    such a frame. *)
Lemma empty_frame_fails rest : read_data (setw header_length (to_hex 0) ++ rest) = Err IndexOutOfRange.
Proof.
  unfold read_data. change header_length with 8.
  destruct (N.ltb_spec (N.of_nat (length (setw 8 (to_hex 0) ++ rest))) 8) as [H|_];
    [rewrite length_app in H; change (length (setw 8 (to_hex 0))) with 8%nat in H; lia|].
  rewrite take_app_length', drop_app_length' by done.
  change (read_hex (setw 8 (to_hex 0))) with (Some 0). cbn match.
  destruct (N.ltb_spec (N.of_nat (length rest)) 0); [lia|done].
Qed.

(** ** Typed messages *)

Section laws.
Context {T : Type} `{!Archive T, !ArchiveLaws T}.

Definition saved (t : T) : bytes := match save t with Ok b => b | Err _ => [] end.
Definition sendable (t : T) : Prop := storable t = true /\ N.of_nat (length (saved t)) < 2 ^ 32.
Definition frame (t : T) : bytes := match write t with Ok (Some b) => b | _ => [] end.

Lemma sendable_inv t : sendable t ->
  save t = Ok (saved t) /\ saved t <> [] /\ load (saved t) = Ok t /\ N.of_nat (length (saved t)) < 2 ^ 32.
Proof.
  intros [Hs Hl]. destruct (archive_roundtrip t Hs) as (b & E & Hb & Hload).
  unfold saved in *. by rewrite E in *.
Qed.

Lemma write_frame t : sendable t -> write t = Ok (Some (frame t)) /\ write_data (saved t) = Some (frame t).
Proof.
  intros (E & _ & _ & Hl)%sendable_inv. unfold frame, write. rewrite E. rsimpl.
  destruct (write_data (saved t)) eqn:Ew; [done|]. apply write_data_ok in Ew; lia.
Qed.

Lemma read_written t rest : sendable t -> read (frame t ++ rest) = Ok (Completed t rest).
Proof.
  intros Ht. destruct (write_frame t Ht) as [_ E]. apply sendable_inv in Ht as (_ & Hb & Hload & Hl). unfold read.
  rewrite (read_frame (saved t) (frame t) rest); [|lia|done|done]. rsimpl. by rewrite Hload.
Qed.

Lemma read_incomplete t p q : sendable t -> frame t = p ++ q -> q <> [] -> read p = Ok (@Pending T).
Proof.
  intros Ht E Hq. destruct (write_frame t Ht) as [_ Ew]. apply sendable_inv in Ht as (_ & _ & _ & Hl). unfold read.
  erewrite (read_partial (saved t)); [done| |exact Ew|done|done]. lia.
Qed.

Lemma frame_long t : sendable t -> (8 < length (frame t))%nat.
Proof.
  intros Ht. destruct (write_frame t Ht) as [_ Ew]. apply sendable_inv in Ht as (_ & Hb & _ & Hl).
  destruct (write_data_some (saved t) (frame t)) as (_ & header & -> & Hh & _); [lia|done|].
  rewrite length_app, Hh. destruct (saved t); [done|]. cbn. lia.
Qed.

(** C33.  Messages survive the socket: of a sequence of messages, each one that
    its archive stores and of less than four gigabytes, of whose bytes a part [p] has arrived, the receiver
    reads exactly the messages that are complete, in order and unchanged, and
    waits in front of the next one; when everything has arrived it has read
    them all. *)
Theorem messages_survive_socket (ts : list T) p q fuel :
  Forall sendable ts -> concat (frame <$> ts) = p ++ q -> (length p < fuel)%nat ->
  exists k rest, read_all fuel p = Ok (take k ts, rest) /\ p = concat (frame <$> take k ts) ++ rest /\
    read rest = Ok (@Pending T) /\ (q = [] -> take k ts = ts /\ rest = []).
Proof.
  intros Hts. revert p fuel. induction Hts as [|t ts Ht _ IH]; intros p fuel E Hf; cbn in E.
  - symmetry in E. apply app_nil in E as [-> ->]. destruct fuel; [lia|]. by exists 0%nat, [].
  - destruct fuel as [|fuel]; [lia|]. cbn [read_all].
    assert (Hstep : forall p', p = frame t ++ p' -> concat (frame <$> ts) = p' ++ q ->
      exists k rest, (c ← read p; match c with
          | Completed t rest => '(l, rest) ← read_all fuel rest; mret (t :: l, rest)
          | _ => mret ([], p) end) = Ok (take k (t :: ts), rest) /\
        p = concat (frame <$> take k (t :: ts)) ++ rest /\
        read rest = Ok (@Pending T) /\ (q = [] -> take k (t :: ts) = t :: ts /\ rest = [])).
    { intros p' -> E2. pose proof (frame_long t Ht). rewrite length_app in Hf. rewrite (read_written t p' Ht). rsimpl.
      destruct (IH p' fuel E2 ltac:(lia)) as (k & rest & -> & -> & Hr & Hall). rsimpl.
      exists (S k), rest. cbn [take fmap list_fmap concat]. split; [done|]. split; [by rewrite app_assoc|].
      split; [done|]. intros Hq. by destruct (Hall Hq) as [-> ->]. }
    destruct (app_eq_inv _ _ _ _ E) as [(q' & E1 & E2)|(p' & E1 & E2)]; [|by apply (Hstep p')].
    destruct q' as [|c q'].
    + apply (Hstep []); [by rewrite app_nil_r in *|by rewrite E2].
    + exists 0%nat, p. rewrite (read_incomplete t p (c :: q') Ht E1 ltac:(done)). rsimpl.
      split; [done|]. split; [done|]. split; [done|]. intros ->. done.
Qed.
End laws.

#[global] Arguments frame : simpl never.
#[global] Arguments sendable : simpl never.
#[global] Arguments read : simpl never.
#[global] Arguments write : simpl never.

(** ** State machines on a socket

    An asynchronous reader is a state together with the bytes that have
    arrived; a step handles one message, if it is complete. *)

Section reader.
Context {M : Type} (step : M -> res (option M)).

(** The handlers that run before the reader waits again. *)
Fixpoint settle (fuel : nat) (m : M) : res M :=
  match fuel with
  | O => Err OutOfFuel
  | S fuel => r ← step m; match r with Some m => settle fuel m | None => mret m end
  end.

(** [conc a p] is the reader in the state [a] with the bytes [p]; [trans] is
    what a complete message, encoded by [enc], does to the state. *)
Context {A I : Type} (enc : I -> bytes) (trans : A -> I -> option A) (conc : A -> bytes -> M).
Hypothesis enc_nonempty : forall a i a', trans a i = Some a' -> enc i <> [].
Hypothesis step_idle : forall a, step (conc a []) = Ok None.
Hypothesis step_full : forall a i a' rest, trans a i = Some a' -> step (conc a (enc i ++ rest)) = Ok (Some (conc a' rest)).
Hypothesis step_part : forall a i a' p q, trans a i = Some a' -> enc i = p ++ q -> q <> [] ->
  step (conc a p) = Ok None.

Fixpoint transs (a : A) (l : list I) : option A :=
  match l with [] => Some a | i :: l => a' ← trans a i; transs a' l end.

(** After any part of the bytes the reader has handled the complete messages
    and keeps the rest. *)
Lemma settle_prefix l : forall a z p q fuel,
  transs a l = Some z -> concat (enc <$> l) = p ++ q -> (length p < fuel)%nat ->
  exists k a' rest, settle fuel (conc a p) = Ok (conc a' rest) /\ transs a' (drop k l) = Some z /\
    concat (enc <$> drop k l) = rest ++ q /\ (q = [] -> drop k l = [] /\ rest = []).
Proof.
  induction l as [|i l IH]; intros a z p q fuel Hz E Hf; cbn in E.
  - symmetry in E. apply app_nil in E as [-> ->]. destruct fuel; [lia|]. exists 0%nat, a, [].
    cbn. by rewrite step_idle.
  - destruct fuel as [|fuel]; [lia|]. cbn [transs] in Hz.
    destruct (trans a i) as [a'|] eqn:Ht; [|done]. cbn in Hz.
    assert (Hstep : forall p', p = enc i ++ p' -> concat (enc <$> l) = p' ++ q ->
      exists k a2 rest, settle (S fuel) (conc a p) = Ok (conc a2 rest) /\ transs a2 (drop k (i :: l)) = Some z /\
        concat (enc <$> drop k (i :: l)) = rest ++ q /\ (q = [] -> drop k (i :: l) = [] /\ rest = [])).
    { intros p' -> E2. cbn [settle]. rewrite (step_full a i a' p' Ht). rsimpl.
      destruct (IH a' z p' q fuel Hz E2) as (k & a2 & rest & Hr).
      { rewrite length_app in Hf. pose proof (enc_nonempty a i a' Ht). destruct (enc i); [done|]. cbn in Hf. lia. }
      by exists (S k), a2, rest. }
    destruct (app_eq_inv _ _ _ _ E) as [(q' & E1 & E2)|(p' & E1 & E2)]; [|by apply (Hstep p')].
    destruct q' as [|c q'].
    + apply (Hstep []); [by rewrite app_nil_r in *|by rewrite E2].
    + exists 0%nat, a, p. cbn [settle]. rewrite (step_part a i a' p (c :: q') Ht E1 ltac:(done)). rsimpl.
      cbn [drop transs]. rewrite Ht. split; [done|]. split; [done|]. split; [by cbn; rewrite E|]. by intros ->.
Qed.

(** Bytes that arrive in pieces. *)
Context (arrive : M -> bytes -> res M).
Hypothesis arrive_settle : forall a p chunk, exists fuel, (length (p ++ chunk) < fuel)%nat /\
  arrive (conc a p) chunk = settle fuel (conc a (p ++ chunk)).

Lemma arrive_all chunks : forall l a z p,
  transs a l = Some z -> concat (enc <$> l) = p ++ concat chunks ->
  (chunks = [] -> p = [] /\ l = []) ->
  foldM arrive (conc a p) chunks = Ok (conc z []).
Proof.
  induction chunks as [|chunk chunks IH]; intros l a z p Hz E Hnil; cbn [foldM].
  - destruct (Hnil eq_refl) as [-> ->]. cbn in Hz. by injection Hz as ->.
  - cbn [concat] in E. rewrite app_assoc in E.
    destruct (arrive_settle a p chunk) as (fuel & Hf & ->).
    destruct (settle_prefix l a z (p ++ chunk) (concat chunks) fuel Hz E Hf) as (k & a' & rest & -> & Hz' & E' & Hall).
    rsimpl. apply (IH (drop k l) a' z rest Hz' E'). intros ->. by destruct Hall.
Qed.
End reader.

(** ** A concrete archive *)

(** The bits of a number that encodes the value, behind one character. *)
Fixpoint bits_of (p : positive) : bytes :=
  match p with xH => [] | xO p => "0"%char :: bits_of p | xI p => "1"%char :: bits_of p end.

Fixpoint of_bits (b : bytes) : positive :=
  match b with [] => xH | c :: b => if bool_decide (c = "1"%char) then xI (of_bits b) else xO (of_bits b) end.

Lemma of_bits_of p : of_bits (bits_of p) = p.
Proof. induction p as [p IH|p IH|]; cbn; by rewrite ?IH. Qed.

Definition toy_archive {T} `{Countable T} : Archive T := {|
  save t := Ok ("!"%char :: bits_of (encode t));
  load d :=
    match d with
    | _ :: b => match decode (of_bits b) with Some t => Ok t | None => Err (Thrown "archive_exception") end
    | [] => Err (Thrown "archive_exception")
    end;
  storable _ := true;
|}.

Lemma toy_archive_laws {T} `{Countable T} : @ArchiveLaws T toy_archive.
Proof. intros t _. eexists. split; [done|]. split; [done|]. cbn. by rewrite of_bits_of, decode_encode. Qed.

(** Two messages and a half of the second have arrived. *)
Definition toy_frames : bytes := concat ((@frame string toy_archive) <$> ["REQ"; "NEXT"]%string).

Lemma messages_survive_socket_witness :
  exists k rest, @read_all string toy_archive 20 (take 15 toy_frames) = Ok (take k ["REQ"; "NEXT"]%string, rest) /\
    take 15 toy_frames = concat ((@frame string toy_archive) <$> take k ["REQ"; "NEXT"]%string) ++ rest /\
    @read string toy_archive rest = Ok (@Pending string) /\
    (drop 15 toy_frames = [] -> take k ["REQ"; "NEXT"]%string = ["REQ"; "NEXT"]%string /\ rest = []).
Proof.
  apply (@messages_survive_socket string toy_archive toy_archive_laws ["REQ"; "NEXT"]%string _ (drop 15 toy_frames) 20).
  - apply Forall_cons. split; [by split; [|vm_compute]|]. apply Forall_singleton. by split; [|vm_compute].
  - symmetry. apply take_drop.
  - vm_compute. lia.
Defined.

Example toy_frames_read :
  @read_all string toy_archive 30 toy_frames = Ok (["REQ"; "NEXT"]%string, []) /\
  take 8 toy_frames = String.list_ascii_of_string "      19".
Proof. by vm_compute. Qed.

End Connection.
