(* ===== verification/Archives.v ===== *)
(** * The archives of the messages

    What the program's [serialize], [save] and [load] functions put into a
    boost archive and read from it: [ForwardMessage]
    (include/mcs/ForwardMessage.h), [ReturnedBeliefState]
    (include/mcs/ReturnedBeliefState.h), [BackwardMessage]
    (include/mcs/BackwardMessage.h) and [NewBeliefState]
    (include/mcs/NewBeliefState.h), whose bit vectors are packed by the
    serializer of BitMagic.

    An object goes into an archive as the sequence of its members.  The text
    boost makes of it, and of pointers and containers, is the parameter
    [Boost] with the law that reading gives back what was written; the bytes
    the serializer of BitMagic makes of a bit vector are the parameter
    [BvSerializer] with the law that deserializing ors the vector into one of
    the same size.  [Archive] of Connection is implemented here for the three
    message types, and its law proved. *)

From stdpp Require Import strings.
From S2P Require Import Prelude BitMagic BeliefState ReturnedBeliefs Dispatch Connection.
Import BitMagic BeliefState ReturnedBeliefs Dispatch Connection.

Module Archives.

(** ** The libraries *)

#[warnings="-register-all"]
Inductive value :=
  | VNum (n : N)
  | VText (s : string)
  | VNull
  | VPtr (v : value)
  | VList (l : list value)
  | VObj (members : list value).

Class Boost := {
  oarchive : value -> bytes;
  iarchive : bytes -> option value;
}.

Class BoostLaws `{!Boost} : Prop := {
  iarchive_oarchive (v : value) : iarchive (oarchive v) = Some v;
  oarchive_nonempty (v : value) : oarchive v <> [];
}.

Class BvSerializer := {
  bv_serialize : bvector -> list N;
  bv_deserialize : bvector -> list N -> bvector;
}.

Class BvSerializerLaws `{!BvSerializer} : Prop := {
  serialize_nonempty (w : bvector) : bv_serialize w <> [];
  deserialize_serialize (v w : bvector) : wf w -> size_ w <= id_max -> size_ v = size_ w ->
    bv_deserialize v (bv_serialize w) = mk_bvector (size_ v) (N.lor (bits v) (bits w));
}.

(** ** Reading members *)

Definition archive_exception {A} : res A := Err (Thrown "archive_exception").

Definition get (ar : list value) : res (value * list value) :=
  match ar with v :: ar => mret (v, ar) | [] => archive_exception end.

Definition get_num (ar : list value) : res (N * list value) :=
  '(v, ar) ← get ar;
  match v with VNum n => mret (n, ar) | _ => archive_exception end.

(** The loops that read a buffer byte by byte. *)
Fixpoint get_nums (len : nat) (ar : list value) : res (list N * list value) :=
  match len with
  | O => mret ([], ar)
  | S len =>
      '(c, ar) ← get_num ar;
      '(cs, ar) ← get_nums len ar;
      mret (c :: cs, ar)
  end.

Section archives.
Context {BVS : BvSerializer}.

(** ** [NewBeliefState] *)

Definition bs_save (bs : NewBeliefState) (version : N) : res (list value) :=
  let status_buf := bv_serialize (status_bit bs) in
  let value_buf := bv_serialize (value_bit bs) in
  bit_size ← BeliefState.bs_size bs;
  mret ([VNum bit_size; VNum (N.of_nat (length status_buf))] ++ (VNum <$> status_buf) ++
        [VNum (N.of_nat (length value_buf))] ++ (VNum <$> value_buf) ++ [VNum version]).

Definition bs_load (ar : list value) (bs : NewBeliefState) : res (NewBeliefState * list value) :=
  '(bit_size, ar) ← get_num ar;
  _ ← assert (0 <? bit_size);
  n ← BeliefState.bs_size bs;
  bs ← (if negb (n =? bit_size) then bs_resize bs bit_size else mret bs);
  '(status_len, ar) ← get_num ar;
  _ ← assert (0 <? status_len);
  '(status_buf, ar) ← get_nums (N.to_nat status_len) ar;
  let bs := mk_bs (bv_deserialize (status_bit bs) status_buf) (value_bit bs) in
  '(value_len, ar) ← get_num ar;
  _ ← assert (0 <? value_len);
  '(value_buf, ar) ← get_nums (N.to_nat value_len) ar;
  let bs := mk_bs (status_bit bs) (bv_deserialize (value_bit bs) value_buf) in
  '(_, ar) ← get_num ar;
  mret (bs, ar).

(** ** [ReturnedBeliefState] and lists of pointers to them *)

Definition rbs_save (r : rvalue) : res value :=
  p ← match r.1 with
      | None => mret VNull
      | Some bs => ms ← bs_save bs 0; mret (VPtr (VObj ms))
      end;
  mret (VObj [p; VNum r.2]).

Definition rbs_load (v : value) : res rvalue :=
  match v with
  | VObj ar =>
      '(p, ar) ← get ar;
      belief_state ← match p with
        | VNull => mret None
        | VPtr (VObj ms) => '(bs, _) ← bs_load ms bs_default; mret (Some bs)
        | _ => archive_exception
        end;
      '(qid, ar) ← get_num ar;
      mret (belief_state, qid)
  | _ => archive_exception
  end.

Fixpoint rbsl_save (l : list rvalue) : res (list value) :=
  match l with
  | [] => mret []
  | r :: l => v ← rbs_save r; vs ← rbsl_save l; mret (VPtr v :: vs)
  end.

Fixpoint rbsl_load (vs : list value) : res (list rvalue) :=
  match vs with
  | [] => mret []
  | VPtr v :: vs => r ← rbs_load v; l ← rbsl_load vs; mret (r :: l)
  | _ :: _ => archive_exception
  end.

(** ** [BackwardMessage], whose only member points to the list *)

Definition bmess_save (l : list rvalue) : res value :=
  vs ← rbsl_save l;
  mret (VObj [VPtr (VList vs)]).

Definition bmess_load (v : value) : res (list rvalue) :=
  match v with
  | VObj ar =>
      '(p, ar) ← get ar;
      match p with VPtr (VList vs) => rbsl_load vs | _ => archive_exception end
  | _ => archive_exception
  end.

End archives.

(** ** [ForwardMessage] *)

Definition fwd_save (f : ForwardMessage) : value :=
  VObj [VNum (fm_qid f); VNum (fm_k1 f); VNum (fm_k2 f); VList (VNum <$> elements (history f))].

Definition fwd_load (v : value) : res ForwardMessage :=
  match v with
  | VObj ar =>
      '(qid, ar) ← get_num ar;
      '(k1, ar) ← get_num ar;
      '(k2, ar) ← get_num ar;
      '(h, ar) ← get ar;
      match h with
      | VList vs => '(ids, _) ← get_nums (length vs) vs; mret (mk_fwd qid k1 k2 (list_to_set ids))
      | _ => archive_exception
      end
  | _ => archive_exception
  end.

(** ** Archives *)

(** A bit vector without a bit beyond its size, of a size that fits. *)
Definition bv_storable (v : bvector) : bool := (size_ v <=? id_max) && (N.shiftr (bits v) (size_ v) =? 0).

(** [load] asserts that a belief state has a position. *)
Definition bs_storable (bs : NewBeliefState) : bool :=
  (0 <? size_ (value_bit bs)) && (size_ (status_bit bs) =? size_ (value_bit bs)) &&
  bv_storable (status_bit bs) && bv_storable (value_bit bs).

Definition rbs_storable (r : rvalue) : bool := match r.1 with None => true | Some bs => bs_storable bs end.

Section instances.
Context {BST : Boost} {BVS : BvSerializer}.

Definition open (b : bytes) : res value :=
  match iarchive b with Some v => mret v | None => archive_exception end.

#[export] Instance string_archive : Archive string := {|
  save s := mret (oarchive (VText s));
  load b := v ← open b; match v with VText s => mret s | _ => archive_exception end;
  storable _ := true;
|}.

#[export] Instance fwd_archive : Archive ForwardMessage := {|
  save f := mret (oarchive (fwd_save f));
  load b := v ← open b; fwd_load v;
  storable _ := true;
|}.

#[export] Instance rvalues_archive : Archive (list rvalue) := {|
  save l := v ← bmess_save l; mret (oarchive v);
  load b := v ← open b; bmess_load v;
  storable l := forallb rbs_storable l;
|}.

(** ** Round trips *)

Context {BSTL : BoostLaws} {BVSL : BvSerializerLaws}.

Lemma open_oarchive v : open (oarchive v) = Ok v.
Proof. unfold open. by rewrite iarchive_oarchive. Qed.

Lemma get_num_cons n ar : get_num (VNum n :: ar) = Ok (n, ar).
Proof. done. Qed.

Lemma get_nums_app cs ar : get_nums (length cs) ((VNum <$> cs) ++ ar) = Ok (cs, ar).
Proof. induction cs as [|c cs IH]; [done|]. cbn. by rewrite IH. Qed.

Lemma get_nums_all cs : get_nums (length (VNum <$> cs)) (VNum <$> cs) = Ok (cs, []).
Proof. rewrite length_fmap. pose proof (get_nums_app cs []) as E. by rewrite app_nil_r in E. Qed.

Lemma serialize_length w : assert (0 <? N.of_nat (length (bv_serialize w))) = Ok tt.
Proof. pose proof (serialize_nonempty w). destruct (bv_serialize w) as [|c l]; [done|]. unfold assert. by replace (0 <? _) with true by (symmetry; apply N.ltb_lt; cbn; lia). Qed.

Lemma deserialize_empty v w : wf w -> size_ w <= id_max -> size_ v = size_ w -> bits v = 0 ->
  bv_deserialize v (bv_serialize w) = w.
Proof. intros Hw Hm Hs Hb. rewrite deserialize_serialize by done. rewrite Hb, Hs, N.lor_0_l. by destruct w. Qed.

Lemma default_resized n : 0 < n -> n <= id_max ->
  (if negb (id_max =? n) then bs_resize bs_default n else Ok bs_default) = Ok (mk_bs (mk_bvector n 0) (mk_bvector n 0)).
Proof.
  intros H0 Hm. destruct (N.eqb_spec id_max n) as [<-|Hne]; [done|]. cbn [negb]. unfold bs_resize. assert_true.
  unfold bs_default, bvector_default, resize. cbn [status_bit value_bit size_].
  destruct (N.eqb_spec id_max n); [done|]. destruct (N.ltb_spec id_max n); [lia|].
  unfold set_range_no_check. cbn [bits]. by rewrite N.ldiff_0_l.
Qed.

Lemma bv_storable_wf v : bv_storable v = true <-> wf v /\ size_ v <= id_max.
Proof.
  unfold bv_storable, wf. rewrite andb_true_iff, N.leb_le, N.eqb_eq.
  enough (N.shiftr (bits v) (size_ v) = 0 <-> bits_below (bits v) (size_ v)) by tauto. split.
  - intros E i Hi. replace i with (i - size_ v + size_ v) by lia. by rewrite <- N.shiftr_spec', E, N.bits_0.
  - intros Hw. apply N.bits_inj. intros i. rewrite N.shiftr_spec', N.bits_0. apply Hw. lia.
Qed.

Lemma bs_load_save bs version ar : bs_storable bs = true ->
  exists ms, bs_save bs version = Ok ms /\ bs_load (ms ++ ar) bs_default = Ok (bs, ar).
Proof.
  unfold bs_storable. rewrite !andb_true_iff, N.ltb_lt, N.eqb_eq, !bv_storable_wf. intros [[[H0 Hs] [Ws _]] [Wv Hm]].
  remember (size_ (value_bit bs)) as n eqn:Hv. symmetry in Hv.
  unfold bs_save, BeliefState.bs_size. rewrite Hs, Hv, N.eqb_refl.
  change (assert true) with (Ok tt). rsimpl. eexists. split; [done|].
  unfold bs_load. rewrite <- !app_assoc. cbn [app]. rewrite get_num_cons. rsimpl. assert_true.
  change (BeliefState.bs_size bs_default) with (Ok id_max : res N). rsimpl.
  rewrite default_resized by done. rsimpl.
  do 2 (rewrite get_num_cons; rsimpl; rewrite serialize_length; rsimpl; rewrite Nat2N.id, get_nums_app; rsimpl).
  rewrite get_num_cons. rsimpl. cbn [status_bit value_bit].
  rewrite !deserialize_empty by (done || (cbn; congruence) || lia). by destruct bs.
Qed.

Lemma rbs_load_save r : rbs_storable r = true -> exists v, rbs_save r = Ok v /\ rbs_load v = Ok r.
Proof.
  destruct r as [[bs|] q]; [|by eexists]. intros Hwf. unfold rbs_save. cbn [fst snd].
  destruct (bs_load_save bs 0 [] Hwf) as (ms & -> & Hl). rewrite app_nil_r in Hl. rsimpl.
  eexists. split; [done|]. unfold rbs_load. cbn [get mbind mret]. rsimpl. by rewrite Hl.
Qed.

Lemma rbsl_load_save l : forallb rbs_storable l = true -> exists vs, rbsl_save l = Ok vs /\ rbsl_load vs = Ok l.
Proof.
  induction l as [|r l IH]; [by exists []|]. cbn [forallb]. intros [Hr (vs & Es & El)%IH]%andb_prop. cbn [rbsl_save].
  destruct (rbs_load_save r Hr) as (v & -> & Hv). rsimpl. rewrite Es. rsimpl.
  eexists. split; [done|]. cbn [rbsl_load]. rewrite Hv. rsimpl. by rewrite El.
Qed.

Lemma fwd_load_save f : fwd_load (fwd_save f) = Ok f.
Proof.
  unfold fwd_load, fwd_save. do 3 (rewrite get_num_cons; rsimpl). cbn [get mbind mret]. rsimpl. rewrite get_nums_all. rsimpl.
  rewrite list_to_set_elements_L. by destruct f.
Qed.

#[export] Instance string_laws : ArchiveLaws string.
Proof. intros s _. eexists. split; [done|]. split; [apply oarchive_nonempty|]. cbn. by rewrite open_oarchive. Qed.

#[export] Instance fwd_laws : ArchiveLaws ForwardMessage.
Proof. intros f _. eexists. split; [done|]. split; [apply oarchive_nonempty|]. cbn -[fwd_save fwd_load]. rewrite open_oarchive. rsimpl. apply fwd_load_save. Qed.

#[export] Instance rvalues_laws : ArchiveLaws (list rvalue).
Proof.
  intros l Hl. destruct (rbsl_load_save l Hl) as (vs & Es & El). cbn. unfold bmess_save. rewrite Es. rsimpl.
  eexists. split; [done|]. split; [apply oarchive_nonempty|]. rewrite open_oarchive. rsimpl. done.
Qed.

End instances.

(** ** A concrete archive

    The members in prefix order, each as the digits of a number behind a
    comma. *)

Fixpoint to_tree (v : value) : gen_tree (N + string) :=
  match v with
  | VNum n => GenLeaf (inl n)
  | VText s => GenLeaf (inr s)
  | VNull => GenNode 0 []
  | VPtr v => GenNode 1 [to_tree v]
  | VList l => GenNode 2 (map to_tree l)
  | VObj l => GenNode 3 (map to_tree l)
  end.

Fixpoint of_tree (t : gen_tree (N + string)) : option value :=
  match t with
  | GenLeaf (inl n) => Some (VNum n)
  | GenLeaf (inr s) => Some (VText s)
  | GenNode 0 _ => Some VNull
  | GenNode 1 ts => vs ← mapM of_tree ts; VPtr <$> head vs
  | GenNode 2 ts => VList <$> mapM of_tree ts
  | GenNode _ ts => VObj <$> mapM of_tree ts
  end.

Lemma of_to_tree : forall v, of_tree (to_tree v) = Some v.
Proof.
  assert (Hl : forall l, Forall (fun v => of_tree (to_tree v) = Some v) l -> mapM of_tree (map to_tree l) = Some l).
  { induction 1 as [|v l Hv _ IH]; [done|]. cbn. by rewrite Hv, IH. }
  fix IH 1. intros [n|s| |v|l|l]; cbn [to_tree of_tree]; [done|done|done| | |].
  - cbn. by rewrite IH.
  - rewrite Hl; [done|]. induction l; constructor; [apply IH|done].
  - rewrite Hl; [done|]. induction l; constructor; [apply IH|done].
Qed.

Definition item : Type := nat * nat + (N + string).

Fixpoint to_text (l : list item) : bytes :=
  match l with [] => [] | x :: l => bits_of (encode x) ++ ","%char :: to_text l end.

Fixpoint split_comma (b : bytes) : bytes * bytes :=
  match b with
  | [] => ([], [])
  | c :: b => if bool_decide (c = ","%char) then ([], b) else let '(x, y) := split_comma b in (c :: x, y)
  end.

Fixpoint of_text (fuel : nat) (b : bytes) : option (list item) :=
  match b, fuel with
  | [], _ => Some []
  | _, O => None
  | _, S fuel => let '(x, b) := split_comma b in x ← decode (of_bits x); (x ::.) <$> of_text fuel b
  end.

Lemma split_comma_bits p b : split_comma (bits_of p ++ ","%char :: b) = (bits_of p, b).
Proof. induction p as [p IH|p IH|]; cbn; by rewrite ?IH. Qed.

Lemma of_to_text l : forall fuel, (length (to_text l) <= fuel)%nat -> of_text fuel (to_text l) = Some l.
Proof.
  induction l as [|x l IH]; intros fuel Hf; [by destruct fuel|]. cbn [to_text] in *. rewrite length_app in Hf. cbn in Hf.
  destruct fuel as [|fuel]; [lia|].
  assert (E : of_text (S fuel) (bits_of (encode x) ++ ","%char :: to_text l) =
    (let '(x, b) := split_comma (bits_of (encode x) ++ ","%char :: to_text l) in x ← decode (of_bits x); (x ::.) <$> of_text fuel b)).
  { by destruct (bits_of (encode x)). }
  rewrite E, split_comma_bits, of_bits_of, decode_encode. cbn. by rewrite IH by lia.
Qed.

Definition comma_boost : Boost := {|
  oarchive v := "!"%char :: to_text (gen_tree_to_list (to_tree v));
  iarchive b :=
    match b with
    | [] => None
    | _ :: b => l ← of_text (length b) b; t ← gen_tree_of_list [] l; of_tree t
    end;
|}.

Lemma comma_boost_laws : @BoostLaws comma_boost.
Proof.
  split; intros v; [|done]. cbn [iarchive oarchive comma_boost]. rewrite of_to_text by lia. cbn.
  rewrite <- (app_nil_r (gen_tree_to_list _)), gen_tree_of_to_list. cbn. apply of_to_tree.
Qed.

(** The text of a request is short. *)
Lemma length_bits_of p k : N.pos p < 2 ^ N.of_nat k -> (length (bits_of p) < k)%nat.
Proof.
  revert k. induction p as [p IH|p IH|]; intros k Hk; cbn [bits_of length];
    (destruct k as [|k]; [change (2 ^ N.of_nat 0) with 1 in Hk; lia|]); [..|lia];
    rewrite Nat2N.inj_succ, N.pow_succ_r' in Hk; specialize (IH k ltac:(lia)); lia.
Qed.

Lemma length_number n : n < W64 -> (length (bits_of (encode (inr (inl n) : item))) < 68)%nat.
Proof.
  intros Hn. apply length_bits_of. assert (encode (inr (inl n) : item) = (N.succ_pos n)~0~1%positive) as -> by (by destruct n).
  pose proof (N.succ_pos_spec n). change (2 ^ N.of_nat 68) with (16 * W64). lia.
Qed.

(** A bit vector as its number. *)
Definition plain_bits : BvSerializer := {|
  bv_serialize w := [bits w];
  bv_deserialize v c := match c with [b] => mk_bvector (size_ v) (N.lor (bits v) b) | _ => v end;
|}.

Lemma plain_bits_laws : @BvSerializerLaws plain_bits.
Proof. by split. Qed.

(** Well-formed belief states with a position can be stored. *)
Lemma wf_storable n bs : 0 < n -> bs_wf n bs -> bs_storable bs = true.
Proof.
  intros H0 [Hs Hv Hm Ws Wv _]. unfold bs_storable. rewrite !andb_true_iff, N.ltb_lt, N.eqb_eq, !bv_storable_wf.
  rewrite Hs, Hv. by repeat split.
Qed.

(** A belief state that stores nothing is saved, but loading it aborts. *)
Lemma empty_state_not_loaded {BVS : BvSerializer} : exists ms, bs_save (mk_bs (mk_bvector 0 0) (mk_bvector 0 0)) 0 = Ok ms /\
  bs_load ms bs_default = Err AssertFailed.
Proof. by eexists. Qed.

(** A record of an answer: a well-formed belief state with a position, or the
    end marker. *)
Definition record_wf (r : rvalue) : Prop :=
  match r.1 with None => True | Some bs => exists n, 0 < n /\ bs_wf n bs end.

(** C34.  What [serialize], [save] and [load] of the messages write and read is a
    round trip: a request is read back with its query, its range and its
    history, and an answer with the same records in the same order, each with
    its query and its belief state, end markers included, whatever sizes the
    belief states have, as long as they are well formed and have a position.
    Reading back a belief state without a position fails an assertion.  About
    the libraries it is assumed that reading an archive gives back the members
    that were written, and that deserializing a bit vector ors it into one of
    its size. *)
Theorem messages_load_back {BST : Boost} {BVS : BvSerializer} {BSTL : BoostLaws} {BVSL : BvSerializerLaws} f l :
  Forall record_wf l ->
  (exists b, save f = Ok b /\ load b = Ok (f : ForwardMessage)) /\
  (exists b, save l = Ok b /\ load b = Ok (l : list rvalue)) /\
  forall qid, exists b, save [(Some (mk_bs (mk_bvector 0 0) (mk_bvector 0 0)), qid) : rvalue] = Ok b /\
    (load b : res (list rvalue)) = Err AssertFailed.
Proof.
  intros Hl. split; [|split].
  - destruct (fwd_laws f eq_refl) as (b & ? & _ & ?). by exists b.
  - destruct (rvalues_laws l) as (b & ? & _ & ?); [|by exists b]. cbn [storable rvalues_archive].
    apply forallb_forall. intros r Hr%list_elem_of_In. rewrite Forall_forall in Hl. specialize (Hl r Hr). unfold record_wf, rbs_storable in *.
    destruct r.1 as [bs|]; [|done]. destruct Hl as (n & H0 & Hw). by apply (wf_storable n).
  - intros qid. eexists. split; [reflexivity|]. cbn [load rvalues_archive]. rewrite open_oarchive. reflexivity.
Qed.

Lemma messages_load_back_witness :
  let f := mk_fwd 7 2 5 {[1; 3]} in
  let l := [(Some (mk_bs (mk_bvector 3 7) (mk_bvector 3 5)), 7); (None, 7)] : list rvalue in
  let A := fwd_archive (BST := comma_boost) in let B := rvalues_archive (BST := comma_boost) (BVS := plain_bits) in
  (exists b, save f = Ok b /\ load b = Ok f) /\ (exists b, save l = Ok b /\ load b = Ok l) /\
  forall qid, exists b, save [(Some (mk_bs (mk_bvector 0 0) (mk_bvector 0 0)), qid) : rvalue] = Ok b /\
    (load b : res (list rvalue)) = Err AssertFailed.
Proof.
  apply (messages_load_back (BSTL := comma_boost_laws) (BVSL := plain_bits_laws) (BST := comma_boost) (BVS := plain_bits)).
  apply Forall_cons. split; [|by apply Forall_singleton]. exists 3. split; [done|].
  assert (bits_below 7 3) by (by apply lt_pow2_bits). assert (bits_below 5 3) by (by apply lt_pow2_bits).
  split; [done..|]. intros i Hi.
  cbn [bits status_bit value_bit] in *. change 5 with (N.land 5 7) in Hi. rewrite N.land_spec in Hi. by apply andb_true_iff in Hi as [_ ?].
Defined.

End Archives.
