(* ===== verification/Sessions.v ===== *)
(** * Sessions between server processes

    The threads and handlers that carry requests and answers over a
    connection: [NewNeighborOut] (src/network/NewNeighborOut.cpp) writes
    requests, [NewServer] and [NewHandler] (src/network/NewServer.cpp,
    NewHandler.cpp) read them, [NewOutputThread::write_result] writes answers
    and [NewNeighborThread] (src/network/NewNeighborThread.cpp) reads them.

    The asynchronous reads make every reader a state machine: a [phase] says
    which handler is bound to the pending read.  All handlers of a server run
    in the one thread of its [io_service], so a step of one connection is
    atomic.  What a handler sends through the message dispatcher is recorded in
    order as [post]s; the queues that receive them are those of [Dispatch].
    Bytes arrive in any pieces. *)

From S2P Require Import Prelude BitMagic BeliefState QueryID ReturnedBeliefs MessageQueue Dispatch Connection Archives.
Import BitMagic BeliefState Dispatch Connection Archives.

Module Sessions.

Abbreviation rvalue := ReturnedBeliefs.rvalue.

(** ** Headers: include/mcs/NewMessage.h *)

Definition HEADER_REQ_DMCS : string := "DMCS REQ DMCS".
Definition HEADER_ANS : string := "DMCS ANS".
Definition HEADER_EOF : string := "DMCS EOF".
Definition HEADER_NEXT : string := "DMCS NEXT".
Definition HEADER_TERMINATE : string := "DMCS TERMINATE".
Definition INIT_PHASE1_COMPLETED : string := "INIT PHASE1 COMPLETED".
Definition INIT_START_PHASE2 : string := "INIT START PHASE2".

(** [s.find(pat) != std::string::npos]. *)
Definition contains (pat s : string) : bool :=
  match String.index 0 pat s with Some _ => true | None => false end.

(** Messages to other threads; [None] is the null pointer. *)
Inductive post :=
  | ToRequestDispatcher (m : option ForwardMessage)
  | ToOutputDispatcherNull
  | ToJoinerDispatcher (m : option (N * N))
  | ToOutputNull (offset : N)
  | ToNeighborIn (offset : N) (rbs : rvalue).

Section sessions.
Context {BST : Boost} {BVS : BvSerializer}.

(** [conn->write]: it throws when the data is too long. *)
Definition conn_write {T} `{!Archive T} (out : bytes) (t : T) : res bytes :=
  b ← write t;
  match b with Some b => mret (out ++ b) | None => Err (Thrown "invalid_argument") end.

(** [conn->async_read] as its handlers use it: they throw on an error. *)
Definition conn_read {T} `{!Archive T} (sock : bytes) : res (option (T * bytes)) :=
  c ← read sock;
  match c with
  | Pending => mret None
  | Failed => Err (Thrown "invalid_argument")
  | Completed t rest => mret (Some (t, rest))
  end.

(** ** Writing requests: [NewNeighborOut] *)

(** One turn of the loop on a message received from [NEIGHBOR_OUT_MQ];
    [false] is the [break]. *)
Definition neighbor_out_turn (fwd_mess : ForwardMessage) (out : bytes) : res (bytes * bool) :=
  if QueryID.is_shutdown (fm_qid fwd_mess) then
    out ← conn_write out HEADER_TERMINATE;
    mret (out, false)
  else
    let header := if QueryID.is_request (fm_qid fwd_mess) then HEADER_REQ_DMCS else ""%string in
    out ← conn_write out header;
    out ← conn_write out fwd_mess;
    mret (out, true).

Fixpoint neighbor_out (msgs : list ForwardMessage) (out : bytes) : res (bytes * bool) :=
  match msgs with
  | [] => mret (out, true)
  | m :: msgs =>
      '(out, go) ← neighbor_out_turn m out;
      if go : bool then neighbor_out msgs out else mret (out, false)
  end.

(** ** Reading requests: [NewServer] and [NewHandler] *)

Inductive phase :=
  | AwaitConnectionHeader   (* NewServer::handle_read_header *)
  | AwaitMessage            (* NewHandler::handle_read_message *)
  | AwaitHeader             (* NewHandler::handle_read_header *)
  | AwaitFinal              (* NewHandler::handle_finalize *)
  | Closed.

Record conn := mk_conn {
  c_phase : phase;
  first_round : bool;
  output_sender : option N;   (* the offset of the handler's output thread *)
  c_in : bytes;
}.

(** The server: its dispatcher of queues, the table of the output dispatcher,
    [handler_vec.size()], the handlers that were shut down, whether it has a
    joiner dispatcher, whether it was shut down, and what was sent. *)
Record server := mk_server {
  s_md : dispatcher;
  s_od : gmap N N;
  handlers : N;
  count_shutdown_handlers : N;
  has_joiner_dispatcher : bool;
  was_shutdown : bool;
  posts : list post;
}.

Definition add_posts (s : server) (l : list post) : server :=
  mk_server (s_md s) (s_od s) (handlers s) (count_shutdown_handlers s) (has_joiner_dispatcher s)
    (was_shutdown s) (posts s ++ l).

(** [NewServer::first_initialization_phase], without the layout of belief
    states ([BeliefStateOffset]); the number of neighbors is 0 for a null
    pointer. *)
Definition first_initialization_phase (queue_size : N) (neighbors : option N) : res server :=
  md ← md_new queue_size (default 0 neighbors);
  mret (mk_server md ∅ 0 0 false false []).

(** [NewServer::second_initialization_phase], without the creation of the
    threads. *)
Definition second_initialization_phase (neighbors : option N) (s : server) : server :=
  mk_server (s_md s) (s_od s) (handlers s) (count_shutdown_handlers s)
    (match neighbors with Some _ => true | None => has_joiner_dispatcher s end) (was_shutdown s) (posts s).

Definition new_conn : conn := mk_conn AwaitConnectionHeader true None [].

(** [NewServer::handle_read_header]: other headers are ignored, and so is
    everything that follows on the connection. *)
Definition server_read_header (header : string) (rest : bytes) (c : conn) (s : server) : conn * server :=
  if contains HEADER_REQ_DMCS header then
    (mk_conn AwaitMessage true None rest,
     mk_server (s_md s) (s_od s) (handlers s + 1) (count_shutdown_handlers s) (has_joiner_dispatcher s)
       (was_shutdown s) (posts s))
  else (mk_conn Closed (first_round c) (output_sender c) rest, s).

(** [NewOutputThread::init_mq] of a new output thread. *)
Definition init_mq (invoker : N) (s : server) : res (server * N) :=
  '(md, offset) ← createAndRegisterMQ (s_md s) OUTPUT_MQ;
  od ← registerIdOffset (s_od s) invoker offset;
  mret (mk_server md od (handlers s) (count_shutdown_handlers s) (has_joiner_dispatcher s)
          (was_shutdown s) (posts s), offset).

Definition handle_read_message (mess : ForwardMessage) (rest : bytes) (c : conn) (s : server)
    : res (conn * server) :=
  '(s, sender) ← (if first_round c then
                    '(s, offset) ← init_mq (QueryID.invoker_from_qid (fm_qid mess)) s;
                    mret (s, Some offset)
                  else mret (s, output_sender c));
  mret (mk_conn AwaitHeader false sender rest, add_posts s [ToRequestDispatcher (Some mess)]).

Definition handle_read_header (header : string) (rest : bytes) (c : conn) (s : server)
    : res (conn * server) :=
  if contains HEADER_REQ_DMCS header || contains HEADER_NEXT header then
    mret (mk_conn AwaitMessage (first_round c) (output_sender c) rest, s)
  else
    _ ← assert (contains HEADER_TERMINATE header);
    mret (mk_conn AwaitFinal (first_round c) (output_sender c) rest, s).

(** [NewServer::shutdown], up to the end of the threads. *)
Definition shutdown (s : server) : server :=
  mk_server (s_md s) (s_od s) (handlers s) (count_shutdown_handlers s) (has_joiner_dispatcher s) true
    (posts s ++ [ToRequestDispatcher None; ToOutputDispatcherNull]
       ++ (if has_joiner_dispatcher s then [ToJoinerDispatcher None] else [])).

Definition isShutdown (s : server) : res bool :=
  _ ← assert (count_shutdown_handlers s <=? handlers s);
  mret (count_shutdown_handlers s =? handlers s).

Definition notify_shutdown_handler (s : server) : server :=
  mk_server (s_md s) (s_od s) (handlers s) (u64_add (count_shutdown_handlers s) 1) (has_joiner_dispatcher s)
    (was_shutdown s) (posts s).

Definition handle_finalize (mess : ForwardMessage) (rest : bytes) (c : conn) (s : server)
    : res (conn * server) :=
  _ ← assert (QueryID.is_shutdown (fm_qid mess));
  offset ← not_null (output_sender c);
  let s := add_posts s [ToOutputNull offset; ToRequestDispatcher (Some mess)] in
  let s := notify_shutdown_handler s in
  b ← isShutdown s;
  let s := if b : bool then shutdown s else s in
  mret (mk_conn Closed (first_round c) (output_sender c) rest, s).

(** One completion of the pending read, if the bytes for it are there. *)
Definition conn_step (cs : conn * server) : res (option (conn * server)) :=
  let '(c, s) := cs in
  match c_phase c with
  | AwaitConnectionHeader =>
      r ← conn_read (c_in c);
      match r with
      | None => mret None
      | Some (header, rest) => mret (Some (server_read_header header rest c s))
      end
  | AwaitMessage =>
      r ← conn_read (c_in c);
      match r with
      | None => mret None
      | Some (mess, rest) => Some <$> handle_read_message mess rest c s
      end
  | AwaitHeader =>
      r ← conn_read (c_in c);
      match r with
      | None => mret None
      | Some (header, rest) => Some <$> handle_read_header header rest c s
      end
  | AwaitFinal =>
      r ← conn_read (c_in c);
      match r with
      | None => mret None
      | Some (mess, rest) => Some <$> handle_finalize mess rest c s
      end
  | Closed => mret None
  end.

(** The handlers that run when some bytes arrive. *)
Definition conn_arrive (cs : conn * server) (chunk : bytes) : res (conn * server) :=
  let '(c, s) := cs in
  let inp := c_in c ++ chunk in
  settle conn_step (S (length inp)) (mk_conn (c_phase c) (first_round c) (output_sender c) inp, s).

(** ** Answers: [NewOutputThread::write_result] and [NewNeighborThread] *)

(** The part of [write_result] that uses the connection. *)
Definition write_answer (out : bytes) (rbsl : list rvalue) : res bytes :=
  out ← conn_write out HEADER_ANS;
  conn_write out rbsl.

Inductive nphase :=
  | AwaitAnswerHeader   (* NewNeighborThread::handle_read_header *)
  | AwaitAnswer         (* NewNeighborThread::handle_read_message *)
  | NClosed.

Record nconn := mk_nconn { n_phase : nphase; n_in : bytes; n_posts : list post }.

Definition neighbor_read_header (header : string) (rest : bytes) (c : nconn) : res nconn :=
  _ ← assert (contains HEADER_ANS header || contains HEADER_TERMINATE header);
  if contains HEADER_TERMINATE header then mret (mk_nconn NClosed rest (n_posts c))
  else mret (mk_nconn AwaitAnswer rest (n_posts c)).

Definition neighbor_read_message (neighbor_offset : N) (result_list : list rvalue) (rest : bytes) (c : nconn)
    : nconn :=
  mk_nconn AwaitAnswerHeader rest
    (n_posts c ++ [ToJoinerDispatcher (Some (neighbor_offset, N.of_nat (length result_list)))]
       ++ (ToNeighborIn neighbor_offset <$> result_list)).

Definition nconn_step (neighbor_offset : N) (c : nconn) : res (option nconn) :=
  match n_phase c with
  | AwaitAnswerHeader =>
      r ← conn_read (n_in c);
      match r with
      | None => mret None
      | Some (header, rest) => Some <$> neighbor_read_header header rest c
      end
  | AwaitAnswer =>
      r ← conn_read (n_in c);
      match r with
      | None => mret None
      | Some (result_list, rest) => mret (Some (neighbor_read_message neighbor_offset result_list rest c))
      end
  | NClosed => mret None
  end.

Definition nconn_arrive (neighbor_offset : N) (c : nconn) (chunk : bytes) : res nconn :=
  let inp := n_in c ++ chunk in
  settle (nconn_step neighbor_offset) (S (length inp)) (mk_nconn (n_phase c) inp (n_posts c)).

(** ** The messages of a session *)

Context {BSTL : BoostLaws} {BVSL : BvSerializerLaws}.

Inductive item :=
  | Header (h : string)
  | Message (f : ForwardMessage)
  | Answer (l : list rvalue).

Definition item_bytes (i : item) : bytes :=
  match i with Header h => frame h | Message f => frame f | Answer l => frame l end.

Definition item_ok (i : item) : Prop :=
  match i with Header h => sendable h | Message f => sendable f | Answer l => sendable l end.

#[local] Instance item_ok_dec i : Decision (item_ok i).
Proof. destruct i; cbn; unfold sendable; apply _. Defined.

Lemma conn_write_ok {T} `{!Archive T, !ArchiveLaws T} out (t : T) :
  sendable t -> conn_write out t = Ok (out ++ frame t).
Proof. intros Ht. unfold conn_write. by destruct (write_frame t Ht) as [-> _]. Qed.

Lemma conn_read_ok {T} `{!Archive T, !ArchiveLaws T} (t : T) rest :
  sendable t -> conn_read (frame t ++ rest) = Ok (Some (t, rest)).
Proof. intros Ht. unfold conn_read. by rewrite read_written. Qed.

Lemma conn_read_part {T} `{!Archive T, !ArchiveLaws T} (t : T) p q :
  sendable t -> frame t = p ++ q -> q <> [] -> conn_read p = Ok (@None (T * bytes)).
Proof. intros Ht E Hq. unfold conn_read. by rewrite (read_incomplete t p q). Qed.

Lemma conn_read_nil {T} `{!Archive T} : conn_read [] = Ok (@None (T * bytes)).
Proof. done. Qed.

Lemma item_bytes_nonempty i : item_ok i -> item_bytes i <> [].
Proof.
  destruct i as [h|f|l]; cbn; intros Hi E; apply frame_long in Hi; rewrite E in Hi; cbn in Hi; lia.
Qed.

(** *** The server's side *)

Definition with_in (cs : conn * server) (p : bytes) : conn * server :=
  (mk_conn (c_phase cs.1) (first_round cs.1) (output_sender cs.1) p, cs.2).

Definition of_res {A} (r : res A) : option A := match r with Ok a => Some a | Err _ => None end.

(** What a complete item does. *)
Definition conn_trans (cs : conn * server) (i : item) : option (conn * server) :=
  let '(c, s) := cs in
  if decide (item_ok i) then
    match c_phase c, i with
    | AwaitConnectionHeader, Header h => Some (server_read_header h [] c s)
    | AwaitMessage, Message f => of_res (handle_read_message f [] c s)
    | AwaitHeader, Header h => of_res (handle_read_header h [] c s)
    | AwaitFinal, Message f => of_res (handle_finalize f [] c s)
    | _, _ => None
    end
  else None.

Lemma conn_trans_ok c s i :
  item_ok i -> conn_trans (c, s) i =
    match c_phase c, i with
    | AwaitConnectionHeader, Header h => Some (server_read_header h [] c s)
    | AwaitMessage, Message f => of_res (handle_read_message f [] c s)
    | AwaitHeader, Header h => of_res (handle_read_header h [] c s)
    | AwaitFinal, Message f => of_res (handle_finalize f [] c s)
    | _, _ => None
    end.
Proof. intros Hi. unfold conn_trans. by rewrite decide_True. Qed.

Lemma of_res_some {A} (r : res A) a : of_res r = Some a <-> r = Ok a.
Proof. destruct r; naive_solver. Qed.

(** The handlers leave the bytes behind their message alone. *)
Lemma server_read_header_rest h rest cs p :
  server_read_header h rest (with_in cs p).1 cs.2 = with_in (server_read_header h [] cs.1 cs.2) rest.
Proof. unfold server_read_header. cbn. by destruct (contains _ _). Qed.

Lemma handle_read_message_rest f rest cs p :
  handle_read_message f rest (with_in cs p).1 cs.2 =
  (fun cs => with_in cs rest) <$> handle_read_message f [] cs.1 cs.2.
Proof.
  unfold handle_read_message. cbn. destruct (first_round cs.1); [|done].
  destruct (init_mq _ _) as [[s o]|e]; done.
Qed.

Lemma handle_read_header_rest h rest cs p :
  handle_read_header h rest (with_in cs p).1 cs.2 =
  (fun cs => with_in cs rest) <$> handle_read_header h [] cs.1 cs.2.
Proof. unfold handle_read_header. cbn. destruct (_ || _); [done|]. by destruct (contains _ _). Qed.

Lemma handle_finalize_rest f rest cs p :
  handle_finalize f rest (with_in cs p).1 cs.2 =
  (fun cs => with_in cs rest) <$> handle_finalize f [] cs.1 cs.2.
Proof.
  unfold handle_finalize. cbn [with_in fst output_sender first_round]. destruct (QueryID.is_shutdown _); [|done].
  change (assert true) with (Ok tt). rsimpl. destruct (not_null _) as [o|]; [|done]. rsimpl.
  destruct (isShutdown _) as [b|]; done.
Qed.

Lemma conn_step_full cs i cs' rest :
  conn_trans cs i = Some cs' -> conn_step (with_in cs (item_bytes i ++ rest)) = Ok (Some (with_in cs' rest)).
Proof.
  destruct cs as [c s]. unfold conn_trans. destruct (decide (item_ok i)) as [Hi|]; [|done].
  unfold conn_step, with_in at 1. cbn [fst snd c_phase c_in].
  destruct (c_phase c) eqn:Ep, i; try done; cbn [item_bytes item_ok] in *; rewrite conn_read_ok by done; rsimpl;
    rewrite ?of_res_some; intros E.
  - injection E as <-. pose proof (server_read_header_rest h rest (c, s) (frame h ++ rest)) as H. cbn [fst snd] in H. by rewrite <- H.
  - pose proof (handle_read_message_rest f rest (c, s) (frame f ++ rest)) as H. cbn [fst snd with_in] in H.
    rewrite Ep in H. by rewrite H, E.
  - pose proof (handle_read_header_rest h rest (c, s) (frame h ++ rest)) as H. cbn [fst snd with_in] in H.
    rewrite Ep in H. by rewrite H, E.
  - pose proof (handle_finalize_rest f rest (c, s) (frame f ++ rest)) as H. cbn [fst snd with_in] in H.
    rewrite Ep in H. by rewrite H, E.
Qed.

Lemma conn_step_part cs i cs' p q :
  conn_trans cs i = Some cs' -> item_bytes i = p ++ q -> q <> [] -> conn_step (with_in cs p) = Ok None.
Proof.
  destruct cs as [c s]. unfold conn_trans. destruct (decide (item_ok i)) as [Hi|]; [|done].
  intros E Hpq Hq. unfold conn_step, with_in. cbn [fst snd c_phase c_in].
  destruct (c_phase c), i; try done; cbn [item_bytes item_ok] in *; by rewrite (conn_read_part _ p q Hi Hpq Hq).
Qed.

Lemma conn_step_idle cs : conn_step (with_in cs []) = Ok None.
Proof. destruct cs as [c s]. unfold conn_step, with_in. cbn. by destruct (c_phase c). Qed.

Lemma conn_trans_nonempty cs i cs' : conn_trans cs i = Some cs' -> item_bytes i <> [].
Proof.
  destruct cs as [c s]. unfold conn_trans. destruct (decide (item_ok i)) as [Hi|]; [|done]. intros _.
  by apply item_bytes_nonempty.
Qed.

(** In whatever pieces the bytes of a session arrive, the server handles its
    items one by one. *)
Lemma conn_session items chunks cs z :
  c_in cs.1 = [] -> transs conn_trans cs items = Some z ->
  concat chunks = concat (item_bytes <$> items) -> chunks <> [] ->
  foldM conn_arrive cs chunks = Ok (with_in z []).
Proof.
  intros Hin Hz E Hne. replace cs with (with_in cs []) at 1 by (destruct cs as [[]]; cbn in Hin; by subst).
  apply (arrive_all conn_step item_bytes conn_trans with_in conn_trans_nonempty conn_step_idle conn_step_full
    conn_step_part conn_arrive) with (l := items); [|done|done|done].
  intros cs' p chunk. exists (S (length (p ++ chunk))). split; [lia|]. by destruct cs' as [c s].
Qed.

(** The archives of the fixed headers are short. *)
Context (Hheaders : Forall sendable [HEADER_REQ_DMCS; HEADER_ANS; HEADER_NEXT; HEADER_TERMINATE]).

Lemma headers_ok : sendable HEADER_REQ_DMCS /\ sendable HEADER_ANS /\ sendable HEADER_NEXT /\
  sendable HEADER_TERMINATE.
Proof. pose proof Hheaders as H. rewrite !Forall_cons in H. tauto. Qed.

Definition request_ok (f : ForwardMessage) : Prop := QueryID.is_request (fm_qid f) = true /\ sendable f.

Lemma request_no_shutdown qid : QueryID.is_request qid = true -> QueryID.is_shutdown qid = false.
Proof.
  unfold QueryID.is_request, QueryID.is_shutdown. intros E%N.eqb_eq. rewrite E. done.
Qed.

(** What [NewNeighborOut] writes for a request. *)
Definition request_items (f : ForwardMessage) : list item := [Header HEADER_REQ_DMCS; Message f].

Lemma neighbor_out_ok fs rest out :
  Forall request_ok fs ->
  neighbor_out (fs ++ rest) out = neighbor_out rest (out ++ concat (item_bytes <$> (fs ≫= request_items))).
Proof.
  intros Hfs. revert out. induction Hfs as [|f fs [Hr Hf] _ IH]; intros out; cbn [app neighbor_out].
  - cbn. by rewrite app_nil_r.
  - unfold neighbor_out_turn. rewrite (request_no_shutdown _ Hr), Hr.
    destruct headers_ok as [Hreq _].
    rewrite (conn_write_ok _ _ Hreq). rsimpl. rewrite (conn_write_ok _ _ Hf). rsimpl. rewrite IH, bind_cons.
    cbn. by rewrite <- !app_assoc.
Qed.

(** Queues of output threads can be added. *)
Definition output_vec (s : server) (v : queue_vec) : Prop :=
  cmqs (s_md s) !! N.to_nat (OUTPUT_MQ - SEPARATOR) = Some v.

(** A server that has been initialized can take connections. *)
Lemma initialized_output_vec k nbs :
  exists s, first_initialization_phase k nbs = Ok s /\
    output_vec (second_initialization_phase nbs s) [] /\ s_od (second_initialization_phase nbs s) = ∅.
Proof. unfold first_initialization_phase. rewrite md_new_ok. rsimpl. by eexists. Qed.

Lemma init_mq_ok invoker s v :
  output_vec s v ->
  init_mq invoker s =
    match s_od s !! invoker with
    | Some o => if N.of_nat (length v) =? o then
                  Ok (mk_server (set_vec (s_md s) (OUTPUT_MQ - SEPARATOR) (v ++ [Some (MessageQueue.MessageQueue.queue_new (queue_size (s_md s)))]))
                     (s_od s) (handlers s) (count_shutdown_handlers s)
                     (has_joiner_dispatcher s) (was_shutdown s) (posts s), N.of_nat (length v))
                else Err AssertFailed
    | None => Ok (mk_server (set_vec (s_md s) (OUTPUT_MQ - SEPARATOR) (v ++ [Some (MessageQueue.MessageQueue.queue_new (queue_size (s_md s)))]))
                     (<[invoker := N.of_nat (length v)]> (s_od s)) (handlers s) (count_shutdown_handlers s)
                     (has_joiner_dispatcher s) (was_shutdown s) (posts s), N.of_nat (length v))
    end.
Proof.
  intros Hv. unfold init_mq, createAndRegisterMQ, registerIdOffset.
  change (assert (two_dim OUTPUT_MQ)) with (Ok tt). rsimpl.
  rewrite (proj2 (vec_at_ok _ _ _) Hv). rsimpl. rewrite length_app. cbn [length].
  replace (N.of_nat (length v + 1) - 1) with (N.of_nat (length v)) by lia.
  destruct (s_od s !! invoker) as [o|]; [|done]. by destruct (N.eqb_spec (N.of_nat (length v)) o).
Qed.

Lemma later_requests fs : Forall request_ok fs -> forall c s,
  c_phase c = AwaitHeader -> first_round c = false -> c_in c = [] ->
  transs conn_trans (c, s) (fs ≫= request_items) = Some (c, add_posts s (ToRequestDispatcher ∘ Some <$> fs)).
Proof.
  induction 1 as [|f fs [Hr Hf] _ IH]; intros c s Hp Hfr Hin.
  - cbn. unfold add_posts. rewrite app_nil_r. by destruct s.
  - rewrite bind_cons. cbn [request_items app transs].
    destruct headers_ok as [Hreq _].
    rewrite conn_trans_ok by exact Hreq. rewrite Hp.
    unfold handle_read_header. change (contains HEADER_REQ_DMCS HEADER_REQ_DMCS) with true. cbn [orb mret res_ret of_res mbind option_bind].
    rewrite conn_trans_ok by exact Hf. cbn [c_phase]. unfold handle_read_message.
    cbn [first_round output_sender]. rewrite Hfr. rsimpl. cbn [of_res mret res_ret mbind option_bind].
    replace (mk_conn AwaitHeader false (output_sender c) []) with c by (destruct c; cbn in *; congruence).
    rewrite IH by done. unfold add_posts. cbn. by rewrite <- app_assoc.
Qed.

(** The state of a server that has taken a connection. *)
Definition connected (s : server) (v : queue_vec) (invoker : N) (l : list post) : server :=
  mk_server (set_vec (s_md s) (OUTPUT_MQ - SEPARATOR) (v ++ [Some (MessageQueue.MessageQueue.queue_new (queue_size (s_md s)))]))
    (<[invoker := N.of_nat (length v)]> (s_od s)) (handlers s + 1) (count_shutdown_handlers s)
    (has_joiner_dispatcher s) (was_shutdown s) (posts s ++ l).

Lemma first_requests f fs s v :
  Forall request_ok (f :: fs) -> output_vec s v -> s_od s !! QueryID.invoker_from_qid (fm_qid f) = None ->
  transs conn_trans (new_conn, s) ((f :: fs) ≫= request_items) =
    Some (mk_conn AwaitHeader false (Some (N.of_nat (length v))) [],
          connected s v (QueryID.invoker_from_qid (fm_qid f)) (ToRequestDispatcher ∘ Some <$> (f :: fs))).
Proof.
  intros [[Hr Hf] Hfs]%Forall_cons Hv Hod. rewrite bind_cons. cbn [request_items app transs].
  destruct headers_ok as [Hreq _].
  rewrite conn_trans_ok by exact Hreq. cbn [c_phase new_conn].
  unfold server_read_header. change (contains HEADER_REQ_DMCS HEADER_REQ_DMCS) with true. cbn [mbind option_bind].
  rewrite conn_trans_ok by exact Hf. cbn [c_phase]. unfold handle_read_message.
  cbn [first_round]. rewrite (init_mq_ok _ _ v) by exact Hv. cbn [s_od]. rewrite Hod. rsimpl.
  cbn [of_res mret res_ret mbind option_bind]. rewrite later_requests by done.
  unfold add_posts, connected. cbn. by rewrite <- app_assoc.
Qed.

Lemma transs_app {A I} (trans : A -> I -> option A) a l l' :
  transs trans a (l ++ l') = a' ← transs trans a l; transs trans a' l'.
Proof. revert a. induction l as [|i l IH]; intros a; [done|]. cbn. destruct (trans a i); [apply IH|done]. Qed.

Lemma items_nonempty i items : item_ok i -> concat (item_bytes <$> (i :: items)) <> [].
Proof. intros Hi E. cbn in E. apply app_nil in E as [E _]. by apply item_bytes_nonempty in E. Qed.

Lemma chunks_nonempty i items chunks :
  item_ok i -> concat chunks = concat (item_bytes <$> (i :: items)) -> chunks <> [].
Proof. intros Hi E ->. cbn in E. symmetry in E. by apply (items_nonempty i items) in E. Qed.

(** C30.  Requests cross a connection: the bytes [NewNeighborOut] writes for a
    sequence of requests, arriving in any pieces, make a server that does not
    know the invoker yet (a second connection of a known invoker aborts,
    [second_connection_aborts]) open one handler with one output queue registered for
    it, and hand exactly these requests to its request dispatcher, in order;
    the handler then waits for the next header. *)
Theorem requests_cross_connection f fs s v :
  Forall request_ok (f :: fs) -> output_vec s v -> s_od s !! QueryID.invoker_from_qid (fm_qid f) = None ->
  exists out, neighbor_out (f :: fs) [] = Ok (out, true) /\
    forall chunks, concat chunks = out ->
      foldM conn_arrive (new_conn, s) chunks =
        Ok (mk_conn AwaitHeader false (Some (N.of_nat (length v))) [],
            connected s v (QueryID.invoker_from_qid (fm_qid f)) (ToRequestDispatcher ∘ Some <$> (f :: fs))).
Proof.
  intros Hfs Hv Hod. eexists. split.
  { pose proof (neighbor_out_ok (f :: fs) [] [] Hfs) as E. rewrite app_nil_r in E. rewrite E. reflexivity. }
  intros chunks E. cbn [app] in E.
  rewrite (conn_session ((f :: fs) ≫= request_items) chunks (new_conn, s) _ eq_refl
    (first_requests f fs s v Hfs Hv Hod) E); [done|].
  eapply (chunks_nonempty (Header HEADER_REQ_DMCS)); [|exact E]. by destruct headers_ok.
Qed.

(** Only the invoker of the first request gets an output queue: the answers to
    a request of another context of the same process, which uses the same
    connection, cannot be dispatched. *)
Lemma other_invoker_unregistered s v invoker l other :
  s_od s !! other = None -> other <> invoker ->
  get_offset (s_od (connected s v invoker l)) other = Err AssertFailed.
Proof. intros Ho Hne. unfold get_offset. cbn. by rewrite lookup_insert_ne, Ho. Qed.

Lemma neighbor_out_shutdown f fs g :
  Forall request_ok (f :: fs) -> QueryID.is_shutdown (fm_qid g) = true ->
  neighbor_out ((f :: fs) ++ [g]) [] =
    Ok (concat (item_bytes <$> ((f :: fs) ≫= request_items) ++ [Header HEADER_TERMINATE]), false).
Proof.
  intros Hfs Hg. rewrite neighbor_out_ok by done. cbn [neighbor_out]. unfold neighbor_out_turn. rewrite Hg.
  destruct headers_ok as (_ & _ & _ & Ht).
  rewrite conn_write_ok by done. rsimpl. do 2 f_equal. rewrite fmap_app, concat_app. cbn. by rewrite app_nil_r.
Qed.

(** [NewNeighborOut] announces a shutdown but does not send the message
    the header announces: whatever requests went before, the handler of the
    neighbor waits for it forever, no shutdown reaches the neighbor's
    contexts and the handler is not counted as shut down. *)
Theorem shutdown_not_propagated f fs g s v :
  Forall request_ok (f :: fs) -> QueryID.is_shutdown (fm_qid g) = true ->
  output_vec s v -> s_od s !! QueryID.invoker_from_qid (fm_qid f) = None ->
  exists out, neighbor_out ((f :: fs) ++ [g]) [] = Ok (out, false) /\
    forall chunks, concat chunks = out ->
      exists c' s', foldM conn_arrive (new_conn, s) chunks = Ok (c', s') /\
        c_phase c' = AwaitFinal /\ conn_step (c', s') = Ok None /\
        posts s' = posts s ++ (ToRequestDispatcher ∘ Some <$> (f :: fs)) /\
        count_shutdown_handlers s' = count_shutdown_handlers s /\ handlers s' = handlers s + 1.
Proof.
  intros Hfs Hg Hv Hod. eexists. split; [by apply neighbor_out_shutdown|]. intros chunks E.
  destruct headers_ok as (_ & _ & _ & Ht).
  assert (Hz : transs conn_trans (new_conn, s) (((f :: fs) ≫= request_items) ++ [Header HEADER_TERMINATE]) =
    Some (mk_conn AwaitFinal false (Some (N.of_nat (length v))) [],
          connected s v (QueryID.invoker_from_qid (fm_qid f)) (ToRequestDispatcher ∘ Some <$> (f :: fs)))).
  { rewrite transs_app, (first_requests f fs s v Hfs Hv Hod). cbn [mbind option_bind transs].
    by rewrite conn_trans_ok. }
  eexists _, _. rewrite (conn_session _ chunks (new_conn, s) _ eq_refl Hz E); [done|].
  eapply (chunks_nonempty (Header HEADER_REQ_DMCS)); [|exact E]. by destruct headers_ok.
Qed.

Lemma handle_finalize_ok g c s offset :
  QueryID.is_shutdown (fm_qid g) = true -> output_sender c = Some offset ->
  count_shutdown_handlers s < handlers s -> handlers s < W64 ->
  let last := count_shutdown_handlers s + 1 =? handlers s in
  exists c' s', handle_finalize g [] c s = Ok (c', s') /\ c_phase c' = Closed /\
    handlers s' = handlers s /\ count_shutdown_handlers s' = count_shutdown_handlers s + 1 /\
    was_shutdown s' = was_shutdown s || last /\
    posts s' = posts s ++ [ToOutputNull offset; ToRequestDispatcher (Some g)] ++
      (if last then [ToRequestDispatcher None; ToOutputDispatcherNull] ++
         (if has_joiner_dispatcher s then [ToJoinerDispatcher None] else []) else []).
Proof.
  intros Hg Ho Hc Hw last. unfold handle_finalize. rewrite Hg, Ho. change (assert true) with (Ok tt). rsimpl.
  cbn [not_null]. rsimpl. unfold isShutdown, notify_shutdown_handler. cbn.
  rewrite u64_add_small by lia. rewrite (proj2 (N.leb_le _ _)) by lia. change (assert true) with (Ok tt). rsimpl.
  fold last. destruct last; eexists _, _; (split; [done|]); cbn; rewrite ?orb_true_r, ?orb_false_r, <- ?app_assoc; done.
Qed.

(** What [NewClient::terminate] sends: the header and the message. *)
Definition terminate_items (g : ForwardMessage) : list item := [Header HEADER_TERMINATE; Message g].

(** A session that ends the way a client ends it: the handler tells its
    output thread to stop, passes the shutdown on to the request dispatcher,
    and closes; the server is shut down exactly when this was the last of its
    handlers. *)
Theorem session_finalized f fs g s v chunks :
  Forall request_ok (f :: fs) -> QueryID.is_shutdown (fm_qid g) = true -> sendable g ->
  output_vec s v -> s_od s !! QueryID.invoker_from_qid (fm_qid f) = None ->
  count_shutdown_handlers s <= handlers s -> handlers s + 1 < W64 ->
  concat chunks = concat (item_bytes <$> (((f :: fs) ≫= request_items) ++ terminate_items g)) ->
  exists c' s', foldM conn_arrive (new_conn, s) chunks = Ok (c', s') /\
    c_phase c' = Closed /\ handlers s' = handlers s + 1 /\
    count_shutdown_handlers s' = count_shutdown_handlers s + 1 /\
    was_shutdown s' = was_shutdown s || (count_shutdown_handlers s =? handlers s) /\
    posts s' = posts s ++ (ToRequestDispatcher ∘ Some <$> (f :: fs)) ++
      [ToOutputNull (N.of_nat (length v)); ToRequestDispatcher (Some g)] ++
      (if count_shutdown_handlers s =? handlers s
       then [ToRequestDispatcher None; ToOutputDispatcherNull] ++
            (if has_joiner_dispatcher s then [ToJoinerDispatcher None] else [])
       else []).
Proof.
  intros Hfs Hg Hsg Hv Hod Hc Hw E. destruct headers_ok as (_ & _ & _ & Ht).
  set (s1 := connected s v (QueryID.invoker_from_qid (fm_qid f)) (ToRequestDispatcher ∘ Some <$> (f :: fs))).
  set (c1 := mk_conn AwaitFinal false (Some (N.of_nat (length v))) []).
  destruct (handle_finalize_ok g c1 s1 (N.of_nat (length v))) as (c' & s' & Ef & Hp & Hs); [done|done|cbn; lia|cbn; lia|].
  assert (Hz : transs conn_trans (new_conn, s) (((f :: fs) ≫= request_items) ++ terminate_items g) = Some (c', s')).
  { rewrite transs_app, (first_requests f fs s v Hfs Hv Hod). cbn [mbind option_bind transs terminate_items].
    rewrite conn_trans_ok by exact Ht. cbn [c_phase].
    change (of_res (handle_read_header HEADER_TERMINATE [] _ _)) with (Some (c1, s1)). cbn [mbind option_bind].
    rewrite conn_trans_ok by exact Hsg. cbn [c_phase c1]. fold c1. by rewrite Ef. }
  rewrite (conn_session _ chunks (new_conn, s) _ eq_refl Hz E).
  - eexists _, s'. split; [done|]. split; [done|]. destruct Hs as (-> & -> & -> & ->). cbn.
    replace (count_shutdown_handlers s + 1 =? handlers s + 1) with (count_shutdown_handlers s =? handlers s)
      by (destruct (N.eqb_spec (count_shutdown_handlers s) (handlers s)),
            (N.eqb_spec (count_shutdown_handlers s + 1) (handlers s + 1)); (done || lia)).
    by rewrite <- app_assoc.
  - eapply (chunks_nonempty (Header HEADER_REQ_DMCS)); [|exact E]. by destruct headers_ok.
Qed.

(** *** A second connection of an invoker *)

(** An output queue can be registered once per invoker: a server that
    knows the invoker, because it had a connection before, fails an assertion
    when a request of the same invoker arrives on another connection. *)
Theorem second_connection_aborts f s v o :
  request_ok f -> output_vec s v ->
  s_od s !! QueryID.invoker_from_qid (fm_qid f) = Some o -> o < N.of_nat (length v) ->
  exists out, neighbor_out [f] [] = Ok (out, true) /\ conn_arrive (new_conn, s) out = Err AssertFailed.
Proof.
  intros Hf Hv Hod Ho. eexists. split.
  { pose proof (neighbor_out_ok [f] [] [] (proj2 (Forall_singleton _ _) Hf)) as E. cbn [app] in E.
    rewrite E. reflexivity. }
  destruct headers_ok as (Hreq & _). destruct Hf as [_ Hf]. cbn [mbind list_bind request_items app fmap list_fmap concat].
  rewrite app_nil_r. unfold conn_arrive. cbn [new_conn c_in app c_phase first_round output_sender].
  pose proof (frame_long HEADER_REQ_DMCS Hreq). rewrite length_app. cbn [settle].
  pose proof (conn_step_full (new_conn, s) (Header HEADER_REQ_DMCS) _ (frame f)
    (conn_trans_ok new_conn s (Header HEADER_REQ_DMCS) Hreq)) as E. cbn [item_bytes] in E.
  cbn [item_bytes]. setoid_rewrite E. rsimpl.
  destruct (length (frame HEADER_REQ_DMCS) + length (frame f))%nat as [|fuel] eqn:Ef; [lia|]. cbn [settle].
  enough (conn_step (with_in (server_read_header HEADER_REQ_DMCS [] new_conn s) (frame f)) = Err AssertFailed)
    as -> by done.
  unfold server_read_header. change (contains HEADER_REQ_DMCS HEADER_REQ_DMCS) with true. cbn match.
  unfold conn_step, with_in. cbn [fst snd c_phase c_in].
  pose proof (conn_read_ok f [] Hf) as Hread. rewrite app_nil_r in Hread. rewrite Hread. rsimpl.
  unfold handle_read_message. cbn [first_round].
  rewrite (init_mq_ok _ _ v) by exact Hv. cbn [s_od]. rewrite Hod.
  destruct (N.eqb_spec (N.of_nat (length v)) o); [lia|done].
Qed.

(** *** The neighbor's side *)

Definition nwith_in (c : nconn) (p : bytes) : nconn := mk_nconn (n_phase c) p (n_posts c).

Definition nconn_trans (off : N) (c : nconn) (i : item) : option nconn :=
  if decide (item_ok i) then
    match n_phase c, i with
    | AwaitAnswerHeader, Header h => of_res (neighbor_read_header h [] c)
    | AwaitAnswer, Answer l => Some (neighbor_read_message off l [] c)
    | _, _ => None
    end
  else None.

Lemma nconn_trans_ok off c i :
  item_ok i -> nconn_trans off c i =
    match n_phase c, i with
    | AwaitAnswerHeader, Header h => of_res (neighbor_read_header h [] c)
    | AwaitAnswer, Answer l => Some (neighbor_read_message off l [] c)
    | _, _ => None
    end.
Proof. intros Hi. unfold nconn_trans. by rewrite decide_True. Qed.

Lemma neighbor_read_header_rest h rest c p :
  neighbor_read_header h rest (nwith_in c p) = (fun c => nwith_in c rest) <$> neighbor_read_header h [] c.
Proof.
  unfold neighbor_read_header. cbn. destruct (_ || _); [|done]. change (assert true) with (Ok tt). rsimpl.
  by destruct (contains _ _).
Qed.

Lemma nconn_step_full off c i c' rest :
  nconn_trans off c i = Some c' -> nconn_step off (nwith_in c (item_bytes i ++ rest)) = Ok (Some (nwith_in c' rest)).
Proof.
  unfold nconn_trans. destruct (decide (item_ok i)) as [Hi|]; [|done].
  unfold nconn_step. cbn [nwith_in n_phase n_in].
  destruct (n_phase c) eqn:Ep, i; try done; cbn [item_bytes item_ok] in *; rewrite conn_read_ok by done; rsimpl.
  - rewrite of_res_some. intros E.
    by rewrite (neighbor_read_header_rest h rest c), E.
  - intros [= <-]. done.
Qed.

Lemma nconn_step_part off c i c' p q :
  nconn_trans off c i = Some c' -> item_bytes i = p ++ q -> q <> [] -> nconn_step off (nwith_in c p) = Ok None.
Proof.
  unfold nconn_trans. destruct (decide (item_ok i)) as [Hi|]; [|done].
  intros E Hpq Hq. unfold nconn_step. cbn [nwith_in n_phase n_in].
  destruct (n_phase c), i; try done; cbn [item_bytes item_ok] in *; by rewrite (conn_read_part _ p q Hi Hpq Hq).
Qed.

Lemma nconn_step_idle off c : nconn_step off (nwith_in c []) = Ok None.
Proof. unfold nconn_step. cbn. by destruct (n_phase c). Qed.

Lemma nconn_trans_nonempty off c i c' : nconn_trans off c i = Some c' -> item_bytes i <> [].
Proof.
  unfold nconn_trans. destruct (decide (item_ok i)) as [Hi|]; [|done]. intros _. by apply item_bytes_nonempty.
Qed.

Definition answer_items (l : list rvalue) : list item := [Header HEADER_ANS; Answer l].

(** What the arrival of a pack does: the notification and the records. *)
Definition pack_posts (off : N) (l : list rvalue) : list post :=
  ToJoinerDispatcher (Some (off, N.of_nat (length l))) :: (ToNeighborIn off <$> l).

Lemma write_answers_ok packs out :
  Forall sendable packs ->
  foldM write_answer out packs = Ok (out ++ concat (item_bytes <$> (packs ≫= answer_items))).
Proof.
  intros Hp. revert out. induction Hp as [|l packs Hl _ IH]; intros out; cbn [foldM].
  - cbn. by rewrite app_nil_r.
  - destruct headers_ok as (_ & Ha & _). unfold write_answer. rewrite (conn_write_ok _ _ Ha). rsimpl.
    rewrite (conn_write_ok _ _ Hl). rsimpl. rewrite IH, bind_cons. cbn. by rewrite <- !app_assoc.
Qed.

Lemma read_answers packs off ps :
  Forall sendable packs ->
  transs (nconn_trans off) (mk_nconn AwaitAnswerHeader [] ps) (packs ≫= answer_items) =
    Some (mk_nconn AwaitAnswerHeader [] (ps ++ (packs ≫= pack_posts off))).
Proof.
  intros Hp. revert ps. induction Hp as [|l packs Hl _ IH]; intros ps.
  - cbn. by rewrite app_nil_r.
  - rewrite bind_cons. cbn [answer_items app transs]. destruct headers_ok as (_ & Ha & _).
    rewrite nconn_trans_ok by exact Ha. cbn [n_phase].
    change (of_res (neighbor_read_header HEADER_ANS [] (mk_nconn AwaitAnswerHeader [] ps)))
      with (Some (mk_nconn AwaitAnswer [] ps)). cbn [mbind option_bind].
    rewrite nconn_trans_ok by exact Hl. cbn [n_phase].
    unfold neighbor_read_message. cbn [n_posts]. cbn [mbind option_bind].
    rewrite IH, bind_cons. cbn. by rewrite <- !app_assoc.
Qed.

(** C31.  Answers cross a connection: the packs an output thread writes,
    arriving in any pieces, make the neighbor thread announce each pack to
    the joiner dispatcher with its number of records and put the records
    into its queue, pack by pack, unchanged and in order. *)
Theorem answers_cross_connection packs off ps :
  Forall sendable packs -> packs <> [] ->
  exists out, foldM write_answer [] packs = Ok out /\
    forall chunks, concat chunks = out ->
      foldM (nconn_arrive off) (mk_nconn AwaitAnswerHeader [] ps) chunks =
        Ok (mk_nconn AwaitAnswerHeader [] (ps ++ (packs ≫= pack_posts off))).
Proof.
  intros Hp Hne. eexists. split; [by apply write_answers_ok|]. intros chunks E. cbn [app] in E.
  apply (arrive_all (nconn_step off) item_bytes (nconn_trans off) nwith_in (nconn_trans_nonempty off)
    (nconn_step_idle off) (nconn_step_full off) (nconn_step_part off) (nconn_arrive off))
    with (l := packs ≫= answer_items) (a := mk_nconn AwaitAnswerHeader [] ps) (p := [])
      (z := mk_nconn AwaitAnswerHeader [] (ps ++ (packs ≫= pack_posts off)));
    [|by apply read_answers|done|].
  - intros c p chunk. exists (S (length (p ++ chunk))). split; [lia|done].
  - intros ->. exfalso. destruct packs as [|l packs]; [done|]. rewrite bind_cons in E. cbn [answer_items app] in E.
    destruct headers_ok as (_ & Ha & _). symmetry in E.
    by apply (items_nonempty (Header HEADER_ANS) _ Ha) in E.
Qed.

End sessions.

(** ** Concrete sessions *)

#[local] Existing Instances comma_boost comma_boost_laws plain_bits plain_bits_laws.

Lemma toy_headers : Forall sendable [HEADER_REQ_DMCS; HEADER_ANS; HEADER_NEXT; HEADER_TERMINATE].
Proof. repeat (apply Forall_cons; split; [by vm_compute|]). by apply Forall_nil. Qed.

(** Two requests of context 5 to context 1, and a shutdown. *)
Definition toy_requests : list ForwardMessage :=
  [mk_fwd (QueryID.query_id3 5 1 1) 1 10 {[5]}; mk_fwd (QueryID.query_id3 5 1 2) 11 20 {[5]}].
Definition toy_end : ForwardMessage := mk_fwd (QueryID.shutdown_query_id 5 1) 1 1 ∅.

(** A server without neighbors, as its initialization leaves it. *)
Definition toy_server : server :=
  match first_initialization_phase 5 None with
  | Ok s => second_initialization_phase None s
  | Err _ => mk_server (mk_md 5 []) ∅ 0 0 false false []
  end.

Lemma toy_requests_ok : Forall request_ok toy_requests.
Proof. repeat (apply Forall_cons; split; [by vm_compute|]). by apply Forall_nil. Qed.

Lemma requests_cross_connection_witness :
  exists out, neighbor_out toy_requests [] = Ok (out, true) /\
    forall chunks, concat chunks = out ->
      foldM conn_arrive (new_conn, toy_server) chunks =
        Ok (mk_conn AwaitHeader false (Some 0) [],
            connected toy_server [] 5 (ToRequestDispatcher ∘ Some <$> toy_requests)).
Proof.
  apply (requests_cross_connection toy_headers _ _ toy_server [] toy_requests_ok); [by vm_compute|done].
Defined.

Lemma shutdown_not_propagated_witness :
  exists out, neighbor_out (toy_requests ++ [toy_end]) [] = Ok (out, false) /\
    forall chunks, concat chunks = out ->
      exists c' s', foldM conn_arrive (new_conn, toy_server) chunks = Ok (c', s') /\
        c_phase c' = AwaitFinal /\ conn_step (c', s') = Ok None /\
        posts s' = [] ++ (ToRequestDispatcher ∘ Some <$> toy_requests) /\
        count_shutdown_handlers s' = 0 /\ handlers s' = 0 + 1.
Proof.
  apply (shutdown_not_propagated toy_headers _ _ toy_end toy_server [] toy_requests_ok);
    [by vm_compute|by vm_compute|done].
Defined.

Lemma session_finalized_witness :
  exists c' s', foldM conn_arrive (new_conn, toy_server)
      [concat (item_bytes <$> ((toy_requests ≫= request_items) ++ terminate_items toy_end))] = Ok (c', s') /\
    c_phase c' = Closed /\ handlers s' = 0 + 1 /\ count_shutdown_handlers s' = 0 + 1 /\
    was_shutdown s' = true /\
    posts s' = [] ++ (ToRequestDispatcher ∘ Some <$> toy_requests) ++
      [ToOutputNull 0; ToRequestDispatcher (Some toy_end)] ++ [ToRequestDispatcher None; ToOutputDispatcherNull] ++ [].
Proof.
  apply (session_finalized toy_headers _ _ toy_end toy_server [] _ toy_requests_ok);
    [by vm_compute|by vm_compute|by vm_compute|done|done|done|apply app_nil_r].
Defined.

(** The server that served the two requests, and a new connection of context 5. *)
Lemma second_connection_aborts_witness :
  let s := connected toy_server [] 5 (ToRequestDispatcher ∘ Some <$> toy_requests) in
  exists out, neighbor_out [mk_fwd (QueryID.query_id3 5 1 3) 1 10 {[5]}] [] = Ok (out, true) /\
    conn_arrive (new_conn, s) out = Err AssertFailed.
Proof.
  eapply (second_connection_aborts toy_headers _ _ [Some (MessageQueue.MessageQueue.queue_new 5)] 0);
    [split; by vm_compute|by vm_compute|by vm_compute|done].
Defined.

Lemma answers_cross_connection_witness :
  let packs := [[(Some (mk_bs (mk_bvector 6 63) (mk_bvector 6 5)), 7); (None, 7)]; [(None, 9)]] in
  exists out, foldM write_answer [] packs = Ok out /\
    forall chunks, concat chunks = out ->
      foldM (nconn_arrive 2) (mk_nconn AwaitAnswerHeader [] []) chunks =
        Ok (mk_nconn AwaitAnswerHeader [] ([] ++ (packs ≫= pack_posts 2))).
Proof.
  apply (answers_cross_connection toy_headers _ 2 []); [|done].
  repeat (apply Forall_cons; split; [by vm_compute|]). by apply Forall_nil.
Defined.

End Sessions.
