(* ===== verification/Client.v ===== *)
(** * The client

    [NewClient] (src/network/NewClient.cpp): it sends a request, hands the
    answer to its callback and, when it loops, asks for further models until
    it has as many as the first request was for, or there are no more.

    The client is a state machine like the readers of [Sessions]; what it
    writes is collected in [c_out].  The server at the other end of the
    connection is a state and a function [serve] on it.  The class [Serves] is
    the interface between the client and the server: an answer has the models
    of the requested slice, each once (the output thread removes duplicates),
    and the end marker.  Equilibria implements it with the threads of a
    server. *)

From S2P Require Import Prelude BitMagic BeliefState QueryID Evaluator ReturnedBeliefs Dispatch Connection Archives Sessions.
Import BitMagic BeliefState Dispatch Connection Archives Sessions.

Module Client.

Abbreviation rvalue := ReturnedBeliefs.rvalue.
Abbreviation slice := Evaluator.Evaluator.slice.

Inductive cphase :=
  | CReadHeader   (* handle_read_header *)
  | CReadAnswer   (* handle_read_answer *)
  | CDone.

Record client := mk_client {
  cl_phase : cphase;
  loop : bool;
  mess : ForwardMessage;
  callbacks : list (list rvalue);   (* the lists given to the callback *)
  cl_in : bytes;
  c_out : bytes;
}.

Section client.
Context {BST : Boost} {BVS : BvSerializer}.

(** [send_header] and [send_message], on a connection that is established. *)
Definition send (header : string) (m : ForwardMessage) (c : client) : res client :=
  out ← conn_write (c_out c) header;
  out ← conn_write out m;
  mret (mk_client CReadHeader (loop c) m (callbacks c) (cl_in c) out).

Definition client_new (header : string) (fwd_mess : ForwardMessage) (lp : bool) : res client :=
  send header fwd_mess (mk_client CReadHeader lp fwd_mess [] [] []).

Definition next (fwd_mess : ForwardMessage) (c : client) : res client := send HEADER_NEXT fwd_mess c.

Definition terminate (end_mess : ForwardMessage) (c : client) : res client :=
  out ← conn_write (c_out c) HEADER_TERMINATE;
  out ← conn_write out end_mess;
  mret (mk_client CDone (loop c) (mess c) (callbacks c) (cl_in c) out).

Definition client_read_header (header : string) (rest : bytes) (c : client) : res client :=
  if bool_decide (header = HEADER_EOF) then
    mret (mk_client CDone (loop c) (mess c) (callbacks c) rest (c_out c))
  else
    _ ← assert (bool_decide (header = HEADER_ANS));
    mret (mk_client CReadAnswer (loop c) (mess c) (callbacks c) rest (c_out c)).

(** [result_list->back()], and the list without it. *)
Definition pop_back (l : list rvalue) : res (rvalue * list rvalue) :=
  match reverse l with [] => Err IndexOutOfRange | x :: r => mret (x, reverse r) end.

Definition client_read_answer (result_list : list rvalue) (rest : bytes) (c : client) : res client :=
  '(last_result, result_list) ← pop_back result_list;
  _ ← assert (bool_decide (last_result.1 = None));
  match result_list with
  | [] => mret (mk_client CDone (loop c) (mess c) (callbacks c) rest (c_out c))
  | _ =>
      let pack_size := getPackSize (mess c) in
      next_k ← (if 0 <? pack_size then
                  _ ← assert (N.of_nat (length result_list) <=? pack_size);
                  mret (u64_sub pack_size (N.of_nat (length result_list)))
                else mret 0);
      let c := mk_client CDone (loop c) (mess c) (callbacks c ++ [result_list]) rest (c_out c) in
      if negb (loop c) then mret c
      else if next_k =? 0 then mret c
      else
        m ← setPackRequest (mess c) (u64_add (fm_k2 (mess c)) 1) (u64_add (fm_k2 (mess c)) next_k);
        send HEADER_NEXT m c
  end.

Definition client_step (c : client) : res (option client) :=
  match cl_phase c with
  | CReadHeader =>
      r ← conn_read (cl_in c);
      match r with None => mret None | Some (header, rest) => Some <$> client_read_header header rest c end
  | CReadAnswer =>
      r ← conn_read (cl_in c);
      match r with None => mret None | Some (result, rest) => Some <$> client_read_answer result rest c end
  | CDone => mret None
  end.

Definition client_arrive (c : client) (chunk : bytes) : res client :=
  let inp := cl_in c ++ chunk in
  settle client_step (S (length inp)) (mk_client (cl_phase c) (loop c) (mess c) (callbacks c) inp (c_out c)).

(** ** A conversation

    As long as the client waits for an answer, the server answers its last
    request. *)
Fixpoint converse {S : Type} (serve : S -> ForwardMessage -> res (S * list rvalue)) (fuel : nat) (s : S) (c : client)
    : res (S * client) :=
  match cl_phase c with
  | CReadHeader =>
      match fuel with
      | O => Err OutOfFuel
      | S fuel =>
          '(s, result) ← serve s (mess c);
          answer ← write_answer [] result;
          c ← client_arrive c answer;
          converse serve fuel s c
      end
  | _ => mret (s, c)
  end.

End client.

(** The answers to requests in [dom]; [ready k] are the states in which the
    server can serve [k] further ones. *)
Class Serves {S : Type} (serve : S -> ForwardMessage -> res (S * list rvalue)) (ready : nat -> S -> Prop)
    (dom : ForwardMessage -> Prop) (models : list NewBeliefState) : Prop := {
  serves k s f : ready (Datatypes.S k) s -> dom f ->
    (fm_k1 f = 0 /\ fm_k2 f = 0 \/ 0 < fm_k1 f /\ fm_k1 f <= fm_k2 f) ->
    exists s' ms, serve s f = Ok (s', ((fun m => (Some m, fm_qid f)) <$> ms) ++ [(None, fm_qid f)]) /\
      ready k s' /\ NoDup ms /\ (forall m, m ∈ ms <-> m ∈ slice (fm_k1 f) (fm_k2 f) models);
  ready_less k s : ready (Datatypes.S k) s -> ready k s;
}.

(** ** Slices *)

Lemma elem_of_slice {A} k1 k2 (l : list A) x :
  0 < k1 -> x ∈ slice k1 k2 l <-> exists i, l !! i = Some x /\ k1 <= N.of_nat i + 1 /\ N.of_nat i + 1 <= k2.
Proof.
  intros Hk. unfold slice, Evaluator.Evaluator.slice. destruct (N.eqb_spec k1 0); [lia|]. cbn [andb].
  rewrite list_elem_of_lookup. split.
  - intros [i Hi]. pose proof (lookup_lt_Some _ _ _ Hi) as Hl. rewrite length_take in Hl.
    rewrite lookup_take_lt, lookup_drop in Hi by lia. eexists. split; [exact Hi|]. lia.
  - intros (i & Hi & H1 & H2). exists (i - N.to_nat (k1 - 1))%nat.
    rewrite lookup_take_lt, lookup_drop by lia. rewrite <- Hi. f_equal. lia.
Qed.

Lemma elem_of_drop {A} k (l : list A) x : x ∈ drop k l <-> exists i, l !! i = Some x /\ (k <= i)%nat.
Proof.
  rewrite list_elem_of_lookup. split.
  - intros [i Hi]. rewrite lookup_drop in Hi. eexists. split; [exact Hi|lia].
  - intros (i & Hi & H). exists (i - k)%nat. rewrite lookup_drop, <- Hi. f_equal. lia.
Qed.

(** ** One round *)

Section conversation.
Context {BST : Boost} {BVS : BvSerializer} {BSTL : BoostLaws} {BVSL : BvSerializerLaws}.
Context {S : Type} (serve : S -> ForwardMessage -> res (S * list rvalue)) (ready : nat -> S -> Prop).
Context (dom : ForwardMessage -> Prop) (models : list NewBeliefState) (Hserve : Serves serve ready dom models).
Context (qid : N) (hist : gset N) (Hdom : forall k1 k2, k2 + 1 < W64 -> dom (mk_fwd qid k1 k2 hist)).
(** Headers, requests and answers fit into a frame. *)
Context (Hans : sendable HEADER_ANS) (Hnext : sendable HEADER_NEXT).
Context (Hreq : forall k1 k2, k1 < W64 -> k2 < W64 -> sendable (mk_fwd qid k1 k2 hist)).

Definition records (ms : list NewBeliefState) : list rvalue := (fun m => (Some m, qid)) <$> ms.

Context (Hpack : forall ms, NoDup ms -> (forall m, m ∈ ms -> m ∈ models) -> sendable (records ms ++ [(None, qid)])).

Lemma pop_back_snoc l x : pop_back (l ++ [x]) = Ok (x, l).
Proof. unfold pop_back. by rewrite reverse_snoc, reverse_involutive. Qed.

(** A client that waits for the answer to the range [k1] to [k2]. *)
Definition waiting (k1 k2 : N) (cbs : list (list rvalue)) (out : bytes) : client :=
  mk_client CReadHeader true (mk_fwd qid k1 k2 hist) cbs [] out.

Lemma answer_arrives c answer :
  cl_phase c = CReadHeader -> cl_in c = [] -> sendable answer ->
  exists bs, write_answer [] answer = Ok bs /\
    forall c', client_read_answer answer [] c = Ok c' -> cl_in c' = [] ->
      client_arrive c bs = Ok c'.
Proof.
  intros Hp Hin Ha. eexists. split.
  { unfold write_answer. rewrite (conn_write_ok _ _ Hans). rsimpl. rewrite (conn_write_ok _ _ Ha). reflexivity. }
  intros c' Hc' Hin'. unfold client_arrive. rewrite Hin, Hp. cbn [app].
  set (c1 := mk_client CReadAnswer (loop c) (mess c) (callbacks c) (frame answer) (c_out c)).
  assert (S1 : client_step (mk_client CReadHeader (loop c) (mess c) (callbacks c) (frame HEADER_ANS ++ frame answer)
    (c_out c)) = Ok (Some c1)).
  { unfold client_step. cbn [cl_phase cl_in]. rewrite conn_read_ok by done. rsimpl. done. }
  assert (S2 : client_step c1 = Ok (Some c')).
  { unfold client_step. cbn [cl_phase cl_in c1]. pose proof (conn_read_ok answer [] Ha) as E.
    rewrite app_nil_r in E. rewrite E. rsimpl.
    assert (client_read_answer answer [] c1 = client_read_answer answer [] c) as E1 by done.
    by rewrite E1, Hc'. }
  assert (S3 : client_step c' = Ok None).
  { unfold client_step. rewrite Hin'. by destruct (cl_phase c'). }
  pose proof (frame_long _ Hans). rewrite length_app.
  destruct (length (frame HEADER_ANS)) as [|[|k]] eqn:Ek; [lia|lia|]. cbn [Nat.add settle].
  rewrite S1. rsimpl. rewrite S2. rsimpl. by rewrite S3.
Qed.

(** A client that waits for nothing and may be given another request. *)
Definition ended (c : client) : Prop := cl_phase c = CDone /\ loop c = true /\ cl_in c = [].

Lemma slice_in k1 k2 (m : NewBeliefState) : m ∈ slice k1 k2 models -> m ∈ models.
Proof.
  unfold slice, Evaluator.Evaluator.slice. destruct (_ && _); [done|].
  intros Hm. eapply elem_of_submseteq; [exact Hm|]. apply sublist_submseteq. etrans; [apply sublist_take|apply sublist_drop].
Qed.

(** What the server sends for a range. *)
Lemma served k s k1 k2 : ready (Datatypes.S k) s -> k1 = 0 /\ k2 = 0 \/ 0 < k1 /\ k1 <= k2 -> k2 + 1 < W64 ->
  exists s' ms, serve s (mk_fwd qid k1 k2 hist) = Ok (s', records ms ++ [(None, qid)]) /\ ready k s' /\
    sendable (records ms ++ [(None, qid)]) /\ NoDup ms /\ (forall m, m ∈ ms <-> m ∈ slice k1 k2 models) /\
    (length ms <= length (slice k1 k2 models))%nat.
Proof.
  intros Hr Hk Hw. destruct (serves k s (mk_fwd qid k1 k2 hist) Hr (Hdom k1 k2 Hw) Hk) as (s' & ms & E & Hr' & Hd & Hms).
  cbn [fm_k1 fm_k2 fm_qid] in *. exists s', ms. split; [done|]. split; [done|].
  split; [apply Hpack; [done|]; intros m Hm%Hms; by apply slice_in in Hm|].
  split; [done|]. split; [done|]. apply submseteq_length, NoDup_submseteq; [done|]. by intros m ?%Hms.
Qed.

(** The reaction to the answer of a server. *)
Lemma round_ok k s k1 k2 cbs out :
  ready (Datatypes.S k) s -> 0 < k1 -> k1 <= k2 -> k2 + (k2 - k1 + 1) < W64 ->
  exists s' ms bs c', serve s (mk_fwd qid k1 k2 hist) = Ok (s', records ms ++ [(None, qid)]) /\ ready k s' /\
    write_answer [] (records ms ++ [(None, qid)]) = Ok bs /\
    client_arrive (waiting k1 k2 cbs out) bs = Ok c' /\ NoDup ms /\
    (forall m, m ∈ ms <-> m ∈ slice k1 k2 models) /\ (length ms <= length (slice k1 k2 models))%nat /\
    N.of_nat (length ms) <= k2 - k1 + 1 /\
    concat (callbacks c') = concat cbs ++ records ms /\
    (ms <> [] /\ N.of_nat (length ms) < k2 - k1 + 1 /\
       (exists cbs' out', c' = waiting (k2 + 1) (k2 + (k2 - k1 + 1 - N.of_nat (length ms))) cbs' out') \/
     (ms = [] \/ N.of_nat (length ms) = k2 - k1 + 1) /\ ended c').
Proof.
  intros Hr H1 H2 Hw. set (f := mk_fwd qid k1 k2 hist).
  destruct (served k s k1 k2) as (s' & ms & Es & Hr' & Hsend & Hd & Hms & Hlen); [done|by right|lia|].
  assert (Hps : getPackSize f = k2 - k1 + 1).
  { unfold getPackSize. cbn [fm_k1 fm_k2 f]. destruct (N.eqb_spec k2 0); [lia|].
    rewrite u64_sub_small, u64_add_small; [done|rewrite ?u64_sub_small; lia|lia|lia]. }
  assert (Hle : N.of_nat (length ms) <= k2 - k1 + 1).
  { unfold slice, Evaluator.Evaluator.slice in Hlen. destruct (N.eqb_spec k1 0); [lia|]. cbn [andb] in Hlen.
    rewrite length_take in Hlen. lia. }
  destruct (answer_arrives (waiting k1 k2 cbs out) _ eq_refl eq_refl Hsend) as (bs & Ew & Hrun).
  unfold client_read_answer in Hrun. rewrite pop_back_snoc in Hrun.
  enough (exists c', client_arrive (waiting k1 k2 cbs out) bs = Ok c' /\ concat (callbacks c') = concat cbs ++ records ms /\
    (ms <> [] /\ N.of_nat (length ms) < k2 - k1 + 1 /\
       (exists cbs' out', c' = waiting (k2 + 1) (k2 + (k2 - k1 + 1 - N.of_nat (length ms))) cbs' out') \/
     (ms = [] \/ N.of_nat (length ms) = k2 - k1 + 1) /\ ended c')) as (c' & Ha & Hcb & Hcase) by (by exists s', ms, bs, c').
  cbn [fst mbind res_bind] in Hrun. change (assert (bool_decide (@None NewBeliefState = None))) with (Ok tt) in Hrun.
  cbn [mbind res_bind waiting mess loop callbacks c_out] in Hrun. fold f in Hrun. rewrite Hps in Hrun.
  destruct ms as [|m0 ms0] eqn:Em.
  { eexists. split; [by apply Hrun|]. cbn. rewrite app_nil_r. split; [done|]. right. split; [by left|done]. }
  rewrite <- Em in *. assert (Hne : ms <> []) by (by rewrite Em).
  destruct (records ms) as [|r0 rs0] eqn:Er; [by rewrite Em in Er|]. rewrite <- Er in *.
  assert (Hlr : length (records ms) = length ms) by (unfold records; by rewrite length_fmap).
  rewrite Hlr in Hrun. destruct (N.ltb_spec 0 (k2 - k1 + 1)); [|lia].
  rewrite (proj2 (N.leb_le _ _) Hle) in Hrun. change (assert true) with (Ok tt) in Hrun.
  cbn [mbind res_bind mret res_ret negb] in Hrun. rewrite u64_sub_small in Hrun by lia.
  destruct (N.eqb_spec (k2 - k1 + 1 - N.of_nat (length ms)) 0) as [Hz|Hz].
  - eexists. split; [by apply Hrun|]. cbn [callbacks cl_phase]. rewrite concat_app. cbn [concat].
    rewrite app_nil_r. split; [done|]. right. split; [right; lia|done].
  - unfold setPackRequest in Hrun. cbn [fm_k1 fm_k2 f fm_qid history] in Hrun.
    rewrite !u64_add_small in Hrun by lia.
    rewrite (proj2 (N.leb_le (k2 + 1) (k2 + (k2 - k1 + 1 - N.of_nat (length ms))))) in Hrun by lia.
    change (assert true) with (Ok tt) in Hrun. cbn [mbind res_bind mret res_ret] in Hrun. unfold send in Hrun.
    rewrite (conn_write_ok _ _ Hnext) in Hrun. cbn [mbind res_bind] in Hrun.
    assert (Hq := Hreq (k2 + 1) (k2 + (k2 - k1 + 1 - N.of_nat (length ms))) ltac:(lia) ltac:(lia)).
    rewrite (conn_write_ok _ _ Hq) in Hrun. cbn [mbind res_bind mret res_ret] in Hrun.
    eexists. split; [by apply Hrun|]. cbn [callbacks cl_phase cl_in]. rewrite concat_app. cbn [concat].
    rewrite app_nil_r. split; [done|]. left. split; [done|]. split; [lia|]. eexists _, _. reflexivity.
Qed.

(** Nothing in a range means nothing behind it. *)
Lemma slice_empty k1 k2 :
  0 < k1 -> k1 <= k2 -> (forall m, ~ m ∈ slice k1 k2 models) -> forall m, ~ m ∈ drop (N.to_nat (k1 - 1)) models.
Proof.
  intros H1 H2 He m (i & Hi & Hle)%elem_of_drop. apply lookup_lt_Some in Hi.
  destruct (lookup_lt_is_Some_2 models (N.to_nat (k1 - 1))) as [x Hx]; [lia|].
  apply (He x), elem_of_slice; [done|]. exists (N.to_nat (k1 - 1)). split; [done|lia].
Qed.

Definition collected (k1 k2 : N) (ms : list NewBeliefState) : Prop :=
  N.of_nat (length ms) = k2 - k1 + 1 /\ (exists K, k2 <= K /\ forall m, m ∈ ms <-> m ∈ slice k1 K models) \/
  N.of_nat (length ms) < k2 - k1 + 1 /\ (forall m, m ∈ ms <-> m ∈ drop (N.to_nat (k1 - 1)) models).

Lemma collected_more k1 k2 k2' ms ms' :
  0 < k1 -> k1 <= k2 -> k2' = k2 + (k2 - k1 + 1 - N.of_nat (length ms)) -> N.of_nat (length ms) < k2 - k1 + 1 ->
  (forall m, m ∈ ms <-> m ∈ slice k1 k2 models) -> collected (k2 + 1) k2' ms' -> collected k1 k2 (ms ++ ms').
Proof.
  intros H1 H2 -> Hlt Hms [[Hl (K & HK & Hm)]|[Hl Hm]]; [left|right]; rewrite length_app; (split; [lia|]).
  - exists K. split; [lia|]. intros m. rewrite elem_of_app, Hms, Hm, !elem_of_slice by lia. split.
    + intros [(i & Hi & ?)|(i & Hi & ?)]; exists i; (split; [done|lia]).
    + intros (i & Hi & ?). destruct (N.le_gt_cases (N.of_nat i + 1) k2); [left|right]; exists i; (split; [done|lia]).
  - intros m. rewrite elem_of_app, Hms, Hm, elem_of_slice, !elem_of_drop by lia. split.
    + intros [(i & Hi & ?)|(i & Hi & ?)]; exists i; (split; [done|lia]).
    + intros (i & Hi & ?). destruct (N.le_gt_cases (N.of_nat i + 1) k2); [left|right]; exists i; (split; [done|lia]).
Qed.

Lemma converse_done f s c : cl_phase c = CDone -> converse serve f s c = Ok (s, c).
Proof. intros Hc. destruct f; cbn [converse]; by rewrite Hc. Qed.

(** One turn of the conversation. *)
Lemma converse_round f s s' k1 k2 cbs out l bs c' :
  serve s (mk_fwd qid k1 k2 hist) = Ok (s', l) -> write_answer [] l = Ok bs ->
  client_arrive (waiting k1 k2 cbs out) bs = Ok c' ->
  converse serve (Datatypes.S f) s (waiting k1 k2 cbs out) = converse serve f s' c'.
Proof.
  intros Es Ew Ea. cbn [converse]. change (mess (waiting k1 k2 cbs out)) with (mk_fwd qid k1 k2 hist).
  change (cl_phase (waiting k1 k2 cbs out)) with CReadHeader. cbn match. rewrite Es. rsimpl. rewrite Ew. rsimpl. by rewrite Ea.
Qed.

Lemma converse_ok n : forall s k1 k2 cbs out, ready n s ->
  0 < k1 -> k1 <= k2 -> k2 - k1 + 1 <= N.of_nat n -> k2 + (k2 - k1 + 1) * (k2 - k1 + 2) < W64 ->
  exists s' c' ms, converse serve n s (waiting k1 k2 cbs out) = Ok (s', c') /\ ended c' /\
    concat (callbacks c') = concat cbs ++ records ms /\ collected k1 k2 ms.
Proof.
  induction n as [|n IH]; intros s k1 k2 cbs out Hr H1 H2 Hn Hw; [lia|].
  destruct (round_ok n s k1 k2 cbs out Hr H1 H2)
    as (s1 & ms & bs & c' & Es & Hr1 & Ew & Ea & Hd & Hms & _ & Hle & Hcb & Hcase); [nia|].
  rewrite (converse_round n s s1 k1 k2 cbs out _ _ _ Es Ew Ea).
  destruct Hcase as [(Hne & Hlt & cbs' & out' & ->)|[Hdone Hp]].
  - set (P := k2 - k1 + 1) in *. set (L := N.of_nat (length ms)) in *.
    assert (0 < L) by (unfold L; destruct ms; [done|cbn; lia]).
    destruct (IH s1 (k2 + 1) (k2 + (P - L)) cbs' out' Hr1) as (s2 & c2 & ms' & E & Hp & Hcb' & Hcol); [lia|lia|lia| |].
    { replace (k2 + (P - L) - (k2 + 1)) with (P - L - 1) by lia. replace (k2 - k1 + 2) with (P + 1) in Hw by lia. nia. }
    exists s2, c2, (ms ++ ms'). split; [done|]. split; [done|]. split.
    + cbn [callbacks waiting] in Hcb. rewrite Hcb', Hcb, <- app_assoc. unfold records. by rewrite fmap_app.
    + by eapply collected_more.
  - exists s1, c', ms. rewrite converse_done by apply Hp. split; [done|]. split; [done|]. split; [done|].
    destruct Hdone as [->|Hfull].
    + right. split; [cbn; lia|]. intros m. split; [by intros ?%not_elem_of_nil|]. intros Hm. exfalso.
      apply (slice_empty k1 k2 H1 H2) in Hm; [done|]. intros x Hx%Hms. by apply not_elem_of_nil in Hx.
    + left. split; [done|]. exists k2. split; [lia|done].
Qed.

(** A client that asks for the models [k1] to [k2] and loops ends its
    conversation after at most as many rounds as it asked for models; no
    assertion fails, and its callback has been given either as many records
    as were asked for, all of them models from [k1] on without a gap, or all
    models from [k1] on because there are not enough. *)
Lemma client_collects_ok s k1 k2 :
  ready (N.to_nat (k2 - k1 + 1)) s ->
  sendable HEADER_REQ_DMCS -> 0 < k1 -> k1 <= k2 -> k2 + (k2 - k1 + 1) * (k2 - k1 + 2) < W64 ->
  exists c0 s' c' ms, client_new HEADER_REQ_DMCS (mk_fwd qid k1 k2 hist) true = Ok c0 /\
    converse serve (N.to_nat (k2 - k1 + 1)) s c0 = Ok (s', c') /\ cl_phase c' = CDone /\
    concat (callbacks c') = records ms /\ collected k1 k2 ms.
Proof.
  intros Hr Hh H1 H2 Hw.
  assert (exists out, client_new HEADER_REQ_DMCS (mk_fwd qid k1 k2 hist) true = Ok (waiting k1 k2 [] out)) as (out & E).
  { unfold client_new, send. rewrite (conn_write_ok _ _ Hh). rsimpl.
    assert (Hq := Hreq k1 k2 ltac:(nia) ltac:(nia)). rewrite (conn_write_ok _ _ Hq). rsimpl. by eexists. }
  destruct (converse_ok (N.to_nat (k2 - k1 + 1)) s k1 k2 [] out Hr H1 H2 ltac:(lia) Hw) as (s' & c' & ms & Hc & [Hp _] & Hrest).
  by exists (waiting k1 k2 [] out), s', c', ms.
Qed.

End conversation.

End Client.
