(* ===== verification/StartUp.v ===== *)
(** * Starting the servers together

    [Manager] (src/network/Manager.cpp) and the start-up of [NewServer]
    (src/network/NewServer.cpp): every server tells the manager when it has
    finished its first initialization phase and begins the second one, in
    which it connects to its neighbors, when the manager says so.  The manager
    says so when all servers have reported.

    The connections to the manager are pairs of channels of strings ([up] and
    [down]); [Connection] shows that messages survive the socket.  The
    asynchronous handlers are the turns of [exec]; [None] says that a handler
    has nothing to handle. *)

From S2P Require Import Prelude Connection Sessions.
From stdpp Require Import relations.
Import Sessions.
#[local] Open Scope N_scope.

Module StartUp.

(** ** The manager *)

(** Connections are numbered by the servers that opened them. *)
Record manager := mk_manager {
  system_size : N;
  connections_vec : list nat;
  count_terminations : N;
}.

(** The connections to which the trigger is written. *)
Definition trigger_2nd_phase (m : manager) : list nat := connections_vec m.

Definition manager_read_header (conn : nat) (header : string) (m : manager) : res (manager * list nat) :=
  if bool_decide (header = INIT_PHASE1_COMPLETED) then
    let m := mk_manager (system_size m) (connections_vec m ++ [conn]) (count_terminations m) in
    mret (m, if N.of_nat (length (connections_vec m)) =? system_size m then trigger_2nd_phase m else [])
  else Err (Thrown "Unknown notification from dmcsd.").

(** [handle_finalize], to which no read is bound; the answer says whether all
    connections are closed. *)
Definition manager_finalize (header : string) (m : manager) : res (manager * bool) :=
  if bool_decide (header = HEADER_TERMINATE) then
    let m := mk_manager (system_size m) (connections_vec m) (u64_add (count_terminations m) 1) in
    mret (m, count_terminations m =? system_size m)
  else Err (Thrown "Unknown header from dmcsd.").

(** ** A server *)

Inductive sphase :=
  | Connecting (endpoints : list bool)   (* those left to try, and whether they can be reached *)
  | AwaitTrigger
  | Running
  | Stopped.

Record process := mk_process { p_phase : sphase; up : list string; down : list string }.

(** [connect_to_manager] and [send_notification_to_manager]: one attempt.  The
    endpoint after the last is an error. *)
Definition connect (endpoints : list bool) (p : process) : res process :=
  match endpoints with
  | [] => Err (Thrown "no endpoint")
  | true :: _ => mret (mk_process AwaitTrigger (up p ++ [INIT_PHASE1_COMPLETED]) (down p))
  | false :: [] => Err (Thrown "connection failed")
  | false :: endpoints => mret (mk_process (Connecting endpoints) (up p) (down p))
  end.

Definition handle_read_trigger_message (trigger_message : string) (p : process) : res process :=
  if bool_decide (trigger_message = INIT_START_PHASE2) then mret (mk_process Running (up p) (down p))
  else Err (Thrown "Unknown message from Manager").

(** The end of [NewServer::shutdown]: the manager is notified. *)
Definition notify_manager (p : process) : process := mk_process Stopped (up p ++ [HEADER_TERMINATE]) (down p).

(** ** The system *)

Record sys := mk_sys { mgr : manager; procs : list process }.

Inductive event :=
  | Connects (i : nat)
  | ManagerReads (i : nat)
  | ServerReads (i : nat)
  | Stops (i : nat).

Definition put (s : sys) (i : nat) (p : process) : sys := mk_sys (mgr s) (<[i := p]> (procs s)).

(** A write of the manager to one connection. *)
Definition write_down (msg : string) (ps : list process) (i : nat) : list process :=
  alter (fun p => mk_process (p_phase p) (up p) (down p ++ [msg])) i ps.

(** The manager reads one header from every connection. *)
Definition exec (e : event) (s : sys) : option (res sys) :=
  match e with
  | Connects i =>
      p ← procs s !! i;
      match p_phase p with
      | Connecting endpoints => Some (put s i <$> connect endpoints p)
      | _ => None
      end
  | ManagerReads i =>
      p ← procs s !! i;
      if bool_decide (i ∈ connections_vec (mgr s)) then None
      else
        match up p with
        | [] => None
        | header :: rest =>
            Some ('(m, triggered) ← manager_read_header i header (mgr s);
                  mret (mk_sys m (foldl (write_down INIT_START_PHASE2)
                                   (<[i := mk_process (p_phase p) rest (down p)]> (procs s)) triggered)))
        end
  | ServerReads i =>
      p ← procs s !! i;
      match p_phase p, down p with
      | AwaitTrigger, msg :: rest =>
          Some (put s i <$> handle_read_trigger_message msg (mk_process AwaitTrigger (up p) rest))
      | _, _ => None
      end
  | Stops i =>
      p ← procs s !! i;
      match p_phase p with Running => Some (mret (put s i (notify_manager p))) | _ => None end
  end.

Inductive step (s s' : sys) : Prop :=
  | step_exec e : exec e s = Some (Ok s') -> step s s'.

(** Servers that have some reachable endpoint of the manager. *)
Definition initial (size : N) (endpoints : list (list bool)) : sys :=
  mk_sys (mk_manager size [] 0) ((fun es => mk_process (Connecting es) [] []) <$> endpoints).

(** ** The invariant *)

(** The manager has triggered connection [i]. *)
Definition triggered (m : manager) (i : nat) : Prop :=
  system_size m <= N.of_nat (length (connections_vec m)) /\ i ∈ take (N.to_nat (system_size m)) (connections_vec m).

Inductive status (m : manager) (i : nat) : process -> Prop :=
  | st_connecting es : true ∈ es -> i ∉ connections_vec m -> status m i (mk_process (Connecting es) [] [])
  | st_reported : i ∉ connections_vec m -> status m i (mk_process AwaitTrigger [INIT_PHASE1_COMPLETED] [])
  | st_waiting : i ∈ connections_vec m -> ~ triggered m i -> status m i (mk_process AwaitTrigger [] [])
  | st_triggered : triggered m i -> status m i (mk_process AwaitTrigger [] [INIT_START_PHASE2])
  | st_running : triggered m i -> status m i (mk_process Running [] [])
  | st_stopped : triggered m i -> status m i (mk_process Stopped [HEADER_TERMINATE] []).

Record inv (s : sys) : Prop := {
  inv_nodup : NoDup (connections_vec (mgr s));
  inv_range : Forall (fun i => (i < length (procs s))%nat) (connections_vec (mgr s));
  inv_status i p : procs s !! i = Some p -> status (mgr s) i p;
}.

Lemma triggered_member m i : triggered m i -> i ∈ connections_vec m.
Proof. intros [_ Hi]. rewrite <- (take_drop (N.to_nat (system_size m))). apply elem_of_app. by left. Qed.

(** What the arrival of a further report does to the others. *)
Section report.
Context (m : manager) (i : nat) (Hi : i ∉ connections_vec m).
Local Abbreviation m' := (mk_manager (system_size m) (connections_vec m ++ [i]) (count_terminations m)).
Local Abbreviation full := (N.of_nat (length (connections_vec m')) = system_size m).

Lemma triggered_report j : triggered m' j <-> triggered m j \/ full /\ j ∈ connections_vec m'.
Proof.
  assert (Hf : full \/ ~ full) by (destruct (decide full); tauto). unfold triggered. cbn [system_size connections_vec] in *. rewrite length_app in *. cbn [length] in *.
  set (k := length (connections_vec m)) in *.
  destruct (decide (system_size m <= N.of_nat k)) as [Hle|Hgt].
  - rewrite take_app_le by lia. split; [intros [_ H]; by left|]. intros [[_ H]|[? _]]; [split; [lia|done]|lia].
  - destruct Hf as [Hf|Hf].
    + rewrite take_ge by (rewrite length_app; cbn; lia). split; [intros [_ H]; by right|].
      intros [[? _]|[_ H]]; [lia|split; [lia|done]].
    + split; [intros [? _]; lia|]. intros [[? _]|[? _]]; [lia|done].
Qed.
End report.

Lemma write_down_all msg l : forall ps i,
  NoDup l -> foldl (write_down msg) ps l !! i =
    if decide (i ∈ l) then (fun p => mk_process (p_phase p) (up p) (down p ++ [msg])) <$> ps !! i else ps !! i.
Proof.
  induction l as [|j l IH]; intros ps i Hnd; cbn [foldl]; [done|].
  apply NoDup_cons in Hnd as [Hj Hnd]. rewrite IH by done. unfold write_down.
  destruct (decide (i = j)) as [->|Hne].
  - rewrite decide_False by done. rewrite decide_True by left. by rewrite list_lookup_alter_eq.
  - rewrite list_lookup_alter_ne by done.
    destruct (decide (i ∈ l)) as [Hl|Hl]; [rewrite decide_True by (by right)|rewrite decide_False]; try done.
    by intros [?|?]%elem_of_cons.
Qed.

Lemma length_write_down msg l : forall ps, length (foldl (write_down msg) ps l) = length ps.
Proof. induction l as [|j l IH]; intros ps; [done|]. cbn. rewrite IH. apply length_alter. Qed.

Lemma inv_put s i p p' : inv s -> procs s !! i = Some p -> status (mgr s) i p' -> inv (put s i p').
Proof.
  intros [Hnd Hr Hs] Hp Hp'. split; cbn; [done|by rewrite length_insert|].
  intros j q Hj. apply list_lookup_insert_Some in Hj as [(<- & <- & _)|[_ Hj]]; [done|by apply Hs].
Qed.

Lemma status_report m i j q :
  i ∉ connections_vec m -> status m j q -> j <> i ->
  let m' := mk_manager (system_size m) (connections_vec m ++ [i]) (count_terminations m) in
  let full := N.of_nat (length (connections_vec m')) =? system_size m in
  status m' j (if full && bool_decide (j ∈ connections_vec m')
               then mk_process (p_phase q) (up q) (down q ++ [INIT_START_PHASE2]) else q).
Proof.
  intros Hi Hq Hne m' full. pose proof (triggered_report m i j) as Ht. fold m' in Ht.
  assert (Hmem : j ∈ connections_vec m' <-> j ∈ connections_vec m).
  { cbn. rewrite elem_of_app, list_elem_of_singleton. tauto. }
  assert (Hfull : full = true -> ~ triggered m j).
  { intros Hf%N.eqb_eq [Hle _]. cbn in Hf. rewrite length_app in Hf. cbn in Hf. lia. }
  destruct full eqn:Ef; cbn [andb].
  - apply N.eqb_eq in Ef. specialize (Hfull eq_refl).
    case_bool_decide as Hj; destruct Hq as [es Hes Hn|Hn|Hin Hnt|Htr|Htr|Htr]; try tauto; cbn.
    + apply st_triggered. tauto.
    + apply st_connecting; tauto.
    + apply st_reported; tauto.
  - apply N.eqb_neq in Ef.
    destruct Hq as [es Hes Hn|Hn|Hin Hnt|Htr|Htr|Htr]; constructor; tauto.
Qed.

Lemma manager_reads_inv s i r :
  inv s -> exec (ManagerReads i) s = Some r -> exists s', r = Ok s' /\ inv s'.
Proof.
  intros [Hnd Hr Hs] E. cbn in E. destruct (procs s !! i) as [p|] eqn:Hp; [|done]. cbn in E.
  case_bool_decide as Hi; [done|]. pose proof (Hs i p Hp) as Hst.
  destruct Hst as [es Hes Hn|Hn|Hin|Htr%triggered_member|Htr%triggered_member|Htr%triggered_member];
    cbn in E; try done. clear Hn.
  injection E as <-.
  eexists. split; [done|].
  set (m' := mk_manager (system_size (mgr s)) (connections_vec (mgr s) ++ [i]) (count_terminations (mgr s))).
  assert (Hnd' : NoDup (connections_vec m')).
  { cbn. apply NoDup_app. split; [done|]. split; [|apply NoDup_singleton]. set_solver. }
  pose proof (lookup_lt_Some _ _ _ Hp) as Hlt.
  set (ps := <[i := mk_process AwaitTrigger [] []]> (procs s)).
  set (full := N.of_nat (length (connections_vec m')) =? system_size m').
  assert (Hlk : forall j, foldl (write_down INIT_START_PHASE2) ps (if full then trigger_2nd_phase m' else []) !! j =
    (fun q => if full && bool_decide (j ∈ connections_vec m')
       then mk_process (p_phase q) (up q) (down q ++ [INIT_START_PHASE2]) else q) <$> ps !! j).
  { intros j. destruct full; cbn [andb foldl]; [|by destruct (ps !! j)].
    rewrite write_down_all by done. unfold trigger_2nd_phase. destruct (decide (j ∈ connections_vec m')) as [Hj|Hj];
      [by rewrite bool_decide_eq_true_2|rewrite bool_decide_eq_false_2 by done; by destruct (ps !! j)]. }
  split; cbn [mgr procs]; [done| |].
  - rewrite length_write_down. unfold ps. rewrite length_insert. apply Forall_app. split; [done|]. by apply Forall_singleton.
  - intros j q Hj. assert (Hq := eq_trans (eq_sym (Hlk j)) Hj). apply fmap_Some in Hq as (q0 & Hq0 & ->). clear Hj.
    apply list_lookup_insert_Some in Hq0 as [(<- & <- & _)|[Hne Hq0]].
    + cbn [p_phase up down app]. pose proof (triggered_report (mgr s) i i) as Ht. fold m' in Ht.
      assert (i ∈ connections_vec m') as Him by (cbn; set_solver).
      rewrite (bool_decide_eq_true_2 _ Him), andb_true_r. destruct full eqn:Ef.
      * apply N.eqb_eq in Ef. apply st_triggered. tauto.
      * apply N.eqb_neq in Ef. apply st_waiting; [done|]. intros [Hold%triggered_member|[? _]]%Ht; done.
    + apply status_report; auto.
Qed.

Lemma exec_inv e s r : inv s -> exec e s = Some r -> exists s', r = Ok s' /\ inv s'.
Proof.
  intros Hinv E. destruct e as [i|i|i|i]; [| by eapply manager_reads_inv| |];
    cbn in E; destruct (procs s !! i) as [p|] eqn:Hp; try done; cbn in E;
    pose proof (inv_status s Hinv i p Hp) as Hst.
  - destruct Hst as [es Hes Hn| | | | |]; cbn in E; try done. injection E as <-.
    destruct es as [|[] es]; [by apply not_elem_of_nil in Hes| |]; cbn [connect].
    + eexists. split; [done|]. eapply inv_put; [done..|]. by apply st_reported.
    + apply elem_of_cons in Hes as [|Hes]; [done|]. destruct es as [|e es]; [by apply not_elem_of_nil in Hes|].
      eexists. split; [done|]. eapply inv_put; [done..|]. by apply st_connecting.
  - destruct Hst as [es Hes Hn| | |Htr| |]; cbn in E; try done. injection E as <-.
    eexists. split; [done|]. eapply inv_put; [done..|]. by apply st_running.
  - destruct Hst as [es Hes Hn| | | |Htr|]; cbn in E; try done. injection E as <-.
    eexists. split; [done|]. eapply inv_put; [done..|]. by apply st_stopped.
Qed.

(** ** Reachable states *)

Lemma startup_initial_inv size endpoints : Forall (fun es => true ∈ es) endpoints -> inv (initial size endpoints).
Proof.
  intros He. split; cbn; [apply NoDup_nil_2|by apply Forall_nil|].
  intros i p. rewrite list_lookup_fmap. intros (es & Hes & ->)%fmap_Some.
  apply st_connecting; [by eapply (Forall_lookup_1 _ _ _ _ He)|apply not_elem_of_nil].
Qed.

(** The sizes never change. *)
Lemma exec_sizes e s s' : exec e s = Some (Ok s') ->
  length (procs s') = length (procs s) /\ system_size (mgr s') = system_size (mgr s).
Proof.
  intros E. destruct e as [i|i|i|i]; cbn in E; destruct (procs s !! i) as [p|]; try done; cbn in E.
  - destruct (p_phase p); try done. destruct (connect _ _); [|done]. injection E as <-. cbn. by rewrite length_insert.
  - case_bool_decide; [done|]. destruct (up p) as [|h rest]; [done|].
    unfold manager_read_header in E. case_bool_decide; [|done]. injection E as <-. cbn.
    by rewrite length_write_down, length_insert.
  - destruct (p_phase p); try done. destruct (down p); try done.
    destruct (handle_read_trigger_message _ _); [|done]. injection E as <-. cbn. by rewrite length_insert.
  - destruct (p_phase p); try done. injection E as <-. cbn. by rewrite length_insert.
Qed.

Lemma startup_reachable_inv size endpoints s :
  Forall (fun es => true ∈ es) endpoints -> rtc step (initial size endpoints) s ->
  inv s /\ length (procs s) = length endpoints /\ system_size (mgr s) = size.
Proof.
  intros He. revert s. apply rtc_ind_r; [|intros s s' _ [e E] IH].
  - split; [by apply startup_initial_inv|]. cbn. by rewrite length_fmap.
  - destruct IH as (Hinv & Hl & Hsz). destruct (exec_inv e s _ Hinv E) as (s2 & [= <-] & Hinv').
    destruct (exec_sizes e s s' E) as [-> ->]. done.
Qed.

(** Distinct numbers below [n], [n] of them, are all of them. *)
Lemma all_members n (l : list nat) :
  NoDup l -> Forall (fun i => (i < n)%nat) l -> (n <= length l)%nat -> forall j, (j < n)%nat -> j ∈ l.
Proof.
  intros Hnd Hr Hl j Hj.
  assert (l ⊆+ seq 0 n) as Hsub.
  { apply NoDup_submseteq; [done|]. intros x Hx. apply elem_of_seq. rewrite Forall_forall in Hr.
    specialize (Hr x Hx). lia. }
  assert (l ≡ₚ seq 0 n) as ->; [|apply elem_of_seq; lia].
  apply submseteq_length_Permutation; [done|]. by rewrite length_seq.
Qed.

(** C32.  The second phase is a barrier: as long as one of the servers has not
    reported the end of its first phase to the manager, no server begins its
    second phase; and no handler of the manager or of a server throws. *)
Theorem second_phase_barrier endpoints s :
  Forall (fun es => true ∈ es) endpoints -> rtc step (initial (N.of_nat (length endpoints)) endpoints) s ->
  (forall e r, exec e s = Some r -> is_ok r = true) /\
  ((exists i p, procs s !! i = Some p /\ (p_phase p = Running \/ p_phase p = Stopped)) ->
   forall j p, procs s !! j = Some p -> j ∈ connections_vec (mgr s) /\ forall es, p_phase p <> Connecting es).
Proof.
  intros He Hs. destruct (startup_reachable_inv _ _ s He Hs) as (Hinv & Hl & Hsz). split.
  { intros e r E. by destruct (exec_inv e s r Hinv E) as (s' & -> & _). }
  intros (i & p & Hp & Hrun) j q Hq. pose proof Hinv as [Hnd Hr Hst].
  assert (triggered (mgr s) i) as [Hle _].
  { destruct (Hst i p Hp); cbn in Hrun; try done; by destruct Hrun. }
  assert (Hj : j ∈ connections_vec (mgr s)).
  { apply (all_members (length (procs s))); [done|done|lia|]. by eapply lookup_lt_Some. }
  split; [done|]. destruct (Hst j q Hq); cbn; intros es'; try done.
Qed.

(** ** Termination *)

Definition weight (p : process) : nat :=
  match p_phase p with
  | Connecting es => length es + 4
  | AwaitTrigger => 2 + length (up p)
  | Running => 1
  | Stopped => 0
  end.

Definition measure (s : sys) : nat := sum_list_with weight (procs s).

Lemma sum_insert ps i p p' :
  ps !! i = Some p -> (sum_list_with weight (<[i := p']> ps) + weight p = sum_list_with weight ps + weight p')%nat.
Proof.
  revert i. induction ps as [|q ps IH]; intros [|i] Hp; try done.
  - injection Hp as ->. change (<[0%nat := p']> (p :: ps)) with (p' :: ps). cbn. lia.
  - change (<[S i := p']> (q :: ps)) with (q :: <[i := p']> ps). specialize (IH i Hp). cbn [sum_list_with]. lia.
Qed.

Lemma sum_write_down msg l : forall ps, sum_list_with weight (foldl (write_down msg) ps l) = sum_list_with weight ps.
Proof.
  induction l as [|j l IH]; intros ps; [done|]. cbn. rewrite IH. unfold write_down. clear IH.
  revert j. induction ps as [|q ps IHp]; intros [|j]; cbn; [done..|]. by rewrite IHp.
Qed.

Lemma exec_measure e s s' : inv s -> exec e s = Some (Ok s') -> (measure s' < measure s)%nat.
Proof.
  intros Hinv E. unfold measure.
  destruct e as [i|i|i|i]; cbn in E; destruct (procs s !! i) as [p|] eqn:Hp; try done; cbn in E;
    pose proof (inv_status s Hinv i p Hp) as Hst; try (case_bool_decide; [done|]);
    destruct Hst as [es Hes Hn| |Hin|Htr|Htr|Htr]; cbn in E; try done.
  - destruct es as [|[] es]; [done| |]; cbn in E.
    + injection E as <-. cbn [procs put]. pose proof (sum_insert _ _ _ (mk_process AwaitTrigger [INIT_PHASE1_COMPLETED] []) Hp) as Hsum.
      unfold weight in Hsum at 2 4. cbn in Hsum. cbn. lia.
    + destruct es as [|e es]; [done|]. injection E as <-. cbn [procs put].
      pose proof (sum_insert _ _ _ (mk_process (Connecting (e :: es)) [] []) Hp) as Hsum.
      unfold weight in Hsum at 2 4. cbn in Hsum. cbn. lia.
  - injection E as <-. cbn [procs]. rewrite sum_write_down.
    pose proof (sum_insert _ _ _ (mk_process AwaitTrigger [] []) Hp) as Hsum. unfold weight in Hsum at 2 4. cbn in Hsum. lia.
  - injection E as <-. cbn [procs put].
    pose proof (sum_insert _ _ _ (mk_process Running [] []) Hp) as Hsum. unfold weight in Hsum at 2 4. cbn in Hsum. cbn. lia.
  - injection E as <-. cbn [procs put].
    pose proof (sum_insert _ _ _ (mk_process Stopped [HEADER_TERMINATE] []) Hp) as Hsum. unfold weight in Hsum at 2 4. cbn in Hsum.
    unfold notify_manager. cbn. lia.
Qed.

(** Starting up ends and succeeds: every turn brings the system closer to
    its end, and when no handler of the start-up has anything left to do, all
    servers have begun their second phase. *)
Theorem startup_completes endpoints s :
  Forall (fun es => true ∈ es) endpoints -> rtc step (initial (N.of_nat (length endpoints)) endpoints) s ->
  (forall s', step s s' -> (measure s' < measure s)%nat) /\
  ((forall i, exec (Connects i) s = None /\ exec (ManagerReads i) s = None /\ exec (ServerReads i) s = None) ->
   Forall (fun p => p_phase p = Running \/ p_phase p = Stopped) (procs s)).
Proof.
  intros He Hs. destruct (startup_reachable_inv _ _ s He Hs) as (Hinv & Hl & Hsz). split.
  { intros s' [e E]. by eapply exec_measure. }
  intros Hidle. pose proof Hinv as [Hnd Hr Hst].
  assert (Hall : forall j p, procs s !! j = Some p -> j ∈ connections_vec (mgr s)).
  { intros j p Hp. destruct (decide (j ∈ connections_vec (mgr s))) as [|Hn]; [done|]. exfalso.
    destruct (Hidle j) as (E1 & E2 & E3). cbn in E1, E2, E3. rewrite Hp in E1, E2, E3. cbn in E1, E2, E3.
    rewrite bool_decide_eq_false_2 in E2 by done.
    destruct (Hst j p Hp) as [es Hes Hn'|Hn'|Hin|Htr|Htr|Htr]; try done; by apply triggered_member in Htr. }
  apply Forall_lookup. intros j p Hp. pose proof (Hall j p Hp) as Hj.
  destruct (Hidle j) as (_ & _ & E3). cbn in E3. rewrite Hp in E3. cbn in E3.
  destruct (Hst j p Hp) as [es Hes Hn'|Hn'|Hin Hnt|Htr|Htr|Htr]; cbn in E3; try done; cbn; auto. exfalso.
  apply Hnt. assert (length (procs s) <= length (connections_vec (mgr s)))%nat.
  { rewrite <- (length_seq (length (procs s)) 0). apply submseteq_length, NoDup_submseteq; [apply NoDup_seq|].
    intros x [_ Hx]%elem_of_seq. destruct (lookup_lt_is_Some_2 (procs s) x) as [q Hq]; [lia|]. by eapply Hall. }
  split; [lia|]. rewrite take_ge; [done|].
  rewrite Hsz, Nat2N.id, <- Hl. rewrite <- (length_seq (length (procs s)) 0).
  apply submseteq_length, NoDup_submseteq; [done|]. intros x Hx. apply elem_of_seq.
  rewrite Forall_forall in Hr. specialize (Hr x Hx). lia.
Qed.

(** ** A concrete start-up *)

(** Two servers; the first endpoint the second one tries does not answer. *)
Definition two : list (list bool) := [[true]; [false; true]].

Fixpoint run_events (es : list event) (s : sys) : option sys :=
  match es with
  | [] => Some s
  | e :: es => match exec e s with Some (Ok s') => run_events es s' | _ => None end
  end.

Lemma run_events_rtc es : forall s s', run_events es s = Some s' -> rtc step s s'.
Proof.
  induction es as [|e es IH]; intros s s' E; cbn in E; [by injection E as ->|].
  destruct (exec e s) as [[s1|]|] eqn:Ee; try done. eapply rtc_l; [by exists e|by apply IH].
Qed.

Definition two_events : list event :=
  [Connects 1; Connects 0; ManagerReads 0; Connects 1; ManagerReads 1; ServerReads 1].
Definition two_started : sys := default (initial 2 two) (run_events two_events (initial 2 two)).

Lemma two_ok : Forall (fun es => true ∈ es) two.
Proof. repeat (apply Forall_cons; split; [set_solver|]). by apply Forall_nil. Qed.

(** The second server runs, the first one has still to read the trigger. *)
Lemma second_phase_barrier_witness :
  (forall e r, exec e two_started = Some r -> is_ok r = true) /\
  ((exists i p, procs two_started !! i = Some p /\ (p_phase p = Running \/ p_phase p = Stopped)) ->
   forall j p, procs two_started !! j = Some p ->
     j ∈ connections_vec (mgr two_started) /\ forall es, p_phase p <> Connecting es).
Proof.
  apply (second_phase_barrier two two_started two_ok). apply (run_events_rtc two_events). vm_compute. reflexivity.
Defined.

Lemma startup_completes_witness :
  (forall s', step two_started s' -> (measure s' < measure two_started)%nat) /\
  ((forall i, exec (Connects i) two_started = None /\ exec (ManagerReads i) two_started = None /\
              exec (ServerReads i) two_started = None) ->
   Forall (fun p => p_phase p = Running \/ p_phase p = Stopped) (procs two_started)).
Proof.
  apply (startup_completes two two_started two_ok). apply (run_events_rtc two_events). vm_compute. reflexivity.
Defined.

Example two_started_phases : p_phase <$> procs two_started = [AwaitTrigger; Running].
Proof. by vm_compute. Qed.

End StartUp.
