(* ===== verification/ContextTerms.v ===== *)
(** * Context terms, schematic beliefs and schematic bridge rules

    include/mcs/Variable.h and include/mcs/Rule.h: a context term is a 64-bit
    word whose two most significant bits tell a context variable from a
    context id; a variable carries the context it appears in and its own
    number.  A schematic belief carries its type in the same two bits. *)

From S2P Require Import Prelude QueryID.
Import QueryID.

Module ContextTerms.

Abbreviation ContextTerm := N (only parsing).
Abbreviation SchematicBelief := N (only parsing).
Abbreviation ContextID := N (only parsing).

Definition IS_ORDINARY_BELIEF : N := 0.
Definition IS_EXACT_SCHEMATIC_BELIEF : N := 2.
Definition IS_SIMILAR_SCHEMATIC_BELIEF : N := 3.
Definition IS_VARIABLE : N := 1.
Definition TYPE_RESERVE : N := 2.

Definition MAX : N := W64 - 1.
Definition CONTEXT_TERM_SIZE : N := 64.
Definition SCHEMATIC_BELIEF_SIZE : N := 64.
Definition SHIFT_HALF : N := (CONTEXT_TERM_SIZE - TYPE_RESERVE) / 2.
Definition MASK_CONTEXT_VARIABLE : N := N.shiftr MAX TYPE_RESERVE.
Definition MASK_VARIABLE_ID : N := N.shiftr MAX (TYPE_RESERVE + SHIFT_HALF).
Definition MASK_CONTEXT_ID : N := N.land (N.shiftr MAX TYPE_RESERVE) (u64_shl MAX SHIFT_HALF).
Definition MASK_BELIEF : N := N.shiftr MAX TYPE_RESERVE.
Definition MASK_CONSTANT : N := N.shiftr MAX TYPE_RESERVE.

(** [~m] on a 64-bit word *)
Definition bnot (m : N) : N := N.lxor MAX m.

(** ** Schematic beliefs *)

Definition sBeliefType (sb : SchematicBelief) : N :=
  N.shiftr sb (SCHEMATIC_BELIEF_SIZE - TYPE_RESERVE).

Definition set_sBeliefType (sb : SchematicBelief) (type : N) : SchematicBelief :=
  N.lor (N.land sb MASK_BELIEF) (u64_shl type (SCHEMATIC_BELIEF_SIZE - TYPE_RESERVE)).

Definition sBelief (sb : SchematicBelief) : N := N.land sb MASK_BELIEF.

Definition set_sBelief (sb : SchematicBelief) (b : N) : SchematicBelief :=
  N.lor (N.land sb (bnot MASK_BELIEF)) b.

Definition constructSchematicBelief (type schematic_constant : N) : SchematicBelief :=
  set_sBeliefType (set_sBelief 0 schematic_constant) type.

(** ** Context terms *)

(** The integer is converted to [bool]. *)
Definition isCtxVar (num : ContextTerm) : bool :=
  negb (N.land (N.shiftr num (CONTEXT_TERM_SIZE - TYPE_RESERVE)) IS_VARIABLE =? 0).

Definition ctxVar (num : ContextTerm) : ContextTerm :=
  N.lor num (u64_shl 1 (CONTEXT_TERM_SIZE - TYPE_RESERVE)).

Definition ctxID (num : ContextTerm) : res N :=
  _ ← assert (isCtxVar num);
  mret (N.shiftr (N.land num MASK_CONTEXT_VARIABLE) SHIFT_HALF).

Definition set_ctxID (num : ContextTerm) (ctx : N) : ContextTerm :=
  N.lor (N.land num (bnot MASK_CONTEXT_ID)) (u64_shl ctx SHIFT_HALF).

Definition varID (num : ContextTerm) : res N :=
  _ ← assert (isCtxVar num);
  mret (N.land num MASK_VARIABLE_ID).

Definition set_varID (num : ContextTerm) (var : N) : ContextTerm :=
  ctxVar (N.lor (N.land num (bnot MASK_VARIABLE_ID)) var).

Definition ctxVarTerm (contextID variableID : N) : ContextTerm :=
  set_varID (set_ctxID 0 contextID) variableID.

Definition ctxConstTerm (context_const : N) : res ContextTerm :=
  _ ← assert (negb (isCtxVar context_const));
  mret (N.land context_const MASK_CONSTANT).

(** ** Schematic bridge rules: include/mcs/Rule.h *)

Abbreviation Atom := N (only parsing).
Abbreviation Head := (list Atom) (only parsing).
Abbreviation BridgeAtom := (ContextTerm * Atom)%type (only parsing).
Abbreviation PositiveBridgeBody := (list BridgeAtom) (only parsing).
Abbreviation NegativeBridgeBody := (list BridgeAtom) (only parsing).

(** [std::pair<HeadPtr, BridgeBody>], a [BridgeBody] being a pair as well. *)
Record BridgeRule := mk_bridge_rule {
  first : Head;
  second : PositiveBridgeBody * NegativeBridgeBody;
}.

Definition getHead (r : BridgeRule) : Head := first r.
Definition getBody (r : BridgeRule) : PositiveBridgeBody * NegativeBridgeBody := second r.
Definition getPositiveBody (r : BridgeRule) : PositiveBridgeBody := (second r).1.
Definition getNegativeBody (r : BridgeRule) : NegativeBridgeBody := (second r).2.

(** ** The fields of a context term *)

Lemma isCtxVar_testbit num : isCtxVar num = N.testbit num 62.
Proof.
  unfold isCtxVar. change (CONTEXT_TERM_SIZE - TYPE_RESERVE) with 62.
  rewrite <- (N.add_0_l 62) at 2. rewrite <- N.shiftr_spec'.
  generalize (N.shiftr num 62). intros [|[p|p|]]; reflexivity.
Qed.

Lemma ctxID_field num : isCtxVar num = true -> ctxID num = Ok (field 31 31 num).
Proof.
  intros H. unfold ctxID. rewrite H. change (assert true) with (Ok tt). rsimpl. f_equal.
  apply N.bits_inj. intros i. rewrite field_testbit, N.shiftr_spec', N.land_spec.
  change MASK_CONTEXT_VARIABLE with (N.ones 62). change SHIFT_HALF with 31.
  destruct (N.ltb_spec i 31).
  - by rewrite N.ones_spec_low, andb_true_r by lia.
  - by rewrite N.ones_spec_high, andb_false_r by lia.
Qed.

Lemma ctxID_small num c : ctxID num = Ok c -> c < 2 ^ 31.
Proof.
  unfold ctxID. intros H. res_inv. destruct x. change SHIFT_HALF with 31.
  change MASK_CONTEXT_VARIABLE with (N.ones 62).
  rewrite N.land_ones, N.shiftr_div_pow2. apply N.Div0.div_lt_upper_bound.
  rewrite <- N.pow_add_r. apply N.mod_lt. done.
Qed.

(** A variable term is the type bit and two fields. *)
Lemma ctxVarTerm_fields c v :
  c < 2 ^ 31 -> v < 2 ^ 31 ->
  ctxVarTerm c v = N.lor (N.lor (u64_shl c 31) v) (u64_shl 1 62).
Proof.
  intros Hc Hv. unfold ctxVarTerm, set_varID, ctxVar, set_ctxID.
  change (CONTEXT_TERM_SIZE - TYPE_RESERVE) with 62. change SHIFT_HALF with 31. f_equal. f_equal.
  rewrite N.land_0_l, N.lor_0_l. unfold bnot.
  change (N.land (u64_shl c 31) (N.lxor MAX MASK_VARIABLE_ID)) with (unset 0 31 (u64_shl c 31)).
  apply unset_clear; [by apply (shl_below c 31)|done|].
  apply (field_other c 31); [done|done|lia].
Qed.

Lemma ctxVarTerm_is_var c v : c < 2 ^ 31 -> v < 2 ^ 31 -> isCtxVar (ctxVarTerm c v) = true.
Proof.
  intros Hc Hv. rewrite isCtxVar_testbit, ctxVarTerm_fields by done.
  rewrite !N.lor_spec. replace (N.testbit (u64_shl 1 62) 62) with true by reflexivity.
  apply orb_true_r.
Qed.

Lemma ctxID_ctxVarTerm c v : c < 2 ^ 31 -> v < 2 ^ 31 -> ctxID (ctxVarTerm c v) = Ok c.
Proof.
  intros Hc Hv. rewrite ctxID_field by (by apply ctxVarTerm_is_var).
  rewrite ctxVarTerm_fields by done. rewrite !field_lor, (field_same c 31) by done.
  rewrite (field_low_other v 31 31 31) by done.
  rewrite (field_other 1 1 62 31 31) by (done || lia). by rewrite !N.lor_0_r.
Qed.

Lemma varID_ctxVarTerm c v : c < 2 ^ 31 -> v < 2 ^ 31 -> varID (ctxVarTerm c v) = Ok v.
Proof.
  intros Hc Hv. unfold varID. rewrite ctxVarTerm_is_var by done.
  change (assert true) with (Ok tt). rsimpl. f_equal.
  change (N.land (ctxVarTerm c v) MASK_VARIABLE_ID)
    with (N.land (ctxVarTerm c v) (N.shiftl (N.ones 31) 0)).
  rewrite <- (N.shiftr_0_r (N.land _ _)). change (field 0 31 (ctxVarTerm c v) = v).
  rewrite ctxVarTerm_fields by done. rewrite !field_lor, (field_low v 31) by done.
  rewrite (field_other c 31 31 31 0), (field_other 1 1 62 31 0) by (done || lia).
  by rewrite N.lor_0_l, N.lor_0_r.
Qed.

Lemma ctxConstTerm_id c : c < 2 ^ 62 -> ctxConstTerm c = Ok c /\ isCtxVar c = false.
Proof.
  intros Hc. assert (Hv : isCtxVar c = false).
  { rewrite isCtxVar_testbit. by apply (lt_pow2_bits c 62). }
  split; [|done]. unfold ctxConstTerm. rewrite Hv. cbn [negb].
  change (assert true) with (Ok tt). rsimpl. f_equal. change MASK_CONSTANT with (N.ones 62).
  rewrite N.land_ones. by apply N.mod_small.
Qed.

Lemma constructSchematicBelief_fields t b :
  t < 4 -> b < 2 ^ 62 ->
  sBeliefType (constructSchematicBelief t b) = t /\ sBelief (constructSchematicBelief t b) = b.
Proof.
  intros Ht Hb. assert (Ht' : t < 2 ^ 2) by done.
  assert (Hland : N.land b (N.ones 62) = b) by (rewrite N.land_ones; by apply N.mod_small).
  assert (E : constructSchematicBelief t b = N.lor b (u64_shl t 62)).
  { unfold constructSchematicBelief, set_sBeliefType, set_sBelief.
    change (SCHEMATIC_BELIEF_SIZE - TYPE_RESERVE) with 62.
    change MASK_BELIEF with (N.ones 62). by rewrite N.land_0_l, N.lor_0_l, Hland. }
  rewrite E. split.
  - unfold sBeliefType. change (SCHEMATIC_BELIEF_SIZE - TYPE_RESERVE) with 62.
    rewrite N.shiftr_lor, (u64_shl_field t 2) by done.
    rewrite N.shiftr_shiftl_l, N.shiftl_0_r by done.
    rewrite N.shiftr_div_pow2, N.div_small by done. apply N.lor_0_l.
  - unfold sBelief. change MASK_BELIEF with (N.ones 62).
    rewrite N.land_lor_distr_l, Hland.
    replace (N.land (u64_shl t 62) (N.ones 62)) with 0; [apply N.lor_0_r|].
    pose proof (field_other t 2 62 62 0 Ht' ltac:(done) ltac:(lia)) as H.
    unfold field in H. by rewrite N.shiftl_0_r, N.shiftr_0_r in H.
Qed.

(** Packing and reading context terms and schematic beliefs are inverse:
    a variable term of context [c] with number [v] is recognized as a variable
    and gives [c] and [v] back, a context id is recognized as a constant and
    is its own term, and a schematic belief gives its type and number back;
    variables and constants never collide. *)
Theorem context_term_roundtrip c v k t b :
  c < 2 ^ 31 -> v < 2 ^ 31 -> k < 2 ^ 62 -> t < 4 -> b < 2 ^ 62 ->
  isCtxVar (ctxVarTerm c v) = true /\ ctxID (ctxVarTerm c v) = Ok c /\
  varID (ctxVarTerm c v) = Ok v /\
  ctxConstTerm k = Ok k /\ isCtxVar k = false /\ ctxVarTerm c v <> k /\
  sBeliefType (constructSchematicBelief t b) = t /\
  sBelief (constructSchematicBelief t b) = b.
Proof.
  intros Hc Hv Hk Ht Hb.
  destruct (ctxConstTerm_id k Hk) as [Hk1 Hk2].
  pose proof (ctxVarTerm_is_var c v Hc Hv) as Hvar.
  repeat split; auto using ctxID_ctxVarTerm, varID_ctxVarTerm.
  - congruence.
  - by apply constructSchematicBelief_fields.
  - by apply constructSchematicBelief_fields.
Qed.

Lemma context_term_roundtrip_witness :
  ctxID (ctxVarTerm 3 5) = Ok 3 /\ varID (ctxVarTerm 3 5) = Ok 5 /\
  sBelief (constructSchematicBelief IS_EXACT_SCHEMATIC_BELIEF 9) = 9.
Proof.
  destruct (context_term_roundtrip 3 5 7 2 9) as (_ & H1 & H2 & _ & _ & _ & _ & H3);
    [reflexivity..|]. auto.
Defined.

(** A context id of more than 31 bits spills into the type bits: the term of
    the variable [v] of context 2^31 is the one of a variable of context 0. *)
Lemma wide_context_id_lost v : v < 2 ^ 31 -> ctxVarTerm (2 ^ 31) v = ctxVarTerm 0 v.
Proof.
  intros Hv. unfold ctxVarTerm, set_varID, ctxVar, set_ctxID.
  change (CONTEXT_TERM_SIZE - TYPE_RESERVE) with 62.
  replace (N.land (N.lor (N.land 0 (bnot MASK_CONTEXT_ID)) (u64_shl (2 ^ 31) SHIFT_HALF))
             (bnot MASK_VARIABLE_ID)) with (u64_shl 1 62) by reflexivity.
  replace (N.land (N.lor (N.land 0 (bnot MASK_CONTEXT_ID)) (u64_shl 0 SHIFT_HALF))
             (bnot MASK_VARIABLE_ID)) with 0 by reflexivity.
  rewrite N.lor_0_l, (N.lor_comm _ v), <- N.lor_assoc, N.lor_diag. done.
Qed.

End ContextTerms.
