(* ===== verification/Matches.v ===== *)
(** * Matches, context substitutions and the sorting of candidates

    include/dyndmcs/Match.h, ContextSubstitution.h, BaseSortingStrategy.h and
    the sorting strategies of include/dyndmcs/.  The boost multi-index tables
    are the class [Indexed] of [Tables] with range queries; qualities are
    single precision floats, as the Standard Library specifies them. *)

From Stdlib Require Import SpecFloat.
From S2P Require Import Prelude Tables ContextTerms.
Import Tables ContextTerms.

Module Matches.

(** ** [float]: IEEE 754 binary32, rounding to nearest *)

Abbreviation float := spec_float (only parsing).

Definition float_of_size (n : N) : float := binary_normalize 24 128 (Z.of_N n) 0 false.
Definition fsub : float -> float -> float := SFsub 24 128.
Definition fadd : float -> float -> float := SFadd 24 128.
Definition fdiv : float -> float -> float := SFdiv 24 128.
Definition fneg : float -> float := SFopp.
Definition flt : float -> float -> bool := SFltb.

Lemma flt_asym a b : flt a b = true -> flt b a = false.
Proof.
  unfold flt, SFltb. destruct a as [sa|sa| |sa ma ea], b as [sb|sb| |sb mb eb]; cbn;
    try (destruct sa); try (destruct sb); try done.
  all: rewrite (Z.compare_antisym ea eb); destruct (Z.compare ea eb) eqn:E; cbn; try done.
  all: change (Pos.compare_cont Eq ?x ?y) with (x ?= y)%positive in *.
  all: rewrite (Pos.compare_antisym mb ma); by destruct (mb ?= ma)%positive.
Qed.

(** ** Matches *)

Record Match := mk_match {
  srcCtx : N;
  m_sym : N;
  m_tarCtx : N;
  m_img : N;
  m_quality : float;
}.

(** Two matches conflict in the unique index [Tag::SrcSymTarImg]. *)
Definition match_conflict (x y : Match) : bool :=
  (srcCtx x =? srcCtx y) && (m_sym x =? m_sym y) &&
  (m_tarCtx x =? m_tarCtx y) && (m_img x =? m_img y).

(** The keys of the indices [Tag::SrcSym] and [Tag::SrcSymTar]. *)
Definition key_SrcSym (s y : N) (m : Match) : bool := (srcCtx m =? s) && (m_sym m =? y).
Definition key_SrcSymTar (s y t : N) (m : Match) : bool :=
  key_SrcSym s y m && (m_tarCtx m =? t).

(** [CompareMatch(ctx_id)] *)
Definition CompareMatch (ctx_id : N) (m : Match) : bool := m_tarCtx m =? ctx_id.

(** ** Context matches and substitutions *)

Record ContextMatch := mk_context_match {
  ctx_term : ContextTerm;
  sym : N;
  tarCtx : ContextID;
  img : N;
  quality : float;
}.

(** The two unique indices: the second, on term and symbol, subsumes the
    first, on term, symbol, target and image. *)
Definition cm_conflict (x y : ContextMatch) : bool :=
  (ctx_term x =? ctx_term y) && (sym x =? sym y).

Definition key_term (t : ContextTerm) (e : ContextMatch) : bool := ctx_term e =? t.
Definition key_term_sym (t : ContextTerm) (y : N) (e : ContextMatch) : bool :=
  (ctx_term e =? t) && (sym e =? y).
Definition key_tar (c : ContextID) (e : ContextMatch) : bool := tarCtx e =? c.

(** [lower_bound(k)] to [upper_bound(k)] of an ordered index: the elements
    whose key is [k]. *)
Class Ranged (A T : Type) := idx_range : (A -> bool) -> T -> list A.

Class RangedLaws {A T} `{!Indexed A c o T, !Ranged A T} : Prop :=
  elem_of_range p t (a : A) : a ∈ idx_range p t <-> a ∈ idx_elements t /\ p a = true.
#[global] Arguments RangedLaws A T {c o _ _}.

#[export] Instance list_ranged A : Ranged A (list A) := fun p t => List.filter p t.

#[export] Instance list_ranged_laws A c o :
  RangedLaws A (list A) (c := c) (o := o) (Ranged0 := list_ranged A)
    (Indexed0 := list_indexed A c o).
Proof.
  intros p t a. unfold idx_range, list_ranged.
  by rewrite list_elem_of_In, filter_In, <- list_elem_of_In.
Qed.

(** A match table and a context substitution are multi-index containers; the
    order within a range is not used. *)
Class MatchTable (MT : Type) := {
  mt_indexed :: Indexed Match match_conflict (≡ₚ) MT;
  mt_ranged :: Ranged Match MT;
}.
Class MatchTableLaws (MT : Type) `{MatchTable MT} : Prop := {
  mt_indexed_laws :: IndexedLaws Match match_conflict (≡ₚ) MT;
  mt_ranged_laws :: RangedLaws Match MT;
}.
Class ContextSubstitution (CS : Type) := {
  cs_indexed :: Indexed ContextMatch cm_conflict (≡ₚ) CS;
  cs_ranged :: Ranged ContextMatch CS;
}.
Class ContextSubstitutionLaws (CS : Type) `{ContextSubstitution CS} : Prop := {
  cs_indexed_laws :: IndexedLaws ContextMatch cm_conflict (≡ₚ) CS;
  cs_ranged_laws :: RangedLaws ContextMatch CS;
}.

#[export] Instance list_match_table : MatchTable (list Match) := {}.
#[export] Instance list_match_table_laws : MatchTableLaws (list Match).
Proof. split; apply _. Qed.
#[export] Instance list_context_substitution : ContextSubstitution (list ContextMatch) := {}.
#[export] Instance list_context_substitution_laws : ContextSubstitutionLaws (list ContextMatch).
Proof. split; apply _. Qed.

Section Substitutions.
Context {CS : Type} `{ContextSubstitution CS}.

Definition cs_elements (cs : CS) : list ContextMatch := idx_elements cs.
Definition cs_insert (cs : CS) (m : ContextMatch) : CS := (idx_insert m cs).1.

(** [already_chosen(cs, ck, c)]: a context other than [ck] is mapped to [c]. *)
Fixpoint already_chosen_loop (ck : ContextID) (l : list ContextMatch) : res bool :=
  match l with
  | [] => mret false
  | low :: l =>
      c ← ctxID (ctx_term low);
      if negb (c =? ck) then mret true else already_chosen_loop ck l
  end.

Definition already_chosen_by_other (cs : CS) (ck c : ContextID) : res bool :=
  already_chosen_loop ck (idx_range (key_tar c) cs).

(** [already_chosen(cs, c)] *)
Definition already_chosen (cs : CS) (c : ContextID) : bool :=
  match idx_range (key_tar c) cs with [] => false | _ => true end.

Definition average_quality (cs : CS) : float :=
  fdiv (foldl (fun tmp e => fadd tmp (quality e)) (S754_zero false) (cs_elements cs))
       (float_of_size (N.of_nat (length (cs_elements cs)))).

End Substitutions.

Section Connections.
Context {MT : Type} `{MatchTable MT}.

(** The matrix [mark] and the loop over the table; ids start at 1. *)
Definition mark_step (st : N * list (list bool)) (m : Match) : res (N * list (list bool)) :=
  let '(nuc, mark) := st in
  let s := u64_sub (srcCtx m) 1 in
  let t := u64_sub (m_tarCtx m) 1 in
  row ← vec_at mark s;
  b ← vec_at row t;
  if negb b
  then mret (u64_add nuc 1, <[N.to_nat s := <[N.to_nat t := true]> row]> mark)
  else mret (nuc, mark).

Definition no_unique_connections (mt : MT) (poolsize : N) : res N :=
  let mark := replicate (N.to_nat poolsize) (replicate (N.to_nat poolsize) false) in
  st ← foldM mark_step (0, mark) (idx_elements mt);
  mret st.1.

End Connections.

(** ** Sorting strategies *)

(** [std::list::sort], a stable sort by a comparison. *)
Fixpoint insert_sorted {A} (lt : A -> A -> bool) (x : A) (l : list A) : list A :=
  match l with
  | [] => [x]
  | y :: l' => if lt y x then y :: insert_sorted lt x l' else x :: l
  end.

Definition list_sort {A} (lt : A -> A -> bool) (l : list A) : list A :=
  foldr (insert_sorted lt) [] l.

(** [CompareQuality] on positions paired with their quality. *)
Definition CompareQuality {A} (i j : A * float) : bool := flt i.2 j.2.

(** [BaseSortingStrategy::sort]: [calculateQuality] stores a quality for every
    position, then the positions are sorted by it. *)
Fixpoint calculate {A} (q : A -> res float) (l : list A) : res (list (A * float)) :=
  match l with
  | [] => mret []
  | a :: l => v ← q a; r ← calculate q l; mret ((a, v) :: r)
  end.

Definition sort {A} (calculateQuality : A -> res float) (l : list A) : res (list A) :=
  ql ← calculate calculateQuality l;
  mret (list_sort CompareQuality ql).*1.

Section Strategies.
Context {CS : Type} `{ContextSubstitution CS}.

Definition NoSBACtx_quality (sba_count : list N) (m : Match) : res float :=
  n ← vec_at sba_count (m_tarCtx m); mret (float_of_size n).

Definition NoSBAQualityCtx_quality (sba_count : list N) (m : Match) : res float :=
  n ← vec_at sba_count (m_tarCtx m); mret (fsub (float_of_size n) (m_quality m)).

Definition ChosenCtx_quality (sofar : CS) (m : Match) : res float :=
  mret (if already_chosen sofar (m_tarCtx m) then float_of_size 0 else float_of_size 1).

Definition ChosenQualityCtx_quality (sofar : CS) (m : Match) : res float :=
  mret (if already_chosen sofar (m_tarCtx m)
        then fneg (m_quality m) else fsub (float_of_size 2) (m_quality m)).

Definition QualityCtx_quality (m : Match) : res float := mret (fneg (m_quality m)).

Definition NoSBANeighbor_quality (sba_count : list N) (cid : ContextID) : res float :=
  n ← vec_at sba_count cid; mret (float_of_size n).

End Strategies.

Definition NO_SBA_CTX_SORTING_STRATEGY : N := 1.
Definition NO_SBA_QUALITY_CTX_SORTING_STRATEGY : N := 2.
Definition CHOSEN_CTX_SORTING_STRATEGY : N := 3.
Definition CHOSEN_QUALITY_CTX_SORTING_STRATEGY : N := 4.
Definition QUALITY_CTX_SORTING_STRATEGY : N := 5.

(** ** Reasoning: substitutions *)

Section SubstitutionLemmas.
Context {CS : Type} `{ContextSubstitutionLaws CS}.

(** An insertion either meets an entry of the same term and symbol, and does
    nothing, or adds the new entry. *)
Lemma cs_insert_cases (cs : CS) m :
  (exists e, e ∈ cs_elements cs /\ ctx_term e = ctx_term m /\ sym e = sym m /\ cs_insert cs m = cs) \/
  (forall e, e ∈ cs_elements cs -> ~ (ctx_term e = ctx_term m /\ sym e = sym m)) /\
  cs_elements (cs_insert cs m) ≡ₚ cs_elements cs ++ [m].
Proof.
  unfold cs_insert, cs_elements.
  destruct (existsb (cm_conflict m) (idx_elements cs)) eqn:E.
  - left. apply existsb_exists in E as (y & Hy & E). apply list_elem_of_In in Hy.
    exists y. rewrite (idx_insert_dup m y cs Hy E). unfold cm_conflict in E. by bsimpl.
  - right. assert (Hf : forall y, y ∈ idx_elements cs -> cm_conflict m y = false).
    { intros y Hy. apply not_true_is_false. intros Hc. apply not_true_iff_false in E. apply E.
      apply existsb_exists. exists y. by rewrite <- list_elem_of_In. }
    destruct (idx_insert_fresh m cs Hf) as (cs' & Hi & Ho). rewrite Hi. split; [|done].
    intros e He [H1 H2]. specialize (Hf e He). unfold cm_conflict in Hf.
    by rewrite H1, H2, !N.eqb_refl in Hf.
Qed.

Lemma elem_cs_insert (cs : CS) m e :
  e ∈ cs_elements (cs_insert cs m) -> e ∈ cs_elements cs \/ e = m.
Proof. destruct (cs_insert_cases cs m) as [(?&?&?&?&->)|[_ Ho]]; [auto|]. rewrite Ho. set_solver. Qed.

Lemma cs_insert_mono (cs : CS) m e : e ∈ cs_elements cs -> e ∈ cs_elements (cs_insert cs m).
Proof. destruct (cs_insert_cases cs m) as [(?&?&?&?&->)|[_ Ho]]; [auto|]. rewrite Ho. set_solver. Qed.

Lemma elem_by_tar (cs : CS) c e : e ∈ idx_range (key_tar c) cs <-> e ∈ cs_elements cs /\ tarCtx e = c.
Proof. rewrite elem_of_range. unfold key_tar. by rewrite N.eqb_eq. Qed.

Lemma already_chosen_spec (cs : CS) c :
  already_chosen cs c = true <-> exists e, e ∈ cs_elements cs /\ tarCtx e = c.
Proof.
  unfold already_chosen. setoid_rewrite <- elem_by_tar.
  destruct (idx_range (key_tar c) cs) as [|e l]; split; try done.
  - intros (e & He). by apply not_elem_of_nil in He.
  - intros _. exists e. left.
Qed.

(** All terms of the substitution are context variables. *)
Definition all_vars (cs : CS) : Prop :=
  forall e, e ∈ cs_elements cs -> isCtxVar (ctx_term e) = true.

(** The context a variable belongs to; only used for variables. *)
Definition owner (t : ContextTerm) : ContextID :=
  match ctxID t with Ok c => c | Err _ => 0 end.

Lemma ctxID_owner t : isCtxVar t = true -> ctxID t = Ok (owner t).
Proof. intros Hv. unfold owner. by rewrite (ctxID_field t Hv). Qed.

Lemma already_chosen_loop_spec ck l :
  (forall e, e ∈ l -> isCtxVar (ctx_term e) = true) ->
  exists b, already_chosen_loop ck l = Ok b /\
    (b = true <-> exists e, e ∈ l /\ owner (ctx_term e) <> ck).
Proof.
  induction l as [|e l IH]; intros Hv.
  - exists false. split; [done|]. split; [done|]. intros (e & He & _). by apply not_elem_of_nil in He.
  - cbn [already_chosen_loop]. rewrite ctxID_owner by (apply Hv; left). rsimpl.
    destruct (N.eqb_spec (owner (ctx_term e)) ck) as [Ho|Ho]; cbn [negb].
    + destruct IH as (b & -> & Hb). { intros e' He'. apply Hv. by right. }
      exists b. split; [done|]. rewrite Hb. split.
      * intros (e' & He' & Hne). exists e'. split; [by right|done].
      * intros (e' & He' & Hne). apply elem_of_cons in He' as [->|He']; [done|]. eauto.
    + exists true. split; [done|]. split; [|done]. intros _. exists e. split; [left|done].
Qed.

Lemma already_chosen_by_other_spec (cs : CS) ck c :
  all_vars cs ->
  exists b, already_chosen_by_other cs ck c = Ok b /\
    (b = true <-> exists e, e ∈ cs_elements cs /\ tarCtx e = c /\ owner (ctx_term e) <> ck).
Proof.
  intros Hv. unfold already_chosen_by_other.
  destruct (already_chosen_loop_spec ck (idx_range (key_tar c) cs)) as (b & -> & Hb).
  { intros e He. apply elem_by_tar in He as [He _]. by apply Hv. }
  exists b. split; [done|]. rewrite Hb. setoid_rewrite elem_by_tar. naive_solver.
Qed.

(** A failing check is an assertion. *)
Lemma already_chosen_loop_err ck l f : already_chosen_loop ck l = Err f -> f = AssertFailed.
Proof.
  induction l as [|e l IH]; cbn [already_chosen_loop]; [done|].
  unfold ctxID, assert. destruct (isCtxVar _); rsimpl; [|naive_solver].
  case_match; [done|]. apply IH.
Qed.

End SubstitutionLemmas.

(** ** Reasoning: sorting *)

Lemma insert_sorted_perm {A} lt (x : A) l : insert_sorted lt x l ≡ₚ x :: l.
Proof.
  induction l as [|y l IH]; [done|]. cbn. case_match; [|done]. rewrite IH. apply Permutation_swap.
Qed.

Lemma list_sort_perm {A} lt (l : list A) : list_sort lt l ≡ₚ l.
Proof. induction l as [|x l IH]; [done|]. cbn. by rewrite insert_sorted_perm, IH. Qed.

Lemma insert_sorted_sorted {A} lt (x : A) l :
  (forall a b, lt a b = true -> lt b a = false) ->
  Sorted (fun a b => lt b a = false) l -> Sorted (fun a b => lt b a = false) (insert_sorted lt x l).
Proof.
  intros Ha. induction l as [|y l IH]; intros Hs; cbn; [repeat constructor|].
  apply Sorted_inv in Hs as [Hs Hy]. destruct (lt y x) eqn:E.
  - constructor; [auto|]. destruct l as [|z l]; cbn; [constructor; auto|].
    destruct (lt z x); constructor; [by inversion Hy|auto].
  - constructor; [by constructor|]. by constructor.
Qed.

Lemma list_sort_sorted {A} lt (l : list A) :
  (forall a b, lt a b = true -> lt b a = false) ->
  Sorted (fun a b => lt b a = false) (list_sort lt l).
Proof.
  intros Ha. induction l as [|x l IH]; [constructor|]. by apply insert_sorted_sorted.
Qed.

(** Equal elements keep their order: the elements of a class of elements that
    do not precede each other come out as they went in. *)
Lemma insert_sorted_filter {A} lt (P : A -> bool) (x : A) l :
  (forall a b, P a = true -> P b = true -> lt a b = false) ->
  List.filter P (insert_sorted lt x l) = List.filter P (x :: l).
Proof.
  intros HP. induction l as [|y l IH]; [done|]. cbn [insert_sorted].
  destruct (lt y x) eqn:E; [|done]. cbn [List.filter] in *. rewrite IH.
  destruct (P x) eqn:Ex, (P y) eqn:Ey; try done. by rewrite HP in E.
Qed.

Lemma list_sort_stable {A} lt (P : A -> bool) (l : list A) :
  (forall a b, P a = true -> P b = true -> lt a b = false) ->
  List.filter P (list_sort lt l) = List.filter P l.
Proof.
  intros HP. induction l as [|x l IH]; [done|].
  change (list_sort lt (x :: l)) with (insert_sorted lt x (list_sort lt l)).
  rewrite insert_sorted_filter by done. cbn. by rewrite IH.
Qed.

Lemma calculate_spec {A} (q : A -> res float) l ql :
  calculate q l = Ok ql -> ql.*1 = l /\ Forall (fun av => q av.1 = Ok av.2) ql.
Proof.
  revert ql. induction l as [|a l IH]; intros ql; cbn [calculate]; intros E; res_inv.
  - by split.
  - destruct (IH _ ltac:(eassumption)) as [<- Hf]. split; [done|]. by constructor.
Qed.

Lemma calculate_ok {A} (q : A -> res float) l :
  (forall a, a ∈ l -> is_ok (q a) = true) -> exists ql, calculate q l = Ok ql.
Proof.
  induction l as [|a l IH]; intros Hq; cbn [calculate]; [by eexists|].
  pose proof (Hq a ltac:(left)) as Ha. destruct (q a); [|done]. rsimpl.
  destruct IH as [ql ->]; [|rsimpl; by eexists]. intros b Hb. apply Hq. by right.
Qed.

Lemma calculate_err {A} (q : A -> res float) l f :
  calculate q l = Err f -> exists a, a ∈ l /\ q a = Err f.
Proof.
  induction l as [|a l IH]; cbn [calculate]; [done|]. destruct (q a) eqn:E; rsimpl.
  - destruct (calculate q l) eqn:E'; rsimpl; [done|]. intros Hf.
    destruct IH as (b & Hb & Eb); [congruence|]. exists b. split; [by right|done].
  - intros [= ->]. exists a. split; [left|done].
Qed.

Lemma sort_perm {A} (q : A -> res float) l l' : sort q l = Ok l' -> l' ≡ₚ l.
Proof.
  unfold sort. intros E. res_inv. destruct (calculate_spec _ _ _ ltac:(eassumption)) as [<- _].
  by rewrite list_sort_perm.
Qed.

Lemma sort_ok {A} (q : A -> res float) l :
  (forall a, a ∈ l -> is_ok (q a) = true) -> exists l', sort q l = Ok l' /\ l' ≡ₚ l.
Proof.
  intros Hq. destruct (calculate_ok q l Hq) as [ql E].
  assert (Hs : sort q l = Ok (list_sort CompareQuality ql).*1) by (unfold sort; by rewrite E).
  eexists. split; [exact Hs|]. by eapply sort_perm.
Qed.

Lemma sort_err {A} (q : A -> res float) l f :
  sort q l = Err f -> exists a, a ∈ l /\ q a = Err f.
Proof. unfold sort. destruct (calculate q l) eqn:E; rsimpl; [done|]. intros [= ->]. by apply calculate_err. Qed.

(** The quality a strategy gives an element, for statements on results. *)
Definition quality_of {A} (q : A -> res float) (a : A) : float :=
  match q a with Ok v => v | Err _ => S754_nan end.

(** Sorting the pairs is sorting the elements by their quality. *)
Lemma insert_sorted_fst {A} (q : A -> res float) av ql :
  Forall (fun av => quality_of q av.1 = av.2) (av :: ql) ->
  (insert_sorted CompareQuality av ql).*1 =
  insert_sorted (fun a b => flt (quality_of q a) (quality_of q b)) av.1 ql.*1.
Proof.
  induction ql as [|bv ql IH]; intros Hq; [done|].
  inversion Hq as [|?? Ha Hq']; subst. inversion Hq' as [|?? Hb Hq'']; subst.
  cbn [insert_sorted fmap list_fmap]. unfold CompareQuality at 1. rewrite <- Ha, <- Hb.
  destruct (flt _ _); [|done]. cbn [fmap list_fmap]. f_equal. apply IH. by constructor.
Qed.

Lemma list_sort_fst {A} (q : A -> res float) ql :
  Forall (fun av => quality_of q av.1 = av.2) ql ->
  (list_sort CompareQuality ql).*1 =
  list_sort (fun a b => flt (quality_of q a) (quality_of q b)) ql.*1.
Proof.
  induction 1 as [|av ql Hav Hq IH]; [done|]. cbn [list_sort foldr fmap list_fmap].
  change (foldr (insert_sorted ?f) [] ?l) with (list_sort f l).
  rewrite (insert_sorted_fst q), IH; [done|]. constructor; [done|].
  apply Forall_forall. intros bv. rewrite list_sort_perm.
  rewrite Forall_forall in Hq. apply Hq.
Qed.

(** Every sorting strategy, a quality function that does not fail on the
    candidates, returns a permutation of the candidates in which no element
    has a smaller quality than its predecessor, and candidates of equal
    quality keep their order. *)
Theorem sort_correct {A} (q : A -> res float) (l : list A) :
  (forall a, a ∈ l -> is_ok (q a) = true) ->
  exists l', sort q l = Ok l' /\ l' ≡ₚ l /\
    Sorted (fun a b => flt (quality_of q b) (quality_of q a) = false) l' /\
    forall P : A -> bool,
      (forall a b, P a = true -> P b = true -> flt (quality_of q a) (quality_of q b) = false) ->
      List.filter P l' = List.filter P l.
Proof.
  intros Hq. destruct (calculate_ok q l Hq) as [ql E].
  destruct (calculate_spec _ _ _ E) as [Hl Hf].
  assert (Hqo : Forall (fun av => quality_of q av.1 = av.2) ql).
  { eapply Forall_impl; [exact Hf|]. intros av Hav. unfold quality_of. by rewrite Hav. }
  unfold sort. rewrite E. rsimpl. rewrite (list_sort_fst q), Hl by done.
  eexists. split; [done|]. split; [apply list_sort_perm|]. split.
  - apply (list_sort_sorted (fun a b => flt (quality_of q a) (quality_of q b))).
    intros a b. apply flt_asym.
  - intros P HP. by apply list_sort_stable.
Qed.

(** Three candidates ordered by the number of schematic bridge atoms of their
    targets. *)
Lemma sort_correct_witness :
  let q := NoSBACtx_quality [0; 5; 2; 2] in
  let c t := mk_match 7 1 t 1 (S754_zero false) in
  sort q [c 1; c 2; c 3] = Ok [c 2; c 3; c 1] /\
  exists l', sort q [c 1; c 2; c 3] = Ok l' /\ l' ≡ₚ [c 1; c 2; c 3].
Proof.
  intros q c. split; [reflexivity|].
  destruct (sort_correct q [c 1; c 2; c 3]) as (l' & E & Hp & _).
  - intros a Ha. rewrite !elem_of_cons, elem_of_nil in Ha. destruct Ha as [->|[->|[->|[]]]]; reflexivity.
  - eauto.
Defined.

(** ** Reasoning: the number of connections *)

(** The ids of a match are in the pool; ids start at 1. *)
Definition in_pool (poolsize : N) (m : Match) : Prop :=
  1 <= srcCtx m /\ srcCtx m <= poolsize /\ 1 <= m_tarCtx m /\ m_tarCtx m <= poolsize.

Definition connection (m : Match) : N * N := (srcCtx m, m_tarCtx m).

(** [mark] after the matches [l]: exactly their connections are marked. *)
Definition marks (ps : N) (l : list Match) (mark : list (list bool)) : Prop :=
  forall i j, i < ps -> j < ps -> exists row, mark !! N.to_nat i = Some row /\
    row !! N.to_nat j = Some (bool_decide ((i + 1, j + 1) ∈ connection <$> l)).

Lemma connection_snoc (m : Match) l i j :
  1 <= srcCtx m -> 1 <= m_tarCtx m ->
  ((i + 1, j + 1) ∈ connection <$> l ++ [m] <->
   (i + 1, j + 1) ∈ connection <$> l \/ i = srcCtx m - 1 /\ j = m_tarCtx m - 1).
Proof.
  intros Hs Ht. rewrite fmap_app, elem_of_app. cbn [fmap list_fmap].
  rewrite list_elem_of_singleton. unfold connection at 2. rewrite pair_eq.
  split; (intros [?|?]; [by left|right; lia]).
Qed.

Lemma marks_update ps l mark m row :
  in_pool ps m -> marks ps l mark -> mark !! N.to_nat (srcCtx m - 1) = Some row ->
  marks ps (l ++ [m])
    (<[N.to_nat (srcCtx m - 1):=<[N.to_nat (m_tarCtx m - 1):=true]> row]> mark).
Proof.
  intros (Hs1 & Hs2 & Ht1 & Ht2) Hm Hrow i j Hi Hj.
  destruct (Hm i j Hi Hj) as (r & Hr & Hrj).
  rewrite (bool_decide_ext _ _ (connection_snoc m l i j Hs1 Ht1)).
  destruct (decide (i = srcCtx m - 1)) as [->|Hne].
  - rewrite Hrow in Hr. injection Hr as <-.
    exists (<[N.to_nat (m_tarCtx m - 1):=true]> row). split.
    { apply list_lookup_insert_eq. by eapply lookup_lt_Some. }
    destruct (decide (j = m_tarCtx m - 1)) as [->|Hnj].
    + rewrite list_lookup_insert_eq by (by eapply lookup_lt_Some).
      f_equal. symmetry. apply bool_decide_eq_true. auto.
    + rewrite list_lookup_insert_ne by lia. rewrite Hrj. f_equal. apply bool_decide_ext. naive_solver.
  - exists r. rewrite list_lookup_insert_ne by lia. split; [done|]. rewrite Hrj. f_equal.
    apply bool_decide_ext. naive_solver.
Qed.

(** [nuc] and [mark] after the matches [l]. *)
Definition marked (ps : N) (l : list Match) (st : N * list (list bool)) : Prop :=
  st.1 = N.of_nat (size (list_to_set (connection <$> l) : gset (N * N))) /\ marks ps l st.2.

Lemma mark_step_marked ps l st m :
  ps < W64 -> N.of_nat (length l) + 1 < W64 -> in_pool ps m -> marked ps l st ->
  exists st', mark_step st m = Ok st' /\ marked ps (l ++ [m]) st'.
Proof.
  intros Hps Hl Hp [Hn Hm]. destruct st as [nuc mark]. cbn in Hn, Hm.
  pose proof Hp as (Hs1 & Hs2 & Ht1 & Ht2).
  unfold mark_step. rewrite !u64_sub_small by lia.
  destruct (Hm (srcCtx m - 1) (m_tarCtx m - 1)) as (row & Hrow & Hb); [lia..|].
  rewrite (proj2 (vec_at_ok _ _ _) Hrow). rsimpl. rewrite (proj2 (vec_at_ok _ _ _) Hb). rsimpl.
  replace (srcCtx m - 1 + 1, m_tarCtx m - 1 + 1) with (connection m) in Hb |- *
    by (unfold connection; f_equal; lia).
  clear Hb. unfold marked. rewrite fmap_app, list_to_set_app_L. cbn [fmap list_fmap list_to_set].
  case_bool_decide as Hin; cbn [negb]; eexists; (split; [reflexivity|]); cbn [fst snd]; split.
  - rewrite Hn. do 2 f_equal. apply set_eq. intros x.
    rewrite !elem_of_union, elem_of_empty, elem_of_singleton, elem_of_list_to_set. naive_solver.
  - intros i j Hi Hj. destruct (Hm i j Hi Hj) as (r & ? & Hr). exists r. split; [done|].
    rewrite Hr. f_equal. apply bool_decide_ext. rewrite connection_snoc by done.
    split; [auto|]. intros [?|[-> ->]]; [done|]. rewrite !N.sub_add by done. exact Hin.
  - rewrite u64_add_small.
    + rewrite Hn, union_empty_r_L, size_union, size_singleton; [lia|].
      apply disjoint_singleton_r. by rewrite elem_of_list_to_set.
    + rewrite Hn. pose proof (size_list_to_set_le (C := gset (N * N)) (connection <$> l)) as Hle.
      rewrite length_fmap in Hle. lia.
  - by apply marks_update.
Qed.

Section ConnectionLemmas.
Context {MT : Type} `{MatchTable MT}.

(** For a table over a pool of contexts numbered from 1, the density
    [no_unique_connections] reports is the number of distinct pairs of a
    source and a target context, and no access leaves the matrix. *)
Lemma no_unique_connections_correct (mt : MT) ps :
  ps < W64 -> N.of_nat (length (idx_elements mt)) + 1 < W64 ->
  Forall (in_pool ps) (idx_elements mt) ->
  no_unique_connections mt ps =
  Ok (N.of_nat (size (list_to_set (connection <$> idx_elements mt) : gset (N * N)))).
Proof.
  intros Hps Hl Hin. unfold no_unique_connections.
  enough (Hg : forall k done st, idx_elements mt = done ++ k -> marked ps done st ->
    exists st', foldM mark_step st k = Ok st' /\ marked ps (idx_elements mt) st').
  { destruct (Hg (idx_elements mt) [] (0, replicate (N.to_nat ps) (replicate (N.to_nat ps) false)))
      as (st' & -> & [Hn _]); [done| |rsimpl; by rewrite Hn].
    split; [done|]. intros i j Hi Hj. exists (replicate (N.to_nat ps) false). cbn [snd].
    rewrite !lookup_replicate_2 by lia. done. }
  induction k as [|m k IH]; intros pre st Hk Hst.
  - exists st. rewrite app_nil_r in Hk. by rewrite Hk.
  - destruct (mark_step_marked ps pre st m) as (st' & E & Hst'); [done| | |done|].
    + rewrite Hk, length_app in Hl. cbn in Hl. lia.
    + rewrite Forall_forall in Hin. apply Hin. rewrite Hk. set_solver.
    + cbn [foldM]. rewrite E. rsimpl. apply (IH (pre ++ [m])); [|done].
      by rewrite <- app_assoc.
Qed.

End ConnectionLemmas.

End Matches.
