(* ===== verification/DynamicConfiguration.v ===== *)
(** * Dynamic configuration

    src/dyndmcs/DynamicConfiguration.cpp: a context with schematic bridge rules
    searches, depth first, for substitutions of its context variables by
    contexts of the pool, and has the newly bound neighbors extend them with
    substitutions of their own.  The multi-index tables are parameters with
    the laws of [Matches]; the connection to a neighbor is a parameter of this
    file and the neighbor itself in [DynamicPool]. *)

From Stdlib Require Import SpecFloat.
From S2P Require Import Prelude Tables ContextTerms Matches.
Import Tables ContextTerms Matches.

Module DynamicConfiguration.

(** The header that declares neighbors is not among the sources: the record has
    the fields their users read, and the comparison [compareNeighbors(cid)] is
    a parameter that accepts only neighbors with the id. *)
Record Neighbor := mk_neighbor { neighbor_id : ContextID; hostname : string; port : string }.

Class NeighborCompare := compareNeighbors : ContextID -> Neighbor -> bool.
Class NeighborCompareLaws `{NeighborCompare} : Prop :=
  compareNeighbors_id c n : compareNeighbors c n = true -> neighbor_id n = c.

(** The fields the constructor is given and never changes. *)
Record Conf (MT : Type) := mk_conf {
  ctx_id : ContextID;
  bridge_rules : list BridgeRule;
  context_info : list Neighbor;
  mt : MT;
  sba_count : list N;
  limit_answers : N;
  limit_bind_rules : N;
  heuristics : N;
}.
#[global] Arguments ctx_id {MT}.
#[global] Arguments bridge_rules {MT}.
#[global] Arguments context_info {MT}.
#[global] Arguments mt {MT}.
#[global] Arguments sba_count {MT}.
#[global] Arguments limit_answers {MT}.
#[global] Arguments limit_bind_rules {MT}.
#[global] Arguments heuristics {MT}.

(** The counters and flags, which are shared by all calls. *)
Record State := mk_state {
  no_answers : N;
  no_bind_rules : N;
  stop : bool;
  stop_bind_rules : bool;
}.

(** The constructor; [no_bind_rules] and [stop_bind_rules] are set before
    their first use. *)
Definition initial_state : State := mk_state 0 0 false false.

Section Search.
Context {MT CS : Type} `{MatchTable MT} `{ContextSubstitution CS} `{NeighborCompare}.
Context (conf : Conf MT).

(** The substitutions found and the state after the search. *)
Abbreviation found S := (res (list CS * S)) (only parsing).

(** ** [bind_rule] *)

(** The leaf of the search: all atoms are bound. *)
Definition bind_leaf (sofar : CS) (st : State) : found State :=
  let n := u64_add (no_bind_rules st) 1 in
  mret ([sofar], mk_state (no_answers st) n (stop st)
                   (if limit_bind_rules conf <=? n then true else stop_bind_rules st)).

(** The first match of every potential neighbor. *)
Definition collect_step (mti : list Match) (low : Match) : list Match :=
  if existsb (CompareMatch (m_tarCtx low)) mti then mti else mti ++ [low].

Definition collect_neighbors (range : list Match) : list Match := foldl collect_step [] range.

(** The [switch] over the sorting strategies. *)
Definition sort_candidates (sofar : CS) (mti : list Match) : res (list Match) :=
  if heuristics conf =? NO_SBA_CTX_SORTING_STRATEGY
  then sort (NoSBACtx_quality (sba_count conf)) mti
  else if heuristics conf =? NO_SBA_QUALITY_CTX_SORTING_STRATEGY
  then sort (NoSBAQualityCtx_quality (sba_count conf)) mti
  else if heuristics conf =? CHOSEN_CTX_SORTING_STRATEGY
  then sort (ChosenCtx_quality sofar) mti
  else if heuristics conf =? CHOSEN_QUALITY_CTX_SORTING_STRATEGY
  then sort (ChosenQualityCtx_quality sofar) mti
  else if heuristics conf =? QUALITY_CTX_SORTING_STRATEGY
  then sort QualityCtx_quality mti
  else mret mti.

(** A copy of the substitution with the term bound as the match says. *)
Definition bind_to (sofar : CS) (ctt : ContextTerm) (m : Match) : CS :=
  cs_insert sofar (mk_context_match ctt (m_sym m) (m_tarCtx m) (m_img m) (m_quality m)).

(** The [while] loop over the candidates for a variable. *)
Fixpoint try_candidates (next : CS -> State -> found State) (sofar : CS) (ctt : ContextTerm)
    (cands : list Match) (st : State) : found State :=
  match cands with
  | [] => mret ([], st)
  | m :: cands =>
      if stop_bind_rules st then mret ([], st)
      else '(subs, st) ← next (bind_to sofar ctt m) st;
           '(rest, st) ← try_candidates next sofar ctt cands st;
           mret (subs ++ rest, st)
  end.

(** The variable was instantiated before, by the entry [it]; [mti] are the
    potential neighbors for the present atom. *)
Definition bind_instantiated (next : CS -> State -> found State) (ctt : ContextTerm)
    (context_id s_const : N) (mti : list Match) (it : ContextMatch)
    (sofar : CS) (st : State) : found State :=
  if negb (existsb (CompareMatch (tarCtx it)) mti) then mret ([], st)
  else
    match idx_find (key_term_sym context_id s_const) sofar with
    | None =>
        match idx_range (key_SrcSymTar context_id s_const (tarCtx it)) (mt conf) with
        | [] => mret ([], st)
        | low :: _ => next (bind_to sofar ctt low) st
        end
    | Some _ => next sofar st
    end.

(** The context term is a variable. *)
Definition bind_variable (next : CS -> State -> found State) (ctt : ContextTerm)
    (s_const : N) (sofar : CS) (st : State) : found State :=
  context_id ← ctxID ctt;
  let range := idx_range (key_SrcSym context_id s_const) (mt conf) in
  if (length range =? 0)%nat then mret ([], st)
  else
    let mti := collect_neighbors range in
    match idx_find (key_term ctt) sofar with
    | None =>
        cands ← sort_candidates sofar mti;
        try_candidates next sofar ctt cands st
    | Some it => bind_instantiated next ctt context_id s_const mti it sofar st
    end.

(** One bridge atom, followed by the search [next] for the other atoms. *)
Definition bind_atom (next : CS -> State -> found State) (sba : BridgeAtom)
    (sofar : CS) (st : State) : found State :=
  let '(ctt, sb) := sba in
  if negb (isCtxVar ctt) && (sBeliefType sb =? IS_ORDINARY_BELIEF) then next sofar st
  else if negb (isCtxVar ctt) then
    match idx_range (key_SrcSymTar (ctx_id conf) (sBelief sb) ctt) (mt conf) with
    | [] => mret ([], st)
    | low :: _ => next (bind_to sofar ctt low) st
    end
  else bind_variable next ctt (sBelief sb) sofar st.

(** The positive atoms are bound first, then the negative ones. *)
Fixpoint bind_negative (nb : NegativeBridgeBody) (sofar : CS) (st : State) : found State :=
  match nb with
  | [] => bind_leaf sofar st
  | sba :: nb => bind_atom (bind_negative nb) sba sofar st
  end.

Fixpoint bind_rule (pb : PositiveBridgeBody) (nb : NegativeBridgeBody)
    (sofar : CS) (st : State) : found State :=
  match pb with
  | [] => bind_negative nb sofar st
  | sba :: pb => bind_atom (bind_rule pb nb) sba sofar st
  end.

(** ** [invoke_neighbors] and [lconfig] *)

(** The world of the other contexts and what the neighbor [n] answers to a
    [ConfigMessage] with the root and the substitution so far: resolving the
    host, connecting, sending and [client.getResult()]. *)
Context {W : Type} (client : Neighbor -> ContextID -> CS -> W -> found W).

(** The [while] loops that take substitutions from the front of a queue. *)
Fixpoint drain (next : CS -> State * W -> found (State * W)) (queue : list CS)
    (w : State * W) : found (State * W) :=
  match queue with
  | [] => mret ([], w)
  | cs :: queue =>
      if stop w.1 then mret ([], w)
      else '(subs, w) ← next cs w;
           '(rest, w) ← drain next queue w;
           mret (subs ++ rest, w)
  end.

(** No neighbor is left: an answer is counted. *)
Definition count_answer (sofar : CS) (w : State * W) : found (State * W) :=
  let '(st, x) := w in
  let n := u64_add (no_answers st) 1 in
  let st' := mk_state n (no_bind_rules st)
               (if (0 <? limit_answers conf) && (limit_answers conf <=? n) then true else stop st)
               (stop_bind_rules st) in
  mret ([sofar], (st', x)).

Fixpoint invoke_neighbors (root : ContextID) (cs : list ContextID) (sofar : CS)
    (w : State * W) : found (State * W) :=
  match cs with
  | [] => count_answer sofar w
  | cid :: cs =>
      match List.find (compareNeighbors cid) (context_info conf) with
      | None => Err AssertFailed
      | Some nb =>
          '(output_queue_cj, x) ← client nb root sofar w.2;
          drain (invoke_neighbors root cs) output_queue_cj (w.1, x)
      end
  end.

(** The loop over the substitution that collects the contexts to invoke. *)
Definition new_context_step (root : ContextID) (sofar : CS) (new_contexts : list ContextID)
    (it : ContextMatch) : res (list ContextID) :=
  if tarCtx it =? root then mret new_contexts
  else c ← ctxID (ctx_term it);
       if negb (c =? ctx_id conf) then mret new_contexts
       else if existsb (N.eqb (tarCtx it)) new_contexts then mret new_contexts
       else chosen ← already_chosen_by_other sofar (ctx_id conf) (tarCtx it);
            mret (if negb chosen then new_contexts ++ [tarCtx it] else new_contexts).

Definition compute_new_contexts (root : ContextID) (sofar : CS) : res (list ContextID) :=
  foldM (new_context_step root sofar) [] (cs_elements sofar).

Definition sort_new_contexts (new_contexts : list ContextID) : res (list ContextID) :=
  if heuristics conf =? NO_SBA_CTX_SORTING_STRATEGY
  then sort (NoSBANeighbor_quality (sba_count conf)) new_contexts
  else mret new_contexts.

(** All rules are bound: the neighbors are invoked. *)
Definition lconfig_leaf (root : ContextID) (sofar : CS) (w : State * W) : found (State * W) :=
  new_contexts ← compute_new_contexts root sofar;
  match new_contexts with
  | [] => mret ([sofar], w)
  | _ => order ← sort_new_contexts new_contexts;
         invoke_neighbors root order sofar w
  end.

Fixpoint lconfig_rules (root : ContextID) (rules : list BridgeRule) (sofar : CS)
    (w : State * W) : found (State * W) :=
  match rules with
  | [] => lconfig_leaf root sofar w
  | r :: rules =>
      let st := mk_state (no_answers w.1) 0 (stop w.1) false in
      '(output_queue_r, st) ← bind_rule (getPositiveBody r) (getNegativeBody r) sofar st;
      drain (lconfig_rules root rules) output_queue_r (st, w.2)
  end.

End Search.

(** ** Topologies *)

(** The boost adjacency list with vectors of vertices and edges, parallel
    edges allowed: vertices are the numbers below [num_vertices]. *)
Class AdjacencyList (G : Type) := {
  new_graph : N -> G;
  num_vertices : G -> N;
  graph_edges : G -> list (N * N);
  out_edges : N -> G -> list (N * N);
  in_degree : N -> G -> N;
  out_degree : N -> G -> N;
  add_edge : N -> N -> G -> G;
}.

Class AdjacencyListLaws (G : Type) `{AdjacencyList G} : Prop := {
  new_graph_vertices n : num_vertices (new_graph n) = n;
  new_graph_edges n : graph_edges (new_graph n) = [];
  elem_of_out_edges u g e :
    u < num_vertices g -> e ∈ out_edges u g <-> e ∈ graph_edges g /\ e.1 = u;
  in_degree_edges u g :
    u < num_vertices g ->
    in_degree u g = N.of_nat (length (List.filter (fun e => e.2 =? u) (graph_edges g)));
  out_degree_edges u g :
    u < num_vertices g ->
    out_degree u g = N.of_nat (length (List.filter (fun e => e.1 =? u) (graph_edges g)));
  add_edge_vertices u v g :
    u < num_vertices g -> v < num_vertices g -> num_vertices (add_edge u v g) = num_vertices g;
  add_edge_edges u v g :
    u < num_vertices g -> v < num_vertices g ->
    graph_edges (add_edge u v g) ≡ₚ (u, v) :: graph_edges g;
}.

(** A number of vertices and a list of edges satisfy the laws. *)
#[export] Instance list_graph : AdjacencyList (N * list (N * N)) := {
  new_graph n := (n, []);
  num_vertices g := g.1;
  graph_edges g := g.2;
  out_edges u g := List.filter (fun e => e.1 =? u) g.2;
  in_degree u g := N.of_nat (length (List.filter (fun e => e.2 =? u) g.2));
  out_degree u g := N.of_nat (length (List.filter (fun e => e.1 =? u) g.2));
  add_edge u v g := (g.1, (u, v) :: g.2);
}.

#[export] Instance list_graph_laws : AdjacencyListLaws (N * list (N * N)).
Proof.
  split; try done. intros u g e _. cbn.
  by rewrite list_elem_of_In, filter_In, <- list_elem_of_In, N.eqb_eq.
Qed.

Section Topology.
Context {MT CS G : Type} `{MatchTable MT} `{ContextSubstitution CS} `{AdjacencyList G}.

(** [boost::vertex(n, g)] wants a vertex of the graph. *)
Definition vertex (n : N) (g : G) : res N :=
  if n <? num_vertices g then mret n else Err IndexOutOfRange.

Definition topology_step (g : G) (it : ContextMatch) : res G :=
  from ← ctxID (ctx_term it);
  u ← vertex (u64_sub from 1) g;
  v ← vertex (u64_sub (tarCtx it) 1) g;
  let had_edge := existsb (fun e => e.2 =? v) (out_edges u g) in
  mret (if negb had_edge then add_edge u v g else g).

Definition compute_topology (conf : Conf MT) (ctx_sub : CS) : res G :=
  foldM topology_step (new_graph (N.of_nat (length (context_info conf)))) (cs_elements ctx_sub).

Definition resulted_system_size (g : G) : N :=
  foldl (fun rss u =>
           if 0 <? in_degree u g then rss + 1
           else if 0 <? out_degree u g then rss + 1
           else rss)
        0 (nrange 0 (num_vertices g)).

(** [compute_topology] of all results, with the figures written to the
    statistics file: the initial density and, for every result, its size, its
    number of edges and its average quality. *)
Definition compute_topologies (conf : Conf MT) (ctx_subs : list CS) :
    res (N * list (G * (N * N * spec_float))) :=
  density ← no_unique_connections (mt conf) (N.of_nat (length (context_info conf)));
  topo ← foldM (fun topo it =>
           g ← compute_topology conf it;
           mret (topo ++ [(g, (resulted_system_size g, N.of_nat (length (graph_edges g)),
                               average_quality it))]))
        [] ctx_subs;
  mret (density, topo).

End Topology.

(** [lconfig(mess)]: the message carries the root and the substitution; the
    root also computes the topologies of the results, which it writes to
    files. *)
Definition lconfig {MT CS} (G : Type) `{MatchTable MT} `{ContextSubstitution CS} `{AdjacencyList G}
    `{NeighborCompare}
    (conf : Conf MT) {W} (client : Neighbor -> ContextID -> CS -> W -> res (list CS * W))
    (root : ContextID) (ctx_sub : CS) (w : State * W) : res (list CS * (State * W)) :=
  '(result, w) ← lconfig_rules conf client root (bridge_rules conf) ctx_sub w;
  _ ← (if ctx_id conf =? root
       then _ ← compute_topologies (G := G) conf result; mret tt
       else mret tt);
  mret (result, w).

(** ** What a substitution means *)

Section Meaning.
Context {MT CS : Type} `{MatchTable MT} `{ContextSubstitution CS}.

(** The entry [e] is a match of the table. *)
Definition matched (t : MT) (e : ContextMatch) : Prop :=
  exists m, m ∈ idx_elements t /\ srcCtx m = owner (ctx_term e) /\ m_sym m = sym e /\
    m_tarCtx m = tarCtx e /\ m_img m = img e /\ m_quality m = quality e.

(** A variable is bound to one context only. *)
Definition consistent (cs : CS) : Prop :=
  forall e e', e ∈ cs_elements cs -> e' ∈ cs_elements cs ->
    ctx_term e = ctx_term e' -> tarCtx e = tarCtx e'.

Definition extends (cs cs' : CS) : Prop := forall e, e ∈ cs_elements cs -> e ∈ cs_elements cs'.

(** A bridge atom is about a variable of the context, or is ordinary. *)
Definition plain_atom (c : ContextID) (a : BridgeAtom) : Prop :=
  isCtxVar a.1 = true /\ owner a.1 = c \/
  isCtxVar a.1 = false /\ sBeliefType a.2 = IS_ORDINARY_BELIEF.

(** The atom is bound by an entry that is a match of the table. *)
Definition bound (t : MT) (cs : CS) (a : BridgeAtom) : Prop :=
  isCtxVar a.1 = true ->
  exists e, e ∈ cs_elements cs /\ ctx_term e = a.1 /\ sym e = sBelief a.2 /\ matched t e.

(** A substitution a context can continue from. *)
Definition ok_sub (conf : Conf MT) (cs : CS) : Prop :=
  all_vars cs /\ consistent cs /\
  forall e, e ∈ cs_elements cs -> owner (ctx_term e) = ctx_id conf -> matched (mt conf) e.

(** An assignment of contexts to variables agrees with a substitution, and is
    allowed by the match table for an atom. *)
Definition agrees (σ : ContextTerm -> ContextID) (cs : CS) : Prop :=
  forall e, e ∈ cs_elements cs -> tarCtx e = σ (ctx_term e).

Definition admits (t : MT) (σ : ContextTerm -> ContextID) (a : BridgeAtom) : Prop :=
  isCtxVar a.1 = true ->
  exists m, m ∈ idx_elements t /\ srcCtx m = owner a.1 /\ m_sym m = sBelief a.2 /\
    m_tarCtx m = σ a.1.

(** The match can bind the variable [t] of an atom with belief [b]. *)
Definition candidate (tb : MT) (t : ContextTerm) (b : N) (m : Match) : Prop :=
  m ∈ idx_elements tb /\ srcCtx m = owner t /\ m_sym m = sBelief b.

(** Every target has its count of schematic bridge atoms. *)
Definition counts_known (conf : Conf MT) : Prop :=
  forall m, m ∈ idx_elements (mt conf) -> (N.to_nat (m_tarCtx m) < length (sba_count conf))%nat.

#[global] Instance extends_preorder : PreOrder extends.
Proof. split; [by intros cs e|]. intros a b c Hab Hbc e He. auto. Qed.

Lemma bound_mono t cs cs' a : extends cs cs' -> bound t cs a -> bound t cs' a.
Proof. intros He Hb Hv. destruct (Hb Hv) as (e & ? & ?). exists e. split; [by apply He|done]. Qed.

End Meaning.

Section Binding.
Context {MT CS : Type} `{MatchTableLaws MT} `{ContextSubstitutionLaws CS}.
Context (conf : Conf MT).
Implicit Types (s cs : CS) (st : State).

Abbreviation cand := (candidate (mt conf)).

Lemma elem_key_SrcSym c y m :
  m ∈ idx_range (key_SrcSym c y) (mt conf) <->
  m ∈ idx_elements (mt conf) /\ srcCtx m = c /\ m_sym m = y.
Proof. rewrite elem_of_range. unfold key_SrcSym. rewrite andb_true_iff, !N.eqb_eq. done. Qed.

Lemma elem_key_SrcSymTar c y t m :
  m ∈ idx_range (key_SrcSymTar c y t) (mt conf) <->
  m ∈ idx_elements (mt conf) /\ srcCtx m = c /\ m_sym m = y /\ m_tarCtx m = t.
Proof.
  rewrite elem_of_range. unfold key_SrcSymTar, key_SrcSym.
  rewrite !andb_true_iff, !N.eqb_eq. naive_solver.
Qed.

(** ** Potential neighbors *)

Lemma existsb_CompareMatch c mti :
  existsb (CompareMatch c) mti = true <-> exists m, m ∈ mti /\ m_tarCtx m = c.
Proof.
  rewrite existsb_exists. unfold CompareMatch. setoid_rewrite N.eqb_eq.
  setoid_rewrite list_elem_of_In. done.
Qed.

Lemma collect_neighbors_spec range :
  let mti := collect_neighbors range in
  (forall m, m ∈ mti -> m ∈ range) /\
  (forall m, m ∈ range -> exists m', m' ∈ mti /\ m_tarCtx m' = m_tarCtx m) /\
  NoDup (m_tarCtx <$> mti).
Proof.
  unfold collect_neighbors. induction range as [|m range IH] using rev_ind; cbn.
  - split; [|split]; [set_solver..|constructor].
  - rewrite foldl_app. cbn. destruct IH as (IH1 & IH2 & IH3). unfold collect_step at 1 3 5.
    destruct (existsb _ _) eqn:E.
    + apply existsb_CompareMatch in E as (m' & Hm' & Ht). split; [|split]; [set_solver| |done].
      intros m2 [Hm2|Hm2%list_elem_of_singleton]%elem_of_app; [auto|subst; eauto].
    + split; [|split]; [set_solver| |].
      * intros m2 [Hm2|Hm2%list_elem_of_singleton]%elem_of_app.
        -- destruct (IH2 m2 Hm2) as (m' & ? & ?). exists m'. set_solver.
        -- subst m2. exists m. set_solver.
      * rewrite fmap_app. apply NoDup_app. split; [done|]. split; [|apply NoDup_singleton].
        intros c (m' & -> & Hm')%list_elem_of_fmap Hc. apply list_elem_of_singleton in Hc.
        apply not_true_iff_false in E. apply E, existsb_CompareMatch. eauto.
Qed.

Lemma sort_candidates_ok s mti :
  counts_known conf -> (forall m, m ∈ mti -> m ∈ idx_elements (mt conf)) ->
  exists l, sort_candidates conf s mti = Ok l /\ l ≡ₚ mti.
Proof.
  intros Hc Hm.
  assert (Hv : forall m, m ∈ mti -> exists n, vec_at (sba_count conf) (m_tarCtx m) = Ok n).
  { intros m Hin. destruct (vec_at_lt _ _ (Hc m (Hm m Hin))) as (n & ? & _). eauto. }
  unfold sort_candidates. repeat case_match; try (apply sort_ok; intros m Hin); try done.
  - unfold NoSBACtx_quality. destruct (Hv m Hin) as (n & ->). done.
  - unfold NoSBAQualityCtx_quality. destruct (Hv m Hin) as (n & ->). done.
  - by eexists.
Qed.

(** ** Binding one variable *)

Lemma bind_to_ok s t b m :
  ok_sub conf s -> isCtxVar t = true -> cand t b m ->
  (forall e, e ∈ cs_elements s -> ctx_term e = t -> tarCtx e = m_tarCtx m) ->
  ok_sub conf (bind_to s t m).
Proof.
  intros (Hv & Hc & Hm) Ht (Hin & Hs & Hy) Hag. unfold bind_to.
  set (e0 := mk_context_match _ _ _ _ _).
  split; [|split].
  - intros e [He| ->]%elem_cs_insert; [by apply Hv|done].
  - intros e e' [He| ->]%elem_cs_insert [He'| ->]%elem_cs_insert Heq; [by apply Hc|..|done].
    + by apply Hag.
    + symmetry. by apply Hag.
  - intros e [He| ->]%elem_cs_insert Ho; [by apply Hm|]. exists m. unfold e0; cbn. by split_and!.
Qed.

Lemma bind_to_extends s t m : extends s (bind_to s t m).
Proof. intros e. apply cs_insert_mono. Qed.

Lemma bind_to_bound s t b m :
  owner t = ctx_id conf -> ok_sub conf s -> cand t b m ->
  bound (mt conf) (bind_to s t m) (t, b).
Proof.
  intros Ho (Hv & Hc & Hm) (Hin & Hs & Hy) Ht. cbn in Ht |- *. unfold bind_to.
  set (e0 := mk_context_match _ _ _ _ _).
  destruct (cs_insert_cases s e0) as [(e & He & Ht1 & Hy1 & ->)|[_ Hp]].
  - exists e. cbn in Ht1, Hy1. split; [done|]. split; [done|]. split; [congruence|].
    apply Hm; [done|congruence].
  - exists e0. split; [rewrite Hp; set_solver|]. split; [done|]. split; [done|].
    exists m. unfold e0; cbn. by split_and!.
Qed.

Lemma bind_to_agrees σ s t m :
  agrees σ s -> m_tarCtx m = σ t -> agrees σ (bind_to s t m).
Proof. intros Ha Hm e [He| ->]%elem_cs_insert; [by apply Ha|done]. Qed.

Lemma bind_to_new s t m e :
  e ∈ cs_elements (bind_to s t m) -> e ∈ cs_elements s \/ ctx_term e = t.
Proof. intros [He| ->]%elem_cs_insert; auto. Qed.

(** ** One atom: the outcomes of [bind_atom] *)

(** No target of the atom fits the assignment. *)
Definition dead s (a : BridgeAtom) : Prop :=
  forall σ, agrees σ s -> ~ admits (mt conf) σ a.

(** The variable is bound to [m], which agrees with what it was bound to. *)
Definition rebound s (t : ContextTerm) (b : N) (m : Match) : Prop :=
  cand t b m /\
  (forall e, e ∈ cs_elements s -> ctx_term e = t -> tarCtx e = m_tarCtx m) /\
  forall σ, agrees σ s -> m_tarCtx m = σ t.

Lemma bind_instantiated_cases next t b mti it s st :
  ok_sub conf s -> isCtxVar t = true ->
  (forall m, m ∈ mti -> cand t b m) ->
  (forall m, cand t b m -> exists m', m' ∈ mti /\ m_tarCtx m' = m_tarCtx m) ->
  it ∈ cs_elements s -> ctx_term it = t ->
  let r := bind_instantiated conf next t (owner t) (sBelief b) mti it s st in
  r = Ok ([], st) /\ dead s (t, b) \/ exists m, rebound s t b m /\ r = next (bind_to s t m) st.
Proof.
  intros (Hv & Hc & Hm) Ht Hmti Hall Hit Hkt. unfold bind_instantiated.
  destruct (existsb (CompareMatch (tarCtx it)) mti) eqn:Ec; cbn [negb].
  2: { left. split; [done|]. intros σ Hag Had. destruct (Had Ht) as (m & ? & ? & ? & Hσ).
    destruct (Hall m) as (m' & Hm' & Htar); [by split|].
    apply not_true_iff_false in Ec. apply Ec, existsb_CompareMatch. exists m'. split; [done|].
    cbn in Hσ. rewrite (Hag it Hit), Hkt. congruence. }
  destruct (idx_find (key_term_sym (owner t) (sBelief b)) s) as [e|] eqn:Es.
  { exfalso. apply idx_find_some in Es as [He Hk]. unfold key_term_sym in Hk. bsimpl.
    pose proof (ctxID_small t _ (ctxID_owner t Ht)) as Hsm.
    destruct (ctxConstTerm_id (owner t)) as [_ Hnv]; [lia|].
    specialize (Hv e He). congruence. }
  apply existsb_CompareMatch in Ec as (m0 & Hm0 & Ht0).
  destruct (idx_range (key_SrcSymTar (owner t) (sBelief b) (tarCtx it)) (mt conf)) as [|low l] eqn:El.
  { exfalso. apply (not_elem_of_nil m0). rewrite <- El. apply elem_key_SrcSymTar.
    destruct (Hmti m0 Hm0) as (? & ? & ?). auto. }
  right. exists low.
  assert (Hlow : low ∈ idx_range (key_SrcSymTar (owner t) (sBelief b) (tarCtx it)) (mt conf))
    by (rewrite El; left).
  apply elem_key_SrcSymTar in Hlow as (? & ? & ? & Htar). split; [|done]. split; [by split|]. split.
  - intros e He Het. rewrite Htar. apply Hc; [done|done|congruence].
  - intros σ Hag. rewrite Htar, (Hag it Hit). by rewrite Hkt.
Qed.

(** The variable is new: the candidates cover every admitted target. *)
Definition fresh_candidates s (t : ContextTerm) (b : N) (cands : list Match) : Prop :=
  (forall e, e ∈ cs_elements s -> ctx_term e <> t) /\
  (forall m, m ∈ cands -> cand t b m) /\
  (forall σ, admits (mt conf) σ (t, b) -> isCtxVar t = true ->
     exists m, m ∈ cands /\ m_tarCtx m = σ t) /\
  (length cands <= length (idx_elements (mt conf)))%nat.

Lemma collected_length range :
  (forall m, m ∈ range -> m ∈ idx_elements (mt conf)) ->
  (length (collect_neighbors range) <= length (idx_elements (mt conf)))%nat.
Proof.
  intros Hr. destruct (collect_neighbors_spec range) as (Hcol1 & _ & Hcol3).
  rewrite <- (length_fmap m_tarCtx (collect_neighbors range)).
  rewrite <- (length_fmap m_tarCtx (idx_elements (mt conf))).
  apply submseteq_length, NoDup_submseteq; [done|].
  intros c (m & -> & Hm)%list_elem_of_fmap. apply list_elem_of_fmap. eauto.
Qed.

Lemma bind_atom_cases next t b s st :
  counts_known conf -> ok_sub conf s -> plain_atom (ctx_id conf) (t, b) ->
  let r := bind_atom conf next (t, b) s st in
  isCtxVar t = false /\ r = next s st \/
  isCtxVar t = true /\ owner t = ctx_id conf /\
   (r = Ok ([], st) /\ dead s (t, b) \/
    (exists m, rebound s t b m /\ r = next (bind_to s t m) st) \/
    exists cands, fresh_candidates s t b cands /\ r = try_candidates next s t cands st).
Proof.
  intros Hcnt Hok [[Ht Ho]|[Ht Hb]]; cbn in Ht |- *.
  2: { left. split; [done|]. cbn in Hb. by rewrite Ht, Hb. }
  right. cbn in Ho. split; [done|]. split; [done|]. unfold bind_variable.
  rewrite Ht, (ctxID_owner t Ht). cbn [negb andb]. rsimpl.
  set (range := idx_range (key_SrcSym (owner t) (sBelief b)) (mt conf)).
  assert (Hr : forall m, m ∈ range <-> cand t b m) by (intros m; apply elem_key_SrcSym).
  destruct (collect_neighbors_spec range) as (Hcol1 & Hcol2 & _).
  destruct (Nat.eqb_spec (length range) 0) as [E0%nil_length_inv|_].
  { left. split; [done|]. intros σ _ Had. destruct (Had Ht) as (m & ? & ? & ? & _).
    apply (not_elem_of_nil m). rewrite <- E0. apply Hr. by split. }
  destruct (idx_find (key_term t) s) as [it|] eqn:Ef.
  - apply idx_find_some in Ef as [Hit Hkt]. unfold key_term in Hkt. apply N.eqb_eq in Hkt.
    edestruct (bind_instantiated_cases next t b (collect_neighbors range) it s st)
      as [?|?]; [done..| | | | |by left|by right; left]; [|..|done|done].
    + intros m Hin. apply Hr. auto.
    + intros m Hin. apply Hcol2. by apply Hr.
  - right; right.
    destruct (sort_candidates_ok s (collect_neighbors range)) as (cands & -> & Hp); [done| |].
    { intros m Hin. apply Hr. auto. }
    exists cands. rsimpl. split; [|done]. split_and!.
    + intros e He Het. pose proof (idx_find_none _ _ _ Ef He) as Hk. unfold key_term in Hk.
      by rewrite Het, N.eqb_refl in Hk.
    + intros m. rewrite Hp. intros Hin. apply Hr. auto.
    + intros σ Had _. destruct (Had Ht) as (m & ? & ? & ? & Hσ).
      destruct (Hcol2 m) as (m' & Hm' & Htar); [by apply Hr|].
      exists m'. rewrite Hp. split; [done|]. by rewrite Htar.
    + rewrite Hp. apply collected_length. intros m Hin. apply Hr, Hin.
Qed.

(** ** The search over the atoms of a rule *)

Lemma try_candidates_ext (f g : CS -> State -> res (list CS * State)) s t cands st :
  (forall s st, f s st = g s st) -> try_candidates f s t cands st = try_candidates g s t cands st.
Proof.
  intros E. revert st. induction cands as [|m cands IH]; intros st; [done|].
  cbn [try_candidates]. case_match; [done|]. rewrite E. destruct (g _ _) as [[subs st']|]; [|done].
  rsimpl. by rewrite IH.
Qed.

Lemma bind_atom_ext (f g : CS -> State -> res (list CS * State)) a s st :
  (forall s st, f s st = g s st) -> bind_atom conf f a s st = bind_atom conf g a s st.
Proof.
  intros E. destruct a as [t b]. unfold bind_atom. repeat case_match; auto.
  unfold bind_variable, bind_instantiated. destruct (ctxID t); [rsimpl|done].
  repeat case_match; auto. destruct (sort_candidates conf s _); [|done].
  by apply try_candidates_ext.
Qed.

(** The two pairs of iterators walk over one list of atoms. *)
Lemma bind_rule_app pb nb s st : bind_rule conf pb nb s st = bind_negative conf (pb ++ nb) s st.
Proof.
  revert s st. induction pb as [|a pb IH]; intros s st; [done|].
  cbn [bind_rule app bind_negative]. by apply bind_atom_ext.
Qed.

(** The number of substitutions the search stops at. *)
Definition bind_limit : N := N.max 1 (limit_bind_rules conf).

(** The counter is at its limit exactly when the search is to stop. *)
Definition counting st : Prop :=
  no_bind_rules st <= bind_limit /\
  (stop_bind_rules st = true <-> no_bind_rules st = bind_limit).

(** What the search makes of [s] by binding [atoms]. *)
Definition binds (atoms : list BridgeAtom) s cs : Prop :=
  ok_sub conf cs /\ extends s cs /\
  (forall e, e ∈ cs_elements cs -> e ∈ cs_elements s \/ owner (ctx_term e) = ctx_id conf) /\
  Forall (bound (mt conf) cs) atoms.

(** The counters after finding [subs]. *)
Definition counted st (subs : list CS) st' : Prop :=
  counting st' /\ no_bind_rules st' = no_bind_rules st + N.of_nat (length subs) /\
  no_answers st' = no_answers st /\ stop st' = stop st.

(** [next] finds bindings of [atoms] only, all of them unless it is stopped,
    and no more than there are choices. *)
Definition searches (atoms : list BridgeAtom) (next : CS -> State -> res (list CS * State)) : Prop :=
  forall s st, ok_sub conf s -> counting st -> stop_bind_rules st = false ->
  exists subs st', next s st = Ok (subs, st') /\ Forall (binds atoms s) subs /\
    counted st subs st' /\
    (stop_bind_rules st' = false -> forall σ, agrees σ s -> Forall (admits (mt conf) σ) atoms ->
       exists cs, cs ∈ subs /\ agrees σ cs) /\
    (length subs <= S (length (idx_elements (mt conf))) ^ length atoms)%nat.

Lemma searches_leaf : limit_bind_rules conf < W64 -> searches [] (bind_leaf conf).
Proof.
  intros Hl s st Hok [Hc1 Hc2] Hst. unfold bind_leaf.
  assert (Hn : no_bind_rules st < bind_limit).
  { destruct (N.lt_ge_cases (no_bind_rules st) bind_limit) as [|Hge]; [done|].
    assert (stop_bind_rules st = true) by (apply Hc2; lia). congruence. }
  unfold bind_limit in Hn. rewrite u64_add_small by lia. eexists _, _. split; [done|].
  split_and!; cbn [no_bind_rules stop_bind_rules no_answers stop length].
  - constructor; [|done]. split_and!; [done|done|by left|done].
  - unfold counted, counting, bind_limit. cbn [no_bind_rules stop_bind_rules no_answers stop length].
    rewrite Hst. split_and!; try lia; try done.
    destruct (N.leb_spec (limit_bind_rules conf) (no_bind_rules st + 1)); split; intros; lia || done.
  - intros _ σ Hag _. exists s. split; [left|done].
  - cbn. lia.
Qed.

Lemma binds_weaken a atoms s s' cs :
  extends s s' -> (forall e, e ∈ cs_elements s' -> e ∈ cs_elements s \/ owner (ctx_term e) = ctx_id conf) ->
  bound (mt conf) s' a -> binds atoms s' cs -> binds (a :: atoms) s cs.
Proof.
  intros He Hn Hb (Hok & He' & Hn' & Hbs). split_and!; [done|by trans s'| |].
  - intros e Hin. destruct (Hn' e Hin); auto.
  - constructor; [|done]. by apply (bound_mono _ s').
Qed.

Lemma binds_bound_to t b m atoms s cs :
  ok_sub conf s -> owner t = ctx_id conf -> cand t b m ->
  binds atoms (bind_to s t m) cs -> binds ((t, b) :: atoms) s cs.
Proof.
  intros Hok Ho Hm. apply binds_weaken; [apply bind_to_extends| |by apply bind_to_bound].
  intros e [He|He]%bind_to_new; [by left|right]. by rewrite He.
Qed.

Lemma pow_succ_le n M k : (n <= S M ^ k -> n <= S M ^ S k)%nat.
Proof. intros Hn. cbn [Nat.pow]. nia. Qed.

Lemma counted_nil st : counting st -> counted st [] st.
Proof. intros Hc. split_and!; [done|cbn; lia|done|done]. Qed.

Lemma searches_try t b atoms next s cands st :
  searches atoms next -> ok_sub conf s -> isCtxVar t = true -> owner t = ctx_id conf ->
  counting st ->
  (forall e, e ∈ cs_elements s -> ctx_term e <> t) -> (forall m, m ∈ cands -> cand t b m) ->
  exists subs st', try_candidates next s t cands st = Ok (subs, st') /\
    Forall (binds ((t, b) :: atoms) s) subs /\ counted st subs st' /\
    (stop_bind_rules st' = false -> forall σ m, m ∈ cands -> agrees σ s -> m_tarCtx m = σ t ->
       Forall (admits (mt conf) σ) atoms -> exists cs, cs ∈ subs /\ agrees σ cs) /\
    (length subs <= length cands * S (length (idx_elements (mt conf))) ^ length atoms)%nat.
Proof.
  intros Hnext Hok Ht Ho. revert st. induction cands as [|m cands IH]; intros st Hc Hfr Hcd.
  { eexists [], st. split; [done|]. split; [done|]. split; [by apply counted_nil|].
    split; [|cbn; lia]. by intros _ σ m Hm%not_elem_of_nil. }
  cbn [try_candidates]. destruct (stop_bind_rules st) eqn:Est.
  { eexists [], st. split; [done|]. split; [done|]. split; [by apply counted_nil|].
    split; [congruence|cbn; lia]. }
  assert (Hm : cand t b m) by (apply Hcd; left).
  assert (Hok' : ok_sub conf (bind_to s t m)).
  { apply (bind_to_ok s t b); [done..|]. intros e He Het. by destruct (Hfr e He). }
  destruct (Hnext _ _ Hok' Hc Est) as (subs & st1 & -> & Hb & (Hc1 & Hn1 & Ha1 & Hs1) & Hcm & Hlen).
  rsimpl.
  destruct (IH st1 Hc1 Hfr) as (rest & st2 & -> & Hb2 & (Hc2 & Hn2 & Ha2 & Hs2) & Hcm2 & Hlen2).
  { intros m' Hm'. apply Hcd. by right. }
  rsimpl. eexists _, _. split; [done|]. split; [|split; [|split]].
  - apply Forall_app. split; [|done]. eapply Forall_impl; [exact Hb|]. intros cs.
    by apply binds_bound_to.
  - split_and!; [done|rewrite length_app; lia|congruence|congruence].
  - intros Hst σ m' Hm' Hag Htar Had. apply elem_of_cons in Hm' as [->|Hm'].
    + destruct Hcm with σ as (cs & Hcs & Hagc); [|by apply bind_to_agrees|done|set_solver].
      apply not_true_iff_false. intros Hst1. destruct Hc2 as [Hle Hiff].
      apply not_true_iff_false in Hst. apply Hst, Hiff. apply (proj2 Hc1) in Hst1. lia.
    + destruct (Hcm2 Hst σ m' Hm' Hag Htar Had) as (cs & ? & ?). set_solver.
  - rewrite length_app. cbn [length]. lia.
Qed.

Lemma searches_atom a atoms next :
  counts_known conf -> plain_atom (ctx_id conf) a -> searches atoms next ->
  searches (a :: atoms) (bind_atom conf next a).
Proof.
  intros Hcnt Hp Hnext s st Hok Hc Hst. destruct a as [t b].
  set (M := length (idx_elements (mt conf))) in *.
  destruct (bind_atom_cases next t b s st Hcnt Hok Hp)
    as [[Ht ->]|(Ht & Ho & [[-> Hd]|[(m & (Hm & Hag & Hσ) & ->)|(cands & (Hfr & Hcd & Hcov & Hlen) & ->)]])].
  - destruct (Hnext s st Hok Hc Hst) as (subs & st' & -> & Hb & Hcs & Hcm & Hl).
    eexists _, _. split; [done|]. split_and!; [|done| |by apply pow_succ_le].
    + eapply Forall_impl; [exact Hb|]. intros cs. apply binds_weaken; [done|by left|].
      intros Hv. cbn in Hv. congruence.
    + intros Hs σ Ha Had. apply Hcm; [done..|]. by inversion Had.
  - eexists [], st. split; [done|]. split_and!; [done|by apply counted_nil| |cbn; lia].
    + intros _ σ Ha Had. exfalso. apply (Hd σ Ha). by inversion Had.
  - assert (Hok' : ok_sub conf (bind_to s t m)) by (by apply (bind_to_ok s t b)).
    destruct (Hnext _ st Hok' Hc Hst) as (subs & st' & -> & Hb & Hcs & Hcm & Hl).
    eexists _, _. split; [done|]. split_and!; [|done| |by apply pow_succ_le].
    + eapply Forall_impl; [exact Hb|]. intros cs. by apply binds_bound_to.
    + intros Hs σ Ha Had. apply Hcm; [done| |by inversion Had].
      apply bind_to_agrees; [done|]. by apply Hσ.
  - destruct (searches_try t b atoms next s cands st Hnext Hok Ht Ho Hc Hfr Hcd)
      as (subs & st' & -> & Hb & Hcs & Hcm & Hl).
    eexists _, _. split; [done|]. split_and!; [done|done| |].
    + intros Hs σ Ha Had. inversion Had as [|?? Ha1 Had']; subst.
      destruct (Hcov σ Ha1 Ht) as (m & Hin & Htar). by apply (Hcm Hs σ m).
    + cbn [length Nat.pow]. fold M in Hlen, Hl. etrans; [exact Hl|]. apply Nat.mul_le_mono_r. lia.
Qed.

Lemma bind_rule_searches pb nb :
  counts_known conf -> limit_bind_rules conf < W64 ->
  Forall (plain_atom (ctx_id conf)) (pb ++ nb) ->
  searches (pb ++ nb) (bind_rule conf pb nb).
Proof.
  intros Hcnt Hl Hp.
  assert (Hn : searches (pb ++ nb) (bind_negative conf (pb ++ nb))).
  { induction Hp as [|a atoms Ha Hp IH]; [by apply searches_leaf|]. by apply searches_atom. }
  intros s st Hok Hc Hst. rewrite bind_rule_app. by apply Hn.
Qed.

(** C8. Binding a rule always returns, when the counts of all contexts in the
    match table are known and no schematic atom names a constant context.
    Every substitution found extends the
    given one with entries for variables of this context only, binds every
    variable to one context and every atom of the rule to a match of the
    table; there are at most [max 1 limit_bind_rules] of them (a limit of 0
    still gives one); and when there are fewer, every assignment of contexts to
    variables that agrees with the given substitution and that the match table
    admits for all atoms is represented: some substitution found assigns the
    same contexts.  Of several matches with the same target context only the
    first is used, so that not every binding to matches is found. *)
Theorem bind_rule_correct pb nb s na sp :
  counts_known conf -> limit_bind_rules conf < W64 ->
  Forall (plain_atom (ctx_id conf)) (pb ++ nb) -> ok_sub conf s ->
  exists subs st', bind_rule conf pb nb s (mk_state na 0 sp false) = Ok (subs, st') /\
    Forall (binds (pb ++ nb) s) subs /\
    N.of_nat (length subs) <= N.max 1 (limit_bind_rules conf) /\
    (N.of_nat (length subs) < N.max 1 (limit_bind_rules conf) ->
     forall σ, agrees σ s -> Forall (admits (mt conf) σ) (pb ++ nb) ->
       exists cs, cs ∈ subs /\ agrees σ cs).
Proof.
  intros Hcnt Hl Hp Hok.
  destruct (bind_rule_searches pb nb Hcnt Hl Hp s (mk_state na 0 sp false) Hok)
    as (subs & st' & E & Hb & ((Hle & Hiff) & Hn & _) & Hcm & _); [|done|].
  { unfold counting, bind_limit; cbn. split; [lia|]. split; intros; [done|lia]. }
  cbn in Hn. rewrite N.add_0_l in Hn. unfold bind_limit in *.
  exists subs, st'. split_and!; [done|done|lia|].
  intros Hlt. apply Hcm. apply not_true_iff_false. rewrite Hiff. lia.
Qed.

End Binding.


(** ** Topologies of results *)

Section TopologyProofs.
Context {MT CS G : Type} `{MatchTable MT} `{ContextSubstitutionLaws CS} `{AdjacencyListLaws G}.

(** The contexts of the entry are in a pool of [n] contexts, ids from 1. *)
Definition entry_in_pool (n : N) (e : ContextMatch) : Prop :=
  isCtxVar (ctx_term e) = true /\ 1 <= owner (ctx_term e) /\ owner (ctx_term e) <= n /\
  1 <= tarCtx e /\ tarCtx e <= n.

(** The edges of the entries [l], without repetition. *)
Definition topology_of (n : N) (l : list ContextMatch) (g : G) : Prop :=
  num_vertices g = n /\ NoDup (graph_edges g) /\
  forall u v, (u, v) ∈ graph_edges g <->
    exists e, e ∈ l /\ owner (ctx_term e) = u + 1 /\ tarCtx e = v + 1.

Lemma topology_step_spec n l g e :
  n < W64 -> entry_in_pool n e -> topology_of n l g ->
  exists g', topology_step g e = Ok g' /\ topology_of n (l ++ [e]) g'.
Proof.
  intros Hn (Hv & Ho1 & Ho2 & Ht1 & Ht2) (Hg & Hnd & Hed). unfold topology_step.
  rewrite ctxID_owner by done. rsimpl. rewrite !u64_sub_small by lia. unfold vertex. rewrite Hg.
  set (u := owner (ctx_term e) - 1). set (v := tarCtx e - 1).
  assert (Hu : u < n) by lia. assert (Hv' : v < n) by lia.
  rewrite (proj2 (N.ltb_lt u n) Hu), (proj2 (N.ltb_lt v n) Hv'). rsimpl.
  assert (Hsn : forall x y, (exists e', e' ∈ l ++ [e] /\ owner (ctx_term e') = x + 1 /\ tarCtx e' = y + 1) <->
                (x, y) ∈ graph_edges g \/ (x, y) = (u, v)).
  { intros x y. rewrite Hed. setoid_rewrite elem_of_app. setoid_rewrite list_elem_of_singleton.
    split.
    - intros (e' & [He| ->] & Hx & Hy); [by left; exists e'|right]. f_equal; lia.
    - intros [(e' & ? & ? & ?)|[= -> ->]]; [by exists e'; auto|]. exists e. split; [by right|lia]. }
  eexists. split; [done|].
  destruct (existsb (fun e' => e'.2 =? v) (out_edges u g)) eqn:E; cbn [negb].
  - split_and!; [done|done|]. intros x y. rewrite Hsn. split; [by left|].
    intros [?|[= -> ->]]; [done|]. apply existsb_exists in E as ([a b] & Hab & Hb%N.eqb_eq).
    apply list_elem_of_In, elem_of_out_edges in Hab as [Hab Ha]; [|by rewrite Hg].
    cbn in Ha, Hb. by subst.
  - assert (Hnew : (u, v) ∉ graph_edges g).
    { intros Hin. apply not_true_iff_false in E. apply E, existsb_exists. exists (u, v).
      split; [|apply N.eqb_refl]. apply list_elem_of_In, elem_of_out_edges; [by rewrite Hg|done]. }
    pose proof (add_edge_edges u v g ltac:(by rewrite Hg) ltac:(by rewrite Hg)) as Hp.
    split_and!.
    + by rewrite add_edge_vertices by (by rewrite Hg).
    + rewrite Hp. by constructor.
    + intros x y. rewrite Hp, Hsn, elem_of_cons. tauto.
Qed.

Lemma compute_topology_spec (conf : Conf MT) (cs : CS) :
  N.of_nat (length (context_info conf)) < W64 ->
  Forall (entry_in_pool (N.of_nat (length (context_info conf)))) (cs_elements cs) ->
  exists g : G, compute_topology conf cs = Ok g /\
    topology_of (N.of_nat (length (context_info conf))) (cs_elements cs) g.
Proof.
  intros Hn Hin. unfold compute_topology. set (n := N.of_nat _) in *.
  enough (Hg : forall rest l (g : G), cs_elements cs = l ++ rest -> topology_of n l g ->
    exists g', foldM topology_step g rest = Ok g' /\ topology_of n (cs_elements cs) g').
  { apply (Hg _ []); [done|]. split_and!; [apply new_graph_vertices|rewrite new_graph_edges; constructor|].
    intros u v. rewrite new_graph_edges. split; [by intros ?%not_elem_of_nil|].
    by intros (e & ?%not_elem_of_nil & _). }
  induction rest as [|e rest IH]; intros l g Hl Ht.
  - exists g. rewrite app_nil_r in Hl. by rewrite Hl.
  - destruct (topology_step_spec n l g e) as (g' & E & Ht'); [done| |done|].
    { rewrite Forall_forall in Hin. apply Hin. rewrite Hl. apply elem_of_app. right; left. }
    cbn [foldM]. rewrite E. rsimpl. apply (IH (l ++ [e])); [|done]. by rewrite <- app_assoc.
Qed.

(** The vertex has an edge. *)
Definition used (g : G) (u : N) : bool :=
  existsb (fun e => (e.1 =? u) || (e.2 =? u)) (graph_edges g).

Lemma filter_length_pos {A} (f : A -> bool) l : (0 <? N.of_nat (length (List.filter f l))) = existsb f l.
Proof. induction l as [|a l IH]; [done|]. cbn. destruct (f a); [done|apply IH]. Qed.

Lemma used_degrees (g : G) u :
  u < num_vertices g -> used g u = (0 <? in_degree u g) || (0 <? out_degree u g).
Proof.
  intros Hu. rewrite in_degree_edges, out_degree_edges, !filter_length_pos by done.
  unfold used. induction (graph_edges g) as [|e l IH]; [done|]. cbn. rewrite IH.
  by destruct (e.1 =? u), (e.2 =? u), (existsb _ l), (existsb _ l).
Qed.

Lemma resulted_system_size_spec (g : G) :
  resulted_system_size g = N.of_nat (length (List.filter (used g) (nrange 0 (num_vertices g)))).
Proof.
  unfold resulted_system_size.
  enough (Hg : forall l acc, (forall u, u ∈ l -> u < num_vertices g) ->
    foldl (fun rss u => if 0 <? in_degree u g then rss + 1
                        else if 0 <? out_degree u g then rss + 1 else rss) acc l =
    acc + N.of_nat (length (List.filter (used g) l))).
  { rewrite Hg; [done|]. intros u Hu. apply elem_of_nrange in Hu. lia. }
  induction l as [|u l IH]; intros acc Hl; cbn [foldl List.filter length]; [lia|].
  rewrite IH by (intros x Hx; apply Hl; by right). rewrite used_degrees by (apply Hl; left).
  destruct (0 <? in_degree u g), (0 <? out_degree u g); cbn [orb length]; lia.
Qed.

(** The topology of a substitution over a pool numbered from 1 has one
    vertex per context, an edge exactly where some variable of a context is
    bound to a context, each edge once; and the reported system size is the
    number of contexts with an edge. *)
Theorem compute_topology_correct (conf : Conf MT) (cs : CS) :
  let n := N.of_nat (length (context_info conf)) in
  n < W64 -> Forall (entry_in_pool n) (cs_elements cs) ->
  exists g : G, compute_topology conf cs = Ok g /\
    num_vertices g = n /\ NoDup (graph_edges g) /\
    (forall u v, (u, v) ∈ graph_edges g <->
       exists e, e ∈ cs_elements cs /\ owner (ctx_term e) = u + 1 /\ tarCtx e = v + 1) /\
    resulted_system_size g = N.of_nat (length (List.filter (used g) (nrange 0 n))).
Proof.
  intros n Hn Hin. destruct (compute_topology_spec conf cs Hn Hin) as (g & E & Hg & Hnd & Hed).
  exists g. split_and!; [done..|]. by rewrite resulted_system_size_spec, Hg.
Qed.

Lemma compute_topologies_ok (conf : Conf MT) (subs : list CS) :
  let n := N.of_nat (length (context_info conf)) in
  n < W64 -> N.of_nat (length (idx_elements (mt conf))) + 1 < W64 ->
  Forall (in_pool n) (idx_elements (mt conf)) ->
  Forall (fun cs => Forall (entry_in_pool n) (cs_elements cs)) subs ->
  exists r, compute_topologies (G := G) conf subs = Ok r.
Proof.
  intros n Hn Hm Hin Hsubs. unfold compute_topologies. fold n.
  rewrite (no_unique_connections_correct (mt conf) n Hn Hm Hin). rsimpl.
  match goal with |- context [foldM ?f [] subs] =>
    assert (Hf : forall topo, exists r, foldM f topo subs = Ok r) end.
  { induction Hsubs as [|cs subs Hcs Hsubs IH]; intros topo; cbn [foldM]; [by eexists|].
    destruct (compute_topology_spec conf cs Hn Hcs) as (g & -> & _). rsimpl. apply IH. }
  destruct (Hf []) as [r ->]. rsimpl. by eexists.
Qed.

End TopologyProofs.

(** ** A stopped context *)

Section Stopped.
Context {MT CS : Type} `{MatchTableLaws MT} `{ContextSubstitutionLaws CS} `{NeighborCompare}.

(** Once a context has stopped because [limit_answers] was reached, it stays
    stopped: with at least one bridge rule it answers every later request with
    no substitution at all, whatever the request. *)
Theorem stopped_context_answers_nothing (conf : Conf MT) {W} client root (cs : CS) st (w : W) r rules :
  bridge_rules conf = r :: rules -> counts_known conf -> limit_bind_rules conf < W64 ->
  Forall (plain_atom (ctx_id conf)) (getPositiveBody r ++ getNegativeBody r) -> ok_sub conf cs ->
  stop st = true ->
  exists st', lconfig_rules conf client root (bridge_rules conf) cs (st, w) = Ok ([], (st', w)) /\
    stop st' = true.
Proof.
  intros Hr Hcnt Hl Hp Hok Hst. rewrite Hr. cbn [lconfig_rules fst snd].
  destruct (bind_rule_searches conf _ _ Hcnt Hl Hp cs (mk_state (no_answers st) 0 (stop st) false) Hok)
    as (subs & st' & -> & _ & (_ & _ & _ & Hs) & _); [|done|].
  { unfold counting, bind_limit; cbn. split; [lia|]. split; intros; [done|lia]. }
  cbn in Hs. rewrite Hst in Hs. rsimpl. exists st'. split; [|done].
  destruct subs; cbn [drain fst]; [done|]. by rewrite Hs.
Qed.

End Stopped.

(** ** A context with one variable *)

Module Example.

(** Comparing the ids satisfies the law. *)
#[export] Instance compare_ids : NeighborCompare := fun c n => neighbor_id n =? c.
#[export] Instance compare_ids_laws : NeighborCompareLaws.
Proof. intros c n. apply N.eqb_eq. Qed.

Definition p : N := constructSchematicBelief IS_EXACT_SCHEMATIC_BELIEF 5.
Definition X : N := ctxVarTerm 1 1.
Definition one : spec_float := float_of_size 1.
Definition table : list Match := [mk_match 1 5 2 7 one; mk_match 1 5 3 8 one; mk_match 1 6 3 9 one].
Definition rule : BridgeRule := mk_bridge_rule [1] ([(X, p)], []).
Definition nbs : list Neighbor := [mk_neighbor 1 "a" "1"; mk_neighbor 2 "b" "2"; mk_neighbor 3 "c" "3"].
Definition conf (la lb : N) : Conf (list Match) :=
  mk_conf (list Match) 1 [rule] nbs table [0; 0; 0; 0] la lb CHOSEN_CTX_SORTING_STRATEGY.

Lemma counts la lb : counts_known (conf la lb).
Proof.
  intros m Hm. cbn in Hm. unfold table in Hm. rewrite !elem_of_cons, elem_of_nil in Hm.
  destruct Hm as [->|[->|[->|[]]]]; cbn; lia.
Qed.

Lemma plain : Forall (plain_atom 1) [(X, p)].
Proof. repeat constructor; left; by vm_compute. Qed.

Lemma empty_ok la lb : ok_sub (conf la lb) ([] : list ContextMatch).
Proof. split_and!; intros ? ?%not_elem_of_nil || intros ? ? ?%not_elem_of_nil; done. Qed.

(** The bindings of [X], with room for all and with room for one. *)
Lemma bind_value lb :
  lb = 10 \/ lb = 1 ->
  match bind_rule (conf 0 lb) [(X, p)] [] ([] : list ContextMatch) initial_state with
  | Ok (subs, _) => map (map tarCtx) subs = if lb =? 10 then [[2]; [3]] else [[2]]
  | Err _ => False
  end.
Proof. intros [->| ->]; vm_compute; reflexivity. Qed.

(** A rule over a context id and a schematic belief: the entry of the constant
    term makes an assertion of [ctxID] fail when all rules are bound. *)
Definition const_rule : BridgeRule := mk_bridge_rule [1] ([(2, p)], []).
Definition const_conf : Conf (list Match) :=
  mk_conf (list Match) 1 [const_rule] nbs table [0; 0; 0; 0] 0 10 0.

End Example.
Import (hints) Example.

Lemma bind_rule_correct_witness :
  exists subs st', bind_rule (Example.conf 0 10) [(Example.X, Example.p)] [] ([] : list ContextMatch)
      (mk_state 0 0 false false) = Ok (subs, st') /\
    Forall (binds (Example.conf 0 10) [(Example.X, Example.p)] []) subs.
Proof.
  destruct (bind_rule_correct (Example.conf 0 10) [(Example.X, Example.p)] [] ([] : list ContextMatch) 0 false)
    as (subs & st' & E & Hb & _).
  - apply Example.counts.
  - reflexivity.
  - apply Example.plain.
  - apply Example.empty_ok.
  - exists subs, st'. split; [exact E|exact Hb].
Defined.

Lemma compute_topology_correct_witness :
  exists g : N * list (N * N),
    compute_topology (Example.conf 0 10) [mk_context_match Example.X 5 3 8 Example.one] = Ok g /\
    resulted_system_size g = 2.
Proof.
  destruct (compute_topology_correct (G := N * list (N * N)) (Example.conf 0 10)
    [mk_context_match Example.X 5 3 8 Example.one]) as (g & E & _).
  - reflexivity.
  - repeat constructor; by vm_compute.
  - exists g. split; [exact E|]. vm_compute in E. injection E as <-. reflexivity.
Defined.

Lemma stopped_context_answers_nothing_witness :
  exists st', lconfig_rules (W := unit) (Example.conf 1 10) (fun _ _ cs w => Ok ([cs], w)) 1
      [Example.rule] ([] : list ContextMatch) (mk_state 1 0 true false, tt) = Ok ([], (st', tt)) /\ stop st' = true.
Proof.
  apply (stopped_context_answers_nothing (Example.conf 1 10)
    (fun _ _ cs w => Ok ([cs], w)) 1 ([] : list ContextMatch) (mk_state 1 0 true false) tt Example.rule []).
  - reflexivity.
  - apply Example.counts.
  - reflexivity.
  - apply Example.plain.
  - apply Example.empty_ok.
  - reflexivity.
Defined.

(** A bridge atom with a context id and a schematic belief makes [lconfig]
    abort: its entry has a constant term, and the computation of the contexts
    to invoke asserts that every term is a variable. *)
Theorem constant_schematic_atom_aborts :
  lconfig (N * list (N * N)) (W := unit) Example.const_conf (fun _ _ cs w => Ok ([cs], w)) 1
    ([] : list ContextMatch) (initial_state, tt) = Err AssertFailed.
Proof. vm_compute. reflexivity. Qed.

(** Answers that need no further neighbor are not counted: context 2, whose
    candidates 3 and 4 were both chosen by context 1, returns two substitutions
    under a limit of one answer. *)
Lemma limit_answers_not_respected :
  let m t c := mk_context_match t 5 c 7 Example.one in
  let sofar := [m Example.X 2; m (ctxVarTerm 1 2) 3; m (ctxVarTerm 1 3) 4] in
  let conf2 := mk_conf (list Match) 2 [mk_bridge_rule [1] ([(ctxVarTerm 2 1, Example.p)], [])]
    Example.nbs [mk_match 2 5 3 7 Example.one; mk_match 2 5 4 7 Example.one] [] 1 10 0 in
  exists subs st, lconfig (N * list (N * N)) (W := unit) conf2 (fun _ _ cs w => Ok ([cs], w)) 1 sofar (initial_state, tt) =
    Ok (subs, (st, tt)) /\ length subs = 2%nat /\ limit_answers conf2 = 1 /\ no_answers st = 0.
Proof. eexists _, _. split; [vm_compute; reflexivity|]. by vm_compute. Qed.

End DynamicConfiguration.
