(* ===== verification/DynamicPool.v ===== *)
(** * A pool of dynamically configured contexts

    Every context of a pool runs src/dyndmcs/DynamicConfiguration.cpp behind a
    server.  A request opens a connection of its own, for which
    [CommandTypeFactory::create] (include/CommandTypeFactory.h) makes a new
    [DynamicConfiguration]; asking a neighbor is running the [lconfig] of such
    an object on the message ([DynamicCommandType::execute],
    include/dyndmcs/DynamicCommandType.h).

    The contexts that are searching are recorded, and a request to one of them
    is an error here: the server loop is not among the sources, and nothing is
    assumed about what it would do.  The theorems say that this never happens,
    that the requests end, and what they return. *)

From S2P Require Import Prelude Tables ContextTerms Matches DynamicConfiguration.
Import Tables ContextTerms Matches DynamicConfiguration.

Module DynamicPool.

Section Request.
Context {MT CS : Type} (G : Type) `{MatchTable MT} `{ContextSubstitution CS} `{AdjacencyList G}.
Context `{NeighborCompare}.

(** The contexts with their configurations. *)
Context (pool : gmap ContextID (Conf MT)).

(** A request to the server of a neighbor: a new object and its [lconfig].
    [w] are the contexts that are searching.  The fuel bounds the depth of
    nested requests. *)
Fixpoint request (fuel : nat) (nb : Neighbor) (root : ContextID) (cs : CS) (w : gset ContextID) :
    res (list CS * gset ContextID) :=
  match fuel with
  | O => Err OutOfFuel
  | S fuel =>
      match pool !! neighbor_id nb with
      | Some conf =>
          if decide (neighbor_id nb ∈ w) then Err Blocked
          else
            '(subs, (_, w)) ← lconfig G conf (request fuel) root cs (initial_state, w ∪ {[neighbor_id nb]});
            mret (subs, w ∖ {[neighbor_id nb]})
      | None => Err Blocked
      end
  end.

End Request.

Section Pool.
Context {MT CS : Type} `{MatchTable MT} `{ContextSubstitution CS} `{NeighborCompare}.
Context (pool : gmap ContextID (Conf MT)).

(** ** What a pool is and what a configuration means *)

Definition rule_atoms (r : BridgeRule) : list BridgeAtom := getPositiveBody r ++ getNegativeBody r.

(** The configuration of the context [k] in a pool of [n] contexts. *)
Record wf_conf (n : N) (k : ContextID) (conf : Conf MT) : Prop := {
  wf_id : ctx_id conf = k;
  wf_range : 1 <= k /\ k <= n;
  wf_info : N.of_nat (length (context_info conf)) = n;
  wf_table : N.of_nat (length (idx_elements (mt conf))) + 1 < W64 /\
             Forall (in_pool n) (idx_elements (mt conf));
  wf_counts : counts_known conf;
  wf_limit : limit_bind_rules conf < W64;
  wf_rules : forall r, r ∈ bridge_rules conf -> Forall (plain_atom k) (rule_atoms r);
  wf_targets m : m ∈ idx_elements (mt conf) ->
    is_Some (pool !! m_tarCtx m) /\
    exists nb, List.find (compareNeighbors (m_tarCtx m)) (context_info conf) = Some nb;
}.

Definition wf_pool (n : N) : Prop :=
  n < W64 /\ forall k conf, pool !! k = Some conf -> wf_conf n k conf.

(** No limit is ever reached. *)
Definition unlimited : Prop :=
  forall k conf, pool !! k = Some conf ->
    limit_answers conf = 0 /\
    forall r, r ∈ bridge_rules conf ->
      N.of_nat (S (length (idx_elements (mt conf))) ^ length (rule_atoms r)) < limit_bind_rules conf.

(** Every entry is a match of the table of its context. *)
Definition good (cs : CS) : Prop :=
  all_vars cs /\ consistent cs /\
  forall e, e ∈ cs_elements cs ->
    exists conf, pool !! owner (ctx_term e) = Some conf /\ matched (mt conf) e.

(** All bridge atoms of the context [c] are bound. *)
Definition configured (c : ContextID) (cs : CS) : Prop :=
  forall conf, pool !! c = Some conf ->
    forall r, r ∈ bridge_rules conf -> Forall (bound (mt conf) cs) (rule_atoms r).

(** The assignment is admitted by all atoms of all contexts. *)
Definition admitted (σ : ContextTerm -> ContextID) : Prop :=
  forall k conf r, pool !! k = Some conf -> r ∈ bridge_rules conf ->
    Forall (admits (mt conf) σ) (rule_atoms r).

(** A target of [cs'] is the root, a target of [cs] or configured. *)
Definition closed_over (root : ContextID) (cs cs' : CS) : Prop :=
  forall e, e ∈ cs_elements cs' ->
    tarCtx e = root \/ (exists e0, e0 ∈ cs_elements cs /\ tarCtx e0 = tarCtx e) \/
    configured (tarCtx e) cs'.

(** What the context [k] makes of [cs]. *)
Definition answers (root k : ContextID) (cs cs' : CS) : Prop :=
  good cs' /\ extends cs cs' /\ configured k cs' /\ closed_over root cs cs'.

(** ** Active contexts

    [A] are the contexts that wait for an answer.  Each of them but the root
    was bound by another active context. *)

Definition chain (root : ContextID) (A : gset ContextID) (cs : CS) : Prop :=
  forall a, a ∈ A -> a = root \/
    exists e, e ∈ cs_elements cs /\ tarCtx e = a /\
      owner (ctx_term e) ∈ A /\ owner (ctx_term e) <> a.

Definition called (root : ContextID) (A : gset ContextID) (cs : CS) (k : ContextID) : Prop :=
  k = root \/ exists e, e ∈ cs_elements cs /\ tarCtx e = k /\ owner (ctx_term e) ∈ A.

(** [free]: the search is not cut off.  A proposition of the user, so that the
    results are stated with and without it. *)
Context (free : Prop).

(** Among the results is one that agrees with an admitted assignment. *)
Definition covers (cs : CS) (subs : list CS) : Prop :=
  free -> forall σ, admitted σ -> agrees σ cs -> exists cs', cs' ∈ subs /\ agrees σ cs'.

(** The promise of the neighbors to a context that asks while [A] is active. *)
Definition serves (A : gset ContextID)
    (client : Neighbor -> ContextID -> CS -> gset ContextID -> res (list CS * gset ContextID)) : Prop :=
  forall nb root cs,
    neighbor_id nb ∈ dom pool -> neighbor_id nb ∉ A -> good cs ->
    chain root A cs -> called root A cs (neighbor_id nb) ->
    exists subs, client nb root cs A = Ok (subs, A) /\
      Forall (answers root (neighbor_id nb) cs) subs /\ covers cs subs.

End Pool.

Section PoolProofs.
Context {MT CS G : Type} `{MatchTableLaws MT} `{ContextSubstitutionLaws CS} `{AdjacencyListLaws G}.
Context `{NeighborCompareLaws}.
Context (pool : gmap ContextID (Conf MT)) (free : Prop) (Hfree : free -> unlimited pool).
Implicit Types (cs : CS) (A : gset ContextID).

Lemma configured_mono c cs cs' : extends cs cs' -> configured pool c cs -> configured pool c cs'.
Proof.
  intros He Hc conf Hp r Hr. eapply Forall_impl; [by apply (Hc conf)|].
  intros a. by apply bound_mono.
Qed.

Lemma chain_mono root A cs cs' : extends cs cs' -> chain root A cs -> chain root A cs'.
Proof. intros He Hc a Ha. destruct (Hc a Ha) as [|(e & ? & ?)]; [by left|right]. exists e. auto. Qed.

Lemma good_ok_sub k conf cs :
  pool !! k = Some conf -> ctx_id conf = k -> good pool cs -> ok_sub conf cs.
Proof.
  intros Hp Hid (Hv & Hc & Hg). split_and!; [done|done|]. intros e He Ho.
  destruct (Hg e He) as (conf' & Hp' & Hm). rewrite Ho, Hid in Hp'. congruence.
Qed.

Lemma good_binds k conf atoms s cs :
  pool !! k = Some conf -> ctx_id conf = k -> good pool s -> binds conf atoms s cs -> good pool cs.
Proof.
  intros Hp Hid (_ & _ & Hg) ((Hv & Hc & Hm) & _ & Hn & _). split_and!; [done|done|].
  intros e He. destruct (Hn e He) as [Hs|Ho]; [by apply Hg|].
  exists conf. rewrite Ho, Hid. split; [done|]. apply Hm; [done|]. congruence.
Qed.

Lemma good_in_pool n cs e :
  (forall k conf, pool !! k = Some conf -> wf_conf pool n k conf) ->
  good pool cs -> e ∈ cs_elements cs -> entry_in_pool n e.
Proof.
  intros Hall (Hv & _ & Hg) He. destruct (Hg e He) as (conf & Hp & (m & Hm & _ & _ & Ht & _)).
  destruct (wf_range _ _ _ _ (Hall _ _ Hp)) as [Hr1 Hr2].
  destruct (wf_table _ _ _ _ (Hall _ _ Hp)) as [_ Hin]. rewrite Forall_forall in Hin.
  destruct (Hin m Hm) as (_ & _ & Ht1 & Ht2). rewrite Ht in Ht1, Ht2.
  split_and!; [by apply Hv|done..].
Qed.

(** The waiting context joins the active ones. *)
Lemma chain_join root A cs k : called root A cs k -> k ∉ A -> chain root A cs -> chain root (A ∪ {[k]}) cs.
Proof.
  intros Hk HA Hc a [Ha|Ha%elem_of_singleton]%elem_of_union.
  - destruct (Hc a Ha) as [?|(e & ? & ? & Ho & ?)]; [by left|right]. exists e.
    split_and!; [done|done|by apply elem_of_union_l|done].
  - subst a. destruct Hk as [?|(e & ? & ? & Ho)]; [by left|right]. exists e.
    split_and!; [done|done|by apply elem_of_union_l|]. intros Heq. by rewrite Heq in Ho.
Qed.

(** ** Queues of substitutions *)

Lemma drain_spec {W} (I : State * W -> Prop) (R : CS -> CS -> Prop)
    (next : CS -> State * W -> res (list CS * (State * W))) queue w :
  (forall w, I w -> free -> stop w.1 = false) ->
  (forall cs w, cs ∈ queue -> I w ->
     exists subs w', next cs w = Ok (subs, w') /\ I w' /\ Forall (R cs) subs /\ covers pool free cs subs) ->
  I w ->
  exists subs w', drain next queue w = Ok (subs, w') /\ I w' /\
    (forall cs', cs' ∈ subs -> exists cs, cs ∈ queue /\ R cs cs') /\
    forall cs, cs ∈ queue -> covers pool free cs subs.
Proof.
  intros Hun Hnext. revert w. induction queue as [|cs queue IH]; intros w Hw.
  { eexists [], w. split; [done|]. split; [done|]. split; by intros cs ?%not_elem_of_nil. }
  cbn [drain]. destruct (stop w.1) eqn:Est.
  { eexists [], w. split; [done|]. split; [done|]. split; [by intros ? ?%not_elem_of_nil|].
    intros cs' _ Hu. rewrite (Hun w Hw Hu) in Est. done. }
  destruct (Hnext cs w) as (subs & w1 & -> & Hw1 & HR & Hcov); [left|done|]. rsimpl.
  destruct (IH) with w1 as (rest & w2 & -> & Hw2 & HR2 & Hcov2); [|done|].
  { intros cs' w' Hin. apply Hnext. by right. }
  rsimpl. eexists _, _. split; [done|]. split; [done|]. split.
  - intros cs' [Hin|Hin]%elem_of_app.
    + exists cs. rewrite Forall_forall in HR. split; [left|auto].
    + destruct (HR2 cs' Hin) as (c & ? & ?). exists c. split; [by right|done].
  - intros c [->|Hin]%elem_of_cons Hu σ Hσ Hag.
    + destruct (Hcov Hu σ Hσ Hag) as (c' & ? & ?). exists c'. set_solver.
    + destruct (Hcov2 c Hin Hu σ Hσ Hag) as (c' & ? & ?). exists c'. set_solver.
Qed.

(** ** One context: [k] with its configuration, asked while [A] is active *)

Section OneContext.
Context (n : N) (k root : ContextID) (conf : Conf MT) (A : gset ContextID).
Context (client : Neighbor -> ContextID -> CS -> gset ContextID -> res (list CS * gset ContextID)).
Context (Hk : pool !! k = Some conf) (Hwf : wf_conf pool n k conf) (HkA : k ∉ A).

Abbreviation A' := (A ∪ {[k]}).

Context (Hcl : serves pool free A' client).

(** The state of the context; the searching contexts are the active ones. *)
Definition running (w : State * gset ContextID) : Prop :=
  w.2 = A' /\ (free -> stop w.1 = false).

(** A context to invoke: bound by this one and nobody else. *)
Definition fresh_target cs (c : ContextID) : Prop :=
  c <> root /\
  (exists e, e ∈ cs_elements cs /\ owner (ctx_term e) = k /\ tarCtx e = c) /\
  forall e, e ∈ cs_elements cs -> tarCtx e = c -> owner (ctx_term e) = k.

(** It is not active, so that it can answer. *)
Lemma fresh_target_inactive cs c :
  chain root A cs -> called root A cs k -> fresh_target cs c -> c ∉ A'.
Proof.
  intros Hch Hca (Hr & _ & Honly) [Hin|Hin%elem_of_singleton]%elem_of_union.
  - destruct (Hch c Hin) as [?|(e & He & Ht & Ho & _)]; [done|].
    by rewrite (Honly e He Ht) in Ho.
  - subst c. destruct Hca as [?|(e & He & Ht & Ho)]; [done|].
    by rewrite (Honly e He Ht) in Ho.
Qed.

Lemma matched_target cs e :
  good pool cs -> e ∈ cs_elements cs -> owner (ctx_term e) = k ->
  tarCtx e ∈ dom pool /\
  (N.to_nat (tarCtx e) < length (sba_count conf))%nat /\
  exists nb, List.find (compareNeighbors (tarCtx e)) (context_info conf) = Some nb /\
    neighbor_id nb = tarCtx e.
Proof.
  intros (_ & _ & Hg) He Ho. destruct (Hg e He) as (conf' & Hp & (m & Hm & _ & _ & Ht & _)).
  rewrite Ho, Hk in Hp. injection Hp as <-.
  destruct (wf_targets _ _ _ _ Hwf m Hm) as [Hd (nb & Hf)]. rewrite Ht in Hd, Hf.
  split; [by apply elem_of_dom|]. split; [rewrite <- Ht; by apply (wf_counts _ _ _ _ Hwf)|].
  exists nb. split; [done|]. apply List.find_some in Hf as [_ Hf]. by apply compareNeighbors_id.
Qed.

(** ** Invoking neighbors *)

(** What invoking [ids] makes of [cs]. *)
Definition invoked (ids : list ContextID) cs cs' : Prop :=
  good pool cs' /\ extends cs cs' /\ Forall (fun c => configured pool c cs') ids /\
  closed_over pool root cs cs'.

Lemma invoked_trans c ids cs cs1 cs' :
  answers pool root c cs cs1 -> invoked ids cs1 cs' -> invoked (c :: ids) cs cs'.
Proof.
  intros (_ & He1 & Hc1 & Hcl1) (Hg & He & Hids & Hcl2). split_and!; [done|by trans cs1| |].
  - constructor; [by apply (configured_mono c cs1)|done].
  - intros e Hin. destruct (Hcl2 e Hin) as [?|[(e0 & He0 & Ht)|?]]; [by left| |by right; right].
    destruct (Hcl1 e0 He0) as [?|[(e1 & ? & ?)|Hcf]].
    + left. congruence.
    + right; left. exists e1. split; [done|congruence].
    + right; right. rewrite <- Ht. by apply (configured_mono _ cs1).
Qed.

Lemma count_answer_running cs w :
  running w -> exists w', count_answer conf cs w = Ok ([cs], w') /\ running w'.
Proof.
  intros [Hi Hs]. destruct w as [st x]. eexists. split; [reflexivity|]. split; [done|].
  intros Hu. cbn. destruct (Hfree Hu k conf Hk) as [-> _]. by apply Hs.
Qed.

Lemma covers_one cs : covers pool free cs [cs].
Proof. intros _ σ _ Hag. exists cs. split; [left|done]. Qed.

Lemma invoke_neighbors_spec ids cs w :
  good pool cs -> chain root A cs -> called root A cs k ->
  Forall (fun c => (c ∉ A') /\ exists e, e ∈ cs_elements cs /\ owner (ctx_term e) = k /\ tarCtx e = c) ids ->
  running w ->
  exists subs w', invoke_neighbors conf client root ids cs w = Ok (subs, w') /\ running w' /\
    Forall (invoked ids cs) subs /\ covers pool free cs subs.
Proof.
  revert cs w. induction ids as [|c ids IH]; intros cs w Hg Hch Hca Hids Hw.
  { cbn [invoke_neighbors]. destruct (count_answer_running cs w Hw) as (w' & -> & Hw').
    eexists _, _. split; [done|]. split; [done|]. split; [|apply covers_one].
    constructor; [|done]. split_and!; [done|done|done|]. intros e He. right; left. eauto. }
  inversion Hids as [|?? [Hc1 (e & He & Ho & Ht)] Hids']; subst.
  destruct (matched_target cs e Hg He Ho) as (Hd & _ & nb & Hf & Hnb).
  cbn [invoke_neighbors]. rewrite Hf. destruct Hw as [Hi Hs].
  rewrite Hi. destruct (Hcl nb root cs) as (queue & -> & Hans & Hcov).
  { by rewrite Hnb. } { by rewrite Hnb. } { done. }
  { by apply chain_join. }
  { right. exists e. rewrite Hnb, Ho. split_and!; [done|done|set_solver]. }
  rsimpl. rewrite Hnb in Hans.
  destruct (drain_spec running (invoked ids) (invoke_neighbors conf client root ids) queue (w.1, A'))
    as (subs & w' & -> & Hw' & HR & Hcov').
  - intros w0 [_ Hs0]. exact Hs0.
  - intros cs1 w0 Hin Hw0. rewrite Forall_forall in Hans.
    destruct (Hans cs1 Hin) as (Hg1 & He1 & _ & _). apply IH; [done| | | |done].
    + by apply (chain_mono _ _ cs).
    + destruct Hca as [?|(e' & ? & ?)]; [by left|right]. exists e'. auto.
    + eapply Forall_impl; [exact Hids'|]. intros c [? (e' & ? & ?)]. split; [done|]. exists e'. auto.
  - by split.
  - eexists _, _. split; [done|]. split; [done|]. split.
    + apply Forall_forall. intros cs' Hin. destruct (HR cs' Hin) as (cs1 & Hin1 & Hinv).
      rewrite Forall_forall in Hans. eapply invoked_trans; eauto.
    + intros Hu σ Hσ Hag. destruct (Hcov Hu σ Hσ Hag) as (cs1 & Hin1 & Hag1).
      by apply (Hcov' cs1 Hin1 Hu σ).
Qed.

(** ** The contexts to invoke *)

(** The candidates among the entries [l] of [cs]. *)
Definition new_among cs (l : list ContextMatch) (c : ContextID) : Prop :=
  c <> root /\ (exists e, e ∈ l /\ owner (ctx_term e) = k /\ tarCtx e = c) /\
  forall e, e ∈ cs_elements cs -> tarCtx e = c -> owner (ctx_term e) = k.

(** The candidate the entry [it] adds. *)
Definition added cs it (c : ContextID) : Prop :=
  c = tarCtx it /\ owner (ctx_term it) = k /\ c <> root /\
  forall e, e ∈ cs_elements cs -> tarCtx e = c -> owner (ctx_term e) = k.

Lemma new_among_snoc cs l it c :
  new_among cs (l ++ [it]) c <-> new_among cs l c \/ added cs it c.
Proof.
  split.
  - intros (Hr & (e & [He|He%list_elem_of_singleton]%elem_of_app & Ho & Ht) & Hall).
    + left. split_and!; [done|by exists e|done].
    + right. subst e. by split_and!.
  - intros [(Hr & (e & He & Ho & Ht) & Hall)|(-> & Ho & Hr & Hall)]; split_and!; try done.
    + exists e. split_and!; [by apply elem_of_app; left|done|done].
    + exists it. split_and!; [apply elem_of_app; right; left|done|done].
Qed.

Lemma new_context_step_spec cs l it acc :
  all_vars cs -> it ∈ cs_elements cs ->
  (forall c, c ∈ acc <-> new_among cs l c) ->
  exists acc', new_context_step conf root cs acc it = Ok acc' /\
    forall c, c ∈ acc' <-> new_among cs (l ++ [it]) c.
Proof.
  intros Hv Hit Hacc. unfold new_context_step. setoid_rewrite new_among_snoc.
  assert (Hsame : (forall c, added cs it c -> new_among cs l c) ->
    exists acc', Ok acc = Ok acc' /\ forall c, c ∈ acc' <-> new_among cs l c \/ added cs it c).
  { intros Hadd. exists acc. split; [done|]. intros c. rewrite Hacc. split; [by left|].
    intros [?|?]; [done|auto]. }
  destruct (N.eqb_spec (tarCtx it) root) as [Hr|Hr].
  { apply Hsame. by intros c (-> & _ & ? & _). }
  rewrite ctxID_owner by (by apply Hv). rsimpl. rewrite (wf_id _ _ _ _ Hwf).
  destruct (N.eqb_spec (owner (ctx_term it)) k) as [Ho|Ho]; cbn [negb].
  2: { apply Hsame. by intros c (-> & ? & _). }
  destruct (existsb (N.eqb (tarCtx it)) acc) eqn:E.
  { apply existsb_exists in E as (c' & Hc' & <-%N.eqb_eq).
    apply list_elem_of_In, Hacc in Hc'. apply Hsame. by intros c (-> & _). }
  destruct (already_chosen_by_other_spec cs k (tarCtx it) Hv) as (b & -> & Hb). rsimpl.
  destruct b; cbn [negb].
  - destruct (proj1 Hb eq_refl) as (e & He & Ht & Hne). apply Hsame.
    intros c (-> & _ & _ & Hall). by destruct Hne; apply Hall.
  - eexists. split; [done|]. intros c. rewrite elem_of_app, list_elem_of_singleton, Hacc.
    split; [|intros [?|[-> _]]; [by left|by right]].
    intros [?| ->]; [by left|right]. split_and!; try done. intros e He Ht.
    destruct (decide (owner (ctx_term e) = k)) as [|Hne]; [done|].
    assert (false = true) by (apply Hb; eauto). done.
Qed.

Lemma compute_new_contexts_spec cs :
  all_vars cs ->
  exists ids, compute_new_contexts conf root cs = Ok ids /\
    forall c, c ∈ ids <-> fresh_target cs c.
Proof.
  intros Hv. unfold compute_new_contexts.
  enough (Hg : forall rest l acc, cs_elements cs = l ++ rest ->
    (forall c, c ∈ acc <-> new_among cs l c) ->
    exists ids, foldM (new_context_step conf root cs) acc rest = Ok ids /\
      forall c, c ∈ ids <-> fresh_target cs c).
  { apply (Hg _ []); [done|]. intros c. split; [by intros ?%not_elem_of_nil|].
    by intros (_ & (e & ?%not_elem_of_nil & _) & _). }
  induction rest as [|it rest IH]; intros l acc Hl Hacc.
  - exists acc. split; [done|]. intros c. rewrite Hacc. unfold new_among, fresh_target.
    by rewrite Hl, app_nil_r.
  - destruct (new_context_step_spec cs l it acc) as (acc' & E & Hacc'); [done| |done|].
    { rewrite Hl. apply elem_of_app. right; left. }
    cbn [foldM]. rewrite E. rsimpl. apply (IH (l ++ [it])); [|done]. by rewrite <- app_assoc.
Qed.

Lemma sort_new_contexts_ok cs ids :
  good pool cs -> (forall c, c ∈ ids -> fresh_target cs c) ->
  exists ids', sort_new_contexts conf ids = Ok ids' /\ ids' ≡ₚ ids.
Proof.
  intros Hg Hids. unfold sort_new_contexts. case_match; [|by eexists].
  apply sort_ok. intros c Hc. destruct (Hids c Hc) as (_ & (e & He & Ho & <-) & _).
  destruct (matched_target cs e Hg He Ho) as (_ & Hlt & _).
  unfold NoSBANeighbor_quality. by destruct (vec_at_lt _ _ Hlt) as (v & -> & _).
Qed.

(** ** All rules *)

(** [cs] is [cs0] with bindings of this context added. *)
Definition grown cs0 cs : Prop :=
  good pool cs /\ extends cs0 cs /\
  forall e, e ∈ cs_elements cs -> e ∈ cs_elements cs0 \/ owner (ctx_term e) = k.

Lemma grown_closed cs0 cs cs' ids :
  grown cs0 cs -> (forall c, fresh_target cs c -> c ∈ ids) -> invoked ids cs cs' ->
  closed_over pool root cs0 cs'.
Proof.
  intros (Hg & He0 & Hown) Hids (_ & He & Hcf & Hcl') e Hin.
  destruct (Hcl' e Hin) as [?|[(e1 & He1 & Ht)|?]]; [by left| |by right; right].
  destruct (decide (tarCtx e = root)) as [|Hr]; [by left|right].
  destruct (decide (tarCtx e ∈ ids)) as [Hi|Hi].
  { right. rewrite Forall_forall in Hcf. by apply Hcf. }
  left. destruct (Hown e1 He1) as [?|Ho]; [by exists e1|].
  (* not fresh: another context chose it, in [cs0] *)
  destruct (decide (Exists (fun e2 => tarCtx e2 = tarCtx e /\ owner (ctx_term e2) <> k) (cs_elements cs)))
    as [Hex|Hnex].
  - apply Exists_exists in Hex as (e2 & He2 & Ht2 & Hne). destruct (Hown e2 He2) as [?|?]; [by exists e2|done].
  - exfalso. apply Hi, Hids. split_and!; [done|by exists e1|]. intros e2 He2 Ht2.
    destruct (decide (owner (ctx_term e2) = k)) as [|Hne]; [done|].
    exfalso. apply Hnex, Exists_exists. by exists e2.
Qed.

Lemma lconfig_leaf_spec cs0 cs w :
  grown cs0 cs -> chain root A cs -> called root A cs k -> running w ->
  exists subs w', lconfig_leaf conf client root cs w = Ok (subs, w') /\ running w' /\
    Forall (fun cs' => good pool cs' /\ extends cs cs' /\ closed_over pool root cs0 cs') subs /\
    covers pool free cs subs.
Proof.
  intros Hgr Hch Hca Hw. pose proof Hgr as (Hg & He & _). unfold lconfig_leaf.
  destruct (compute_new_contexts_spec cs) as (ids & -> & Hids); [apply Hg|]. rsimpl.
  destruct ids as [|c0 ids0] eqn:Eids.
  { eexists _, _. split; [done|]. split; [done|]. split; [|apply covers_one].
    constructor; [|done]. split_and!; [done|done|].
    apply (grown_closed cs0 cs cs []); [done|intros c Hc; by apply Hids|].
    split_and!; [done|done|done|]. intros e Hin. right; left. eauto. }
  rewrite <- Eids in *. clear Eids c0 ids0.
  destruct (sort_new_contexts_ok cs ids) as (order & -> & Hp); [done|apply Hids|]. rsimpl.
  destruct (invoke_neighbors_spec order cs w) as (subs & w' & -> & Hw' & Hinv & Hcov); [done..| |done|].
  { apply Forall_forall. intros c. rewrite Hp. intros Hc%Hids.
    split; [by apply (fresh_target_inactive cs)|]. apply Hc. }
  eexists _, _. split; [done|]. split; [done|]. split; [|done].
  eapply Forall_impl; [exact Hinv|]. intros cs' Hi. split_and!; [apply Hi|apply Hi|].
  apply (grown_closed cs0 cs cs' order); [done| |done]. intros c Hc. rewrite Hp. by apply Hids.
Qed.

(** What the rules make of [cs], started from [cs0]. *)
Definition rules_bound (rules : list BridgeRule) cs0 cs cs' : Prop :=
  good pool cs' /\ extends cs cs' /\ closed_over pool root cs0 cs' /\
  Forall (fun r => Forall (bound (mt conf) cs') (rule_atoms r)) rules.

(** [lconfig] sets the counter and the flag before it binds a rule. *)
Lemma bind_rule_found r cs w :
  r ∈ bridge_rules conf -> good pool cs -> running w ->
  exists subs st, bind_rule conf (getPositiveBody r) (getNegativeBody r) cs
      (mk_state (no_answers w.1) 0 (stop w.1) false) = Ok (subs, st) /\
    running (st, w.2) /\ Forall (binds conf (rule_atoms r) cs) subs /\
    (free -> forall σ, admitted pool σ -> agrees σ cs -> exists cs', cs' ∈ subs /\ agrees σ cs').
Proof.
  intros Hr Hg [Hi Hs].
  destruct (bind_rule_searches conf (getPositiveBody r) (getNegativeBody r)
    (wf_counts _ _ _ _ Hwf) (wf_limit _ _ _ _ Hwf)) with (s := cs) (st := mk_state (no_answers w.1) 0 (stop w.1) false)
    as (subs & st & E & Hb & ((Hle & Hiff) & Hn & _ & Hst) & Hcm & Hlen).
  { rewrite (wf_id _ _ _ _ Hwf). by apply (wf_rules _ _ _ _ Hwf). }
  { by apply (good_ok_sub k); [|apply (wf_id _ _ _ _ Hwf)|]. }
  { unfold counting, bind_limit; cbn. split; [lia|]. split; intros; [done|lia]. }
  { done. }
  exists subs, st. split; [done|]. split; [split; [done|]; intros Hu; cbn in Hst |- *; rewrite Hst; auto|].
  split; [done|]. intros Hu σ Hσ Hag. destruct (Hfree Hu k conf Hk) as [_ Hlim]. specialize (Hlim r Hr).
  apply Hcm; [|done|by apply (Hσ k)]. apply not_true_iff_false. rewrite Hiff, Hn. cbn [no_bind_rules].
  unfold bind_limit. change (getPositiveBody r ++ getNegativeBody r) with (rule_atoms r) in Hlen. lia.
Qed.

Lemma lconfig_rules_spec rules cs0 cs w :
  rules ⊆ bridge_rules conf -> grown cs0 cs -> chain root A cs -> called root A cs k -> running w ->
  exists subs w', lconfig_rules conf client root rules cs w = Ok (subs, w') /\ running w' /\
    Forall (rules_bound rules cs0 cs) subs /\ covers pool free cs subs.
Proof.
  revert cs w. induction rules as [|r rules IH]; intros cs w Hsub Hgr Hch Hca Hw.
  { destruct (lconfig_leaf_spec cs0 cs w Hgr Hch Hca Hw) as (subs & w' & E & Hw' & Hall & Hcov).
    exists subs, w'. split; [done|]. split; [done|]. split; [|done].
    eapply Forall_impl; [exact Hall|]. intros cs' (? & ? & ?). by split_and!. }
  pose proof Hgr as (Hg & He0 & Hown). cbn [lconfig_rules].
  destruct (bind_rule_found r cs w) as (queue & st & -> & Hw1 & Hb & Hcm); [apply Hsub; left|done|done|].
  rsimpl. rewrite Forall_forall in Hb.
  assert (Hgrown : forall cs1, cs1 ∈ queue -> grown cs0 cs1 /\ extends cs cs1).
  { intros cs1 Hin. destruct (Hb cs1 Hin) as (Hok1 & He1 & Hn1 & Hb1). split; [|done].
    split_and!; [|by trans cs|].
    - apply (good_binds k conf (rule_atoms r) cs); [done|apply (wf_id _ _ _ _ Hwf)|done|by apply Hb].
    - intros e Hin1. destruct (Hn1 e Hin1) as [?|Ho]; [auto|right].
      by rewrite (wf_id _ _ _ _ Hwf) in Ho. }
  destruct (drain_spec running (rules_bound rules cs0) (lconfig_rules conf client root rules) queue (st, w.2))
    as (subs & w' & -> & Hw' & HR & Hcov); [by intros ? []| |done|].
  { intros cs1 w0 Hin Hw0. destruct (Hgrown cs1 Hin) as [Hgr1 He1]. apply IH; [|done| | |done].
    - intros x Hx. apply Hsub. by right.
    - by apply (chain_mono _ _ cs).
    - destruct Hca as [?|(e' & ? & ?)]; [by left|right]. exists e'. auto. }
  eexists _, _. split; [done|]. split; [done|]. split.
  - apply Forall_forall. intros cs' Hin. destruct (HR cs' Hin) as (cs1 & Hin1 & Hg' & He' & Hcl' & Hr').
    destruct (Hb cs1 Hin1) as (_ & He1 & _ & Hb1). split_and!; [done|by trans cs1|done|].
    constructor; [|done]. eapply Forall_impl; [exact Hb1|]. intros a. by apply bound_mono.
  - intros Hu σ Hσ Hag. destruct (Hcm Hu σ Hσ Hag) as (cs1 & Hin1 & Hag1).
    by apply (Hcov cs1 Hin1 Hu σ).
Qed.

Lemma lconfig_spec cs w :
  n < W64 -> (forall k conf, pool !! k = Some conf -> wf_conf pool n k conf) ->
  good pool cs -> chain root A cs -> called root A cs k -> running w ->
  exists subs w', lconfig G conf client root cs w = Ok (subs, w') /\ running w' /\
    Forall (answers pool root k cs) subs /\ covers pool free cs subs.
Proof.
  intros Hn Hall Hg Hch Hca Hw.
  destruct (lconfig_rules_spec (bridge_rules conf) cs cs w) as (subs & w' & E & Hw' & Hsubs & Hcov);
    [done|by split_and!; [| |left]|done..|].
  exists subs, w'. split.
  - unfold lconfig. rewrite E. rsimpl. case_match; [|done].
    destruct (wf_table _ _ _ _ Hwf) as [Ht1 Ht2]. pose proof (wf_info _ _ _ _ Hwf) as Hi.
    destruct (compute_topologies_ok (G := G) conf subs) as [r ->]; [by rewrite Hi|done|by rewrite Hi| |done].
    rewrite Hi. eapply Forall_impl; [exact Hsubs|]. intros cs' (Hg' & _).
    apply Forall_forall. intros e He. by apply (good_in_pool n cs').
  - split; [done|]. split; [|done].
    eapply Forall_impl; [exact Hsubs|]. intros cs' (Hg' & He & Hcl' & Hr). split_and!; [done|done| |done].
    intros conf' Hk' r Hin. rewrite Hk in Hk'. injection Hk' as <-. rewrite Forall_forall in Hr. auto.
Qed.

End OneContext.

(** ** The network of contexts *)

(** Nested requests never reach an active context and end: the fuel is the
    number of contexts that are not active. *)
Lemma request_serves n fuel A :
  wf_pool pool n -> (size (dom pool ∖ A) <= fuel)%nat -> serves pool free A (request G pool fuel).
Proof.
  intros Hwf. revert A. induction fuel as [|fuel IH]; intros A Hf nb root cs Hd HA Hg Hch Hca.
  { exfalso. assert (neighbor_id nb ∈ dom pool ∖ A) by set_solver.
    assert (dom pool ∖ A ≡ ∅) by (apply size_empty_inv; lia). set_solver. }
  cbn [request]. apply elem_of_dom in Hd as [conf Hp]. rewrite Hp, decide_False by done.
  destruct (lconfig_spec n (neighbor_id nb) root conf A (request G pool fuel)) with cs (initial_state, A ∪ {[neighbor_id nb]})
    as (subs & [st' w'] & -> & [Hi' _] & Hans & Hcov); try done; [by apply Hwf|apply IH|apply Hwf|apply Hwf|..].
  - assert (neighbor_id nb ∈ dom pool ∖ A) as Hin by (apply elem_of_dom_2 in Hp; set_solver).
    replace (dom pool ∖ (A ∪ {[neighbor_id nb]})) with ((dom pool ∖ A) ∖ {[neighbor_id nb]}) by set_solver.
    rewrite size_difference, size_singleton by set_solver. lia.
  - rsimpl. cbn [snd] in Hi'. subst w'. exists subs. split; [|done]. do 2 f_equal. set_solver.
Qed.

(** A configuration for the root: well-formed, and the root and every context
    bound by it have all their bridge atoms bound. *)
Definition configuration (root : ContextID) cs : Prop :=
  good pool cs /\ configured pool root cs /\
  forall e, e ∈ cs_elements cs -> configured pool (tarCtx e) cs.

Lemma request_root_spec n fuel nb :
  wf_pool pool n -> neighbor_id nb ∈ dom pool -> (size pool <= fuel)%nat ->
  exists subs, request G pool fuel nb (neighbor_id nb) (idx_empty : CS) ∅ = Ok (subs, ∅) /\
    Forall (configuration (neighbor_id nb)) subs /\ covers pool free (idx_empty : CS) subs.
Proof.
  intros Hwf Hd Hf.
  assert (He : cs_elements (idx_empty : CS) = []) by apply idx_empty_elements.
  assert (HA : dom pool ∖ ∅ = dom pool) by set_solver.
  destruct (request_serves n fuel ∅ Hwf) with nb (neighbor_id nb) (idx_empty : CS) as (subs & E & Hans & Hcov).
  - rewrite HA. by rewrite size_dom.
  - done.
  - set_solver.
  - split_and!; [intros e Hin|intros e e' Hin|intros e Hin]; rewrite He in Hin;
      by apply not_elem_of_nil in Hin.
  - intros a Ha. set_solver.
  - by left.
  - exists subs. split; [done|]. split; [|done].
    eapply Forall_impl; [exact Hans|]. intros cs (Hg & _ & Hc & Hcl). split_and!; [done|done|].
    intros e Hin. destruct (Hcl e Hin) as [->|[(e0 & Hin0 & _)|?]]; [done| |done].
    rewrite He in Hin0. by apply not_elem_of_nil in Hin0.
Qed.

End PoolProofs.

Section PoolTheorems.
Context {MT CS G : Type} `{MatchTableLaws MT} `{ContextSubstitutionLaws CS} `{AdjacencyListLaws G}.
Context `{NeighborCompareLaws}.
Context (pool : gmap ContextID (Conf MT)).

(** C6. A request to the root of a well-formed pool always ends, whatever the
    limits and heuristics: no context is asked while it is still searching, the
    depth of nested requests is at most the number of contexts, no assertion
    fails, and no context is left searching.  Every substitution returned is a
    configuration: each entry is a match of the table of its context, each
    variable has one value, and the root and every context that is bound have
    all their bridge atoms bound.  Well-formed means that the schematic bridge
    atoms of every context are variables of that context or constant contexts
    with constant beliefs, never a schematic belief of a constant context,
    that the match tables only name contexts of the pool, with their
    neighbors' addresses and counts known, and that sizes and limits fit into
    64 bits. *)
Theorem pool_configures n fuel nb :
  wf_pool pool n -> neighbor_id nb ∈ dom pool -> (size pool <= fuel)%nat ->
  exists subs, request G pool fuel nb (neighbor_id nb) (idx_empty : CS) ∅ = Ok (subs, ∅) /\
    Forall (configuration pool (neighbor_id nb)) subs.
Proof.
  intros Hwf Hd Hf. destruct (request_root_spec pool False (False_ind _) n fuel nb) as (subs & ? & ? & _); eauto.
Qed.

(** C7. Without limits the search is complete: for every assignment of contexts
    to variables that the match tables admit for all bridge atoms of all
    contexts, the root's answer has a configuration that agrees with it. *)
Theorem pool_complete n fuel nb σ :
  wf_pool pool n -> neighbor_id nb ∈ dom pool -> (size pool <= fuel)%nat ->
  unlimited pool -> admitted pool σ ->
  exists subs cs, request G pool fuel nb (neighbor_id nb) (idx_empty : CS) ∅ = Ok (subs, ∅) /\
    cs ∈ subs /\ configuration pool (neighbor_id nb) cs /\ agrees σ cs.
Proof.
  intros Hwf Hd Hf Hu Hσ.
  destruct (request_root_spec pool True (fun _ => Hu) n fuel nb) as (subs & E & Hall & Hcov); [done..|].
  destruct (Hcov I σ Hσ) as (cs & Hin & Hag).
  { intros e He. unfold cs_elements in He. rewrite idx_empty_elements in He.
    by apply not_elem_of_nil in He. }
  exists subs, cs. rewrite Forall_forall in Hall. split_and!; auto.
Qed.

End PoolTheorems.


(** ** Pools of two and three contexts *)

Module Examples.
Import SpecFloat.
Import (hints) DynamicConfiguration.Example.

Definition p : N := constructSchematicBelief IS_EXACT_SCHEMATIC_BELIEF 5.
Definition one : spec_float := float_of_size 1.
Definition nbs : list Neighbor := [mk_neighbor 1 "a" "1"; mk_neighbor 2 "b" "2"; mk_neighbor 3 "c" "3"].

(** Context 1 imports a belief from an unknown context [X]; contexts 2 and 3
    have a match for it, context 2 imports from context 1. *)
Definition X : N := ctxVarTerm 1 1.
Definition Y : N := ctxVarTerm 2 1.
Definition table : list Match :=
  [mk_match 1 5 2 7 one; mk_match 1 5 3 8 one; mk_match 2 5 1 9 one].

Definition conf (la lb h k : N) (rules : list BridgeRule) : Conf (list Match) :=
  mk_conf (list Match) k rules nbs table [0; 1; 1; 0] la lb h.

Definition rule_of (t : N) : BridgeRule := mk_bridge_rule [1] ([(t, p)], [(t, p)]).

Definition pool (la lb h : N) : gmap N (Conf (list Match)) :=
  {[1 := conf la lb h 1 [rule_of X]; 2 := conf la lb h 2 [rule_of Y]; 3 := conf la lb h 3 []]}.

Definition first_request (la lb h : N) : res (list (list ContextMatch) * gset N) :=
  request (N * list (N * N)) (pool la lb h) 3 (mk_neighbor 1 "a" "1") 1 [] ∅.

(** The bindings of the results. *)
Definition bindings (r : res (list (list ContextMatch) * gset N)) : res (list (list (N * N))) :=
  match r with
  | Ok (subs, _) => Ok (map (map (fun e => (ctx_term e, tarCtx e))) subs)
  | Err f => Err f
  end.

(** The two configurations: [X] is context 3, or context 2 with [Y] the root. *)
Lemma first_request_value :
  bindings (first_request 0 50 NO_SBA_CTX_SORTING_STRATEGY) = Ok [[(X, 3)]; [(X, 2); (Y, 1)]].
Proof. vm_compute. reflexivity. Qed.

Lemma pool_cases la lb h k c :
  pool la lb h !! k = Some c ->
  k = 1 /\ c = conf la lb h 1 [rule_of X] \/ k = 2 /\ c = conf la lb h 2 [rule_of Y] \/
  k = 3 /\ c = conf la lb h 3 [].
Proof.
  unfold pool. intros Hc. repeat (apply lookup_insert_Some in Hc as [[<- <-]|[_ Hc]]; [auto|]).
  apply lookup_singleton_Some in Hc as [<- <-]. auto.
Qed.

Lemma table_cases m :
  m ∈ table -> m = mk_match 1 5 2 7 one \/ m = mk_match 1 5 3 8 one \/ m = mk_match 2 5 1 9 one.
Proof. unfold table. rewrite !elem_of_cons, elem_of_nil. tauto. Qed.

Lemma pool_wf la lb h : lb < W64 -> wf_pool (pool la lb h) 3.
Proof.
  intros Hlb. split; [done|]. intros k c Hc.
  assert (Hid : ctx_id c = k /\ mt c = table /\ sba_count c = [0; 1; 1; 0] /\
                context_info c = nbs /\ limit_bind_rules c = lb).
  { by destruct (pool_cases _ _ _ _ _ Hc) as [[-> ->]|[[-> ->]|[-> ->]]]. }
  destruct Hid as (Hk & Ht & Hs & Hn & Hl). split.
  - done.
  - destruct (pool_cases _ _ _ _ _ Hc) as [[-> _]|[[-> _]|[-> _]]]; lia.
  - by rewrite Hn.
  - rewrite Ht. split; [done|]. repeat constructor; by vm_compute.
  - intros m Hm. rewrite Hs. rewrite Ht in Hm.
    destruct (table_cases m Hm) as [->|[->| ->]]; cbn; lia.
  - by rewrite Hl.
  - intros r Hr. destruct (pool_cases _ _ _ _ _ Hc) as [[-> ->]|[[-> ->]|[-> ->]]]; cbn in Hr.
    3: by apply not_elem_of_nil in Hr.
    all: apply list_elem_of_singleton in Hr; subst r; repeat constructor; left; by vm_compute.
  - intros m Hm. rewrite Hn. rewrite Ht in Hm.
    destruct (table_cases m Hm) as [->|[->| ->]]; (split; by eexists).
Qed.

Lemma pool_unlimited h : unlimited (pool 0 50 h).
Proof.
  intros k c Hc. destruct (pool_cases _ _ _ _ _ Hc) as [[-> ->]|[[-> ->]|[-> ->]]]; (split; [done|]);
    intros r Hr; cbn in Hr; [..|by apply not_elem_of_nil in Hr];
    apply list_elem_of_singleton in Hr; subst r; by vm_compute.
Qed.

Definition NO_HEURISTIC : N := 0.

(** [X] is context 2 and [Y] context 1. *)
Definition choice (t : N) : N := if t =? X then 2 else 1.

Lemma choice_admitted la lb h : admitted (pool la lb h) choice.
Proof.
  intros k c r Hc Hr. destruct (pool_cases _ _ _ _ _ Hc) as [[-> ->]|[[-> ->]|[-> ->]]]; cbn in Hr.
  3: by apply not_elem_of_nil in Hr.
  - apply list_elem_of_singleton in Hr; subst r. apply Forall_forall. intros a Ha _.
    replace a with (X, p) by (cbn in Ha; set_solver).
    exists (mk_match 1 5 2 7 one). split; [left|by vm_compute].
  - apply list_elem_of_singleton in Hr; subst r. apply Forall_forall. intros a Ha _.
    replace a with (Y, p) by (cbn in Ha; set_solver).
    exists (mk_match 2 5 1 9 one). split; [do 2 right; left|by vm_compute].
Qed.

End Examples.
Import (hints) DynamicConfiguration.Example.

Lemma pool_configures_witness :
  exists subs, Examples.first_request 1 0 Examples.NO_HEURISTIC = Ok (subs, ∅) /\
    Forall (configuration (Examples.pool 1 0 Examples.NO_HEURISTIC) 1) subs.
Proof.
  destruct (pool_configures (CS := list ContextMatch) (G := N * list (N * N)) (Examples.pool 1 0 Examples.NO_HEURISTIC) 3 3
    (mk_neighbor 1 "a" "1")) as (subs & E & Hall).
  - by apply Examples.pool_wf.
  - by apply elem_of_dom.
  - by vm_compute.
  - exists subs. split; [exact E|exact Hall].
Defined.

Lemma pool_complete_witness :
  exists subs cs, Examples.first_request 0 50 QUALITY_CTX_SORTING_STRATEGY = Ok (subs, ∅) /\
    cs ∈ subs /\ configuration (Examples.pool 0 50 QUALITY_CTX_SORTING_STRATEGY) 1 cs /\ agrees Examples.choice cs.
Proof.
  destruct (pool_complete (CS := list ContextMatch) (G := N * list (N * N)) (Examples.pool 0 50 QUALITY_CTX_SORTING_STRATEGY) 3 3
    (mk_neighbor 1 "a" "1") Examples.choice) as (subs & cs & E & Hin & Hcf & Hag).
  - by apply Examples.pool_wf.
  - by apply elem_of_dom.
  - by vm_compute.
  - apply Examples.pool_unlimited.
  - apply Examples.choice_admitted.
  - exists subs, cs. split; [exact E|]. split; [exact Hin|]. split; [exact Hcf|exact Hag].
Defined.

End DynamicPool.
