(* ===== verification/Topologies.v ===== *)
(** * The topologies of generated multi-context systems

    The benchmark generator lays out the contexts as chains of diamonds, rings,
    trees or houses before it fills them with rules.  This file models the
    command-line checks of [read_input], [setup_topos] and
    [generate_orig_topology] of src/generator/new_staticGen.cpp, and the
    generators under include/generator/.  [rand ()] is a list of draws: a loop
    that draws until it is satisfied recurses on that list. *)

From S2P Require Import Prelude.
From stdpp Require Import relations.

#[local] Open Scope N_scope.
#[local] Ltac Zify.zify_post_hook ::= Z.to_euclidean_division_equations.

Module Topologies.

(** ** The state of a generator

    [topo] is [NeighborVec2], the neighbors of every context, counted from 0;
    the generators count contexts from 1. *)
Record gen_state := mk_gen {
  topo : list (list N);
  draws : list N
}.

(** [rand ()] *)
Definition rand (st : gen_state) : res (N * gen_state) :=
  match draws st with
  | [] => Err OutOfFuel
  | r :: ds => mret (r, mk_gen (topo st) ds)
  end.

(** [TopologyGenerator::genNeighbor] *)
Definition genNeighbor (st : gen_state) (from to : N) : res gen_state :=
  let i := u64_sub from 1 in
  row ← vec_at (topo st) i;
  mret (mk_gen (<[N.to_nat i := row ++ [u64_sub to 1]]> (topo st)) (draws st)).

Abbreviation generator := (N -> N -> gen_state -> res gen_state).

(** [TopologyGenerator::generate] *)
Definition generate (genNeighborList : generator) (st : gen_state) : res gen_state :=
  let system_size := N.of_nat (length (topo st)) in
  foldM (fun st i => genNeighborList system_size i st) st (nrange 1 (system_size + 1)).

(** ** The generators *)

Definition diamond : generator := fun system_size id st =>
  if id =? system_size then mret st
  else if id mod 3 =? 1 then
    st ← genNeighbor st id (u64_add id 1);
    genNeighbor st id (u64_add id 2)
  else if id mod 3 =? 0 then genNeighbor st id (u64_add id 1)
  else genNeighbor st id (u64_add id 2).

Definition genRandomEdge (st : gen_state) (from to : N) : res gen_state :=
  '(r, st) ← rand st;
  if negb (r mod 2 =? 0) then genNeighbor st from to else genNeighbor st to from.

Definition diamond_arbitrary : generator := fun system_size id st =>
  if id =? system_size then mret st
  else if id mod 3 =? 1 then
    st ← genRandomEdge st id (u64_add id 1);
    genRandomEdge st id (u64_add id 2)
  else if id mod 3 =? 0 then genRandomEdge st id (u64_add id 1)
  else genRandomEdge st id (u64_add id 2).

Definition diamond_zigzag : generator := fun system_size id st =>
  if id =? system_size then mret st
  else if (id mod 3 =? 1) || (id mod 3 =? 2) then
    st ← genNeighbor st id (u64_add id 1);
    genNeighbor st id (u64_add id 2)
  else genNeighbor st id (u64_add id 1).

Definition ring : generator := fun system_size id st =>
  if id =? system_size then genNeighbor st id 1
  else genNeighbor st id (u64_add id 1).

(** [do other = (rand() % system_size) + 1; while (other == next);] *)
Fixpoint pick_other (system_size next : N) (ds : list N) : res (N * list N) :=
  match ds with
  | [] => Err OutOfFuel
  | r :: ds =>
      let other := r mod system_size + 1 in
      if other =? next then pick_other system_size next ds else mret (other, ds)
  end.

Definition ring_edge : generator := fun system_size id st =>
  let next := if id =? system_size then 1 else u64_add id 1 in
  st ← genNeighbor st id next;
  '(r, st) ← rand st;
  if negb (r mod 2 =? 0) then
    '(other, ds) ← pick_other system_size next (draws st);
    genNeighbor (mk_gen (topo st) ds) id other
  else mret st.

Definition binary_tree : generator := fun system_size id st =>
  let child_id := u64_mul 2 id in
  if child_id <=? system_size then
    st ← genNeighbor st id child_id;
    let child_id := u64_add child_id 1 in
    if child_id <=? system_size then genNeighbor st id child_id else mret st
  else mret st.

(** The two children a context of a house leads to. *)
Definition house_children (system_size id child_id : N) (st : gen_state) : res gen_state :=
  if child_id <? system_size then
    st ← genNeighbor st id child_id;
    genNeighbor st id (u64_add child_id 1)
  else mret st.

Definition house : generator := fun system_size id st =>
  if id =? 1 then
    st ← genNeighbor st id (u64_add id 1);
    genNeighbor st id (u64_add id 2)
  else
    let remainder := u64_sub id 1 mod 4 in
    if (remainder =? 1) || (remainder =? 2) then genNeighbor st id (u64_add id 1)
    else if remainder =? 3 then
      st ← genNeighbor st id (u64_add id 1);
      house_children system_size id
        (u64_add (u64_add id (u64_mul (u64_sub (id / 4) 1) 4)) 2) st
    else
      st ← genNeighbor st id (u64_sub id 3);
      house_children system_size id
        (u64_add (u64_add id (u64_mul (u64_sub (id / 4) 1) 4)) 5) st.

Definition multiple_ring : generator := fun system_size id st =>
  let earLoopSize := u64_add system_size 3 / 3 in
  let secondLoopJump := u64_sub earLoopSize 1 in
  let firstLoopEnd := u64_sub (u64_add (u64_add 2 earLoopSize) earLoopSize) 3 in
  if id =? 2 then
    st ← genNeighbor st id (u64_add id 1);
    genNeighbor st id (u64_add id earLoopSize)
  else if id =? u64_add earLoopSize 1 then
    st ← genNeighbor st id 1;
    genNeighbor st id (u64_add id secondLoopJump)
  else if id =? system_size then genNeighbor st id earLoopSize
  else if id =? firstLoopEnd then genNeighbor st id 3
  else genNeighbor st id (u64_add id 1).

(** ** The program *)

Abbreviation RANDOM_TOPOLOGY := 0 (only parsing).
Abbreviation DIAMOND_DOWN_TOPOLOGY := 1 (only parsing).
Abbreviation DIAMOND_ARBITRARY_TOPOLOGY := 2 (only parsing).
Abbreviation DIAMOND_ZIGZAG_TOPOLOGY := 3 (only parsing).
Abbreviation PURE_RING_TOPOLOGY := 4 (only parsing).
Abbreviation RING_EDGE_TOPOLOGY := 5 (only parsing).
Abbreviation BINARY_TREE_TOPOLOGY := 6 (only parsing).
Abbreviation HOUSE_TOPOLOGY := 7 (only parsing).
Abbreviation MULTIPLE_RING_TOPOLOGY := 8 (only parsing).

(** The options that [read_input] stores in global variables. *)
Record options := mk_options {
  help : bool;
  no_contexts : N;
  no_atoms : N;
  no_interface_atoms : N;
  no_bridge_rules : N;
  topology_type : N;
  prefix : string;
  dmcspath : string;
  startup_time : N;
  local_kb_type : N
}.

(** The checks of [switch (topology_type)]. *)
Definition size_fits (topology_type no_contexts : N) : bool :=
  match topology_type with
  | DIAMOND_DOWN_TOPOLOGY
  | DIAMOND_ARBITRARY_TOPOLOGY
  | DIAMOND_ZIGZAG_TOPOLOGY => negb ((no_contexts =? 1) || negb (no_contexts mod 3 =? 1))
  | PURE_RING_TOPOLOGY
  | RING_EDGE_TOPOLOGY
  | BINARY_TREE_TOPOLOGY => negb (no_contexts =? 1)
  | HOUSE_TOPOLOGY => negb ((no_contexts =? 1) || negb (no_contexts mod 4 =? 1))
  | MULTIPLE_RING_TOPOLOGY => negb ((no_contexts <? 6) && negb (no_contexts mod 3 =? 0))
  | _ => false
  end.

(** [read_input], from the parsed options: the start-up time is raised to two
    seconds per context; [None] stands for the return value 1. *)
Definition read_input (o : options) : option options :=
  let least := u64_mul 2 (no_contexts o) in
  let time := if startup_time o <? least then least else startup_time o in
  if help o || bool_decide (prefix o = "") || bool_decide (dmcspath o = "")
     || (no_contexts o =? 0) || (no_atoms o =? 0)
     || (no_interface_atoms o =? 0) || (no_bridge_rules o =? 0)
     || (negb (local_kb_type o =? 0) && negb (local_kb_type o =? 1))
  then None
  else if size_fits (topology_type o) (no_contexts o)
  then Some (mk_options (help o) (no_contexts o) (no_atoms o) (no_interface_atoms o)
               (no_bridge_rules o) (topology_type o) (prefix o) (dmcspath o) time
               (local_kb_type o))
  else None.

(** [setup_topos]: no context has a neighbor yet. *)
Definition setup_topos (no_contexts : N) : list (list N) := replicate (N.to_nat no_contexts) [].

(** The generator that [switch (topology_type)] creates; the pointer stays
    null for a type without a case. *)
Definition topology_generator (topology_type : N) : option generator :=
  match topology_type with
  | DIAMOND_DOWN_TOPOLOGY => Some diamond
  | DIAMOND_ARBITRARY_TOPOLOGY => Some diamond_arbitrary
  | DIAMOND_ZIGZAG_TOPOLOGY => Some diamond_zigzag
  | PURE_RING_TOPOLOGY => Some ring
  | RING_EDGE_TOPOLOGY => Some ring_edge
  | BINARY_TREE_TOPOLOGY => Some binary_tree
  | HOUSE_TOPOLOGY => Some house
  | MULTIPLE_RING_TOPOLOGY => Some multiple_ring
  | _ => None
  end.

Definition generate_orig_topology (topology_type : N) (st : gen_state) : res gen_state :=
  orig_topo_gen ← not_null (topology_generator topology_type);
  generate orig_topo_gen st.

(** ** Graphs *)

(** Context [i] asks context [j]. *)
Definition edge (t : list (list N)) (i j : N) : Prop :=
  exists row, t !! N.to_nat i = Some row /\ j ∈ row.

(** What a plan needs of a topology of [n] contexts: every list names existing
    contexts, each once, and the root can reach every context. *)
Record sound (n : N) (t : list (list N)) : Prop := {
  sound_length : N.of_nat (length t) = n;
  sound_range i j : edge t i j -> i < n /\ j < n;
  sound_nodup row : row ∈ t -> NoDup row;
  sound_reach i : i < n -> rtc (edge t) 0 i
}.

(** [id] gets the contexts [tos], counted from 1, as further neighbors. *)
Definition push (st : gen_state) (id : N) (tos : list N) : gen_state :=
  mk_gen (alter (fun r => r ++ (N.pred <$> tos)) (N.to_nat (id - 1)) (topo st)) (draws st).

(** A generator that only extends the list of the context it is called with,
    by the contexts of [row], counted from 1. *)
Definition rowwise (n : N) (g : generator) (row : N -> list N) : Prop :=
  forall id st, 1 <= id -> id <= n -> N.of_nat (length (topo st)) = n ->
  g n id st = Ok (push st id (row id)).

Definition rows_ok (n : N) (row : N -> list N) : Prop :=
  forall id to, 1 <= id -> id <= n -> to ∈ row id -> 1 <= to /\ to <= n.

(** The topology with those rows. *)
Definition topology_of (n : N) (row : N -> list N) : list (list N) :=
  (fun id => N.pred <$> row id) <$> nrange 1 (n + 1).

Lemma lookup_topology_of n row i :
  i < n -> topology_of n row !! N.to_nat i = Some (N.pred <$> row (i + 1)).
Proof.
  intros Hi. unfold topology_of. rewrite list_lookup_fmap, lookup_nrange.
  rewrite decide_True by lia. cbn. do 3 f_equal. lia.
Qed.

Lemma length_topology_of n row : N.of_nat (length (topology_of n row)) = n.
Proof. unfold topology_of. rewrite length_fmap, length_nrange. lia. Qed.

(** The topology after the contexts before [id]. *)
Definition topology_upto (n : N) (row : N -> list N) (id : N) : list (list N) :=
  ((fun id => N.pred <$> row id) <$> nrange 1 id) ++ replicate (N.to_nat (n + 1 - id)) [].

Lemma topology_upto_step n row id :
  1 <= id -> id <= n ->
  alter (fun r => r ++ (N.pred <$> row id)) (N.to_nat (id - 1)) (topology_upto n row id) =
  topology_upto n row (id + 1).
Proof.
  intros H1 H2. unfold topology_upto. rewrite nrange_snoc, fmap_app by done.
  replace (N.to_nat (n + 1 - id)) with (S (N.to_nat (n + 1 - (id + 1)))) by lia.
  cbn [replicate]. rewrite <- app_assoc.
  assert (E : N.to_nat (id - 1) = length ((fun id => N.pred <$> row id) <$> nrange 1 id)).
  { rewrite length_fmap, length_nrange. lia. }
  rewrite E, alter_app_r_alt by lia. by rewrite Nat.sub_diag.
Qed.

Lemma length_topology_upto n row id :
  1 <= id -> id <= n + 1 -> N.of_nat (length (topology_upto n row id)) = n.
Proof.
  intros H1 H2. unfold topology_upto.
  rewrite length_app, length_fmap, length_nrange, length_replicate. lia.
Qed.

Lemma generate_rowwise n g row ds :
  rowwise n g row ->
  generate g (mk_gen (setup_topos n) ds) = Ok (mk_gen (topology_of n row) ds).
Proof.
  intros Hg. unfold generate. cbn [topo].
  assert (E : N.of_nat (length (setup_topos n)) = n).
  { unfold setup_topos. rewrite length_replicate. lia. }
  rewrite E.
  destruct (foldM_nrange_from (fun id st => st = mk_gen (topology_upto n row id) ds)
    (fun st i => g n i st) (mk_gen (setup_topos n) ds) 1 (n + 1)) as (st & -> & ->); [lia| | |].
  - unfold topology_upto, setup_topos. rewrite (nrange_nil 1 1) by lia. cbn. do 2 f_equal. lia.
  - intros id st H1 H2 ->. eexists. split; [|done].
    rewrite Hg; cbn; [|lia|lia|apply length_topology_upto; lia].
    unfold push. cbn. by rewrite topology_upto_step by lia.
  - do 2 f_equal. unfold topology_upto, topology_of. rewrite N.sub_diag. cbn. apply app_nil_r.
Qed.

Lemma edge_topology_of n row i j :
  rows_ok n row ->
  edge (topology_of n row) i j <-> i < n /\ j + 1 ∈ row (i + 1).
Proof.
  intros Hr. unfold edge. split.
  - intros (r & Hl & Hj).
    assert (Hi : i < n).
    { apply lookup_lt_Some in Hl. pose proof (length_topology_of n row). lia. }
    split; [done|]. rewrite lookup_topology_of in Hl by done. injection Hl as <-.
    apply list_elem_of_fmap in Hj as (to & -> & Hto).
    destruct (Hr (i + 1) to) as [H1 _]; [lia..|done|].
    by replace (N.pred to + 1) with to by lia.
  - intros [Hi Hj]. eexists. split; [by apply lookup_topology_of|].
    apply list_elem_of_fmap. exists (j + 1). split; [lia|done].
Qed.

(** Everything is reachable when every context but the first has a parent
    with a smaller number. *)
Lemma rows_sound n row :
  rows_ok n row ->
  (forall id, 1 <= id -> id <= n -> NoDup (row id)) ->
  (forall id, 1 < id -> id <= n -> exists p, 1 <= p /\ p < id /\ id ∈ row p) ->
  sound n (topology_of n row).
Proof.
  intros Hr Hn Hp. split.
  - apply length_topology_of.
  - intros i j [Hi Hj]%edge_topology_of; [|done]. apply Hr in Hj; lia.
  - intros r Hr'. unfold topology_of in Hr'.
    apply list_elem_of_fmap in Hr' as (id & -> & Hid%elem_of_nrange).
    apply NoDup_fmap_2_strong; [|apply Hn; lia].
    intros x y Hx%Hr Hy%Hr E; lia.
  - intros i. induction i as [i IH] using (well_founded_induction N.lt_wf_0). intros Hi.
    destruct (decide (i = 0)) as [->|]; [constructor|].
    destruct (Hp (i + 1)) as (p & ? & ? & Hin); [lia..|].
    eapply rtc_r; [apply (IH (N.pred p)); lia|].
    apply edge_topology_of; [done|]. replace (N.pred p + 1) with p by lia. split; [lia|done].
Qed.

(** ** The rows of each generator *)

Definition diamond_row (n id : N) : list N :=
  if id =? n then [] else if id mod 3 =? 1 then [id + 1; id + 2]
  else if id mod 3 =? 0 then [id + 1] else [id + 2].

Definition zigzag_row (n id : N) : list N :=
  if id =? n then [] else if id mod 3 =? 0 then [id + 1] else [id + 1; id + 2].

Definition ring_row (n id : N) : list N := if id =? n then [1] else [id + 1].

Definition tree_row (n id : N) : list N :=
  if 2 * id <=? n then if 2 * id + 1 <=? n then [2 * id; 2 * id + 1] else [2 * id] else [].

Definition house_row (n id : N) : list N :=
  if id =? 1 then [2; 3]
  else if id mod 4 =? 0 then
    id + 1 :: if 2 * id - 2 <? n then [2 * id - 2; 2 * id - 1] else []
  else if id mod 4 =? 1 then
    id - 3 :: if 2 * id <? n then [2 * id; 2 * id + 1] else []
  else [id + 1].

(** The number of contexts up to the first ear, counted as the code does. *)
Definition ear (n : N) : N := (n + 3) / 3.

Definition multiple_row (n id : N) : list N :=
  if id =? 2 then [3; 2 + ear n]
  else if id =? ear n + 1 then [1; 2 * ear n]
  else if id =? n then [ear n]
  else if id =? 2 * ear n - 1 then [3]
  else [id + 1].

Definition det_row (topology_type n : N) : N -> list N :=
  match topology_type with
  | DIAMOND_DOWN_TOPOLOGY => diamond_row n
  | DIAMOND_ZIGZAG_TOPOLOGY => zigzag_row n
  | PURE_RING_TOPOLOGY => ring_row n
  | BINARY_TREE_TOPOLOGY => tree_row n
  | HOUSE_TOPOLOGY => house_row n
  | MULTIPLE_RING_TOPOLOGY => multiple_row n
  | _ => fun _ => []
  end.

(** The topologies that use no random numbers. *)
Definition deterministic (topology_type : N) : bool :=
  bool_decide (topology_type ∈ [1; 3; 4; 6; 7; 8]).

Lemma push_nil st id : push st id [] = st.
Proof.
  destruct st as [t ds]. unfold push. cbn. f_equal.
  rewrite <- (list_alter_id (fun r => r ++ []) t (N.to_nat (id - 1))) at 2; [done|].
  intros r. apply app_nil_r.
Qed.

Lemma genNeighbor_push st id tos to :
  1 <= id -> id <= N.of_nat (length (topo st)) -> N.of_nat (length (topo st)) < W64 ->
  1 <= to -> to < W64 ->
  genNeighbor (push st id tos) id to = Ok (push st id (tos ++ [to])).
Proof.
  intros H1 H2 H3 H4 H5. unfold genNeighbor, push. cbn [topo draws].
  rewrite !u64_sub_small by lia.
  destruct (vec_at_lt (alter (fun r => r ++ (N.pred <$> tos)) (N.to_nat (id - 1)) (topo st)) (id - 1))
    as (row & -> & Hrow). { rewrite length_alter. lia. }
  cbn. do 2 f_equal. rewrite list_lookup_alter_eq in Hrow.
  destruct (topo st !! N.to_nat (id - 1)) as [r|] eqn:Hr; [|done]. injection Hrow as <-.
  apply list_eq. intros k. destruct (decide (k = N.to_nat (id - 1))) as [->|].
  - rewrite list_lookup_insert_eq, list_lookup_alter_eq, Hr; [|rewrite length_alter; lia].
    cbn. rewrite fmap_app, <- app_assoc. cbn. do 4 f_equal. lia.
  - by rewrite list_lookup_insert_ne, !list_lookup_alter_ne.
Qed.

Lemma genNeighbor_first st id to :
  1 <= id -> id <= N.of_nat (length (topo st)) -> N.of_nat (length (topo st)) < W64 ->
  1 <= to -> to < W64 ->
  genNeighbor st id to = Ok (push st id [to]).
Proof. intros. rewrite <- (push_nil st id) at 1. by apply genNeighbor_push. Qed.

(** The arithmetic of a generator on a system that leaves room for [2 * n]. *)
Ltac gen_arith := repeat match goal with
  | |- context [u64_add ?a ?b] => rewrite (u64_add_small a b) by lia
  | |- context [u64_sub ?a ?b] => rewrite (u64_sub_small a b) by lia
  | |- context [u64_mul ?a ?b] => rewrite (u64_mul_small a b) by lia
  end.

Ltac gen_push := rewrite genNeighbor_first by lia; rsimpl;
  repeat (rewrite genNeighbor_push by lia; rsimpl).

Ltac gen_cases := repeat match goal with
  | |- context [?a =? ?b] => destruct (N.eqb_spec a b)
  | |- context [?a <=? ?b] => destruct (N.leb_spec a b)
  | |- context [?a <? ?b] => destruct (N.ltb_spec a b)
  end.

(** The contexts a row can name, and the row that names a context. *)
Ltac row_cases := repeat match goal with
  | H : context [?a =? ?b] |- _ => destruct (N.eqb_spec a b)
  | H : context [?a <=? ?b] |- _ => destruct (N.leb_spec a b)
  | H : context [?a <? ?b] |- _ => destruct (N.ltb_spec a b)
  end; rewrite ?elem_of_cons, ?elem_of_nil in *.

Ltac row_nodup := gen_cases; repeat constructor; rewrite ?elem_of_cons, ?elem_of_nil; lia.

(** [id] is in the row of [p]. *)
Ltac parent p := exists p; split; [lia|]; split; [lia|];
  gen_cases; rewrite ?elem_of_cons; lia.

Section rows.
Context (n : N) (Hn : 2 * n + 8 < W64).

Lemma diamond_rowwise : rowwise n diamond (diamond_row n).
Proof.
  intros id st H1 H2 Hl. unfold diamond, diamond_row. gen_arith. gen_cases; try lia; try gen_push; try done.
  by rewrite push_nil.
Qed.

Lemma zigzag_rowwise : rowwise n diamond_zigzag (zigzag_row n).
Proof.
  intros id st H1 H2 Hl. unfold diamond_zigzag, zigzag_row. gen_arith.
  gen_cases; cbn [orb]; try lia; try gen_push; try done. by rewrite push_nil.
Qed.

Lemma ring_rowwise : rowwise n ring (ring_row n).
Proof.
  intros id st H1 H2 Hl. unfold ring, ring_row. gen_arith. gen_cases; by gen_push.
Qed.

Lemma tree_rowwise : rowwise n binary_tree (tree_row n).
Proof.
  intros id st H1 H2 Hl. unfold binary_tree, tree_row. gen_arith.
  gen_cases; try lia; try gen_push; try done. by rewrite push_nil.
Qed.

Lemma house_child id d :
  4 <= id -> id <= n -> d <= 5 ->
  u64_add (u64_add id (u64_mul (u64_sub (id / 4) 1) 4)) d = id + (id / 4 - 1) * 4 + d.
Proof.
  intros. rewrite (u64_sub_small (id / 4)) by lia.
  rewrite u64_mul_small by lia.
  rewrite (u64_add_small id) by lia.
  by rewrite u64_add_small by lia.
Qed.

Lemma house_rowwise : rowwise n house (house_row n).
Proof.
  intros id st H1 H2 Hl. unfold house, house_row, house_children.
  destruct (N.eqb_spec id 1) as [->|]. { gen_arith. by gen_push. }
  rewrite (u64_sub_small id 1) by lia.
  destruct (N.eqb_spec (id mod 4) 0); [|destruct (N.eqb_spec (id mod 4) 1)].
  - replace ((id - 1) mod 4) with 3 by lia. cbn -[N.div]. rewrite house_child by lia.
    replace (id + _ + 2) with (2 * id - 2) by lia. gen_arith. gen_push.
    gen_cases; [|done]. cbn [app]. repeat f_equal. lia.
  - replace ((id - 1) mod 4) with 0 by lia. cbn -[N.div]. rewrite house_child by lia.
    replace (id + _ + 5) with (2 * id) by lia. gen_arith. gen_push.
    by gen_cases.
  - gen_arith. gen_cases; cbn [orb]; try lia; by gen_push.
Qed.

Lemma ear_bounds : 6 <= n -> 3 <= ear n /\ 2 * ear n <= n /\ n <= 3 * ear n.
Proof. unfold ear. lia. Qed.

Lemma multiple_rowwise : 6 <= n -> rowwise n multiple_ring (multiple_row n).
Proof.
  intros H6 id st H1 H2 Hl. unfold multiple_ring, multiple_row.
  rewrite (u64_add_small n 3) by lia. fold (ear n). destruct ear_bounds as (E1 & E2 & _); [done|].
  generalize dependent (ear n). intros e E1 E2. gen_arith.
  replace (2 + e + e - 3) with (2 * e - 1) by lia.
  gen_cases; try (exfalso; lia); gen_push; cbn [app]; repeat f_equal; lia.
Qed.

Lemma diamond_rows_ok : 1 < n -> n mod 3 = 1 -> rows_ok n (diamond_row n).
Proof. intros H1 H3 id to ?? H. unfold diamond_row in H. row_cases; lia. Qed.

Lemma diamond_sound : 1 < n -> n mod 3 = 1 -> sound n (topology_of n (diamond_row n)).
Proof.
  intros H1 H3. apply rows_sound; unfold diamond_row.
  - by apply diamond_rows_ok.
  - intros id ??. row_nodup.
  - intros id ??. destruct (decide (id mod 3 = 0)); [parent (id - 2)|parent (id - 1)].
Qed.

Lemma zigzag_rows_ok : 1 < n -> n mod 3 = 1 -> rows_ok n (zigzag_row n).
Proof. intros H1 H3 id to ?? H. unfold zigzag_row in H. row_cases; lia. Qed.

Lemma zigzag_sound : 1 < n -> n mod 3 = 1 -> sound n (topology_of n (zigzag_row n)).
Proof.
  intros H1 H3. apply rows_sound; unfold zigzag_row.
  - by apply zigzag_rows_ok.
  - intros id ??. row_nodup.
  - intros id ??. parent (id - 1).
Qed.

Lemma ring_rows_ok : 1 < n -> rows_ok n (ring_row n).
Proof. intros H1 id to ?? H. unfold ring_row in H. row_cases; lia. Qed.

Lemma ring_sound : 1 < n -> sound n (topology_of n (ring_row n)).
Proof.
  intros H1. apply rows_sound; unfold ring_row.
  - by apply ring_rows_ok.
  - intros id ??. row_nodup.
  - intros id ??. parent (id - 1).
Qed.

Lemma tree_rows_ok : 1 < n -> rows_ok n (tree_row n).
Proof. intros H1 id to ?? H. unfold tree_row in H. row_cases; lia. Qed.

Lemma tree_sound : 1 < n -> sound n (topology_of n (tree_row n)).
Proof.
  intros H1. apply rows_sound; unfold tree_row.
  - by apply tree_rows_ok.
  - intros id ??. row_nodup.
  - intros id ??. parent (id / 2).
Qed.

Lemma house_rows_ok : 1 < n -> n mod 4 = 1 -> rows_ok n (house_row n).
Proof. intros H1 H3 id to ?? H. unfold house_row in H. row_cases; lia. Qed.

Lemma house_sound : 1 < n -> n mod 4 = 1 -> sound n (topology_of n (house_row n)).
Proof.
  intros H1 H3. apply rows_sound; unfold house_row.
  - by apply house_rows_ok.
  - intros id ??. row_nodup.
  - intros id ??. destruct (decide (id mod 4 = 2)); [|parent (id - 1)].
    destruct (decide (id = 2)); [parent 1|].
    destruct (decide (id mod 8 = 2)); [parent (id / 2)|parent (id / 2 + 1)].
Qed.

Lemma multiple_rows_ok : 6 <= n -> rows_ok n (multiple_row n).
Proof.
  intros H6 id to ?? H. destruct ear_bounds as (E1 & E2 & _); [done|]. unfold multiple_row in H.
  generalize dependent (ear n); intros e H E1 E2. row_cases; lia.
Qed.

Lemma multiple_sound : 6 <= n -> sound n (topology_of n (multiple_row n)).
Proof.
  intros H6. destruct ear_bounds as (E1 & E2 & _); [done|]. apply rows_sound; [by apply multiple_rows_ok|..];
    unfold multiple_row; generalize dependent (ear n); intros e E1 E2.
  - intros id ??. row_nodup.
  - intros id ??. destruct (decide (id = e + 2)); [parent 2|].
    destruct (decide (id = 2 * e)); [parent (e + 1)|parent (id - 1)].
Qed.

End rows.

(** ** All accepted sizes *)

Lemma read_input_accepts o o' :
  read_input o = Some o' ->
  topology_type o' = topology_type o /\ no_contexts o' = no_contexts o /\ no_contexts o <> 0 /\
  no_atoms o' = no_atoms o /\ no_atoms o <> 0 /\ size_fits (topology_type o) (no_contexts o) = true.
Proof.
  unfold read_input. intros H.
  destruct (help o || _ || _ || _ || _ || _ || _ || _) eqn:Hc; [done|].
  destruct (size_fits _ _) eqn:Hf; [|done]. injection H as <-. cbn.
  rewrite !orb_false_iff, !N.eqb_neq in Hc. tauto.
Qed.

Lemma deterministic_cases ty :
  deterministic ty = true -> ty = 1 \/ ty = 3 \/ ty = 4 \/ ty = 6 \/ ty = 7 \/ ty = 8.
Proof.
  unfold deterministic. rewrite bool_decide_eq_true, !elem_of_cons, elem_of_nil. tauto.
Qed.

Lemma deterministic_topology ty n ds :
  deterministic ty = true -> size_fits ty n = true -> n <> 0 -> 2 * n + 8 < W64 ->
  ~ (ty = MULTIPLE_RING_TOPOLOGY /\ n = 3) ->
  generate_orig_topology ty (mk_gen (setup_topos n) ds) =
    Ok (mk_gen (topology_of n (det_row ty n)) ds) /\
  sound n (topology_of n (det_row ty n)).
Proof.
  intros Hd Hs H0 Hn H3. unfold generate_orig_topology.
  destruct (deterministic_cases _ Hd) as [->|[->|[->|[->|[->| ->]]]]];
    cbn -[N.modulo generate topology_of] in Hs |- *; change (not_null (Some ?g)) with (Ok g);
    rsimpl; row_cases; cbn in Hs; try done.
  all: split; [apply generate_rowwise|].
  all: first [apply diamond_rowwise | apply diamond_sound | apply zigzag_rowwise | apply zigzag_sound
    | apply ring_rowwise | apply ring_sound | apply tree_rowwise | apply tree_sound
    | apply house_rowwise | apply house_sound | apply multiple_rowwise | apply multiple_sound]; lia.
Qed.

Lemma det_rows_ok ty n :
  deterministic ty = true -> size_fits ty n = true -> n <> 0 ->
  ~ (ty = MULTIPLE_RING_TOPOLOGY /\ n = 3) -> 2 * n + 8 < W64 -> rows_ok n (det_row ty n).
Proof.
  intros Hd Hs H0 H3 Hn.
  destruct (deterministic_cases _ Hd) as [->|[->|[->|[->|[->| ->]]]]];
    cbn -[N.modulo] in Hs |- *; row_cases; cbn in Hs; try done.
  all: first [apply diamond_rows_ok | apply zigzag_rows_ok | apply ring_rows_ok | apply tree_rows_ok
    | apply house_rows_ok | apply multiple_rows_ok]; lia.
Qed.

(** C26. For every system size that the generator accepts (and that is below
    2^62), each topology without random edges is generated without an access outside the vector of
    contexts, and the result is sound: all neighbors exist, no context names
    one twice, and the root context reaches every context.  The exception is
    the multiple ring of three contexts, which is accepted and has a neighbor
    that does not exist ([multiple_ring_three]). *)
Theorem topologies_sound o o' ds :
  read_input o = Some o' -> deterministic (topology_type o) = true ->
  ~ (topology_type o = MULTIPLE_RING_TOPOLOGY /\ no_contexts o = 3) ->
  2 * no_contexts o + 8 < W64 ->
  exists t, generate_orig_topology (topology_type o') (mk_gen (setup_topos (no_contexts o')) ds) =
      Ok (mk_gen t ds) /\ sound (no_contexts o) t.
Proof.
  intros (-> & -> & ? & _ & _ & ?)%read_input_accepts Hd H3 Hn.
  eexists. by apply deterministic_topology.
Qed.

Definition sample_options (ty n : N) : options := mk_options false n 9 3 2 ty "student" "build" 3 0.

Lemma topologies_sound_witness :
  exists t, generate_orig_topology 7 (mk_gen (setup_topos 13) []) = Ok (mk_gen t []) /\ sound 13 t.
Proof.
  apply (topologies_sound (sample_options 7 13)
    (mk_options false 13 9 3 2 7 "student" "build" 26 0) []); [reflexivity|reflexivity| |reflexivity].
  intros [[=] _].
Defined.

(** The check of the multiple ring accepts three contexts, although it asks
    for at least six: contexts 1 and 2 get a neighbor that does not exist. *)
Lemma multiple_ring_three :
  is_Some (read_input (sample_options MULTIPLE_RING_TOPOLOGY 3)) /\
  generate_orig_topology MULTIPLE_RING_TOPOLOGY (mk_gen (setup_topos 3) []) =
    Ok (mk_gen [[1]; [2; 3]; [0; 3]] []) /\
  ~ sound 3 [[1]; [2; 3]; [0; 3]].
Proof.
  split; [by eexists|]. split; [reflexivity|]. intros H.
  destruct (sound_range _ _ H 1 3) as [_ H3]; [|lia].
  exists [2; 3]. split; [done|]. right. left.
Qed.

(** The help text lists a random topology and the error message a range from
    0 to 8, but type 0 is refused. *)
Lemma random_topology_refused n : read_input (sample_options RANDOM_TOPOLOGY n) = None.
Proof. unfold read_input. cbn. by destruct (n =? 0). Qed.


(** ** The ring with additional edges *)

Definition ring_next (n id : N) : N := if id =? n then 1 else id + 1.

(** A row of the ring, perhaps with one further context. *)
Definition ring_edge_row (n id : N) (row : list N) : Prop :=
  row = [ring_next n id] \/
  exists other, row = [ring_next n id; other] /\ 1 <= other /\ other <= n /\ other <> ring_next n id.

Lemma pick_other_spec n next ds other ds' :
  n <> 0 -> pick_other n next ds = Ok (other, ds') -> 1 <= other /\ other <= n /\ other <> next.
Proof.
  intros Hn. induction ds as [|r ds IH]; [done|]. cbn -[N.modulo].
  destruct (N.eqb_spec (r mod n + 1) next); [done|]. intros [= <- <-].
  pose proof (N.mod_lt r n). lia.
Qed.

(** Successive draws that differ, so that no draw is refused twice. *)
Fixpoint lively (n : N) (ds : list N) : Prop :=
  match ds with
  | a :: (b :: _) as ds' => a mod n <> b mod n /\ lively n ds'
  | _ => True
  end.

Lemma lively_tail n a ds : lively n (a :: ds) -> lively n ds.
Proof. destruct ds; cbn; tauto. Qed.

Lemma pick_other_returns n next ds :
  lively n ds -> (2 <= length ds)%nat ->
  exists other ds', pick_other n next ds = Ok (other, ds') /\ lively n ds' /\
    (length ds <= length ds' + 2)%nat.
Proof.
  destruct ds as [|a [|b ds]]; cbn -[N.modulo]; [lia..|]. intros [Hab Hl] _.
  destruct (N.eqb_spec (a mod n + 1) next).
  - destruct (N.eqb_spec (b mod n + 1) next); [lia|]. do 2 eexists. split; [done|].
    split; [by eapply lively_tail|lia].
  - do 2 eexists. split; [done|]. split; [done|]. cbn. lia.
Qed.

(** The loop of [generate] on the empty topology. *)
Lemma generate_orig_setup n ty g ds :
  topology_generator ty = Some g ->
  generate_orig_topology ty (mk_gen (setup_topos n) ds) =
  foldM (fun st i => g n i st) (mk_gen (setup_topos n) ds) (nrange 1 (n + 1)).
Proof.
  intros Hg. unfold generate_orig_topology, generate. rewrite Hg.
  change (not_null (Some g)) with (Ok g). rsimpl. cbn [topo].
  replace (N.of_nat (length (setup_topos n))) with n; [done|].
  unfold setup_topos. rewrite length_replicate. lia.
Qed.

Section ring_edge.
Context (n : N) (Hn1 : 1 < n) (Hn : 2 * n + 8 < W64).

Definition ring_edge_inv (id : N) (st : gen_state) : Prop :=
  exists row, topo st = topology_upto n row id /\
    forall a, 1 <= a -> a < id -> ring_edge_row n a (row a).

Lemma topology_upto_ext row row' id :
  (forall a, 1 <= a -> a < id -> row a = row' a) ->
  topology_upto n row id = topology_upto n row' id.
Proof.
  intros H. unfold topology_upto. f_equal. apply list_fmap_ext. intros i a Ha%list_elem_of_lookup_2.
  apply elem_of_nrange in Ha. rewrite H by lia. done.
Qed.

Lemma ring_edge_inv_push id st tos ds :
  1 <= id -> id <= n -> ring_edge_inv id st -> ring_edge_row n id tos ->
  ring_edge_inv (id + 1) (mk_gen (topo (push st id tos)) ds).
Proof.
  intros H1 H2 (row & Ht & Hrow) Htos.
  exists (fun a => if a =? id then tos else row a). split.
  - cbn. rewrite Ht, (topology_upto_ext row (fun a => if a =? id then tos else row a)).
    + rewrite <- topology_upto_step by done. by rewrite N.eqb_refl.
    + intros a ??. destruct (N.eqb_spec a id); [lia|done].
  - intros a ??. destruct (N.eqb_spec a id) as [->|]; [done|]. apply Hrow; lia.
Qed.

Lemma ring_edge_inv_length id st :
  1 <= id -> id <= n + 1 -> ring_edge_inv id st -> N.of_nat (length (topo st)) = n.
Proof. intros H1 H2 (row & -> & _). by apply length_topology_upto. Qed.

(** A turn, as a function of the draws. *)
Lemma ring_edge_turn id st :
  1 <= id -> id <= n -> ring_edge_inv id st ->
  ring_edge n id st =
    match draws st with
    | [] => Err OutOfFuel
    | r :: ds =>
        if negb (r mod 2 =? 0) then
          '(other, ds) ← pick_other n (ring_next n id) ds;
          Ok (mk_gen (topo (push st id [ring_next n id; other])) ds)
        else Ok (mk_gen (topo (push st id [ring_next n id])) ds)
    end.
Proof.
  intros H1 H2 Hi. pose proof (ring_edge_inv_length _ _ H1 ltac:(lia) Hi) as Hl.
  unfold ring_edge. rewrite u64_add_small by lia. fold (ring_next n id).
  assert (Hx : 1 <= ring_next n id /\ ring_next n id <= n) by (unfold ring_next; gen_cases; lia).
  rewrite genNeighbor_first by lia. rsimpl. unfold rand. cbn [draws push].
  destruct (draws st) as [|r ds]; [done|]. rsimpl. destruct (negb _); [|done]. cbn [draws].
  destruct (pick_other n (ring_next n id) ds) as [[other ds']|] eqn:E; [|done]. rsimpl.
  apply pick_other_spec in E; [|lia]. set (st' := mk_gen (topo st) ds').
  change (genNeighbor _ id other) with (genNeighbor (push st' id [ring_next n id]) id other).
  by rewrite genNeighbor_push by (cbn; lia).
Qed.

Lemma ring_edge_step id st st' :
  1 <= id -> id <= n -> ring_edge_inv id st -> ring_edge n id st = Ok st' -> ring_edge_inv (id + 1) st'.
Proof.
  intros H1 H2 Hi. rewrite ring_edge_turn by done. destruct (draws st) as [|r ds]; [done|].
  destruct (negb _).
  - destruct (pick_other _ _ _) as [[other ds']|] eqn:E; [|done]. intros [= <-].
    apply pick_other_spec in E; [|lia].
    apply (ring_edge_inv_push id st [ring_next n id; other]); [done..|]. right. exists other. tauto.
  - intros [= <-]. apply (ring_edge_inv_push id st [ring_next n id]); [done..|]. by left.
Qed.

Lemma ring_edge_inv_initial ds : ring_edge_inv 1 (mk_gen (setup_topos n) ds).
Proof.
  exists (fun _ => []). split; [|lia]. unfold topology_upto, setup_topos.
  rewrite (nrange_nil 1 1) by lia. cbn. f_equal. lia.
Qed.

Lemma ring_edge_inv_sound st : ring_edge_inv (n + 1) st -> sound n (topo st).
Proof.
  intros (row & Ht & Hrow).
  assert (Hx : forall id, 1 <= id -> id <= n -> 1 <= ring_next n id /\ ring_next n id <= n)
    by (intros; unfold ring_next; gen_cases; lia).
  assert (E : topo st = topology_of n row).
  { rewrite Ht. unfold topology_upto. rewrite N.sub_diag. apply app_nil_r. }
  rewrite E. apply rows_sound.
  - intros id to H1 H2 Hto. specialize (Hx id H1 H2).
    destruct (Hrow id) as [Er|(o & Er & ?)]; [lia..| |]; rewrite Er, ?elem_of_cons, elem_of_nil in Hto; lia.
  - intros id H1 H2. destruct (Hrow id) as [->|(o & -> & ?)]; [lia..| |];
      repeat constructor; rewrite ?elem_of_cons, ?elem_of_nil; lia.
  - intros id H1 H2. exists (id - 1). split; [lia|]. split; [lia|].
    assert (En : ring_next n (id - 1) = id) by (unfold ring_next; gen_cases; lia).
    destruct (Hrow (id - 1)) as [->|(o & -> & ?)]; [lia..| |]; rewrite En; left.
Qed.

(** Whatever is drawn, a finished ring with additional edges is sound. *)
Theorem ring_edge_sound ds st :
  generate_orig_topology RING_EDGE_TOPOLOGY (mk_gen (setup_topos n) ds) = Ok st -> sound n (topo st).
Proof.
  rewrite (generate_orig_setup _ _ ring_edge) by done. intros H. apply ring_edge_inv_sound.
  revert H. apply (foldM_nrange_partial ring_edge_inv); [lia| |apply ring_edge_inv_initial].
  intros id b b' ???. apply ring_edge_step; [done|lia|done].
Qed.

(** It finishes when successive draws differ: a turn takes at most three. *)
Theorem ring_edge_returns ds :
  lively n ds -> 3 * n <= N.of_nat (length ds) ->
  exists st, generate_orig_topology RING_EDGE_TOPOLOGY (mk_gen (setup_topos n) ds) = Ok st.
Proof.
  intros Hl Hd. rewrite (generate_orig_setup _ _ ring_edge) by done.
  destruct (foldM_nrange_from (fun id st => ring_edge_inv id st /\ lively n (draws st) /\
    3 * (n + 1 - id) <= N.of_nat (length (draws st))) (fun st i => ring_edge n i st)
    (mk_gen (setup_topos n) ds) 1 (n + 1)) as (st & E & _); [lia| | |by exists st].
  - split; [apply ring_edge_inv_initial|]. cbn. split; [done|lia].
  - intros id st H1 H2 (Hi & Hv & Hc).
    enough (exists st', ring_edge n id st = Ok st' /\ lively n (draws st') /\
      3 * (n + 1 - (id + 1)) <= N.of_nat (length (draws st'))) as (st' & E & Hv' & Hc').
    { exists st'. split; [done|]. split; [|done]. eapply ring_edge_step; [| |done|done]; lia. }
    rewrite ring_edge_turn by (try done; lia). destruct (draws st) as [|r ds']; [cbn in Hc; lia|].
    cbn in Hc. apply lively_tail in Hv. destruct (negb _).
    + destruct (pick_other_returns n (ring_next n id) ds' Hv) as (o & ds2 & -> & ? & ?); [lia|].
      eexists. split; [done|]. cbn. split; [done|lia].
    + eexists. split; [done|]. cbn. split; [done|lia].
Qed.

End ring_edge.

(** Two systems of three contexts: with the draws [[1; 1; 2; 1; 1; 0]], the
    second context becomes a neighbor of itself. *)
Lemma ring_edge_self_loop :
  generate_orig_topology RING_EDGE_TOPOLOGY (mk_gen (setup_topos 3) [1; 1; 2; 1; 1; 0]) =
  Ok (mk_gen [[1; 2]; [2; 1]; [0]] []).
Proof. reflexivity. Qed.

(** ** Diamonds with arbitrary edges *)

Lemma genNeighbor_edge st from to :
  1 <= from -> from <= N.of_nat (length (topo st)) -> N.of_nat (length (topo st)) < W64 ->
  1 <= to -> to < W64 ->
  exists t, genNeighbor st from to = Ok (mk_gen t (draws st)) /\ length t = length (topo st) /\
    (forall i j, edge t i j <-> edge (topo st) i j \/ (i = from - 1 /\ j = to - 1)) /\
    (~ edge (topo st) (from - 1) (to - 1) -> Forall (@NoDup N) (topo st) -> Forall (@NoDup N) t).
Proof.
  intros H1 H2 H3 H4 H5. unfold genNeighbor. rewrite !u64_sub_small by lia.
  destruct (vec_at_lt (topo st) (from - 1)) as (row & -> & Hrow); [lia|]. rsimpl.
  eexists. split; [done|]. split; [apply length_insert|]. split.
  - intros i j. unfold edge. destruct (decide (i = from - 1)) as [->|Hi].
    + rewrite list_lookup_insert_eq by lia. split.
      * intros (r & [= <-] & [Hj|Hj%list_elem_of_singleton]%elem_of_app); [left; by exists row|by right].
      * intros [(r & Hr & Hj)|[_ ->]].
        -- eexists. split; [done|]. apply elem_of_app. left. congruence.
        -- eexists. split; [done|]. apply elem_of_app. right. by apply list_elem_of_singleton.
    + rewrite list_lookup_insert_ne by lia. naive_solver.
  - intros Hfresh Hnd. apply Forall_insert; [done|]. apply NoDup_app. split; [|split].
    + by eapply Forall_lookup_1.
    + intros x Hx ->%list_elem_of_singleton. apply Hfresh. by exists row.
    + apply NoDup_singleton.
Qed.

Section arbitrary.
Context (n : N) (Hn1 : 1 < n) (Hn3 : n mod 3 = 1) (Hn : 2 * n + 8 < W64).

(** The pairs of contexts that are connected before the targets [rest] of
    [id]: all targets of the contexts before it, and [done]. *)
Definition connected_pair (id : N) (done : list N) (a b : N) : Prop :=
  (1 <= a /\ a < id /\ b ∈ diamond_row n a) \/ (a = id /\ b ∈ done).

Record arbitrary_inv (id : N) (done : list N) (t : list (list N)) : Prop := {
  ai_length : N.of_nat (length t) = n;
  ai_nodup : Forall (@NoDup N) t;
  ai_edge i j : edge t i j -> i < n /\ j < n /\ connected_pair id done (N.min i j + 1) (N.max i j + 1);
  ai_pair a b : connected_pair id done a b -> sc (edge t) (a - 1) (b - 1)
}.

Lemma genRandomEdge_ok id done st to r ds :
  draws st = r :: ds -> 1 <= id -> id < to -> to <= n -> to ∉ done ->
  arbitrary_inv id done (topo st) ->
  exists t, genRandomEdge st id to = Ok (mk_gen t ds) /\ arbitrary_inv id (done ++ [to]) t.
Proof.
  intros Hd H1 H2 H3 Hto [Hl Hnd He Hp]. unfold genRandomEdge, rand. rewrite Hd. rsimpl.
  assert (Hfresh : forall i j, N.min i j = id - 1 -> N.max i j = to - 1 -> ~ edge (topo st) i j).
  { intros i j Ei Ej (_ & _ & [(_ & ? & _)|[_ Hin]])%He; [lia|]. rewrite Ej in Hin.
    by replace (to - 1 + 1) with to in Hin by lia. }
  set (st' := mk_gen (topo st) ds).
  assert (Hdir : exists i j, N.min i j = id - 1 /\ N.max i j = to - 1 /\
    (if negb (r mod 2 =? 0) then genNeighbor st' id to else genNeighbor st' to id) =
      genNeighbor st' (i + 1) (j + 1)).
  { destruct (negb _); [exists (id - 1), (to - 1)|exists (to - 1), (id - 1)];
      rewrite !N.sub_add by lia; (split; [lia|]); (split; [lia|done]). }
  destruct Hdir as (i & j & Ei & Ej & ->).
  destruct (genNeighbor_edge st' (i + 1) (j + 1)) as (t & -> & Hlt & Het & Hndt); [cbn; lia..|].
  replace (i + 1 - 1) with i in * by lia. replace (j + 1 - 1) with j in * by lia.
  exists t. split; [done|]. split.
  - rewrite Hlt. done.
  - apply Hndt; [|done]. apply Hfresh; lia.
  - intros i' j' [(? & ? & Hc)%He|[-> ->]]%Het.
    + split; [done|]. split; [done|]. destruct Hc as [Hc|[? Hc]]; [by left|right].
      split; [done|]. apply elem_of_app. by left.
    + split; [lia|]. split; [lia|]. right. split; [lia|]. apply elem_of_app. right.
      apply list_elem_of_singleton. lia.
  - intros a b Hc.
    assert (Hold : connected_pair id done a b \/ (a = id /\ b = to)).
    { destruct Hc as [Hc|[-> [Hc|Hc%list_elem_of_singleton]%elem_of_app]]; unfold connected_pair; tauto. }
    destruct Hold as [[Hf|Hb]%Hp|[-> ->]].
    + left. apply Het. by left.
    + right. apply Het. by left.
    + destruct (N.le_ge_cases i j); [left|right]; apply Het; right; lia.
Qed.

Lemma random_edges_ok id tos done st :
  1 <= id -> Forall (fun to => id < to /\ to <= n) tos -> NoDup (done ++ tos) ->
  (length tos <= length (draws st))%nat -> arbitrary_inv id done (topo st) ->
  exists st', foldM (fun st to => genRandomEdge st id to) st tos = Ok st' /\
    arbitrary_inv id (done ++ tos) (topo st') /\ length (draws st) = (length tos + length (draws st'))%nat.
Proof.
  intros H1. revert done st. induction tos as [|to tos IH]; intros done st Hf Hnd Hl Hi.
  - exists st. rewrite app_nil_r. split; [done|]. done.
  - cbn in Hl. destruct (draws st) as [|r ds] eqn:Hd; cbn in Hl; [lia|].
    apply Forall_cons in Hf as [[??] Hf].
    destruct (genRandomEdge_ok id done st to r ds) as (t & E & Hi'); try done.
    { apply NoDup_app in Hnd as (_ & Hnd & _). intros Hin. apply (Hnd to Hin). left. }
    destruct (IH (done ++ [to]) (mk_gen t ds)) as (st' & E' & Hi2 & Hl2); try done.
    { by rewrite <- app_assoc. } { cbn. lia. }
    exists st'. cbn [foldM]. rewrite E. rsimpl. rewrite <- app_assoc in Hi2.
    split; [done|]. split; [done|]. cbn in *. lia.
Qed.

Lemma diamond_arbitrary_fold id st :
  1 <= id -> id <= n ->
  diamond_arbitrary n id st = foldM (fun st to => genRandomEdge st id to) st (diamond_row n id).
Proof.
  intros H1 H2. unfold diamond_arbitrary, diamond_row. gen_arith.
  gen_cases; cbn [foldM]; try done; destruct (genRandomEdge _ _ _); rsimpl; try done;
    by destruct (genRandomEdge _ _ _).
Qed.

Lemma diamond_row_ok id :
  1 <= id -> id <= n ->
  Forall (fun to => id < to /\ to <= n) (diamond_row n id) /\ NoDup (diamond_row n id) /\
  (length (diamond_row n id) <= 2)%nat.
Proof.
  intros H1 H2. unfold diamond_row. split; [|split].
  - gen_cases; repeat constructor; lia.
  - row_nodup.
  - gen_cases; cbn; lia.
Qed.

Lemma arbitrary_inv_next id t : arbitrary_inv id (diamond_row n id) t -> 1 <= id -> arbitrary_inv (id + 1) [] t.
Proof.
  intros [Hl Hnd He Hp] H1.
  assert (Heq : forall a b, connected_pair id (diamond_row n id) a b <-> connected_pair (id + 1) [] a b).
  { intros a b. unfold connected_pair. rewrite elem_of_nil. split.
    - intros [(?&?&?)|[-> ?]]; left; repeat split; try done; lia.
    - intros [(?&?&?)|[_ []]]. destruct (decide (a = id)) as [->|]; [by right|].
      left. repeat split; try done; lia. }
  split; [done|done| |].
  - intros i j (?&?&?)%He. rewrite <- Heq. done.
  - intros a b. rewrite <- Heq. apply Hp.
Qed.

(** Two draws per context are enough for the chain of diamonds with arbitrary
    edges; all neighbors exist, none is named twice, and every context is
    connected with the root when directions are forgotten. *)
Theorem diamond_arbitrary_connected ds :
  2 * n <= N.of_nat (length ds) ->
  exists st, generate_orig_topology DIAMOND_ARBITRARY_TOPOLOGY (mk_gen (setup_topos n) ds) = Ok st /\
    N.of_nat (length (topo st)) = n /\ Forall (@NoDup N) (topo st) /\
    (forall i j, edge (topo st) i j -> i < n /\ j < n) /\
    (forall i, i < n -> rtsc (edge (topo st)) 0 i).
Proof.
  intros Hd. rewrite (generate_orig_setup _ _ diamond_arbitrary) by done.
  destruct (foldM_nrange_from (fun id st => arbitrary_inv id [] (topo st) /\
    2 * (n + 1 - id) <= N.of_nat (length (draws st))) (fun st i => diamond_arbitrary n i st)
    (mk_gen (setup_topos n) ds) 1 (n + 1)) as (st & -> & [Hl Hnd He Hp] & _); [lia| | |].
  - cbn. split; [|lia].
    assert (Hno : forall i j, ~ edge (setup_topos n) i j).
    { intros i j (r & [-> _]%lookup_replicate & Hj). by apply elem_of_nil in Hj. }
    split.
    + unfold setup_topos. rewrite length_replicate. lia.
    + apply Forall_replicate. constructor.
    + intros i j H. by apply Hno in H.
    + intros a b [(?&?&_)|[_ Hb]]; [lia|]. by apply elem_of_nil in Hb.
  - intros id st H1 H2 [Hi Hc]. rewrite diamond_arbitrary_fold by lia.
    destruct (diamond_row_ok id) as (Hf & Hnd & Hl); [lia..|].
    destruct (random_edges_ok id (diamond_row n id) [] st) as (st' & -> & Hi' & Hl'); [lia|done|done|lia|done|].
    exists st'. split; [done|]. split; [apply arbitrary_inv_next; [done|lia]|lia].
  - exists st. split; [done|]. split; [done|]. split; [done|]. split; [by intros i j (?&?&?)%He|].
    intros i. induction i as [i IH] using (well_founded_induction N.lt_wf_0). intros Hi.
    destruct (decide (i = 0)) as [->|]; [constructor|].
    assert (Hpar : exists p, 1 <= p /\ p < i + 1 /\ i + 1 ∈ diamond_row n p).
    { unfold diamond_row. destruct (decide ((i + 1) mod 3 = 0)); [parent (i - 1)|parent i]. }
    destruct Hpar as (p & ? & ? & Hin).
    eapply rtc_r; [apply (IH (p - 1)); lia|].
    replace i with (i + 1 - 1) by lia. apply Hp. left. split; [lia|]. split; [lia|done].
Qed.

End arbitrary.

End Topologies.
