(* ===== verification/OptTopologies.v ===== *)
(** * Optimised query plans of generated systems

    For some topologies the generator also writes an optimised query plan: it
    removes edges that close a cycle or shorten a path, and lets the remaining
    edges carry the beliefs of the removed ones.  This file models
    include/generator/OptTopologyGenerator.h, the five optimisers next to it
    and [generate_opt_topology] of src/generator/new_staticGen.cpp.  The map
    of local interfaces holds shared pointers, so it maps pairs of contexts to
    locations of a heap. *)

From S2P Require Import Prelude BitMagic BeliefState Topologies.
From stdpp Require Import relations.
Import BitMagic BeliefState Topologies.

#[local] Open Scope N_scope.
#[local] Ltac Zify.zify_post_hook ::= Z.to_euclidean_division_equations.

Module OptTopologies.

(** ** Interface maps *)

Abbreviation ContextPair := (N * N)%type.
Abbreviation loc := positive.

(** [LocalInterfaceMap] and the belief states its pointers lead to. *)
Record interfaces := mk_ifs {
  lcim : gmap ContextPair loc;
  heap : gmap loc NewBeliefState
}.

Definition getInterface (st : interfaces) (from to : N) : res loc :=
  match lcim st !! (from, to) with
  | Some l => mret l
  | None => Err AssertFailed
  end.

Definition putInterface (st : interfaces) (from to : N) (bs : loc) : res interfaces :=
  _ ← assert (bool_decide (is_Some (lcim st !! (from, to))));
  mret (mk_ifs (<[(from, to) := bs]> (lcim st)) (heap st)).

(** [lcim->erase(p)] *)
Definition erase (st : interfaces) (p : ContextPair) : interfaces :=
  mk_ifs (delete p (lcim st)) (heap st).

(** [( *a) = ( *a) | ( *b)]: the operator updates its left operand, and the
    assignment to itself does nothing. *)
Definition or_assign (st : interfaces) (a b : loc) : res interfaces :=
  x ← not_null (heap st !! a);
  y ← not_null (heap st !! b);
  mret (mk_ifs (lcim st) (<[a := bs_or x y]> (heap st))).

(** ** The optimisers: [create_opt_interface(id)] *)

Abbreviation optimiser := (N -> N -> interfaces -> res interfaces).

Definition diamond_opt : optimiser := fun system_size id st =>
  if id =? system_size then mret st
  else if id mod 3 =? 1 then
    bs_12 ← getInterface st (u64_sub id 1) id;
    bs_13 ← getInterface st (u64_sub id 1) (u64_add id 1);
    bs_24 ← getInterface st id (u64_add id 2);
    bs_34 ← getInterface st (u64_add id 1) (u64_add id 2);
    st ← or_assign st bs_12 bs_24;
    or_assign st bs_13 bs_34
  else if id mod 3 =? 2 then
    bs_24 ← getInterface st (u64_sub id 1) (u64_add id 1);
    bs_34 ← getInterface st id (u64_add id 1);
    st ← or_assign st bs_24 bs_34;
    putInterface st id (u64_add id 1) bs_24
  else mret st.

Definition zigzag_opt : optimiser := fun system_size id st =>
  if id =? system_size then mret st
  else if id mod 3 =? 1 then
    bs_12 ← getInterface st (u64_sub id 1) id;
    bs_23 ← getInterface st id (u64_add id 1);
    or_assign st bs_12 bs_23
  else if id mod 3 =? 2 then
    bs_23 ← getInterface st (u64_sub id 1) id;
    bs_13 ← getInterface st (u64_sub id 2) id;
    bs_34 ← getInterface st id (u64_add id 1);
    st ← or_assign st bs_23 bs_13;
    st ← or_assign st bs_23 bs_34;
    mret (erase st (u64_sub id 2, id))
  else
    bs_34 ← getInterface st (u64_sub id 1) id;
    bs_24 ← getInterface st (u64_sub id 2) id;
    st ← or_assign st bs_34 bs_24;
    mret (erase st (u64_sub id 2, id)).

Definition ring_opt : optimiser := fun system_size id st =>
  if id =? system_size then mret st
  else
    st ← (if 1 <? system_size then
            bs_this_next ← getInterface st (u64_sub id 1) id;
            bs_n_1 ← getInterface st (u64_sub system_size 1) 0;
            or_assign st bs_this_next bs_n_1
          else mret st);
    mret (if id =? 1 then erase st (u64_sub system_size 1, 0) else st).

(** The edge to the child house carries the interface of its first wall. *)
Definition house_child_opt (system_size id child_id : N) (st : interfaces) : res interfaces :=
  if child_id <? system_size then
    bs_p2 ← getInterface st (u64_sub id 1) (u64_sub child_id 1);
    bs_23 ← getInterface st (u64_sub child_id 1) child_id;
    or_assign st bs_p2 bs_23
  else mret st.

Definition house_parent (id : N) : N :=
  let house_id := u64_add id 2 / 4 in
  if house_id mod 2 =? 0 then u64_mul 2 (u64_add (u64_sub id 2 / 4) 1)
  else if negb (id =? 2) then u64_add (u64_mul 2 (u64_add (u64_sub id 5 / 4) 1)) 1
  else 1.

Definition house_opt : optimiser := fun system_size id st =>
  if id =? 1 then
    bs_12 ← getInterface st (u64_sub id 1) id;
    bs_23 ← getInterface st id (u64_add id 1);
    or_assign st bs_12 bs_23
  else if id mod 4 =? 2 then
    let parent_id := house_parent id in
    bs_23 ← getInterface st (u64_sub id 1) id;
    bs_p3 ← getInterface st (u64_sub parent_id 1) id;
    bs_30 ← getInterface st id (u64_add id 1);
    st ← or_assign st bs_23 bs_p3;
    st ← or_assign st bs_23 bs_30;
    mret (erase st (u64_sub parent_id 1, id))
  else if id mod 4 =? 3 then
    bs_30 ← getInterface st (u64_sub id 1) id;
    bs_01 ← getInterface st id (u64_add id 1);
    or_assign st bs_30 bs_01
  else if id mod 4 =? 0 then
    bs_01 ← getInterface st (u64_sub id 1) id;
    bs_12 ← getInterface st id (u64_sub id 3);
    st ← or_assign st bs_01 bs_12;
    let st := erase st (id, u64_sub id 3) in
    house_child_opt system_size id
      (u64_add (u64_add id (u64_mul (u64_sub (id / 4) 1) 4)) 2) st
  else
    house_child_opt system_size id
      (u64_add (u64_add id (u64_mul (u64_sub (id / 4) 1) 4)) 5) st.

(** [a] takes up the interfaces of the three edges that will be removed. *)
Definition absorb_three (st : interfaces) (a bs_2a bs_2b bs_2c : loc) : res interfaces :=
  st ← or_assign st a bs_2a;
  st ← or_assign st a bs_2b;
  or_assign st a bs_2c.

Definition multiple_ring_opt : optimiser := fun system_size id st =>
  let earLoopSize := u64_add system_size 3 / 3 in
  let secondLoopJump := u64_sub earLoopSize 1 in
  let firstLoopEnd := u64_sub (u64_add (u64_add 2 earLoopSize) earLoopSize) 3 in
  if (id =? firstLoopEnd) || (id =? system_size) then mret st
  else
    bs_2a ← getInterface st (u64_sub firstLoopEnd 1) 2;
    bs_2b ← getInterface st earLoopSize 0;
    bs_2c ← getInterface st (u64_sub system_size 1) (u64_sub earLoopSize 1);
    st ← (if id =? u64_add earLoopSize 1 then
            bs_11 ← getInterface st (u64_sub id 1) (u64_sub (u64_add id secondLoopJump) 1);
            absorb_three st bs_11 bs_2a bs_2b bs_2c
          else
            bs_12 ← getInterface st (u64_sub id 1) id;
            absorb_three st bs_12 bs_2a bs_2b bs_2c);
    st ← (if id =? 2 then
            bs_11 ← getInterface st (u64_sub id 1) (u64_sub (u64_add id earLoopSize) 1);
            absorb_three st bs_11 bs_2a bs_2b bs_2c
          else mret st);
    mret (if id =? 1 then
            erase (erase (erase st (u64_sub firstLoopEnd 1, 2)) (earLoopSize, 0))
                  (u64_sub system_size 1, u64_sub earLoopSize 1)
          else st).

(** ** The program *)

(** [OptTopologyGenerator::create_opt_interface()] *)
Definition create_opt_interface (opt : optimiser) (system_size : N) (st : interfaces) : res interfaces :=
  foldM (fun st i => opt system_size i st) st (reverse (nrange 1 (system_size + 1))).

(** The copy of an interface map: every belief state gets a location of its
    own. *)
Definition copy_interface (st : interfaces) (e : ContextPair * NewBeliefState) : res interfaces :=
  bs ← bs_assign bs_default e.2;
  let l := fresh (dom (heap st)) in
  mret (mk_ifs (<[e.1 := l]> (lcim st)) (<[l := bs]> (heap st))).

Definition copy_interfaces (orig : gmap ContextPair NewBeliefState) : res interfaces :=
  foldM copy_interface (mk_ifs ∅ ∅) (map_to_list orig).

Definition topology_optimiser (topology_type : N) : option optimiser :=
  match topology_type with
  | DIAMOND_DOWN_TOPOLOGY => Some diamond_opt
  | DIAMOND_ZIGZAG_TOPOLOGY => Some zigzag_opt
  | PURE_RING_TOPOLOGY => Some ring_opt
  | HOUSE_TOPOLOGY => Some house_opt
  | MULTIPLE_RING_TOPOLOGY => Some multiple_ring_opt
  | _ => None
  end.

Definition generate_opt_topology (topology_type no_contexts : N)
    (orig : gmap ContextPair NewBeliefState) : res interfaces :=
  opt_lcim ← copy_interfaces orig;
  if topology_type =? BINARY_TREE_TOPOLOGY then mret opt_lcim
  else
    opt_topo_gen ← not_null (topology_optimiser topology_type);
    create_opt_interface opt_topo_gen no_contexts opt_lcim.

(** ** What a step does

    A step may remove edges and lets edges take up the interfaces of others;
    nothing is lost on the edges that stay, and nothing is invented. *)

(** The edge [k] carries the belief at position [p]. *)
Definition carries (st : interfaces) (p : N) (k : ContextPair) : Prop :=
  exists l bs, lcim st !! k = Some l /\ heap st !! l = Some bs /\ truth bs p = DMCS_TRUE.

Definition present (st : interfaces) (k : ContextPair) : Prop := is_Some (lcim st !! k).

Section steps.
Context (m : N).

Definition ifs_wf (st : interfaces) : Prop :=
  forall k l, lcim st !! k = Some l -> exists bs, heap st !! l = Some bs /\ bs_wf m bs.

(** The pairs of [ab] are the edges that take up and what they take up. *)
Record step_spec (er : list ContextPair) (ab : list (ContextPair * ContextPair))
    (st st' : interfaces) : Prop := {
  step_wf : ifs_wf st';
  step_keys k : present st' k <-> present st k /\ k ∉ er;
  step_keeps p k : present st' k -> carries st p k -> carries st' p k;
  step_absorbs p k src : present st' k -> (k, src) ∈ ab -> carries st p src -> carries st' p k;
  step_source p k : carries st' p k -> exists k', carries st p k'
}.

Lemma step_refl st : ifs_wf st -> step_spec [] [] st st.
Proof.
  intros Hwf. split; try done.
  - intros k. rewrite elem_of_nil. tauto.
  - intros p k src _ H. by apply elem_of_nil in H.
  - eauto.
Qed.

Lemma step_seq er1 ab1 er2 ab2 st st1 st2 :
  step_spec er1 ab1 st st1 -> step_spec er2 ab2 st1 st2 ->
  (forall k src, (k, src) ∈ ab2 -> present st1 src) ->
  step_spec (er1 ++ er2) (ab1 ++ ab2) st st2.
Proof.
  intros [W1 K1 C1 A1 S1] [W2 K2 C2 A2 S2] Hsrc. split.
  - done.
  - intros k. rewrite K2, K1, elem_of_app. tauto.
  - intros p k Hk Hc. pose proof Hk as [? _]%K2. eauto.
  - intros p k src Hk [Hin|Hin]%elem_of_app Hc; pose proof Hk as [? _]%K2; eauto.
  - intros p k [k' Hk]%S2. eauto.
Qed.

Lemma or_assign_spec st ka kb la lb :
  ifs_wf st -> lcim st !! ka = Some la -> lcim st !! kb = Some lb ->
  exists st', or_assign st la lb = Ok st' /\ lcim st' = lcim st /\ step_spec [] [(ka, kb)] st st'.
Proof.
  intros Hwf Ha Hb. destruct (Hwf _ _ Ha) as (x & Hx & Wx), (Hwf _ _ Hb) as (y & Hy & Wy).
  unfold or_assign. rewrite Hx, Hy. cbn. eexists. split; [done|]. split; [done|].
  assert (Hor : forall p, truth (bs_or x y) p = DMCS_TRUE <-> truth x p = DMCS_TRUE \/ truth y p = DMCS_TRUE).
  { intros p. rewrite (truth_or m) by done. destruct (truth x p), (truth y p); cbn; intuition congruence. }
  split.
  - intros k l Hk. cbn in *. destruct (decide (l = la)) as [->|].
    + rewrite lookup_insert_eq. eexists. split; [done|by apply wf_or].
    + rewrite lookup_insert_ne by done. eauto.
  - intros k. rewrite elem_of_nil. unfold present. cbn. tauto.
  - intros p k _ (l & bs & Hl & Hbs & Ht). exists l. cbn. destruct (decide (l = la)) as [->|].
    + rewrite lookup_insert_eq. eexists. split; [done|]. split; [done|]. apply Hor. left. congruence.
    + rewrite lookup_insert_ne by done. eauto.
  - intros p k src _ [= -> ->]%list_elem_of_singleton (l & bs & Hl & Hbs & Ht).
    exists la. cbn. rewrite lookup_insert_eq. eexists. split; [done|]. split; [done|].
    apply Hor. right. congruence.
  - intros p k (l & bs & Hl & Hbs & Ht). cbn in *. destruct (decide (l = la)) as [->|].
    + rewrite lookup_insert_eq in Hbs. injection Hbs as <-. apply Hor in Ht as [Ht|Ht].
      * exists ka, la, x. done.
      * exists kb, lb, y. done.
    + rewrite lookup_insert_ne in Hbs by done. exists k, l, bs. done.
Qed.

Lemma erase_spec st k : ifs_wf st -> step_spec [k] [] st (erase st k).
Proof.
  intros Hwf. split; unfold present, carries, ifs_wf, erase; cbn [lcim heap].
  - intros k' l [_ H]%lookup_delete_Some. by eapply Hwf.
  - intros k'. rewrite list_elem_of_singleton. destruct (decide (k' = k)) as [->|].
    + rewrite lookup_delete_eq. split; [by intros [? [=]]|tauto].
    + rewrite lookup_delete_ne by done. tauto.
  - intros p k' [l' [Hk Hl]%lookup_delete_Some] (l & bs & Hl' & ? & ?). exists l, bs.
    rewrite lookup_delete_ne by done. done.
  - intros p k' src _ H. by apply elem_of_nil in H.
  - intros p k' (l & bs & [_ Hl]%lookup_delete_Some & ? & ?). by exists k', l, bs.
Qed.

(** Two edges that take up each other and share their belief state. *)
Lemma share_spec st a b ka la lb :
  ifs_wf st -> lcim st !! ka = Some la -> lcim st !! (a, b) = Some lb ->
  exists st', (st1 ← or_assign st la lb; putInterface st1 a b la) = Ok st' /\
    step_spec [] [(ka, (a, b)); ((a, b), ka)] st st'.
Proof.
  intros Hwf Ha Hb. destruct (or_assign_spec st ka (a, b) la lb Hwf Ha Hb) as (st1 & -> & Hl & [W K C A S]).
  rsimpl. unfold putInterface. rewrite Hl, Hb. rewrite bool_decide_eq_true_2 by eauto.
  change (assert true) with (Ok tt). rsimpl. eexists. split; [done|].
  assert (Hka : lcim (mk_ifs (<[(a, b):=la]> (lcim st)) (heap st1)) !! ka = Some la).
  { cbn. destruct (decide (ka = (a, b))) as [->|]; [apply lookup_insert_eq|by rewrite lookup_insert_ne]. }
  assert (Hal : forall k p, carries st1 p ka -> k = ka \/ k = (a, b) ->
    carries (mk_ifs (<[(a, b):=la]> (lcim st)) (heap st1)) p k).
  { intros k p (l & bs & Hl' & Hbs & Ht) Hk. rewrite Hl in Hl'. exists la, bs. cbn.
    replace la with l in * by congruence. split; [|done].
    destruct Hk as [->| ->]; [done|apply lookup_insert_eq]. }
  assert (Hpres : forall k, present (mk_ifs (<[(a, b):=la]> (lcim st)) (heap st1)) k <-> present st k).
  { intros k. unfold present. cbn. destruct (decide (k = (a, b))) as [->|].
    - rewrite lookup_insert_eq, Hb. split; eauto.
    - by rewrite lookup_insert_ne. }
  assert (Hkeep : forall p k, carries st p k -> carries (mk_ifs (<[(a, b):=la]> (lcim st)) (heap st1)) p k).
  { intros p k Hc. destruct (decide (k = (a, b))) as [->|].
    - apply Hal; [|by right]. eapply A; [|by left|done]. apply K. rewrite elem_of_nil. split; [by exists la|tauto].
    - apply C in Hc as (l & bs & Hl' & ? & ?).
      + exists l, bs. cbn. rewrite lookup_insert_ne, <- Hl by done. done.
      + apply K. rewrite elem_of_nil. destruct Hc as (l & ? & Hl' & _). split; [by exists l|tauto]. }
  split.
  - intros k l Hk. cbn in *. destruct (decide (k = (a, b))) as [->|].
    + rewrite lookup_insert_eq in Hk. injection Hk as <-. apply (W ka). by rewrite Hl.
    + rewrite lookup_insert_ne, <- Hl in Hk by done. by eapply W.
  - intros k. rewrite elem_of_nil, Hpres. tauto.
  - auto.
  - assert (Hpka : present st1 ka) by (exists la; by rewrite Hl).
    intros p k src _ Hin Hc. apply elem_of_cons in Hin as [[= -> ->]|Hin].
    + apply Hal; [|by left]. eapply A; [done|by left|done].
    + apply list_elem_of_singleton in Hin as [= -> ->]. apply Hal; [|by right]. by apply C.
  - intros p k (l & bs & Hl' & Hbs & Ht). cbn in *. destruct (decide (k = (a, b))) as [->|].
    + rewrite lookup_insert_eq in Hl'. injection Hl' as <-. apply (S p ka). exists la, bs. by rewrite Hl.
    + rewrite lookup_insert_ne, <- Hl in Hl' by done. apply (S p k). by exists l, bs.
Qed.

Lemma or_assign_bind st ka kb la lb f er ab :
  ifs_wf st -> lcim st !! ka = Some la -> lcim st !! kb = Some lb ->
  (forall st1, lcim st1 = lcim st -> ifs_wf st1 -> exists st', f st1 = Ok st' /\ step_spec er ab st1 st') ->
  (forall k src, (k, src) ∈ ab -> present st src) ->
  exists st', (or_assign st la lb ≫= f) = Ok st' /\ step_spec er ((ka, kb) :: ab) st st'.
Proof.
  intros W Ha Hb Hf Hsrc. destruct (or_assign_spec st ka kb la lb W Ha Hb) as (st1 & -> & L & S).
  rsimpl. destruct (Hf st1 L (step_wf _ _ _ _ S)) as (st' & E & S'). exists st'. split; [done|].
  apply (step_seq [] [(ka, kb)] er ab st st1 st' S S'). intros k src H. unfold present. rewrite L. by eapply Hsrc.
Qed.

Lemma erase_ok st k : ifs_wf st -> exists st', mret (erase st k) = Ok st' /\ step_spec [k] [] st st'.
Proof. intros W. eexists. split; [done|]. by apply erase_spec. Qed.

Lemma refl_ok st : ifs_wf st -> exists st', mret st = Ok st' /\ step_spec [] [] st st'.
Proof. intros W. exists st. split; [done|]. by apply step_refl. Qed.

Lemma or_assign_last st ka kb la lb :
  ifs_wf st -> lcim st !! ka = Some la -> lcim st !! kb = Some lb ->
  exists st', or_assign st la lb = Ok st' /\ step_spec [] [(ka, kb)] st st'.
Proof. intros W Ha Hb. destruct (or_assign_spec st ka kb la lb W Ha Hb) as (st' & E & _ & S). eauto. Qed.

(** The copy has the edges and beliefs of the original. *)
Record copy_of (orig : list (ContextPair * NewBeliefState)) (st : interfaces) : Prop := {
  copy_wf : ifs_wf st;
  copy_heap k l : lcim st !! k = Some l -> l ∈ dom (heap st);
  copy_keys k : present st k <-> exists bs, (k, bs) ∈ orig;
  copy_carries p k : carries st p k <-> exists bs, (k, bs) ∈ orig /\ truth bs p = DMCS_TRUE
}.

Lemma bs_assign_copy a bs : bs_wf m bs -> bs_assign a bs = Ok bs.
Proof.
  intros Hwf. unfold bs_assign. rewrite (wf_status_size _ _ Hwf), (wf_value_size _ _ Hwf), N.eqb_refl.
  change (assert true) with (Ok tt). rsimpl. rewrite !assign_eq. by destruct bs.
Qed.

Lemma copy_interface_ok done k bs st :
  copy_of done st -> bs_wf m bs -> (forall bs', (k, bs') ∉ done) ->
  exists st', copy_interface st (k, bs) = Ok st' /\ copy_of (done ++ [(k, bs)]) st'.
Proof.
  intros [W Hd K C] Hbs Hnew. unfold copy_interface. cbn [fst snd]. rewrite bs_assign_copy by done.
  rsimpl. eexists. split; [done|]. pose proof (is_fresh (dom (heap st))) as Hf.
  set (l := fresh (dom (heap st))) in *.
  assert (Hother : forall k' l', lcim st !! k' = Some l' -> l' <> l).
  { intros k' l' H ->. apply Hf. by eapply Hd. }
  split; unfold ifs_wf, present, carries; cbn [lcim heap].
  - intros k' l' [[-> <-]|[Hk Hl]]%lookup_insert_Some.
    + rewrite lookup_insert_eq. eauto.
    + rewrite lookup_insert_ne by (symmetry; eauto). eauto.
  - intros k' l' [[-> <-]|[Hk Hl]]%lookup_insert_Some; rewrite dom_insert; [set_solver|].
    apply Hd in Hl. set_solver.
  - intros k'. destruct (decide (k' = k)) as [->|Hk].
    + rewrite lookup_insert_eq. split; [|eauto]. intros _. exists bs. apply elem_of_app. right. left.
    + rewrite lookup_insert_ne by done. fold (present st k'). rewrite K. split; intros [b Hb]; exists b.
      * apply elem_of_app. by left.
      * apply elem_of_app in Hb as [?|[= ??]%list_elem_of_singleton]; [done|congruence].
  - intros p k'. destruct (decide (k' = k)) as [->|Hk].
    + rewrite lookup_insert_eq. split.
      * intros (l' & bs' & [= <-] & Hl & Ht). rewrite lookup_insert_eq in Hl. injection Hl as <-.
        exists bs. split; [|done]. apply elem_of_app. right. left.
      * intros (b & [Hb|[= ->]%list_elem_of_singleton]%elem_of_app & Ht); [by apply Hnew in Hb|].
        exists l, bs. rewrite lookup_insert_eq. done.
    + rewrite lookup_insert_ne by done. transitivity (carries st p k').
      { split; intros (l' & b & Hl & Hb & Ht); exists l', b; pose proof (Hother _ _ Hl);
          [rewrite lookup_insert_ne in Hb by done|rewrite lookup_insert_ne by done]; done. }
      rewrite C. split; intros (b & Hb & Ht); exists b; (split; [|done]).
      * apply elem_of_app. by left.
      * apply elem_of_app in Hb as [?|[= ??]%list_elem_of_singleton]; [done|congruence].
Qed.

Lemma copy_interfaces_ok orig :
  (forall k bs, orig !! k = Some bs -> bs_wf m bs) ->
  exists st, copy_interfaces orig = Ok st /\ ifs_wf st /\
    (forall k, present st k <-> is_Some (orig !! k)) /\
    (forall p k, carries st p k <-> exists bs, orig !! k = Some bs /\ truth bs p = DMCS_TRUE).
Proof.
  intros Hwf. unfold copy_interfaces.
  enough (exists st, foldM copy_interface (mk_ifs ∅ ∅) (map_to_list orig) = Ok st /\
    copy_of (map_to_list orig) st) as (st & -> & [W _ K C]).
  { exists st. split; [done|]. split; [done|]. split.
    - intros k. rewrite K. by setoid_rewrite elem_of_map_to_list.
    - intros p k. rewrite C. by setoid_rewrite elem_of_map_to_list. }
  assert (Hl : forall k bs, (k, bs) ∈ map_to_list orig -> bs_wf m bs).
  { intros k bs H%elem_of_map_to_list. eauto. }
  pose proof (NoDup_fst_map_to_list orig) as Hnd. revert Hl Hnd.
  generalize (map_to_list orig). intros l. clear orig Hwf.
  induction l as [|[k bs] l IH] using rev_ind; intros Hl Hnd.
  - eexists. split; [done|]. split; unfold ifs_wf, present, carries; cbn.
    + intros k l H. by rewrite lookup_empty in H.
    + intros k l H. by rewrite lookup_empty in H.
    + intros k. rewrite lookup_empty. split; [by intros [? [=]]|intros (? & H); by apply elem_of_nil in H].
    + intros p k. split; [intros (? & ? & H & _); by rewrite lookup_empty in H
        |intros (? & H & _); by apply elem_of_nil in H].
  - rewrite fmap_app in Hnd. apply NoDup_app in Hnd as (Hnd & Hnew & _).
    destruct IH as (st & E & Hc); [|done|].
    { intros k' b H. apply (Hl k'). apply elem_of_app. by left. }
    rewrite foldM_app, E. rsimpl. cbn [foldM].
    destruct (copy_interface_ok l k bs st) as (st' & -> & Hc'); [done| | |by exists st'].
    + apply (Hl k). apply elem_of_app. right. left.
    + intros b Hb. apply (Hnew k); [|left]. apply list_elem_of_fmap. by exists (k, b).
Qed.

End steps.

(** ** Optimised plans *)

(** The interface of [k] in the original plan has the belief at [p]. *)
Definition wants (orig : gmap ContextPair NewBeliefState) (p : N) (k : ContextPair) : Prop :=
  exists bs, orig !! k = Some bs /\ truth bs p = DMCS_TRUE.

(** The contexts that have to agree on the belief of [b] at [p]: [b] itself
    and the contexts that ask [b] for it. *)
Definition concerned (orig : gmap ContextPair NewBeliefState) (p b x : N) : Prop :=
  x = b \/ wants orig p (x, b).

(** [st] is a plan for [n] contexts that can replace [orig]: it has no further
    edges, no cycle, reaches all contexts, asks for no less on its edges, for
    nothing that nobody wants, and any two contexts that have to agree on a
    belief get it from a common context, along edges that all carry it. *)
Record good_plan (n : N) (orig : gmap ContextPair NewBeliefState) (st : interfaces) : Prop := {
  plan_edges k : present st k -> is_Some (orig !! k);
  plan_acyclic a b : present st (a, b) -> a < b;
  plan_reach i : i < n -> rtc (fun a b => present st (a, b)) 0 i;
  plan_keeps p k : present st k -> wants orig p k -> carries st p k;
  plan_wanted p k : carries st p k -> exists k', wants orig p k';
  plan_agrees p b x y : concerned orig p b x -> concerned orig p b y ->
    exists c, rtc (fun a b => carries st p (a, b)) c x /\ rtc (fun a b => carries st p (a, b)) c y
}.

Lemma reach_by_parent n (R : N -> N -> Prop) :
  (forall i, 0 < i -> i < n -> exists p, p < i /\ R p i) -> forall i, i < n -> rtc R 0 i.
Proof.
  intros Hp i. induction i as [i IH] using (well_founded_induction N.lt_wf_0). intros Hi.
  destruct (decide (i = 0)) as [->|]; [constructor|].
  destruct (Hp i) as (p & ? & HR); [lia..|]. apply (rtc_r _ p); [apply IH; lia|done].
Qed.

Section plans.
Context (m n : N) (orig : gmap ContextPair NewBeliefState).
Context (er : N -> list ContextPair) (ab : N -> list (ContextPair * ContextPair)).

(** Edges left before step [j] of the loop, which counts down from [n]. *)
Definition live (j : N) (k : ContextPair) : Prop :=
  is_Some (orig !! k) /\ forall j', j < j' -> j' <= n -> k ∉ er j'.

(** What the steps after [j] bring to an edge. *)
Inductive given (p : N) : N -> ContextPair -> Prop :=
  | given_orig j k : wants orig p k -> given p j k
  | given_absorb j j' k src : j < j' -> j' <= n -> (k, src) ∈ ab j' -> given p j' src -> given p j k.

Definition opt_steps (opt : optimiser) : Prop :=
  forall id st, 1 <= id -> id <= n -> ifs_wf m st -> (forall k, live id k -> present st k) ->
  exists st', opt n id st = Ok st' /\ step_spec m (er id) (ab id) st st'.

Definition sources_live : Prop :=
  forall id k src, 1 <= id -> id <= n -> (k, src) ∈ ab id -> live id src.

(** The edges at the end, and those of them that are given [p]. *)
Definition stays (a b : N) : Prop := live 0 (a, b).
Definition brings (p a b : N) : Prop := live 0 (a, b) /\ given p 0 (a, b).

Record opt_inv (j : N) (st : interfaces) : Prop := {
  inv_wf : ifs_wf m st;
  inv_keys k : present st k <-> live j k;
  inv_given p k : present st k -> given p j k -> carries st p k;
  inv_source p k : carries st p k -> exists k', wants orig p k'
}.

Lemma live_step j k : 1 <= j -> j <= n -> live (j - 1) k <-> live j k /\ k ∉ er j.
Proof.
  intros H1 H2. unfold live. split.
  - intros [Ho He]. split; [split; [done|]|apply He; lia]. intros j' ??. apply He; lia.
  - intros [[Ho He] Hj]. split; [done|]. intros j' ??. destruct (decide (j' = j)) as [->|]; [done|].
    apply He; lia.
Qed.

Lemma opt_inv_step opt j st :
  opt_steps opt -> sources_live -> 1 <= j -> j <= n -> opt_inv j st ->
  exists st', opt n j st = Ok st' /\ opt_inv (j - 1) st'.
Proof.
  intros Hopt Hsrc H1 H2 [W K G S].
  destruct (Hopt j st) as (st' & E & [W' K' C' A' S']); [done..| |]. { intros k. by rewrite K. }
  exists st'. split; [done|]. split; [done| | |].
  - intros k. by rewrite K', K, live_step.
  - intros p k Hk Hg. inversion Hg as [?? Hw|? j' ? src Hlt Hle Hin Hg']; subst.
    + apply C'; [done|]. apply G; [|by constructor]. by apply K' in Hk as [? _].
    + destruct (decide (j' = j)) as [->|].
      * eapply A'; [done|done|]. apply G; [|done]. apply K. by eapply Hsrc.
      * apply C'; [done|]. apply G; [by apply K' in Hk as [? _]|].
        eapply given_absorb; [|done|done|done]. lia.
  - intros p k [k' Hk']%S'. eauto.
Qed.

(** An optimiser whose steps are right and whose remaining edges have the
    right shape makes a good plan. *)
Lemma optimised_plan opt :
  opt_steps opt -> sources_live ->
  (forall k bs, orig !! k = Some bs -> bs_wf m bs) ->
  (forall a b, stays a b -> a < b) ->
  (forall i, i < n -> rtc stays 0 i) ->
  (forall p b x y, concerned orig p b x -> concerned orig p b y ->
    exists c, rtc (brings p) c x /\ rtc (brings p) c y) ->
  exists st, (st0 ← copy_interfaces orig; create_opt_interface opt n st0) = Ok st /\ good_plan n orig st.
Proof.
  intros Hopt Hsrc Hwf Hup Hreach Hagree.
  destruct (copy_interfaces_ok m orig Hwf) as (st0 & -> & W0 & K0 & C0). rsimpl.
  destruct (foldM_nrange_down opt_inv (fun st i => opt n i st) st0 n) as (st & E & [W K G S]).
  - split; [done| | |].
    + intros k. rewrite K0. unfold live. split; [|tauto]. intros Hk. split; [done|]. lia.
    + intros p k Hk Hg. apply C0. inversion Hg; subst; [done|lia].
    + intros p k Hc%C0. by exists k.
  - intros i st H1 H2. by apply opt_inv_step.
  - exists st. split; [done|].
    assert (Hpath : forall p c x, rtc (brings p) c x -> rtc (fun a b => carries st p (a, b)) c x).
    { intros p c x H. apply (rtc_subrel (brings p)); [|done]. intros a b [Hl Hg].
      apply G; [by apply K|done]. }
    split.
    + intros k [Hk _]%K. done.
    + intros a b Hk%K. by apply Hup.
    + intros i Hi%Hreach. revert Hi. apply rtc_subrel. intros a b. apply K.
    + intros p k Hk Hw. apply G; [done|by constructor].
    + done.
    + intros p b x y Hx Hy. destruct (Hagree p b x y Hx Hy) as (c & ? & ?). exists c. auto.
Qed.

(** Agreement where at most one edge into a context stays, and every removed
    edge has a common context for all that are concerned. *)
Lemma agree_by_removed :
  (forall a a' b, stays a b -> stays a' b -> a = a') ->
  (forall p x b, wants orig p (x, b) -> ~ stays x b ->
    exists c, forall y, concerned orig p b y -> rtc (brings p) c y) ->
  (forall k, live 0 k \/ ~ live 0 k) ->
  forall p b x y, concerned orig p b x -> concerned orig p b y ->
  exists c, rtc (brings p) c x /\ rtc (brings p) c y.
Proof.
  intros Huniq Hrem Hdec p b x y Hx Hy.
  assert (Hcase : forall z, concerned orig p b z ->
    (exists c, forall y, concerned orig p b y -> rtc (brings p) c y) \/ z = b \/ brings p z b).
  { intros z [->|Hz]; [auto|]. destruct (Hdec (z, b)) as [Hl|Hl]; [|eauto].
    right. right. split; [done|by constructor]. }
  destruct (Hcase x Hx) as [[c Hc]|Hx']; [eauto|].
  destruct (Hcase y Hy) as [[c Hc]|Hy']; [eauto|].
  destruct Hx' as [->|Hxb], Hy' as [->|Hyb].
  - exists b. split; constructor.
  - exists y. split; [by apply rtc_once|constructor].
  - exists x. split; [constructor|by apply rtc_once].
  - replace y with x; [exists x; split; constructor|]. apply (Huniq x y b); [apply Hxb|apply Hyb].
Qed.

Lemma live_dec j k : live j k \/ ~ live j k.
Proof.
  clear m ab.
  destruct (decide (is_Some (orig !! k))) as [Ho|Ho]; [|right; by intros [? _]].
  destruct (decide (Forall (fun j' => k ∉ er j') (nrange (j + 1) (n + 1)))) as [Hf|Hf].
  - left. split; [done|]. intros j' ??. rewrite Forall_forall in Hf. apply Hf, elem_of_nrange. lia.
  - right. intros [_ He]. apply Hf, Forall_forall. intros j' [??]%elem_of_nrange. apply He; lia.
Qed.

End plans.

End OptTopologies.
