(* ===== verification/OptPlans.v ===== *)
(** * The optimised plan of each topology

    For each topology with an optimiser, the edges a step of
    [create_opt_interface] removes and what the remaining ones take up, the
    proof that the code does just that, and the proof that the result is a good
    plan: acyclic, connected, and carrying every belief to the contexts that
    have to agree on it. *)

From S2P Require Import Prelude BitMagic BeliefState Topologies OptTopologies.
From stdpp Require Import relations.
Import BitMagic BeliefState Topologies OptTopologies.

#[local] Open Scope N_scope.
#[local] Ltac Zify.zify_post_hook ::= Z.to_euclidean_division_equations.

Module OptPlans.

(** The original map has an entry for every edge of the topology. *)
Definition covers (n : N) (row : N -> list N) (orig : gmap ContextPair NewBeliefState) : Prop :=
  forall i j, is_Some (orig !! (i, j)) <-> i < n /\ j + 1 ∈ row (i + 1).

(** Membership of pairs in the lists of a step is arithmetic. *)
Ltac pairs := rewrite ?elem_of_cons, ?elem_of_nil, ?pair_equal_spec.
Ltac pairs_in H := rewrite ?elem_of_cons, ?elem_of_nil, ?pair_equal_spec in H.

Lemma getInterface_ok st a b l : lcim st !! (a, b) = Some l -> getInterface st a b = Ok l.
Proof. intros H. unfold getInterface. by rewrite H. Qed.

Section topologies.
Context (m n : N) (orig : gmap ContextPair NewBeliefState).
Context (Hn : 2 * n + 8 < W64) (Hwf : forall k bs, orig !! k = Some bs -> bs_wf m bs).

Lemma live_intro row er j a b :
  covers n row orig -> a < n -> b + 1 ∈ row (a + 1) ->
  (forall j', j < j' -> j' <= n -> (a, b) ∉ er j') -> live n orig er j (a, b).
Proof. intros Hc Ha Hb He. split; [|done]. by apply Hc. Qed.

(** The edges that step [id] removes, and what edges take up there. *)

Definition diamond_er (id : N) : list ContextPair := [].

Definition diamond_ab (id : N) : list (ContextPair * ContextPair) :=
  if id =? n then []
  else if id mod 3 =? 1 then [((id - 1, id), (id, id + 2)); ((id - 1, id + 1), (id + 1, id + 2))]
  else if id mod 3 =? 2 then [((id - 1, id + 1), (id, id + 1)); ((id, id + 1), (id - 1, id + 1))]
  else [].

Definition zigzag_er (id : N) : list ContextPair :=
  if id =? n then [] else if id mod 3 =? 1 then [] else [(id - 2, id)].

Definition zigzag_ab (id : N) : list (ContextPair * ContextPair) :=
  if id =? n then []
  else if id mod 3 =? 1 then [((id - 1, id), (id, id + 1))]
  else if id mod 3 =? 2 then [((id - 1, id), (id - 2, id)); ((id - 1, id), (id, id + 1))]
  else [((id - 1, id), (id - 2, id))].

Definition ring_er (id : N) : list ContextPair := if id =? 1 then [(n - 1, 0)] else [].

Definition ring_ab (id : N) : list (ContextPair * ContextPair) :=
  if id =? n then [] else [((id - 1, id), (n - 1, 0))].

(** The context that leads to the house whose first wall starts at [id]. *)
Definition leads_to (id : N) : N :=
  if id =? 2 then 1 else if id mod 8 =? 2 then id / 2 else id / 2 + 1.

Definition house_er (id : N) : list ContextPair :=
  if id =? 1 then [] else if id mod 4 =? 2 then [(leads_to id - 1, id)]
  else if id mod 4 =? 0 then [(id, id - 3)] else [].

Definition house_ab (id : N) : list (ContextPair * ContextPair) :=
  if id =? 1 then [((0, 1), (1, 2))]
  else if id mod 4 =? 2 then [((id - 1, id), (leads_to id - 1, id)); ((id - 1, id), (id, id + 1))]
  else if id mod 4 =? 3 then [((id - 1, id), (id, id + 1))]
  else if id mod 4 =? 0 then
    ((id - 1, id), (id, id - 3)) ::
    if 2 * id - 2 <? n then [((id - 1, 2 * id - 3), (2 * id - 3, 2 * id - 2))] else []
  else if 2 * id <? n then [((id - 1, 2 * id - 1), (2 * id - 1, 2 * id))] else [].

Definition multiple_removed : list ContextPair := [(2 * ear n - 2, 2); (ear n, 0); (n - 1, ear n - 1)].

Definition multiple_er (id : N) : list ContextPair := if id =? 1 then multiple_removed else [].

(** The edge that takes up at step [id]. *)
Definition multiple_target (id : N) : ContextPair :=
  if id =? ear n + 1 then (ear n, 2 * ear n - 1) else (id - 1, id).

Definition multiple_ab (id : N) : list (ContextPair * ContextPair) :=
  if (id =? 2 * ear n - 1) || (id =? n) then []
  else map (pair (multiple_target id)) multiple_removed
    ++ if id =? 2 then map (pair (1, ear n + 1)) multiple_removed else [].

Ltac topo_unfold := unfold diamond_row, diamond_er, diamond_ab, zigzag_row, zigzag_er, zigzag_ab,
  ring_row, ring_er, ring_ab, house_row, house_er, house_ab, leads_to, multiple_row, multiple_er, multiple_removed.

(** An edge of the topology that no later step removes. *)
Ltac live_by Hc :=
  eapply live_intro; [exact Hc|lia|topo_unfold; gen_cases; pairs; lia|
    let j := fresh in intros j ??; topo_unfold; gen_cases; pairs; lia].

Ltac get_if Hl Hc a b E :=
  let l := fresh "l" in destruct (Hl (a, b)) as [l E]; [live_by Hc|].

Ltac getting := gen_arith; repeat (erewrite getInterface_ok by eassumption; rsimpl).

(** A chain of updates, after the edges it uses have been looked up. *)
Ltac known := repeat match goal with H : lcim ?a = _ |- context [lcim ?a] => rewrite H end; eassumption.

Ltac updates := first
  [ apply refl_ok; assumption
  | apply erase_ok; assumption
  | eapply or_assign_last; [assumption|known|known]
  | eapply or_assign_bind; [assumption|known|known|intros ???; updates|];
    let H := fresh in intros ?? H; rewrite ?elem_of_cons, ?elem_of_nil in H; unfold present;
    destruct_or? H; try done; injection H as -> ->; eexists; known ].

Lemma zigzag_steps :
  1 < n -> n mod 3 = 1 -> covers n (zigzag_row n) orig -> opt_steps m n orig zigzag_er zigzag_ab zigzag_opt.
Proof.
  intros H1 H3 Hc id st Hi Hin W Hl.
  destruct (N.eqb_spec id n) as [->|].
  { unfold zigzag_opt, zigzag_er, zigzag_ab. rewrite N.eqb_refl. updates. }
  get_if Hl Hc (id - 1) id E12. unfold zigzag_opt, zigzag_er, zigzag_ab.
  destruct (N.eqb_spec (id mod 3) 1); [|get_if Hl Hc (id - 2) id E13; destruct (N.eqb_spec (id mod 3) 2)];
    [get_if Hl Hc id (id + 1) E23..|]; rewrite (proj2 (N.eqb_neq id n)) by done; getting; updates.
Qed.

Ltac absorb_at j a b := apply (given_absorb _ _ _ _ _ j _ (a, b)); [lia|lia|topo_unfold; gen_cases; pairs; lia|].

Section zigzag.
Context (H1 : 1 < n) (H3 : n mod 3 = 1) (Hc : covers n (zigzag_row n) orig).

Lemma zigzag_edge a b : is_Some (orig !! (a, b)) -> b < n /\ (b = a + 1 \/ (b = a + 2 /\ (a + 1) mod 3 <> 0)).
Proof. intros [Ha Hb]%Hc. unfold zigzag_row in Hb. row_cases; lia. Qed.

Lemma zigzag_stays a b : live n orig zigzag_er 0 (a, b) <-> b = a + 1 /\ b < n.
Proof.
  split.
  - intros [Ho He]. apply zigzag_edge in Ho. specialize (He b). unfold zigzag_er in He.
    row_cases; rewrite ?pair_equal_spec in He; lia.
  - intros [-> Hb]. live_by Hc.
Qed.

Lemma zigzag_plan :
  exists st, (st0 ← copy_interfaces orig; create_opt_interface zigzag_opt n st0) = Ok st /\ good_plan n orig st.
Proof.
  apply (optimised_plan m n orig zigzag_er zigzag_ab); try done.
  - by apply zigzag_steps.
  - intros id k src ?? H. unfold zigzag_ab in H. row_cases; rewrite ?pair_equal_spec in H;
      destruct_or? H; try done; destruct H as [-> ->]; live_by Hc.
  - intros a b [-> _]%zigzag_stays. lia.
  - apply reach_by_parent. intros i ??. exists (i - 1). split; [lia|]. apply zigzag_stays. lia.
  - apply agree_by_removed; [|intros p x b Hw Hs|apply live_dec].
    + intros a a' b [-> _]%zigzag_stays [? _]%zigzag_stays. lia.
    + exists x. pose proof Hw as (bs & Ho & _).
      destruct (zigzag_edge x b) as [Hb [->|[-> Hm]]]; [by eexists| |].
      { exfalso. apply Hs, zigzag_stays. lia. }
      assert (R1 : brings n orig zigzag_er zigzag_ab p x (x + 1)).
      { split; [apply zigzag_stays; lia|]. absorb_at (x + 1) (x + 1) (x + 2). absorb_at (x + 2) x (x + 2). by constructor. }
      assert (R2 : brings n orig zigzag_er zigzag_ab p (x + 1) (x + 2)).
      { split; [apply zigzag_stays; lia|]. absorb_at (x + 2) x (x + 2). by constructor. }
      intros y [->|(bs' & Hy & _)].
      * apply (rtc_l _ _ (x + 1)); [done|by apply rtc_once].
      * destruct (zigzag_edge y (x + 2)) as [_ Hy']; [by eexists|].
        assert (y = x \/ y = x + 1) as [->| ->] by lia; [constructor|by apply rtc_once].
Qed.

End zigzag.

(** *** The ring *)

Section ring.
Context (H1 : 1 < n) (Hc : covers n (ring_row n) orig).

Lemma ring_steps : opt_steps m n orig ring_er ring_ab ring_opt.
Proof.
  intros id st Hi Hin W Hl. destruct (N.eqb_spec id n) as [->|].
  { unfold ring_opt, ring_er, ring_ab. rewrite N.eqb_refl. gen_cases; [lia|updates]. }
  get_if Hl Hc (id - 1) id E1. get_if Hl Hc (n - 1) 0 E2. unfold ring_opt, ring_er, ring_ab.
  rewrite (proj2 (N.eqb_neq id n)), (proj2 (N.ltb_lt 1 n)) by done. getting. gen_cases; updates.
Qed.

Lemma ring_edge_cases a b : is_Some (orig !! (a, b)) -> (b = a + 1 /\ b < n) \/ (a = n - 1 /\ b = 0).
Proof. intros [Ha Hb]%Hc. unfold ring_row in Hb. row_cases; lia. Qed.

Lemma ring_stays a b : live n orig ring_er 0 (a, b) <-> b = a + 1 /\ b < n.
Proof.
  split.
  - intros [Ho He]. apply ring_edge_cases in Ho. specialize (He 1). unfold ring_er in He.
    row_cases; rewrite ?pair_equal_spec in He; lia.
  - intros [-> Hb]. live_by Hc.
Qed.

Lemma ring_plan :
  exists st, (st0 ← copy_interfaces orig; create_opt_interface ring_opt n st0) = Ok st /\ good_plan n orig st.
Proof.
  apply (optimised_plan m n orig ring_er ring_ab); try done.
  - apply ring_steps.
  - intros id k src ?? H. unfold ring_ab in H. row_cases; rewrite ?pair_equal_spec in H;
      destruct_or? H; try done; destruct H as [-> ->]; live_by Hc.
  - intros a b [-> _]%ring_stays. lia.
  - apply reach_by_parent. intros i ??. exists (i - 1). split; [lia|]. apply ring_stays. lia.
  - apply agree_by_removed; [|intros p x b Hw Hs|apply live_dec].
    + intros a a' b [-> _]%ring_stays [? _]%ring_stays. lia.
    + exists 0. pose proof Hw as (bs & Ho & _).
      destruct (ring_edge_cases x b) as [Hb|[-> ->]]; [by eexists|by destruct Hs; apply ring_stays|].
      intros y Hy. apply (reach_by_parent n).
      * intros i ??. exists (i - 1). split; [lia|]. split; [apply ring_stays; lia|].
        absorb_at i (n - 1) 0. by constructor.
      * destruct Hy as [->|(bs' & Hy & _)]; [lia|].
        destruct (ring_edge_cases y 0); [by eexists|lia..].
Qed.

End ring.

(** *** Diamonds *)

Section diamond.
Context (H1 : 1 < n) (H3 : n mod 3 = 1) (Hc : covers n (diamond_row n) orig).

Lemma diamond_steps : opt_steps m n orig diamond_er diamond_ab diamond_opt.
Proof.
  intros id st Hi Hin W Hl. destruct (N.eqb_spec id n) as [->|].
  { unfold diamond_opt, diamond_er, diamond_ab. rewrite N.eqb_refl. updates. }
  unfold diamond_opt, diamond_er, diamond_ab. rewrite (proj2 (N.eqb_neq id n)) by done.
  destruct (N.eqb_spec (id mod 3) 1); [|destruct (N.eqb_spec (id mod 3) 2)].
  - get_if Hl Hc (id - 1) id E1. get_if Hl Hc (id - 1) (id + 1) E2.
    get_if Hl Hc id (id + 2) E3. get_if Hl Hc (id + 1) (id + 2) E4. getting. updates.
  - get_if Hl Hc (id - 1) (id + 1) E1. get_if Hl Hc id (id + 1) E2. getting. by apply share_spec.
  - updates.
Qed.

Lemma diamond_edge a b :
  is_Some (orig !! (a, b)) <->
  b < n /\ (((a + 1) mod 3 = 1 /\ (b = a + 1 \/ b = a + 2)) \/ ((a + 1) mod 3 = 2 /\ b = a + 2) \/
            ((a + 1) mod 3 = 0 /\ b = a + 1)).
Proof.
  transitivity (a < n /\ b + 1 ∈ diamond_row n (a + 1)); [apply Hc|]. unfold diamond_row. split.
  - intros [Ha Hb]. row_cases; lia.
  - intros [Hb H]. gen_cases; pairs; lia.
Qed.

(** Only the bottom of a diamond is asked by two contexts. *)
Lemma two_parents x y b :
  is_Some (orig !! (x, b)) -> is_Some (orig !! (y, b)) -> x <> y ->
  (b mod 3 = 0 /\ 3 <= b /\ b < n) /\ ((x = b - 2 /\ y = b - 1) \/ (x = b - 1 /\ y = b - 2)).
Proof.
  intros [Hb Dx]%diamond_edge [_ Dy]%diamond_edge Hne.
  destruct Dx as [[? [?|?]]|[[? ?]|[? ?]]], Dy as [[? [?|?]]|[[? ?]|[? ?]]]; lia.
Qed.

Lemma diamond_stays a b : live n orig diamond_er 0 (a, b) <-> is_Some (orig !! (a, b)).
Proof. unfold live, diamond_er. split; [tauto|]. intros H. split; [done|]. intros. apply not_elem_of_nil. Qed.

Lemma diamond_plan :
  exists st, (st0 ← copy_interfaces orig; create_opt_interface diamond_opt n st0) = Ok st /\ good_plan n orig st.
Proof.
  apply (optimised_plan m n orig diamond_er diamond_ab); try done.
  - apply diamond_steps.
  - intros id k src ?? H. unfold diamond_ab in H. row_cases; rewrite ?pair_equal_spec in H;
      destruct_or? H; try done; destruct H as [-> ->]; live_by Hc.
  - intros a b H%diamond_stays%diamond_edge. lia.
  - apply reach_by_parent. intros i ??.
    destruct (decide ((i + 1) mod 3 = 0)); [exists (i - 2)|exists (i - 1)];
      (split; [lia|]); apply diamond_stays, diamond_edge; lia.
  - intros p b x y Hx Hy.
    assert (Hb : forall z, wants orig p (z, b) -> brings n orig diamond_er diamond_ab p z b).
    { intros z Hz. split; [|by constructor]. apply diamond_stays. destruct Hz as (bs & Hz & _). by eexists. }
    destruct Hx as [->|Hx]; [destruct Hy as [->|Hy]|destruct Hy as [->|Hy]].
    + exists b. split; constructor.
    + exists y. split; [by apply rtc_once, Hb|constructor].
    + exists x. split; [constructor|by apply rtc_once, Hb].
    + destruct (decide (x = y)) as [->|Hne]; [exists y; split; constructor|].
      assert (Hp : (b mod 3 = 0 /\ 3 <= b /\ b < n) /\
        ((x = b - 2 /\ y = b - 1) \/ (x = b - 1 /\ y = b - 2))).
      { pose proof Hx as (bx & Ex & _). pose proof Hy as (by' & Ey & _).
        apply (two_parents x y b); [by eexists..|done]. }
      destruct Hp as ((? & ? & ?) & Hxy). exists (b - 3).
      assert (Hz : forall z, wants orig p (z, b) -> z = b - 2 \/ z = b - 1 ->
        brings n orig diamond_er diamond_ab p (b - 3) z).
      { intros z Hz Hxyz. split; [apply diamond_stays, diamond_edge; lia|].
        apply (given_absorb _ _ _ _ _ (b - 2) _ (z, b)); [lia|lia| |by constructor].
        unfold diamond_ab. rewrite (proj2 (N.eqb_neq (b - 2) n)), (proj2 (N.eqb_eq _ 1)) by lia.
        pairs. lia. }
      split; apply rtc_once, Hz; try done; lia.
Qed.

End diamond.

(** *** Multiple rings *)

Section multiple.
Context (H6 : 6 <= n) (Hc : covers n (multiple_row n) orig).

Lemma multiple_edge a b :
  is_Some (orig !! (a, b)) <->
  (a = 1 /\ (b = 2 \/ b = ear n + 1)) \/ (a = ear n /\ (b = 0 \/ b = 2 * ear n - 1)) \/
  (a = n - 1 /\ b = ear n - 1) \/ (a = 2 * ear n - 2 /\ b = 2) \/
  (a <> 1 /\ a <> ear n /\ a <> 2 * ear n - 2 /\ b = a + 1 /\ b < n).
Proof.
  destruct (ear_bounds n Hn H6) as (E1 & E2 & _).
  transitivity (a < n /\ b + 1 ∈ multiple_row n (a + 1)); [apply Hc|]. unfold multiple_row.
  generalize dependent (ear n). intros e E1 E2. split.
  - intros [Ha Hb]. row_cases; destruct_or? Hb; try done;
      [left|left|right; left|right; left|do 2 right; left|do 3 right; left|do 4 right]; lia.
  - intros H. destruct H as [[? H]|[[? H]|[H|[H|H]]]]; gen_cases; pairs; lia.
Qed.

Lemma multiple_removed_in a b :
  (a, b) ∈ multiple_removed <->
  (a = 2 * ear n - 2 /\ b = 2) \/ (a = ear n /\ b = 0) \/ (a = n - 1 /\ b = ear n - 1).
Proof. unfold multiple_removed. pairs. intuition. Qed.

Lemma multiple_removed_live j k : 1 <= j -> k ∈ multiple_removed -> live n orig multiple_er j k.
Proof.
  intros Hj Hk. split.
  - destruct k as [a b]. apply multiple_edge. apply multiple_removed_in in Hk as [[-> ->]|[[-> ->]|[-> ->]]]; auto 6.
  - intros j' ??. unfold multiple_er. gen_cases; [lia|]. apply not_elem_of_nil.
Qed.

Lemma multiple_stays a b :
  live n orig multiple_er 0 (a, b) <->
  (a = 1 /\ (b = 2 \/ b = ear n + 1)) \/ (a = ear n /\ b = 2 * ear n - 1) \/
  (a <> 1 /\ a <> ear n /\ a <> 2 * ear n - 2 /\ b = a + 1 /\ b < n).
Proof.
  destruct (ear_bounds n Hn H6) as (E1 & E2 & _). split.
  - intros [Ho He]. apply multiple_edge in Ho. specialize (He 1 ltac:(lia) ltac:(lia)).
    unfold multiple_er in He. rewrite N.eqb_refl, multiple_removed_in in He.
    generalize dependent (ear n). intros e E1 E2 Ho He.
    destruct Ho as [[-> [-> | ->]]|[[-> [-> | ->]]|[[-> ->]|[[-> ->]|Ho]]]]; auto; destruct He; auto.
  - intros H. split; [apply multiple_edge; destruct H as [?|[[??]|?]]; auto 6|].
    intros j' ??. unfold multiple_er. gen_cases; [|apply not_elem_of_nil]. rewrite multiple_removed_in.
    generalize dependent (ear n). intros e' E1 E2 H.
    intros [[-> ->]|[[-> ->]|[-> ->]]]; destruct H as [[? [?|?]]|[[??]|(?&?&?&?&?)]]; lia.
Qed.

(** A target takes up the three removed edges, before the rest of the step. *)
Lemma absorb_three_bind st f k l la lb lc ab' er' :
  ifs_wf m st -> lcim st !! k = Some l ->
  lcim st !! (2 * ear n - 2, 2) = Some la -> lcim st !! (ear n, 0) = Some lb ->
  lcim st !! (n - 1, ear n - 1) = Some lc ->
  (forall st1, lcim st1 = lcim st -> ifs_wf m st1 -> exists st', f st1 = Ok st' /\ step_spec m er' ab' st1 st') ->
  (forall k src, (k, src) ∈ ab' -> present st src) ->
  exists st', (absorb_three st l la lb lc ≫= f) = Ok st' /\
    step_spec m er' (map (pair k) multiple_removed ++ ab') st st'.
Proof.
  intros W El Ea Eb Ec Hf Hsrc.
  destruct (or_assign_bind m st k (2 * ear n - 2, 2) l la
    (fun st1 => st2 ← or_assign st1 l lb; st3 ← or_assign st2 l lc; f st3)
    er' (map (pair k) [(ear n, 0); (n - 1, ear n - 1)] ++ ab')) as (st' & E & S); try done.
  - intros st1 L1 W1. apply (or_assign_bind m); [done|known|known| |].
    + intros st2 L2 W2. apply (or_assign_bind m); [done|known|known| |].
      * intros st3 L3 W3. apply Hf; [|done]. congruence.
      * intros k' src H. unfold present. rewrite L2, L1. by eapply Hsrc.
    + intros k' src H. unfold present. rewrite L1. cbn in H. apply elem_of_cons in H as [[= -> ->]|H]; [eauto|].
      by eapply Hsrc.
  - intros k' src H. cbn in H. apply elem_of_cons in H as [[= -> ->]|H]; [by eexists|].
    apply elem_of_cons in H as [[= -> ->]|H]; [by eexists|]. by eapply Hsrc.
  - exists st'. split; [|exact S]. rewrite <- E. unfold absorb_three.
    destruct (or_assign st l la) as [s1|]; [|done]. rsimpl.
    destruct (or_assign s1 l lb) as [s2|]; [|done]. rsimpl. by destruct (or_assign s2 l lc).
Qed.

Lemma live_stays er j k : live n orig er 0 k -> live n orig er j k.
Proof. intros [Ho He]. split; [done|]. intros j' ??. apply He; lia. Qed.

Lemma multiple_target_stays id :
  1 <= id -> id <= n -> id <> 2 * ear n - 1 -> id <> n -> live n orig multiple_er 0 (multiple_target id).
Proof.
  intros. unfold multiple_target. gen_cases; apply multiple_stays; [auto|].
  destruct (decide (id = 2)); [left; lia|do 2 right; lia].
Qed.

Lemma multiple_final id st :
  ifs_wf m st ->
  exists st', mret (if id =? 1 then erase (erase (erase st (2 * ear n - 2, 2)) (ear n, 0)) (n - 1, ear n - 1)
                    else st) = Ok st' /\ step_spec m (multiple_er id) [] st st'.
Proof.
  intros W. eexists. split; [done|]. unfold multiple_er. gen_cases; [|by apply step_refl].
  assert (Hnil : forall st1 (k src : ContextPair), (k, src) ∈ [] -> present st1 src) by (intros ??? ?%elem_of_nil; done).
  apply (step_seq m [(2 * ear n - 2, 2)] [] [(ear n, 0); (n - 1, ear n - 1)] [] st
    (erase st (2 * ear n - 2, 2))); [by apply erase_spec| |apply Hnil].
  assert (W1 : ifs_wf m (erase st (2 * ear n - 2, 2))) by (eapply step_wf, erase_spec; done).
  apply (step_seq m [(ear n, 0)] [] [(n - 1, ear n - 1)] [] _ (erase (erase st (2 * ear n - 2, 2)) (ear n, 0)));
    [by apply erase_spec|apply erase_spec|apply Hnil].
  eapply step_wf, erase_spec. done.
Qed.

Lemma multiple_steps : opt_steps m n orig multiple_er multiple_ab multiple_ring_opt.
Proof.
  intros id st Hi Hin W Hl. destruct (ear_bounds n Hn H6) as (E1 & E2 & _).
  unfold multiple_ring_opt. rewrite (u64_add_small n 3) by lia. fold (ear n).
  rewrite (u64_add_small 2 (ear n)), (u64_add_small (2 + ear n) (ear n)), (u64_sub_small _ 3) by lia.
  replace (2 + ear n + ear n - 3) with (2 * ear n - 1) by lia.
  assert (Hend : (id =? 2 * ear n - 1) || (id =? n) = true ->
    multiple_er id = [] /\ multiple_ab id = []).
  { intros E. unfold multiple_ab, multiple_er. rewrite E. split; [|done]. gen_cases; [|done]. subst.
    apply orb_true_iff in E. rewrite !N.eqb_eq in E. lia. }
  destruct ((id =? 2 * ear n - 1) || (id =? n)) eqn:Eid.
  { destruct Hend as [-> ->]; [done|]. by apply refl_ok. }
  apply orb_false_iff in Eid as Eid'. rewrite !N.eqb_neq in Eid'. destruct Eid' as [Hid1 Hid2].
  assert (Hrem : forall k, k ∈ multiple_removed -> present st k).
  { intros k Hk. apply Hl, multiple_removed_live; [lia|done]. }
  destruct (Hrem (2 * ear n - 2, 2)) as [la Ea]; [apply multiple_removed_in; lia|].
  destruct (Hrem (ear n, 0)) as [lb Eb]; [apply multiple_removed_in; lia|].
  destruct (Hrem (n - 1, ear n - 1)) as [lc Ec]; [apply multiple_removed_in; lia|].
  gen_arith. replace (2 * ear n - 1 - 1) with (2 * ear n - 2) by lia.
  rewrite (getInterface_ok _ _ _ _ Ea), (getInterface_ok _ _ _ _ Eb), (getInterface_ok _ _ _ _ Ec). rsimpl.
  destruct (Hl (multiple_target id)) as [lt Et]; [by apply live_stays, multiple_target_stays|].
  replace (if id =? ear n + 1 then _ else _) with (absorb_three st lt la lb lc).
  2:{ revert Et. unfold multiple_target. gen_cases; intros Et.
      - replace (id - 1) with (ear n) by lia. replace (id + (ear n - 1) - 1) with (2 * ear n - 1) by lia.
        by rewrite (getInterface_ok _ _ _ _ Et).
      - by rewrite (getInterface_ok _ _ _ _ Et). }
  unfold multiple_ab. rewrite Eid. apply absorb_three_bind; try done.
  - intros st1 L1 W1. destruct (N.eqb_spec id 2) as [->|].
    + destruct (Hl (1, ear n + 1)) as [l2 El2].
      { apply live_stays, multiple_stays. auto. }
      replace (2 - 1) with 1 by lia. replace (2 + ear n - 1) with (ear n + 1) by lia.
      rewrite (getInterface_ok st1 1 (ear n + 1) l2) by known. rsimpl.
      rewrite <- (app_nil_r (map _ _)).
      apply absorb_three_bind; try known; [|by intros ?? ?%elem_of_nil].
      intros st2 _ W2. by apply multiple_final.
    + rsimpl. by apply multiple_final.
  - intros k src Hk. destruct (id =? 2); [|by apply elem_of_nil in Hk].
    apply list_elem_of_fmap in Hk as (r & [= -> ->] & Hr). by apply Hrem.
Qed.

(** Every edge that stays takes up the removed ones. *)
Lemma multiple_brings p k a b :
  k ∈ multiple_removed -> wants orig p k -> live n orig multiple_er 0 (a, b) ->
  brings n orig multiple_er multiple_ab p a b.
Proof.
  intros Hk Hw Hs. split; [done|]. destruct (ear_bounds n Hn H6) as (E1 & E2 & _).
  apply multiple_stays in Hs.
  assert (Hid : exists id, 0 < id /\ id <= n /\ id <> 2 * ear n - 1 /\ id <> n /\
    (multiple_target id = (a, b) \/ (id = 2 /\ (a, b) = (1, ear n + 1)))).
  { unfold multiple_target. destruct Hs as [[-> [->| ->]]|[[-> ->]|(? & ? & ? & -> & ?)]].
    - exists 2. rewrite (proj2 (N.eqb_neq _ _)) by lia. do 4 (split; [lia|]). by left.
    - exists 2. do 4 (split; [lia|]). by right.
    - exists (ear n + 1). rewrite N.eqb_refl. do 4 (split; [lia|]). by left.
    - exists (a + 1). rewrite (proj2 (N.eqb_neq _ _)), N.add_sub by lia. do 4 (split; [lia|]). by left. }
  destruct Hid as (id & ? & ? & ? & ? & Htgt).
  apply (given_absorb _ _ _ _ _ id _ k); [done|done| |by constructor].
  unfold multiple_ab. rewrite (proj2 (N.eqb_neq id (2 * ear n - 1))), (proj2 (N.eqb_neq id n)) by done.
  cbn [orb]. apply elem_of_app. destruct Htgt as [<-|[-> ->]].
  - left. apply list_elem_of_fmap. eauto.
  - right. apply list_elem_of_fmap. eauto.
Qed.

Lemma multiple_parent i : 0 < i -> i < n -> exists p, p < i /\ live n orig multiple_er 0 (p, i).
Proof.
  intros. destruct (ear_bounds n Hn H6) as (E1 & E2 & _).
  destruct (decide (i = 2 * ear n - 1)) as [->|]; [exists (ear n)|
    destruct (decide (i = ear n + 1)) as [->|]; [exists 1|exists (i - 1)]];
    (split; [lia|]); apply multiple_stays; [auto..|].
  destruct (decide (i = 2)); [left; lia|do 2 right; lia].
Qed.

Lemma multiple_plan :
  exists st, (st0 ← copy_interfaces orig; create_opt_interface multiple_ring_opt n st0) = Ok st /\
    good_plan n orig st.
Proof.
  destruct (ear_bounds n Hn H6) as (E1 & E2 & _).
  apply (optimised_plan m n orig multiple_er multiple_ab); try done.
  - apply multiple_steps.
  - intros id k src ?? H. apply multiple_removed_live; [done|]. unfold multiple_ab in H.
    destruct (_ || _); [by apply elem_of_nil in H|]. apply elem_of_app in H as [H|H].
    + by apply list_elem_of_fmap in H as (r & [= -> ->] & Hr).
    + destruct (id =? 2); [|by apply elem_of_nil in H].
      by apply list_elem_of_fmap in H as (r & [= -> ->] & Hr).
  - intros a b H%multiple_stays. lia.
  - apply reach_by_parent, multiple_parent.
  - apply agree_by_removed; [|intros p x b Hw Hs|apply live_dec].
    + intros a a' b H%multiple_stays H'%multiple_stays. lia.
    + assert (Hk : (x, b) ∈ multiple_removed).
      { destruct (decide ((x, b) ∈ multiple_removed)) as [|Hno]; [done|]. exfalso. apply Hs. split.
        - destruct Hw as (bs & Hb & _). by eexists.
        - intros j' ??. unfold multiple_er. gen_cases; [done|apply not_elem_of_nil]. }
      exists 0. intros y Hy. apply (reach_by_parent n).
      * intros i ??. destruct (multiple_parent i) as (q & ? & Hq); [done..|]. exists q.
        split; [done|]. by eapply multiple_brings.
      * apply multiple_removed_in in Hk. destruct Hy as [->|(bs' & Hy & _)]; [lia|].
        assert (Hy' : is_Some (orig !! (y, b))) by (by eexists). apply multiple_edge in Hy'. lia.
Qed.

End multiple.

(** *** Houses *)

Lemma leads_to_spec id :
  id mod 4 = 2 ->
  (id = 2 /\ leads_to id = 1) \/
  (leads_to id mod 4 = 0 /\ id = 2 * leads_to id - 2 /\ 4 <= leads_to id) \/
  (leads_to id mod 4 = 1 /\ id = 2 * leads_to id /\ 5 <= leads_to id).
Proof. intros H. unfold leads_to. gen_cases; lia. Qed.

Lemma house_parent_leads_to id : id mod 4 = 2 -> id <= n -> house_parent id = leads_to id.
Proof.
  intros H Hid. unfold house_parent, leads_to. rewrite (u64_add_small id 2) by lia.
  destruct (N.eqb_spec id 2) as [->|]; [done|]. cbn [negb].
  rewrite (u64_sub_small id 2), (u64_sub_small id 5) by lia.
  rewrite (u64_add_small ((id - 2) / 4)), (u64_add_small ((id - 5) / 4)) by lia.
  rewrite (u64_mul_small 2 ((id - 2) / 4 + 1)), (u64_mul_small 2 ((id - 5) / 4 + 1)) by lia.
  rewrite u64_add_small by lia. gen_cases; lia.
Qed.

(** The context that asks [y] in the plan. *)
Definition house_up (y : N) : N := if y mod 4 =? 2 then leads_to y else y - 1.

Lemma leads_to_even x : x mod 4 = 0 -> 4 <= x -> leads_to (2 * x - 2) = x.
Proof. intros. unfold leads_to. gen_cases; lia. Qed.

Lemma leads_to_odd x : x mod 4 = 1 -> 5 <= x -> leads_to (2 * x) = x.
Proof. intros. unfold leads_to. gen_cases; lia. Qed.

Lemma house_up_wall y : y mod 4 <> 2 -> house_up y = y - 1.
Proof. intros H. unfold house_up. by rewrite (proj2 (N.eqb_neq _ _)). Qed.

Lemma house_up_first y : y mod 4 = 2 -> house_up y = leads_to y.
Proof. intros H. unfold house_up. by rewrite H. Qed.

Lemma house_up_lt y : 1 < y -> 1 <= house_up y /\ house_up y < y.
Proof.
  intros Hy. destruct (decide (y mod 4 = 2)) as [E|E].
  - rewrite house_up_first by done. destruct (leads_to_spec y E) as [[??]|[(?&?&?)|(?&?&?)]]; lia.
  - rewrite house_up_wall by done. lia.
Qed.

(** The four kinds of contexts in a house. *)
Lemma house_row_cases x :
  1 <= x ->
  (x = 1 /\ house_row n x = [2; 3]) \/
  (x mod 4 = 0 /\ 4 <= x /\
    house_row n x = x + 1 :: if 2 * x - 2 <? n then [2 * x - 2; 2 * x - 1] else []) \/
  (x mod 4 = 1 /\ 5 <= x /\
    house_row n x = x - 3 :: if 2 * x <? n then [2 * x; 2 * x + 1] else []) \/
  ((x mod 4 = 2 \/ x mod 4 = 3) /\ house_row n x = [x + 1]).
Proof.
  intros Hx. unfold house_row.
  destruct (N.eqb_spec x 1); [by left|right].
  destruct (N.eqb_spec (x mod 4) 0); [left; split; [done|split; [lia|done]]|right].
  destruct (N.eqb_spec (x mod 4) 1); [left; split; [done|split; [lia|done]]|right].
  split; [lia|done].
Qed.

Section house.
Context (H1 : 1 < n) (H4 : n mod 4 = 1) (Hc : covers n (house_row n) orig).

(** The three kinds of edges: the plan, a short cut over a wall, and the way
    back to the first wall. *)
Lemma house_edge a b :
  is_Some (orig !! (a, b)) ->
  a < n /\ b < n /\
  ((0 < b /\ a + 1 = house_up (b + 1)) \/ (b mod 4 = 2 /\ a + 1 = leads_to b) \/
   (a mod 4 = 0 /\ 4 <= a /\ b = a - 3)).
Proof.
  intros [Ha Hb]%Hc. split; [done|].
  destruct (house_row_cases (a + 1)) as [[Ea Er]|[(E & ? & Er)|[(E & ? & Er)|[E Er]]]]; [lia| | | |].
  - rewrite Er in Hb. pairs_in Hb. destruct Hb as [?|[?|[]]].
    + split; [lia|]. left. replace b with 1 by lia. rewrite Ea. split; [lia|done].
    + split; [lia|]. right. left. replace b with 2 by lia. by rewrite Ea.
  - rewrite Er in Hb. destruct (N.ltb_spec (2 * (a + 1) - 2) n); pairs_in Hb; destruct_or? Hb; try done.
    + split; [lia|]. left. rewrite house_up_wall by lia. lia.
    + split; [lia|]. left. rewrite Hb, house_up_first, leads_to_even by lia. lia.
    + split; [lia|]. right. left. replace b with (2 * (a + 1) - 2) by lia. rewrite leads_to_even by lia. lia.
    + split; [lia|]. left. rewrite house_up_wall by lia. lia.
  - rewrite Er in Hb. destruct (N.ltb_spec (2 * (a + 1)) n); pairs_in Hb; destruct_or? Hb; try done.
    + split; [lia|]. do 2 right. lia.
    + split; [lia|]. left. rewrite Hb, house_up_first, leads_to_odd by lia. lia.
    + split; [lia|]. right. left. replace b with (2 * (a + 1)) by lia. rewrite leads_to_odd by lia. lia.
    + split; [lia|]. do 2 right. lia.
  - rewrite Er in Hb. pairs_in Hb. destruct Hb as [Hb|[]]. split; [lia|]. left.
    rewrite house_up_wall by lia. lia.
Qed.

Lemma house_up_edge b : 0 < b -> b < n -> is_Some (orig !! (house_up (b + 1) - 1, b)).
Proof.
  intros Hb Hbn. apply Hc. destruct (house_up_lt (b + 1)) as [? ?]; [lia|].
  split; [lia|]. rewrite N.sub_add by done.
  destruct (decide ((b + 1) mod 4 = 2)) as [E|E].
  - rewrite house_up_first by done. destruct (leads_to_spec (b + 1) E) as [[? ->]|[(?&?&?)|(?&?&?)]].
    + cbn. pairs. lia.
    + destruct (house_row_cases (leads_to (b + 1))) as [[??]|[(?&?&->)|[(?&?&_)|[??]]]]; try lia.
      rewrite (proj2 (N.ltb_lt _ _)) by lia. pairs. lia.
    + destruct (house_row_cases (leads_to (b + 1))) as [[??]|[(?&?&_)|[(?&?&->)|[??]]]]; try lia.
      rewrite (proj2 (N.ltb_lt _ _)) by lia. pairs. lia.
  - rewrite house_up_wall, N.add_sub by done.
    destruct (house_row_cases b) as [[? ->]|[(?&?&->)|[(?&?&_)|[? ->]]]]; try lia; pairs; lia.
Qed.

Lemma house_shortcut_edge id : id mod 4 = 2 -> id < n -> is_Some (orig !! (leads_to id - 1, id)).
Proof.
  intros E Hid. apply Hc. destruct (leads_to_spec id E) as [[? ->]|[(?&?&?)|(?&?&?)]].
  - split; [lia|]. change (house_row n (1 - 1 + 1)) with [2; 3]. pairs. lia.
  - split; [lia|]. rewrite N.sub_add by lia.
    destruct (house_row_cases (leads_to id)) as [[??]|[(?&?&->)|[(?&?&_)|[??]]]]; try lia.
    rewrite (proj2 (N.ltb_lt _ _)) by lia. pairs. lia.
  - split; [lia|]. rewrite N.sub_add by lia.
    destruct (house_row_cases (leads_to id)) as [[??]|[(?&?&_)|[(?&?&->)|[??]]]]; try lia.
    rewrite (proj2 (N.ltb_lt _ _)) by lia. pairs. lia.
Qed.

Lemma house_back_edge id : id mod 4 = 0 -> 4 <= id -> id < n -> is_Some (orig !! (id, id - 3)).
Proof.
  intros E ? Hid. apply Hc. split; [done|].
  destruct (house_row_cases (id + 1)) as [[??]|[(?&?&_)|[(?&?&->)|[??]]]]; try lia. pairs. lia.
Qed.

Lemma leads_to_lt id : id mod 4 = 2 -> 1 <= leads_to id /\ leads_to id < id.
Proof. intros E. destruct (leads_to_spec id E) as [[??]|[(?&?&?)|(?&?&?)]]; lia. Qed.

Lemma house_er_in j k :
  1 <= j -> k ∈ house_er j ->
  (j mod 4 = 2 /\ k = (leads_to j - 1, j)) \/ (j mod 4 = 0 /\ 4 <= j /\ k = (j, j - 3)).
Proof.
  intros Hj. unfold house_er. gen_cases; rewrite ?elem_of_cons, ?elem_of_nil.
  - done.
  - intros [->|[]]. auto.
  - intros [->|[]]. right. split; [done|]. split; [lia|done].
  - done.
Qed.

Lemma house_live_up b j : 0 < b -> b < n -> live n orig house_er j (house_up (b + 1) - 1, b).
Proof.
  intros Hb Hbn. split; [by apply house_up_edge|].
  intros j' Hj _ [[E [= Ea ->]]|(E & ? & [= Ea ->])]%house_er_in; [| |lia].
  - rewrite house_up_wall in Ea by lia. pose proof (leads_to_lt j' E). lia.
  - pose proof (house_up_lt (j' - 3 + 1)). lia.
Qed.

Lemma house_stays a b : live n orig house_er 0 (a, b) <-> 0 < b /\ b < n /\ a + 1 = house_up (b + 1).
Proof.
  split.
  - intros [Ho He]. apply house_edge in Ho as (Ha & Hb & [[? ?]|[[E Ea]|(E & ? & ->)]]); [done| |].
    + exfalso. apply (He b); [lia|lia|]. unfold house_er. rewrite (proj2 (N.eqb_neq b 1)), E by lia.
      rewrite <- Ea, N.add_sub. left.
    + exfalso. apply (He a); [lia|lia|]. unfold house_er. rewrite (proj2 (N.eqb_neq a 1)), E by lia. left.
  - intros (Hb & Hbn & Ea). replace a with (house_up (b + 1) - 1) by lia. by apply house_live_up.
Qed.

(** An edge of the plan to [b], named by its first context. *)
Lemma house_plan_live a b j : 0 < b -> b < n -> a + 1 = house_up (b + 1) -> live n orig house_er j (a, b).
Proof. intros ?? E. replace a with (house_up (b + 1) - 1) by lia. by apply house_live_up. Qed.

Lemma house_wall_live id j : (id + 1) mod 4 <> 2 -> 1 <= id -> id < n -> live n orig house_er j (id - 1, id).
Proof. intros. apply house_plan_live; [lia|done|]. rewrite house_up_wall by done. lia. Qed.

Lemma house_child_live id j :
  id mod 4 = 2 -> id < n -> live n orig house_er j (leads_to id - 1, id - 1).
Proof.
  intros E Hid. pose proof (leads_to_lt id E). apply house_plan_live; [lia..|].
  rewrite !N.sub_add, house_up_first by lia. done.
Qed.

Lemma house_shortcut_live id : id mod 4 = 2 -> id < n -> live n orig house_er id (leads_to id - 1, id).
Proof.
  intros E Hid. split; [by apply house_shortcut_edge|]. pose proof (leads_to_lt id E).
  intros j' Hj _ [[E' [= Ea Eb]]|(E' & ? & [= Ea Eb])]%house_er_in; lia.
Qed.

Lemma house_back_live id : id mod 4 = 0 -> 4 <= id -> id < n -> live n orig house_er id (id, id - 3).
Proof.
  intros E ? Hid. split; [by apply house_back_edge|].
  intros j' Hj _ [[E' [= Ea Eb]]|(E' & ? & [= Ea Eb])]%house_er_in; lia.
Qed.

(** The step of [leads_to id] hands on what the first wall carries. *)
Lemma house_child_ab id :
  id mod 4 = 2 -> id < n -> ((leads_to id - 1, id - 1), (id - 1, id)) ∈ house_ab (leads_to id).
Proof.
  intros E Hid. unfold house_ab. destruct (leads_to_spec id E) as [[-> ->]|[(El & ? & ?)|(El & ? & ?)]].
  - left.
  - rewrite (proj2 (N.eqb_neq _ 1)), El by lia. cbn [N.eqb Pos.eqb].
    rewrite (proj2 (N.ltb_lt _ _)) by lia. pairs. lia.
  - rewrite (proj2 (N.eqb_neq _ 1)), El by lia. cbn [N.eqb Pos.eqb].
    rewrite (proj2 (N.ltb_lt _ _)) by lia. pairs. lia.
Qed.

Lemma house_child_opt_ok st id c :
  ifs_wf m st -> 1 <= id -> id <= n -> 1 <= c ->
  (c < n -> present st (id - 1, c - 1) /\ present st (c - 1, c)) ->
  exists st', house_child_opt n id c st = Ok st' /\
    step_spec m [] (if c <? n then [((id - 1, c - 1), (c - 1, c))] else []) st st'.
Proof.
  intros W ? ? ? Hp. unfold house_child_opt. destruct (N.ltb_spec c n) as [Hlt|]; [|by apply refl_ok].
  destruct (Hp Hlt) as [[l1 E1] [l2 E2]]. getting. by apply or_assign_last.
Qed.

(** What step [id] may use: the edges that are left. *)
Lemma house_even_children id st :
  (forall k, live n orig house_er id k -> present st k) -> id mod 4 = 0 -> 4 <= id -> 2 * id - 2 < n ->
  present st (id - 1, 2 * id - 3) /\ present st (2 * id - 3, 2 * id - 2).
Proof.
  intros Hl E ? Hlt. replace (2 * id - 3) with (2 * id - 2 - 1) by lia. split; apply Hl.
  - pose proof (house_child_live (2 * id - 2) id) as Hx. rewrite leads_to_even in Hx by lia. apply Hx; lia.
  - apply house_wall_live; lia.
Qed.

(** The step of the last wall: the way back goes, the child house is told. *)
Lemma house_floor_step id st l1 l2 :
  ifs_wf m st -> id mod 4 = 0 -> 4 <= id -> id < n ->
  (2 * id - 2 < n -> present st (id - 1, 2 * id - 3) /\ present st (2 * id - 3, 2 * id - 2)) ->
  lcim st !! (id - 1, id) = Some l1 -> lcim st !! (id, id - 3) = Some l2 ->
  exists st', (st1 ← or_assign st l1 l2; house_child_opt n id (2 * id - 2) (erase st1 (id, id - 3))) = Ok st' /\
    step_spec m [(id, id - 3)] (((id - 1, id), (id, id - 3)) ::
      if 2 * id - 2 <? n then [((id - 1, 2 * id - 3), (2 * id - 3, 2 * id - 2))] else []) st st'.
Proof.
  intros W E H4' Hid Hch E1 E2. apply or_assign_bind; [done..| |].
  - intros st1 L1 W1.
    assert (Hch1 : 2 * id - 2 < n -> present (erase st1 (id, id - 3)) (id - 1, 2 * id - 3) /\
      present (erase st1 (id, id - 3)) (2 * id - 3, 2 * id - 2)).
    { intros Hlt. unfold present, erase. cbn [lcim].
      rewrite !lookup_delete_ne by (intros [= ??]; lia). rewrite L1. by apply Hch. }
    replace (2 * id - 3) with (2 * id - 2 - 1) in * by lia.
    destruct (house_child_opt_ok (erase st1 (id, id - 3)) id (2 * id - 2)) as (st' & -> & S); [|lia..|done|].
    { eapply step_wf, erase_spec. done. }
    exists st'. split; [done|].
    apply (step_seq m [(id, id - 3)] [] [] _ st1 (erase st1 (id, id - 3)) st'); [by apply erase_spec|done|].
    intros k src Hk. destruct (N.ltb_spec (2 * id - 2) n) as [Hlt|]; [|by apply elem_of_nil in Hk].
    apply list_elem_of_singleton in Hk as [= -> ->]. by apply Hch1.
  - intros k src Hk. destruct (N.ltb_spec (2 * id - 2) n) as [Hlt|]; [|by apply elem_of_nil in Hk].
    apply list_elem_of_singleton in Hk as [= -> ->]. by apply Hch.
Qed.

Lemma house_first_step st :
  ifs_wf m st -> (forall k, live n orig house_er 1 k -> present st k) ->
  exists st', house_opt n 1 st = Ok st' /\ step_spec m (house_er 1) (house_ab 1) st st'.
Proof.
  intros W Hl. unfold house_opt. cbn [N.eqb Pos.eqb].
  destruct (Hl (0, 1)) as [l1 E1]; [apply house_plan_live; [lia|lia|done]|].
  destruct (Hl (1, 2)) as [l2 E2]; [apply house_plan_live; [lia|lia|done]|].
  gen_arith. replace (1 - 1) with 0 by lia. replace (1 + 1) with 2 by lia. getting. by apply or_assign_last.
Qed.

Lemma house_steps : opt_steps m n orig house_er house_ab house_opt.
Proof.
  intros id st Hi Hin W Hl. destruct (N.eqb_spec id 1) as [->|]; [by apply house_first_step|].
  unfold house_opt, house_er, house_ab. rewrite (proj2 (N.eqb_neq id 1)) by done.
  assert (Hw : forall b, 1 <= b -> b < n -> (b + 1) mod 4 <> 2 -> present st (b - 1, b)).
  { intros b ???. by apply Hl, house_wall_live. }
  destruct (N.eqb_spec (id mod 4) 2) as [E|]; [|destruct (N.eqb_spec (id mod 4) 3) as [E|];
    [|destruct (N.eqb_spec (id mod 4) 0) as [E|]]].
  - rewrite house_parent_leads_to by lia. pose proof (leads_to_lt id E).
    destruct (Hw id) as [l1 E1]; [lia..|]. destruct (Hw (id + 1)) as [l3 E3]; [lia..|].
    rewrite N.add_sub in E3.
    destruct (Hl (leads_to id - 1, id)) as [l2 E2]; [apply house_shortcut_live; lia|]. getting. updates.
  - destruct (Hw id) as [l1 E1]; [lia..|]. destruct (Hw (id + 1)) as [l3 E3]; [lia..|].
    rewrite N.add_sub in E3. rewrite E. cbn [N.eqb Pos.eqb]. getting. updates.
  - destruct (Hw id) as [l1 E1]; [lia..|].
    destruct (Hl (id, id - 3)) as [l2 E2]; [apply house_back_live; lia|].
    rewrite (house_child n Hn) by lia. replace (id + (id / 4 - 1) * 4 + 2) with (2 * id - 2) by lia. getting.
    apply house_floor_step; [done|done|lia..| |done|done]. apply house_even_children; [done|done|lia].
  - rewrite (house_child n Hn) by lia. replace (id + (id / 4 - 1) * 4 + 5) with (2 * id) by lia.
    apply house_child_opt_ok; [done|lia..|]. intros Hlt. split; [apply Hl|apply Hw; lia].
    pose proof (house_child_live (2 * id) id) as Hx. rewrite leads_to_odd in Hx by lia. apply Hx; lia.
Qed.

(** What a removed edge wants travels along the walls and from the context
    that leads to the house. *)
Lemma house_given_child p id :
  id mod 4 = 2 -> id < n -> given n orig house_ab p (leads_to id) (id - 1, id) ->
  brings n orig house_er house_ab p (leads_to id - 1) (id - 1).
Proof.
  intros E Hid Hg. pose proof (leads_to_lt id E). split; [by apply house_child_live|].
  apply (given_absorb _ _ _ _ _ (leads_to id) _ (id - 1, id)); [lia|lia| |done]. by apply house_child_ab.
Qed.

Lemma house_given_shortcut p id j :
  id mod 4 = 2 -> id < n -> j < id -> wants orig p (leads_to id - 1, id) ->
  given n orig house_ab p j (id - 1, id).
Proof.
  intros E Hid Hj Hw. apply (given_absorb _ _ _ _ _ id _ (leads_to id - 1, id)); [done|lia| |by constructor].
  unfold house_ab. rewrite (proj2 (N.eqb_neq id 1)), E by lia. left.
Qed.

Lemma house_given_walls p id j :
  id mod 4 = 0 -> 4 <= id -> id < n -> wants orig p (id, id - 3) ->
  (j < id -> given n orig house_ab p j (id - 1, id)) /\
  (j < id - 1 -> given n orig house_ab p j (id - 2, id - 1)) /\
  (j < id - 2 -> given n orig house_ab p j (id - 3, id - 2)).
Proof.
  intros E ? Hid Hw.
  assert (G1 : forall j, j < id -> given n orig house_ab p j (id - 1, id)).
  { intros j' Hj. apply (given_absorb _ _ _ _ _ id _ (id, id - 3)); [done|lia| |by constructor].
    unfold house_ab. rewrite (proj2 (N.eqb_neq id 1)), E by lia. left. }
  assert (G2 : forall j, j < id - 1 -> given n orig house_ab p j (id - 2, id - 1)).
  { intros j' Hj. apply (given_absorb _ _ _ _ _ (id - 1) _ (id - 1, id)); [done|lia| |apply G1; lia].
    unfold house_ab. rewrite (proj2 (N.eqb_neq (id - 1) 1)) by lia.
    replace ((id - 1) mod 4) with 3 by lia. cbn [N.eqb Pos.eqb]. pairs. lia. }
  split; [apply G1|]. split; [apply G2|]. intros Hj.
  apply (given_absorb _ _ _ _ _ (id - 2) _ (id - 2, id - 1)); [done|lia| |apply G2; lia].
  unfold house_ab. rewrite (proj2 (N.eqb_neq (id - 2) 1)) by lia.
  replace ((id - 2) mod 4) with 2 by lia. cbn [N.eqb Pos.eqb]. pairs. right. left. lia.
Qed.

(** All that are concerned by a short cut. *)
Lemma house_shortcut_agrees p x b :
  b mod 4 = 2 -> b < n -> x + 1 = leads_to b -> wants orig p (x, b) ->
  forall y, concerned orig p b y -> rtc (brings n orig house_er house_ab p) x y.
Proof.
  intros E Hb Ex Hw. replace x with (leads_to b - 1) in * by lia. pose proof (leads_to_lt b E).
  assert (R1 : brings n orig house_er house_ab p (leads_to b - 1) (b - 1)).
  { apply house_given_child; [done..|]. apply house_given_shortcut; [done..|lia|done]. }
  assert (R2 : brings n orig house_er house_ab p (b - 1) b).
  { split; [apply house_wall_live; lia|]. apply house_given_shortcut; [done..|lia|done]. }
  intros y [->|(bs & Hy & _)]; [apply (rtc_l _ _ (b - 1)); [done|by apply rtc_once]|].
  destruct (house_edge y b) as (_ & _ & [[_ Hy']|[[_ Hy']|(?&?&?)]]); [by eexists| | |lia].
  - rewrite house_up_wall in Hy' by lia. replace y with (b - 1) by lia. by apply rtc_once.
  - replace y with (leads_to b - 1) by lia. constructor.
Qed.

(** All that are concerned by a way back. *)
Lemma house_back_agrees p x :
  x mod 4 = 0 -> 4 <= x -> x < n -> wants orig p (x, x - 3) ->
  forall y, concerned orig p (x - 3) y -> rtc (brings n orig house_er house_ab p) (leads_to (x - 2) - 1) y.
Proof.
  intros E ? Hx Hw. assert (E2 : (x - 2) mod 4 = 2) by lia. pose proof (leads_to_lt (x - 2) E2).
  assert (R0 : brings n orig house_er house_ab p (leads_to (x - 2) - 1) (x - 3)).
  { replace (x - 3) with (x - 2 - 1) by lia. apply house_given_child; [done|lia|].
    replace (x - 2 - 1) with (x - 3) by lia. apply (house_given_walls p x); [done|done|done|done|lia]. }
  assert (R1 : brings n orig house_er house_ab p (x - 3) (x - 2)).
  { split; [replace (x - 3) with (x - 2 - 1) by lia; apply house_wall_live; lia|].
    apply (house_given_walls p x); [done|done|done|done|lia]. }
  assert (R2 : brings n orig house_er house_ab p (x - 2) (x - 1)).
  { split; [replace (x - 2) with (x - 1 - 1) by lia; apply house_wall_live; lia|].
    apply (house_given_walls p x); [done|done|done|done|lia]. }
  assert (R3 : brings n orig house_er house_ab p (x - 1) x).
  { split; [apply house_wall_live; lia|]. apply (house_given_walls p x); [done|done|done|done|lia]. }
  intros y [->|(bs & Hy & _)]; [by apply rtc_once|].
  destruct (house_edge y (x - 3)) as (_ & _ & [[_ Hy']|[[? _]|(?&?&?)]]); [by eexists| |lia|].
  - replace (x - 3 + 1) with (x - 2) in Hy' by lia. rewrite house_up_first in Hy' by done.
    replace y with (leads_to (x - 2) - 1) by lia. constructor.
  - replace y with x by lia. eapply rtc_l; [exact R0|]. eapply rtc_l; [exact R1|].
    eapply rtc_l; [exact R2|]. by apply rtc_once.
Qed.

Lemma house_sources : sources_live n orig house_er house_ab.
Proof.
  intros id k src Hi Hin Hk. unfold house_ab in Hk.
  assert (Hw : forall b, 1 <= b -> b < n -> (b + 1) mod 4 <> 2 -> live n orig house_er id (b - 1, b))
    by (intros; by apply house_wall_live).
  destruct (N.eqb_spec id 1) as [->|].
  { apply list_elem_of_singleton in Hk as [= -> ->]. apply (Hw 2); lia. }
  destruct (N.eqb_spec (id mod 4) 2) as [E|]; [|destruct (N.eqb_spec (id mod 4) 3) as [E|];
    [|destruct (N.eqb_spec (id mod 4) 0) as [E|]]].
  - apply elem_of_cons in Hk as [[= -> ->]|[= -> ->]%list_elem_of_singleton].
    + apply house_shortcut_live; lia.
    + specialize (Hw (id + 1)). rewrite N.add_sub in Hw. apply Hw; lia.
  - apply list_elem_of_singleton in Hk as [= -> ->].
    specialize (Hw (id + 1)). rewrite N.add_sub in Hw. apply Hw; lia.
  - apply elem_of_cons in Hk as [[= -> ->]|Hk]; [apply house_back_live; lia|].
    destruct (N.ltb_spec (2 * id - 2) n); [|by apply elem_of_nil in Hk].
    apply list_elem_of_singleton in Hk as [= -> ->].
    replace (2 * id - 3) with (2 * id - 2 - 1) by lia. apply Hw; lia.
  - destruct (N.ltb_spec (2 * id) n); [|by apply elem_of_nil in Hk].
    apply list_elem_of_singleton in Hk as [= -> ->]. apply Hw; lia.
Qed.

Lemma house_plan :
  exists st, (st0 ← copy_interfaces orig; create_opt_interface house_opt n st0) = Ok st /\ good_plan n orig st.
Proof.
  apply (optimised_plan m n orig house_er house_ab); try done.
  - apply house_steps.
  - apply house_sources.
  - intros a b (? & ? & E)%house_stays. pose proof (house_up_lt (b + 1)). lia.
  - apply reach_by_parent. intros i ??. exists (house_up (i + 1) - 1).
    pose proof (house_up_lt (i + 1)). split; [lia|]. by apply house_live_up.
  - apply agree_by_removed; [|intros p x b Hw Hs|apply live_dec].
    + intros a a' b (_ & _ & E)%house_stays (_ & _ & E')%house_stays. lia.
    + pose proof Hw as (bs & Ho & _).
      destruct (house_edge x b) as (Hx & Hb & [[??]|[[E Ex]|(E & ? & ->)]]); [by eexists| | |].
      * destruct Hs. by apply house_stays.
      * exists x. by apply house_shortcut_agrees.
      * exists (leads_to (x - 2) - 1). by apply house_back_agrees.
Qed.

End house.

(** *** Trees *)

(** Nothing is optimised in a tree, whose edges are a good plan already. *)
Lemma tree_plan :
  1 < n -> covers n (tree_row n) orig -> exists st, copy_interfaces orig = Ok st /\ good_plan n orig st.
Proof.
  intros H1 Hc.
  assert (Hedge : forall a b, is_Some (orig !! (a, b)) <-> 0 < b /\ b < n /\ a + 1 = (b + 1) / 2).
  { intros a b. transitivity (a < n /\ b + 1 ∈ tree_row n (a + 1)); [apply Hc|]. unfold tree_row. split.
    - intros [Ha Hb]. row_cases; destruct_or? Hb; try done; lia.
    - intros (? & ? & ?). split; [lia|]. gen_cases; pairs; lia. }
  assert (Hlive : forall k, live n orig (fun _ => []) 0 k <-> is_Some (orig !! k)).
  { intros k. unfold live. split; [tauto|]. intros Hk. split; [done|]. intros. apply not_elem_of_nil. }
  destruct (optimised_plan m n orig (fun _ => []) (fun _ => []) (fun _ _ st => mret st)) as (st & E & G); try done.
  - intros id st _ _ W _. by apply refl_ok.
  - intros id k src _ _ H. by apply elem_of_nil in H.
  - intros a b (? & ? & ?)%Hlive%Hedge. lia.
  - apply reach_by_parent. intros i ??. exists ((i + 1) / 2 - 1). split; [lia|]. apply Hlive, Hedge. lia.
  - apply agree_by_removed; [|intros p x b (bs & Hb & _) Hs|apply live_dec].
    + intros a a' b (? & ? & ?)%Hlive%Hedge (? & ? & ?)%Hlive%Hedge. lia.
    + destruct Hs. apply Hlive. by eexists.
  - exists st. split; [|done]. rewrite <- E. destruct (copy_interfaces orig) as [st0|]; [|done].
    rsimpl. unfold create_opt_interface. by induction (reverse (nrange 1 (n + 1))).
Qed.

(** *** All topologies *)

Lemma opt_plan ty :
  deterministic ty = true -> size_fits ty n = true -> n <> 0 -> ~ (ty = MULTIPLE_RING_TOPOLOGY /\ n = 3) ->
  covers n (det_row ty n) orig ->
  exists st, generate_opt_topology ty n orig = Ok st /\ good_plan n orig st.
Proof.
  intros Hd Hs H0 H3 Hc. unfold generate_opt_topology.
  destruct (deterministic_cases _ Hd) as [->|[->|[->|[->|[->| ->]]]]];
    cbn -[N.modulo copy_interfaces create_opt_interface] in Hs, Hc |- *;
    row_cases; cbn in Hs; try done; change (not_null (Some ?g)) with (Ok g).
  - apply diamond_plan; [lia|done..].
  - apply zigzag_plan; [lia|done..].
  - apply ring_plan; [lia|done..].
  - destruct tree_plan as (st & -> & G); [lia|done|]. by exists st.
  - apply house_plan; [lia|done..].
  - lia.
  - apply multiple_plan; [lia|done..].
  - apply multiple_plan; [lia|done..].
Qed.

End topologies.

(** For every topology without random edges of an accepted size, if the
    interface map has one interface per edge of the generated topology, the
    optimiser fails no assertion and returns a good plan: no new edges, no
    cycle, every context reachable from the root, no interface smaller than
    before, no belief that nobody asked for, and any two contexts that have to
    agree on a belief get it from a common context along edges that all carry
    it. *)
Theorem optimised_plans_good o o' t ds m orig :
  read_input o = Some o' -> deterministic (topology_type o) = true ->
  ~ (topology_type o = MULTIPLE_RING_TOPOLOGY /\ no_contexts o = 3) ->
  2 * no_contexts o + 8 < W64 ->
  generate_orig_topology (topology_type o') (mk_gen (setup_topos (no_contexts o')) ds) = Ok (mk_gen t ds) ->
  (forall i j, is_Some (orig !! (i, j)) <-> edge t i j) ->
  (forall k bs, orig !! k = Some bs -> bs_wf m bs) ->
  exists st, generate_opt_topology (topology_type o') (no_contexts o') orig = Ok st /\
    good_plan (no_contexts o) orig st.
Proof.
  intros (Et & En & ? & _ & _ & ?)%read_input_accepts Hd H3 Hn Hg Ho Hwf. rewrite Et, En in *.
  destruct (deterministic_topology (topology_type o) (no_contexts o) ds) as [E Hs]; [done..|].
  rewrite E in Hg. injection Hg as <-. apply (opt_plan m); try done.
  intros i j. rewrite Ho. apply edge_topology_of. by apply det_rows_ok.
Qed.

(** A ring of two contexts with two positions each, where each context asks
    the other for one belief. *)
Definition sample_wanted (p : N) : NewBeliefState := put (mk_bs (bvector_sized 4) (bvector_sized 4)) p DMCS_TRUE.

Definition sample_orig : gmap ContextPair NewBeliefState :=
  {[ (0, 1) := sample_wanted 3; (1, 0) := sample_wanted 1 ]}.

Lemma sample_wanted_wf p : p < 4 -> bs_wf 4 (sample_wanted p).
Proof. intros Hp. apply wf_put; [|done]. split; cbn; auto with bits. done. Qed.

Lemma optimised_plans_good_witness :
  exists st, generate_opt_topology PURE_RING_TOPOLOGY 2 sample_orig = Ok st /\ good_plan 2 sample_orig st.
Proof.
  apply (optimised_plans_good (sample_options 4 2) (mk_options false 2 9 3 2 4 "student" "build" 4 0)
    [[1]; [0]] [] 4 sample_orig); [reflexivity|reflexivity|intros [[=] _]|reflexivity|reflexivity| |].
  - intros i j. unfold sample_orig, edge. split.
    + intros [bs [[[= <- <-] _]|[_ [[= <- <-] _]%lookup_singleton_Some]]%lookup_insert_Some].
      * exists [1]. split; [done|left].
      * exists [0]. split; [done|left].
    + intros (row & Hr & Hj). assert (Hi : i = 0 \/ i = 1).
      { apply lookup_lt_Some in Hr. cbn in Hr. lia. }
      destruct Hi as [->| ->]; injection Hr as <-; apply list_elem_of_singleton in Hj as ->; by eexists.
  - unfold sample_orig. intros k bs [[_ <-]|[_ [_ <-]%lookup_singleton_Some]]%lookup_insert_Some;
      by apply sample_wanted_wf.
Defined.

End OptPlans.
