(* ===== verification/GenContexts.v ===== *)
(** * The contexts of generated systems

    The benchmark generator fills a topology with contexts: local rules, and
    bridge rules over randomly chosen interface atoms of the neighbors.  From
    the bridge rules it computes the local interface of every edge, which the
    query plans are written from.  This file models [genInterface] of
    src/generator/new_dmcsGen.cpp, src/generator/ContextGeneratorBase.cpp with
    its two subclasses, and the set-up of [new_minV] in
    src/generator/new_staticGen.cpp.  As in [Topologies], [rand ()] is a list
    of draws, and a loop that draws until it is satisfied ends when the list
    does. *)

From S2P Require Import Prelude BitMagic BeliefState BeliefStateOffset Topologies OptTopologies OptPlans.
From stdpp Require Import relations.
Import BitMagic BeliefState BeliefStateOffset Topologies OptTopologies OptPlans.

#[local] Open Scope N_scope.

Module GenContexts.

(** ** Rules, as in include/mcs/Rule.h *)

Record Rule := mk_rule {
  rule_head : list N;
  rule_pos : list N;
  rule_neg : list N
}.

Abbreviation BridgeAtom := (N * N)%type.

Record BridgeRule := mk_br {
  br_head : list N;
  br_pos : list BridgeAtom;
  br_neg : list BridgeAtom
}.

Abbreviation Interface := (list N).

Definition draw (ds : list N) : res (N * list N) :=
  match ds with
  | [] => Err OutOfFuel
  | r :: ds => mret (r, ds)
  end.

Definition odd_draw (r : N) : bool := negb (r mod 2 =? 0).

(** ** [genInterface]: the interface atoms of every context *)

(** [while (1)]: draw until the atom is new. *)
Fixpoint pick_new (no_atoms : N) (c_i_interface : Interface) (ds : list N) : res (N * list N) :=
  match ds with
  | [] => Err OutOfFuel
  | r :: ds =>
      let k := r mod no_atoms + 1 in
      if bool_decide (k ∈ c_i_interface) then pick_new no_atoms c_i_interface ds else mret (k, ds)
  end.

Definition pick_interface (no_atoms no_interface_atoms : N) (ds : list N) : res (Interface * list N) :=
  foldM (fun acc _ => '(k, ds) ← pick_new no_atoms acc.1 acc.2; mret (acc.1 ++ [k], ds))
    ([], ds) (nrange 0 no_interface_atoms).

(** The atoms are sorted before they are stored. *)
Definition gen_interfaces (no_contexts no_atoms no_interface_atoms : N) (ds : list N)
    : res (list Interface * list N) :=
  foldM (fun acc _ =>
      '(i, ds) ← pick_interface no_atoms no_interface_atoms acc.2;
      mret (acc.1 ++ [merge_sort N.le i], ds))
    ([], ds) (nrange 0 no_contexts).

(** ** Local knowledge bases *)

(** The rule [i :- not j.] *)
Definition not_rule (i j : N) : Rule := mk_rule [i] [] [j].

(** [ContextGeneratorDeterministic::generate_local_kb] *)
Definition local_kb_deterministic (no_atoms : N) (ds : list N) : res (list Rule * list N) :=
  foldM (fun acc i =>
      let '(kb, ds) := acc in
      if i mod 2 =? 0 then
        '(r, ds) ← draw ds;
        if odd_draw r then
          if i <? no_atoms then mret (kb ++ [not_rule i (i + 1)], ds) else mret (kb, ds)
        else mret (kb, ds)
      else if i <? no_atoms then mret (kb ++ [not_rule i (i + 1)], ds)
      else mret (kb, ds))
    ([], ds) (nrange 1 (no_atoms + 1)).

(** [ContextGeneratorNonDeterministic::generate_local_kb] *)
Definition local_kb_nondeterministic (no_atoms : N) (ds : list N) : res (list Rule * list N) :=
  foldM (fun acc i =>
      let '(kb, ds) := acc in
      if i mod 2 =? 0 then
        '(r, ds) ← draw ds;
        if odd_draw r then mret (kb ++ [not_rule i (i - 1)], ds)
        else if i <? no_atoms then mret (kb ++ [not_rule i (i + 1)], ds)
        else mret (kb, ds)
      else if i <? no_atoms then mret (kb ++ [not_rule i (i + 1)], ds)
      else mret (kb, ds))
    ([], ds) (nrange 1 (no_atoms + 1)).

Definition generate_local_kb (local_kb_type no_atoms : N) (ds : list N) : res (list Rule * list N) :=
  if local_kb_type =? 0 then local_kb_nondeterministic no_atoms ds
  else local_kb_deterministic no_atoms ds.

(** ** Bridge rules *)

(** Conversion of a 64-bit product to [int]. *)
Definition to_int (z : Z) : Z := ((z + 2 ^ 31) mod 2 ^ 32 - 2 ^ 31)%Z.

Definition sign (r : N) : Z := if odd_draw r then 1%Z else (-1)%Z.

(** [sign() * nbor_interface[atom_pos]], stored in an [int] *)
Definition signed_atom (r atom : N) : Z := to_int ((sign r * Z.of_N atom) mod 2 ^ 64).

(** The rule with the atom, and 1 if the atom was new. *)
Definition addUniqueBridgeAtom (r : BridgeRule) (neighbor_id : N) (neighbor_atom : Z) : BridgeRule * N :=
  let bap := (neighbor_id, Z.to_N (Z.max neighbor_atom (- neighbor_atom))) in
  if bool_decide (bap ∉ br_pos r) && bool_decide (bap ∉ br_neg r) then
    if (0 <? neighbor_atom)%Z then (mk_br (br_head r) (br_pos r ++ [bap]) (br_neg r), 1)
    else (mk_br (br_head r) (br_pos r) (br_neg r ++ [bap]), 1)
  else (r, 0).

(** The [do ... while (count < no_bridge_atoms)] loop, three draws a turn. *)
Fixpoint add_atoms (nbors : list N) (ifaces : list Interface) (no_bridge_atoms : N)
    (r : BridgeRule) (count : N) (ds : list N) : res (BridgeRule * list N) :=
  match ds with
  | r1 :: r2 :: r3 :: ds =>
      nbor_id ← vec_at nbors (r1 mod N.of_nat (length nbors));
      nbor_interface ← vec_at ifaces nbor_id;
      atom ← vec_at nbor_interface (r2 mod N.of_nat (length nbor_interface));
      let '(r, added) := addUniqueBridgeAtom r nbor_id (signed_atom r3 atom) in
      let count := count + added in
      if count <? no_bridge_atoms then add_atoms nbors ifaces no_bridge_atoms r count ds
      else mret (r, ds)
  | _ => Err OutOfFuel
  end.

Definition generate_bridge_rule (no_atoms : N) (nbors : list N) (ifaces : list Interface) (ds : list N)
    : res (BridgeRule * list N) :=
  '(r1, ds) ← draw ds;
  let br_h := r1 mod no_atoms + 1 in
  '(r2, ds) ← draw ds;
  let no_bridge_atoms := r2 mod 2 + 1 in
  add_atoms nbors ifaces no_bridge_atoms (mk_br [br_h] [] []) 0 ds.

(** One attempt at a list of rules. *)
Definition some_bridge_rules (no_atoms no_bridge_rules : N) (nbors : list N) (ifaces : list Interface)
    (ds : list N) : res (list BridgeRule * list N) :=
  foldM (fun acc _ =>
      let '(rules, ds) := acc in
      '(r, ds) ← draw ds;
      if odd_draw r then
        '(rule, ds) ← generate_bridge_rule no_atoms nbors ifaces ds;
        mret (rules ++ [rule], ds)
      else mret (rules, ds))
    ([], ds) (nrange 0 no_bridge_rules).

Definition body_atoms (r : BridgeRule) : list BridgeAtom := br_pos r ++ br_neg r.

Definition mentioned (rules : list BridgeRule) : gset N :=
  list_to_set (r ← rules; fst <$> body_atoms r).

Definition cover_neighbors (rules : list BridgeRule) (nbors : list N) : bool :=
  Nat.eqb (size (mentioned rules)) (length nbors).

(** [do ... while (!cover_neighbors(id))]; a turn takes at least one draw. *)
Fixpoint rule_list_loop (fuel : nat) (no_atoms no_bridge_rules : N) (nbors : list N)
    (ifaces : list Interface) (ds : list N) : res (list BridgeRule * list N) :=
  match fuel with
  | O => Err OutOfFuel
  | S fuel =>
      '(rules, ds) ← some_bridge_rules no_atoms no_bridge_rules nbors ifaces ds;
      if cover_neighbors rules nbors then mret (rules, ds)
      else rule_list_loop fuel no_atoms no_bridge_rules nbors ifaces ds
  end.

Definition generate_bridge_rule_list (no_atoms no_bridge_rules : N) (nbors : list N)
    (ifaces : list Interface) (ds : list N) : res (list BridgeRule * list N) :=
  rule_list_loop (S (length ds)) no_atoms no_bridge_rules nbors ifaces ds.

(** ** Interfaces *)

(** [set(i->first, i->second)] for the atoms of one neighbor. *)
Definition set_atoms (off : Offsets) (atoms : list BridgeAtom) (bs : NewBeliefState) : res NewBeliefState :=
  foldM (fun bs a => set_ctx bs a.1 a.2 (starting_offsets off) DMCS_TRUE) bs atoms.

Definition local_interface (off : Offsets) (rules : list BridgeRule) (id2 : N) : res NewBeliefState :=
  lc ← bs_blocks (no_blocks off) (size_belief_state off) false;
  lc ← setEpsilon lc id2 (starting_offsets off);
  foldM (fun lc r => set_atoms off (filter (fun a => a.1 = id2) (body_atoms r)) lc) lc rules.

Definition update_min_V (off : Offsets) (rules : list BridgeRule) (minV : NewBeliefState)
    : res NewBeliefState :=
  foldM (fun minV r => set_atoms off (body_atoms r) minV) minV rules.

(** ** [ContextGeneratorBase::generate] *)

Record gen := mk_gstate {
  g_draws : list N;
  g_lcim : gmap (N * N) NewBeliefState;
  g_minV : NewBeliefState;
  (** the files of each context: its local rules and its bridge rules *)
  g_files : list (list Rule * list BridgeRule)
}.

(** [std::map::insert] keeps an existing entry. *)
Definition insert_interface (m : gmap (N * N) NewBeliefState) (k : N * N) (bs : NewBeliefState)
    : gmap (N * N) NewBeliefState :=
  match m !! k with Some _ => m | None => <[k := bs]> m end.

Definition generate_context (o : options) (off : Offsets) (orig_topo : list (list N))
    (context_interfaces : list Interface) (st : gen) (i : N) : res gen :=
  '(local_kb, ds) ← generate_local_kb (local_kb_type o) (no_atoms o) (g_draws st);
  neighbors ← vec_at orig_topo i;
  '(bridge_rules, ds) ←
    (if (0 <? N.of_nat (length neighbors)) then
       generate_bridge_rule_list (no_atoms o) (no_bridge_rules o) neighbors context_interfaces ds
     else mret ([], ds));
  minV ← update_min_V off bridge_rules (g_minV st);
  lcim ← foldM (fun lcim j =>
      V ← local_interface off bridge_rules j;
      mret (insert_interface lcim (i, j) V)) (g_lcim st) neighbors;
  mret (mk_gstate ds lcim minV (g_files st ++ [(local_kb, bridge_rules)])).

Definition generate_contexts (o : options) (off : Offsets) (orig_topo : list (list N))
    (context_interfaces : list Interface) (st : gen) : res gen :=
  foldM (generate_context o off orig_topo context_interfaces) st
    (nrange 0 (N.of_nat (length context_interfaces))).

(** [new_minV] as [init] leaves it: all epsilon bits and the root context. *)
Definition init_minV (off : Offsets) (no_contexts no_atoms : N) : res NewBeliefState :=
  minV ← bs_blocks no_contexts no_atoms false;
  minV ← setEpsilon_all minV (starting_offsets off);
  last_index ← (if 1 <? no_contexts then o1 ← vec_at (starting_offsets off) 1; mret (u64_sub o1 1)
                else mret no_atoms);
  foldM (fun minV i => set minV i DMCS_TRUE) minV (nrange 1 (last_index + 1)).

(** The data of a system: [init], [generate_orig_topology] and
    [generate_contexts] of [main]. *)
Definition generate_data (o : options) (ds : list N) : res (list (list N) * gen) :=
  off ← ctor (no_contexts o) (no_atoms o);
  '(interfaces, ds) ← gen_interfaces (no_contexts o) (no_atoms o) (no_interface_atoms o) ds;
  minV ← init_minV off (no_contexts o) (no_atoms o);
  st ← generate_orig_topology (topology_type o) (mk_gen (setup_topos (no_contexts o)) ds);
  g ← generate_contexts o off (topo st) interfaces (mk_gstate (draws st) ∅ minV []);
  mret (topo st, g).

(** ** Supplying draws *)

(** A loop whose every turn can be supplied with draws can be supplied. *)
Lemma supply_loop {S} (put_draws : list N -> S -> S) (P : N -> S -> Prop) (f : S -> N -> res S) lo hi s :
  lo <= hi -> P lo s ->
  (forall i s, lo <= i -> i < hi -> P i s ->
     exists ds0 s', P (i + 1) s' /\ forall ds, f (put_draws (ds0 ++ ds) s) i = Ok (put_draws ds s')) ->
  exists ds0 s', P hi s' /\ forall ds, foldM f (put_draws (ds0 ++ ds) s) (nrange lo hi) = Ok (put_draws ds s').
Proof.
  intros Hle HP Hs. remember (N.to_nat (hi - lo)) as k eqn:Hk. revert lo s Hle HP Hs Hk.
  induction k as [|k IH]; intros lo s Hle HP Hs Hk.
  - exists [], s. rewrite nrange_nil by lia. replace hi with lo by lia. done.
  - destruct (Hs lo s) as (ds1 & s1 & HP1 & E1); [lia..|done|].
    destruct (IH (lo + 1) s1) as (ds2 & s2 & HP2 & E2); [lia|done|intros i s0 ??; apply Hs; lia|lia|].
    exists (ds1 ++ ds2), s2. split; [done|]. intros ds. rewrite nrange_cons by lia. cbn [foldM].
    rewrite <- app_assoc, E1. rsimpl. apply E2.
Qed.

(** ** Interface atoms *)

(** [n] different atoms of a context. *)
Definition interface_ok (no_atoms n : N) (i : Interface) : Prop :=
  NoDup i /\ N.of_nat (length i) = n /\ Forall (fun a => 1 <= a /\ a <= no_atoms) i.

Lemma pick_new_spec no_atoms i ds k ds' :
  no_atoms <> 0 -> pick_new no_atoms i ds = Ok (k, ds') -> (k ∉ i) /\ 1 <= k /\ k <= no_atoms.
Proof.
  intros H0. induction ds as [|r ds IH]; [done|]. cbn [pick_new]. case_bool_decide; [done|].
  intros [= <- <-]. pose proof (N.mod_lt r no_atoms H0). split; [done|].
  generalize dependent (r mod no_atoms). intros. lia.
Qed.

Lemma interface_ok_snoc no_atoms n i k :
  interface_ok no_atoms n i -> k ∉ i -> 1 <= k -> k <= no_atoms -> interface_ok no_atoms (n + 1) (i ++ [k]).
Proof.
  intros (Hn & Hl & Hf) Hk ??. split; [|split].
  - apply NoDup_app. split; [done|]. split; [|apply NoDup_singleton].
    intros x Hx ->%list_elem_of_singleton. done.
  - rewrite length_app. cbn. lia.
  - apply Forall_app. split; [done|]. by repeat constructor.
Qed.

Lemma interface_ok_nil no_atoms : interface_ok no_atoms 0 [].
Proof. split; [constructor|]. by split. Qed.

Lemma pick_interface_spec no_atoms n ds i ds' :
  no_atoms <> 0 -> pick_interface no_atoms n ds = Ok (i, ds') -> interface_ok no_atoms n i.
Proof.
  intros H0. unfold pick_interface.
  apply (foldM_nrange_partial (fun k acc => interface_ok no_atoms k acc.1)); [lia| |apply interface_ok_nil].
  intros k [j ds1] [j' ds2] _ _ Hj. cbn. destruct (pick_new _ _ _) as [[a ds3]|] eqn:E; [|done]. cbn.
  intros [= <- <-]. apply pick_new_spec in E as (?&?&?); [|done]. by apply interface_ok_snoc.
Qed.

(** There are only [no_atoms] atoms to choose from. *)
Lemma interface_ok_bound no_atoms n i : interface_ok no_atoms n i -> n <= no_atoms.
Proof.
  intros (Hn & Hl & Hf).
  assert (Hle : (length i <= length (nrange 1 (no_atoms + 1)))%nat).
  { apply NoDup_incl_length; [by apply NoDup_ListNoDup|]. intros a Ha.
    apply list_elem_of_In, elem_of_nrange. apply list_elem_of_In in Ha. rewrite Forall_forall in Hf.
    apply Hf in Ha. lia. }
  rewrite length_nrange in Hle. lia.
Qed.

(** Drawing one atom after the other succeeds at once. *)
Lemma pick_interface_returns no_atoms n ds :
  n <= no_atoms -> no_atoms <> 0 ->
  pick_interface no_atoms n (nrange 0 n ++ ds) = Ok (nrange 1 (n + 1), ds).
Proof.
  intros Hn H0. unfold pick_interface.
  destruct (foldM_nrange (fun k acc => acc = (nrange 1 (k + 1), nrange k n ++ ds))
    (fun acc _ => '(k, ds) ← pick_new no_atoms acc.1 acc.2; mret (acc.1 ++ [k], ds))
    ([], nrange 0 n ++ ds) n) as (acc & -> & ->); [by rewrite (nrange_nil 1 (0 + 1)) by lia| |].
  - intros k acc Hk ->. eexists. split; [|done]. cbn [fst snd]. rewrite (nrange_cons k n) by done.
    cbn [app pick_new]. rewrite N.mod_small by lia.
    rewrite bool_decide_eq_false_2 by (rewrite elem_of_nrange; lia).
    rsimpl. by rewrite (nrange_snoc 1 (k + 1)) by lia.
  - by rewrite (nrange_nil n n) by lia.
Qed.

Lemma interface_ok_sort no_atoms n i : interface_ok no_atoms n i -> interface_ok no_atoms n (merge_sort N.le i).
Proof.
  intros (Hn & Hl & Hf). pose proof (merge_sort_Permutation N.le i) as Hp. split; [|split].
  - by rewrite Hp.
  - by rewrite Hp.
  - by rewrite Hp.
Qed.

Lemma gen_interfaces_spec no_contexts no_atoms n ds ifs ds' :
  no_atoms <> 0 -> gen_interfaces no_contexts no_atoms n ds = Ok (ifs, ds') ->
  N.of_nat (length ifs) = no_contexts /\ Forall (interface_ok no_atoms n) ifs.
Proof.
  intros H0. unfold gen_interfaces.
  apply (foldM_nrange_partial (fun k acc => N.of_nat (length acc.1) = k /\ Forall (interface_ok no_atoms n) acc.1));
    [lia| |done].
  intros k [j ds1] acc' _ _ [Hl Hf]. cbn in Hl, Hf |- *. destruct (pick_interface _ _ _) as [[i ds3]|] eqn:E; [|done]. cbn.
  intros [= <-]. cbn. apply pick_interface_spec in E; [|done]. rewrite length_app. cbn. split; [lia|].
  apply Forall_app. split; [done|]. constructor; [by apply interface_ok_sort|done].
Qed.

Lemma gen_interfaces_returns no_contexts no_atoms n :
  n <= no_atoms -> no_atoms <> 0 ->
  exists ds0 ifs, forall ds, gen_interfaces no_contexts no_atoms n (ds0 ++ ds) = Ok (ifs, ds).
Proof.
  intros Hn H0. unfold gen_interfaces.
  destruct (supply_loop (fun ds (s : list Interface * list N) => (s.1, ds)) (fun _ _ => True)
    (fun acc _ => '(i, ds) ← pick_interface no_atoms n acc.2; mret (acc.1 ++ [merge_sort N.le i], ds))
    0 no_contexts ([], [])) as (ds0 & [ifs ds'] & _ & E); [lia|done| |by exists ds0, ifs].
  intros k [ifs ds1] _ _ _. exists (nrange 0 n), (ifs ++ [merge_sort N.le (nrange 1 (n + 1))], []).
  split; [done|]. intros ds. cbn [fst snd]. by rewrite pick_interface_returns.
Qed.

(** ** Bridge rules *)

Section bridge_rules.
Context (no_atoms no_bridge_rules : N) (nbors : list N) (ifaces : list Interface).
Context (H0 : no_atoms <> 0).
Context (Hifaces : forall i, i ∈ ifaces -> Forall (fun a => 1 <= a /\ a < 2 ^ 31) i).

(** An interface atom of a neighbor. *)
Definition atom_ok (a : BridgeAtom) : Prop :=
  a.1 ∈ nbors /\ exists i, ifaces !! N.to_nat a.1 = Some i /\ a.2 ∈ i.

Definition body_ok (n : N) (r : BridgeRule) : Prop :=
  NoDup (body_atoms r) /\ N.of_nat (length (body_atoms r)) = n /\ Forall atom_ok (body_atoms r).

(** One head, and one or two different interface atoms of neighbors. *)
Definition rule_ok (r : BridgeRule) : Prop :=
  (exists h, br_head r = [h] /\ 1 <= h /\ h <= no_atoms) /\ exists n, 1 <= n /\ n <= 2 /\ body_ok n r.

Lemma signed_atom_spec r a :
  1 <= a -> a < 2 ^ 31 -> signed_atom r a = (if odd_draw r then Z.of_N a else - Z.of_N a)%Z.
Proof.
  intros H1 H2. unfold signed_atom, to_int, sign. change (2 ^ 31)%N with 2147483648%N in H2.
  change (2 ^ 31)%Z with 2147483648%Z. change (2 ^ 32)%Z with 4294967296%Z.
  change (2 ^ 64)%Z with 18446744073709551616%Z. destruct (odd_draw r).
  - rewrite Z.mul_1_l, (Z.mod_small _ 18446744073709551616), Z.mod_small by lia. lia.
  - replace (-1 * Z.of_N a)%Z with (18446744073709551616 - Z.of_N a + (-1) * 18446744073709551616)%Z by lia.
    rewrite Z_mod_plus_full, (Z.mod_small _ 18446744073709551616) by lia.
    replace (18446744073709551616 - Z.of_N a + 2147483648)%Z
      with (2147483648 - Z.of_N a + 4294967296 * 4294967296)%Z by lia.
    rewrite Z_mod_plus_full, Z.mod_small by lia. lia.
Qed.

Lemma addUnique_spec r n id d a :
  body_ok n r -> atom_ok (id, a) -> 1 <= a -> a < 2 ^ 31 ->
  let '(r', added) := addUniqueBridgeAtom r id (signed_atom d a) in
  br_head r' = br_head r /\ body_ok (n + added) r' /\
  ((id, a) ∉ body_atoms r -> added = 1 /\ body_atoms r' ≡ₚ (id, a) :: body_atoms r) /\
  ((id, a) ∈ body_atoms r -> added = 0) /\ added <= 1.
Proof.
  intros (Hn & Hl & Hf) Ha H1 H2. unfold addUniqueBridgeAtom. rewrite signed_atom_spec by done.
  assert (E : Z.to_N (Z.max (if odd_draw d then Z.of_N a else - Z.of_N a)
    (- (if odd_draw d then Z.of_N a else - Z.of_N a))) = a) by (destruct (odd_draw d); lia).
  rewrite E. unfold body_atoms in *. destruct (decide ((id, a) ∈ br_pos r ++ br_neg r)) as [Hin|Hin].
  - assert (bool_decide ((id, a) ∉ br_pos r) && bool_decide ((id, a) ∉ br_neg r) = false) as ->.
    { apply elem_of_app in Hin as [Hin|Hin]; [rewrite (bool_decide_eq_false_2 (_ ∉ br_pos r)) by tauto; done|].
      rewrite (bool_decide_eq_false_2 (_ ∉ br_neg r)) by tauto. apply andb_false_r. }
    rewrite N.add_0_r. split; [done|]. split; [done|]. split; [done|]. split; [done|lia].
  - pose proof Hin as [Hp Hq]%not_elem_of_app. rewrite !bool_decide_eq_true_2 by done. cbn [andb].
    assert (Hbody : forall r', body_atoms r' ≡ₚ (id, a) :: br_pos r ++ br_neg r -> br_head r' = br_head r ->
      br_head r' = br_head r /\ body_ok (n + 1) r' /\
      ((id, a) ∉ br_pos r ++ br_neg r -> 1 = 1 /\ body_atoms r' ≡ₚ (id, a) :: br_pos r ++ br_neg r) /\
      ((id, a) ∈ br_pos r ++ br_neg r -> 1 = 0) /\ 1 <= 1).
    { intros r' Hr' Hh. split; [done|]. split; [|split; [done|split; [done|lia]]].
      split; [|split]; rewrite Hr'.
      - by constructor.
      - cbn. lia.
      - by constructor. }
    destruct (0 <? _)%Z; apply Hbody; try done; unfold body_atoms; cbn [br_pos br_neg].
    + rewrite <- app_assoc. symmetry. apply Permutation_middle.
    + rewrite app_assoc. symmetry. apply Permutation_cons_append.
Qed.

Lemma add_atoms_spec wanted r count ds r' ds' :
  body_ok count r -> count < wanted ->
  add_atoms nbors ifaces wanted r count ds = Ok (r', ds') ->
  br_head r' = br_head r /\ body_ok wanted r' /\ (length ds' < length ds)%nat.
Proof.
  revert r count. induction ds as [ds IH] using (well_founded_induction (well_founded_ltof _ (@length N))).
  intros r count Hr Hc. destruct ds as [|r1 [|r2 [|r3 ds]]]; [done..|]. cbn [add_atoms]. intros H. res_inv.
  destruct (addUniqueBridgeAtom _ _ _) as [r2' added] eqn:E.
  assert (Hin : atom_ok (x, x1)).
  { split; [by eapply list_elem_of_lookup_2|]. exists x0. split; [done|]. by eapply list_elem_of_lookup_2. }
  assert (Hx1 : 1 <= x1 /\ x1 < 2 ^ 31).
  { assert (Hx0 : x0 ∈ ifaces) by (by eapply list_elem_of_lookup_2). apply Hifaces in Hx0.
    rewrite Forall_forall in Hx0. apply Hx0. by eapply list_elem_of_lookup_2. }
  pose proof (addUnique_spec r count x r3 x1 Hr Hin (proj1 Hx1) (proj2 Hx1)) as Hs. rewrite E in Hs.
  destruct Hs as (Hh & Hb & _ & _ & Hle). destruct (N.ltb_spec (count + added) wanted).
  - eapply IH in H3; [|unfold ltof; cbn; lia|done|done]. rewrite <- Hh. destruct H3 as (? & ? & ?).
    split; [done|]. split; [done|]. cbn. lia.
  - injection H3 as <- <-. split; [done|]. split; [|cbn; lia]. by replace wanted with (count + added) by lia.
Qed.

Lemma generate_bridge_rule_spec ds r ds' :
  generate_bridge_rule no_atoms nbors ifaces ds = Ok (r, ds') -> rule_ok r /\ (length ds' < length ds)%nat.
Proof.
  unfold generate_bridge_rule. destruct ds as [|r1 [|r2 ds]]; [done..|]. cbn [draw]. rsimpl. cbn [draw].
  rsimpl. intros H. pose proof (N.mod_lt r1 no_atoms H0). pose proof (N.mod_lt r2 2 ltac:(done)).
  apply add_atoms_spec in H as (Hh & Hb & Hl).
  - split; [|cbn; lia]. split.
    + exists (r1 mod no_atoms + 1). split; [done|]. generalize dependent (r1 mod no_atoms). intros. lia.
    + exists (r2 mod 2 + 1). revert Hb. generalize dependent (r2 mod 2). intros. split; [lia|]. split; [lia|done].
  - split; [constructor|]. by split.
  - generalize (r2 mod 2). intros. lia.
Qed.

Lemma some_bridge_rules_spec ds rules ds' :
  some_bridge_rules no_atoms no_bridge_rules nbors ifaces ds = Ok (rules, ds') ->
  Forall rule_ok rules /\ N.of_nat (length rules) <= no_bridge_rules /\
  no_bridge_rules + N.of_nat (length ds') <= N.of_nat (length ds).
Proof.
  unfold some_bridge_rules.
  apply (foldM_nrange_partial (fun k acc => Forall rule_ok acc.1 /\ N.of_nat (length acc.1) <= k /\
    k + N.of_nat (length acc.2) <= N.of_nat (length ds))); [lia| |done].
  intros k [rs ds1] acc' _ _ (Hf & Hl & Hd). cbn in Hf, Hl, Hd |- *.
  destruct ds1 as [|r ds1]; [done|]. cbn [draw length] in *. rsimpl. destruct (odd_draw r).
  - destruct (generate_bridge_rule _ _ _ _) as [[rule ds2]|] eqn:E; [|done]. rsimpl. intros [= <-].
    apply generate_bridge_rule_spec in E as [Hr Hlt]. cbn. rewrite length_app. cbn.
    split; [|lia]. apply Forall_app. split; [done|]. by constructor.
  - intros [= <-]. cbn. split; [done|lia].
Qed.

(** With more than as many turns as draws, the loop never lacks turns: more of
    them change nothing. *)
Lemma rule_list_fuel fuel ds :
  no_bridge_rules <> 0 -> (length ds < fuel)%nat ->
  rule_list_loop fuel no_atoms no_bridge_rules nbors ifaces ds =
  rule_list_loop (S fuel) no_atoms no_bridge_rules nbors ifaces ds.
Proof.
  intros Hb. revert ds. induction fuel as [|fuel IH]; intros ds Hf; [lia|].
  cbn [rule_list_loop]. destruct (some_bridge_rules _ _ _ _ _) as [[rules ds']|] eqn:E; [|done]. rsimpl.
  apply some_bridge_rules_spec in E as (_ & _ & Hd). destruct (cover_neighbors _ _); [done|].
  apply IH. lia.
Qed.

Lemma elem_of_mentioned rules id : id ∈ mentioned rules <-> exists r a, r ∈ rules /\ (id, a) ∈ body_atoms r.
Proof.
  unfold mentioned. rewrite elem_of_list_to_set, list_elem_of_bind. split.
  - intros (r & [[i a] [-> Ha]]%list_elem_of_fmap & Hr). eauto.
  - intros (r & a & Hr & Ha). exists r. split; [|done]. apply list_elem_of_fmap. by exists (id, a).
Qed.

(** Rules of the right form mention at most two neighbors each. *)
Lemma mentioned_bound rules : Forall rule_ok rules -> N.of_nat (size (mentioned rules)) <= 2 * N.of_nat (length rules).
Proof.
  intros Hf. unfold mentioned. pose proof (size_list_to_set_le (C := gset N) (r ← rules; fst <$> body_atoms r)) as Hs.
  enough (N.of_nat (length (r ← rules; fst <$> body_atoms r)) <= 2 * N.of_nat (length rules)) by lia. clear Hs.
  induction Hf as [|r rules [_ (n & _ & ? & _ & Hl & _)] _ IH]; cbn; [done|].
  rewrite length_app, length_fmap. lia.
Qed.

Lemma mentioned_nbors rules : Forall rule_ok rules -> mentioned rules ⊆ list_to_set nbors.
Proof.
  intros Hf id (r & a & Hr & Ha)%elem_of_mentioned. rewrite elem_of_list_to_set.
  rewrite Forall_forall in Hf. destruct (Hf r Hr) as [_ (n & _ & _ & _ & _ & Hat)].
  rewrite Forall_forall in Hat. by destruct (Hat _ Ha).
Qed.

(** What a finished list of bridge rules is: rules of the right form, no more
    than wanted, over exactly the neighbors. *)
Record rules_ok (rules : list BridgeRule) : Prop := {
  rules_form : Forall rule_ok rules;
  rules_count : N.of_nat (length rules) <= no_bridge_rules;
  rules_cover id : id ∈ nbors <-> exists r a, r ∈ rules /\ (id, a) ∈ body_atoms r
}.

Lemma covering_rules_ok rules :
  NoDup nbors -> Forall rule_ok rules -> N.of_nat (length rules) <= no_bridge_rules ->
  cover_neighbors rules nbors = true -> rules_ok rules.
Proof.
  intros Hn Hf Hl Hc. split; [done..|]. intros id. rewrite <- elem_of_mentioned.
  rewrite (set_subseteq_size_eq (mentioned rules) (list_to_set nbors)).
  - by rewrite elem_of_list_to_set.
  - by apply mentioned_nbors.
  - rewrite size_list_to_set by done. apply Nat.eqb_eq in Hc. lia.
Qed.

Lemma rule_list_loop_spec fuel ds rules ds' :
  NoDup nbors -> rule_list_loop fuel no_atoms no_bridge_rules nbors ifaces ds = Ok (rules, ds') -> rules_ok rules.
Proof.
  intros Hn. revert ds. induction fuel as [|fuel IH]; intros ds; [done|]. cbn [rule_list_loop].
  destruct (some_bridge_rules _ _ _ _ _) as [[rs ds1]|] eqn:E; [|done]. rsimpl.
  apply some_bridge_rules_spec in E as (Hf & Hl & _). destruct (cover_neighbors _ _) eqn:Hc; [|apply IH].
  intros [= <- <-]. by apply covering_rules_ok.
Qed.

Lemma rules_ok_bound rules : NoDup nbors -> rules_ok rules -> N.of_nat (length nbors) <= 2 * no_bridge_rules.
Proof.
  intros Hn [Hf Hl Hc]. pose proof (mentioned_bound rules Hf).
  assert (Hs : (size (list_to_set nbors : gset N) <= size (mentioned rules))%nat).
  { apply subseteq_size. intros id. rewrite elem_of_list_to_set, Hc. apply elem_of_mentioned. }
  rewrite size_list_to_set in Hs by done. lia.
Qed.

(** *** Draws that succeed at once

    The first rule mentions the first two neighbors, the second one the next
    two, and so on. *)

Definition rule_draws (k : N) : list N :=
  let n := N.of_nat (length nbors) in
  if 2 * k + 1 <? n then [1; 0; 1; 2 * k; 0; 1; 2 * k + 1; 0; 1]
  else if 2 * k <? n then [1; 0; 0; 2 * k; 0; 1]
  else [0].

Context (Hnonempty : forall id, id ∈ nbors -> exists a i, ifaces !! N.to_nat id = Some (a :: i)).

Lemma add_atoms_turn k id a i wanted r count :
  nbors !! N.to_nat k = Some id -> ifaces !! N.to_nat id = Some (a :: i) -> (id, a) ∉ body_atoms r ->
  exists r', body_atoms r' ≡ₚ (id, a) :: body_atoms r /\ forall ds,
    add_atoms nbors ifaces wanted r count (k :: 0 :: 1 :: ds) =
    if count + 1 <? wanted then add_atoms nbors ifaces wanted r' (count + 1) ds else Ok (r', ds).
Proof.
  intros Hk Hid Hnew.
  assert (Ha : 1 <= a /\ a < 2 ^ 31).
  { assert (Hin : (a :: i) ∈ ifaces) by (by eapply list_elem_of_lookup_2). apply Hifaces in Hin.
    by apply Forall_cons in Hin as [? _]. }
  exists (mk_br (br_head r) (br_pos r ++ [(id, a)]) (br_neg r)). split.
  { unfold body_atoms. cbn. rewrite <- app_assoc. symmetry. apply Permutation_middle. }
  intros ds. cbn [add_atoms]. pose proof (lookup_lt_Some _ _ _ Hk). rewrite N.mod_small by lia.
  rewrite (proj2 (vec_at_ok _ _ _) Hk). rsimpl. rewrite (proj2 (vec_at_ok _ _ _) Hid). rsimpl.
  rewrite N.Div0.mod_0_l. change (vec_at (a :: i) 0) with (Ok a). rsimpl.
  unfold addUniqueBridgeAtom. rewrite signed_atom_spec by (apply Ha).
  change (odd_draw 1) with true. cbv iota.
  replace (Z.to_N (Z.max (Z.of_N a) (- Z.of_N a))) with a by lia.
  apply not_elem_of_app in Hnew as [Hp Hq]. rewrite !bool_decide_eq_true_2 by done. cbn [andb].
  by rewrite (proj2 (Z.ltb_lt _ _)) by lia.
Qed.

Lemma mentioned_snoc rules r : mentioned (rules ++ [r]) = mentioned rules ∪ list_to_set (fst <$> body_atoms r).
Proof.
  unfold mentioned. rewrite bind_app, list_to_set_app_L. cbn. by rewrite app_nil_r.
Qed.

(** The first [k] neighbors. *)
Definition first_nbors (k : N) : gset N := list_to_set (take (N.to_nat k) nbors).

Lemma first_nbors_step k id : nbors !! N.to_nat k = Some id -> first_nbors (k + 1) = first_nbors k ∪ {[id]}.
Proof.
  intros Hk. unfold first_nbors. replace (N.to_nat (k + 1)) with (S (N.to_nat k)) by lia.
  rewrite (take_S_r _ _ id) by done. rewrite list_to_set_app_L. cbn. set_solver.
Qed.

Lemma first_nbors_all k : N.of_nat (length nbors) <= k -> first_nbors k = list_to_set nbors.
Proof. intros Hk. unfold first_nbors. by rewrite take_ge by lia. Qed.

Lemma one_atom_rule k id :
  nbors !! N.to_nat k = Some id ->
  exists r, list_to_set (fst <$> body_atoms r) = ({[id]} : gset N) /\
    forall ds, generate_bridge_rule no_atoms nbors ifaces (0 :: 0 :: k :: 0 :: 1 :: ds) = Ok (r, ds).
Proof.
  intros Hk. destruct (Hnonempty id) as (a & i & Hi); [by eapply list_elem_of_lookup_2|].
  destruct (add_atoms_turn k id a i (0 mod 2 + 1) (mk_br [0 mod no_atoms + 1] [] []) 0 Hk Hi) as (r & Hr & E).
  { apply not_elem_of_nil. }
  exists r. split; [rewrite Hr; cbn; set_solver|]. intros ds.
  unfold generate_bridge_rule. cbn [draw]. rsimpl. cbn [draw]. rsimpl. by rewrite E.
Qed.

Lemma two_atom_rule k id1 id2 :
  nbors !! N.to_nat k = Some id1 -> nbors !! N.to_nat (k + 1) = Some id2 -> id1 <> id2 ->
  exists r, list_to_set (fst <$> body_atoms r) = ({[id1]} ∪ {[id2]} : gset N) /\ forall ds,
    generate_bridge_rule no_atoms nbors ifaces (0 :: 1 :: k :: 0 :: 1 :: (k + 1) :: 0 :: 1 :: ds) = Ok (r, ds).
Proof.
  intros H1 H2 Hne. destruct (Hnonempty id1) as (a1 & i1 & Hi1); [by eapply list_elem_of_lookup_2|].
  destruct (Hnonempty id2) as (a2 & i2 & Hi2); [by eapply list_elem_of_lookup_2|].
  destruct (add_atoms_turn k id1 a1 i1 (1 mod 2 + 1) (mk_br [0 mod no_atoms + 1] [] []) 0 H1 Hi1)
    as (r1 & Hr1 & E1). { apply not_elem_of_nil. }
  destruct (add_atoms_turn (k + 1) id2 a2 i2 (1 mod 2 + 1) r1 (0 + 1) H2 Hi2) as (r2 & Hr2 & E2).
  { rewrite Hr1. cbn. intros [[= ??]|Hn]%elem_of_cons; [congruence|]. by apply elem_of_nil in Hn. }
  exists r2. split; [rewrite Hr2, Hr1; cbn; set_solver|]. intros ds.
  unfold generate_bridge_rule. cbn [draw]. rsimpl. cbn [draw]. rsimpl. rewrite E1.
  change (0 + 1 <? 1 mod 2 + 1) with true. cbv iota. by rewrite E2.
Qed.

Lemma rule_turn k rules :
  NoDup nbors -> mentioned rules = first_nbors (2 * k) ->
  exists rules', mentioned rules' = first_nbors (2 * (k + 1)) /\ forall ds,
    ('(r, ds) ← draw (rule_draws k ++ ds);
     if odd_draw r then
       '(rule, ds) ← generate_bridge_rule no_atoms nbors ifaces ds; mret (rules ++ [rule], ds)
     else mret (rules, ds)) = Ok (rules', ds).
Proof.
  intros Hn Hm. unfold rule_draws. destruct (N.ltb_spec (2 * k + 1) (N.of_nat (length nbors))) as [Hlt|Hge].
  - destruct (lookup_lt_is_Some_2 nbors (N.to_nat (2 * k))) as [id1 H1]; [lia|].
    destruct (lookup_lt_is_Some_2 nbors (N.to_nat (2 * k + 1))) as [id2 H2]; [lia|].
    assert (Hne : id1 <> id2) by (intros ->; pose proof (NoDup_lookup _ _ _ _ Hn H1 H2); lia).
    destruct (two_atom_rule (2 * k) id1 id2 H1 H2 Hne) as (r & Hr & E).
    exists (rules ++ [r]). split.
    + rewrite mentioned_snoc, Hm, Hr. replace (2 * (k + 1)) with (2 * k + 1 + 1) by lia.
      rewrite (first_nbors_step _ id2) by done. rewrite (first_nbors_step _ id1) by done. set_solver.
    + intros ds. cbn [app draw]. rsimpl. change (odd_draw 1) with true. cbv iota. by rewrite E.
  - destruct (N.ltb_spec (2 * k) (N.of_nat (length nbors))) as [Hlt'|Hge'].
    + destruct (lookup_lt_is_Some_2 nbors (N.to_nat (2 * k))) as [id1 H1]; [lia|].
      destruct (one_atom_rule (2 * k) id1 H1) as (r & Hr & E). exists (rules ++ [r]). split.
      * rewrite mentioned_snoc, Hm, Hr, <- (first_nbors_step _ id1) by done. by rewrite !first_nbors_all by lia.
      * intros ds. cbn [app draw]. rsimpl. change (odd_draw 1) with true. cbv iota. by rewrite E.
    + exists rules. split; [by rewrite Hm, !first_nbors_all by lia|]. done.
Qed.

(** The generator of bridge rules can finish when there are enough rules to
    mention all neighbors. *)
Lemma rule_list_returns :
  NoDup nbors -> no_bridge_rules <> 0 -> N.of_nat (length nbors) <= 2 * no_bridge_rules ->
  exists ds0 rules, forall ds,
    generate_bridge_rule_list no_atoms no_bridge_rules nbors ifaces (ds0 ++ ds) = Ok (rules, ds).
Proof.
  intros Hn Hb Hl.
  destruct (supply_loop (fun ds (s : list BridgeRule * list N) => (s.1, ds))
    (fun k s => mentioned s.1 = first_nbors (2 * k))
    (fun acc _ => let '(rules, ds) := acc in
      '(r, ds) ← draw ds;
      if odd_draw r then
        '(rule, ds) ← generate_bridge_rule no_atoms nbors ifaces ds; mret (rules ++ [rule], ds)
      else mret (rules, ds)) 0 no_bridge_rules ([], [])) as (ds0 & [rules ds'] & Hm & E); [lia|done| |].
  - intros k [rs ds1] _ Hk Hm. destruct (rule_turn k rs Hn Hm) as (rs' & Hm' & E).
    exists (rule_draws k), (rs', []). done.
  - exists ds0, rules. intros ds. unfold generate_bridge_rule_list. cbn [rule_list_loop].
    unfold some_bridge_rules. specialize (E ds). cbn [fst] in E. rewrite E. rsimpl.
    cbn [fst] in Hm. unfold cover_neighbors. rewrite Hm, first_nbors_all, size_list_to_set by (done || lia).
    by rewrite Nat.eqb_refl.
Qed.

End bridge_rules.

(** ** Interfaces of edges *)

Section interfaces.
Context (nc na : N) (Hmax : nc * (na + 1) <= id_max).

#[local] Abbreviation off := (layout nc na).
#[local] Abbreviation width := (nc * (na + 1)).

(** The position of an atom in a belief state. *)
Definition atom_pos (a : BridgeAtom) : N := block_start na a.1 + a.2.

(** [bs'] is [bs] with the positions in [S] set. *)
Definition extends (S : N -> Prop) (bs bs' : NewBeliefState) : Prop :=
  bs_wf width bs' /\ forall p, truth bs' p = DMCS_TRUE <-> truth bs p = DMCS_TRUE \/ S p.

Lemma offset_lookup c : c < nc -> starting_offsets off !! N.to_nat c = Some (block_start na c).
Proof.
  intros Hc. cbn. rewrite list_lookup_fmap, lookup_nrange, decide_True by lia. cbn. do 2 f_equal. lia.
Qed.

Lemma put_extends bs p : bs_wf width bs -> p < width -> extends (fun q => q = p) bs (put bs p DMCS_TRUE).
Proof.
  intros Hwf Hp. split; [by apply wf_put|]. intros q. rewrite truth_put.
  destruct (N.eqb_spec p q); split; auto; try tauto. intros [?|?]; [done|congruence].
Qed.

Lemma block_pos_lt c a : c < nc -> a <= na -> block_start na c + a < width.
Proof. intros Hc Ha. unfold block_start. nia. Qed.

Lemma set_atoms_ok atoms bs :
  bs_wf width bs -> Forall (fun a => a.1 < nc /\ a.2 <= na) atoms ->
  exists bs', set_atoms off atoms bs = Ok bs' /\ extends (fun p => exists a, a ∈ atoms /\ p = atom_pos a) bs bs'.
Proof.
  intros Hwf Hf. revert bs Hwf. induction Hf as [|[c a] atoms [Hc Ha] _ IH]; intros bs Hwf.
  - exists bs. split; [done|]. split; [done|]. intros p. split; [auto|].
    intros [?|(a & Hin & _)]; [done|]. by apply elem_of_nil in Hin.
  - cbn [fst snd] in Hc, Ha. unfold set_atoms. cbn [foldM fst snd].
    pose proof (block_pos_lt c a Hc Ha).
    rewrite (set_ctx_ok width _ _ _ (block_start na c)) by (try done; by apply offset_lookup). rsimpl.
    destruct (put_extends bs (block_start na c + a)) as [Hwf' Ht]; [done..|].
    destruct (IH _ Hwf') as (bs' & E & Hw & Ht'). exists bs'. split; [done|]. split; [done|].
    intros p. rewrite Ht', Ht. setoid_rewrite elem_of_cons. unfold atom_pos. split.
    + intros [[?| ->]|(x & Hx & ->)]; [by left|right; by exists (c, a); auto|right; exists x; auto].
    + intros [?|(x & [->|Hx] & ->)]; [by left; left|by left; right|right; by exists x].
Qed.

(** What the rules say about the positions of a belief state. *)
Definition atoms_in_range (rules : list BridgeRule) : Prop :=
  forall r a, r ∈ rules -> a ∈ body_atoms r -> a.1 < nc /\ a.2 <= na.

Lemma fold_rules_ok (sel : BridgeRule -> list BridgeAtom) rules bs :
  bs_wf width bs -> (forall r a, a ∈ sel r -> a ∈ body_atoms r) -> atoms_in_range rules ->
  exists bs', foldM (fun bs r => set_atoms off (sel r) bs) bs rules = Ok bs' /\
    extends (fun p => exists r a, r ∈ rules /\ a ∈ sel r /\ p = atom_pos a) bs bs'.
Proof.
  intros Hwf Hsel Hr. revert bs Hwf. induction rules as [|r rules IH]; intros bs Hwf.
  - exists bs. split; [done|]. split; [done|]. intros p. split; [auto|].
    intros [?|(r & a & Hin & _)]; [done|]. by apply elem_of_nil in Hin.
  - destruct (set_atoms_ok (sel r) bs Hwf) as (bs1 & E1 & W1 & T1).
    { apply Forall_forall. intros a Ha. apply (Hr r); [left|auto]. }
    destruct (IH ltac:(intros r' a' ??; apply (Hr r'); [by right|done]) bs1 W1) as (bs' & E & W & T).
    exists bs'. cbn [foldM]. rewrite E1. rsimpl. split; [done|]. split; [done|].
    intros p. rewrite T, T1. setoid_rewrite elem_of_cons. split.
    + intros [[?|(a & Ha & ->)]|(r' & a & Hr' & Ha & ->)]; [by left|right; eauto 7..].
    + intros [?|(r' & a & [->|Hr'] & Ha & ->)]; [by left; left|left; right; eauto|right; eauto 7].
Qed.

Lemma update_min_V_ok rules minV :
  bs_wf width minV -> atoms_in_range rules ->
  exists minV', update_min_V off rules minV = Ok minV' /\
    extends (fun p => exists r a, r ∈ rules /\ a ∈ body_atoms r /\ p = atom_pos a) minV minV'.
Proof. intros Hwf Hr. by apply fold_rules_ok. Qed.

(** The interface of the edge to [id2]: its epsilon bit and the atoms of
    [id2] that the rules mention, nothing else. *)
Definition interface_of (rules : list BridgeRule) (id2 : N) (bs : NewBeliefState) : Prop :=
  bs_wf width bs /\ forall p, truth bs p = DMCS_TRUE <->
    p = block_start na id2 \/ exists r a, r ∈ rules /\ (id2, a) ∈ body_atoms r /\ p = block_start na id2 + a.

Lemma local_interface_ok rules id2 :
  id2 < nc -> atoms_in_range rules ->
  exists bs, local_interface off rules id2 = Ok bs /\ interface_of rules id2 bs.
Proof.
  intros Hid Hr. unfold local_interface. cbn [no_blocks size_belief_state layout].
  destruct (bs_wf_blocks nc na Hmax) as (b0 & -> & W0 & T0). rsimpl.
  pose proof (block_pos_lt id2 0 Hid ltac:(lia)).
  rewrite (setEpsilon_ok width _ _ _ (block_start na id2)); [|done|by apply offset_lookup|lia]. rsimpl.
  destruct (put_extends b0 (block_start na id2)) as [W1 T1]; [done|lia|].
  destruct (fold_rules_ok (fun r => filter (fun a => a.1 = id2) (body_atoms r)) rules _ W1) as (bs & E & W & T).
  { intros r a [_ Ha]%list_elem_of_filter. done. } { done. }
  exists bs. split; [done|]. split; [done|]. intros p. rewrite T, T1, T0. split.
  - intros [[?| ->]|(r & [c a] & Hr' & [Ec Ha]%list_elem_of_filter & ->)]; [done|by left|].
    cbn in Ec. subst c. right. exists r, a. done.
  - intros [->|(r & a & Hr' & Ha & ->)]; [by left; right|]. right. exists r, (id2, a).
    split; [done|]. split; [|done]. apply list_elem_of_filter. done.
Qed.

End interfaces.

(** ** Local rules *)

(** The rule of [i] negates the next atom, or, in a nondeterministic base, the
    previous one of an even atom. *)
Definition kb_rule_ok (local_kb_type no_atoms : N) (r : Rule) : Prop :=
  exists i j, r = not_rule i j /\ 1 <= i /\ i <= no_atoms /\ 1 <= j /\ j <= no_atoms /\
    (j = i + 1 \/ (local_kb_type = 0 /\ i mod 2 = 0 /\ i = j + 1)).

Lemma kb_rule_next ty na i : 1 <= i -> i < na -> kb_rule_ok ty na (not_rule i (i + 1)).
Proof. intros. exists i, (i + 1). repeat split; lia. Qed.

Lemma kb_rule_previous na i : i mod 2 = 0 -> 1 <= i -> i <= na -> kb_rule_ok 0 na (not_rule i (i - 1)).
Proof.
  intros E ??. assert (i <> 1) by (intros ->; done).
  exists i, (i - 1). repeat split; lia.
Qed.

Lemma local_kb_spec ty na ds kb ds' :
  generate_local_kb ty na ds = Ok (kb, ds') -> Forall (kb_rule_ok ty na) kb.
Proof.
  assert (Hsnoc : forall kb r, Forall (kb_rule_ok ty na) kb -> kb_rule_ok ty na r -> Forall (kb_rule_ok ty na) (kb ++ [r])).
  { intros. apply Forall_app. split; [done|]. by constructor. }
  unfold generate_local_kb. destruct (N.eqb_spec ty 0) as [->|].
  - apply (foldM_nrange_partial (fun _ acc => Forall (kb_rule_ok 0 na) acc.1)); [lia| |constructor].
    intros i [kb1 ds1] acc' H1 H2 Hk. cbn in Hk. destruct (N.eqb_spec (i mod 2) 0).
    + destruct ds1 as [|r ds1]; [done|]. cbn [draw]. rsimpl.
      destruct (odd_draw r); [|destruct (N.ltb_spec i na)]; intros [= <-]; cbn; auto using kb_rule_next.
      apply Hsnoc; [done|]. apply kb_rule_previous; [done|done|lia].
    + destruct (N.ltb_spec i na); intros [= <-]; cbn; auto using kb_rule_next.
  - apply (foldM_nrange_partial (fun _ acc => Forall (kb_rule_ok ty na) acc.1)); [lia| |constructor].
    intros i [kb1 ds1] acc' H1 H2 Hk. cbn in Hk. destruct (N.eqb_spec (i mod 2) 0).
    + destruct ds1 as [|r ds1]; [done|]. cbn [draw]. rsimpl.
      destruct (odd_draw r); [destruct (N.ltb_spec i na)|]; intros [= <-]; cbn; auto using kb_rule_next.
    + destruct (N.ltb_spec i na); intros [= <-]; cbn; auto using kb_rule_next.
Qed.

Lemma local_kb_returns ty na :
  exists ds0 kb, forall ds, generate_local_kb ty na (ds0 ++ ds) = Ok (kb, ds).
Proof.
  assert (Hf : forall f : list Rule * list N -> N -> res (list Rule * list N),
    (forall kb i, exists ds0 kb', forall ds, f (kb, ds0 ++ ds) i = Ok (kb', ds)) ->
    exists ds0 kb, forall ds, foldM f ([], ds0 ++ ds) (nrange 1 (na + 1)) = Ok (kb, ds)).
  { intros f Hs.
    destruct (supply_loop (fun ds (s : list Rule * list N) => (s.1, ds)) (fun _ _ => True) f 1 (na + 1) ([], []))
      as (ds0 & [kb ds'] & _ & E); [lia|done| |by exists ds0, kb].
    intros i [kb ds1] _ _ _. destruct (Hs kb i) as (ds0 & kb' & E). by exists ds0, (kb', []). }
  unfold generate_local_kb. destruct (ty =? 0); apply Hf; intros kb i;
    (destruct (i mod 2 =? 0); [exists [0]|exists []]); cbn [app draw]; rsimpl; change (odd_draw 0) with false;
    cbv iota; try destruct (i <? na); by eexists.
Qed.

(** ** Systems *)

Section systems.
Context (o : options) (t : list (list N)) (ifaces : list Interface) (minV0 : NewBeliefState).

#[local] Abbreviation nc := (no_contexts o).
#[local] Abbreviation na := (no_atoms o).

Context (Hmax : nc * (na + 1) <= id_max) (H31 : na < 2 ^ 31) (H0 : na <> 0).
Context (Hlen : N.of_nat (length t) = nc) (Hrange : forall i j, edge t i j -> j < nc) (Hnodup : forall row, row ∈ t -> NoDup row).
Context (nia : N) (Hif : Forall (interface_ok na nia) ifaces) (Hiflen : N.of_nat (length ifaces) = nc).
Context (Hmin : bs_wf (nc * (na + 1)) minV0).

(** The position [p] belongs to an atom in a body of the first contexts. *)
Definition mentions (g : gen) (p : N) : Prop :=
  exists c kb rules r a, g_files g !! c = Some (kb, rules) /\ r ∈ rules /\ a ∈ body_atoms r /\ p = atom_pos na a.

(** The contexts before [i] have been generated. *)
Record generated (i : N) (g : gen) : Prop := {
  gen_files : N.of_nat (length (g_files g)) = i;
  gen_rules c kb rules : g_files g !! N.to_nat c = Some (kb, rules) ->
    Forall (kb_rule_ok (local_kb_type o) na) kb /\
    exists nbors, t !! N.to_nat c = Some nbors /\ rules_ok na (no_bridge_rules o) nbors ifaces rules;
  gen_keys a b : is_Some (g_lcim g !! (a, b)) <-> a < i /\ edge t a b;
  gen_lcim a b bs : g_lcim g !! (a, b) = Some bs ->
    exists kb rules, g_files g !! N.to_nat a = Some (kb, rules) /\ interface_of nc na rules b bs;
  gen_minV : extends nc na (mentions g) minV0 (g_minV g)
}.

Lemma ifaces_small i : i ∈ ifaces -> Forall (fun a => 1 <= a /\ a < 2 ^ 31) i.
Proof.
  intros Hi. rewrite Forall_forall in Hif. destruct (Hif i Hi) as (_ & _ & Hf).
  eapply Forall_impl; [exact Hf|]. cbn. lia.
Qed.

Lemma rules_in_range c nbors rules :
  t !! N.to_nat c = Some nbors -> rules_ok na (no_bridge_rules o) nbors ifaces rules -> atoms_in_range nc na rules.
Proof.
  intros Hc [Hf _ _] r a Hr Ha. rewrite Forall_forall in Hf.
  destruct (Hf r Hr) as [_ (n & _ & _ & _ & _ & Hat)]. rewrite Forall_forall in Hat.
  destruct (Hat a Ha) as (Hn & i & Hi & Hin). split.
  - apply (Hrange c). by exists nbors.
  - rewrite Forall_forall in Hif. assert (Hi' : i ∈ ifaces) by (by eapply list_elem_of_lookup_2).
    destruct (Hif i Hi') as (_ & _ & Hb). rewrite Forall_forall in Hb. apply Hb in Hin. lia.
Qed.

(** The loop over the neighbors of [i] adds one interface per edge. *)
Lemma insert_interfaces_ok i rules nbors lcim :
  atoms_in_range nc na rules -> Forall (fun j => j < nc) nbors -> NoDup nbors ->
  (forall j, lcim !! (i, j) = None) ->
  exists lcim', foldM (fun lcim j => V ← local_interface (layout nc na) rules j;
      mret (insert_interface lcim (i, j) V)) lcim nbors = Ok lcim' /\
    (forall j bs, lcim' !! (i, j) = Some bs -> interface_of nc na rules j bs) /\
    (forall j, is_Some (lcim' !! (i, j)) <-> j ∈ nbors) /\
    (forall a b, a <> i -> lcim' !! (a, b) = lcim !! (a, b)).
Proof.
  intros Hr Hf Hn Hnone. induction nbors as [|j nbors IH] using rev_ind.
  - exists lcim. split; [done|]. split; [|split].
    + intros j bs. by rewrite Hnone.
    + intros j. rewrite Hnone. split; [by intros [? [=]]|]. intros H. by apply elem_of_nil in H.
    + done.
  - apply Forall_app in Hf as [Hf [Hj _]%Forall_cons]. apply NoDup_app in Hn as (Hn & Hnew & _).
    destruct (IH Hf Hn) as (l' & E & Hi & Hk & Ho). rewrite foldM_app, E. rsimpl. cbn [foldM].
    destruct (local_interface_ok nc na Hmax rules j Hj Hr) as (V & -> & HV). rsimpl.
    assert (Hno : l' !! (i, j) = None).
    { apply eq_None_not_Some. rewrite Hk. intros Hin. apply (Hnew j Hin). left. }
    unfold insert_interface. rewrite Hno. eexists. split; [done|]. split; [|split].
    + intros b bs [[[= <-] <-]|[_ Hb]]%lookup_insert_Some; [done|by apply Hi].
    + intros b. rewrite elem_of_app, list_elem_of_singleton, <- Hk. rewrite lookup_insert_is_Some'.
      split; [intros [[= ->]|?]; auto|intros [?| ->]; auto].
    + intros a b Ha. rewrite lookup_insert_ne by congruence. by apply Ho.
Qed.

(** The rest of a turn, once the rules are there. *)
Lemma context_rest i g nbors kb rules :
  i < nc -> t !! N.to_nat i = Some nbors -> Forall (kb_rule_ok (local_kb_type o) na) kb ->
  rules_ok na (no_bridge_rules o) nbors ifaces rules -> generated i g ->
  exists g', generated (i + 1) g' /\ forall ds, (minV ← update_min_V (layout nc na) rules (g_minV g);
    lcim ← foldM (fun lcim j => V ← local_interface (layout nc na) rules j;
      mret (insert_interface lcim (i, j) V)) (g_lcim g) nbors;
    mret (mk_gstate ds lcim minV (g_files g ++ [(kb, rules)]))) =
    Ok (mk_gstate ds (g_lcim g') (g_minV g') (g_files g')).
Proof.
  intros Hi Ht Hkb Hr [Gf Gr Gk Gl [Gw Gm]]. pose proof (rules_in_range _ _ _ Ht Hr) as Hin.
  destruct (update_min_V_ok nc na Hmax rules (g_minV g) Gw Hin) as (minV & -> & Wm & Tm). rsimpl.
  destruct (insert_interfaces_ok i rules nbors (g_lcim g) Hin) as (l' & -> & Hi' & Hk & Ho).
  { apply Forall_forall. intros j Hj. apply (Hrange i). by exists nbors. }
  { apply Hnodup. by eapply list_elem_of_lookup_2. }
  { intros j. apply eq_None_not_Some. rewrite Gk. lia. }
  rsimpl. exists (mk_gstate [] l' minV (g_files g ++ [(kb, rules)])). split; [|done].
  assert (Hlast : forall c x, (g_files g ++ [(kb, rules)]) !! c = Some x ->
    g_files g !! c = Some x \/ (c = N.to_nat i /\ x = (kb, rules))).
  { intros c x [Hc|[Hc Hx]]%lookup_app_Some; [by left|right].
    apply list_lookup_singleton_Some in Hx as [Hx <-]. split; [lia|done]. }
  split; cbn [g_files g_lcim g_minV].
  - rewrite length_app. cbn. lia.
  - intros c kb' rules' [Hc|[Hc [= -> ->]]]%Hlast; [by apply Gr|]. split; [done|]. exists nbors. by rewrite Hc.
  - intros a b. destruct (decide (a = i)) as [->|Ha].
    + rewrite Hk. split; [|by intros [_ (row & Hrow & Hb)]; congruence]. intros Hb. split; [lia|]. by exists nbors.
    + rewrite Ho, Gk by done. split; intros [??]; split; try done; lia.
  - intros a b bs Hb. destruct (decide (a = i)) as [->|Ha].
    + exists kb, rules. rewrite lookup_app_r by lia. replace (N.to_nat i - length (g_files g))%nat with 0%nat by lia.
      split; [done|]. by apply Hi'.
    + rewrite Ho in Hb by done. destruct (Gl _ _ _ Hb) as (kb' & rules' & Hc & HI). exists kb', rules'.
      split; [|done]. by apply lookup_app_l_Some.
  - split; [done|]. intros p. rewrite Tm, Gm. unfold mentions. cbn [g_files]. split.
    + intros [[?|(c & kb' & rs' & r & a & Hc & Hrest)]|(r & a & Hrr & Ha & ->)]; [by left| |].
      * right. exists c, kb', rs', r, a. split; [by apply lookup_app_l_Some|done].
      * right. exists (N.to_nat i), kb, rules, r, a. split; [|done].
        rewrite lookup_app_r by lia. by replace (N.to_nat i - length (g_files g))%nat with 0%nat by lia.
    + intros [?|(c & kb' & rs' & r & a & [Hc|[-> [= -> ->]]]%Hlast & Hrr & Ha & ->)]; [by left; left| |].
      * left. right. exists c, kb', rs', r, a. done.
      * right. by exists r, a.
Qed.

Lemma empty_rules_ok nbors : length nbors = 0%nat -> rules_ok na (no_bridge_rules o) nbors ifaces [].
Proof.
  intros Hn. apply nil_length_inv in Hn as ->. split; [constructor|cbn; lia|].
  intros id. split; [intros H|intros (r & a & H & _)]; by apply elem_of_nil in H.
Qed.

Lemma generate_context_spec i g g' :
  i < nc -> generated i g -> generate_context o (layout nc na) t ifaces g i = Ok g' -> generated (i + 1) g'.
Proof.
  intros Hi Hg. unfold generate_context.
  destruct (generate_local_kb _ _ _) as [[kb ds1]|] eqn:Ekb; [|done]. rsimpl. apply local_kb_spec in Ekb.
  destruct (vec_at t i) as [nbors|] eqn:Et; [|done]. rsimpl. apply vec_at_ok in Et.
  assert (Hrest : forall rules ds2, rules_ok na (no_bridge_rules o) nbors ifaces rules ->
    (minV ← update_min_V (layout nc na) rules (g_minV g);
     lcim ← foldM (fun lcim j => V ← local_interface (layout nc na) rules j;
       mret (insert_interface lcim (i, j) V)) (g_lcim g) nbors;
     mret (mk_gstate ds2 lcim minV (g_files g ++ [(kb, rules)]))) = Ok g' -> generated (i + 1) g').
  { intros rules ds2 Hr. destruct (context_rest i g nbors kb rules) as (g1 & Hg1 & ->); [done..|].
    intros [= <-]. destruct Hg1. by split. }
  destruct (N.ltb_spec 0 (N.of_nat (length nbors))).
  - destruct (generate_bridge_rule_list _ _ _ _ _) as [[rules ds2]|] eqn:Er; [|done]. rsimpl.
    apply Hrest. eapply rule_list_loop_spec; [done|apply ifaces_small| |exact Er].
    apply Hnodup. by eapply list_elem_of_lookup_2.
  - rsimpl. apply Hrest, empty_rules_ok. lia.
Qed.

Lemma generated_initial ds : generated 0 (mk_gstate ds ∅ minV0 []).
Proof.
  split; cbn.
  - done.
  - done.
  - intros a b. rewrite lookup_empty. split; [by intros [? [=]]|lia].
  - intros a b bs. by rewrite lookup_empty.
  - split; [done|]. intros p. unfold mentions. cbn. split; [auto|].
    intros [?|(c & kb & rules & r & a & Hc & _)]; [done|]. by rewrite lookup_nil in Hc.
Qed.

Lemma generate_contexts_spec ds g :
  generate_contexts o (layout nc na) t ifaces (mk_gstate ds ∅ minV0 []) = Ok g -> generated nc g.
Proof.
  unfold generate_contexts. rewrite Hiflen.
  apply (foldM_nrange_partial generated); [lia| |apply generated_initial].
  intros i g1 g2 _. apply generate_context_spec.
Qed.

(** A finished system had enough bridge rules for all neighbors. *)
Lemma generated_bound g row :
  generated nc g -> row ∈ t -> N.of_nat (length row) <= 2 * no_bridge_rules o.
Proof.
  intros [Gf Gr _ _ _] [c Hc]%list_elem_of_lookup.
  assert (Hlt : (c < length (g_files g))%nat) by (apply lookup_lt_Some in Hc; lia).
  apply lookup_lt_is_Some in Hlt as [[kb rules] Hf].
  destruct (Gr (N.of_nat c) kb rules) as [_ (nbors & Hn & Hr)]; [by rewrite Nat2N.id|].
  rewrite Nat2N.id, Hc in Hn. injection Hn as <-.
  eapply rules_ok_bound; [done| |exact Hr]. apply Hnodup. by eapply list_elem_of_lookup_2.
Qed.

Lemma generate_context_returns i g :
  i < nc -> generated i g -> nia <> 0 -> no_bridge_rules o <> 0 ->
  (forall row, row ∈ t -> N.of_nat (length row) <= 2 * no_bridge_rules o) ->
  exists ds0 g', generated (i + 1) g' /\ forall ds,
    generate_context o (layout nc na) t ifaces (mk_gstate (ds0 ++ ds) (g_lcim g) (g_minV g) (g_files g)) i =
    Ok (mk_gstate ds (g_lcim g') (g_minV g') (g_files g')).
Proof.
  intros Hi Hg Hnia Hnbr Hrows.
  destruct (lookup_lt_is_Some_2 t (N.to_nat i)) as [nbors Et]; [lia|].
  assert (Hin : nbors ∈ t) by (by eapply list_elem_of_lookup_2).
  destruct (local_kb_returns (local_kb_type o) na) as (ds1 & kb & Ekb).
  assert (Hrules : exists ds2 rules, rules_ok na (no_bridge_rules o) nbors ifaces rules /\ forall ds,
    (if 0 <? N.of_nat (length nbors) then
       generate_bridge_rule_list na (no_bridge_rules o) nbors ifaces (ds2 ++ ds) else mret ([], ds2 ++ ds)) =
    Ok (rules, ds)).
  { destruct (N.ltb_spec 0 (N.of_nat (length nbors))).
    - destruct (rule_list_returns na (no_bridge_rules o) nbors ifaces) as (ds2 & rules & E); try done.
      + apply ifaces_small.
      + intros id Hid. assert (Hlt : id < nc) by (apply (Hrange i); by exists nbors).
        destruct (lookup_lt_is_Some_2 ifaces (N.to_nat id)) as [f Hf]; [lia|].
        rewrite Forall_forall in Hif. assert (Hf' : f ∈ ifaces) by (by eapply list_elem_of_lookup_2).
        destruct (Hif f Hf') as (_ & Hl & _). destruct f as [|a f]; [cbn in Hl; lia|]. eauto.
      + by apply Hnodup.
      + by apply Hrows.
      + exists ds2, rules. split; [|done]. eapply rule_list_loop_spec; [done|apply ifaces_small| |apply (E [])].
        by apply Hnodup.
    - exists [], []. split; [apply empty_rules_ok; lia|done]. }
  destruct Hrules as (ds2 & rules & Hr & Er).
  destruct (context_rest i g nbors kb rules) as (g' & Hg' & E); [done..| |done|done|].
  { specialize (Ekb []). by eapply local_kb_spec. }
  exists (ds1 ++ ds2), g'. split; [done|]. intros ds. unfold generate_context. cbn [g_draws g_lcim g_minV g_files].
  rewrite <- app_assoc, Ekb. rsimpl. rewrite (proj2 (vec_at_ok _ _ _) Et). rsimpl. rewrite Er. rsimpl. apply E.
Qed.

Lemma generate_contexts_returns :
  nia <> 0 -> no_bridge_rules o <> 0 ->
  (forall row, row ∈ t -> N.of_nat (length row) <= 2 * no_bridge_rules o) ->
  exists ds0 g, generate_contexts o (layout nc na) t ifaces (mk_gstate ds0 ∅ minV0 []) = Ok g.
Proof.
  intros Hnia Hnbr Hrows. unfold generate_contexts. rewrite Hiflen.
  destruct (supply_loop (fun ds g => mk_gstate ds (g_lcim g) (g_minV g) (g_files g)) generated
    (generate_context o (layout nc na) t ifaces) 0 nc (mk_gstate [] ∅ minV0 [])) as (ds0 & g & _ & E);
    [lia|apply generated_initial| |].
  - intros i g _ Hi Hg. by apply generate_context_returns.
  - exists ds0. specialize (E []). rewrite app_nil_r in E. by eexists.
Qed.

End systems.

(** ** The whole program *)

Lemma init_minV_ok nc na :
  nc <> 0 -> na <> 0 -> na < 2 ^ 31 -> nc * (na + 1) <= id_max ->
  exists minV, init_minV (layout nc na) nc na = Ok minV /\ bs_wf (nc * (na + 1)) minV.
Proof.
  intros Hnc Hna H31 Hmax. change (2 ^ 31) with 2147483648 in H31. unfold init_minV.
  destruct (bs_wf_blocks nc na Hmax) as (b0 & -> & W0 & _). rsimpl. unfold setEpsilon_all.
  assert (Hl : N.of_nat (length (starting_offsets (layout nc na))) = nc).
  { cbn. rewrite length_fmap, length_nrange. lia. }
  rewrite Hl.
  destruct (foldM_nrange (fun _ bs => bs_wf (nc * (na + 1)) bs)
    (fun b id => setEpsilon b id (starting_offsets (layout nc na))) b0 nc) as (b1 & -> & W1); [done| |].
  { intros c b Hc Hb. pose proof (block_pos_lt nc na Hmax c 0 Hc ltac:(lia)).
    rewrite (setEpsilon_ok (nc * (na + 1)) _ _ _ (block_start na c)); [|done|by apply offset_lookup|lia].
    eexists. split; [done|]. apply wf_put; [done|lia]. }
  rsimpl.
  assert (Hlast : (if 1 <? nc then o1 ← vec_at (starting_offsets (layout nc na)) 1; mret (u64_sub o1 1)
    else mret na) = Ok na).
  { destruct (N.ltb_spec 1 nc); [|done].
    rewrite (proj2 (vec_at_ok _ _ _) (offset_lookup nc na Hmax 1 ltac:(done))). cbn [mbind res_bind].
    unfold block_start. rewrite u64_sub_small by lia. cbn. f_equal. lia. }
  rewrite Hlast. rsimpl.
  destruct (foldM_nrange_from (fun _ bs => bs_wf (nc * (na + 1)) bs)
    (fun minV i => set minV i DMCS_TRUE) b1 1 (na + 1)) as (b2 & -> & W2); [lia|done| |by exists b2].
  intros p b Hp1 Hp2 Hb. rewrite (set_ok (nc * (na + 1))) by (done || nia).
  eexists. split; [done|]. apply wf_put; [done|nia].
Qed.

Section program.
Context (o o' : options) (Hread : read_input o = Some o') (Hdet : deterministic (topology_type o) = true).
Context (H3 : ~ (topology_type o = MULTIPLE_RING_TOPOLOGY /\ no_contexts o = 3)).
Context (H31 : no_atoms o < 2 ^ 31) (Hmax : no_contexts o * (no_atoms o + 1) <= id_max).

Lemma accepted_options :
  no_contexts o <> 0 /\ no_atoms o <> 0 /\ no_interface_atoms o <> 0 /\ no_bridge_rules o <> 0 /\
  size_fits (topology_type o) (no_contexts o) = true /\ 2 * no_contexts o + 8 < W64.
Proof.
  revert Hread. unfold read_input.
  destruct (help o || _ || _ || _ || _ || _ || _ || _) eqn:Hc; [done|].
  destruct (size_fits _ _) eqn:Hf; [|done]. intros _.
  rewrite !orb_false_iff, !N.eqb_neq in Hc. unfold id_max in Hmax.
  destruct Hc as [[[[[[[_ _] _] ?] ?] ?] ?] _]. repeat split; try done. nia.
Qed.

Lemma program_topology ds :
  exists t, sound (no_contexts o) t /\ generate_orig_topology (topology_type o)
    (mk_gen (setup_topos (no_contexts o)) ds) = Ok (mk_gen t ds) /\
    t = topology_of (no_contexts o) (det_row (topology_type o) (no_contexts o)).
Proof.
  destruct accepted_options as (? & ? & _ & _ & ? & ?).
  destruct (deterministic_topology (topology_type o) (no_contexts o) ds) as [E Hs]; [done..|]. eauto.
Qed.

Lemma generate_data_spec ds t g :
  generate_data o ds = Ok (t, g) ->
  sound (no_contexts o) t /\ t = topology_of (no_contexts o) (det_row (topology_type o) (no_contexts o)) /\
  no_interface_atoms o <= no_atoms o /\
  exists ifaces minV0, Forall (interface_ok (no_atoms o) (no_interface_atoms o)) ifaces /\
    init_minV (layout (no_contexts o) (no_atoms o)) (no_contexts o) (no_atoms o) = Ok minV0 /\
    generated o t ifaces minV0 (no_contexts o) g /\
    (forall row, row ∈ t -> N.of_nat (length row) <= 2 * no_bridge_rules o).
Proof.
  destruct accepted_options as (? & Hna & Hnia & ? & _ & _). unfold generate_data.
  rewrite ctor_ok by lia. rsimpl.
  destruct (gen_interfaces _ _ _ _) as [[ifaces ds1]|] eqn:Ei; [|done]. rsimpl.
  apply gen_interfaces_spec in Ei as [Hl Hf]; [|done].
  destruct (init_minV_ok (no_contexts o) (no_atoms o)) as (minV0 & Em & Wm); [done..|]. rewrite Em. rsimpl.
  destruct (program_topology ds1) as (t' & Hs & -> & Ht). rsimpl. cbn [topo draws].
  destruct (generate_contexts _ _ _ _ _) as [g'|] eqn:Eg; [|done]. rsimpl. intros [= <- <-].
  pose proof Hs as [Hlen Hr Hn _].
  assert (Hr' : forall i j, edge t' i j -> j < no_contexts o) by (intros i j Hij; by apply (Hr i j)).
  eapply generate_contexts_spec in Eg; [|done..].
  split; [done|]. split; [done|]. split.
  - destruct ifaces as [|i ifaces]; [cbn in Hl; lia|]. apply Forall_cons in Hf as [Hi _]. by eapply interface_ok_bound.
  - exists ifaces, minV0. split; [done|]. split; [done|]. split; [done|].
    intros row Hrow. apply (generated_bound o t' ifaces minV0) with (g := g'); done.
Qed.

Lemma generate_data_returns :
  no_interface_atoms o <= no_atoms o ->
  (forall id, 1 <= id -> id <= no_contexts o ->
     N.of_nat (length (det_row (topology_type o) (no_contexts o) id)) <= 2 * no_bridge_rules o) ->
  exists ds t g, generate_data o ds = Ok (t, g).
Proof.
  intros Hi Hrows. destruct accepted_options as (? & Hna & Hnia & ? & _ & _).
  destruct (program_topology []) as (t & Hs & _ & Ht). pose proof Hs as [Hlen Hr Hn _].
  assert (Hr' : forall i j, edge t i j -> j < no_contexts o) by (intros i j Hij; by apply (Hr i j)).
  destruct (init_minV_ok (no_contexts o) (no_atoms o)) as (minV0 & Em & Wm); [done..|].
  destruct (gen_interfaces_returns (no_contexts o) (no_atoms o) (no_interface_atoms o)) as (ds1 & ifaces & Ei); [done..|].
  destruct (gen_interfaces_spec _ _ _ _ _ _ Hna (Ei [])) as [Hl Hf].
  destruct (generate_contexts_returns o t ifaces minV0) with (nia := no_interface_atoms o) as (ds2 & g & Eg); try done.
  { intros row. rewrite Ht. unfold topology_of. intros (id & -> & [??]%elem_of_nrange)%list_elem_of_fmap.
    rewrite length_fmap. apply Hrows; lia. }
  exists (ds1 ++ ds2), t, g. unfold generate_data. rewrite ctor_ok by lia. rsimpl. rewrite Ei. rsimpl.
  rewrite Em. rsimpl. destruct (program_topology ds2) as (t' & _ & -> & Ht'). rsimpl. cbn [topo draws].
  replace t' with t by congruence. by rewrite Eg.
Qed.

End program.

(** C25. With a topology without random edges, other than the multiple ring of
    three contexts (which has a neighbor that does not exist), and with less
    than 2^31 atoms and 2^32 positions, the generator can finish its data if and only if the interface atoms do not outnumber the atoms and two
    bridge atoms per bridge rule reach all neighbors of every context; under
    other options no sequence of random numbers ends its loops, although
    [read_input] accepts them. *)
Theorem generation_finishes_iff o o' :
  read_input o = Some o' -> deterministic (topology_type o) = true ->
  ~ (topology_type o = MULTIPLE_RING_TOPOLOGY /\ no_contexts o = 3) ->
  no_atoms o < 2 ^ 31 -> no_contexts o * (no_atoms o + 1) <= id_max ->
  (exists ds t g, generate_data o ds = Ok (t, g)) <->
  no_interface_atoms o <= no_atoms o /\
  forall id, 1 <= id -> id <= no_contexts o ->
    N.of_nat (length (det_row (topology_type o) (no_contexts o) id)) <= 2 * no_bridge_rules o.
Proof.
  intros Hr Hd H3 H31 Hmax. split.
  - intros (ds & t & g & E). destruct (generate_data_spec o o' Hr Hd H3 H31 Hmax ds t g E)
      as (_ & Ht & Hi & _ & _ & _ & _ & _ & Hrows). split; [done|]. intros id ??.
    specialize (Hrows (N.pred <$> det_row (topology_type o) (no_contexts o) id)). rewrite length_fmap in Hrows.
    apply Hrows. rewrite Ht. apply list_elem_of_fmap. exists id. split; [done|]. apply elem_of_nrange. lia.
  - intros [Hi Hrows]. by eapply generate_data_returns.
Qed.

Lemma generation_finishes_iff_witness :
  (exists ds t g, generate_data (sample_options HOUSE_TOPOLOGY 9) ds = Ok (t, g)) <->
  3 <= 9 /\ forall id, 1 <= id -> id <= 9 -> N.of_nat (length (det_row HOUSE_TOPOLOGY 9 id)) <= 2 * 2.
Proof.
  apply (generation_finishes_iff (sample_options HOUSE_TOPOLOGY 9)
    (mk_options false 9 9 3 2 7 "student" "build" 18 0)); [reflexivity|reflexivity|intros [[=] _]|reflexivity|].
  by vm_compute.
Defined.

(** One bridge rule cannot reach the three neighbors of a context between two
    houses: for nine contexts accepted options with a single bridge rule never end. *)
Lemma house_needs_two_rules ds t g :
  is_Some (read_input (mk_options false 9 9 3 1 HOUSE_TOPOLOGY "student" "build" 3 0)) /\
  generate_data (mk_options false 9 9 3 1 HOUSE_TOPOLOGY "student" "build" 3 0) ds <> Ok (t, g).
Proof.
  split; [by eexists|]. intros E.
  eapply generate_data_spec in E as (_ & Ht & _ & _ & _ & _ & _ & _ & Hrows);
    [|reflexivity|reflexivity|intros [[=] _]|reflexivity|by vm_compute].
  specialize (Hrows [4; 5; 6]). rewrite Ht in Hrows. cbn in Hrows.
  enough (3 <= 2) by lia. apply Hrows. do 3 right. left.
Qed.

(** C24. What the generator writes, for topologies without random edges: a
    sound topology; for each context, local rules of the intended form and
    bridge rules over interface atoms of its neighbors that mention all of
    them; for each edge the interface with exactly the atoms that the bridge
    rules use; and from these interfaces the optimiser makes a good plan
    without failing an assertion. *)
Theorem generated_plans_good o o' ds t g :
  read_input o = Some o' -> deterministic (topology_type o) = true ->
  ~ (topology_type o = MULTIPLE_RING_TOPOLOGY /\ no_contexts o = 3) ->
  no_atoms o < 2 ^ 31 -> no_contexts o * (no_atoms o + 1) <= id_max ->
  generate_data o ds = Ok (t, g) ->
  sound (no_contexts o) t /\
  (exists ifaces minV0, generated o t ifaces minV0 (no_contexts o) g) /\
  exists st, generate_opt_topology (topology_type o) (no_contexts o) (g_lcim g) = Ok st /\
    good_plan (no_contexts o) (g_lcim g) st.
Proof.
  intros Hr Hd H3 H31 Hmax E. destruct (accepted_options o o') as (? & ? & ? & ? & ? & ?); [done..|].
  destruct (generate_data_spec o o' Hr Hd H3 H31 Hmax ds t g E)
    as (Hs & Ht & _ & ifaces & minV0 & _ & _ & Hg & _).
  split; [done|]. split; [by eauto|]. pose proof Hg as [_ _ Hk Hl _].
  apply (opt_plan (no_contexts o * (no_atoms o + 1))); try done.
  - intros [a b] bs Hb. by destruct (Hl a b bs Hb) as (_ & _ & _ & Hw & _).
  - intros i j. rewrite Hk, Ht, edge_topology_of by (by apply det_rows_ok). tauto.
Qed.

(** Two contexts on a ring, with one interface atom each. *)
Definition tiny_options : options := mk_options false 2 2 1 2 PURE_RING_TOPOLOGY "student" "build" 3 0.

Definition tiny_draws : list N := [0; 0; 0; 1; 0; 0; 0; 0; 1; 0; 1; 1; 0; 0; 0; 0; 2; 0].

Lemma generated_plans_good_witness :
  exists t g, generate_data tiny_options tiny_draws = Ok (t, g) /\ sound 2 t /\
  (exists ifaces minV0, generated tiny_options t ifaces minV0 2 g) /\
  exists st, generate_opt_topology PURE_RING_TOPOLOGY 2 (g_lcim g) = Ok st /\ good_plan 2 (g_lcim g) st.
Proof.
  destruct (generate_data tiny_options tiny_draws) as [[t g]|] eqn:E; [|by vm_compute in E].
  exists t, g. split; [done|].
  apply (generated_plans_good tiny_options (mk_options false 2 2 1 2 4 "student" "build" 4 0) tiny_draws);
    [reflexivity|reflexivity|intros [[=] _]|reflexivity|by vm_compute|done].
Defined.

End GenContexts.
