(* ===== verification/Spirit.v ===== *)
(** * The parsers of boost::spirit::qi

    The grammars of include/parser/ are expressions over the combinators of
    [boost::spirit::qi], a library outside the repository.  The class [Qi] has
    one operation per combinator the grammars use, and [QiLaws] states its
    documented meaning: parsers recognise a prefix of the input, alternatives
    are ordered, a parser that fails leaves the input where it was but not the
    state its semantic actions have changed.  The instance [qi_functions]
    shows that the laws can hold and makes concrete inputs computable.

    A parser works on the input as a list of characters, on the state [S] of
    the semantic actions and, outside [lexeme], with a skipper that is applied
    before every primitive.  Its answer is a failure of an action ([Err]), or
    the new state with the attribute and the rest of the input, or [None]. *)

From S2P Require Import Prelude.
From Stdlib Require Export Ascii.

Module Spirit.

Abbreviation text := (list ascii).
Abbreviation outcome S A := (res (S * option (A * text))).

(** A string literal as a text. *)
Definition str (s : string) : text := String.list_ascii_of_string s.
Definition unstr (t : text) : string := String.string_of_list_ascii t.

Definition nl : ascii := "010"%char.
Definition quote : ascii := "034"%char.

(** ** Character classes *)

Definition code (c : ascii) : N := N_of_ascii c.
Definition between (lo hi : N) (c : ascii) : bool := (lo <=? code c) && (code c <=? hi).
Definition is_char (d c : ascii) : bool := Ascii.eqb c d.
Definition is_digit : ascii -> bool := between 48 57.
Definition is_lower : ascii -> bool := between 97 122.
Definition is_upper : ascii -> bool := between 65 90.
Definition is_alnum (c : ascii) : bool := is_digit c || is_lower c || is_upper c.
Definition is_blank (c : ascii) : bool := (code c =? 32) || between 9 13 c.
(** [ascii::char_] accepts the characters of seven bits. *)
Definition is_ascii (c : ascii) : bool := code c <? 128.

(** ** Numbers *)

Definition digit (c : ascii) : N := code c - 48.
Definition number (ds : text) : N := fold_left (fun v c => 10 * v + digit c) ds 0.

Fixpoint span (p : ascii -> bool) (i : text) : text * text :=
  match i with
  | c :: i' => if p c then let '(a, b) := span p i' in (c :: a, b) else ([], i)
  | [] => ([], [])
  end.

(** The unsigned numbers below [bound] that a text starts with. *)
Definition scan_number (bound : N) (i : text) : option (N * text) :=
  match span is_digit i with
  | ([], _) => None
  | (ds, rest) => if number ds <? bound then Some (number ds, rest) else None
  end.

Definition scan_int (i : text) : option (Z * text) :=
  match i with
  | c :: i' =>
      if is_char "-" c then (fun r => (- Z.of_N r.1, r.2)%Z) <$> scan_number (2 ^ 31 + 1) i'
      else if is_char "+" c then (fun r => (Z.of_N r.1, r.2)) <$> scan_number (2 ^ 31) i'
      else (fun r => (Z.of_N r.1, r.2)) <$> scan_number (2 ^ 31) i
  | [] => None
  end.

(** The input after a literal. *)
Fixpoint after (l i : text) : option text :=
  match l, i with
  | [], _ => Some i
  | c :: l, d :: i => if is_char c d then after l i else None
  | _, [] => None
  end.

(** ** The interface *)

Definition obind {S S' A B} (o : outcome S A) (f : S -> A -> text -> outcome S' B)
    (none : S -> outcome S' B) : outcome S' B :=
  match o with
  | Err e => Err e
  | Ok (s, None) => none s
  | Ok (s, Some (a, i)) => f s a i
  end.

Definition skipper := option (text -> text).
Definition pre (sk : skipper) (i : text) : text := match sk with Some f => f i | None => i end.

Class Qi := {
  parser : Type -> Type -> Type;
  parse {S A} : parser S A -> skipper -> S -> text -> outcome S A;
  (** primitives: a character of a class, a literal, numbers *)
  char_ {S} : (ascii -> bool) -> parser S ascii;
  lit {S} : text -> parser S unit;
  uint_ {S} : parser S N;
  int_ {S} : parser S Z;
  (** [p >> q], [p | q], [-p], [*p], [lexeme[p]], [raw[p]] *)
  seq {S A B} : parser S A -> parser S B -> parser S (A * B);
  alt {S A} : parser S A -> parser S A -> parser S A;
  opt {S A} : parser S A -> parser S (option A);
  kleene {S A} : parser S A -> parser S (list A);
  lexeme {S A} : parser S A -> parser S A;
  raw {S A} : parser S A -> parser S text;
  (** the conversion of attributes, and semantic actions [p[f]] *)
  attr {S A B} : (A -> B) -> parser S A -> parser S B;
  action {S A B} : parser S A -> (S -> A -> res (S * B)) -> parser S B;
  (** applying a skipper as often as it matches *)
  skip_over {A} : parser unit A -> text -> text;
  phrase_parse {S A B} : parser S A -> parser unit B -> S -> text -> outcome S A;
}.

Class QiLaws `{Q : Qi} : Prop := {
  parse_char S p sk (s : S) i :
    parse (char_ p) sk s i =
      Ok (s, match pre sk i with c :: i' => if p c then Some (c, i') else None | [] => None end);
  parse_lit S l sk (s : S) i :
    parse (lit l) sk s i = Ok (s, (fun i' => (tt, i')) <$> after l (pre sk i));
  parse_uint S sk (s : S) i : parse uint_ sk s i = Ok (s, scan_number (2 ^ 32) (pre sk i));
  parse_int S sk (s : S) i : parse int_ sk s i = Ok (s, scan_int (pre sk i));
  parse_seq S A B (p : parser S A) (q : parser S B) sk s i :
    parse (seq p q) sk s i =
      obind (parse p sk s i) (fun s a i1 =>
        obind (parse q sk s i1) (fun s b i2 => Ok (s, Some ((a, b), i2))) (fun s => Ok (s, None)))
        (fun s => Ok (s, None));
  parse_alt S A (p q : parser S A) sk s i :
    parse (alt p q) sk s i =
      obind (parse p sk s i) (fun s a i' => Ok (s, Some (a, i'))) (fun s => parse q sk s i);
  parse_opt S A (p : parser S A) sk s i :
    parse (opt p) sk s i =
      obind (parse p sk s i) (fun s a i' => Ok (s, Some (Some a, i'))) (fun s => Ok (s, Some (None, i)));
  parse_kleene_stop S A (p : parser S A) sk s s' i :
    parse p sk s i = Ok (s', None) -> parse (kleene p) sk s i = Ok (s', Some ([], i));
  parse_kleene_more S A (p : parser S A) sk s s' a i i' :
    parse p sk s i = Ok (s', Some (a, i')) -> (length i' < length i)%nat ->
    parse (kleene p) sk s i =
      obind (parse (kleene p) sk s' i') (fun s l i'' => Ok (s, Some (a :: l, i''))) (fun s => Ok (s, None));
  parse_kleene_err S A (p : parser S A) sk s i e :
    parse p sk s i = Err e -> parse (kleene p) sk s i = Err e;
  parse_lexeme S A (p : parser S A) sk s i : parse (lexeme p) sk s i = parse p None s (pre sk i);
  parse_raw S A (p : parser S A) sk s i :
    parse (raw p) sk s i =
      obind (parse p sk s (pre sk i))
        (fun s _ i' => Ok (s, Some (take (length (pre sk i) - length i') (pre sk i), i'))) (fun s => Ok (s, None));
  parse_attr S A B (f : A -> B) (p : parser S A) sk s i :
    parse (attr f p) sk s i = obind (parse p sk s i) (fun s a i' => Ok (s, Some (f a, i'))) (fun s => Ok (s, None));
  parse_action S A B (p : parser S A) (f : S -> A -> res (S * B)) sk s i :
    parse (action p f) sk s i =
      obind (parse p sk s i) (fun s a i' => '(s, b) ← f s a; Ok (s, Some (b, i'))) (fun s => Ok (s, None));
  skip_over_more A (w : parser unit A) i a i' :
    parse w None tt i = Ok (tt, Some (a, i')) -> (length i' < length i)%nat -> skip_over w i = skip_over w i';
  skip_over_stop A (w : parser unit A) i : parse w None tt i = Ok (tt, None) -> skip_over w i = i;
  parse_phrase S A B (p : parser S A) (w : parser unit B) s i :
    phrase_parse p w s i =
      obind (parse p (Some (skip_over w)) s i) (fun s a i' => Ok (s, Some (a, skip_over w i'))) (fun s => Ok (s, None));
}.

(** ** An implementation by functions *)

Definition fn (S A : Type) : Type := skipper -> S -> text -> outcome S A.

(** A repetition whose turns do not consume input would not end. *)
Fixpoint kleene_fn {S A} (fuel : nat) (p : fn S A) (sk : skipper) (s : S) (i : text) : outcome S (list A) :=
  match fuel with
  | O => Err OutOfFuel
  | Datatypes.S fuel =>
      obind (p sk s i)
        (fun s a i' =>
           if bool_decide (length i' < length i)%nat then
             obind (kleene_fn fuel p sk s i') (fun s l i'' => Ok (s, Some (a :: l, i''))) (fun s => Ok (s, None))
           else Err OutOfFuel)
        (fun s => Ok (s, Some ([], i)))
  end.

Fixpoint skip_fn {A} (fuel : nat) (w : fn unit A) (i : text) : text :=
  match fuel with
  | O => i
  | Datatypes.S fuel =>
      match w None tt i with
      | Ok (_, Some (_, i')) => if bool_decide (length i' < length i)%nat then skip_fn fuel w i' else i
      | _ => i
      end
  end.

#[export] Instance qi_functions : Qi := {
  parser := fn;
  parse S A p := p;
  char_ S p := fun sk s i =>
    Ok (s, match pre sk i with c :: i' => if p c then Some (c, i') else None | [] => None end);
  lit S l := fun sk s i => Ok (s, (fun i' => (tt, i')) <$> after l (pre sk i));
  uint_ S := fun sk s i => Ok (s, scan_number (2 ^ 32) (pre sk i));
  int_ S := fun sk s i => Ok (s, scan_int (pre sk i));
  seq S A B p q := fun sk s i =>
    obind (p sk s i) (fun s a i1 =>
      obind (q sk s i1) (fun s b i2 => Ok (s, Some ((a, b), i2))) (fun s => Ok (s, None)))
      (fun s => Ok (s, None));
  alt S A p q := fun sk s i => obind (p sk s i) (fun s a i' => Ok (s, Some (a, i'))) (fun s => q sk s i);
  opt S A p := fun sk s i =>
    obind (p sk s i) (fun s a i' => Ok (s, Some (Some a, i'))) (fun s => Ok (s, Some (None, i)));
  kleene S A p := fun sk s i => kleene_fn (Datatypes.S (length i)) p sk s i;
  lexeme S A p := fun sk s i => p None s (pre sk i);
  raw S A p := fun sk s i =>
    obind (p sk s (pre sk i))
      (fun s _ i' => Ok (s, Some (take (length (pre sk i) - length i') (pre sk i), i'))) (fun s => Ok (s, None));
  attr S A B f p := fun sk s i => obind (p sk s i) (fun s a i' => Ok (s, Some (f a, i'))) (fun s => Ok (s, None));
  action S A B p f := fun sk s i =>
    obind (p sk s i) (fun s a i' => '(s, b) ← f s a; Ok (s, Some (b, i'))) (fun s => Ok (s, None));
  skip_over A w := fun i => skip_fn (length i) w i;
  phrase_parse S A B p w := fun s i =>
    let skip i := skip_fn (length i) w i in
    obind (p (Some skip) s i) (fun s a i' => Ok (s, Some (a, skip i'))) (fun s => Ok (s, None));
}.

Lemma kleene_fn_fuel {S A} (p : fn S A) sk f : forall f' s i,
  (length i < f)%nat -> (length i < f')%nat -> kleene_fn f p sk s i = kleene_fn f' p sk s i.
Proof.
  induction f as [|f IH]; intros [|f'] s i H H'; [lia..|]. cbn [kleene_fn].
  destruct (p sk s i) as [[s' [[a i']|]]|]; cbn [obind]; [|done..].
  case_bool_decide; [|done]. by rewrite (IH f') by lia.
Qed.

Lemma skip_fn_fuel {A} (w : fn unit A) f : forall f' i,
  (length i <= f)%nat -> (length i <= f')%nat -> skip_fn f w i = skip_fn f' w i.
Proof.
  induction f as [|f IH]; intros [|f'] i H H'; cbn [skip_fn]; try done.
  - destruct i; [|cbn in H; lia]. destruct (w None tt []) as [[? [[? i']|]]|]; done.
  - destruct i; [|cbn in H'; lia]. destruct (w None tt []) as [[? [[? i']|]]|]; done.
  - destruct (w None tt i) as [[? [[? i']|]]|]; try done. case_bool_decide; [|done]. apply IH; lia.
Qed.

#[export] Instance qi_functions_laws : QiLaws.
Proof.
  split; try reflexivity.
  - intros S A p sk s s' i H. cbn in *. by rewrite H.
  - intros S A p sk s s' a i i' H Hl. cbn [parse kleene qi_functions] in *. cbn [kleene_fn]. rewrite H. cbn [obind].
    rewrite bool_decide_true by done. by rewrite (kleene_fn_fuel _ _ _ (Datatypes.S (length i'))) by lia.
  - intros S A p sk s i e H. cbn in *. by rewrite H.
  - intros A w i a i' H Hl. cbn [skip_over parse qi_functions] in *.
    destruct i as [|c i]; [cbn in Hl; lia|]. cbn [skip_fn length]. rewrite H, bool_decide_true by done.
    apply skip_fn_fuel; cbn in Hl; lia.
  - intros A w i H. cbn [skip_over parse qi_functions] in *. destruct i as [|c i]; [done|]. cbn [skip_fn length]. by rewrite H.
Qed.

(** ** Combinators of the grammars in terms of these

    Sequences whose literal parts have no attribute, [p % q], [+p] and
    [qi::string]. *)

Section derived.
Context `{Q : Qi} {S : Type}.

Definition seq_r {A B} (p : parser S A) (q : parser S B) : parser S B := attr snd (seq p q).
Definition seq_l {A B} (p : parser S A) (q : parser S B) : parser S A := attr fst (seq p q).
Definition many {A} (p : parser S A) : parser S (list A) := attr (fun '(a, l) => a :: l) (seq p (kleene p)).
Definition list_of {A B} (p : parser S A) (q : parser S B) : parser S (list A) :=
  attr (fun '(a, l) => a :: l) (seq p (kleene (seq_r q p))).
Definition string_ (l : text) : parser S text := attr (fun _ => l) (lit l).
End derived.

Declare Scope qi_scope.
Delimit Scope qi_scope with qi.
Bind Scope qi_scope with parser.
Notation "p *> q" := (seq_r p q) (at level 55, right associativity) : qi_scope.
Notation "p <* q" := (seq_l p q) (at level 54, left associativity) : qi_scope.

(** ** Consequences of the laws *)

Section laws.
Context `{Q : Qi} `{L : !QiLaws} {S : Type}.

Lemma parse_seq_r {A B} (p : parser S A) (q : parser S B) sk s i :
  parse (seq_r p q) sk s i = obind (parse p sk s i) (fun s _ i' => parse q sk s i') (fun s => Ok (s, None)).
Proof.
  unfold seq_r. rewrite parse_attr, parse_seq. destruct (parse p sk s i) as [[s' [[a i']|]]|]; cbn; try done.
  by destruct (parse q sk s' i') as [[s'' [[b i'']|]]|].
Qed.

Lemma parse_seq_l {A B} (p : parser S A) (q : parser S B) sk s i :
  parse (seq_l p q) sk s i =
    obind (parse p sk s i)
      (fun s a i' => obind (parse q sk s i') (fun s _ i' => Ok (s, Some (a, i'))) (fun s => Ok (s, None)))
      (fun s => Ok (s, None)).
Proof.
  unfold seq_l. rewrite parse_attr, parse_seq. destruct (parse p sk s i) as [[s' [[a i']|]]|]; cbn; try done.
  by destruct (parse q sk s' i') as [[s'' [[b i'']|]]|].
Qed.

Lemma parse_string l sk (s : S) i : parse (string_ l) sk s i = Ok (s, (fun i' => (l, i')) <$> after l (pre sk i)).
Proof. unfold string_. rewrite parse_attr, parse_lit. by destruct (after l (pre sk i)). Qed.

(** A repetition reads the pieces it is given one by one.  [run] says what a
    piece does to the state, [ok] what the text after a piece must look like. *)
Lemma parse_kleene_reads {X A} (p : parser S A) sk (show : X -> text) (val : X -> A)
    (run : S -> X -> res S) (ok : text -> Prop) rest :
  ok rest -> (forall s, parse p sk s rest = Ok (s, None)) -> forall xs s s',
  (forall x i, x ∈ xs -> ok i -> ok (show x ++ i) /\ show x <> []) ->
  (forall x s s' i, x ∈ xs -> ok i -> run s x = Ok s' -> parse p sk s (show x ++ i) = Ok (s', Some (val x, i))) ->
  foldM run s xs = Ok s' ->
  parse (kleene p) sk s ((xs ≫= show) ++ rest) = Ok (s', Some (val <$> xs, rest)).
Proof.
  intros Hok Hstop xs. induction xs as [|x xs IH]; intros s s' Hshow Hread Hrun.
  - injection Hrun as <-. cbn. by apply parse_kleene_stop.
  - cbn [foldM] in Hrun. apply bind_ok in Hrun as (s1 & H1 & Hrun).
    assert (Hoks : ok ((xs ≫= show) ++ rest)).
    { clear IH Hread Hrun H1. induction xs as [|y xs IH]; [done|]. cbn. rewrite <- app_assoc.
      apply Hshow; [right; left|]. apply IH. intros z i Hz. apply Hshow.
      apply elem_of_cons in Hz as [->|Hz]; [left|right; by right]. }
    cbn [mbind list_bind]. rewrite <- app_assoc.
    erewrite parse_kleene_more; [|apply Hread; [left|done|exact H1]|].
    + rewrite (IH s1 s'); [done|..|done].
      * intros y i Hy. apply Hshow. by right.
      * intros y s2 s3 i Hy. apply Hread. by right.
    + destruct (Hshow x ((xs ≫= show) ++ rest)) as [_ Hne]; [left|done|].
      rewrite !length_app. destruct (show x); [done|]. cbn. lia.
Qed.

End laws.

End Spirit.
