(* ===== verification/Parsing.v ===== *)
(** * Files and parsers

    [NewSkipperGrammar] (include/parser/BaseParser.hpp) and the class template
    [Parser] (include/parser/Parser.tcc) that all grammars share, the decimal
    output of numbers on streams, and the lemmas by which a grammar is shown to
    read a given text.  The contents of a file is a list of characters. *)

From S2P Require Import Prelude Spirit.
Import Spirit.

Module Parsing.

(** ** The skipper: blanks and comments *)

Definition not_eol (c : ascii) : bool := negb (is_char "010" c || is_char "013" c).

Section skipper.
Context `{Q : Qi}.

Definition comment : parser unit ascii := lexeme (seq_l (char_ (is_char "#")) (kleene (char_ not_eol))).
Definition ws : parser unit ascii := alt (char_ is_blank) comment.

Definition skip : text -> text := skip_over ws.
Definition sk : skipper := Some skip.

(** ** The class template [Parser] *)

(** [std::getline]: the line, the rest of the stream, and whether the end was
    reached before a delimiter. *)
Fixpoint getline (i : text) : text * text * bool :=
  match i with
  | [] => ([], [], true)
  | c :: i => if is_char nl c then ([], i, false)
              else let '(line, rest, eof) := getline i in (c :: line, rest, eof)
  end.

(** The loop of [parseStream] over the lines of a stream, each followed by a
    newline in the buffer. *)
Fixpoint read_lines (fuel : nat) (i : text) : res text :=
  match fuel with
  | O => Err OutOfFuel
  | S fuel =>
      let '(line, rest, eof) := getline i in
      if eof : bool then mret (line ++ [nl])
      else buf ← read_lines fuel rest; mret (line ++ nl :: buf)
  end.

(** [parseString]: the result is read from the state the actions leave; the
    state is a member of the parser and stays there. *)
Definition parseString {S A R} (grammar : parser S A) (m_ParsedResult : S -> R) (m_SemanticsMgr : S) (input : text)
    : res (S * R) :=
  '(s, r) ← phrase_parse grammar ws m_SemanticsMgr input;
  match r with
  | Some (_, []) => mret (s, m_ParsedResult s)
  | _ => Err (Thrown "Query plan parsing failed")
  end.

Definition parseStream {S A R} (grammar : parser S A) (m_ParsedResult : S -> R) (m_SemanticsMgr : S) (i : text)
    : res (S * R) :=
  input ← read_lines (1 + length i) i;
  parseString grammar m_ParsedResult m_SemanticsMgr input.

(** A file that cannot be opened has no contents. *)
Definition parseFile {S A R} (grammar : parser S A) (m_ParsedResult : S -> R) (m_SemanticsMgr : S) (f : option text)
    : res (S * R) :=
  match f with
  | None => Err (Thrown "File not found!")
  | Some i => parseStream grammar m_ParsedResult m_SemanticsMgr i
  end.

End skipper.

(** ** Decimal output *)

Definition dec_digit (d : N) : ascii := ascii_of_N (48 + d).

Fixpoint dec_loop (fuel : nat) (n : N) (acc : text) : text :=
  match fuel with
  | O => acc
  | S fuel =>
      let acc := dec_digit (n mod 10) :: acc in
      if n / 10 =? 0 then acc else dec_loop fuel (n / 10) acc
  end.

(** [os << n] for a [std::size_t]: at most twenty digits. *)
Definition dec (n : N) : text := dec_loop 20 n [].

(** ** What the buffer of [parseStream] holds *)

Lemma getline_length i line rest : getline i = (line, rest, false) -> (length rest < length i)%nat.
Proof.
  revert line. induction i as [|c i IH]; intros line; cbn; [done|]. destruct (is_char nl c).
  - intros [= <- <-]. lia.
  - destruct (getline i) as [[l r] e]. intros [= <- -> ->]. specialize (IH l eq_refl). lia.
Qed.

Lemma getline_app i line rest eof : getline i = (line, rest, eof) -> i = line ++ if eof then [] else nl :: rest.
Proof.
  revert line. induction i as [|c i IH]; intros line; cbn; [by intros [= <- <- <-]|].
  destruct (is_char nl c) eqn:E.
  - intros [= <- <- <-]. by apply Ascii.eqb_eq in E as ->.
  - destruct (getline i) as [[l r] e]. intros [= <- -> ->]. cbn. f_equal. by apply IH.
Qed.

(** The stream is read completely, and a newline is added at its end. *)
Lemma read_lines_ok fuel i : (length i < fuel)%nat -> read_lines fuel i = Ok (i ++ [nl]).
Proof.
  revert i. induction fuel as [|fuel IH]; intros i H; [lia|]. cbn [read_lines].
  destruct (getline i) as [[line rest] eof] eqn:E. pose proof (getline_app _ _ _ _ E) as ->. destruct eof.
  - by rewrite app_nil_r.
  - rewrite IH by (apply getline_length in E; lia). rsimpl. cbn. by rewrite <- app_assoc.
Qed.

(** ** Skipping and reading *)

Section reading.
Context `{Q : Qi} `{L : !QiLaws}.

Lemma skip_blank c i : is_blank c = true -> skip (c :: i) = skip i.
Proof.
  intros H. apply (skip_over_more _ _ _ c); [|cbn; lia]. unfold ws. rewrite parse_alt, parse_char. cbn [pre].
  by rewrite H.
Qed.

Lemma skip_token c i : is_blank c = false -> is_char "#" c = false -> skip (c :: i) = c :: i.
Proof.
  intros H Hc. apply skip_over_stop. unfold ws, comment. rewrite parse_alt, parse_char. cbn [pre]. rewrite H. cbn [obind].
  rewrite parse_lexeme, parse_seq_l, parse_char. cbn [pre]. by rewrite Hc.
Qed.

Lemma skip_nil : skip [] = [].
Proof.
  apply skip_over_stop. unfold ws, comment. rewrite parse_alt, parse_char. cbn.
  by rewrite parse_lexeme, parse_seq_l, parse_char.
Qed.

(** A parser that fits the whole input up to blanks. *)
Lemma parseStream_ok {S A R} (p : parser S A) (result : S -> R) s s' a i rest :
  parse p sk s (i ++ [nl]) = Ok (s', Some (a, rest)) -> skip rest = [] ->
  parseStream p result s i = Ok (s', result s').
Proof.
  intros H Hr. unfold parseStream. rewrite read_lines_ok by lia. rsimpl. unfold parseString.
  rewrite parse_phrase. fold (@skip Q). change (Some skip) with sk. rewrite H. cbn [obind]. rsimpl. by rewrite Hr.
Qed.

Lemma parseStream_fails {S A R} (p : parser S A) (result : S -> R) s s' i :
  parse p sk s (i ++ [nl]) = Ok (s', None) ->
  parseStream p result s i = Err (Thrown "Query plan parsing failed").
Proof.
  intros H. unfold parseStream. rewrite read_lines_ok by lia. rsimpl. unfold parseString.
  rewrite parse_phrase. fold (@skip Q). change (Some skip) with sk. by rewrite H.
Qed.
End reading.

(** ** Numbers are read back *)

Lemma dec_digit_code d : d < 10 -> code (dec_digit d) = 48 + d.
Proof. intros H. unfold code, dec_digit. apply N_ascii_embedding. lia. Qed.

Lemma dec_digit_ok d : d < 10 -> is_digit (dec_digit d) = true /\ digit (dec_digit d) = d.
Proof.
  intros H. unfold is_digit, between, digit. rewrite dec_digit_code by done. split; [|lia].
  apply andb_true_iff. rewrite !N.leb_le. lia.
Qed.

Definition dec_val (v : N) (ds : list N) : N := fold_left (fun v d => 10 * v + d) ds v.

Lemma dec_loop_ok fuel : forall n acc, (0 < fuel)%nat -> n < 10 ^ N.of_nat fuel ->
  exists ds, dec_loop fuel n acc = (dec_digit <$> ds) ++ acc /\ Forall (fun d => d < 10) ds /\
    dec_val 0 ds = n /\ ds <> [].
Proof.
  induction fuel as [|fuel IH]; intros n acc Hf Hn; [lia|]. cbn [dec_loop].
  pose proof (N.div_mod n 10 ltac:(lia)) as Hdm. pose proof (N.mod_lt n 10 ltac:(lia)) as Hr.
  destruct (N.eqb_spec (n / 10) 0) as [H0|H0].
  - exists [n mod 10]. split_and!; [done|by constructor|cbn; lia|done].
  - assert (Hp : 10 ^ N.of_nat (S fuel) = 10 * 10 ^ N.of_nat fuel).
    { rewrite Nat2N.inj_succ, N.pow_succ_r'. done. }
    assert (Hq : n / 10 < 10 ^ N.of_nat fuel) by (apply N.Div0.div_lt_upper_bound; lia).
    assert (0 < fuel)%nat.
    { destruct fuel; [|lia]. cbn in Hq. lia. }
    destruct (IH (n / 10) (dec_digit (n mod 10) :: acc)) as (ds & -> & Hds & Hv & Hne); [done..|].
    exists (ds ++ [n mod 10]). rewrite fmap_app, <- app_assoc. split_and!; [done| | |by destruct ds].
    + apply Forall_app. split; [done|]. by constructor.
    + unfold dec_val in *. rewrite fold_left_app, Hv. cbn. lia.
Qed.

Lemma number_digits ds v : Forall (fun d => d < 10) ds ->
  fold_left (fun v c => 10 * v + digit c) (dec_digit <$> ds) v = dec_val v ds.
Proof.
  intros H. revert v. induction H as [|d ds Hd Hds IH]; intros v; [done|]. cbn.
  rewrite (proj2 (dec_digit_ok d Hd)). apply IH.
Qed.

Lemma dec_ok n : n < W64 -> dec n <> [] /\ Forall (fun c => is_digit c = true) (dec n) /\ number (dec n) = n.
Proof.
  intros Hn. destruct (dec_loop_ok 20 n []) as (ds & E & Hds & Hv & Hne); [lia| |].
  { change (10 ^ N.of_nat 20) with 100000000000000000000. lia. }
  unfold dec. rewrite E, app_nil_r. split_and!.
  - by destruct ds.
  - apply Forall_fmap. eapply Forall_impl; [exact Hds|]. intros d Hd. by apply dec_digit_ok.
  - unfold number. by rewrite number_digits.
Qed.

(** Writing pieces one after the other. *)
Lemma foldM_texts {X} (f : X -> res text) (g : X -> text) xs t :
  (forall x, x ∈ xs -> f x = Ok (g x)) ->
  foldM (fun t x => s ← f x; mret (t ++ s)) t xs = Ok (t ++ (xs ≫= g)).
Proof.
  revert t. induction xs as [|x xs IH]; intros t H; cbn; [by rewrite app_nil_r|].
  rewrite H by left. rsimpl. rewrite IH by (intros y Hy; apply H; by right). by rewrite <- app_assoc.
Qed.

(** The end of every piece is the beginning of the next. *)
Lemma rotate_lines {X} (f : X -> text) (a : text) xs : a ++ (xs ≫= fun y => f y ++ a) = (xs ≫= fun y => a ++ f y) ++ a.
Proof.
  induction xs as [|y xs IH]; cbn [mbind list_bind]; [by rewrite app_nil_r|]. rewrite <- !app_assoc. do 2 f_equal. apply IH.
Qed.

Lemma rotate {X} (f : X -> text) (a : text) x xs :
  ((x :: xs) ≫= fun y => f y ++ a) = f x ++ (xs ≫= fun y => a ++ f y) ++ a.
Proof. cbn [mbind list_bind]. by rewrite <- rotate_lines, <- app_assoc. Qed.

(** The first character of a text, if it has one, is not of a class. *)
Definition stops (p : ascii -> bool) (i : text) : Prop := match i with c :: _ => p c = false | [] => True end.

Lemma span_all p a rest : Forall (fun c => p c = true) a -> stops p rest -> span p (a ++ rest) = (a, rest).
Proof.
  intros Ha Hr. induction Ha as [|c a Hc Ha IH]; cbn.
  - destruct rest as [|c rest]; [done|]. cbn in Hr |- *. by rewrite Hr.
  - by rewrite Hc, IH.
Qed.

Lemma scan_number_dec bound n rest :
  n < bound -> n < W64 -> stops is_digit rest -> scan_number bound (dec n ++ rest) = Some (n, rest).
Proof.
  intros Hb Hn Hr. destruct (dec_ok n Hn) as (Hne & Hd & Hv). unfold scan_number. rewrite span_all by done.
  destruct (dec n); [done|]. rewrite Hv. by rewrite (proj2 (N.ltb_lt _ _) Hb).
Qed.

Lemma is_digit_cases c : is_digit c = true ->
  is_blank c = false /\ is_char "#" c = false /\ is_char "-" c = false /\ is_char "+" c = false.
Proof.
  unfold is_digit, is_blank, between. rewrite andb_true_iff, !N.leb_le. intros [H1 H2].
  assert (Hc : forall d, code d < 48 -> is_char d c = false).
  { intros d Hd. apply Ascii.eqb_neq. intros ->. lia. }
  split_and!; [|by apply Hc..]. apply orb_false_iff. rewrite N.eqb_neq, andb_false_iff, !N.leb_gt. lia.
Qed.

Lemma is_alnum_cases c : is_alnum c = true -> is_blank c = false /\ is_char "#" c = false.
Proof.
  unfold is_alnum, is_digit, is_lower, is_upper, is_blank, between.
  rewrite !orb_true_iff, !andb_true_iff, !N.leb_le. intros H. assert (48 <= code c) by lia. split.
  - apply orb_false_iff. rewrite N.eqb_neq, andb_false_iff, !N.leb_gt. lia.
  - apply Ascii.eqb_neq. intros ->. change (code "#") with 35 in *. lia.
Qed.

Section reading.
Context `{Q : Qi} `{L : !QiLaws}.

Lemma skip_dec n rest : n < W64 -> skip (dec n ++ rest) = dec n ++ rest.
Proof.
  intros Hn. destruct (dec_ok n Hn) as (Hne & Hd & _). destruct (dec n) as [|c a]; [done|].
  apply Forall_cons in Hd as [(Hb & Hc & _)%is_digit_cases _]. by apply skip_token.
Qed.

Lemma read_uint {S} (s : S) n i rest :
  n < 2 ^ 32 -> skip i = dec n ++ rest -> stops is_digit rest -> parse uint_ sk s i = Ok (s, Some (n, rest)).
Proof.
  intros Hn Hi Hr. rewrite parse_uint. cbn [pre sk]. rewrite Hi, scan_number_dec by (try done; lia). done.
Qed.

Lemma read_int {S} (s : S) n i rest :
  n < 2 ^ 31 -> skip i = dec n ++ rest -> stops is_digit rest -> parse int_ sk s i = Ok (s, Some (Z.of_N n, rest)).
Proof.
  intros Hn Hi Hr. rewrite parse_int. cbn [pre sk]. rewrite Hi.
  destruct (dec_ok n) as (Hne & Hd & _); [lia|].
  pose proof (scan_number_dec (2 ^ 31) n rest Hn ltac:(lia) Hr) as Hs.
  destruct (dec n) as [|c a]; [done|]. apply Forall_cons in Hd as [(_ & _ & Hm & Hp)%is_digit_cases _].
  cbn [app] in *. unfold scan_int. by rewrite Hm, Hp, Hs.
Qed.

(** Letters and digits, with the skipper in effect between them. *)
Lemma read_word {S} (s : S) w i rest :
  skip i = w ++ rest -> w <> [] -> Forall (fun c => is_alnum c = true) w -> stops is_alnum (skip rest) ->
  parse (many (char_ is_alnum)) sk s i = Ok (s, Some (w, rest)).
Proof.
  intros Hi Hne Hw Hr. unfold many. rewrite parse_attr, parse_seq, parse_char. destruct w as [|c w]; [done|].
  apply Forall_cons in Hw as [Hc Hw]. cbn [app pre sk] in *. rewrite Hi, Hc. cbn [obind].
  replace (w ++ rest) with ((w ≫= fun c => [c]) ++ rest) by (f_equal; clear; induction w; cbn; congruence).
  rewrite (parse_kleene_reads _ _ (fun c => [c]) id (fun s _ => Ok s) (fun _ => True) rest) with (s' := s).
  - cbn. by rewrite list_fmap_id.
  - done.
  - intros s'. rewrite parse_char. cbn [pre sk]. destruct (skip rest) as [|d r]; [done|]. cbn in Hr. by rewrite Hr.
  - done.
  - intros d s1 s2 i' Hd _ [= <-]. rewrite parse_char. cbn [pre sk app]. rewrite Forall_forall in Hw.
    specialize (Hw d Hd). destruct (is_alnum_cases d Hw). by rewrite skip_token, Hw by done.
  - clear. induction w; [done|]. cbn. done.
Qed.

Lemma skip_word w rest : w <> [] -> Forall (fun c => is_alnum c = true) w -> skip (w ++ rest) = w ++ rest.
Proof.
  destruct w as [|c w]; [done|]. intros _ [Hc _]%Forall_cons. destruct (is_alnum_cases c Hc). by apply skip_token.
Qed.

(** Characters of a class, without the skipper. *)
Lemma read_chars {S} (p : ascii -> bool) (s : S) w rest :
  Forall (fun c => p c = true) w -> stops p rest ->
  parse (kleene (char_ p)) None s (w ++ rest) = Ok (s, Some (w, rest)).
Proof.
  intros Hw Hr. replace (w ++ rest) with ((w ≫= fun c => [c]) ++ rest) by (f_equal; clear; induction w; cbn; congruence).
  rewrite (parse_kleene_reads _ _ (fun c => [c]) id (fun s _ => Ok s) (fun _ => True) rest) with (s' := s).
  - by rewrite list_fmap_id.
  - done.
  - intros s'. rewrite parse_char. cbn [pre]. destruct rest as [|d r]; [done|]. cbn in Hr. by rewrite Hr.
  - done.
  - intros d s1 s2 i Hd _ [= <-]. rewrite parse_char. cbn [pre app]. rewrite Forall_forall in Hw. by rewrite (Hw d Hd).
  - clear. induction w; [done|]. cbn. done.
Qed.

(** A list [p % q]: the first piece, then pieces that a separator stands
    before. *)
Lemma read_list {S X A B} (p : parser S A) (q : parser S B) (sep : text) (show show' : X -> text) (val : X -> A)
    (run : S -> X -> res S) (ok : text -> Prop) x xs s s' rest :
  ok rest -> (forall s, parse (seq_r q p) sk s rest = Ok (s, None)) ->
  sep <> [] -> (forall i, ok (sep ++ i)) ->
  (forall y s i, y ∈ xs -> exists b, parse q sk s (sep ++ show' y ++ i) = Ok (s, Some (b, show' y ++ i))) ->
  (forall s s' i, ok i -> run s x = Ok s' -> parse p sk s (show x ++ i) = Ok (s', Some (val x, i))) ->
  (forall y s s' i, y ∈ xs -> ok i -> run s y = Ok s' -> parse p sk s (show' y ++ i) = Ok (s', Some (val y, i))) ->
  foldM run s (x :: xs) = Ok s' ->
  parse (list_of p q) sk s (show x ++ (xs ≫= fun y => sep ++ show' y) ++ rest) = Ok (s', Some (val <$> x :: xs, rest)).
Proof.
  intros Hok Hstop Hne Hsep Hq Hx Hp Hrun. unfold list_of. rewrite parse_attr, parse_seq.
  cbn [foldM] in Hrun. apply bind_ok in Hrun as (s1 & H1 & Hrun).
  rewrite (Hx s s1); [| |done].
  2: { destruct xs as [|y xs]; [done|]. cbn. rewrite <- !app_assoc. apply Hsep. }
  cbn [obind]. rewrite (parse_kleene_reads _ _ (fun y => sep ++ show' y) val run ok rest) with (s' := s');
    [done|done|done| | |done].
  - intros y i Hy Hi. rewrite <- app_assoc. split; [apply Hsep|by destruct sep].
  - intros y s2 s3 i Hy Hi Hr. rewrite <- app_assoc, parse_seq_r. destruct (Hq y s2 i Hy) as [b ->]. cbn [obind].
    by apply Hp.
Qed.

(** Pieces that a comma stands behind. *)
Lemma read_terminated {S X A} (p : parser S A) (show : X -> text) (val : X -> A) (run : S -> X -> res S) xs s s' rest :
  xs <> [] -> (forall s, parse p sk s rest = Ok (s, None)) ->
  (forall y s s' i, y ∈ xs -> run s y = Ok s' -> parse p sk s (show y ++ i) = Ok (s', Some (val y, i))) ->
  foldM run s xs = Ok s' ->
  parse (list_of p (lit (str ","))) sk s ((xs ≫= fun y => show y ++ str ",") ++ rest) =
    Ok (s', Some (val <$> xs, str "," ++ rest)).
Proof.
  intros Hne Hstop Hp Hrun. destruct xs as [|x xs]; [done|]. rewrite rotate, <- !app_assoc.
  assert (Hcomma : forall (s : S) i, parse (lit (str ",")) sk s (str "," ++ i) = Ok (s, Some (tt, i))).
  { intros s0 i. rewrite parse_lit. cbn [pre sk str String.list_ascii_of_string app]. by rewrite skip_token. }
  apply (read_list p (lit (str ",")) (str ",") show show val run (fun _ => True)); try done.
  - intros s0. rewrite parse_seq_r, Hcomma. cbn [obind]. apply Hstop.
  - intros y s0 i _. exists tt. apply Hcomma.
  - intros s0 s1 i _. apply Hp. left.
  - intros y s0 s1 i Hy _. apply Hp. by right.
Qed.
End reading.

(** Reading literals: blanks are skipped, the literal compared. *)
Ltac skips := repeat first [rewrite skip_blank by reflexivity | rewrite skip_token by reflexivity].
Ltac texts := cbn [pre sk obind str String.list_ascii_of_string app fmap option_fmap option_map].
Ltac texts_in H := cbn [pre sk obind str String.list_ascii_of_string app] in H.
Ltac lits := repeat progress (rewrite ?parse_seq_r, ?parse_seq_l, ?parse_attr, ?parse_seq, ?parse_opt, ?parse_lit;
  texts; skips; cbn [after is_char Ascii.eqb Bool.eqb]).

End Parsing.
