(* ===== verification/ReturnPlans.v ===== *)
(** * Return plans: written by the generator, read by the server

    [write_return_signature_to_file] and the loop over the return plans of
    [write_plans] (src/generator/new_staticGen.cpp) write, for every context,
    the beliefs it returns to each of its parents; the grammar of
    include/parser/ReturnPlanGrammar.tcc reads them into a map from parents to
    belief states. *)

From S2P Require Import Prelude BitMagic BeliefState BeliefStateOffset Spirit Parsing.
Import BitMagic BeliefState BeliefStateOffset Spirit Parsing.

Module ReturnPlans.

Definition line (s : string) : text := str s ++ [nl].

(** ** [write_return_signature_to_file] *)

(** The second and further beliefs of a block: the [do ... while (1)] loop. *)
Fixpoint more_beliefs (fuel : nat) (bs : NewBeliefState) (epsilon_id last_bit check_bit : N) : res text :=
  match fuel with
  | O => Err OutOfFuel
  | S fuel =>
      check_bit ← getNext bs check_bit;
      if (last_bit <? check_bit) || (check_bit =? 0) then mret []
      else
        rest ← more_beliefs fuel bs epsilon_id last_bit check_bit;
        mret (str ", " ++ dec (u64_sub check_bit epsilon_id) ++ rest)
  end.

(** One turn of the loop over the blocks. *)
Definition write_block (o : Offsets) (no_contexts : N) (bs : NewBeliefState) (count : N) : res text :=
  epsilon_id ← vec_at (starting_offsets o) count;
  e ← test bs epsilon_id;
  if bool_decide (e = DMCS_TRUE) then
    last_bit ← (if count =? u64_sub no_contexts 1 then bs_size bs
                else next ← vec_at (starting_offsets o) (count + 1); mret (u64_sub next 1));
    check_bit ← getNext bs epsilon_id;
    beliefs ← (if negb (check_bit =? 0) && (check_bit <=? last_bit) then
                 rest ← more_beliefs (scan_fuel bs) bs epsilon_id last_bit check_bit;
                 mret (dec (u64_sub check_bit epsilon_id) ++ rest)
               else mret []);
    mret (line "      {" ++ str "        ContextId: " ++ dec count ++ line "," ++
          str "        ReturnBeliefs: [" ++ beliefs ++ line "]" ++ line "      },")
  else mret [].

Definition write_return_signature_to_file (o : Offsets) (no_contexts : N) (bs : NewBeliefState) (ctx_id : N)
    : res text :=
  blocks ← foldM (fun t count => b ← write_block o no_contexts bs count; mret (t ++ b)) []
             (nrange 0 (N.of_nat (length (starting_offsets o))));
  mret (line "  {" ++ str "    ContextId: " ++ dec ctx_id ++ line "," ++ line "    ReturnSignature:" ++
        line "    [" ++ blocks ++ line "   ]" ++ line "  },").

(** The file for one context: its parents and what is returned to them. *)
Definition write_return_plan (o : Offsets) (no_contexts : N) (entries : list (N * NewBeliefState)) : res text :=
  sigs ← foldM (fun t e => s ← write_return_signature_to_file o no_contexts e.2 e.1; mret (t ++ s)) [] entries;
  mret (line "[" ++ sigs ++ line "]").

(** ** The grammar of return plans *)

(** [ReturnPlanGrammarSemantics]; the pointers are null before they are set. *)
Record semantics := mk_sem {
  m_ParsedResult : option (gmap N NewBeliefState);
  m_CurrentParentID : N;
  m_CurrentBeliefState : option NewBeliefState;
}.

Definition sem_new : semantics := mk_sem None 0 None.

Definition getCurrentParentID (o : Offsets) (mgr : semantics) (source : N) : res (semantics * unit) :=
  bs ← bs_blocks (no_blocks o) (size_belief_state o) false;
  bs ← setEpsilon_all bs (starting_offsets o);
  mret (mk_sem (m_ParsedResult mgr) source (Some bs), tt).

Definition activateBits (o : Offsets) (mgr : semantics) (source : N * list N) : res (semantics * unit) :=
  mgr ← foldM (fun mgr id =>
      bs ← not_null (m_CurrentBeliefState mgr);
      bs ← set_ctx bs source.1 id (starting_offsets o) DMCS_TRUE;
      mret (mk_sem (m_ParsedResult mgr) (m_CurrentParentID mgr) (Some bs))) mgr source.2;
  mret (mgr, tt).

Definition map_insert {A} (k : N) (a : A) (m : gmap N A) : gmap N A :=
  match m !! k with Some _ => m | None => <[k := a]> m end.

Definition insertIntoMap (mgr : semantics) (source : unit) : res (semantics * unit) :=
  bs ← not_null (m_CurrentBeliefState mgr);
  let rpm := default ∅ (m_ParsedResult mgr) in
  mret (mk_sem (Some (map_insert (m_CurrentParentID mgr) bs rpm)) (m_CurrentParentID mgr)
         (m_CurrentBeliefState mgr), tt).

Section grammar.
Context `{Q : Qi} (o : Offsets).
#[local] Open Scope qi_scope.

Definition returnBeliefs : parser semantics (N * list N) :=
  seq (lit (str "{") *> lit (str "ContextId") *> lit (str ":") *> uint_ <* lit (str ","))
      (lit (str "ReturnBeliefs") *> lit (str ":") *> lit (str "[") *> list_of uint_ (lit (str ",")) <* lit (str "]")
        <* lit (str "}")).

Definition returnSignature : parser semantics unit :=
  lit (str "[") *> list_of (action returnBeliefs (activateBits o)) (lit (str ",")) *> opt (lit (str ",")) *>
  lit (str "]").

Definition returnPlan : parser semantics unit :=
  lit (str "{") *> lit (str "ContextId") *> lit (str ":") *> action uint_ (getCurrentParentID o) *> lit (str ",") *>
  lit (str "ReturnSignature") *> lit (str ":") *> returnSignature *> lit (str "}").

Definition start : parser semantics unit :=
  lit (str "[") *> list_of (action returnPlan insertIntoMap) (lit (str ",")) *> opt (lit (str ",")) *> lit (str "]").

(** [ReturnPlanParser_t] on a file. *)
Definition parse_return_plan (f : option text) : res (semantics * option (gmap N NewBeliefState)) :=
  parseFile start m_ParsedResult sem_new f.

End grammar.

(** ** What is written *)

Definition ids_text (ids : list N) : text :=
  match ids with [] => [] | d :: ids => dec d ++ (ids ≫= fun d => str ", " ++ dec d) end.

(** The entry of a block. *)
Definition block_text (x : N * list N) : text :=
  line "      {" ++ str "        ContextId: " ++ dec x.1 ++ line "," ++
  str "        ReturnBeliefs: [" ++ ids_text x.2 ++ line "]" ++ str "      }".

(** The entry of a parent. *)
Definition plan_text (x : N * list (N * list N)) : text :=
  line "  {" ++ str "    ContextId: " ++ dec x.1 ++ line "," ++ line "    ReturnSignature:" ++ str "    [" ++
  (x.2 ≫= fun b => [nl] ++ block_text b ++ str ",") ++ [nl] ++ line "   ]" ++ str "  }".

Lemma trues_none n bs k : (forall i, k <= i -> i < n -> truth bs i <> DMCS_TRUE) -> trues n bs k = [].
Proof.
  intros H. unfold trues. apply elem_of_nil_inv. intros i.
  rewrite list_elem_of_filter, elem_of_nrange. intros [Ht [Hk Hn]]. by apply (H i).
Qed.

Section writing.
Context (n : N) (bs : NewBeliefState) (Hwf : bs_wf n bs) (Hn : n < W64).
(** A block begins at [e]; its positions end before [E]. *)
Context (e E last_bit : N) (HE : E <= n) (Hlast : forall r, r < n -> r <= last_bit <-> r < E).

Lemma true_lt r : truth bs r = DMCS_TRUE -> r < n.
Proof. intros Ht. destruct (N.lt_ge_cases r n); [done|]. by rewrite (truth_beyond n) in Ht. Qed.

(** The answer of [getNext]: the next true position of the block, or not one
    of the block. *)
Lemma next_in_block k r :
  first_true bs (k + 1) r ->
  (last_bit <? r) || (r =? 0) = true /\ trues E bs (k + 1) = [] \/
  (last_bit <? r) || (r =? 0) = false /\ k < r /\ truth bs r = DMCS_TRUE /\ r < n /\
    trues E bs (k + 1) = r :: trues E bs (r + 1).
Proof.
  intros [[-> Hnone]|(Hle & Ht & Hb)].
  - left. split; [by rewrite orb_true_r|]. apply trues_none. auto.
  - pose proof (true_lt r Ht) as Hr. destruct (N.lt_ge_cases r E) as [HrE|HrE].
    + right. split; [|split; [lia|split; [done|split; [done|]]]].
      * apply orb_false_iff. rewrite N.ltb_ge, N.eqb_neq. split; [by apply Hlast|lia].
      * by apply trues_step.
    + left. split.
      * apply orb_true_iff. left. apply N.ltb_lt. destruct (N.lt_ge_cases last_bit r) as [|Hc]; [done|].
        apply Hlast in Hc; lia.
      * apply trues_none. intros i ??. apply Hb; lia.
Qed.

Lemma more_beliefs_ok fuel : forall k,
  e <= k -> truth bs k = DMCS_TRUE -> N.of_nat (N.size_nat (bits (status_bit bs))) < N.of_nat fuel + k ->
  more_beliefs fuel bs e last_bit k = Ok (trues E bs (k + 1) ≫= fun p => str ", " ++ dec (p - e)).
Proof.
  induction fuel as [|fuel IH]; intros k He Ht Hf.
  { assert (Hst : N.testbit (bits (status_bit bs)) k = true).
    { apply not_false_is_true. rewrite <- truth_undef. congruence. }
    apply testbit_size_nat in Hst. lia. }
  cbn [more_beliefs]. pose proof (true_lt k Ht) as Hk.
  destruct (getNext_ok n bs k Hwf Hk) as (r & -> & Hr). rsimpl.
  destruct (next_in_block k r Hr) as [[-> ->]|(-> & Hkr & Htr & Hrn & ->)]; [done|].
  rewrite (IH r) by (done || lia). rsimpl. rewrite u64_sub_small by lia. cbn [mbind list_bind].
  by rewrite <- app_assoc.
Qed.

End writing.

Section plans.
Context (nc na : N) (Hmax : nc * (na + 1) <= id_max).
#[local] Abbreviation width := (nc * (na + 1)).

(** The beliefs of a context that a belief state has as true. *)
Definition block_ids (bs : NewBeliefState) (c : N) : list N :=
  (fun p => p - block_start na c) <$> trues (block_start na (c + 1)) bs (block_start na c + 1).

(** The contexts whose epsilon position is true, with their true beliefs. *)
Definition written (bs : NewBeliefState) : list (N * list N) :=
  (fun c => (c, block_ids bs c)) <$> filter (fun c => truth bs (block_start na c) = DMCS_TRUE) (nrange 0 nc).

Lemma elem_of_block_ids bs c a :
  a ∈ block_ids bs c <-> 1 <= a /\ a <= na /\ truth bs (block_start na c + a) = DMCS_TRUE.
Proof.
  clear Hmax. unfold block_ids, trues. rewrite list_elem_of_fmap. setoid_rewrite list_elem_of_filter.
  setoid_rewrite elem_of_nrange. unfold block_start. split.
  - intros (p & -> & Ht & ? & ?). replace (c * (na + 1) + (p - c * (na + 1))) with p by lia. split_and!; [lia|lia|done].
  - intros (? & ? & Ht). exists (c * (na + 1) + a). split_and!; [lia|done|lia|lia].
Qed.

Lemma layout_offset c : c < nc -> vec_at (starting_offsets (layout nc na)) c = Ok (block_start na c).
Proof.
  clear Hmax. intros Hc. apply vec_at_ok. cbn. rewrite list_lookup_fmap, lookup_nrange, decide_True by lia. cbn. do 2 f_equal. lia.
Qed.

(** The last position of a block, as it is computed for the last block too. *)
Lemma block_end_ok bs c :
  bs_wf width bs -> c < nc ->
  exists lb, (if c =? u64_sub nc 1 then bs_size bs
      else next ← vec_at (starting_offsets (layout nc na)) (c + 1); mret (u64_sub next 1)) = Ok lb /\
    forall r, r < width -> r <= lb <-> r < block_start na (c + 1).
Proof.
  intros Hwf Hc. assert (Hw : width < W64) by (unfold id_max in Hmax; lia).
  assert (Hss : block_start na (c + 1) = block_start na c + na + 1) by (unfold block_start; nia).
  assert (Hs1 : block_start na (c + 1) <= width) by (unfold block_start; nia).
  destruct (N.eqb_spec c (u64_sub nc 1)) as [Hcn|Hne].
  - rewrite u64_sub_small in Hcn by nia. exists width. split; [by apply bs_size_ok|].
    assert (block_start na (c + 1) = width) by (unfold block_start; nia). lia.
  - rewrite u64_sub_small in Hne by nia. rewrite layout_offset by lia. rsimpl. rewrite u64_sub_small by lia.
    eexists. split; [done|]. lia.
Qed.

Lemma write_block_ok bs c :
  bs_wf width bs -> c < nc ->
  write_block (layout nc na) nc bs c =
    Ok (if bool_decide (truth bs (block_start na c) = DMCS_TRUE) then block_text (c, block_ids bs c) ++ line ","
        else []).
Proof.
  intros Hwf Hc. assert (Hw : width < W64) by (unfold id_max in Hmax; lia).
  assert (Hs : block_start na c < width) by (unfold block_start; nia).
  assert (Hs1 : block_start na (c + 1) <= width) by (unfold block_start; nia).
  assert (Hss : block_start na (c + 1) = block_start na c + na + 1) by (unfold block_start; nia).
  unfold write_block. rewrite (layout_offset c) by done. rsimpl. rewrite (test_ok width) by done. rsimpl.
  case_bool_decide; [|done]. set (E := block_start na (c + 1)) in *.
  destruct (block_end_ok bs c Hwf Hc) as (lb & -> & Hlast). fold E in Hlast. rsimpl.
  destruct (getNext_ok width bs (block_start na c) Hwf Hs) as (r & -> & Hr). rsimpl.
  replace (negb (r =? 0) && (r <=? lb)) with (negb ((lb <? r) || (r =? 0))).
  2: { rewrite negb_orb, <- N.leb_antisym, andb_comm. done. }
  unfold block_text, line. cbn [fst snd].
  destruct (next_in_block width bs Hwf Hw E lb Hs1 Hlast _ r Hr) as [[-> Ht]|(-> & Hkr & Htr & Hrn & Ht)].
  - cbn [negb]. rsimpl. unfold block_ids. fold E. rewrite Ht. cbn [fmap list_fmap ids_text]. by rewrite <- !app_assoc.
  - cbn [negb]. rewrite (more_beliefs_ok width bs Hwf Hw (block_start na c) E lb Hs1 Hlast) by (done || lia || (unfold scan_fuel; lia)).
    rsimpl. unfold block_ids. fold E. rewrite Ht. cbn [fmap list_fmap ids_text]. rewrite u64_sub_small by lia.
    rewrite <- !app_assoc, list_fmap_bind. done.
Qed.

Lemma write_return_signature_ok bs ctx_id :
  bs_wf width bs ->
  write_return_signature_to_file (layout nc na) nc bs ctx_id = Ok (plan_text (ctx_id, written bs) ++ line ",").
Proof.
  intros Hwf. unfold write_return_signature_to_file. cbn [starting_offsets layout].
  rewrite length_fmap, length_nrange, N2Nat.id, N.sub_0_r.
  rewrite (foldM_texts _ (fun c => if bool_decide (truth bs (block_start na c) = DMCS_TRUE)
    then block_text (c, block_ids bs c) ++ line "," else [])).
  2: { intros c [_ Hc]%elem_of_nrange. by apply write_block_ok. }
  rsimpl. cbn [app].
  replace (nrange 0 nc ≫= _) with (written bs ≫= fun b => (block_text b ++ str ",") ++ [nl]).
  2: { unfold written. rewrite list_fmap_bind. induction (nrange 0 nc) as [|c l IH]; [done|]. cbn [mbind list_bind].
       rewrite filter_cons. case_decide; [rewrite bool_decide_true by done|rewrite bool_decide_false by done; exact IH].
       cbn [mbind list_bind]. rewrite IH. unfold line, compose. by rewrite <- !app_assoc. }
  unfold plan_text, line. cbn [fst snd]. rewrite <- !app_assoc.
  rewrite (app_assoc [nl] (written bs ≫= _)), rotate_lines, <- app_assoc. done.
Qed.

Lemma write_return_plan_ok entries :
  Forall (fun e => bs_wf width e.2) entries ->
  write_return_plan (layout nc na) nc entries =
    Ok (str "[" ++ (entries ≫= fun e => [nl] ++ plan_text (e.1, written e.2) ++ str ",") ++ [nl] ++ line "]").
Proof.
  intros Hf. rewrite Forall_forall in Hf. unfold write_return_plan.
  rewrite (foldM_texts _ (fun e => (plan_text (e.1, written e.2) ++ str ",") ++ [nl])).
  2: { intros e He. rewrite write_return_signature_ok by auto. unfold line. by rewrite <- app_assoc. }
  rsimpl. cbn [app]. unfold line. rewrite <- !app_assoc, (app_assoc [nl]), rotate_lines, <- app_assoc. done.
Qed.

End plans.

(** ** What is read *)

Section reading.
Context `{Q : Qi} `{L : !QiLaws} (o : Offsets).

Lemma read_ids d ds (s : semantics) i :
  Forall (fun d => d < 2 ^ 32) (d :: ds) ->
  parse (list_of uint_ (lit (str ","))) sk s (ids_text (d :: ds) ++ "]"%char :: i) =
    Ok (s, Some (d :: ds, "]"%char :: i)).
Proof.
  intros Hf. rewrite Forall_forall in Hf. unfold ids_text.
  replace (ds ≫= fun d => str ", " ++ dec d) with (ds ≫= fun d => str "," ++ (str " " ++ dec d)) by done.
  rewrite <- app_assoc.
  rewrite (read_list uint_ (lit (str ",")) (str ",") dec (fun d => str " " ++ dec d) id (fun s _ => Ok s) (stops is_digit))
    with (s' := s); try done.
  - by rewrite list_fmap_id.
  - intros s0. by lits.
  - intros y s0 i0 _. exists tt. by lits.
  - intros s0 s1 i0 Hi [= <-]. assert (d < 2 ^ 32) by (apply Hf; left). apply (read_uint s0); [done| |done]; unfold id.
    apply skip_dec. lia.
  - intros y s0 s1 i0 Hy Hi [= <-]. assert (y < 2 ^ 32) by (apply Hf; by right). apply (read_uint s0); [done| |done]; unfold id.
    rewrite <- app_assoc. cbn [str String.list_ascii_of_string app]. skips. apply skip_dec. lia.
  - cbn. clear. induction ds; cbn; done.
Qed.

Lemma read_block x mgr mgr' i :
  activateBits o mgr x = Ok (mgr', tt) -> x.1 < 2 ^ 32 -> x.2 <> [] -> Forall (fun d => d < 2 ^ 32) x.2 ->
  parse (action returnBeliefs (activateBits o)) sk mgr ([nl] ++ block_text x ++ i) = Ok (mgr', Some (tt, i)).
Proof.
  destruct x as [c [|d ds]]; intros Hact Hc Hne Hids; [done|]. cbn [fst snd] in *.
  unfold returnBeliefs, block_text, line. cbn [fst snd]. rewrite <- !app_assoc. rewrite parse_action.
  lits. erewrite read_uint; [|done|skips; apply skip_dec; lia|done].
  lits. rewrite read_ids by done. lits. by rewrite Hact.
Qed.

Lemma read_block_none s i : parse (action returnBeliefs (activateBits o)) sk s ([nl] ++ str "   ]" ++ i) = Ok (s, None).
Proof. rewrite parse_action. unfold returnBeliefs. by lits. Qed.

(** What the entry of a parent does to the state. *)
Definition run_block (mgr : semantics) (x : N * list N) : res semantics := fst <$> activateBits o mgr x.

Definition run_plan (mgr : semantics) (x : N * list (N * list N)) : res semantics :=
  '(mgr, _) ← getCurrentParentID o mgr x.1;
  mgr ← foldM run_block mgr x.2;
  fst <$> insertIntoMap mgr tt.

Definition readable (x : N * list (N * list N)) : Prop :=
  x.1 < 2 ^ 32 /\ x.2 <> [] /\
  Forall (fun b => b.1 < 2 ^ 32 /\ b.2 <> [] /\ Forall (fun d => d < 2 ^ 32) b.2) x.2.

Lemma run_block_inv mgr x mgr' : run_block mgr x = Ok mgr' -> activateBits o mgr x = Ok (mgr', tt).
Proof. unfold run_block. destruct (activateBits o mgr x) as [[m []]|]; cbn; [by intros [= ->]|done]. Qed.

Lemma read_plan x mgr mgr' i :
  run_plan mgr x = Ok mgr' -> readable x ->
  parse (action (returnPlan o) insertIntoMap) sk mgr ([nl] ++ plan_text x ++ i) = Ok (mgr', Some (tt, i)).
Proof.
  destruct x as [c blocks]. intros Hrun (Hc & Hne & Hb). cbn [fst snd] in *. unfold run_plan in Hrun. cbn [fst snd] in Hrun.
  apply bind_ok in Hrun as ([m1 []] & H1 & Hrun). apply bind_ok in Hrun as (m2 & H2 & Hrun).
  unfold returnPlan, plan_text, line. cbn [fst snd]. rewrite <- !app_assoc. rewrite parse_action.
  lits. rewrite parse_action. erewrite read_uint; [|done|skips; apply skip_dec; lia|done]. cbn [obind]. rewrite H1. rsimpl.
  lits. unfold returnSignature. lits.
  assert (Hl : forall i, parse (list_of (action returnBeliefs (activateBits o)) (lit (str ","))) sk m1
      ((blocks ≫= fun b => ([nl] ++ block_text b) ++ str ",") ++ [nl] ++ str "   ]" ++ i) =
    Ok (m2, Some ((fun _ => tt) <$> blocks, str "," ++ [nl] ++ str "   ]" ++ i))).
  { intros i0. apply (read_terminated _ (fun b => [nl] ++ block_text b) (fun _ => tt) run_block); [done| | |done].
    - intros s. apply read_block_none.
    - intros b s s' i1 Hin Hr. rewrite Forall_forall in Hb. destruct (Hb b Hin) as (? & ? & ?).
      rewrite <- app_assoc. apply read_block; try done. by apply run_block_inv. }
  texts_in Hl. rewrite Hl. lits. destruct (insertIntoMap m2 ()) as [[m3 []]|]; [|done]. injection Hrun as ->. done.
Qed.

Lemma read_plan_none s i : parse (action (returnPlan o) insertIntoMap) sk s ([nl] ++ line "]" ++ i) = Ok (s, None).
Proof. rewrite parse_action. unfold returnPlan, line. by lits. Qed.

Lemma read_plans plans mgr' :
  plans <> [] -> Forall readable plans -> foldM run_plan sem_new plans = Ok mgr' ->
  parse_return_plan o (Some (str "[" ++ (plans ≫= fun e => [nl] ++ plan_text e ++ str ",") ++ [nl] ++ line "]"))
  = Ok (mgr', m_ParsedResult mgr').
Proof.
  intros Hne Hr Hrun. rewrite Forall_forall in Hr. unfold parse_return_plan, parseFile.
  apply (parseStream_ok _ _ _ _ tt _ [nl; nl]); [|by rewrite !skip_blank, skip_nil by done].
  unfold start. rewrite <- !app_assoc.
  assert (Hl : forall i, parse (list_of (action (returnPlan o) insertIntoMap) (lit (str ","))) sk sem_new
      ((plans ≫= fun b => ([nl] ++ plan_text b) ++ str ",") ++ [nl] ++ line "]" ++ i) =
    Ok (mgr', Some ((fun _ => tt) <$> plans, str "," ++ [nl] ++ line "]" ++ i))).
  { intros i0. apply (read_terminated _ (fun b => [nl] ++ plan_text b) (fun _ => tt) run_plan); [done| | |done].
    - intros s. apply read_plan_none.
    - intros b s s' i1 Hin Hb. rewrite <- app_assoc. apply read_plan; auto. }
  texts_in Hl. lits. rewrite Hl. unfold line. by lits.
Qed.
End reading.

(** ** What the server has after reading *)

Section results.
Context (nc na : N) (Hmax : nc * (na + 1) <= id_max).
#[local] Abbreviation width := (nc * (na + 1)).
#[local] Abbreviation o := (layout nc na).

(** Setting positions one after the other. *)
Lemma fold_puts {X} (f : NewBeliefState -> X -> res NewBeliefState) (pos : X -> N) xs bs :
  bs_wf width bs -> (forall x, x ∈ xs -> pos x < width) ->
  (forall bs x, bs_wf width bs -> x ∈ xs -> f bs x = Ok (put bs (pos x) DMCS_TRUE)) ->
  exists bs', foldM f bs xs = Ok bs' /\ bs_wf width bs' /\
    forall q, truth bs' q = if decide (q ∈ pos <$> xs) then DMCS_TRUE else truth bs q.
Proof.
  revert bs. induction xs as [|x xs IH]; intros bs Hwf Hpos Hf.
  - exists bs. split_and!; [done..|]. intros q. by rewrite decide_False by apply not_elem_of_nil.
  - cbn [foldM]. rewrite Hf by (done || left). rsimpl.
    destruct (IH (put bs (pos x) DMCS_TRUE)) as (bs' & -> & W & T).
    + apply wf_put; [done|]. apply Hpos. left.
    + intros y Hy. apply Hpos. by right.
    + intros b y Hb Hy. apply Hf; [done|by right].
    + exists bs'. split_and!; [done..|]. intros q. rewrite T, truth_put. cbn [fmap list_fmap].
      destruct (N.eqb_spec (pos x) q) as [->|Hne].
      * rewrite (decide_True (P := q ∈ q :: _)) by left. by case_decide.
      * apply decide_ext. rewrite elem_of_cons. split; [by right|]. intros [->|]; done.
Qed.

(** The belief state that is read for [bs]: the epsilon positions of all
    contexts, and the true beliefs of the contexts whose epsilon is true. *)
Definition returned (bs bs' : NewBeliefState) : Prop :=
  bs_wf width bs' /\ forall c a, c < nc -> a <= na ->
    truth bs' (block_start na c + a) =
      if bool_decide (a = 0 \/ truth bs (block_start na c) = DMCS_TRUE /\ truth bs (block_start na c + a) = DMCS_TRUE)
      then DMCS_TRUE else DMCS_UNDEF.

(** The state in which the epsilon positions are set and nothing else. *)
Lemma epsilon_state_ok :
  exists b0 bs, bs_blocks nc na false = Ok b0 /\ setEpsilon_all b0 (starting_offsets o) = Ok bs /\ bs_wf width bs /\
    forall c a, c < nc -> a <= na ->
      truth bs (block_start na c + a) = if bool_decide (a = 0) then DMCS_TRUE else DMCS_UNDEF.
Proof.
  destruct (bs_wf_blocks nc na Hmax) as (b0 & E0 & W0 & T0).
  exists b0. unfold setEpsilon_all. cbn [starting_offsets layout]. rewrite length_fmap, length_nrange, N2Nat.id, N.sub_0_r.
  destruct (fold_puts (fun b id => setEpsilon b id (block_start na <$> nrange 0 nc)) (block_start na) (nrange 0 nc) b0 W0)
    as (bs & -> & W & T).
  { intros c [_ Hc]%elem_of_nrange. unfold block_start. nia. }
  { intros b c Hb [_ Hc]%elem_of_nrange. apply (setEpsilon_ok width); [done| |unfold block_start; nia].
    apply vec_at_ok. by apply (layout_offset nc na). }
  exists bs. split_and!; [done..|]. intros c a Hc Ha. rewrite T, T0. unfold block_start.
  case_bool_decide as H0.
  - subst a. apply decide_True. apply list_elem_of_fmap. exists c. rewrite elem_of_nrange. lia.
  - apply decide_False. intros (c' & Hq & _)%list_elem_of_fmap.
    assert (c = c') by nia. subst c'. lia.
Qed.

Lemma parent_state_ok mgr p :
  exists bs, getCurrentParentID o mgr p = Ok (mk_sem (m_ParsedResult mgr) p (Some bs), tt) /\ bs_wf width bs /\
    forall c a, c < nc -> a <= na ->
      truth bs (block_start na c + a) = if bool_decide (a = 0) then DMCS_TRUE else DMCS_UNDEF.
Proof.
  unfold getCurrentParentID. cbn [no_blocks size_belief_state layout].
  destruct epsilon_state_ok as (b0 & bs & -> & E & W & T). rsimpl. rewrite E. rsimpl. by exists bs.
Qed.

(** The positions of the listed beliefs. *)
Definition positions (blocks : list (N * list N)) : list N :=
  blocks ≫= fun b => (fun a => block_start na b.1 + a) <$> b.2.

Lemma run_blocks_ok blocks : forall mgr bs,
  m_CurrentBeliefState mgr = Some bs -> bs_wf width bs ->
  Forall (fun b => b.1 < nc /\ Forall (fun a => a <= na) b.2) blocks ->
  exists bs', foldM (run_block o) mgr blocks = Ok (mk_sem (m_ParsedResult mgr) (m_CurrentParentID mgr) (Some bs')) /\
    bs_wf width bs' /\ forall q, truth bs' q = if decide (q ∈ positions blocks) then DMCS_TRUE else truth bs q.
Proof.
  induction blocks as [|[c ids] blocks IH]; intros mgr bs Hcur Hwf Hb.
  - exists bs. destruct mgr. cbn in Hcur. subst. split_and!; [done..|]. intros q. by rewrite decide_False by apply not_elem_of_nil.
  - apply Forall_cons in Hb as [[Hc Hids] Hb]. cbn [fst snd] in Hc, Hids. rewrite Forall_forall in Hids.
    set (step := fun b id => set_ctx b c id (starting_offsets o) DMCS_TRUE).
    destruct (fold_puts step (fun a => block_start na c + a) ids bs Hwf) as (b1 & E1 & W1 & T1).
    { intros a Ha%Hids. unfold block_start. nia. }
    { intros b a Hbw Ha%Hids. apply (set_ctx_ok width); [done| |unfold block_start; nia].
      apply vec_at_ok. by apply layout_offset. }
    assert (Hrun : run_block o mgr (c, ids) = Ok (mk_sem (m_ParsedResult mgr) (m_CurrentParentID mgr) (Some b1))).
    { unfold run_block, activateBits. cbn [fst snd]. clear -E1 Hcur. destruct mgr as [m p cur]. cbn in *. subst cur.
      revert bs E1. induction ids as [|a ids IH]; intros bs E1; cbn in E1 |- *; [by injection E1 as ->|].
      change (not_null (Some bs)) with (Ok bs). rsimpl. fold (step bs a).
      destruct (step bs a) as [b'|]; [|done]. rsimpl. by apply IH. }
    cbn [foldM]. rewrite Hrun. rsimpl.
    destruct (IH (mk_sem (m_ParsedResult mgr) (m_CurrentParentID mgr) (Some b1)) b1) as (bs' & E & W & T); [done..|].
    exists bs'. cbn [m_ParsedResult m_CurrentParentID] in E. split_and!; [done..|]. intros q. rewrite T, T1.
    unfold positions. cbn [mbind list_bind fst snd]. destruct (decide (q ∈ _ <$> ids)).
    + rewrite (decide_True (P := q ∈ _ ++ _)) by (apply elem_of_app; by left). by case_decide.
    + apply decide_ext. rewrite elem_of_app. tauto.
Qed.

Lemma run_plan_ok mgr p bs :
  bs_wf width bs ->
  exists bs', run_plan o mgr (p, written nc na bs) =
      Ok (mk_sem (Some (map_insert p bs' (default ∅ (m_ParsedResult mgr)))) p (Some bs')) /\ returned bs bs'.
Proof.
  intros Hwf. unfold run_plan. cbn [fst snd].
  destruct (parent_state_ok mgr p) as (b0 & -> & W0 & T0). rsimpl.
  destruct (run_blocks_ok (written nc na bs) (mk_sem (m_ParsedResult mgr) p (Some b0)) b0) as (bs' & -> & W & T); [done..| |].
  { apply Forall_forall. intros x (c & -> & [_ [_ Hc]%elem_of_nrange]%list_elem_of_filter)%list_elem_of_fmap.
    cbn. split; [done|]. apply Forall_forall. intros a (? & ? & _)%elem_of_block_ids. done. }
  rsimpl. exists bs'. split; [done|]. split; [done|]. intros c a Hc Ha. rewrite T, T0 by done.
  assert (Hpos : block_start na c + a ∈ positions (written nc na bs) <->
    a <> 0 /\ truth bs (block_start na c) = DMCS_TRUE /\ truth bs (block_start na c + a) = DMCS_TRUE).
  { unfold positions. rewrite list_elem_of_bind. unfold written. split.
    - intros (x & Hq & (c' & -> & [He [_ Hc']%elem_of_nrange]%list_elem_of_filter)%list_elem_of_fmap).
      cbn [fst snd] in Hq. apply list_elem_of_fmap in Hq as (a' & Hq & (? & ? & Ht)%elem_of_block_ids).
      assert (c = c') by (unfold block_start in Hq; nia). subst c'. assert (a = a') by lia. subst a'. split_and!; [lia|done..].
    - intros (Ha0 & He & Ht). exists (c, block_ids na bs c). split.
      + apply list_elem_of_fmap. exists a. split; [done|]. apply elem_of_block_ids. cbn. split_and!; [lia|done..].
      + apply list_elem_of_fmap. exists c. split; [done|]. apply list_elem_of_filter. rewrite elem_of_nrange. split; [done|lia]. }
  case_decide as H1; [rewrite Hpos in H1; rewrite bool_decide_true by tauto; done|]. rewrite Hpos in H1.
  case_bool_decide; [by rewrite bool_decide_true by tauto|]. rewrite bool_decide_false by tauto. done.
Qed.

(** The entry of a parent that counts: the first one. *)
Definition entry (p : N) (entries : list (N * NewBeliefState)) : option NewBeliefState :=
  snd <$> List.find (fun e => e.1 =? p) entries.

(** The map has, for every parent, what was written for it first. *)
Definition plan_of (entries : list (N * NewBeliefState)) (m : gmap N NewBeliefState) : Prop :=
  forall p, match entry p entries with
            | Some bs => exists bs', m !! p = Some bs' /\ returned bs bs'
            | None => m !! p = None
            end.

Lemma plan_of_snoc entries m p bs bs' :
  plan_of entries m -> returned bs bs' -> plan_of (entries ++ [(p, bs)]) (map_insert p bs' m).
Proof.
  intros Hp Hr q. specialize (Hp q). unfold entry in *.
  assert (Hf : List.find (fun e => e.1 =? q) (entries ++ [(p, bs)]) =
    match List.find (fun e => e.1 =? q) entries with Some e => Some e | None => if p =? q then Some (p, bs) else None end).
  { clear. induction entries as [|e entries IH]; cbn; [done|]. by destruct (e.1 =? q). }
  rewrite Hf. unfold map_insert. destruct (List.find _ entries) as [e|]; cbn [fmap option_fmap option_map] in *.
  - destruct Hp as (b & Hb & Hbr). exists b. split; [|done]. destruct (m !! p) eqn:Ep; [done|].
    rewrite lookup_insert_ne; [done|]. congruence.
  - destruct (N.eqb_spec p q) as [->|Hne]; cbn.
    + rewrite Hp. exists bs'. by rewrite lookup_insert_eq.
    + destruct (m !! p); [done|]. by rewrite lookup_insert_ne.
Qed.

Lemma run_plans_ok entries :
  Forall (fun e => bs_wf width e.2) entries -> entries <> [] ->
  exists mgr m, foldM (run_plan o) sem_new ((fun e => (e.1, written nc na e.2)) <$> entries) = Ok mgr /\
    m_ParsedResult mgr = Some m /\ plan_of entries m.
Proof.
  intros Hf Hne.
  assert (H : exists mgr, foldM (run_plan o) sem_new ((fun e => (e.1, written nc na e.2)) <$> entries) = Ok mgr /\
    (entries <> [] -> m_ParsedResult mgr <> None) /\ plan_of entries (default ∅ (m_ParsedResult mgr))).
  { clear Hne. induction entries as [|[p bs] entries IH] using rev_ind.
    - exists sem_new. split_and!; [done..|]. intros q. cbn. done.
    - apply Forall_app in Hf as [Hf Hb]. apply Forall_cons in Hb as [Hb _]. cbn in Hb.
      destruct (IH Hf) as (mgr & E & _ & Hp). rewrite fmap_app, foldM_app, E. rsimpl.
      destruct (run_plan_ok mgr p bs Hb) as (bs' & Er & Hr). cbn [fmap list_fmap foldM fst snd]. rewrite Er. rsimpl.
      eexists. split; [done|]. cbn. split; [done|]. by apply plan_of_snoc. }
  destruct H as (mgr & E & Hn & Hp). destruct (m_ParsedResult mgr) as [m|] eqn:Em; [|by apply Hn in Hne].
  exists mgr, m. split_and!; [done..|]. done.
Qed.

End results.

(** A return plan that the generator writes for contexts whose epsilon
    positions come with at least one belief is read back by the server: for
    every parent, the beliefs that were written for it first are true, the
    epsilon positions of all contexts are set, nothing else. *)
Lemma return_plan_roundtrip `{Q : Qi} `{L : !QiLaws} nc na entries t :
  nc * (na + 1) <= id_max -> entries <> [] ->
  Forall (fun e => e.1 < 2 ^ 32 /\ bs_wf (nc * (na + 1)) e.2 /\ written nc na e.2 <> [] /\
                   forall c, c < nc -> truth e.2 (block_start na c) = DMCS_TRUE -> block_ids na e.2 c <> []) entries ->
  write_return_plan (layout nc na) nc entries = Ok t ->
  exists mgr m, parse_return_plan (layout nc na) (Some t) = Ok (mgr, Some m) /\ plan_of nc na entries m.
Proof.
  intros Hmax Hne Hf Ht. rewrite Forall_forall in Hf.
  assert (Hwf : Forall (fun e => bs_wf (nc * (na + 1)) e.2) entries) by (apply Forall_forall; intros e He; by apply Hf).
  rewrite write_return_plan_ok in Ht by done. injection Ht as <-.
  destruct (run_plans_ok nc na Hmax entries Hwf Hne) as (mgr & m & E & Hm & Hp).
  exists mgr, m. split; [|done]. rewrite <- Hm.
  replace (entries ≫= _) with (((fun e => (e.1, written nc na e.2)) <$> entries) ≫= fun e => [nl] ++ plan_text e ++ str ",")
    by apply list_fmap_bind.
  apply read_plans; [by destruct entries| |done].
  apply Forall_forall. intros x (e & -> & He)%list_elem_of_fmap. destruct (Hf e He) as (H1 & H2 & H3 & H4).
  unfold readable. cbn [fst snd]. split_and!; [done..|]. apply Forall_forall.
  intros b (c & -> & [Hc [_ Hn]%elem_of_nrange]%list_elem_of_filter)%list_elem_of_fmap. cbn [fst snd].
  unfold id_max in Hmax. split_and!; [nia|by apply H4|]. apply Forall_forall. intros a (? & ? & _)%elem_of_block_ids. nia.
Qed.

(** Two contexts with two beliefs each; the client asks for belief 1 of
    context 0 and belief 2 of context 1. *)
Definition sample_state : NewBeliefState := mk_bs (mk_bvector 6 43) (mk_bvector 6 43).

Definition sample_text : text := match write_return_plan (layout 2 2) 2 [(1023, sample_state)] with Ok t => t | Err _ => [] end.

Lemma return_plan_sample :
  exists mgr m, parse_return_plan (Q := qi_functions) (layout 2 2) (Some sample_text) = Ok (mgr, Some m) /\
    plan_of 2 2 [(1023, sample_state)] m.
Proof.
  apply (return_plan_roundtrip 2 2 [(1023, sample_state)] sample_text); [done|done| |reflexivity].
  apply Forall_cons. split; [|constructor]. cbn [fst snd]. split_and!; [reflexivity| |discriminate|].
  - split; [reflexivity|reflexivity|discriminate|apply lt_pow2_bits; reflexivity..|done].
  - intros c Hc _. assert (c = 0 \/ c = 1) as [-> | ->] by lia; discriminate.
Qed.

(** A context that is nobody's neighbor gets a return plan without entries,
    which the grammar does not accept. *)
Lemma plan_without_parents_rejected `{Q : Qi} `{L : !QiLaws} nc na :
  (t ← write_return_plan (layout nc na) nc []; parse_return_plan (layout nc na) (Some t)) =
    Err (Thrown "Query plan parsing failed").
Proof.
  unfold write_return_plan. cbn [foldM]. rsimpl. unfold parse_return_plan, parseFile.
  apply (parseStream_fails _ _ _ sem_new). unfold start, list_of, line. lits. rewrite parse_action. unfold returnPlan.
  by lits.
Qed.

(** Nor does it accept a context whose epsilon is set without a belief. *)
Lemma empty_block_rejected `{Q : Qi} `{L : !QiLaws} (o : Offsets) c s i :
  c < 2 ^ 32 -> parse (action returnBeliefs (activateBits o)) sk s (block_text (c, []) ++ i) = Ok (s, None).
Proof.
  intros Hc. rewrite parse_action. unfold returnBeliefs, block_text, line, ids_text. cbn [fst snd]. rewrite <- !app_assoc.
  lits. erewrite read_uint; [|done|skips; apply skip_dec; lia|done]. lits.
  unfold list_of. lits. rewrite parse_uint. texts. skips. done.
Qed.

End ReturnPlans.
