(* ===== verification/QueryPlans.v ===== *)
(** * Query plans

    [ContextQueryPlan] (include/mcs/QueryPlan.h), the grammar of
    include/parser/QueryPlanGrammar.tcc that the programs read query plans
    with, and the writer of query plans in src/generator/new_staticGen.cpp.

    The result of the grammar is a map behind a shared pointer that is a member
    of the parser: it is created by the first entry and kept from one file to
    the next, so the store of maps is part of the state. *)

From S2P Require Import Prelude BitMagic BeliefState BeliefStateOffset Ident Tables Spirit Parsing ReturnPlans.
Import BitMagic BeliefState BeliefStateOffset Ident Tables Spirit Parsing ReturnPlans.

Module QueryPlans.

Abbreviation ConstantList := (list text).

Record ConstantCategory := mk_category { cat_name : text; cat_constants : option ConstantList }.

Record Filter := mk_filter {
  f_name : text;
  f_predicate : text;
  f_arguments : list (N * option ConstantList);
}.

(** [std::map::insert] on an association list in insertion order. *)
Definition alist_insert {K A} `{EqDecision K} (l : list (K * A)) (k : K) (a : A) : list (K * A) :=
  if existsb (fun e => bool_decide (e.1 = k)) l then l else l ++ [(k, a)].

Record ContextQueryPlan (T : Type) := mk_plan {
  ctx : N;
  hostname : text;
  port : Z;
  constants : option ConstantList;
  constCats : option (list ConstantCategory);
  preds : option (list (text * N));
  filters : option (list Filter);
  localSignature : option (BeliefTable T);
  groundInputSignature : option (BeliefTable T);
}.
Arguments mk_plan {T}.
Arguments ctx {T}.
Arguments hostname {T}.
Arguments port {T}.
Arguments constants {T}.
Arguments constCats {T}.
Arguments preds {T}.
Arguments filters {T}.
Arguments localSignature {T}.
Arguments groundInputSignature {T}.

Section plans.
Context {T : Type} `{I : Indexed Belief belief_conflict (≡ₚ) T}.

Abbreviation plan := (ContextQueryPlan T).
Abbreviation plan_map := (gmap N plan).

(** [QueryPlanGrammarSemantics]: the maps that exist, the pointer to the
    result, and the plan that is being read. *)
Record semantics := mk_sem {
  maps : gmap positive plan_map;
  m_ParsedResult : option positive;
  m_CurrentQueryPlan : option plan;
}.

Definition sem_new : semantics := mk_sem ∅ None None.

(** ** Semantic actions *)

Definition set_current (mgr : semantics) (f : plan -> plan) : res (semantics * unit) :=
  currentQP ← not_null (m_CurrentQueryPlan mgr);
  mret (mk_sem (maps mgr) (m_ParsedResult mgr) (Some (f currentQP)), tt).

(** An [int] is converted to [std::size_t]. *)
Definition setContextID (mgr : semantics) (source : Z) : res (semantics * unit) :=
  let c := Z.to_N (source mod 2 ^ 64) in
  mret (mk_sem (maps mgr) (m_ParsedResult mgr) (Some (mk_plan c [] 0 None None None None None None)), tt).

Definition setHostName (mgr : semantics) (source : text) : res (semantics * unit) :=
  set_current mgr (fun q => mk_plan (ctx q) source (port q) (constants q) (constCats q) (preds q) (filters q)
                              (localSignature q) (groundInputSignature q)).

Definition setPort (mgr : semantics) (source : Z) : res (semantics * unit) :=
  set_current mgr (fun q => mk_plan (ctx q) (hostname q) source (constants q) (constCats q) (preds q) (filters q)
                              (localSignature q) (groundInputSignature q)).

Definition setConstantList (mgr : semantics) (source : ConstantList) : res (semantics * unit) :=
  set_current mgr (fun q => mk_plan (ctx q) (hostname q) (port q) (Some source) (constCats q) (preds q) (filters q)
                              (localSignature q) (groundInputSignature q)).

Definition getCurrentConstantList (mgr : semantics) (source : list text) : res (semantics * ConstantList) :=
  mret (mgr, source).

Definition setConstantCategories (mgr : semantics) (source : list (text * ConstantList)) : res (semantics * unit) :=
  set_current mgr (fun q =>
    let cats := default [] (constCats q) ++ ((fun s => mk_category s.1 (Some s.2)) <$> source) in
    mk_plan (ctx q) (hostname q) (port q) (constants q) (Some cats) (preds q) (filters q)
      (localSignature q) (groundInputSignature q)).

Definition setPredicates (mgr : semantics) (source : list (text * N)) : res (semantics * unit) :=
  set_current mgr (fun q =>
    let ps := fold_left (fun l s => alist_insert l s.1 s.2) source (default [] (preds q)) in
    mk_plan (ctx q) (hostname q) (port q) (constants q) (constCats q) (Some ps) (filters q)
      (localSignature q) (groundInputSignature q)).

Definition find_category (cats : list ConstantCategory) (name : text) : option ConstantCategory :=
  List.find (fun c => bool_decide (cat_name c = name)) cats.

(** The target stays null when there is no such category. *)
Definition seekConstantCategory (mgr : semantics) (source : text) : res (semantics * option ConstantList) :=
  currentQP ← not_null (m_CurrentQueryPlan mgr);
  _ ← assert (match constCats currentQP with Some _ => true | None => false end);
  mret (mgr, c ← find_category (default [] (constCats currentQP)) source; cat_constants c).

(** A single name may stand for a category. *)
Definition checkConstantCategory (mgr : semantics) (source : ConstantList) : res (semantics * option ConstantList) :=
  currentQP ← not_null (m_CurrentQueryPlan mgr);
  if 1 <? N.of_nat (length source) then mret (mgr, Some source)
  else
    _ ← assert (match constCats currentQP with Some _ => true | None => false end);
    name ← vec_at source 0;
    match find_category (default [] (constCats currentQP)) name with
    | Some c => mret (mgr, cat_constants c)
    | None => mret (mgr, Some source)
    end.

Definition setFilters (mgr : semantics) (source : list (text * text * list (N * option ConstantList)))
    : res (semantics * unit) :=
  set_current mgr (fun q =>
    let fs := (fun s => mk_filter s.1.1 s.1.2 (fold_left (fun l a => alist_insert l a.1 a.2) s.2 [])) <$> source in
    mk_plan (ctx q) (hostname q) (port q) (constants q) (constCats q) (preds q) (Some (default [] (filters q) ++ fs))
      (localSignature q) (groundInputSignature q)).

(** [p(t1,...,tn)] from [p, t1, ..., tn]: every further constant is followed by
    a comma, and the last comma becomes a closing parenthesis. *)
Definition predicate_text (tuples : list text) : res text :=
  match tuples with
  | [] => Err AssertFailed
  | p :: args =>
      mret (p ++ match args with
                 | [] => []
                 | _ => let t := str "(" ++ (args ≫= fun a => a ++ str ",") in
                        take (length t - 1) t ++ str ")"
                 end)
  end.

Definition registerAndInsertIntoBeliefSet (mgr : semantics) (source : list (N * list text))
    : res (semantics * BeliefTable T) :=
  target ← foldM (fun target input =>
      predicate ← predicate_text input.2;
      currentQP ← not_null (m_CurrentQueryPlan mgr);
      let bel := belief_new_at (ctx currentQP) input.1 (unstr predicate) in
      '(target, _) ← btab_storeWithID target bel (mk_ID (b_kind bel) (b_address bel));
      mret target) btab_new source;
  mret (mgr, target).

Definition setLocalSignature (mgr : semantics) (source : BeliefTable T) : res (semantics * unit) :=
  set_current mgr (fun q => mk_plan (ctx q) (hostname q) (port q) (constants q) (constCats q) (preds q) (filters q)
                              (Some source) (groundInputSignature q)).

Definition setInputSignature (mgr : semantics) (source : BeliefTable T) : res (semantics * unit) :=
  set_current mgr (fun q => mk_plan (ctx q) (hostname q) (port q) (constants q) (constCats q) (preds q) (filters q)
                              (localSignature q) (Some source)).

(** The map is created when there is none; an entry that exists is kept. *)
Definition insertIntoMap (mgr : semantics) (source : unit) : res (semantics * unit) :=
  currentQP ← not_null (m_CurrentQueryPlan mgr);
  let '(qpm, ms) := match m_ParsedResult mgr with
                    | Some l => (l, maps mgr)
                    | None => let l := fresh (dom (maps mgr)) in (l, <[l := ∅]> (maps mgr))
                    end in
  m ← not_null (ms !! qpm);
  mret (mk_sem (<[qpm := map_insert (ctx currentQP) currentQP m]> ms) (Some qpm) (m_CurrentQueryPlan mgr), tt).

(** ** The grammar *)

Section grammar.
Context `{Q : Qi}.
#[local] Open Scope qi_scope.
#[local] Abbreviation rule := (parser semantics).

Definition hostName : rule text :=
  lit [quote] *> lexeme (kleene (char_ (fun c => is_ascii c && negb (is_char quote c)))) <* lit [quote].

Definition ident : rule text :=
  lexeme (attr (fun p => p.1 :: p.2) (seq (char_ is_lower) (kleene (char_ (fun c => is_alnum c || is_char "_" c))))).

Definition constants_ : rule ConstantList :=
  lit (str "[") *> action (list_of ident (lit (str ","))) getCurrentConstantList <* lit (str "]").

Definition catSymbol : rule text := many (char_ is_alnum).
Definition predSymbol : rule text := many (char_ is_alnum).
Definition filterName : rule text := many (char_ is_alnum).

Definition category : rule (text * ConstantList) :=
  lit (str "{") *> lit (str "Category") *> lit (str ":") *>
  seq (catSymbol <* lit (str ",")) (lit (str "Constants") *> lit (str ":") *> constants_) <* lit (str "}").

Definition constantCategories : rule (list (text * ConstantList)) :=
  lit (str "[") *> list_of category (lit (str ",")) <* opt (lit (str ",")) <* lit (str "]").

Definition predicate : rule (text * N) :=
  lit (str "{") *> lit (str "Pred") *> lit (str ":") *>
  seq (predSymbol <* lit (str ",")) (lit (str "Arity") *> lit (str ":") *> uint_) <* lit (str "}").

Definition predicates : rule (list (text * N)) :=
  lit (str "[") *> list_of predicate (lit (str ",")) <* opt (lit (str ",")) <* lit (str "]").

Definition constantsForArguments : rule (option ConstantList) := action constants_ checkConstantCategory.

Definition useCategory : rule (option ConstantList) :=
  lit (str "[") *> action catSymbol seekConstantCategory <* lit (str "]").

Definition argument : rule (N * option ConstantList) :=
  lit (str "{") *> lit (str "Position") *> lit (str ":") *>
  seq (uint_ <* lit (str ",")) (lit (str "Using") *> lit (str ":") *> constantsForArguments) <* lit (str "}").

Definition arguments : rule (list (N * option ConstantList)) :=
  lit (str "[") *> list_of argument (lit (str ",")) <* opt (lit (str ",")) <* lit (str "]").

Definition filter_ : rule (text * text * list (N * option ConstantList)) :=
  lit (str "{") *>
  seq (seq (lit (str "Name") *> lit (str ":") *> filterName <* lit (str ","))
           (lit (str "Pred") *> lit (str ":") *> predSymbol <* lit (str ",")))
      (lit (str "Arguments") *> lit (str ":") *> arguments) <* lit (str "}").

Definition filters_ : rule (list (text * text * list (N * option ConstantList))) :=
  lit (str "[") *> list_of filter_ (lit (str ",")) <* opt (lit (str ",")) <* lit (str "]").

Definition id_with_ground_tuple : rule (N * list text) :=
  seq uint_ (lit (str ":") *> lit (str "[") *> list_of ident (lit (str ",")) <* lit (str "]")).

Definition signature : rule (BeliefTable T) :=
  lit (str "{") *> action (list_of id_with_ground_tuple (lit (str ","))) registerAndInsertIntoBeliefSet
  <* opt (lit (str ",")) <* lit (str "}").

Definition field {A B} (name : string) (p : rule A) (f : semantics -> A -> res (semantics * B)) : rule B :=
  lit (str name) *> lit (str ":") *> action p f <* lit (str ",").

Definition contextQueryPlan : rule unit :=
  action
    (lit (str "{") *>
     field "ContextId" int_ setContextID *>
     field "HostName" hostName setHostName *>
     field "Port" int_ setPort *>
     field "Constants" constants_ setConstantList *>
     opt (field "ConstantCategories" constantCategories setConstantCategories) *>
     opt (field "Predicates" predicates setPredicates) *>
     opt (field "Filters" filters_ setFilters) *>
     opt (field "LocalSignature" signature setLocalSignature) *>
     opt (field "InputSignature" signature setInputSignature) *>
     lit (str "}")) insertIntoMap.

Definition start : rule unit :=
  lit (str "[") *> list_of contextQueryPlan (lit (str ",")) *> opt (lit (str ",")) *> lit (str "]").

(** [QueryPlanParser_t] on a file: the result is the pointer. *)
Definition parse_query_plan (mgr : semantics) (f : option text) : res (semantics * option positive) :=
  parseFile start m_ParsedResult mgr f.

End grammar.
End plans.

(** ** Reading an entry

    The text of an entry in the format of the grammar: the constants that are
    known and one of the two signatures. *)

Record entry := mk_entry {
  e_ctx : N;
  e_host : text;
  e_port : N;
  e_constants : ConstantList;
  e_local : bool;
  e_beliefs : list (N * list text);
}.

Definition names_text (names : list text) : text :=
  match names with [] => [] | n :: names => n ++ (names ≫= fun n => str ", " ++ n) end.

Definition header_text (c : N) (host : text) (p : N) : text :=
  line "  {" ++ str "    ContextId: " ++ dec c ++ line "," ++
  str "    HostName: " ++ [quote] ++ host ++ [quote] ++ line "," ++ str "    Port: " ++ dec p ++ line ",".

Definition belief_text (b : N * list text) : text := str "        " ++ dec b.1 ++ str ": [" ++ names_text b.2 ++ str "]".

Definition signature_text (beliefs : list (N * list text)) : text :=
  str "      {" ++ (beliefs ≫= fun b => [nl] ++ belief_text b ++ str ",") ++ [nl] ++ str "      }".

Definition kind_text (is_local : bool) : text := if is_local then str "LocalSignature" else str "InputSignature".

Definition entry_text (e : entry) : text :=
  header_text (e_ctx e) (e_host e) (e_port e) ++
  str "    Constants: [" ++ names_text (e_constants e) ++ line "]," ++
  str "    " ++ kind_text (e_local e) ++ line ":" ++ signature_text (e_beliefs e) ++ line "," ++ str "  }".

(** Names that [ident] reads as they are. *)
Definition name_ok (n : text) : Prop :=
  match n with c :: n => is_lower c = true /\ Forall (fun c => is_alnum c || is_char "_" c = true) n | [] => False end.

Definition host_ok (h : text) : Prop :=
  h <> [] /\ Forall (fun c => is_ascii c && negb (is_char quote c) = true) h /\
  match h with c :: _ => is_blank c = false /\ is_char "#" c = false | [] => True end.

Section reading.
Context {T : Type} `{I : Indexed Belief belief_conflict (≡ₚ) T} `{Q : Qi} `{L : !QiLaws}.

Lemma is_lower_token c : is_lower c = true -> is_blank c = false /\ is_char "#" c = false.
Proof.
  intros H. apply is_alnum_cases. unfold is_alnum. rewrite H. by rewrite orb_true_r.
Qed.

Definition ident_stop (c : ascii) : bool := is_alnum c || is_char "_" c.

Lemma read_ident (s : semantics (T := T)) n i rest :
  name_ok n -> skip i = n ++ rest -> stops ident_stop rest -> parse ident sk s i = Ok (s, Some (n, rest)).
Proof.
  destruct n as [|c n]; [done|]. intros [Hc Hn] Hi Hr. unfold ident. rewrite parse_lexeme. cbn [pre sk]. rewrite Hi.
  rewrite parse_attr, parse_seq, parse_char. cbn [pre app]. rewrite Hc. cbn [obind].
  by rewrite read_chars by done.
Qed.

Lemma skip_name n rest : name_ok n -> skip (n ++ rest) = n ++ rest.
Proof. destruct n as [|c n]; [done|]. intros [Hc _]. destruct (is_lower_token c Hc). by apply skip_token. Qed.

Lemma read_names n ns (s : semantics (T := T)) i :
  Forall name_ok (n :: ns) ->
  parse (list_of ident (lit (str ","))) sk s (names_text (n :: ns) ++ "]"%char :: i) =
    Ok (s, Some (n :: ns, "]"%char :: i)).
Proof.
  intros Hf. rewrite Forall_forall in Hf. unfold names_text.
  replace (ns ≫= fun d => str ", " ++ d) with (ns ≫= fun d => str "," ++ (str " " ++ d)) by done.
  rewrite <- app_assoc.
  rewrite (read_list ident (lit (str ",")) (str ",") (fun d => d) (fun d => str " " ++ d) id (fun s _ => Ok s) (stops ident_stop))
    with (s' := s); try done.
  - by rewrite list_fmap_id.
  - intros s0. by lits.
  - intros y s0 i0 _. exists tt. by lits.
  - intros s0 s1 i0 Hi [= <-]. unfold id. apply read_ident; [apply Hf; left| |done]. apply skip_name, Hf. left.
  - intros y s0 s1 i0 Hy Hi [= <-]. unfold id. apply read_ident; [apply Hf; by right| |done].
    rewrite <- app_assoc. texts. skips. apply skip_name, Hf. by right.
  - cbn. clear. induction ns; cbn; done.
Qed.

Lemma read_host (s : semantics (T := T)) h i :
  host_ok h -> parse hostName sk s (" "%char :: quote :: h ++ quote :: i) = Ok (s, Some (h, i)).
Proof.
  intros (Hne & Hh & Hc). unfold hostName. change quote with ("034"%char) at 1 2 3 4. lits.
  rewrite parse_lexeme. cbn [pre sk]. destruct h as [|c h]; [done|]. destruct Hc.
  cbn [app]. rewrite skip_token by done. change (c :: h ++ ?x) with ((c :: h) ++ x).
  rewrite read_chars; [|done|done]. by lits.
Qed.

Lemma read_belief (s : semantics (T := T)) b i :
  b.1 < 2 ^ 32 -> b.2 <> [] -> Forall name_ok b.2 ->
  parse id_with_ground_tuple sk s ([nl] ++ belief_text b ++ i) = Ok (s, Some (b, i)).
Proof.
  destruct b as [a [|n ns]]; intros Ha Hne Hn; [done|]. cbn [fst snd] in *. unfold belief_text. cbn [fst snd].
  rewrite <- !app_assoc. unfold id_with_ground_tuple. lits.
  erewrite read_uint; [|done|skips; apply skip_dec; lia|done]. lits. rewrite read_names by done. by lits.
Qed.

(** The beliefs of a signature as the table holds them. *)
Definition signature_beliefs (c : N) (beliefs : list (N * list text)) (tab : BeliefTable T) : Prop :=
  exists ps, Forall2 (fun b p => predicate_text b.2 = Ok p) beliefs ps /\
    idx_elements (container tab) ≡ₚ zip_with (fun b p => belief_new_at c b.1 (unstr p)) beliefs ps.

Definition register (mgr : semantics (T := T)) (beliefs : list (N * list text)) : res (BeliefTable T) :=
  snd <$> registerAndInsertIntoBeliefSet mgr beliefs.

Lemma read_signature mgr beliefs tab i :
  register mgr beliefs = Ok tab -> beliefs <> [] ->
  Forall (fun b => b.1 < 2 ^ 32 /\ b.2 <> [] /\ Forall name_ok b.2) beliefs ->
  parse signature sk mgr (nl :: signature_text beliefs ++ i) = Ok (mgr, Some (tab, i)).
Proof.
  intros Hreg Hne Hb. rewrite Forall_forall in Hb. unfold signature, signature_text. rewrite <- !app_assoc. lits.
  rewrite parse_action.
  assert (Hl : forall i, parse (list_of id_with_ground_tuple (lit (str ","))) sk mgr
      ((beliefs ≫= fun b => ([nl] ++ belief_text b) ++ str ",") ++ [nl] ++ str "      }" ++ i) =
    Ok (mgr, Some (id <$> beliefs, str "," ++ [nl] ++ str "      }" ++ i))).
  { intros i0. apply (read_terminated _ (fun b => [nl] ++ belief_text b) id (fun s _ => Ok s)); [done| | |].
    - intros s. unfold id_with_ground_tuple. lits. rewrite parse_uint. texts. skips. done.
    - intros b s s' i1 Hin [= <-]. destruct (Hb b Hin) as (? & ? & ?). rewrite <- app_assoc. by apply read_belief.
    - clear. induction beliefs; cbn; done. }
  texts_in Hl. rewrite Hl, list_fmap_id. cbn [obind]. unfold register, registerAndInsertIntoBeliefSet in *.
  destruct (foldM _ _ _) as [tab'|]; [|done]. cbn in Hreg. injection Hreg as ->. rsimpl. by lits.
Qed.

Lemma read_field {A B} name (p : parser (semantics (T := T)) A) (f : semantics -> A -> res (semantics * B)) s s' a b t i i' :
  parse (lit (str name)) sk s t = Ok (s, Some (tt, ":"%char :: i)) ->
  parse p sk s i = Ok (s, Some (a, ","%char :: i')) -> f s a = Ok (s', b) ->
  parse (field name p f) sk s t = Ok (s', Some (b, i')).
Proof.
  intros Ht Hp Hf. unfold field. rewrite parse_seq_r, Ht. lits. rewrite parse_action, Hp. cbn [obind]. rewrite Hf. rsimpl.
  by lits.
Qed.

Lemma no_field {A B} name (p : parser (semantics (T := T)) A) (f : semantics -> A -> res (semantics * B)) s t :
  parse (lit (str name)) sk s t = Ok (s, None) -> parse (opt (field name p f)) sk s t = Ok (s, Some (None, t)).
Proof. intros Ht. unfold field. by rewrite parse_opt, parse_seq_r, Ht. Qed.

Lemma set_current_ok ms r (q : ContextQueryPlan T) f :
  set_current (mk_sem ms r (Some q)) f = Ok (mk_sem ms r (Some (f q)), tt).
Proof. done. Qed.

(** The state after the fields that every entry of the generator has. *)
Definition with_header (mgr : semantics (T := T)) (c : N) (host : text) (p : N) : semantics :=
  mk_sem (maps mgr) (m_ParsedResult mgr) (Some (mk_plan c host (Z.of_N p) None None None None None None)).

Lemma read_entry_header {A} (k : parser semantics A) mgr c host p i :
  c < 2 ^ 31 -> p < 2 ^ 31 -> host_ok host ->
  parse (seq_r (lit (str "{")) (seq_r (field "ContextId" int_ setContextID) (seq_r (field "HostName" hostName setHostName)
    (seq_r (field "Port" int_ setPort) k)))) sk mgr ([nl] ++ header_text c host p ++ i) =
  parse k sk (with_header mgr c host p) (nl :: i).
Proof.
  intros Hc Hp Hh. unfold header_text, line. rewrite <- !app_assoc. lits. unfold field. lits.
  rewrite parse_action. erewrite (read_int _ c); [|done|skips; apply skip_dec; lia|done]. cbn [obind].
  unfold setContextID. rsimpl. rewrite Z.mod_small, N2Z.id by lia. lits. unfold field. lits.
  rewrite parse_action, read_host by done. cbn [obind]. unfold setHostName. rewrite set_current_ok. rsimpl. lits. unfold field. lits.
  rewrite parse_action. erewrite (read_int _ p); [|done|skips; apply skip_dec; lia|done]. cbn [obind].
  unfold setPort. rewrite set_current_ok. rsimpl. by lits.
Qed.

(** Without its constants an entry is not accepted. *)
Lemma entry_without_constants mgr c host p is_local i :
  c < 2 ^ 31 -> p < 2 ^ 31 -> host_ok host ->
  parse contextQueryPlan sk mgr ([nl] ++ header_text c host p ++ str "    " ++ kind_text is_local ++ i) =
    Ok (with_header mgr c host p, None).
Proof.
  intros Hc Hp Hh. unfold contextQueryPlan. rewrite parse_action, read_entry_header by done. unfold field.
  destruct is_local; unfold kind_text; by lits.
Qed.

Definition plan_of_entry (e : entry) (tab : BeliefTable T) : ContextQueryPlan T :=
  mk_plan (e_ctx e) (e_host e) (Z.of_N (e_port e)) (Some (e_constants e)) None None None
    (if e_local e then Some tab else None) (if e_local e then None else Some tab).

Definition entry_ok (e : entry) : Prop :=
  e_ctx e < 2 ^ 31 /\ e_port e < 2 ^ 31 /\ host_ok (e_host e) /\
  e_constants e <> [] /\ Forall name_ok (e_constants e) /\
  e_beliefs e <> [] /\ Forall (fun b => b.1 < 2 ^ 32 /\ b.2 <> [] /\ Forall name_ok b.2) (e_beliefs e).

(** What an entry does to the state. *)
Definition run_entry (mgr : semantics (T := T)) (e : entry) : res semantics :=
  let mgr := mk_sem (maps mgr) (m_ParsedResult mgr)
    (Some (mk_plan (e_ctx e) (e_host e) (Z.of_N (e_port e)) (Some (e_constants e)) None None None None None)) in
  tab ← register mgr (e_beliefs e);
  fst <$> insertIntoMap (mk_sem (maps mgr) (m_ParsedResult mgr) (Some (plan_of_entry e tab))) tt.

Lemma read_entry mgr mgr' e i :
  run_entry mgr e = Ok mgr' -> entry_ok e ->
  parse contextQueryPlan sk mgr ([nl] ++ entry_text e ++ i) = Ok (mgr', Some (tt, i)).
Proof.
  intros Hrun (Hc & Hp & Hh & Hcn & Hcs & Hbn & Hbs). unfold run_entry in Hrun. apply bind_ok in Hrun as (tab & Htab & Hrun).
  unfold entry_text. rewrite <- !app_assoc. unfold contextQueryPlan. rewrite parse_action, read_entry_header by done.
  unfold line. rewrite <- !app_assoc. destruct (e_constants e) as [|n ns] eqn:En; [done|].
  rewrite parse_seq_r. erewrite read_field.
  2: { by lits. }
  2: { unfold constants_. lits. rewrite parse_action, read_names by done. cbn [obind]. unfold getCurrentConstantList. rsimpl. by lits. }
  2: { unfold setConstantList. apply set_current_ok. }
  cbn [obind].
  destruct (e_local e) eqn:El; unfold kind_text;
    do 3 (rewrite parse_seq_r, no_field by (by lits); cbn [obind]).
  - rewrite parse_seq_r, parse_opt. erewrite read_field.
    2: { by lits. }
    2: { apply (read_signature _ _ tab); done. }
    2: { unfold setLocalSignature. apply set_current_ok. }
    cbn [obind]. rewrite parse_seq_r, no_field by (by lits). lits.
    unfold plan_of_entry in Hrun. rewrite En, El in Hrun. destruct (insertIntoMap _ ()) as [[m []]|]; [|done].
    injection Hrun as ->. done.
  - rewrite parse_seq_r, no_field by (by lits). cbn [obind]. rewrite parse_seq_r, parse_opt. erewrite read_field.
    2: { by lits. }
    2: { apply (read_signature _ _ tab); done. }
    2: { unfold setInputSignature. apply set_current_ok. }
    cbn [obind]. lits.
    unfold plan_of_entry in Hrun. rewrite En, El in Hrun. destruct (insertIntoMap _ ()) as [[m []]|]; [|done].
    injection Hrun as ->. done.
Qed.

End reading.

(** ** The maps that are read *)

Section results.
Context {T : Type} `{IL : IndexedLaws Belief belief_conflict (≡ₚ) T} `{Q : Qi} `{L : !QiLaws}.

(** The text of a belief, for the names it is made of. *)
Definition atom_of (names : list text) : text := match predicate_text names with Ok p => p | Err _ => [] end.

(** No address and no text occurs twice. *)
Definition distinct (beliefs : list (N * list text)) : Prop :=
  NoDup (fst <$> beliefs) /\ NoDup ((fun b => unstr (atom_of b.2)) <$> beliefs).

Definition beliefs_of (c : N) (beliefs : list (N * list text)) : list Belief :=
  (fun b => belief_new_at c b.1 (unstr (atom_of b.2))) <$> beliefs.

Lemma predicate_text_ok names : names <> [] -> Forall name_ok names ->
  predicate_text names = Ok (atom_of names) /\ unstr (atom_of names) <> ""%string.
Proof.
  destruct names as [|n ns]; intros Hne Hf; [done|]. split; [done|]. apply Forall_cons in Hf as [Hn _].
  unfold atom_of. cbn. by destruct n.
Qed.

Lemma belief_at_kind c a t : isBelief (mk_ID (b_kind (belief_new_at c a t)) a) = true.
Proof.
  unfold isBelief, kind_is, belief_new_at. cbn [kind b_kind]. apply N.eqb_eq.
  rewrite N.land_lor_distr_l, <- N.land_ones, <- N.land_assoc.
  change (N.land (N.ones 16) MAINKIND_MASK) with 0. by rewrite N.land_0_r.
Qed.

Lemma register_ok (mgr : semantics (T := T)) q beliefs :
  m_CurrentQueryPlan mgr = Some q -> distinct beliefs -> Forall (fun b => b.2 <> [] /\ Forall name_ok b.2) beliefs ->
  exists tab, register mgr beliefs = Ok tab /\
    idx_elements (container tab) ≡ₚ beliefs_of (ctx q) beliefs /\ nextAddress tab = 0.
Proof.
  intros Hq [Ha Ht] Hf. unfold register, registerAndInsertIntoBeliefSet.
  match goal with |- context [foldM ?f _ beliefs] => set (step := f) end.
  enough (H : exists tab, foldM step btab_new beliefs = Ok tab /\
    idx_elements (container tab) ≡ₚ beliefs_of (ctx q) beliefs /\ nextAddress tab = 0).
  { destruct H as (tab & -> & Htab). by exists tab. }
  induction beliefs as [|[a ns] beliefs IH] using rev_ind.
  { exists btab_new. cbn. by rewrite idx_empty_elements. }
  rewrite fmap_app in Ha. rewrite fmap_app in Ht. apply NoDup_app in Ha as (Ha & Ha' & _). apply NoDup_app in Ht as (Ht & Ht' & _).
  apply Forall_app in Hf as [Hf [[Hn1 Hn2] _]%Forall_cons]. cbn [fst snd] in *.
  destruct IH as (tab & E & Hel & H0); [done..|]. rewrite foldM_app, E. rsimpl.
  destruct (predicate_text_ok ns Hn1 Hn2) as [Hp Hpe]. cbn [foldM]. unfold step at 1. cbn [fst snd]. rewrite Hp. rsimpl.
  rewrite Hq. change (not_null (Some q)) with (Ok q). rsimpl.
  unfold btab_storeWithID. rewrite belief_at_kind. change (assert true) with (Ok tt). rsimpl.
  cbn [b_text b_kind b_address belief_new_at kind address]. rewrite bool_decide_false by done. cbn [negb].
  change (assert true) with (Ok tt). rsimpl. rewrite H0. change (assert (0 =? 0)) with (Ok tt). rsimpl.
  set (nb := mk_belief a (N.lor MAINKIND_BELIEF (ctx q mod 2 ^ 16)) (unstr (atom_of ns))).
  destruct (idx_insert_fresh nb (container tab)) as (c & -> & Hc).
  { intros y Hy. rewrite Hel in Hy. unfold beliefs_of in Hy.
    apply list_elem_of_fmap in Hy as (b & -> & Hb). unfold belief_conflict. cbn [b_address b_text belief_new_at nb].
    apply orb_false_iff. split.
    - apply N.eqb_neq. intros ->. apply (Ha' b.1); [apply list_elem_of_fmap; by exists b|left].
    - apply bool_decide_eq_false. intros Heq. apply (Ht' (unstr (atom_of ns))); [|left].
      rewrite Heq. apply list_elem_of_fmap. by exists b. }
  change (assert true) with (Ok tt). rsimpl. eexists. split; [done|]. cbn [container nextAddress]. split; [|done].
  rewrite Hc, Hel. unfold beliefs_of. by rewrite fmap_app.
Qed.

(** The result of a parser: the map its pointer leads to. *)
Definition result (mgr : semantics (T := T)) : gmap N (ContextQueryPlan T) :=
  default ∅ (l ← m_ParsedResult mgr; maps mgr !! l).

(** The pointer is null or leads to a map. *)
Definition sem_ok (mgr : semantics (T := T)) : Prop :=
  match m_ParsedResult mgr with Some l => is_Some (maps mgr !! l) | None => True end.

Lemma insertIntoMap_ok mgr q :
  sem_ok mgr -> exists l, insertIntoMap (mk_sem (maps mgr) (m_ParsedResult mgr) (Some q)) tt =
      Ok (mk_sem (<[l := map_insert (ctx q) q (result mgr)]> (maps mgr)) (Some l) (Some q), tt) /\
    (forall l', m_ParsedResult mgr = Some l' -> l = l').
Proof.
  intros Hok. unfold insertIntoMap, sem_ok, result in *. cbn [m_CurrentQueryPlan m_ParsedResult maps].
  change (not_null (Some q)) with (Ok q). rsimpl. destruct (m_ParsedResult mgr) as [l|]; cbn in *.
  - destruct Hok as [m Hm]. rewrite Hm. change (not_null (Some m)) with (Ok m). rsimpl. exists l. split; [done|]. by intros l' [= ->].
  - set (l := fresh (dom (maps mgr))). rewrite lookup_insert_eq. change (not_null (Some ?m)) with (Ok m). rsimpl.
    exists l. by rewrite insert_insert_eq.
Qed.

(** The first entry for a context counts, unless the map has one already. *)
Definition merged (entries : list entry) (m m' : gmap N (ContextQueryPlan T)) : Prop :=
  forall c, match m !! c with
    | Some q => m' !! c = Some q
    | None =>
        match List.find (fun e => e_ctx e =? c) entries with
        | Some e => exists tab, m' !! c = Some (plan_of_entry e tab) /\
                      idx_elements (container tab) ≡ₚ beliefs_of c (e_beliefs e) /\ nextAddress tab = 0
        | None => m' !! c = None
        end
    end.

Lemma run_entries_ok entries : forall mgr,
  sem_ok mgr -> Forall (fun e => entry_ok e /\ distinct (e_beliefs e)) entries ->
  exists mgr', foldM run_entry mgr entries = Ok mgr' /\ sem_ok mgr' /\ merged entries (result mgr) (result mgr') /\
    (entries <> [] -> is_Some (m_ParsedResult mgr')) /\
    (forall l, m_ParsedResult mgr = Some l -> m_ParsedResult mgr' = Some l).
Proof.
  induction entries as [|e entries IH]; intros mgr Hok Hf.
  { exists mgr. split_and!; try done. intros c. by destruct (result mgr !! c). }
  apply Forall_cons in Hf as [[He Hd] Hf]. cbn [foldM]. unfold run_entry at 2. cbn [maps m_ParsedResult].
  pose proof He as (_ & _ & _ & _ & _ & _ & Hb).
  match goal with |- context [register ?m _] => set (mgr0 := m) end.
  destruct (register_ok mgr0 _ (e_beliefs e) eq_refl Hd) as (tab & -> & Htab & H0).
  { eapply Forall_impl; [exact Hb|]. intros b (_ & ? & ?). done. }
  rsimpl. destruct (insertIntoMap_ok mgr (plan_of_entry e tab) Hok) as (l & -> & Hl). rsimpl. cbn [fmap res_fmap].
  match goal with |- context [foldM _ ?m entries] => set (mgr1 := m) end.
  assert (Hr : result mgr1 = map_insert (e_ctx e) (plan_of_entry e tab) (result mgr)).
  { unfold result at 1, mgr1. cbn. by rewrite lookup_insert_eq. }
  destruct (IH mgr1) as (mgr' & -> & Hok' & Hm & _ & Hk); [|done|].
  { unfold sem_ok, mgr1. cbn. by rewrite lookup_insert_eq. }
  exists mgr'. split_and!; [done|done| | |].
  - intros c. specialize (Hm c). rewrite Hr in Hm. unfold map_insert in Hm. cbn [List.find].
    destruct (N.eqb_spec (e_ctx e) c) as [<-|Hne].
    + destruct (result mgr !! e_ctx e) as [q|] eqn:Eq; [by rewrite Eq in Hm|].
      rewrite lookup_insert_eq in Hm. by exists tab.
    + destruct (result mgr !! e_ctx e); [done|]. by rewrite lookup_insert_ne in Hm.
  - intros _. exists l. by apply Hk.
  - intros l' Hl'. rewrite <- (Hl l' Hl'). by apply Hk.
Qed.

(** A file with these entries, one way to lay it out. *)
Definition plan_file (entries : list entry) : text :=
  str "[" ++ (entries ≫= fun e => [nl] ++ entry_text e ++ str ",") ++ [nl] ++ line "]".

Lemma read_query_plan_none (s : semantics (T := T)) i : parse contextQueryPlan sk s ([nl] ++ line "]" ++ i) = Ok (s, None).
Proof. unfold contextQueryPlan, line. rewrite parse_action. by lits. Qed.

Lemma read_plan_file mgr entries mgr' :
  entries <> [] -> Forall entry_ok entries -> foldM run_entry mgr entries = Ok mgr' ->
  parse_query_plan mgr (Some (plan_file entries)) = Ok (mgr', m_ParsedResult mgr').
Proof.
  intros Hne Hr Hrun. rewrite Forall_forall in Hr. unfold parse_query_plan, parseFile.
  apply (parseStream_ok _ _ _ _ tt _ [nl; nl]); [|by rewrite !skip_blank, skip_nil by done].
  unfold start, plan_file. rewrite <- !app_assoc.
  assert (Hl : forall i, parse (list_of contextQueryPlan (lit (str ","))) sk mgr
      ((entries ≫= fun b => ([nl] ++ entry_text b) ++ str ",") ++ [nl] ++ line "]" ++ i) =
    Ok (mgr', Some ((fun _ => tt) <$> entries, str "," ++ [nl] ++ line "]" ++ i))).
  { intros i0. apply (read_terminated _ (fun b => [nl] ++ entry_text b) (fun _ => tt) run_entry); [done| | |done].
    - intros s. apply read_query_plan_none.
    - intros b s s' i1 Hin Hb. rewrite <- app_assoc. apply read_entry; auto. }
  texts_in Hl. lits. rewrite Hl. unfold line. by lits.
Qed.

(** A file with entries in the layout of [plan_file] (without categories,
    predicates and filters), read by a parser that may have read other files
    before, leaves in the parser's map, under the
    context of each entry, its host, port, constants and signature with exactly
    the listed beliefs; entries that the map had before are kept, and so is
    the pointer to it. *)
Theorem query_plan_read mgr entries :
  sem_ok mgr -> entries <> [] -> Forall (fun e => entry_ok e /\ distinct (e_beliefs e)) entries ->
  exists mgr' l, parse_query_plan mgr (Some (plan_file entries)) = Ok (mgr', Some l) /\ sem_ok mgr' /\
    m_ParsedResult mgr' = Some l /\ (forall l', m_ParsedResult mgr = Some l' -> l = l') /\
    merged entries (result mgr) (result mgr').
Proof.
  intros Hok Hne Hf. destruct (run_entries_ok entries mgr Hok Hf) as (mgr' & E & Hok' & Hm & Hs & Hk).
  destruct (Hs Hne) as [l Hl]. exists mgr', l. rewrite <- Hl. split_and!; [|done|done| |done].
  - apply read_plan_file; [done| |done]. eapply Forall_impl; [exact Hf|]. by intros e [? _].
  - intros l' Hl'. apply Hk in Hl'. congruence.
Qed.

End results.

Definition sample_entries : list entry :=
  [mk_entry 0 (str "localhost") 5000 [str "c1"; str "c4"] true [(1, [str "a"; str "c1"; str "c4"]); (2, [str "b"])];
   mk_entry 1 (str "localhost") 5001 [str "c1"] false [(1, [str "d"; str "c1"])]].

Lemma query_plan_read_witness :
  exists mgr' l, parse_query_plan (T := list Belief) (Q := qi_functions) sem_new (Some (plan_file sample_entries)) = Ok (mgr', Some l) /\
    sem_ok mgr' /\ m_ParsedResult mgr' = Some l /\ (forall l', None = Some l' -> l = l') /\
    merged sample_entries ∅ (result mgr').
Proof.
  apply (query_plan_read (T := list Belief) (Q := qi_functions) sem_new sample_entries); [done|done|].
  repeat apply Forall_cons_2; [| |constructor].
  all: split; [split_and!; [reflexivity|reflexivity| |done| |done|]|].
  all: try (split_and!; [done|repeat constructor|done|done]).
  all: try (repeat constructor).
  all: try (by apply (bool_decide_unpack _); vm_compute).
Defined.

(** A whole plan with categories, predicates and filters: the name of a
    category stands for its constants. *)
Definition full_plan : string :=
  "[ { ContextId: 3, HostName: 'localhost', Port: 5003, Constants: [c1, c2, c4], # local constants
       ConstantCategories: [ {Category: cat1, Constants: [c1, c2]}, {Category: cat2, Constants: [c4]} ],
       Predicates: [ {Pred: a, Arity: 2} ],
       Filters: [ {Name: fa, Pred: a, Arguments: [ {Position: 1, Using: [cat1]}, {Position: 2, Using: [c4]} ]} ],
       LocalSignature: { 1: [a, c1, c4], 2: [a, c2, c4] }, } ]".

(** Quotes are written as apostrophes. *)
Definition quoted (s : string) : text := (fun c => if is_char "'" c then quote else c) <$> str s.

Lemma full_plan_read :
  exists mgr l m q tab,
    parse_query_plan (T := list Belief) (Q := qi_functions) sem_new (Some (quoted full_plan)) = Ok (mgr, Some l) /\
    maps mgr !! l = Some m /\ m !! 3 = Some q /\
    constants q = Some [str "c1"; str "c2"; str "c4"] /\ preds q = Some [(str "a", 2)] /\
    filters q = Some [mk_filter (str "fa") (str "a") [(1, Some [str "c1"; str "c2"]); (2, Some [str "c4"])]] /\
    localSignature q = Some tab /\ groundInputSignature q = None /\
    container tab = [belief_new_at 3 1 "a(c1,c4)"; belief_new_at 3 2 "a(c2,c4)"].
Proof. vm_compute. do 5 eexists. split_and!; reflexivity. Qed.

(** An argument that uses a single constant needs the categories: without
    them an assertion fails. *)
Lemma single_constant_without_categories :
  parse_query_plan (T := list Belief) (Q := qi_functions) sem_new (Some (quoted
    "[ { ContextId: 3, HostName: 'localhost', Port: 5003, Constants: [c1],
         Filters: [ {Name: fa, Pred: a, Arguments: [ {Position: 1, Using: [c1]} ]} ], } ]")) = Err AssertFailed.
Proof. vm_compute. reflexivity. Qed.

End QueryPlans.
