(* ===== verification/PlanFiles.v ===== *)
(** * The files of a generated system

    What src/generator/new_staticGen.cpp and ContextGeneratorBase.cpp write for
    the servers: the signatures ([genBeliefTables], src/generator/new_dmcsGen.cpp),
    query plans and return plans ([write_plans]), knowledge bases and bridge
    rules ([NewLogicVisitor], src/generator/NewLogicVisitor.cpp).

    [boost::tokenizer], by which [BeliefTable::gen_print] takes a belief apart,
    is the class [Tokenizer]: a text without separators is its only token. *)

From stdpp Require Import sorting.
From S2P Require Import Prelude BitMagic BeliefState BeliefStateOffset Ident Tables Spirit.
From S2P Require Import Parsing ReturnPlans Topologies OptTopologies GenContexts.
Import BitMagic BeliefState BeliefStateOffset Ident Tables Spirit Parsing ReturnPlans Topologies OptTopologies GenContexts.

Module PlanFiles.

Class Tokenizer := { tokens : (ascii -> bool) -> text -> list text }.

Class TokenizerLaws `{K : Tokenizer} : Prop := {
  tokens_single sep t : t <> [] -> Forall (fun c => sep c = false) t -> tokens sep t = [t];
}.

(** Split at separators, without empty tokens. *)
Fixpoint split_tokens (sep : ascii -> bool) (cur : text) (t : text) : list text :=
  match t with
  | [] => match cur with [] => [] | _ => [cur] end
  | c :: t =>
      if sep c then match cur with [] => split_tokens sep [] t | _ => cur :: split_tokens sep [] t end
      else split_tokens sep (cur ++ [c]) t
  end.

#[export] Instance split_tokenizer : Tokenizer := { tokens sep t := split_tokens sep [] t }.

#[export] Instance split_tokenizer_laws : TokenizerLaws.
Proof.
  split. cbn. intros sep t Hne Hf.
  enough (forall cur, cur ++ t <> [] -> split_tokens sep cur t = [cur ++ t]) as H by (by apply (H [])).
  clear Hne. induction Hf as [|c t Hc _ IH]; intros cur Hcur; cbn.
  - rewrite app_nil_r in *. by destruct cur.
  - rewrite Hc, IH, <- app_assoc; [done|]. by destruct cur.
Qed.

(** The separators [",()"]. *)
Definition is_sep (c : ascii) : bool := is_char "," c || is_char "(" c || is_char ")" c.

Definition BASE_PORT : N := 5000.

(** The order of the keys of a [std::map<ContextPair, ...>]. *)
Definition pair_le (p q : N * N) : bool := (p.1 <? q.1) || ((p.1 =? q.1) && (p.2 <=? q.2)).

Definition entry_le {A} (x y : N * N * A) : Prop := pair_le x.1 y.1 = true.

#[export] Instance entry_le_dec {A} : RelDecision (@entry_le A).
Proof. intros x y. unfold entry_le. apply _. Defined.

Definition map_entries {A} (m : gmap (N * N) A) : list (N * N * A) := merge_sort entry_le (map_to_list m).

Section files.
Context {T : Type} `{I : Indexed Belief belief_conflict (≡ₚ) T} `{K : Tokenizer}.

(** ** Signatures *)

Definition atom_text (i j : N) : text := str "c" ++ dec i ++ str "a" ++ dec j.

Definition gen_belief_table (i no_atoms : N) : res (BeliefTable T) :=
  '(btab, _) ← btab_storeAndGetID btab_new (belief_new i "epsilon");
  foldM (fun btab j =>
    '(btab, _) ← btab_storeAndGetID btab (belief_new i (unstr (atom_text i (u64_add j 1)))); mret btab)
    btab (nrange 0 no_atoms).

Definition genBeliefTables (no_contexts no_atoms : N) : res (list (BeliefTable T)) :=
  foldM (fun sigma_vec i => btab ← gen_belief_table i no_atoms; mret (sigma_vec ++ [btab])) [] (nrange 0 no_contexts).

(** [BeliefTable::gen_print]; reading the first token of an empty text is an
    error. *)
Definition print_belief (b : Belief) : res text :=
  if b_address b =? 0 then mret []
  else
    match tokens is_sep (str (b_text b)) with
    | [] => Err AssertFailed
    | t :: ts => mret (str "        " ++ dec (b_address b) ++ str ": [" ++ t ++ (ts ≫= fun t => str ", " ++ t) ++ line "],")
    end.

Definition gen_print (btab : BeliefTable T) : res text :=
  beliefs ← foldM (fun t b => s ← print_belief b; mret (t ++ s)) [] (btab_getAllByAddress btab);
  mret (line "      {" ++ beliefs ++ line "      },").

(** ** Query plans *)

Definition write_belief_table_to_file (btab : BeliefTable T) (signature_kind : string) (ctx_id : N) : res text :=
  let port := u64_add BASE_PORT ctx_id in
  table ← gen_print btab;
  mret (line "  {" ++ str "    ContextId: " ++ dec ctx_id ++ line "," ++
        str "    HostName: " ++ [quote] ++ str "localhost" ++ [quote] ++ line "," ++
        str "    Port: " ++ dec port ++ line "," ++
        str "    " ++ str signature_kind ++ line ":" ++ table ++ line "  },").

(** The loop over the true positions of a block. *)
Fixpoint collect_beliefs (fuel : nat) (local_sig : BeliefTable T) (bs : NewBeliefState)
    (ctx_id offset last_bit check_bit : N) (insig : BeliefTable T) : res (BeliefTable T) :=
  match fuel with
  | O => Err OutOfFuel
  | S fuel =>
      check_bit ← getNext bs check_bit;
      if (last_bit <? check_bit) || (check_bit =? 0) then mret insig
      else
        let id := mk_ID (N.lor ctx_id MAINKIND_BELIEF) (u64_sub check_bit offset mod 2 ^ 32) in
        b ← btab_getByID local_sig id;
        '(insig, _) ← btab_storeWithID insig b id;
        collect_beliefs fuel local_sig bs ctx_id offset last_bit check_bit insig
  end.

Definition input_signature_from_belief_state (o : Offsets) (sigma_vec : list (BeliefTable T)) (no_contexts ctx_id : N)
    (bs : NewBeliefState) : res (BeliefTable T) :=
  local_sig ← vec_at sigma_vec ctx_id;
  offset ← vec_at (starting_offsets o) ctx_id;
  last_bit ← (if ctx_id =? u64_sub no_contexts 1 then bs_size bs
              else next ← vec_at (starting_offsets o) (ctx_id + 1); mret (u64_sub next 1));
  collect_beliefs (S (scan_fuel bs)) local_sig bs ctx_id offset last_bit offset btab_new.

Definition write_query_plan (o : Offsets) (sigma_vec : list (BeliefTable T)) (no_contexts ctx_id : N)
    (interface : gmap (N * N) NewBeliefState) : res text :=
  own ← vec_at sigma_vec ctx_id;
  local ← write_belief_table_to_file own "LocalSignature" ctx_id;
  inputs ← foldM (fun t e =>
      if e.1.1 =? ctx_id then
        insig ← input_signature_from_belief_state o sigma_vec no_contexts e.1.2 e.2;
        s ← write_belief_table_to_file insig "InputSignature" e.1.2;
        mret (t ++ s)
      else mret t) [] (map_entries interface);
  mret (line "[" ++ local ++ inputs ++ line "]").

Definition write_client_plan (sigma_vec : list (BeliefTable T)) (no_contexts : N) : res text :=
  tables ← foldM (fun t i =>
      btab ← vec_at sigma_vec i; s ← write_belief_table_to_file btab "LocalSignature" i; mret (t ++ s))
    [] (nrange 0 no_contexts);
  mret (line "[" ++ tables ++ line "]").

(** ** Return plans *)

(** The client has the number 1023. *)
Definition client_id : N := 1023.

Definition return_entries (i : N) (minV : NewBeliefState) (lcim : gmap (N * N) NewBeliefState) : list (N * NewBeliefState) :=
  (if i =? 0 then [(client_id, minV)] else []) ++
  ((fun e => (e.1.1, minV)) <$> filter (fun e => e.1.2 = i) (map_entries lcim)).

(** The mask of a context: the positions of its block. *)
Definition block_of (o : Offsets) (j : N) : res NewBeliefState :=
  mask ← bs_blocks (no_blocks o) (size_belief_state o) false;
  beg_mask ← vec_at (starting_offsets o) j;
  end_mask ← (if j =? u64_sub (N.of_nat (length (starting_offsets o))) 1 then bs_size mask
              else vec_at (starting_offsets o) (j + 1));
  foldM (fun mask k => set mask k DMCS_TRUE) mask (nrange beg_mask end_mask).

(** What the client is sent under the optimised plan: the root's beliefs and
    its neighbors' part of the interfaces.  The operator also masks the
    interface itself, which this last file is the last to use. *)
Definition opt_client_state (o : Offsets) (no_contexts no_atoms : N) (lcim : gmap (N * N) NewBeliefState)
    : res NewBeliefState :=
  bs ← bs_blocks no_contexts no_atoms false;
  second ← vec_at (starting_offsets o) 1;
  bs ← foldM (fun bs j => set bs j DMCS_TRUE) bs (nrange 0 second);
  foldM (fun bs e =>
      if e.1.1 =? 0 then
        mask ← block_of o e.1.2;
        mret (bs_or bs (bs_and e.2 mask))
      else mret bs) bs (map_entries lcim).

Definition opt_return_entries (o : Offsets) (no_contexts no_atoms i : N) (lcim opt_lcim : gmap (N * N) NewBeliefState)
    : res (list (N * NewBeliefState)) :=
  if i =? 0 then bs ← opt_client_state o no_contexts no_atoms lcim; mret [(client_id, bs)]
  else mret ((fun e => (e.1.1, e.2)) <$> filter (fun e => e.1.2 = i) (map_entries opt_lcim)).

(** The belief states that the optimised interfaces point to. *)
Definition opt_values (st : interfaces) : gmap (N * N) NewBeliefState := omap (fun l => heap st !! l) (lcim st).

Definition file_name (prefix : string) (i : N) (ext : string) : text := str prefix ++ str "-" ++ dec i ++ str ext.

(** The files of one context. *)
Definition context_plans (o : Offsets) (opts : options) (sigma_vec : list (BeliefTable T)) (g : gen)
    (opt_lcim : option (gmap (N * N) NewBeliefState)) (i : N) : res (list (text * text)) :=
  let n := no_contexts opts in
  qp ← write_query_plan o sigma_vec n i (g_lcim g);
  oqp ← match opt_lcim with
        | Some m => t ← write_query_plan o sigma_vec n i m; mret [(file_name (prefix opts) i ".oqp", t)]
        | None => mret []
        end;
  rp ← write_return_plan o n (return_entries i (g_minV g) (g_lcim g));
  orp ← match opt_lcim with
        | Some m =>
            es ← opt_return_entries o n (no_atoms opts) i (g_lcim g) m;
            t ← write_return_plan o n es; mret [(file_name (prefix opts) i ".orp", t)]
        | None => mret []
        end;
  mret ((file_name (prefix opts) i ".qp", qp) :: oqp ++ (file_name (prefix opts) i ".rp", rp) :: orp).

Definition write_plans (o : Offsets) (opts : options) (sigma_vec : list (BeliefTable T)) (g : gen)
    (opt_lcim : option (gmap (N * N) NewBeliefState)) : res (list (text * text)) :=
  client ← write_client_plan sigma_vec (no_contexts opts);
  files ← foldM (fun fs i => f ← context_plans o opts sigma_vec g opt_lcim i; mret (fs ++ f)) []
            (reverse (nrange 0 (no_contexts opts)));
  mret ((str "client.qp", client) :: files).

(** ** Knowledge bases and bridge rules *)

Definition atom_name (contextId atomId : N) (sigma : BeliefTable T) : res text :=
  b ← btab_getByID sigma (mk_ID (N.lor contextId MAINKIND_BELIEF) atomId);
  mret (str (b_text b)).

(** Pieces with a separator between them, as the flag [multiple] does it. *)
Fixpoint separated {A} (sep : text) (multiple : bool) (print : A -> res text) (l : list A) : res text :=
  match l with
  | [] => mret []
  | a :: l =>
      t ← print a;
      rest ← separated sep true print l;
      mret ((if multiple then sep else []) ++ t ++ rest)
  end.

Definition visitRule (t : Rule) (contextId : N) (sigma : BeliefTable T) : res text :=
  head ← separated (str "v ") false (fun a => atom_name contextId a sigma) (rule_head t);
  pos ← separated (str ", ") false (fun a => atom_name contextId a sigma) (rule_pos t);
  neg ← separated (str ", ") (negb (bool_decide (rule_pos t = [])))
          (fun a => n ← atom_name contextId a sigma; mret (str "not " ++ n)) (rule_neg t);
  mret (head ++ str ":- " ++ pos ++ neg ++ line ".").

Definition printPositiveBridgeRule (b : BridgeAtom) (sigma_vec : list (BeliefTable T)) : res text :=
  sigma ← vec_at sigma_vec b.1;
  n ← atom_name b.1 b.2 sigma;
  mret (str "(" ++ dec b.1 ++ str ":" ++ n ++ str ")").

Definition printNegativeBridgeRule (b : BridgeAtom) (sigma_vec : list (BeliefTable T)) : res text :=
  p ← printPositiveBridgeRule b sigma_vec; mret (str "not " ++ p).

Definition visitBridgeRule (t : GenContexts.BridgeRule) (contextId : N) (sigma_vec : list (BeliefTable T)) : res text :=
  head ← separated (str "v ") false (fun a => sigma ← vec_at sigma_vec contextId; atom_name contextId a sigma) (br_head t);
  pos ← separated (str ", ") false (fun b => printPositiveBridgeRule b sigma_vec) (br_pos t);
  neg ← separated (str ", ") (negb (bool_decide (br_pos t = []))) (fun b => printNegativeBridgeRule b sigma_vec) (br_neg t);
  mret (head ++ str ":- " ++ pos ++ neg ++ line ".").

Definition write_local_kb (id : N) (local_kb : list Rule) (sigma_vec : list (BeliefTable T)) : res text :=
  foldM (fun t r => sigma ← vec_at sigma_vec id; s ← visitRule r id sigma; mret (t ++ s)) [] local_kb.

Definition write_bridge_rules (id : N) (rules : list GenContexts.BridgeRule) (sigma_vec : list (BeliefTable T)) : res text :=
  foldM (fun t r => s ← visitBridgeRule r id sigma_vec; mret (t ++ s)) [] rules.

End files.

End PlanFiles.
