(* ===== verification/BridgeRuleFiles.v ===== *)
(** * Bridge rules: written by the generator, read by the server

    The grammar of include/parser/BridgeRuleGrammar.tcc with its semantic
    actions: it looks beliefs up in the signatures of the query plan, collects
    the bridge rules of a context and its neighbors in the order of their first
    occurrence. *)

From S2P Require Import Prelude BitMagic BeliefState BeliefStateOffset Ident Tables Joiner Spirit.
From S2P Require Import Parsing ReturnPlans Topologies OptTopologies GenContexts QueryPlans PlanFiles.
Import Ident Tables Spirit Parsing ReturnPlans GenContexts QueryPlans PlanFiles.

Module BridgeRuleFiles.

Abbreviation NewNeighbor := Joiner.NewNeighbor.

Section grammar.
Context {T : Type} `{I : Indexed Belief belief_conflict (≡ₚ) T}.
Context {R : Type} `{IR : Indexed Tables.BridgeRule rule_conflict (=) R}.
(** [m_QueryPlan] and [m_CtxID]. *)
Context (m_QueryPlan : gmap N (ContextQueryPlan T)) (m_CtxID : N).

Record semantics := mk_sem {
  m_BridgeRules : R;
  m_Neighbors : list NewNeighbor;
  m_NeighborOffset : N;
  m_NeighborIDs : gset N;
}.

Definition sem_new : semantics := mk_sem rtab_new [] 0 ∅.

(** The result points to the two members. *)
Definition m_ParsedResult (mgr : semantics) : R * list NewNeighbor := (m_BridgeRules mgr, m_Neighbors mgr).

(** [m_QueryPlan->find(id)->second]: nothing checks that the entry exists. *)
Definition find_plan (id : N) : res (ContextQueryPlan T) := not_null (m_QueryPlan !! id).

(** [str_port << qp.port] for an [int]. *)
Definition show_int (z : Z) : text := if (z <? 0)%Z then str "-" ++ dec (Z.to_N (- z)) else dec (Z.to_N z).

(** ** Semantic actions *)

Definition passPredToBelief (mgr : semantics) (source : text * list text) : res (semantics * text) :=
  let '(pred_name, terms) := source in
  match terms with
  | [] => mret (mgr, pred_name)
  | _ => endIt ← vec_at terms (N.of_nat (length terms) - 1);
         mret (mgr, pred_name ++ str "(" ++ (removelast terms ≫= fun t => t ++ str ",") ++ endIt ++ str ")")
  end.

Definition passIdentToBelief (mgr : semantics) (source : text) : res (semantics * text) := mret (mgr, source).

Definition getBridgeAtom (mgr : semantics) (source : N * text) : res (semantics * ID) :=
  let '(ctx_id, belief) := source in
  qp ← find_plan ctx_id;
  if ctx_id =? m_CtxID then
    sig ← not_null (localSignature qp);
    mret (mgr, btab_getIDByString sig (unstr belief))
  else
    sig ← not_null (groundInputSignature qp);
    let target := btab_getIDByString sig (unstr belief) in
    if decide (ctx_id ∈ m_NeighborIDs mgr) then mret (mgr, target)
    else
      let neighbor := Joiner.mk_neighbor ctx_id (m_NeighborOffset mgr) (unstr (QueryPlans.hostname qp))
                        (unstr (show_int (QueryPlans.port qp))) in
      mret (mk_sem (m_BridgeRules mgr) (m_Neighbors mgr ++ [neighbor]) (u64_add (m_NeighborOffset mgr) 1)
              (m_NeighborIDs mgr ∪ {[ctx_id]}), target).

Definition getBridgeLiteral (mgr : semantics) (source : option text * ID) : res (semantics * ID) :=
  let isNaf := match source.1 with Some _ => true | None => false end in
  l ← literalFromBelief source.2 isNaf;
  mret (mgr, l).

Definition bridge_kind : N := N.lor MAINKIND_RULE SUBKIND_RULE_BRIDGE_RULE.

Definition getBridgeRule (mgr : semantics) (source : text * list ID) : res (semantics * unit) :=
  qp ← find_plan m_CtxID;
  sig ← not_null (localSignature qp);
  let head_id := btab_getIDByString sig (unstr source.1) in
  r ← rule_new bridge_kind head_id source.2;
  '(rules, _) ← rtab_storeAndGetID (m_BridgeRules mgr) r;
  mret (mk_sem rules (m_Neighbors mgr) (m_NeighborOffset mgr) (m_NeighborIDs mgr), tt).

(** ** The grammar *)

Context `{Q : Qi}.
#[local] Open Scope qi_scope.
#[local] Abbreviation rule := (parser semantics).

Definition ident : rule text :=
  alt (many (char_ is_alnum))
      (lit [quote] *> lexeme (kleene (char_ (fun c => is_ascii c && negb (is_char quote c)))) <* lit [quote]).

Definition terms : rule (list text) := list_of ident (lit (str ",")).

Definition predicate : rule (text * list text) := seq (ident <* lit (str "(")) (terms <* lit (str ")")).

Definition belief : rule text := alt (action predicate passPredToBelief) (action ident passIdentToBelief).

Definition bridgeAtom : rule ID :=
  action (lit (str "(") *> seq (uint_ <* lit (str ":")) belief <* lit (str ")")) getBridgeAtom.

Definition bridgeLiteral : rule ID := action (seq (opt (string_ (str "not"))) bridgeAtom) getBridgeLiteral.

Definition bridgeRule : rule unit :=
  action (seq (belief <* lit (str ":-")) (list_of bridgeLiteral (char_ (is_char ",")) <* lit (str "."))) getBridgeRule.

Definition start : rule (list unit) := kleene bridgeRule.

(** [BridgeRuleParser_t] on a file. *)
Definition parse_bridge_rules (f : option text) : res (semantics * (R * list NewNeighbor)) :=
  parseFile start m_ParsedResult sem_new f.

End grammar.

(** ** The text of bridge rules *)

(** A literal: negated or not, a context and the text of a belief. *)
Abbreviation literal := (bool * N * text)%type.

Definition literal_text (l : literal) : text :=
  (if l.1.1 then str "not " else []) ++ str "(" ++ dec l.1.2 ++ str ":" ++ l.2 ++ str ")".

Definition body_text (ls : list literal) : text :=
  match ls with [] => [] | l :: ls => literal_text l ++ (ls ≫= fun l => str ", " ++ literal_text l) end.

Definition rule_text (r : text * list literal) : text := r.1 ++ str ":- " ++ body_text r.2 ++ str ".".

Definition word (t : text) : Prop := t <> [] /\ Forall (fun c => is_alnum c = true) t.

Section reading.
Context {T : Type} `{I : Indexed Belief belief_conflict (≡ₚ) T}.
Context {R : Type} `{IR : Indexed Tables.BridgeRule rule_conflict (=) R}.
Context (m_QueryPlan : gmap N (ContextQueryPlan T)) (m_CtxID : N).
Context `{Q : Qi} `{L : !QiLaws}.

Abbreviation sem := (semantics (R := R)).

(** A belief that is a single word, before a character that is neither part of
    the word nor an opening parenthesis. *)
Lemma read_belief_word (s : sem) w c i i' :
  skip i' = w ++ c :: i -> word w -> is_alnum c = false -> is_blank c = false -> is_char "#" c = false -> is_char "(" c = false ->
  parse belief sk s i' = Ok (s, Some (w, c :: i)).
Proof.
  intros Hi [Hne Hw] Ha Hb Hh Hc. unfold belief.
  assert (Hid : parse ident sk s i' = Ok (s, Some (w, c :: i))).
  { unfold ident. rewrite parse_alt, (read_word s w i' (c :: i)); [done|done|done|done|]. by rewrite skip_token. }
  rewrite parse_alt, parse_action. unfold predicate. rewrite parse_seq, parse_seq_l, Hid. cbn [obind].
  rewrite parse_lit. cbn [pre sk]. rewrite skip_token by done. cbn [after str String.list_ascii_of_string]. rewrite Hc. cbn.
  rewrite parse_action, Hid. done.
Qed.

Definition run_literal (mgr : sem) (l : literal) : res sem :=
  '(mgr, id) ← getBridgeAtom m_QueryPlan m_CtxID mgr (l.1.2, l.2);
  fst <$> getBridgeLiteral mgr (if l.1.1 then Some (str "not") else None, id).

(** The signature in which the beliefs of a context are looked up. *)
Definition signature_of (c : N) : option (BeliefTable T) :=
  q ← m_QueryPlan !! c; if c =? m_CtxID then localSignature q else groundInputSignature q.

Definition literal_id (l : literal) : ID :=
  match signature_of l.1.2 with
  | Some sig => match literalFromBelief (btab_getIDByString sig (unstr l.2)) l.1.1 with Ok id => id | Err _ => ID_FAIL end
  | None => ID_FAIL
  end.

Lemma getBridgeAtom_id (mgr mgr' : sem) c t id :
  getBridgeAtom m_QueryPlan m_CtxID mgr (c, t) = Ok (mgr', id) ->
  exists sig, signature_of c = Some sig /\ id = btab_getIDByString sig (unstr t).
Proof.
  unfold getBridgeAtom, find_plan, signature_of. intros H. apply bind_ok in H as (q & Hq & H).
  destruct (m_QueryPlan !! c) as [q'|]; [|done]. injection Hq as ->. cbn. destruct (c =? m_CtxID).
  - apply bind_ok in H as (sig & Hs & [= _ <-]). destruct (localSignature q); [|done]. injection Hs as ->. by exists sig.
  - apply bind_ok in H as (sig & Hs & H). destruct (groundInputSignature q); [|done]. injection Hs as ->. exists sig.
    split; [done|]. destruct (decide _); by injection H.
Qed.

Lemma read_atom (mgr mgr' : sem) id c t i :
  getBridgeAtom m_QueryPlan m_CtxID mgr (c, t) = Ok (mgr', id) -> c < 2 ^ 32 -> word t ->
  parse (bridgeAtom m_QueryPlan m_CtxID) sk mgr (str "(" ++ dec c ++ str ":" ++ t ++ str ")" ++ i) = Ok (mgr', Some (id, i)).
Proof.
  intros Hg Hc Ht. unfold bridgeAtom. rewrite parse_action. lits.
  rewrite (read_uint _ c _ (":"%char :: t ++ ")"%char :: i)) by (done || (apply skip_dec; lia)).
  lits. destruct Ht. erewrite read_belief_word by (done || by apply skip_word). lits. by rewrite Hg.
Qed.

Lemma read_literal (mgr mgr' : sem) l i :
  run_literal mgr l = Ok mgr' -> l.1.2 < 2 ^ 32 -> word l.2 ->
  parse (bridgeLiteral m_QueryPlan m_CtxID) sk mgr (literal_text l ++ i) = Ok (mgr', Some (literal_id l, i)) /\
  parse (bridgeLiteral m_QueryPlan m_CtxID) sk mgr (str " " ++ literal_text l ++ i) = Ok (mgr', Some (literal_id l, i)).
Proof.
  destruct l as [[naf c] t]. cbn [fst snd]. intros Hrun Hc Ht. unfold run_literal in Hrun. cbn [fst snd] in Hrun.
  apply bind_ok in Hrun as ([m1 id] & Hg & Hrun). pose proof (getBridgeAtom_id _ _ _ _ _ Hg) as (sig & Hs & Hid).
  assert (Hl : exists n, literalFromBelief id naf = Ok n /\ m1 = mgr' /\ literal_id (naf, c, t) = n).
  { unfold literal_id. cbn [fst snd]. rewrite Hs, <- Hid. unfold getBridgeLiteral in Hrun. cbn [fst snd] in Hrun.
    destruct naf; (destruct (literalFromBelief id _) as [n|]; [|done]); injection Hrun as ->; by exists n. }
  destruct Hl as (n & Hn & -> & ->). unfold literal_text. cbn [fst snd].
  assert (Hat : forall (sp : bool), parse (bridgeAtom m_QueryPlan m_CtxID) sk mgr
    ((if sp then str " " else []) ++ str "(" ++ dec c ++ str ":" ++ t ++ str ")" ++ i) = Ok (mgr', Some (id, i))).
  { intros [|]; [|by apply read_atom]. unfold bridgeAtom. rewrite parse_action. lits.
    rewrite (read_uint _ c _ (":"%char :: t ++ ")"%char :: i)) by (done || (apply skip_dec; lia)).
    lits. destruct Ht. erewrite read_belief_word by (done || by apply skip_word). lits. by rewrite Hg. }
  unfold bridgeLiteral. rewrite !parse_action, !parse_seq, !parse_opt, !parse_string. cbn [pre sk].
  destruct naf; rewrite <- !app_assoc.
  - pose proof (Hat true) as Ha. cbn [str String.list_ascii_of_string app] in Ha |- *.
    split; skips; cbn [after is_char Ascii.eqb Bool.eqb fmap option_fmap option_map obind]; rewrite Ha; cbn [obind];
      unfold getBridgeLiteral; cbn [fst snd]; by rewrite Hn.
  - pose proof (Hat true) as Ha. pose proof (Hat false) as Ha'. cbn [str String.list_ascii_of_string app] in Ha, Ha' |- *.
    split; skips; cbn [after is_char Ascii.eqb Bool.eqb fmap option_fmap option_map obind]; rewrite ?Ha, ?Ha'; cbn [obind];
      unfold getBridgeLiteral; cbn [fst snd]; by rewrite Hn.
Qed.

Definition run_rule (mgr : sem) (r : text * list literal) : res sem :=
  mgr ← foldM run_literal mgr r.2;
  fst <$> getBridgeRule m_QueryPlan m_CtxID mgr (r.1, literal_id <$> r.2).

Definition rule_readable (r : text * list literal) : Prop :=
  word r.1 /\ r.2 <> [] /\ Forall (fun l => l.1.2 < 2 ^ 32 /\ word l.2) r.2.

Lemma read_rule (mgr mgr' : sem) r i i' :
  run_rule mgr r = Ok mgr' -> rule_readable r -> skip i' = rule_text r ++ i ->
  parse (bridgeRule m_QueryPlan m_CtxID) sk mgr i' = Ok (mgr', Some (tt, i)).
Proof.
  destruct r as [h [|l ls]]; intros Hrun (Hh & Hne & Hl) Hi; [done|]. cbn [fst snd] in *. rewrite Forall_forall in Hl.
  unfold run_rule in Hrun. cbn [fst snd] in Hrun. apply bind_ok in Hrun as (m1 & Hf & Hrun).
  unfold rule_text, body_text in Hi. cbn [fst snd] in Hi. rewrite <- !app_assoc in Hi. unfold bridgeRule.
  rewrite parse_action, parse_seq, parse_seq_l. cbn [str String.list_ascii_of_string app] in Hi.
  erewrite read_belief_word by done. cbn [obind]. lits.
  assert (Hb : forall i, parse (list_of (bridgeLiteral m_QueryPlan m_CtxID) (char_ (is_char ","))) sk mgr
      ((str " " ++ literal_text l) ++ (ls ≫= fun l => str "," ++ (str " " ++ literal_text l)) ++ str "." ++ i) =
    Ok (m1, Some (literal_id <$> l :: ls, str "." ++ i))).
  { intros i0.
    apply (read_list _ _ _ (fun l => str " " ++ literal_text l) (fun l => str " " ++ literal_text l) literal_id
      run_literal (fun _ => True)); try done.
    - intros s. rewrite parse_seq_r, parse_char. cbn [pre sk str String.list_ascii_of_string app]. by rewrite skip_token.
    - intros y s i1 _. exists ","%char. rewrite parse_char. cbn [pre sk str String.list_ascii_of_string app]. by rewrite skip_token.
    - intros s s' i1 _ Hr. destruct (Hl l); [left|]. rewrite <- app_assoc. by apply read_literal.
    - intros y s s' i1 Hy _ Hr. destruct (Hl y); [by right|]. rewrite <- app_assoc. by apply read_literal. }
  texts_in Hb. rewrite Hb. lits. destruct (getBridgeRule _ _ _ _) as [[m2 []]|]; [|done]. injection Hrun as ->. done.
Qed.

(** The file that [write_bridge_rules] writes: a rule on each line. *)
Definition rules_text (rules : list (text * list literal)) : text := rules ≫= fun r => rule_text r ++ [nl].

Lemma skip_rule r i : rule_readable r -> skip (rule_text r ++ i) = rule_text r ++ i.
Proof. intros ([Hne Hw] & _). unfold rule_text. rewrite <- !app_assoc. by apply skip_word. Qed.

(** Rules are read one after the other, whether or not a line end is left over
    from the rule before. *)
Lemma read_rules rules : forall (mgr mgr' : sem) pre,
  Forall rule_readable rules -> foldM run_rule mgr rules = Ok mgr' -> pre = [] \/ pre = [nl] ->
  exists rest, parse (start m_QueryPlan m_CtxID) sk mgr (pre ++ rules_text rules ++ [nl]) =
    Ok (mgr', Some ((fun _ => tt) <$> rules, rest)) /\ skip rest = [].
Proof.
  induction rules as [|r rules IH]; intros mgr mgr' pre Hr Hrun Hpre; unfold start, rules_text.
  - injection Hrun as <-. exists (pre ++ [nl]). assert (Hs : skip (pre ++ [nl]) = []).
    { destruct Hpre as [-> | ->]; cbn [app]; by rewrite !skip_blank, skip_nil by done. }
    split; [|done]. apply parse_kleene_stop. cbn [mbind list_bind app]. unfold bridgeRule. rewrite parse_action, parse_seq, parse_seq_l.
    assert (Hid : parse ident sk mgr (pre ++ [nl]) = Ok (mgr, None)).
    { unfold ident, many. rewrite parse_alt, parse_attr, parse_seq, parse_char. cbn [Spirit.pre sk]. rewrite Hs. cbn [obind].
      rewrite parse_seq_r, parse_lit. cbn [Spirit.pre sk]. by rewrite Hs. }
    unfold belief. rewrite parse_alt, parse_action. unfold predicate. rewrite parse_seq, parse_seq_l, Hid. cbn [obind].
    by rewrite parse_action, Hid.
  - apply Forall_cons in Hr as [Hr Hrs]. cbn [foldM] in Hrun. apply bind_ok in Hrun as (m1 & H1 & Hrun).
    destruct (IH m1 mgr' [nl] Hrs Hrun) as (rest & Hp & Hs); [by right|].
    exists rest. split; [|done]. cbn [mbind list_bind]. fold (rules_text rules). rewrite <- !app_assoc.
    erewrite parse_kleene_more; [unfold start in Hp; rewrite Hp; done|eapply read_rule; [exact H1|done|]|].
    + destruct Hpre as [-> | ->]; cbn [app]; rewrite ?skip_blank by done; by apply skip_rule.
    + rewrite !length_app. unfold rule_text. rewrite !length_app. cbn. lia.
Qed.

End reading.

(** ** What the server has after reading *)

(** The elements of a list, in the order of their first occurrence. *)
Definition firsts (l : list N) : list N := reverse (remove_dups (reverse l)).

Lemma firsts_snoc l c : firsts (l ++ [c]) = if decide (c ∈ firsts l) then firsts l else firsts l ++ [c].
Proof.
  unfold firsts. rewrite reverse_snoc. cbn [remove_dups].
  assert (Hc : c ∈ reverse (remove_dups (reverse l)) <-> c ∈ reverse l) by (by rewrite elem_of_reverse, elem_of_remove_dups).
  destruct (decide_rel _ c (reverse l)) as [H|H]; [by rewrite decide_True by tauto|].
  rewrite decide_False by tauto. by rewrite reverse_cons.
Qed.

Lemma firsts_NoDup l : NoDup (firsts l).
Proof. unfold firsts. rewrite reverse_Permutation. apply NoDup_remove_dups. Qed.

Lemma elem_of_firsts l c : c ∈ firsts l <-> c ∈ l.
Proof. unfold firsts. by rewrite elem_of_reverse, elem_of_remove_dups, elem_of_reverse. Qed.

Lemma bounded_length (l : list N) k : NoDup l -> (forall c, c ∈ l -> c < k) -> N.of_nat (length l) <= k.
Proof.
  intros Hnd Hb. assert (Hs : l ⊆+ nrange 0 k).
  { apply NoDup_submseteq; [done|]. intros c Hc. apply elem_of_nrange. split; [lia|by apply Hb]. }
  apply submseteq_length in Hs. rewrite length_nrange in Hs. lia.
Qed.

Section results.
Context {T : Type} `{I : Indexed Belief belief_conflict (≡ₚ) T}.
Context {R : Type} `{IR : Indexed Tables.BridgeRule rule_conflict (=) R} `{LR : !IndexedLaws Tables.BridgeRule rule_conflict (=) R}.
Context (m_QueryPlan : gmap N (ContextQueryPlan T)) (m_CtxID : N).

#[local] Abbreviation sem := (semantics (R := R)).
#[local] Abbreviation literal_id := (literal_id m_QueryPlan m_CtxID).
#[local] Abbreviation signature_of := (signature_of m_QueryPlan m_CtxID).

(** The record of the [i]-th neighbor: its address comes from the query plan. *)
Definition neighbor_at (i : nat) (c : N) : NewNeighbor :=
  match m_QueryPlan !! c with
  | Some q => Joiner.mk_neighbor c (N.of_nat i) (unstr (QueryPlans.hostname q)) (unstr (show_int (QueryPlans.port q)))
  | None => Joiner.mk_neighbor c (N.of_nat i) "" ""
  end.

Lemma neighbor_ids l : Joiner.neighbor_id <$> imap neighbor_at l = l.
Proof.
  apply list_eq. intros k. rewrite list_lookup_fmap, list_lookup_imap. destruct (l !! k) as [c|]; [|done]. cbn.
  unfold neighbor_at. by destruct (m_QueryPlan !! c).
Qed.

(** The other contexts that literals mention. *)
Definition others (ls : list literal) : list N := filter (fun c => c <> m_CtxID) ((fun l => l.1.2) <$> ls).

(** The state after the literals whose other contexts are [cs]. *)
Definition collected (cs : list N) (mgr : sem) : Prop :=
  m_Neighbors mgr = imap neighbor_at (firsts cs) /\ m_NeighborIDs mgr = list_to_set (firsts cs) /\
  m_NeighborOffset mgr = N.of_nat (length (firsts cs)).

(** The belief of a literal is in the signature of its context. *)
Definition known (l : literal) : Prop :=
  exists sig, signature_of l.1.2 = Some sig /\ isBelief (btab_getIDByString sig (unstr l.2)) = true.

Lemma literal_ok id naf : isBelief id = true -> exists l, literalFromBelief id naf = Ok l.
Proof. intros H. unfold literalFromBelief, nafLiteralFromBelief, posLiteralFromBelief. rewrite H. destruct naf; by eexists. Qed.

Lemma run_literal_ok cs (mgr : sem) l :
  collected cs mgr -> (forall c, c ∈ cs -> c < 2 ^ 32) -> known l -> l.1.2 < 2 ^ 32 ->
  exists mgr', run_literal m_QueryPlan m_CtxID mgr l = Ok mgr' /\ collected (cs ++ others [l]) mgr' /\
    m_BridgeRules mgr' = m_BridgeRules mgr.
Proof.
  intros (Hn & Hi & Ho) Hcs (sig & Hs & Hb) Hc. destruct l as [[naf c] t]. cbn [fst snd] in *.
  destruct (literal_ok _ naf Hb) as [lid Hl]. unfold run_literal, getBridgeAtom, find_plan, BridgeRuleFiles.signature_of in *.
  cbn [fst snd]. destruct (m_QueryPlan !! c) as [q|] eqn:Eq; [|done]. cbn in Hs.
  change (not_null (Some q)) with (Ok q). rsimpl. unfold others. cbn [fmap list_fmap fst snd].
  assert (Hlit : forall m : sem, fst <$> getBridgeLiteral m (if naf then Some (str "not") else None, btab_getIDByString sig (unstr t)) = Ok m).
  { intros m. unfold getBridgeLiteral. cbn [fst snd]. destruct naf; by rewrite Hl. }
  destruct (N.eqb_spec c m_CtxID) as [->|Hne]; rewrite Hs; change (not_null (Some sig)) with (Ok sig); rsimpl.
  - rewrite Hlit. exists mgr. rewrite filter_cons_False by (intros ?; done). by rewrite app_nil_r.
  - rewrite filter_cons_True by done. cbn [filter list_filter]. unfold collected. rewrite firsts_snoc.
    destruct (decide (c ∈ m_NeighborIDs mgr)) as [Hin|Hin].
    + rewrite Hi, elem_of_list_to_set in Hin. rewrite decide_True by done. rsimpl. rewrite Hlit. by exists mgr.
    + rewrite Hi, elem_of_list_to_set in Hin. rewrite decide_False by done. rsimpl. rewrite Hlit.
      eexists. split; [done|]. cbn [m_Neighbors m_NeighborIDs m_NeighborOffset m_BridgeRules]. split_and!; [| | |done].
      * rewrite imap_app, Hn. cbn. unfold neighbor_at at 3. rewrite Eq, Ho, Nat.add_0_r. done.
      * rewrite Hi, list_to_set_app_L. cbn. by rewrite (right_id_L ∅ (∪)).
      * rewrite Ho, length_app. cbn [length].
        pose proof (bounded_length (firsts cs) (2 ^ 32) (firsts_NoDup cs)
          (fun c Hc => Hcs c (proj1 (elem_of_firsts _ _) Hc))).
        unfold u64_add. rewrite N.mod_small by lia. lia.
Qed.

Lemma run_literals_ok ls : forall cs (mgr : sem),
  collected cs mgr -> (forall c, c ∈ cs -> c < 2 ^ 32) -> Forall (fun l => known l /\ l.1.2 < 2 ^ 32) ls ->
  exists mgr', foldM (run_literal m_QueryPlan m_CtxID) mgr ls = Ok mgr' /\ collected (cs ++ others ls) mgr' /\
    m_BridgeRules mgr' = m_BridgeRules mgr.
Proof.
  induction ls as [|l ls IH]; intros cs mgr Hc Hcs Hl.
  - exists mgr. by rewrite app_nil_r.
  - apply Forall_cons in Hl as [[Hk Hb] Hl]. destruct (run_literal_ok cs mgr l) as (m1 & E1 & C1 & R1); [done..|].
    destruct (IH (cs ++ others [l]) m1 C1) as (m2 & E2 & C2 & R2); [|done|].
    { intros c [Hin|Hin]%elem_of_app; [auto|]. unfold others in Hin. apply list_elem_of_filter in Hin as [_ Hin].
      by apply list_elem_of_singleton in Hin as ->. }
    exists m2. cbn [foldM]. rewrite E1. rsimpl. split_and!; [done| |congruence].
    replace (others (l :: ls)) with (others [l] ++ others ls); [by rewrite app_assoc|].
    unfold others. by rewrite <- filter_app.
Qed.

(** The rule that a line stands for. *)
Definition translated (own : BeliefTable T) (r : text * list literal) : Tables.BridgeRule :=
  Tables.mk_rule bridge_kind (btab_getIDByString own (unstr r.1)) (literal_id <$> r.2).

Lemma store_rule_ok (t : R) (r : Tables.BridgeRule) :
  r_kind r = bridge_kind -> r_body r <> [] -> r ∉ idx_elements t ->
  exists t' id, rtab_storeAndGetID t r = Ok (t', id) /\ idx_elements t' = idx_elements t ++ [r].
Proof.
  intros Hk Hb Hr. unfold rtab_storeAndGetID. rewrite Hk, bool_decide_false by done. cbn [negb].
  change (isBridgeRule (mk_ID bridge_kind 0)) with (Ok true). rsimpl. change (assert true) with (Ok tt). rsimpl.
  destruct (idx_insert_fresh r t) as (t' & -> & Hel).
  { intros y Hy. apply not_true_is_false. rewrite rule_conflict_eq. by intros ->. }
  change (assert true) with (Ok tt). rsimpl. by eexists _, _.
Qed.

Lemma run_rules_ok own q rules : forall cs (mgr : sem),
  m_QueryPlan !! m_CtxID = Some q -> localSignature q = Some own ->
  collected cs mgr -> (forall c, c ∈ cs -> c < 2 ^ 32) ->
  Forall (fun r => rule_readable r /\ Forall known r.2) rules ->
  NoDup (idx_elements (m_BridgeRules mgr) ++ (translated own <$> rules)) ->
  exists mgr', foldM (run_rule m_QueryPlan m_CtxID) mgr rules = Ok mgr' /\
    collected (cs ++ (rules ≫= fun r => others r.2)) mgr' /\
    idx_elements (m_BridgeRules mgr') = idx_elements (m_BridgeRules mgr) ++ (translated own <$> rules).
Proof.
  intros cs mgr Hq Hown. revert cs mgr. induction rules as [|r rules IH]; intros cs mgr Hc Hcs Hf Hnd.
  - exists mgr. by rewrite !app_nil_r.
  - apply Forall_cons in Hf as [[(Hh & Hne & Hr) Hk] Hf]. cbn [fmap list_fmap] in Hnd |- *.
    destruct (run_literals_ok r.2 cs mgr Hc Hcs) as (m1 & E1 & C1 & R1).
    { rewrite Forall_forall in Hr, Hk. apply Forall_forall. intros l Hl. split; [by apply Hk|by apply Hr]. }
    destruct (store_rule_ok (m_BridgeRules m1) (translated own r)) as (t & id & Et & Hel).
    { done. } { cbn. by destruct r.2. }
    { rewrite R1. apply NoDup_app in Hnd as (_ & Hnd & _). intros Hin. apply (Hnd _ Hin). left. }
    set (m2 := mk_sem t (m_Neighbors m1) (m_NeighborOffset m1) (m_NeighborIDs m1)).
    assert (E2 : run_rule m_QueryPlan m_CtxID mgr r = Ok m2).
    { unfold run_rule. rewrite E1. rsimpl. unfold getBridgeRule, find_plan. rewrite Hq. change (not_null (Some q)) with (Ok q).
      rsimpl. rewrite Hown. change (not_null (Some own)) with (Ok own). rsimpl.
      change (rule_new bridge_kind ?h ?b) with (Ok (Tables.mk_rule bridge_kind h b)). rsimpl.
      cbn [fst snd]. fold (translated own r). by rewrite Et. }
    destruct (IH (cs ++ others r.2) m2) as (m3 & E3 & C3 & H3).
    { exact C1. }
    { intros c [Hin|Hin]%elem_of_app; [auto|]. unfold others in Hin. apply list_elem_of_filter in Hin as [_ Hin].
      apply list_elem_of_fmap in Hin as (l & -> & Hl). rewrite Forall_forall in Hr. by apply Hr. }
    { done. }
    { cbn [m_BridgeRules m2]. rewrite Hel, R1, <- app_assoc. exact Hnd. }
    exists m3. cbn [foldM mbind list_bind]. rewrite E2. rsimpl. split_and!; [done|by rewrite app_assoc|].
    rewrite H3. cbn [m_BridgeRules m2]. by rewrite Hel, R1, <- app_assoc.
Qed.

(** A file of bridge rules over words, each on its line, whose beliefs are
    in the signatures of the query plan and no two of which are the same, is
    read into a table with exactly these rules in their order; the neighbors
    are the other contexts the rules mention, once each, in the order of their
    first occurrence, numbered from zero and with the host and port of the
    query plan. *)
Lemma bridge_rules_read `{Q : Qi} `{L : !QiLaws} own q rules :
  m_QueryPlan !! m_CtxID = Some q -> localSignature q = Some own ->
  Forall (fun r => rule_readable r /\ Forall known r.2) rules -> NoDup (translated own <$> rules) ->
  exists mgr tab, parse_bridge_rules m_QueryPlan m_CtxID (Some (rules_text rules)) =
      Ok (mgr, (tab, imap neighbor_at (firsts (rules ≫= fun r => others r.2)))) /\
    rtab_getAllByAddress (T := R) tab = translated own <$> rules.
Proof.
  intros Hq Hown Hf Hnd. destruct (run_rules_ok own q rules [] sem_new) as (mgr & E & (Hn & _) & Hel); [done..| |done| |].
  { intros c Hc. by apply not_elem_of_nil in Hc. }
  { cbn [m_BridgeRules sem_new]. unfold rtab_new. by rewrite idx_empty_elements. }
  exists mgr, (m_BridgeRules mgr). split.
  - cbn [app] in Hn. rewrite <- Hn. unfold parse_bridge_rules, parseFile.
    assert (Hr : Forall rule_readable rules) by (eapply Forall_impl; [exact Hf|]; by intros r [? _]).
    destruct (read_rules m_QueryPlan m_CtxID rules sem_new mgr [] Hr E) as (rest & Hp & Hs); [by left|].
    exact (parseStream_ok _ _ _ _ _ _ _ Hp Hs).
  - unfold rtab_getAllByAddress. rewrite Hel. cbn [m_BridgeRules sem_new]. unfold rtab_new. by rewrite idx_empty_elements.
Qed.
End results.

(** Context 0 with the beliefs a and b, its neighbors 2 and 1. *)
Definition sample_table (c : N) : BeliefTable (list Belief) := mk_btab [belief_new_at c 1 "a"; belief_new_at c 2 "b"] 0.

Definition sample_plan : gmap N (ContextQueryPlan (list Belief)) :=
  let entry c l i := (c, mk_plan c (str "localhost") (5000 + Z.of_N c) None None None None l i) in
  list_to_map [entry 0 (Some (sample_table 0)) None; entry 1 None (Some (sample_table 1)); entry 2 None (Some (sample_table 2))].

Definition sample_rules : list (text * list literal) :=
  [(str "a", [(false, 2, str "a"); (true, 1, str "b")]); (str "b", [(false, 0, str "a"); (false, 2, str "b")])].

Lemma bridge_rules_sample :
  exists mgr tab, parse_bridge_rules (Q := qi_functions) (R := list Tables.BridgeRule) sample_plan 0 (Some (rules_text sample_rules)) =
      Ok (mgr, (tab, [Joiner.mk_neighbor 2 0 "localhost" "5002"; Joiner.mk_neighbor 1 1 "localhost" "5001"])) /\
    rtab_getAllByAddress (T := list Tables.BridgeRule) tab = translated sample_plan 0 (sample_table 0) <$> sample_rules.
Proof.
  eapply (bridge_rules_read (R := list Tables.BridgeRule) (Q := qi_functions) sample_plan 0 (sample_table 0) _ sample_rules).
  - reflexivity.
  - reflexivity.
  - repeat apply Forall_cons_2; [| |constructor].
    all: split; [split_and!|].
    all: try (split; [discriminate|repeat constructor]).
    all: try discriminate.
    all: repeat apply Forall_cons_2; try constructor.
    all: try (split; [discriminate|repeat constructor]).
    all: try (by apply (bool_decide_unpack _); vm_compute).
    all: eexists; split; reflexivity.
  - apply (bool_decide_unpack _). vm_compute. done.
Qed.

(** A file in which a rule occurs twice stops the server: the assertion that
    the table accepts the rule fails. *)
Lemma repeated_rule_aborts :
  parse_bridge_rules (Q := qi_functions) (R := list Tables.BridgeRule) sample_plan 0
    (Some (rules_text [(str "a", [(false, 1, str "b")]); (str "a", [(false, 1, str "b")])])) = Err AssertFailed.
Proof. vm_compute. reflexivity. Qed.

End BridgeRuleFiles.
