(* ===== verification/SystemFiles.v ===== *)
(** * A generated system on disk, and what its servers read

    The generator (PlanFiles.v, ReturnPlans.v) and the parsers (ReturnPlans.v,
    QueryPlans.v, BridgeRuleFiles.v) put together, for the systems that
    [generate_data] makes: the tables of [genBeliefTables], the files that are
    written from them, and what the grammars make of these files. *)

From S2P Require Import Prelude BitMagic BeliefState BeliefStateOffset Ident Tables Joiner Spirit Parsing.
From S2P Require Import ReturnPlans Topologies OptTopologies GenContexts QueryPlans PlanFiles BridgeRuleFiles.
Import BitMagic BeliefState BeliefStateOffset Ident Tables Spirit Parsing Topologies GenContexts PlanFiles.

Module SystemFiles.

(** ** Names *)

Lemma dec_inj a b : a < W64 -> b < W64 -> dec a = dec b -> a = b.
Proof. intros Ha Hb E. rewrite <- (proj2 (proj2 (dec_ok a Ha))), E. apply dec_ok. done. Qed.

Lemma unstr_inj s t : unstr s = unstr t -> s = t.
Proof.
  intros E. rewrite <- (String.list_ascii_of_string_of_list_ascii s), <- (String.list_ascii_of_string_of_list_ascii t).
  unfold unstr in E. by rewrite E.
Qed.

Lemma str_unstr t : str (unstr t) = t.
Proof. apply String.list_ascii_of_string_of_list_ascii. Qed.

(** The text of a belief: atom 0 is epsilon. *)
Definition atom_string (i j : N) : string := if j =? 0 then "epsilon" else unstr (atom_text i j).

Lemma atom_string_inj i j k : j < W64 -> k < W64 -> atom_string i j = atom_string i k -> j = k.
Proof.
  intros Hj Hk. unfold atom_string. destruct (N.eqb_spec j 0) as [->|], (N.eqb_spec k 0) as [->|]; try done.
  intros E%unstr_inj. unfold atom_text in E. apply app_inv_head, app_inv_head, app_inv_head in E. by apply dec_inj.
Qed.

Lemma atom_string_ne i j : atom_string i j <> ""%string.
Proof. unfold atom_string. by destruct (j =? 0). Qed.

Lemma digit_alnum c : is_digit c = true -> is_alnum c = true.
Proof. intros H. unfold is_alnum. by rewrite H. Qed.

Lemma atom_text_word i j : i < W64 -> j < W64 -> BridgeRuleFiles.word (atom_text i j).
Proof.
  intros Hi Hj. split; [done|]. unfold atom_text.
  assert (Hd : forall n, n < W64 -> Forall (fun c => is_alnum c = true) (dec n)).
  { intros n Hn. destruct (dec_ok n Hn) as (_ & Hd & _). eapply Forall_impl; [exact Hd|]. apply digit_alnum. }
  repeat (apply Forall_app; split); auto; by repeat constructor.
Qed.

(** ** Tables *)

Definition gen_atom (i j : N) : Belief := belief_new_at i j (atom_string i j).

Section tables.
Context {T : Type} `{I : Indexed Belief belief_conflict (≡ₚ) T} `{LI : !IndexedLaws Belief belief_conflict (≡ₚ) T}.
Context `{K : Tokenizer} `{LK : !TokenizerLaws}.

(** A table with atoms of context [i], each of them once. *)
Definition holds_atoms (i : N) (js : list N) (tab : BeliefTable T) : Prop :=
  idx_elements (container tab) ≡ₚ gen_atom i <$> js.

Lemma gen_atom_conflict i j k : j < W64 -> k < W64 -> belief_conflict (gen_atom i j) (gen_atom i k) = true -> j = k.
Proof.
  intros Hj Hk. unfold belief_conflict, gen_atom, belief_new_at. cbn [b_address b_text].
  intros [->%N.eqb_eq|E%bool_decide_eq_true]%orb_prop; [done|]. by apply (atom_string_inj i).
Qed.

Lemma insert_atom i js (c : T) j :
  idx_elements c ≡ₚ gen_atom i <$> js -> j ∉ js -> j < W64 -> Forall (fun k => k < W64) js ->
  exists c', idx_insert (gen_atom i j) c = (c', true) /\ idx_elements c' ≡ₚ gen_atom i <$> (js ++ [j]).
Proof.
  intros Hc Hj Hw Hjs. destruct (idx_insert_fresh (gen_atom i j) c) as (c' & E & Hel).
  - intros y Hy. rewrite Hc in Hy. apply list_elem_of_fmap in Hy as (k & -> & Hk). apply not_true_is_false.
    intros E%gen_atom_conflict; [by subst|done|]. by eapply Forall_forall in Hjs.
  - exists c'. split; [done|]. by rewrite Hel, Hc, fmap_app.
Qed.

Lemma belief_kind i j : isBelief (mk_ID (b_kind (gen_atom i j)) j) = true.
Proof. apply QueryPlans.belief_at_kind. Qed.

Lemma store_atom i js tab j b :
  holds_atoms i js tab -> nextAddress tab = j -> j ∉ js -> j + 1 < 2 ^ 32 -> Forall (fun k => k < W64) js ->
  b = belief_new i (atom_string i j) ->
  exists tab' id, btab_storeAndGetID tab b = Ok (tab', id) /\ holds_atoms i (js ++ [j]) tab' /\ nextAddress tab' = j + 1.
Proof.
  intros Hh Hn Hj H32 Hjs ->. destruct (insert_atom i js (container tab) j Hh Hj) as (c & E & Hc); [lia|done|].
  unfold btab_storeAndGetID. change (isBelief _) with (isBelief (mk_ID (b_kind (gen_atom i 0)) 0)). rewrite belief_kind.
  change (assert true) with (Ok tt). rsimpl. rewrite bool_decide_false by apply atom_string_ne.
  cbn [negb belief_new b_kind b_text]. change (assert true) with (Ok tt). rsimpl. rewrite Hn.
  change (mk_belief j _ _) with (gen_atom i j). rewrite E. change (assert true) with (Ok tt). rsimpl.
  eexists _, _. split; [done|]. split; [done|]. cbn. by rewrite N.mod_small.
Qed.

(** The table of a context: epsilon at 0, then its atoms. *)
Lemma gen_belief_table_ok i na : na + 1 < 2 ^ 32 ->
  exists tab, gen_belief_table i na = Ok tab /\ holds_atoms i (nrange 0 (na + 1)) tab.
Proof.
  intros Hna. unfold gen_belief_table.
  destruct (store_atom i [] btab_new 0 (belief_new i "epsilon")) as (t0 & id0 & -> & H0 & N0);
    [by unfold holds_atoms; cbn; rewrite idx_empty_elements|done|apply not_elem_of_nil|lia|constructor|done|].
  rsimpl.
  destruct (foldM_nrange (fun j tab => holds_atoms i (nrange 0 (j + 1)) tab /\ nextAddress tab = j + 1)
    (fun btab j => '(btab, _) ← btab_storeAndGetID btab (belief_new i (unstr (atom_text i (u64_add j 1)))); mret btab) t0 na)
    as (tab & -> & Hh & _); [by split| |by exists tab].
  intros j tab Hj [Hh Hn]. unfold u64_add. rewrite N.mod_small by lia.
  destruct (store_atom i (nrange 0 (j + 1)) tab (j + 1) (belief_new i (unstr (atom_text i (j + 1))))) as (t1 & id1 & -> & H1 & N1);
    [done|done|rewrite elem_of_nrange; lia|lia|apply Forall_forall; intros k [_ Hk]%elem_of_nrange; lia| |].
  { unfold atom_string. destruct (N.eqb_spec (j + 1) 0); [lia|done]. }
  rsimpl. exists t1. split; [done|]. split; [|done]. rewrite (nrange_snoc 0 (j + 1)) by lia. done.
Qed.

Lemma genBeliefTables_ok nc na : na + 1 < 2 ^ 32 ->
  exists sigma, genBeliefTables nc na = Ok sigma /\ N.of_nat (length sigma) = nc /\
    forall i tab, sigma !! N.to_nat i = Some tab -> holds_atoms i (nrange 0 (na + 1)) tab.
Proof.
  intros Hna. unfold genBeliefTables.
  destruct (foldM_nrange (fun k sigma => N.of_nat (length sigma) = k /\
      forall i tab, sigma !! N.to_nat i = Some tab -> holds_atoms i (nrange 0 (na + 1)) tab)
    (fun sigma_vec i => btab ← gen_belief_table (T := T) i na; mret (sigma_vec ++ [btab])) [] nc)
    as (sigma & -> & Hl & Hs); [by split| |by exists sigma].
  intros k sigma Hk [Hl Hs]. destruct (gen_belief_table_ok k na Hna) as (tab & -> & Ht). rsimpl.
  eexists. split; [done|]. split; [rewrite length_app; cbn; lia|].
  intros i tab' [Hi|[Hi Hx]]%lookup_app_Some; [by apply Hs|].
  apply list_lookup_singleton_Some in Hx as [Hx <-]. by replace i with k by lia.
Qed.

Lemma holds_only_one i js tab (p : Belief -> bool) j :
  holds_atoms i js tab -> (forall k, k ∈ js -> p (gen_atom i k) = true -> k = j) -> only_one p (container tab).
Proof.
  intros Hh Hp a b Ha Hb Ea Eb. rewrite Hh in Ha, Hb.
  apply list_elem_of_fmap in Ha as (x & -> & Hx), Hb as (y & -> & Hy). by rewrite (Hp x Hx Ea), (Hp y Hy Eb).
Qed.

Lemma find_atom i js tab (p : Belief -> bool) j :
  holds_atoms i js tab -> j ∈ js -> p (gen_atom i j) = true -> (forall k, k ∈ js -> p (gen_atom i k) = true -> k = j) ->
  idx_find p (container tab) = Some (gen_atom i j).
Proof.
  intros Hh Hj Hpj Hp. apply find_iff; [by eapply holds_only_one|]. split; [|done]. rewrite Hh. apply list_elem_of_fmap. by exists j.
Qed.

Lemma getByID_atom i js tab j id :
  holds_atoms i js tab -> j ∈ js -> isBelief id = true -> address id = j -> btab_getByID tab id = Ok (gen_atom i j).
Proof.
  intros Hh Hj Hb <-. unfold btab_getByID. rewrite Hb. change (assert true) with (Ok tt). rsimpl.
  rewrite (find_atom i js tab _ (address id)); [done|done|done|apply N.eqb_refl|]. intros k _ Hk. by apply N.eqb_eq in Hk.
Qed.

Lemma getIDByString_atom i js tab j :
  holds_atoms i js tab -> j ∈ js -> j <> 0 -> Forall (fun k => k < W64) js ->
  btab_getIDByString tab (unstr (atom_text i j)) = mk_ID (b_kind (gen_atom i j)) j.
Proof.
  intros Hh Hj H0 Hjs. rewrite Forall_forall in Hjs. unfold btab_getIDByString.
  assert (Ht : unstr (atom_text i j) = atom_string i j) by (unfold atom_string; destruct (N.eqb_spec j 0); done). rewrite Ht.
  rewrite (find_atom i js tab _ j); [done|done|done|by apply bool_decide_eq_true|].
  intros k Hk E%bool_decide_eq_true. by apply (atom_string_inj i) in E; auto.
Qed.

(** ** Signatures as text *)

Definition atom_entry (i j : N) : N * list text := (j, [atom_text i j]).

(** The atoms without epsilon, which is not written. *)
Definition nonzero (js : list N) : list N := filter (fun j => j <> 0) js.

Lemma alnum_not_sep c : is_alnum c = true -> is_sep c = false.
Proof.
  intros H. unfold is_sep, is_char. rewrite !orb_false_iff, !Ascii.eqb_neq.
  split_and!; intros ->; by vm_compute in H.
Qed.

Lemma print_atom i j : i < W64 -> j < W64 ->
  print_belief (gen_atom i j) = Ok (if j =? 0 then [] else QueryPlans.belief_text (atom_entry i j) ++ ReturnPlans.line ",").
Proof.
  intros Hi Hj. unfold print_belief, gen_atom, belief_new_at, atom_string. cbn [b_address b_text].
  destruct (N.eqb_spec j 0); [done|]. rewrite str_unstr. destruct (atom_text_word i j Hi Hj) as [Hne Hw].
  rewrite tokens_single; [|done|eapply Forall_impl; [exact Hw|apply alnum_not_sep]].
  unfold QueryPlans.belief_text, QueryPlans.names_text, ReturnPlans.line, atom_entry. cbn [fst snd mbind list_bind].
  rewrite <- !app_assoc. done.
Qed.

Lemma gen_print_ok i js tab : i < W64 -> holds_atoms i js tab -> Forall (fun j => j < W64) js ->
  exists js', js ≡ₚ js' /\
    gen_print tab = Ok (QueryPlans.signature_text (atom_entry i <$> nonzero js') ++ ReturnPlans.line ",").
Proof.
  intros Hi Hh Hjs. destruct (Permutation_map_inv _ _ Hh) as (js' & Hel & Hp). exists js'. split; [done|].
  assert (Hjs' : Forall (fun j => j < W64) js') by (by rewrite <- Hp).
  unfold gen_print, btab_getAllByAddress. rewrite Hel.
  rewrite (foldM_texts _ (fun b => if b_address b =? 0 then [] else
    (QueryPlans.belief_text (atom_entry i (b_address b)) ++ str ",") ++ [nl])).
  2: { intros b (j & -> & Hj)%list_elem_of_fmap.
       rewrite Forall_forall in Hjs'. rewrite print_atom by auto. cbn [gen_atom belief_new_at b_address].
       unfold ReturnPlans.line. by rewrite <- app_assoc. }
  rsimpl. cbn [app].
  replace (map (gen_atom i) js' ≫= _) with
    ((atom_entry i <$> nonzero js') ≫= fun b => (QueryPlans.belief_text b ++ str ",") ++ [nl]).
  2: { unfold nonzero. rewrite list_fmap_bind. clear. induction js' as [|j js IH]; [done|]. rewrite filter_cons.
       cbn [map mbind list_bind gen_atom belief_new_at b_address]. destruct (N.eqb_spec j 0) as [->|Hj].
       - rewrite decide_False by naive_solver. exact IH.
       - rewrite decide_True by done. cbn [mbind list_bind]. by rewrite IH. }
  unfold QueryPlans.signature_text, ReturnPlans.line. rewrite <- !app_assoc.
  rewrite (app_assoc [nl] (_ ≫= _)), rotate_lines, <- app_assoc. done.
Qed.

(** What [write_belief_table_to_file] writes: the entry of a context without
    its constants. *)
Definition bare_entry (is_local : bool) (c : N) (beliefs : list (N * list text)) : text :=
  QueryPlans.header_text c (str "localhost") (5000 + c) ++ str "    " ++ QueryPlans.kind_text is_local ++
  ReturnPlans.line ":" ++ QueryPlans.signature_text beliefs ++ ReturnPlans.line "," ++ ReturnPlans.line "  },".

Lemma write_table_ok (is_local : bool) c js tab : c < 2 ^ 16 -> holds_atoms c js tab -> Forall (fun j => j < W64) js ->
  exists js', js ≡ₚ js' /\
    write_belief_table_to_file tab (if is_local then "LocalSignature" else "InputSignature") c =
      Ok (bare_entry is_local c (atom_entry c <$> nonzero js')).
Proof.
  intros Hc Hh Hjs. destruct (gen_print_ok c js tab) as (js' & Hp & E); [lia|done..|].
  exists js'. split; [done|]. unfold write_belief_table_to_file. rewrite E. rsimpl.
  assert (Hport : u64_add BASE_PORT c = 5000 + c) by (unfold u64_add, BASE_PORT; by rewrite N.mod_small by lia). rewrite Hport.
  unfold bare_entry, QueryPlans.header_text, QueryPlans.kind_text. rewrite <- !app_assoc. by destruct is_local.
Qed.

(** ** Input signatures *)

Lemma context_kind c : c < 2 ^ 16 -> N.lor c MAINKIND_BELIEF = b_kind (gen_atom c 0).
Proof. intros Hc. unfold gen_atom, belief_new_at. cbn [b_kind]. by rewrite N.mod_small, N.lor_comm by done. Qed.

Lemma store_known_atom c js tab j :
  c < 2 ^ 16 -> holds_atoms c js tab -> nextAddress tab = 0 -> j ∉ js -> j < W64 -> Forall (fun k => k < W64) js ->
  exists tab', btab_storeWithID tab (gen_atom c j) (mk_ID (N.lor c MAINKIND_BELIEF) j) = Ok (tab', mk_ID (N.lor c MAINKIND_BELIEF) j) /\
    holds_atoms c (js ++ [j]) tab' /\ nextAddress tab' = 0.
Proof.
  intros Hc Hh Hn Hj Hw Hjs. destruct (insert_atom c js (container tab) j Hh Hj Hw Hjs) as (t & E & Ht).
  unfold btab_storeWithID. rewrite context_kind by done.
  assert (Hb : isBelief (mk_ID (b_kind (gen_atom c 0)) j) = true) by apply (belief_kind c j).
  rewrite Hb, bool_decide_false, Hn by apply atom_string_ne. cbn [negb N.eqb]. change (assert true) with (Ok tt). rsimpl.
  cbn [address kind]. change (mk_belief j _ _) with (gen_atom c j). rewrite E. change (assert true) with (Ok tt). rsimpl.
  eexists. split; [done|]. by split.
Qed.

Section collecting.
Context (nc na c : N) (bs : NewBeliefState) (local_sig : BeliefTable T).
Context (Hmax : nc * (na + 1) <= id_max) (Hwf : bs_wf (nc * (na + 1)) bs) (Hc : c < nc) (Hc16 : c < 2 ^ 16).
Context (Hlocal : holds_atoms c (nrange 0 (na + 1)) local_sig).
Context (last_bit : N) (Hlast : forall r, r < nc * (na + 1) -> r <= last_bit <-> r < block_start na (c + 1)).

#[local] Abbreviation e := (block_start na c).
#[local] Abbreviation E := (block_start na (c + 1)).

Lemma collect_beliefs_ok fuel : forall k js tab,
  e <= k -> k < nc * (na + 1) -> (0 < fuel)%nat -> N.of_nat (N.size_nat (bits (status_bit bs))) < N.of_nat fuel + k ->
  holds_atoms c js tab -> nextAddress tab = 0 -> (forall j, j ∈ js -> j <= k - e) ->
  exists tab', collect_beliefs fuel local_sig bs c e last_bit k tab = Ok tab' /\
    holds_atoms c (js ++ ((fun p => p - e) <$> trues E bs (k + 1))) tab'.
Proof.
  assert (HE : E = e + na + 1) by (unfold block_start; nia).
  assert (HEw : E <= nc * (na + 1)) by (unfold block_start; nia).
  assert (Hw : nc * (na + 1) < W64) by (unfold id_max in Hmax; lia).
  induction fuel as [|fuel IH]; intros k js tab He Hk Hf0 Hf Hh Hn Hjs; [lia|]. cbn [collect_beliefs].
  destruct (getNext_ok (nc * (na + 1)) bs k Hwf Hk) as (r & -> & Hr). rsimpl.
  destruct (ReturnPlans.next_in_block (nc * (na + 1)) bs Hwf Hw E last_bit HEw Hlast k r Hr)
    as [[-> ->]|(-> & Hkr & Htr & Hrn & Htrues)].
  - cbn [fmap list_fmap]. rewrite app_nil_r. by exists tab.
  - rewrite Htrues. cbn [fmap list_fmap].
    assert (HrE : r < E).
    { assert (Hin : r ∈ trues E bs (k + 1)) by (rewrite Htrues; left).
      unfold trues in Hin. apply list_elem_of_filter in Hin as [_ [_ ?]%elem_of_nrange]. done. }
    unfold id_max in Hmax. rewrite u64_sub_small, N.mod_small by lia.
    rewrite (getByID_atom c (nrange 0 (na + 1)) local_sig (r - e)); [|done|apply elem_of_nrange; lia| |done].
    2: { rewrite context_kind by done. apply (belief_kind c (r - e)). }
    rsimpl. destruct (store_known_atom c js tab (r - e)) as (tab1 & -> & H1 & N1); [done..| |lia| |].
    { intros Hin%Hjs. lia. }
    { apply Forall_forall. intros j Hj%Hjs. lia. }
    rsimpl. assert (Hst : N.testbit (bits (status_bit bs)) r = true).
    { apply not_false_is_true. rewrite <- truth_undef. congruence. }
    apply testbit_size_nat in Hst.
    destruct (IH r (js ++ [r - e]) tab1) as (tab' & -> & H'); [lia|done|lia|lia|done|done| |].
    { intros j [Hj%Hjs|Hj]%elem_of_app; [lia|]. apply list_elem_of_singleton in Hj. lia. }
    exists tab'. split; [done|]. rewrite <- app_assoc in H'. exact H'.
Qed.

End collecting.

Lemma input_signature_ok nc na c bs (sigma : list (BeliefTable T)) :
  nc * (na + 1) <= id_max -> bs_wf (nc * (na + 1)) bs -> c < nc -> c < 2 ^ 16 ->
  (exists tab, sigma !! N.to_nat c = Some tab /\ holds_atoms c (nrange 0 (na + 1)) tab) ->
  exists insig, input_signature_from_belief_state (layout nc na) sigma nc c bs = Ok insig /\
    holds_atoms c (ReturnPlans.block_ids na bs c) insig.
Proof.
  intros Hmax Hwf Hc Hc16 (tab & Hs & Ht). unfold input_signature_from_belief_state.
  rewrite (proj2 (vec_at_ok _ _ _) Hs). rsimpl. rewrite (ReturnPlans.layout_offset nc na c Hc). rsimpl.
  destruct (ReturnPlans.block_end_ok nc na Hmax bs c Hwf Hc) as (lb & -> & Hlb). rsimpl.
  destruct (collect_beliefs_ok nc na c bs tab Hmax Hwf Hc Hc16 Ht lb Hlb (S (scan_fuel bs)) (block_start na c) [] btab_new)
    as (insig & -> & Hh); [lia|unfold block_start; nia|lia|unfold scan_fuel; lia| |done| |by exists insig].
  - unfold holds_atoms. cbn. by rewrite idx_empty_elements.
  - intros j Hj. by apply not_elem_of_nil in Hj.
Qed.

(** ** Query plans *)

Lemma elem_of_map_entries {A} (m : gmap (N * N) A) k a : (k, a) ∈ map_entries m <-> m !! k = Some a.
Proof. unfold map_entries. by rewrite merge_sort_Permutation, elem_of_map_to_list. Qed.

(** The file for context [i]: its own atoms, and those of its neighbors. *)
Definition query_plan_text (i : N) (own : list N) (inputs : list (N * list N)) : text :=
  ReturnPlans.line "[" ++ bare_entry true i (atom_entry i <$> own) ++
  (inputs ≫= fun x => bare_entry false x.1 (atom_entry x.1 <$> x.2)) ++ ReturnPlans.line "]".

(** The inputs that a map of interfaces gives to context [i]. *)
Definition inputs_of (na i : N) (m : gmap (N * N) NewBeliefState) (inputs : list (N * list N)) : Prop :=
  Forall2 (fun e x => x.1 = e.1.2 /\ x.2 ≡ₚ ReturnPlans.block_ids na e.2 e.1.2)
    (filter (fun e => e.1.1 = i) (map_entries m)) inputs.

Lemma nonzero_all js : Forall (fun j => 1 <= j) js -> nonzero js = js.
Proof.
  unfold nonzero. induction 1 as [|j js Hj _ IH]; [done|]. rewrite filter_cons_True by lia. by rewrite IH.
Qed.

Lemma nonzero_nrange n : nonzero (nrange 0 (n + 1)) = nrange 1 (n + 1).
Proof.
  rewrite nrange_cons by lia. unfold nonzero. rewrite filter_cons_False by (intros H; done).
  apply nonzero_all. apply Forall_forall. intros x [? ?]%elem_of_nrange. lia.
Qed.

Lemma nonzero_block_ids na bs c : nonzero (ReturnPlans.block_ids na bs c) = ReturnPlans.block_ids na bs c.
Proof. apply nonzero_all. apply Forall_forall. intros x (? & _)%ReturnPlans.elem_of_block_ids. lia. Qed.

Lemma nonzero_perm js js' : js ≡ₚ js' -> nonzero js ≡ₚ nonzero js'.
Proof. intros H. unfold nonzero. by rewrite H. Qed.

Section plans.
Context (nc na : N) (sigma : list (BeliefTable T)) (m : gmap (N * N) NewBeliefState).
Context (Hmax : nc * (na + 1) <= id_max) (Hnc : nc <= 2 ^ 16).
Context (Hlen : N.of_nat (length sigma) = nc).
Context (Hsigma : forall i tab, sigma !! N.to_nat i = Some tab -> holds_atoms i (nrange 0 (na + 1)) tab).
Context (Hm : forall a b bs, m !! (a, b) = Some bs -> b < nc /\ bs_wf (nc * (na + 1)) bs).

Lemma table_of i : i < nc -> exists tab, sigma !! N.to_nat i = Some tab /\ holds_atoms i (nrange 0 (na + 1)) tab.
Proof. intros Hi. destruct (lookup_lt_is_Some_2 sigma (N.to_nat i)) as [tab Ht]; [lia|]. eauto. Qed.

Lemma atoms_small c : c < nc -> na < W64.
Proof. intros Hc. unfold id_max in Hmax. nia. Qed.

Lemma write_inputs_ok i (es : list (N * N * NewBeliefState)) t0 :
  Forall (fun e => e.1.2 < nc /\ bs_wf (nc * (na + 1)) e.2) es ->
  exists inputs, foldM (fun t e =>
      if e.1.1 =? i then
        insig ← input_signature_from_belief_state (layout nc na) sigma nc e.1.2 e.2;
        s ← write_belief_table_to_file insig "InputSignature" e.1.2;
        mret (t ++ s)
      else mret t) t0 es = Ok (t0 ++ (inputs ≫= fun x => bare_entry false x.1 (atom_entry x.1 <$> x.2))) /\
    Forall2 (fun e x => x.1 = e.1.2 /\ x.2 ≡ₚ ReturnPlans.block_ids na e.2 e.1.2) (filter (fun e => e.1.1 = i) es) inputs.
Proof.
  intros Hes. revert t0. induction Hes as [|[[a b] bs] es [Hb Hbs] _ IH]; intros t0.
  - exists []. cbn. rewrite app_nil_r. split; [done|constructor].
  - cbn [foldM fst snd] in *. rewrite filter_cons. cbn [fst snd]. destruct (N.eqb_spec a i) as [->|Hne].
    + rewrite decide_True by done.
      destruct (input_signature_ok nc na b bs sigma) as (insig & -> & Hin); [done..|lia|by apply table_of|]. rsimpl.
      destruct (write_table_ok false b (ReturnPlans.block_ids na bs b) insig) as (js & Hp & ->); [lia|done| |].
      { apply Forall_forall. intros a (? & ? & _)%ReturnPlans.elem_of_block_ids. pose proof (atoms_small b Hb). lia. }
      rsimpl. destruct (IH (t0 ++ bare_entry false b (atom_entry b <$> nonzero js))) as (inputs & -> & Hf).
      exists ((b, nonzero js) :: inputs). split; [cbn [mbind list_bind fst snd]; by rewrite <- app_assoc|].
      constructor; [|done]. split; [done|]. cbn [fst snd]. rewrite <- nonzero_block_ids. by apply nonzero_perm.
    + rewrite decide_False by done. apply IH.
Qed.

Lemma write_query_plan_ok i : i < nc ->
  exists own inputs, write_query_plan (layout nc na) sigma nc i m = Ok (query_plan_text i own inputs) /\
    own ≡ₚ nrange 1 (na + 1) /\ inputs_of na i m inputs.
Proof.
  intros Hi. destruct (table_of i Hi) as (tab & Ht & Hh). unfold write_query_plan.
  rewrite (proj2 (vec_at_ok _ _ _) Ht). rsimpl.
  destruct (write_table_ok true i (nrange 0 (na + 1)) tab) as (js & Hp & ->); [lia|done| |].
  { apply Forall_forall. intros a [_ ?]%elem_of_nrange. pose proof (atoms_small i Hi). unfold id_max in Hmax. nia. }
  rsimpl. destruct (write_inputs_ok i (map_entries m) []) as (inputs & -> & Hf).
  { apply Forall_forall. intros [[a b] bs] Hin%elem_of_map_entries. cbn. by apply (Hm a). }
  rsimpl. exists (nonzero js), inputs. split; [done|]. split; [|done].
  rewrite <- nonzero_nrange. symmetry. by apply nonzero_perm.
Qed.

End plans.

Lemma localhost_ok : QueryPlans.host_ok (str "localhost").
Proof. split; [done|]. split; [|done]. cbn [str String.list_ascii_of_string]. repeat (apply Forall_cons; split; [done|]). constructor. Qed.

(** The first entry of such a file has no constants: the grammar stops there. *)
Lemma query_plan_text_rejected `{Q : Qi} `{L : !QiLaws} i own inputs mgr : i < 2 ^ 16 ->
  QueryPlans.parse_query_plan (T := T) mgr (Some (query_plan_text i own inputs)) =
    Err (Thrown "Query plan parsing failed").
Proof.
  intros Hi. unfold QueryPlans.parse_query_plan, parseFile.
  apply (parseStream_fails _ _ _ (QueryPlans.with_header mgr i (str "localhost") (5000 + i))).
  unfold query_plan_text, bare_entry, QueryPlans.start, list_of. unfold ReturnPlans.line at 1. rewrite <- !app_assoc. lits.
  pose proof (fun r => QueryPlans.entry_without_constants mgr i (str "localhost") (5000 + i) true r ltac:(lia) ltac:(lia)
    localhost_ok) as H.
  texts_in H. rewrite H. done.
Qed.

End tables.

(** ** Bridge rules *)

(** A rule as it stands in the file of context [i]. *)
Definition line_of (i : N) (r : GenContexts.BridgeRule) : text * list BridgeRuleFiles.literal :=
  (atom_text i (default 0 (head (br_head r))),
   ((fun b => (false, b.1, atom_text b.1 b.2)) <$> br_pos r) ++ ((fun b => (true, b.1, atom_text b.1 b.2)) <$> br_neg r)).

Lemma line_literals i r l :
  l ∈ (line_of i r).2 -> exists b, b ∈ body_atoms r /\ l.1.2 = b.1 /\ l.2 = atom_text b.1 b.2.
Proof.
  unfold line_of, body_atoms. cbn [snd]. rewrite elem_of_app, !list_elem_of_fmap.
  intros [(b & -> & Hb)|(b & -> & Hb)]; exists b; (split; [apply elem_of_app; by auto|done]).
Qed.

Lemma literals_line i r b : b ∈ body_atoms r -> exists l, b.1 = l.1.2 /\ l ∈ (line_of i r).2.
Proof.
  unfold line_of, body_atoms. cbn [snd]. intros [Hb|Hb]%elem_of_app.
  - exists (false, b.1, atom_text b.1 b.2). split; [done|]. apply elem_of_app. left. apply list_elem_of_fmap. by exists b.
  - exists (true, b.1, atom_text b.1 b.2). split; [done|]. apply elem_of_app. right. apply list_elem_of_fmap. by exists b.
Qed.

Lemma separated_ok {A} sep (print : A -> res text) (f : A -> text) l : forall multiple : bool,
  (forall a, a ∈ l -> print a = Ok (f a)) ->
  separated sep multiple print l =
    Ok (if multiple then l ≫= (fun a => sep ++ f a)
        else match l with [] => [] | a :: l => f a ++ (l ≫= fun a => sep ++ f a) end).
Proof.
  induction l as [|a l IH]; intros multiple Hp; cbn [separated]; [by destruct multiple|].
  rewrite Hp by left. rsimpl. rewrite (IH true) by (intros b Hb; apply Hp; by right). rsimpl.
  destruct multiple; cbn [mbind list_bind app]; by rewrite <- ?app_assoc.
Qed.

Section bridge_rules.
Context {T : Type} `{I : Indexed Belief belief_conflict (≡ₚ) T} `{LI : !IndexedLaws Belief belief_conflict (≡ₚ) T}.
Context (nc na : N) (sigma : list (BeliefTable T)) (Hnc : nc <= 2 ^ 16).
Context (Hlen : N.of_nat (length sigma) = nc).
Context (Hsigma : forall i tab, sigma !! N.to_nat i = Some tab -> holds_atoms i (nrange 0 (na + 1)) tab).

Lemma atom_name_ok c a tab : c < nc -> 1 <= a -> a <= na -> sigma !! N.to_nat c = Some tab -> atom_name c a tab = Ok (atom_text c a).
Proof.
  intros Hc H1 Ha Ht. unfold atom_name. rewrite (getByID_atom c (nrange 0 (na + 1)) tab a); [|by apply Hsigma|apply elem_of_nrange; lia| |done].
  - rsimpl. unfold gen_atom, belief_new_at, atom_string. cbn [b_text]. destruct (N.eqb_spec a 0); [lia|]. by rewrite str_unstr.
  - rewrite context_kind by lia. apply (belief_kind c a).
Qed.

Lemma print_atom_ok b : b.1 < nc -> 1 <= b.2 -> b.2 <= na ->
  printPositiveBridgeRule b sigma = Ok (BridgeRuleFiles.literal_text (false, b.1, atom_text b.1 b.2)) /\
  printNegativeBridgeRule b sigma = Ok (BridgeRuleFiles.literal_text (true, b.1, atom_text b.1 b.2)).
Proof.
  intros Hc H1 Ha. unfold printNegativeBridgeRule.
  assert (E : printPositiveBridgeRule b sigma = Ok (BridgeRuleFiles.literal_text (false, b.1, atom_text b.1 b.2))).
  { unfold printPositiveBridgeRule. destruct (lookup_lt_is_Some_2 sigma (N.to_nat b.1)) as [tab Ht]; [lia|].
    rewrite (proj2 (vec_at_ok _ _ _) Ht). rsimpl. by rewrite (atom_name_ok b.1 b.2 tab). }
  rewrite E. by split.
Qed.

Lemma body_text_app ls ls' :
  BridgeRuleFiles.body_text (ls ++ ls') =
    match ls with [] => BridgeRuleFiles.body_text ls'
    | _ => BridgeRuleFiles.body_text ls ++ (ls' ≫= fun l => str ", " ++ BridgeRuleFiles.literal_text l) end.
Proof. destruct ls as [|l ls]; [done|]. cbn [app BridgeRuleFiles.body_text]. by rewrite bind_app, <- app_assoc. Qed.

Lemma visitBridgeRule_ok i r h :
  i < nc -> br_head r = [h] -> 1 <= h -> h <= na -> Forall (fun b => b.1 < nc /\ 1 <= b.2 /\ b.2 <= na) (body_atoms r) ->
  visitBridgeRule r i sigma = Ok (BridgeRuleFiles.rule_text (line_of i r) ++ [nl]).
Proof.
  intros Hi Hh H1 H2 Hb. unfold body_atoms in Hb. apply Forall_app in Hb as [Hpos Hneg]. rewrite Forall_forall in Hpos, Hneg.
  unfold visitBridgeRule. destruct (lookup_lt_is_Some_2 sigma (N.to_nat i)) as [tab Ht]; [lia|].
  rewrite (separated_ok (str "v ") _ (atom_text i)).
  2: { intros a Ha. rewrite Hh in Ha. apply list_elem_of_singleton in Ha as ->.
       rewrite (proj2 (vec_at_ok _ _ _) Ht). rsimpl. by apply atom_name_ok. }
  rewrite Hh. rsimpl.
  rewrite (separated_ok _ (fun b => printPositiveBridgeRule b sigma) (fun b => BridgeRuleFiles.literal_text (false, b.1, atom_text b.1 b.2)))
    by (intros b (? & ? & ?)%Hpos; by apply print_atom_ok).
  rsimpl.
  rewrite (separated_ok _ (fun b => printNegativeBridgeRule b sigma) (fun b => BridgeRuleFiles.literal_text (true, b.1, atom_text b.1 b.2)))
    by (intros b (? & ? & ?)%Hneg; by apply print_atom_ok).
  rsimpl. unfold BridgeRuleFiles.rule_text, line_of, ReturnPlans.line. rewrite Hh. cbn [fst snd head default mbind list_bind].
  rewrite app_nil_r, body_text_app. destruct (br_pos r) as [|b l].
  - rewrite bool_decide_true by done. cbn [negb fmap list_fmap app]. destruct (br_neg r) as [|b l]; [by rewrite <- !app_assoc|].
    cbn [fmap list_fmap BridgeRuleFiles.body_text]. rewrite list_fmap_bind. by rewrite <- !app_assoc.
  - rewrite bool_decide_false by done. cbn [negb fmap list_fmap BridgeRuleFiles.body_text]. rewrite !list_fmap_bind. by rewrite <- !app_assoc.
Qed.

Lemma write_bridge_rules_ok i rules :
  i < nc -> Forall (fun r => (exists h, br_head r = [h] /\ 1 <= h /\ h <= na) /\
    Forall (fun b => b.1 < nc /\ 1 <= b.2 /\ b.2 <= na) (body_atoms r)) rules ->
  write_bridge_rules i rules sigma = Ok (BridgeRuleFiles.rules_text (line_of i <$> rules)).
Proof.
  intros Hi Hf. rewrite Forall_forall in Hf. unfold write_bridge_rules, BridgeRuleFiles.rules_text. rewrite list_fmap_bind.
  apply (foldM_texts _ (fun r => BridgeRuleFiles.rule_text (line_of i r) ++ [nl])). intros r Hr.
  destruct (Hf r Hr) as [(h & Hh & ? & ?) Hb]. by apply (visitBridgeRule_ok i r h).
Qed.

End bridge_rules.

(** ** Entries of a return plan *)

Lemma entry_some p entries bs : ReturnPlans.entry p entries = Some bs -> (p, bs) ∈ entries.
Proof.
  unfold ReturnPlans.entry. destruct (List.find _ entries) as [[q b]|] eqn:Ef; [|done]. intros [= <-].
  apply List.find_some in Ef as [He%list_elem_of_In E%N.eqb_eq]. cbn in E. by subst q.
Qed.

Lemma entry_none p entries : ReturnPlans.entry p entries = None -> p ∉ entries.*1.
Proof.
  unfold ReturnPlans.entry. destruct (List.find _ entries) eqn:Ef; [done|]. intros _ (e & -> & He)%list_elem_of_fmap.
  apply list_elem_of_In, (List.find_none _ _ Ef) in He. by rewrite N.eqb_refl in He.
Qed.

(** ** The minimal interfaces of a generated system *)

Lemma init_minV_truth nc na minV :
  nc <> 0 -> na <> 0 -> na < 2 ^ 31 -> nc * (na + 1) <= id_max -> init_minV (layout nc na) nc na = Ok minV ->
  bs_wf (nc * (na + 1)) minV /\
  forall c a, c < nc -> a <= na -> truth minV (block_start na c + a) = DMCS_TRUE <-> a = 0 \/ c = 0.
Proof.
  intros Hnc Hna H31 Hmax. change (2 ^ 31) with 2147483648 in H31. unfold init_minV.
  destruct (ReturnPlans.epsilon_state_ok nc na Hmax) as (b0 & b1 & -> & E1 & W1 & T1). rsimpl. rewrite E1. rsimpl.
  assert (Hlast : (if 1 <? nc then o1 ← vec_at (starting_offsets (layout nc na)) 1; mret (u64_sub o1 1)
    else mret na) = Ok na).
  { destruct (N.ltb_spec 1 nc) as [H1|]; [|done]. rewrite (ReturnPlans.layout_offset nc na 1 H1). cbn [mbind res_bind].
    unfold block_start. rewrite u64_sub_small by lia. cbn. f_equal. lia. }
  rewrite Hlast. rsimpl. cbn [mbind res_bind].
  destruct (ReturnPlans.fold_puts nc na (fun minV i => set minV i DMCS_TRUE) id (nrange 1 (na + 1)) b1 W1) as (b2 & -> & W2 & T2).
  { intros p [_ Hp]%elem_of_nrange. unfold id. nia. }
  { intros b p Hb [_ Hp]%elem_of_nrange. unfold id. rewrite (set_ok (nc * (na + 1))) by (done || nia). done. }
  intros [= <-]. split; [done|]. intros c a Hc Ha. rewrite T2, list_fmap_id, T1 by done.
  destruct (decide _) as [Hin|Hin]; rewrite elem_of_nrange in Hin; unfold block_start in Hin.
  - split; [|done]. intros _. assert (c = 0) by nia. auto.
  - case_bool_decide; split; [auto..|done|]. intros [?| ->]; [done|]. lia.
Qed.

Section program.
Context (o o' : options) (ds : list N) (t : list (list N)) (g : gen).
Context (Hread : read_input o = Some o') (Hdet : deterministic (topology_type o) = true).
Context (H3 : ~ (topology_type o = MULTIPLE_RING_TOPOLOGY /\ no_contexts o = 3)).
Context (H31 : no_atoms o < 2 ^ 31) (Hmax : no_contexts o * (no_atoms o + 1) <= id_max).
Context (Hgen : generate_data o ds = Ok (t, g)).

#[local] Abbreviation nc := (no_contexts o).
#[local] Abbreviation na := (no_atoms o).

(** An atom occurs in the body of a bridge rule of context [i]. *)
Definition used_by (i c a : N) : Prop :=
  exists kb rules r, g_files g !! N.to_nat i = Some (kb, rules) /\ r ∈ rules /\ (c, a) ∈ body_atoms r.

Lemma data_facts :
  sound nc t /\ N.of_nat (length (g_files g)) = nc /\
  (forall i c a, used_by i c a -> edge t i c /\ 1 <= a /\ a <= na) /\
  (forall i c, edge t i c -> exists a, used_by i c a) /\
  (forall a b, is_Some (g_lcim g !! (a, b)) <-> edge t a b) /\
  (forall a b bs, g_lcim g !! (a, b) = Some bs -> bs_wf (nc * (na + 1)) bs /\
     forall x, x <= na -> truth bs (block_start na b + x) = DMCS_TRUE <-> x = 0 \/ used_by a b x) /\
  bs_wf (nc * (na + 1)) (g_minV g) /\
  (forall c a, c < nc -> a <= na -> truth (g_minV g) (block_start na c + a) = DMCS_TRUE <->
     a = 0 \/ c = 0 \/ exists i, used_by i c a).
Proof.
  destruct (accepted_options o o' Hread H3 H31 Hmax) as (Hnc & Hna & _).
  destruct (generate_data_spec o o' Hread Hdet H3 H31 Hmax ds t g Hgen) as (Hs & _ & _ & ifaces & minV0 & Hif & Hmin & [Gf Gr Gk Gl [Gw Gm]] & _).
  destruct (init_minV_truth nc na minV0 Hnc Hna H31 Hmax Hmin) as [_ Tmin]. pose proof Hs as [Hlen Hrange Hnodup _].
  assert (Hused : forall i c a, used_by i c a -> edge t i c /\ 1 <= a /\ a <= na).
  { intros i c a (kb & rules & r & Hf & Hr & Ha). destruct (Gr i kb rules Hf) as (_ & nbors & Hn & [Hform _ _]).
    rewrite Forall_forall in Hform. destruct (Hform r Hr) as [_ (n & _ & _ & _ & _ & Hat)]. rewrite Forall_forall in Hat.
    destruct (Hat _ Ha) as (Hc & f & Hfc & Hin). cbn [fst snd] in *. split; [by exists nbors|].
    rewrite Forall_forall in Hif. destruct (Hif f) as (_ & _ & Hrg); [by eapply list_elem_of_lookup_2|].
    rewrite Forall_forall in Hrg. by apply Hrg. }
  split; [done|]. split; [done|]. split; [done|]. split; [|split; [|split; [|split; [done|]]]].
  - intros i c (row & Hrow & Hc).
    destruct (lookup_lt_is_Some_2 (g_files g) (N.to_nat i)) as [[kb rules] Hf]; [apply lookup_lt_Some in Hrow; lia|].
    destruct (Gr i kb rules Hf) as (_ & nbors & Hn & [_ _ Hcov]). assert (nbors = row) by congruence. subst nbors.
    apply Hcov in Hc as (r & a & Hr & Ha). exists a. by exists kb, rules, r.
  - intros a b. rewrite Gk. split; [tauto|]. intros He. split; [|done]. by apply (Hrange a b).
  - intros a b bs Hb. destruct (Gl a b bs Hb) as (kb & rules & Hf & Hw & Ht). split; [done|]. intros x Hx. rewrite Ht. split.
    + intros [?|(r & y & Hr & Hy & E)]; [left; lia|]. right. exists kb, rules, r. replace x with y by lia. done.
    + intros [->|(kb' & rules' & r & Hf' & Hr & Hx')]; [left; lia|]. right. exists r, x. rewrite Hf in Hf'.
      injection Hf' as <- <-. done.
  - intros c a Hc Ha. rewrite Gm, Tmin by done. split.
    + intros [[?|?]|(i & kb & rules & r & [c' a'] & Hf & Hr & Hin & E)]; [tauto..|]. right. right.
      exists (N.of_nat i). exists kb, rules, r. rewrite Nat2N.id. split_and!; [done..|].
      assert (Hu : used_by (N.of_nat i) c' a') by (exists kb, rules, r; by rewrite Nat2N.id).
      destruct (Hused _ _ _ Hu) as (_ & ? & ?). unfold atom_pos, block_start in E. cbn [fst snd] in E.
      assert (c = c') by nia. subst c'. by replace a with a' by lia.
    + intros [?|[?|(i & kb & rules & r & Hf & Hr & Hin)]]; [tauto..|]. right. exists (N.to_nat i), kb, rules, r, (c, a). done.
Qed.

Lemma inputs_facts i inputs : inputs_of na i (g_lcim g) inputs ->
  (forall b, b ∈ inputs.*1 <-> edge t i b) /\ forall b js a, (b, js) ∈ inputs -> a ∈ js <-> used_by i b a.
Proof.
  destruct data_facts as (_ & _ & Hused & _ & Hkeys & Hl & _). unfold inputs_of. intros Hf.
  assert (Hin : forall b js, (b, js) ∈ inputs ->
    exists bs, g_lcim g !! (i, b) = Some bs /\ js ≡ₚ ReturnPlans.block_ids na bs b).
  { intros b js Hin. apply list_elem_of_lookup in Hin as [k Hk].
    destruct (Forall2_lookup_r _ _ _ _ _ Hf Hk) as ([[a b'] bs] & He & Hb & Hp). cbn [fst snd] in *. subst b'.
    apply list_elem_of_lookup_2, list_elem_of_filter in He as [<- He]. rewrite elem_of_map_entries in He. eauto. }
  split.
  - intros b. rewrite <- Hkeys. split.
    + intros ([b' js] & -> & (bs & Hb & _)%Hin)%list_elem_of_fmap. by eexists.
    + intros [bs Hb]. assert (He : (i, b, bs) ∈ filter (fun e => e.1.1 = i) (map_entries (g_lcim g))).
      { apply list_elem_of_filter. split; [done|]. by apply elem_of_map_entries. }
      apply list_elem_of_lookup in He as [k Hk]. destruct (Forall2_lookup_l _ _ _ _ _ Hf Hk) as (x & Hx & E & _).
      apply list_elem_of_fmap. exists x. split; [by rewrite E|]. by eapply list_elem_of_lookup_2.
  - intros b js a (bs & Hb & Hp)%Hin. destruct (Hl i b bs Hb) as [_ Ht]. rewrite Hp, ReturnPlans.elem_of_block_ids. split.
    + intros (? & Ha & [?|?]%(Ht a Ha)); [lia|done].
    + intros Hu. destruct (Hused _ _ _ Hu) as (_ & ? & ?). split_and!; [done..|]. apply Ht; [done|]. by right.
Qed.

(** C18. For every context of a system with a topology without random edges
    (other than the multiple ring of three contexts) the generator writes a
    query plan (the file .qp) with the atoms of the context and, for exactly its neighbors, the
    atoms that its bridge rules use; the grammar of the server rejects every one of these
    files, because their entries have no constants. *)
Theorem generated_query_plans {T} `{LI : IndexedLaws Belief belief_conflict (≡ₚ) T} `{LK : TokenizerLaws} `{L : QiLaws} i :
  nc <= 2 ^ 16 -> i < nc ->
  exists (sigma : list (BeliefTable T)) own inputs, genBeliefTables nc na = Ok sigma /\
    write_query_plan (layout nc na) sigma nc i (g_lcim g) = Ok (query_plan_text i own inputs) /\
    own ≡ₚ nrange 1 (na + 1) /\ (forall b, b ∈ inputs.*1 <-> edge t i b) /\
    (forall b js a, (b, js) ∈ inputs -> a ∈ js <-> used_by i b a) /\
    forall mgr, QueryPlans.parse_query_plan (T := T) mgr (Some (query_plan_text i own inputs)) =
      Err (Thrown "Query plan parsing failed").
Proof.
  intros Hnc Hi. destruct data_facts as ([_ Hrange _ _] & _ & _ & _ & Hkeys & Hl & _).
  destruct (genBeliefTables_ok (T := T) nc na) as (sigma & Es & Hlen & Hs); [lia|].
  destruct (write_query_plan_ok nc na sigma (g_lcim g) Hmax Hnc Hlen Hs) with (i := i) as (own & inputs & E & Ho & Hin); [|done|].
  { intros a b bs Hb. split; [|by apply (Hl a b)]. apply (Hrange a b), Hkeys. by eexists. }
  destruct (inputs_facts i inputs Hin). exists sigma, own, inputs. split_and!; [done..|].
  intros mgr. apply query_plan_text_rejected. lia.
Qed.

Lemma return_entries_parents i p : i < nc ->
  p ∈ (return_entries i (g_minV g) (g_lcim g)).*1 <-> edge t p i \/ (i = 0 /\ p = client_id).
Proof.
  destruct data_facts as (_ & _ & _ & _ & Hkeys & _). intros Hi. unfold return_entries. rewrite fmap_app, elem_of_app.
  assert (He : p ∈ ((fun e : N * N * NewBeliefState => (e.1.1, g_minV g)) <$> filter (fun e => e.1.2 = i) (map_entries (g_lcim g))).*1 <-> edge t p i).
  { rewrite <- Hkeys, <- list_fmap_compose, list_elem_of_fmap. split.
    - intros ([[a b] bs] & -> & [<- Hin%elem_of_map_entries]%list_elem_of_filter). by eexists.
    - intros [bs Hb]. exists (p, i, bs). split; [done|]. apply list_elem_of_filter. split; [done|]. by apply elem_of_map_entries. }
  rewrite He. destruct (N.eqb_spec i 0) as [->|Hne]; cbn.
  - rewrite list_elem_of_singleton. tauto.
  - rewrite elem_of_nil. tauto.
Qed.

Lemma return_entries_state i e : e ∈ return_entries i (g_minV g) (g_lcim g) -> e.2 = g_minV g.
Proof.
  unfold return_entries. intros [Hin|(e' & -> & _)%list_elem_of_fmap]%elem_of_app; [|done].
  destruct (i =? 0); [by apply list_elem_of_singleton in Hin as ->|by apply elem_of_nil in Hin].
Qed.

(** Every context is asked for a belief: the root has its own, the others are
    a neighbor of some context. *)
Lemma block_nonempty c : c < nc -> ReturnPlans.block_ids na (g_minV g) c <> [].
Proof.
  intros Hc. destruct (accepted_options o o' Hread H3 H31 Hmax) as (_ & Hna & _).
  destruct data_facts as ([_ Hrange _ Hreach] & _ & Hused & Hcover & _ & _ & _ & Hmin).
  assert (Hex : exists a, 1 <= a /\ a <= na /\ (c = 0 \/ exists i, used_by i c a)).
  { destruct (N.eq_dec c 0) as [->|Hne]; [exists 1; split_and!; [lia|lia|by left]|].
    destruct (rtc_inv_r _ _ (Hreach c Hc)) as [?|(p & _ & He)]; [congruence|].
    destruct (Hcover p c He) as (a & Hu). exists a. destruct (Hused _ _ _ Hu) as (_ & ? & ?). split_and!; [done..|]. right. by exists p. }
  destruct Hex as (a & H1 & Ha & Hu). intros E.
  assert (Hin : a ∈ ReturnPlans.block_ids na (g_minV g) c); [|rewrite E in Hin; by apply elem_of_nil in Hin].
  apply ReturnPlans.elem_of_block_ids. split_and!; [done..|]. apply Hmin; tauto.
Qed.

(** C16. The return plan (the file .rp, not the optimised .orp) that the
    generator writes for a context of a system with a topology without random
    edges (other than the multiple ring of three contexts) is accepted by the grammar of the server.  It has an entry for
    exactly the parents of the context, and for the client if the context is
    the root; each entry asks for the atoms that some bridge rule uses, the
    atoms of the root and the epsilons, nothing else. *)
Theorem generated_return_plans `{L : QiLaws} i :
  nc <= 2 ^ 16 -> i < nc ->
  exists txt mgr m, ReturnPlans.write_return_plan (layout nc na) nc (return_entries i (g_minV g) (g_lcim g)) = Ok txt /\
    ReturnPlans.parse_return_plan (layout nc na) (Some txt) = Ok (mgr, Some m) /\
    (forall p, is_Some (m !! p) <-> edge t p i \/ (i = 0 /\ p = client_id)) /\
    forall p bs c a, m !! p = Some bs -> c < nc -> a <= na ->
      truth bs (block_start na c + a) = DMCS_TRUE <-> a = 0 \/ c = 0 \/ exists j, used_by j c a.
Proof.
  intros Hnc Hi. destruct data_facts as ([_ Hrange _ Hreach] & _ & _ & _ & Hkeys & _ & Hwf & Hmin).
  set (entries := return_entries i (g_minV g) (g_lcim g)).
  assert (Hne : entries <> []).
  { assert (Hp : exists p, edge t p i \/ (i = 0 /\ p = client_id)).
    { destruct (N.eq_dec i 0) as [->|]; [by exists client_id; right|].
      destruct (rtc_inv_r _ _ (Hreach i Hi)) as [?|(p & _ & He)]; [congruence|]. exists p. by left. }
    destruct Hp as [p Hp%return_entries_parents]; [|done]. fold entries in Hp. intros E. rewrite E in Hp. by apply elem_of_nil in Hp. }
  assert (Hst : forall e, e ∈ entries -> e.2 = g_minV g) by apply return_entries_state.
  assert (Hwfs : Forall (fun e => bs_wf (nc * (na + 1)) e.2) entries).
  { apply Forall_forall. intros e He. by rewrite Hst. }
  destruct (ReturnPlans.return_plan_roundtrip nc na entries) with
    (t := str "[" ++ (entries ≫= fun e => [nl] ++ ReturnPlans.plan_text (e.1, ReturnPlans.written nc na e.2) ++ str ",") ++
            [nl] ++ ReturnPlans.line "]") as (mgr & m & E & Hm); [done|done| |by apply ReturnPlans.write_return_plan_ok|].
  { apply Forall_forall. intros e He. rewrite (Hst e He). split_and!; [|done| |].
    - assert (Hp : e.1 ∈ entries.*1) by (apply list_elem_of_fmap; by exists e).
      apply return_entries_parents in Hp as [Hp|[_ ->]]; [|done|done]. destruct (Hrange _ _ Hp). lia.
    - unfold ReturnPlans.written. intros E%fmap_nil_inv.
      assert (H0 : 0 ∈ filter (fun c => truth (g_minV g) (block_start na c) = DMCS_TRUE) (nrange 0 nc));
        [|rewrite E in H0; by apply elem_of_nil in H0].
      apply list_elem_of_filter. rewrite elem_of_nrange. split; [|lia]. rewrite <- (N.add_0_r (block_start na 0)).
      apply Hmin; [lia|lia|by left].
    - intros c Hc _. by apply block_nonempty. }
  exists (str "[" ++ (entries ≫= fun e => [nl] ++ ReturnPlans.plan_text (e.1, ReturnPlans.written nc na e.2) ++ str ",") ++
            [nl] ++ ReturnPlans.line "]"), mgr, m.
  split; [by apply ReturnPlans.write_return_plan_ok|]. split; [done|].
  split.
  - intros p. rewrite <- return_entries_parents by done. fold entries. specialize (Hm p).
    destruct (ReturnPlans.entry p entries) as [bs|] eqn:Ee.
    + destruct Hm as (bs' & -> & _). apply entry_some in Ee. split; [intros _|by eexists]. apply list_elem_of_fmap. by exists (p, bs).
    + rewrite Hm. apply entry_none in Ee. split; [by intros [? [=]]|done].
  - intros p bs c a Hp Hc Ha. specialize (Hm p). destruct (ReturnPlans.entry p entries) as [b|] eqn:Ee; [|congruence].
    destruct Hm as (bs' & Hp' & _ & Hr). assert (bs' = bs) by congruence. subst bs'.
    apply entry_some, Hst in Ee. cbn in Ee. subst b. rewrite Hr by done.
    pose proof (Hmin c 0 Hc ltac:(lia)) as He. rewrite N.add_0_r in He. rewrite <- Hmin by done.
    case_bool_decide as Hb; split; try done; intros Ht; [|exfalso; apply Hb; right; split; [by apply He; left|done]].
    destruct Hb as [->|[_ ?]]; [|done]. apply Hmin; [done|lia|by left].
Qed.

Lemma used_facts i c a : used_by i c a -> edge t i c /\ c < nc /\ 1 <= a /\ a <= na.
Proof.
  destruct data_facts as ([_ Hrange _ _] & _ & Hused & _). intros Hu. destruct (Hused i c a Hu) as (He & ? & ?).
  destruct (Hrange _ _ He). done.
Qed.

Lemma rule_facts i kb rules r : g_files g !! N.to_nat i = Some (kb, rules) -> r ∈ rules ->
  (exists h, br_head r = [h] /\ 1 <= h /\ h <= na) /\ body_atoms r <> [] /\ forall x, x ∈ body_atoms r -> used_by i x.1 x.2.
Proof.
  intros Hf Hr.
  destruct (generate_data_spec o o' Hread Hdet H3 H31 Hmax ds t g Hgen) as (_ & _ & _ & ifaces & minV0 & _ & _ & [_ Gr _ _ _] & _).
  destruct (Gr i kb rules Hf) as (_ & nbors & _ & [Hform _ _]). rewrite Forall_forall in Hform.
  destruct (Hform r Hr) as [Hh (n & H1 & _ & _ & Hl & _)]. split; [done|]. split.
  - intros E. rewrite E in Hl. cbn in Hl. lia.
  - intros [c a] Hx. by exists kb, rules, r.
Qed.

Section servers.
Context {T : Type} `{I : Indexed Belief belief_conflict (≡ₚ) T} `{LI : !IndexedLaws Belief belief_conflict (≡ₚ) T}.
Context (plan : gmap N (QueryPlans.ContextQueryPlan T)) (i : N).

(** The query plan of context [i] knows the atoms that its bridge rules use. *)
Definition plan_covers : Prop :=
  forall c a, used_by i c a -> exists sig js, BridgeRuleFiles.signature_of plan i c = Some sig /\ holds_atoms c js sig /\
    a ∈ js /\ Forall (fun k => k < W64) js.

Lemma lines_known kb rules :
  plan_covers -> nc <= 2 ^ 16 -> i < nc -> g_files g !! N.to_nat i = Some (kb, rules) ->
  Forall (fun r => BridgeRuleFiles.rule_readable r /\ Forall (BridgeRuleFiles.known plan i) r.2) (line_of i <$> rules).
Proof.
  intros Hp Hnc Hi Hf. apply Forall_forall. intros x (r & -> & Hr)%list_elem_of_fmap.
  destruct (rule_facts i kb rules r Hf Hr) as ((h & Hh & H1 & H2) & Hne & Hb). change (2 ^ 31) with 2147483648 in H31.
  split; [split_and!|].
  - unfold line_of. cbn [fst]. rewrite Hh. apply atom_text_word; cbn; lia.
  - intros E. apply Hne. unfold line_of, body_atoms in *. cbn [snd] in E. apply app_nil in E as [E1%fmap_nil_inv E2%fmap_nil_inv].
    by rewrite E1, E2.
  - apply Forall_forall. intros l (b & Hb' & -> & ->)%line_literals. apply Hb, used_facts in Hb' as (_ & ? & ? & ?).
    split; [lia|]. apply atom_text_word; lia.
  - apply Forall_forall. intros l (b & Hb' & El & Et)%line_literals. unfold BridgeRuleFiles.known. rewrite El, Et.
    pose proof (Hb b Hb') as Hu. destruct (Hp _ _ Hu) as (sig & js & Hs & Hh' & Hin & Hjs). exists sig. split; [done|].
    apply used_facts in Hu as (_ & _ & ? & _). rewrite (getIDByString_atom b.1 js sig b.2) by (done || lia). apply belief_kind.
Qed.

Lemma lines_others kb rules c :
  g_files g !! N.to_nat i = Some (kb, rules) ->
  c ∈ (line_of i <$> rules) ≫= (fun r => BridgeRuleFiles.others i r.2) <-> edge t i c /\ c <> i.
Proof.
  intros Hf. rewrite list_fmap_bind, list_elem_of_bind. unfold compose, BridgeRuleFiles.others. setoid_rewrite list_elem_of_filter.
  setoid_rewrite list_elem_of_fmap. split.
  - intros (r & (Hne & l & -> & (b & Hb & El & _)%line_literals) & Hr). split; [|done]. rewrite El.
    destruct (rule_facts i kb rules r Hf Hr) as (_ & _ & Hu). by apply Hu, used_facts in Hb as [? _].
  - intros [He Hne]. destruct data_facts as (_ & _ & _ & Hcover & _). destruct (Hcover i c He) as (a & kb' & rules' & r & Hf' & Hr & Ha).
    rewrite Hf in Hf'. injection Hf' as <- <-. exists r. split; [|done]. split; [done|].
    destruct (literals_line i r (c, a) Ha) as (l & Hl & El). by exists l.
Qed.

(** C15. The file of bridge rules that the generator writes for a context of a
    system with a topology without random edges (other than the multiple ring
    of three contexts) is read by a server whose query plan has the context and
    all atoms in the rules, provided that the rules, translated by the plan, are
    pairwise distinct; a repeated rule aborts ([repeated_rule_aborts]).  The table holds the generated rules in their order, and the
    neighbors are exactly the other contexts to which the context has an edge
    in the generated topology, once each. *)
Theorem generated_bridge_rules {R} `{LR : IndexedLaws Tables.BridgeRule rule_conflict (=) R} `{L : QiLaws} kb rules own q :
  nc <= 2 ^ 16 -> i < nc -> g_files g !! N.to_nat i = Some (kb, rules) ->
  plan !! i = Some q -> QueryPlans.localSignature q = Some own -> plan_covers ->
  NoDup (BridgeRuleFiles.translated plan i own <$> (line_of i <$> rules)) ->
  exists (sigma : list (BeliefTable T)) txt mgr tab ns, genBeliefTables nc na = Ok sigma /\
    write_bridge_rules i rules sigma = Ok txt /\
    BridgeRuleFiles.parse_bridge_rules plan i (Some txt) = Ok (mgr, (tab, ns)) /\
    rtab_getAllByAddress (T := R) tab = BridgeRuleFiles.translated plan i own <$> (line_of i <$> rules) /\
    NoDup (Joiner.neighbor_id <$> ns) /\
    forall c, c ∈ Joiner.neighbor_id <$> ns <-> edge t i c /\ c <> i.
Proof.
  intros Hnc Hi Hf Hq Hown Hp Hnd. destruct (genBeliefTables_ok (T := T) nc na) as (sigma & Es & Hlen & Hs); [lia|].
  destruct (BridgeRuleFiles.bridge_rules_read plan i own q (line_of i <$> rules)) as (mgr & tab & E & Htab);
    [done|done|by eapply lines_known|done|].
  eexists sigma, _, mgr, tab, _. split; [done|]. split; [|split; [exact E|]].
  - apply (write_bridge_rules_ok nc na sigma Hnc Hlen Hs i rules Hi). apply Forall_forall. intros r Hr.
    destruct (rule_facts i kb rules r Hf Hr) as (Hh & _ & Hb). split; [done|]. apply Forall_forall. intros b Hb'.
    by apply Hb, used_facts in Hb' as (_ & ? & ? & ?).
  - split; [done|]. rewrite BridgeRuleFiles.neighbor_ids. split; [apply BridgeRuleFiles.firsts_NoDup|].
    intros c. rewrite BridgeRuleFiles.elem_of_firsts. by apply (lines_others kb).
Qed.

End servers.

End program.

(** ** A small system: two contexts with two atoms on a ring *)

Definition tiny_data : list (list N) * gen :=
  match generate_data tiny_options tiny_draws with Ok d => d | Err _ => ([], mk_gstate [] ∅ ReturnPlans.sample_state []) end.

Definition tiny_read : options := mk_options false 2 2 1 2 4 "student" "build" 4 0.

Lemma tiny_generated : generate_data tiny_options tiny_draws = Ok (tiny_data.1, tiny_data.2).
Proof. vm_compute. reflexivity. Qed.

Lemma generated_query_plans_witness :
  exists (sigma : list (BeliefTable (list Belief))) own inputs, genBeliefTables 2 2 = Ok sigma /\
    write_query_plan (layout 2 2) sigma 2 0 (g_lcim tiny_data.2) = Ok (query_plan_text 0 own inputs) /\
    own ≡ₚ nrange 1 3 /\ (forall b, b ∈ inputs.*1 <-> edge tiny_data.1 0 b) /\
    (forall b js a, (b, js) ∈ inputs -> a ∈ js <-> used_by tiny_data.2 0 b a) /\
    forall mgr, QueryPlans.parse_query_plan (T := list Belief) (Q := qi_functions) mgr (Some (query_plan_text 0 own inputs)) =
      Err (Thrown "Query plan parsing failed").
Proof.
  apply (generated_query_plans tiny_options tiny_read tiny_draws tiny_data.1 tiny_data.2);
    [reflexivity|reflexivity|intros [[=] _]|reflexivity|by vm_compute|exact tiny_generated|apply _|apply _|apply _|by vm_compute|reflexivity].
Defined.

Lemma generated_return_plans_witness :
  exists txt mgr m, ReturnPlans.write_return_plan (layout 2 2) 2 (return_entries 0 (g_minV tiny_data.2) (g_lcim tiny_data.2)) = Ok txt /\
    ReturnPlans.parse_return_plan (Q := qi_functions) (layout 2 2) (Some txt) = Ok (mgr, Some m) /\
    (forall p, is_Some (m !! p) <-> edge tiny_data.1 p 0 \/ (0 = 0 /\ p = client_id)) /\
    forall p bs c a, m !! p = Some bs -> c < 2 -> a <= 2 ->
      truth bs (block_start 2 c + a) = DMCS_TRUE <-> a = 0 \/ c = 0 \/ exists j, used_by tiny_data.2 j c a.
Proof.
  apply (generated_return_plans tiny_options tiny_read tiny_draws tiny_data.1 tiny_data.2);
    [reflexivity|reflexivity|intros [[=] _]|reflexivity|by vm_compute|exact tiny_generated|apply _|by vm_compute|reflexivity].
Defined.

(** The plan of context 0, with the tables of both contexts. *)
Definition tiny_table (c : N) : BeliefTable (list Belief) := mk_btab [gen_atom c 0; gen_atom c 1; gen_atom c 2] 3.

Definition tiny_plan : gmap N (QueryPlans.ContextQueryPlan (list Belief)) :=
  let entry c l i := (c, QueryPlans.mk_plan c (str "localhost") (5000 + Z.of_N c) None None None None l i) in
  list_to_map [entry 0 (Some (tiny_table 0)) None; entry 1 None (Some (tiny_table 1))].

Definition tiny_file : list Rule * list GenContexts.BridgeRule := default ([], []) (g_files tiny_data.2 !! 0%nat).

Lemma tiny_covered : plan_covers tiny_data.2 tiny_plan 0.
Proof.
  intros c a Hu.
  apply (used_facts tiny_options tiny_read tiny_draws tiny_data.1 tiny_data.2) in Hu as (_ & Hc & H1 & H2);
    [|reflexivity|reflexivity|intros [[=] _]|reflexivity|by vm_compute|exact tiny_generated].
  change (no_contexts tiny_options) with 2 in Hc. change (no_atoms tiny_options) with 2 in H2.
  exists (tiny_table c), [0; 1; 2]. assert (a = 1 \/ a = 2) as Ha by lia. split_and!.
  - assert (c = 0 \/ c = 1) as [-> | ->] by lia; reflexivity.
  - unfold holds_atoms. reflexivity.
  - destruct Ha as [-> | ->]; by repeat constructor.
  - by repeat constructor.
Qed.

Lemma generated_bridge_rules_witness :
  exists (sigma : list (BeliefTable (list Belief))) txt mgr tab ns, genBeliefTables 2 2 = Ok sigma /\
    write_bridge_rules 0 tiny_file.2 sigma = Ok txt /\
    BridgeRuleFiles.parse_bridge_rules (Q := qi_functions) tiny_plan 0 (Some txt) = Ok (mgr, (tab, ns)) /\
    rtab_getAllByAddress (T := list Tables.BridgeRule) tab =
      BridgeRuleFiles.translated tiny_plan 0 (tiny_table 0) <$> (line_of 0 <$> tiny_file.2) /\
    NoDup (Joiner.neighbor_id <$> ns) /\
    forall c, c ∈ Joiner.neighbor_id <$> ns <-> edge tiny_data.1 0 c /\ c <> 0.
Proof.
  eapply (generated_bridge_rules tiny_options tiny_read tiny_draws tiny_data.1 tiny_data.2 _ _ _ _ _ _ tiny_plan 0 tiny_file.1);
    [by vm_compute|reflexivity|vm_compute; reflexivity|reflexivity|reflexivity|exact tiny_covered|].
  apply (bool_decide_unpack _). vm_compute. done.
  Unshelve. all: [> reflexivity|reflexivity|intros [[=] _]|reflexivity|by vm_compute|exact tiny_generated].
Defined.

End SystemFiles.
