(* ===== verification/ServerSetup.v ===== *)
(** * Setting up a server from its files

    [main] of src/new_dmcsd.cpp up to the creation of the context: the check of
    the options, the plans and bridge rules that are read, and the division of
    the neighbors into those the context asks (physical) and those whose
    beliefs its cycle breaker guesses.

    Both query plans are read by one parser, which keeps its map from one file to the next
    ([QueryPlans]). *)

From stdpp Require Import sorting.
From S2P Require Import Prelude BitMagic BeliefState BeliefStateOffset Ident Tables Joiner Spirit Parsing.
From S2P Require Import ReturnPlans Topologies OptTopologies GenContexts QueryPlans PlanFiles BridgeRuleFiles.
Import BeliefState BeliefStateOffset Ident Tables Spirit Parsing.

Module ServerSetup.

(** The options that [main] looks at. *)
Record options := mk_options {
  help : bool;
  myid : N;
  myport : Z;
  system_size : N;
  bs_size : N;
  manager : text;
  filename_local_kb : text;
  filename_bridge_rules : text;
  filename_query_plan : text;
  filename_opt_query_plan : text;
  filename_return_plan : text;
}.

Definition is_empty (t : text) : bool := match t with [] => true | _ => false end.

(** What has to be given. *)
Definition options_complete (o : options) : bool :=
  negb ((myport o =? 0)%Z || (system_size o =? 0) || (bs_size o =? 0) || is_empty (filename_local_kb o) ||
        is_empty (filename_bridge_rules o) || is_empty (filename_query_plan o) || is_empty (filename_return_plan o) ||
        is_empty (manager o)).

(** [find_last_of(":")] and the two parts. *)
Fixpoint split_manager (t : text) : option (text * text) :=
  match t with
  | [] => None
  | c :: t =>
      match split_manager t with
      | Some (host, port) => Some (c :: host, port)
      | None => if is_char ":" c then Some ([], t) else None
      end
  end.

Section setup.
Context {T : Type} `{I : Indexed Belief belief_conflict (≡ₚ) T}.
Context {R : Type} `{IR : Indexed Tables.BridgeRule rule_conflict (=) R}.

#[local] Abbreviation plan := (QueryPlans.ContextQueryPlan T).
#[local] Abbreviation NewNeighbor := Joiner.NewNeighbor.

(** ** Physical and guessing neighbors *)

(** The entries of a [std::map] in the order of their keys. *)
Definition key_le (x y : N * plan) : Prop := x.1 <= y.1.

#[export] Instance key_le_dec : RelDecision key_le.
Proof. intros x y. unfold key_le. apply _. Defined.

Definition plan_entries (m : gmap N plan) : list (N * plan) := merge_sort key_le (map_to_list m).

(** The first neighbor with an id, and the others. *)
Fixpoint take_neighbor (id : N) (ns : list NewNeighbor) : option (NewNeighbor * list NewNeighbor) :=
  match ns with
  | [] => None
  | n :: ns =>
      if Joiner.neighbor_id n =? id then Some (n, ns)
      else (fun r => (r.1, n :: r.2)) <$> take_neighbor id ns
  end.

Definition divide_step (acc : list NewNeighbor * list NewNeighbor) (it : N * plan) : list NewNeighbor * list NewNeighbor :=
  match QueryPlans.groundInputSignature it.2 with
  | Some _ =>
      match take_neighbor it.1 acc.2 with
      | Some (n, rest) => (acc.1 ++ [n], rest)
      | None => acc
      end
  | None => acc
  end.

Definition divide (opt : gmap N plan) (ns : list NewNeighbor) : list NewNeighbor * list NewNeighbor :=
  fold_left divide_step (plan_entries opt) ([], ns).

Definition set_offset (k : N) (n : NewNeighbor) : NewNeighbor :=
  Joiner.mk_neighbor (Joiner.neighbor_id n) k (Joiner.hostname n) (Joiner.port n).

(** Offsets are assigned from [k] on. *)
Definition reassign (k : N) (ns : list NewNeighbor) : list NewNeighbor :=
  imap (fun i n => set_offset ((k + N.of_nat i) mod 2 ^ 64) n) ns.

(** Without an optimised plan there is no vector of guessing neighbors. *)
Definition split_neighbors (opt : option (gmap N plan)) (ns : list NewNeighbor)
    : list NewNeighbor * option (list NewNeighbor) :=
  match opt with
  | Some m =>
      let '(physical, guessing) := divide m ns in
      (reassign 0 physical, Some (reassign (N.of_nat (length physical)) guessing))
  | None => (ns, None)
  end.

(** ** [main] *)

Record setup := mk_setup {
  s_offsets : Offsets;
  s_manager : text * text;
  s_return_plan : option (gmap N NewBeliefState);
  s_queryplan : gmap N plan;
  s_localSignature : option (BeliefTable T);
  s_bridge_rules : R;
  s_physical : list NewNeighbor;
  s_guessing : option (list NewNeighbor);
}.

Context `{Q : Qi}.

(** A pointer to a plan map is followed when it is used. *)
Definition follow (mgr : QueryPlans.semantics (T := T)) (p : option positive) : res (gmap N plan) :=
  l ← not_null p; not_null (QueryPlans.maps mgr !! l).

(** The files are looked up by their names; [None] as the answer says that
    the usage is printed. *)
Definition main (fs : text -> option text) (o : options) : res (option setup) :=
  if help o || negb (options_complete o) then mret None
  else
    bso ← ctor (system_size o) (bs_size o);
    match split_manager (manager o) with
    | None => mret None
    | Some mg =>
        '(_, return_plan) ← ReturnPlans.parse_return_plan bso (fs (filename_return_plan o));
        '(mgr, opt_queryplan_map) ←
          (if is_empty (filename_opt_query_plan o) then mret (QueryPlans.sem_new, None)
           else QueryPlans.parse_query_plan QueryPlans.sem_new (fs (filename_opt_query_plan o)));
        '(mgr, queryplan_map) ← QueryPlans.parse_query_plan mgr (fs (filename_query_plan o));
        qpm ← follow mgr queryplan_map;
        local_queryplan ← not_null (qpm !! myid o);
        '(_, (bridge_rules, neighbors)) ← BridgeRuleFiles.parse_bridge_rules qpm (myid o) (fs (filename_bridge_rules o));
        opt ← (match opt_queryplan_map with
               | None => mret None
               | Some _ => m ← follow mgr opt_queryplan_map; mret (Some m)
               end);
        let '(physical, guessing) := split_neighbors opt neighbors in
        mret (Some (mk_setup bso mg return_plan qpm (QueryPlans.localSignature local_queryplan) bridge_rules physical guessing))
    end.

End setup.

(** ** How the neighbors are divided *)

Section dividing.
Context {T : Type}.
#[local] Abbreviation plan := (QueryPlans.ContextQueryPlan T).
#[local] Abbreviation NewNeighbor := Joiner.NewNeighbor.
#[local] Abbreviation ids := (fmap (M := list) Joiner.neighbor_id).

Definition has_input (q : plan) : bool := match QueryPlans.groundInputSignature q with Some _ => true | None => false end.

(** The plan has an input signature for a context. *)
Definition planned (m : gmap N plan) (c : N) : bool := match m !! c with Some q => has_input q | None => false end.

Definition input_ids (es : list (N * plan)) : list N := (filter (fun e => has_input e.2 = true) es).*1.

Definition pick (ns : list NewNeighbor) (id : N) : option NewNeighbor := List.find (fun n => Joiner.neighbor_id n =? id) ns.

Lemma pick_some ns id n : pick ns id = Some n -> n ∈ ns /\ Joiner.neighbor_id n = id.
Proof. intros [H1%list_elem_of_In H2%N.eqb_eq]%List.find_some. done. Qed.

Lemma pick_none ns id : pick ns id = None -> id ∉ ids ns.
Proof.
  intros H (n & -> & Hn)%list_elem_of_fmap. apply list_elem_of_In in Hn. apply (List.find_none _ _ H) in Hn.
  by rewrite N.eqb_refl in Hn.
Qed.

Lemma filter_absent ns id : id ∉ ids ns -> filter (fun n => Joiner.neighbor_id n <> id) ns = ns.
Proof.
  induction ns as [|n ns IH]; [done|]. cbn [fmap list_fmap]. rewrite not_elem_of_cons. intros [H1 H2].
  rewrite filter_cons_True by congruence. by rewrite IH.
Qed.

Lemma take_neighbor_ok ns id : NoDup (ids ns) ->
  take_neighbor id ns = (fun n => (n, filter (fun n => Joiner.neighbor_id n <> id) ns)) <$> pick ns id.
Proof.
  intros Hnd. induction ns as [|n ns IH]; [done|]. cbn in Hnd. apply NoDup_cons in Hnd as [Hn Hnd].
  cbn [take_neighbor pick List.find]. destruct (N.eqb_spec (Joiner.neighbor_id n) id) as [<-|Hne]; cbn [fmap option_fmap option_map].
  - rewrite filter_cons_False by (intros H; done). by rewrite filter_absent.
  - rewrite IH by done. rewrite filter_cons_True by done. unfold pick. by destruct (List.find _ ns).
Qed.

Lemma pick_filter ns id k : k <> id -> pick (filter (fun n => Joiner.neighbor_id n <> id) ns) k = pick ns k.
Proof.
  intros Hne. unfold pick. induction ns as [|n ns IH]; [done|]. rewrite filter_cons. case_decide as Hd; cbn.
  - by rewrite IH.
  - destruct (N.eqb_spec (Joiner.neighbor_id n) k); [|done]. congruence.
Qed.

Lemma NoDup_ids_filter (P : NewNeighbor -> Prop) `{forall n, Decision (P n)} ns : NoDup (ids ns) -> NoDup (ids (filter P ns)).
Proof.
  induction ns as [|n ns IH]; [done|]. cbn [fmap list_fmap]. rewrite NoDup_cons. intros [Hn Hnd]. rewrite filter_cons.
  case_decide; [|by apply IH]. cbn [fmap list_fmap]. apply NoDup_cons. split; [|by apply IH].
  intros (m & Hm & [_ Hin]%list_elem_of_filter)%list_elem_of_fmap. apply Hn, list_elem_of_fmap. by exists m.
Qed.

Lemma divide_fold (es : list (N * plan)) : forall p g,
  NoDup (ids g) -> NoDup es.*1 ->
  fold_left divide_step es (p, g) = (p ++ omap (pick g) (input_ids es), filter (fun n => Joiner.neighbor_id n ∉ input_ids es) g).
Proof.
  induction es as [|[k q] es IH]; intros p g Hg Hes; cbn [fold_left].
  - unfold input_ids. cbn. rewrite app_nil_r. f_equal. induction g as [|n g IH]; [done|].
    rewrite filter_cons_True by apply not_elem_of_nil. f_equal. apply IH. cbn in Hg. by apply NoDup_cons in Hg as [_ ?].
  - cbn in Hes. apply NoDup_cons in Hes as [Hk Hes]. unfold divide_step at 2. cbn [fst snd].
    assert (Hi : input_ids ((k, q) :: es) = if has_input q then k :: input_ids es else input_ids es).
    { unfold input_ids. rewrite filter_cons. cbn [snd]. destruct (has_input q); [by rewrite decide_True|by rewrite decide_False]. }
    assert (Hki : k ∉ input_ids es).
    { intros (e & -> & [_ He]%list_elem_of_filter)%list_elem_of_fmap. apply Hk, list_elem_of_fmap. by exists e. }
    rewrite Hi. unfold has_input. destruct (QueryPlans.groundInputSignature q); [|by apply IH].
    rewrite take_neighbor_ok by done.
    assert (Hff : filter (fun n => Joiner.neighbor_id n ∉ k :: input_ids es) g =
      filter (fun n => Joiner.neighbor_id n ∉ input_ids es) (filter (fun n => Joiner.neighbor_id n <> k) g)).
    { rewrite list_filter_filter. apply list_filter_iff. intros n. rewrite not_elem_of_cons. tauto. }
    rewrite Hff. cbn [omap list_omap]. destruct (pick g k) as [n|] eqn:Ep; cbn [fmap option_fmap option_map].
    + rewrite IH; [|by apply NoDup_ids_filter|done]. rewrite <- app_assoc. cbn [app]. do 3 f_equal.
      apply list_omap_ext, Forall_Forall2_diag, Forall_forall. intros j Hj. apply pick_filter. by intros ->.
    + rewrite IH by done. rewrite filter_absent by (by apply pick_none). done.
Qed.

Lemma plan_entries_keys (m : gmap N plan) : NoDup (plan_entries m).*1.
Proof. unfold plan_entries. rewrite merge_sort_Permutation. apply NoDup_fst_map_to_list. Qed.

Lemma elem_of_input_ids (m : gmap N plan) c : c ∈ input_ids (plan_entries m) <-> planned m c = true.
Proof.
  unfold input_ids, planned. rewrite list_elem_of_fmap. split.
  - intros ([k q] & -> & [Hq Hin]%list_elem_of_filter). unfold plan_entries in Hin.
    rewrite merge_sort_Permutation, elem_of_map_to_list in Hin. cbn in *. by rewrite Hin.
  - destruct (m !! c) as [q|] eqn:E; [|done]. intros Hq. exists (c, q). split; [done|]. apply list_elem_of_filter. split; [done|].
    unfold plan_entries. by rewrite merge_sort_Permutation, elem_of_map_to_list.
Qed.

Lemma input_ids_sorted (m : gmap N plan) : StronglySorted N.lt (input_ids (plan_entries m)).
Proof.
  assert (Hs : StronglySorted key_le (plan_entries m)).
  { apply Sorted_StronglySorted; [intros x y z; unfold key_le; lia|]. apply Sorted_merge_sort. intros x y. unfold key_le. lia. }
  pose proof (plan_entries_keys m) as Hnd. unfold input_ids. induction Hs as [|e es Hs IH Hf]; [constructor|].
  cbn in Hnd. apply NoDup_cons in Hnd as [Hn Hnd]. rewrite filter_cons. case_decide; [|by apply IH]. cbn [fmap list_fmap].
  constructor; [by apply IH|]. apply Forall_forall. intros k (x & -> & [_ Hx]%list_elem_of_filter)%list_elem_of_fmap.
  rewrite Forall_forall in Hf. specialize (Hf x Hx). unfold key_le in Hf.
  assert (e.1 <> x.1); [|lia]. intros E. apply Hn, list_elem_of_fmap. by exists x.
Qed.

Lemma omap_pick ns l : ids (omap (pick ns) l) = filter (fun c => c ∈ ids ns) l.
Proof.
  induction l as [|c l IH]; [done|]. cbn [omap list_omap]. rewrite filter_cons. destruct (pick ns c) as [n|] eqn:E.
  - apply pick_some in E as [Hn <-]. rewrite decide_True by (apply list_elem_of_fmap; by exists n). cbn [fmap list_fmap]. by rewrite <- IH.
  - apply pick_none in E. by rewrite decide_False.
Qed.

Lemma reassign_ids k ns : ids (reassign k ns) = ids ns.
Proof.
  unfold reassign. rewrite fmap_imap. apply list_eq. intros i. rewrite list_lookup_imap, list_lookup_fmap. by destruct (ns !! i).
Qed.

Lemma reassign_fields k ns : k + N.of_nat (length ns) <= W64 ->
  ids (reassign k ns) = ids ns /\ (Joiner.hostname <$> reassign k ns) = (Joiner.hostname <$> ns) /\
  (Joiner.port <$> reassign k ns) = (Joiner.port <$> ns) /\
  Joiner.neighbor_offset <$> reassign k ns = nrange k (k + N.of_nat (length ns)).
Proof.
  intros Hk. split; [apply reassign_ids|]. unfold reassign. rewrite !fmap_imap. split_and!.
  1-2: apply list_eq; intros i; rewrite list_lookup_imap, list_lookup_fmap; by destruct (ns !! i).
  apply list_eq. intros i. rewrite list_lookup_imap, lookup_nrange. destruct (ns !! i) as [n|] eqn:E; cbn.
  - apply lookup_lt_Some in E. rewrite decide_True by lia. rewrite N.mod_small by lia. done.
  - apply lookup_ge_None in E. by rewrite decide_False by lia.
Qed.

Lemma reassigned k ns n : n ∈ reassign k ns -> exists n', n' ∈ ns /\
  Joiner.neighbor_id n = Joiner.neighbor_id n' /\ Joiner.hostname n = Joiner.hostname n' /\ Joiner.port n = Joiner.port n'.
Proof.
  intros [i Hi]%list_elem_of_lookup. unfold reassign in Hi. rewrite list_lookup_imap in Hi.
  destruct (ns !! i) as [n'|] eqn:E; [|done]. injection Hi as <-. exists n'. split; [|done]. by eapply list_elem_of_lookup_2.
Qed.

Lemma pick_unique ns n : NoDup (ids ns) -> n ∈ ns -> pick ns (Joiner.neighbor_id n) = Some n.
Proof.
  intros Hnd Hn. destruct (pick ns (Joiner.neighbor_id n)) as [m|] eqn:E.
  - apply pick_some in E as [Hm E]. f_equal. revert Hnd Hn Hm. clear -E. induction ns as [|x ns IH]; intros Hnd Hn Hm; [by apply elem_of_nil in Hn|].
    cbn in Hnd. apply NoDup_cons in Hnd as [Hx Hnd].
    apply elem_of_cons in Hn as [->|Hn], Hm as [->|Hm]; [done| | |by apply IH].
    + destruct Hx. rewrite <- E. apply list_elem_of_fmap. by exists m.
    + destruct Hx. rewrite E. apply list_elem_of_fmap. by exists n.
  - apply pick_none in E. destruct E. apply list_elem_of_fmap. by exists n.
Qed.

(** The two vectors before the offsets are assigned. *)
Definition physical_of (opt : gmap N plan) (ns : list NewNeighbor) : list NewNeighbor :=
  omap (pick ns) (input_ids (plan_entries opt)).
Definition guessing_of (opt : gmap N plan) (ns : list NewNeighbor) : list NewNeighbor :=
  filter (fun n => planned opt (Joiner.neighbor_id n) = false) ns.

Lemma divide_ok opt ns : NoDup (ids ns) -> divide opt ns = (physical_of opt ns, guessing_of opt ns).
Proof.
  intros Hnd. unfold divide. rewrite divide_fold by (done || apply plan_entries_keys). cbn [app]. f_equal.
  apply list_filter_iff. intros n. rewrite elem_of_input_ids. by destruct (planned opt _).
Qed.

Lemma physical_ids opt ns : ids (physical_of opt ns) = filter (fun c => c ∈ ids ns) (input_ids (plan_entries opt)).
Proof. apply omap_pick. Qed.

Lemma StronglySorted_filter (P : N -> Prop) `{forall c, Decision (P c)} l : StronglySorted N.lt l -> StronglySorted N.lt (filter P l).
Proof.
  induction 1 as [|c l Hs IH Hf]; [constructor|]. rewrite filter_cons. case_decide; [|done]. constructor; [done|].
  apply Forall_forall. intros x [_ Hx]%list_elem_of_filter. rewrite Forall_forall in Hf. auto.
Qed.

Lemma divided_permutation opt ns : NoDup (ids ns) -> physical_of opt ns ++ guessing_of opt ns ≡ₚ ns.
Proof.
  intros Hnd.
  assert (Hp : forall n, n ∈ physical_of opt ns <-> n ∈ ns /\ planned opt (Joiner.neighbor_id n) = true).
  { intros n. unfold physical_of. rewrite list_elem_of_omap. setoid_rewrite elem_of_input_ids. split.
    - intros (c & Hc & [Hn <-]%pick_some). done.
    - intros [Hn Hc]. exists (Joiner.neighbor_id n). split; [done|]. by apply pick_unique. }
  apply NoDup_Permutation; [|by eapply NoDup_fmap_1|].
  - apply NoDup_app. split_and!.
    + apply (NoDup_fmap_1 Joiner.neighbor_id). rewrite physical_ids. apply NoDup_filter.
      pose proof (input_ids_sorted opt) as Hs. induction Hs as [|c l Hs IH Hf]; [constructor|]. constructor; [|done].
      intros Hin. rewrite Forall_forall in Hf. specialize (Hf c Hin). lia.
    + intros n [_ H1]%Hp [H2 _]%list_elem_of_filter. congruence.
    + apply NoDup_filter. by eapply NoDup_fmap_1.
  - intros n. rewrite elem_of_app, Hp. unfold guessing_of. rewrite list_elem_of_filter.
    destruct (planned opt (Joiner.neighbor_id n)); naive_solver.
Qed.

(** C22. The neighbors of a server with an optimised plan are divided without
    losing or doubling one: the physical neighbors are those for which the
    plan has an input signature, in the order of their numbers; the others are
    guessed, in the order of the bridge rules; host and port stay with a
    neighbor, and the offsets number all of them from zero, physical ones first. *)
Theorem neighbors_divided (opt : gmap N plan) ns :
  NoDup (ids ns) -> N.of_nat (length ns) < W64 ->
  exists physical guessing, split_neighbors (Some opt) ns = (physical, Some guessing) /\
    StronglySorted N.lt (ids physical) /\
    (forall c, c ∈ ids physical <-> c ∈ ids ns /\ planned opt c = true) /\
    ids guessing = filter (fun c => planned opt c = false) (ids ns) /\
    Joiner.neighbor_offset <$> (physical ++ guessing) = nrange 0 (N.of_nat (length ns)) /\
    forall n, n ∈ physical ++ guessing -> exists n', n' ∈ ns /\
      Joiner.neighbor_id n = Joiner.neighbor_id n' /\ Joiner.hostname n = Joiner.hostname n' /\ Joiner.port n = Joiner.port n'.
Proof.
  intros Hnd Hlen. pose proof (divided_permutation opt ns Hnd) as Hperm. pose proof (Permutation_length Hperm) as Hl.
  rewrite length_app in Hl. unfold split_neighbors. rewrite divide_ok by done.
  destruct (reassign_fields 0 (physical_of opt ns)) as (Pi & Ph & Pp & Po); [lia|].
  destruct (reassign_fields (N.of_nat (length (physical_of opt ns))) (guessing_of opt ns)) as (Gi & Gh & Gp & Go); [lia|].
  eexists _, _. split; [done|]. split_and!.
  - rewrite Pi, physical_ids. apply StronglySorted_filter, input_ids_sorted.
  - intros c. rewrite Pi, physical_ids, list_elem_of_filter, elem_of_input_ids. done.
  - rewrite Gi. unfold guessing_of. clear. induction ns as [|n ns IH]; [done|]. rewrite filter_cons. cbn [fmap list_fmap].
    rewrite filter_cons. case_decide; cbn [fmap list_fmap]; by rewrite IH.
  - rewrite fmap_app, Po, Go, N.add_0_l, <- nrange_split by lia. f_equal. lia.
  - intros n [Hn|Hn]%elem_of_app; apply reassigned in Hn as (n' & Hn' & E); exists n'; (split; [|done]);
      rewrite <- Hperm; apply elem_of_app; auto.
Qed.

End dividing.

(** ** One parser for two plans *)

Section server.
Context {T : Type} `{LI : IndexedLaws Belief belief_conflict (≡ₚ) T}.
Context {R : Type} `{LR : IndexedLaws Tables.BridgeRule rule_conflict (=) R}.
Context `{L : QiLaws}.

(** Reading entries leaves a pointer that leads to the result, and keeps the
    pointer of an earlier file. *)
Lemma read_entries (mgr mgr' : QueryPlans.semantics (T := T)) es l :
  QueryPlans.sem_ok mgr -> es <> [] -> Forall (fun e => QueryPlans.entry_ok e /\ QueryPlans.distinct (QueryPlans.e_beliefs e)) es ->
  QueryPlans.parse_query_plan mgr (Some (QueryPlans.plan_file es)) = Ok (mgr', l) ->
  QueryPlans.sem_ok mgr' /\ is_Some l /\ follow mgr' l = Ok (QueryPlans.result mgr') /\ QueryPlans.m_ParsedResult mgr' = l /\
  (forall l', QueryPlans.m_ParsedResult mgr = Some l' -> l = Some l').
Proof.
  intros Hok Hne Hf Hp. destruct (QueryPlans.run_entries_ok es mgr Hok Hf) as (m & E & Hok' & _ & Hs & Hk).
  rewrite (QueryPlans.read_plan_file mgr es m) in Hp; [|done|eapply Forall_impl; [exact Hf|by intros e [? _]]|done].
  injection Hp as <- <-. split_and!; [done|by apply Hs| |done|done].
  destruct (Hs Hne) as [l Hl]. unfold follow, QueryPlans.result. rewrite Hl. unfold QueryPlans.sem_ok in Hok'. rewrite Hl in Hok'.
  destruct Hok' as [x Hx]. change (not_null (Some l)) with (Ok l). rsimpl. cbn [mbind option_bind]. rewrite Hx. done.
Qed.

Lemma others_planned (m : gmap N (QueryPlans.ContextQueryPlan T)) c0 (rules : list (text * list BridgeRuleFiles.literal)) c :
  Forall (fun r => BridgeRuleFiles.rule_readable r /\ Forall (BridgeRuleFiles.known m c0) r.2) rules ->
  c ∈ rules ≫= (fun r => BridgeRuleFiles.others c0 r.2) -> planned m c = true.
Proof.
  intros Hf (r & Hc & Hr)%list_elem_of_bind. rewrite Forall_forall in Hf. destruct (Hf r Hr) as [_ Hk].
  unfold BridgeRuleFiles.others in Hc. apply list_elem_of_filter in Hc as [Hne (l & -> & Hl)%list_elem_of_fmap].
  rewrite Forall_forall in Hk. destruct (Hk l Hl) as (sig & Hs & _). unfold BridgeRuleFiles.signature_of in Hs. unfold planned, has_input.
  destruct (m !! l.1.2) as [q|]; [|done]. cbn in Hs. destruct (N.eqb_spec l.1.2 c0); [done|]. by rewrite Hs.
Qed.

Lemma all_planned (m : gmap N (QueryPlans.ContextQueryPlan T)) ns :
  NoDup (Joiner.neighbor_id <$> ns) -> (forall c, c ∈ Joiner.neighbor_id <$> ns -> planned m c = true) ->
  exists physical, split_neighbors (Some m) ns = (physical, Some []) /\ Joiner.neighbor_id <$> physical ≡ₚ Joiner.neighbor_id <$> ns.
Proof.
  intros Hnd Hp. pose proof (divided_permutation m ns Hnd) as Hperm. unfold split_neighbors. rewrite divide_ok by done.
  assert (Hg : guessing_of m ns = []).
  { unfold guessing_of. apply elem_of_nil_inv. intros n [Hn Hin]%list_elem_of_filter.
    rewrite Hp in Hn; [done|]. apply list_elem_of_fmap. by exists n. }
  rewrite Hg in *. rewrite app_nil_r in Hperm. eexists. split; [done|].
  rewrite reassign_ids. by apply fmap_Permutation.
Qed.

(** C23. The optimised query plan never makes a neighbor a guessing one: both
    plans are read by the same parser into the same map, so that the map that is
    searched for physical neighbors is that of the whole query plan.  Whatever
    the optimised plan leaves out, the server asks all contexts that its bridge
    rules mention. *)
Theorem optimised_plan_without_effect fs o mg off rp es1 es2 rules s1 s2 l1 l2 q own :
  let m := QueryPlans.result s2 in
  help o = false -> options_complete o = true -> split_manager (manager o) = Some mg ->
  ctor (system_size o) (bs_size o) = Ok off -> ReturnPlans.parse_return_plan off (fs (filename_return_plan o)) = Ok rp ->
  filename_opt_query_plan o <> [] ->
  Forall (fun es => es <> [] /\ Forall (fun e => QueryPlans.entry_ok e /\ QueryPlans.distinct (QueryPlans.e_beliefs e)) es) [es1; es2] ->
  fs (filename_opt_query_plan o) = Some (QueryPlans.plan_file es1) -> fs (filename_query_plan o) = Some (QueryPlans.plan_file es2) ->
  QueryPlans.parse_query_plan (T := T) QueryPlans.sem_new (Some (QueryPlans.plan_file es1)) = Ok (s1, l1) ->
  QueryPlans.parse_query_plan s1 (Some (QueryPlans.plan_file es2)) = Ok (s2, l2) ->
  m !! myid o = Some q -> QueryPlans.localSignature q = Some own ->
  Forall (fun r => BridgeRuleFiles.rule_readable r /\ Forall (BridgeRuleFiles.known m (myid o)) r.2) rules ->
  NoDup (BridgeRuleFiles.translated m (myid o) own <$> rules) ->
  fs (filename_bridge_rules o) = Some (BridgeRuleFiles.rules_text rules) ->
  exists r, main (R := R) fs o = Ok (Some r) /\ s_queryplan r = m /\ s_guessing r = Some [] /\
    Joiner.neighbor_id <$> s_physical r ≡ₚ BridgeRuleFiles.firsts (rules ≫= fun r => BridgeRuleFiles.others (myid o) r.2).
Proof.
  intros m Hh Hc Hm Ho Hr Hopt Hes Hf1 Hf2 Hp1 Hp2 Hq Hown Hk Hnd Hbr.
  apply Forall_cons in Hes as [[Hne1 He1] [[Hne2 He2] _]%Forall_cons].
  destruct (read_entries QueryPlans.sem_new s1 es1 l1) as (Hok1 & Hl1 & _ & Hr1 & _); [done..|].
  destruct (read_entries s1 s2 es2 l2) as (_ & _ & Hfo & _ & Hkeep); [done..|].
  destruct Hl1 as [l ->]. rewrite (Hkeep l Hr1) in *.
  destruct (BridgeRuleFiles.bridge_rules_read (R := R) m (myid o) own q rules) as (mb & tab & Hb & _); [done..|].
  set (ns := imap (BridgeRuleFiles.neighbor_at m) (BridgeRuleFiles.firsts (rules ≫= fun r => BridgeRuleFiles.others (myid o) r.2))) in *.
  assert (Hids : Joiner.neighbor_id <$> ns = BridgeRuleFiles.firsts (rules ≫= fun r => BridgeRuleFiles.others (myid o) r.2))
    by apply BridgeRuleFiles.neighbor_ids.
  destruct (all_planned m ns) as (physical & Hsplit & Hphys).
  { rewrite Hids. apply BridgeRuleFiles.firsts_NoDup. }
  { intros c. rewrite Hids, BridgeRuleFiles.elem_of_firsts. by apply others_planned. }
  unfold main. rewrite Hh, Hc. cbn [orb negb]. rewrite Ho. rsimpl. rewrite Hm, Hr. destruct rp as [? rp]. rsimpl.
  destruct (filename_opt_query_plan o) as [|ch t] eqn:Eo; [done|]. cbn [is_empty]. rewrite Hf1, Hp1. rsimpl.
  rewrite Hf2, Hp2. rsimpl. rewrite Hfo. rsimpl. fold m. rewrite Hq. change (not_null (Some q)) with (Ok q). rsimpl.
  rewrite Hbr, Hb. rsimpl. rewrite Hsplit. eexists. split; [done|]. cbn. split_and!; [done..|]. by rewrite Hphys, Hids.
Qed.

End server.

(** ** Samples *)

Definition neighbors_sample : list Joiner.NewNeighbor :=
  (fun c => Joiner.mk_neighbor c 0 "localhost" "5000") <$> [2; 3; 1].

Lemma neighbors_divided_witness :
  exists physical guessing, split_neighbors (Some BridgeRuleFiles.sample_plan) neighbors_sample = (physical, Some guessing) /\
    StronglySorted N.lt (Joiner.neighbor_id <$> physical) /\
    (forall c, c ∈ Joiner.neighbor_id <$> physical <->
       c ∈ Joiner.neighbor_id <$> neighbors_sample /\ planned BridgeRuleFiles.sample_plan c = true) /\
    Joiner.neighbor_id <$> guessing =
      filter (fun c => planned BridgeRuleFiles.sample_plan c = false) (Joiner.neighbor_id <$> neighbors_sample) /\
    Joiner.neighbor_offset <$> (physical ++ guessing) = nrange 0 3 /\
    forall n, n ∈ physical ++ guessing -> exists n', n' ∈ neighbors_sample /\
      Joiner.neighbor_id n = Joiner.neighbor_id n' /\ Joiner.hostname n = Joiner.hostname n' /\ Joiner.port n = Joiner.port n'.
Proof.
  apply (neighbors_divided BridgeRuleFiles.sample_plan neighbors_sample); [|reflexivity].
  apply (bool_decide_unpack _). vm_compute. done.
Defined.

Definition entry_sample (c : N) (is_local : bool) : QueryPlans.entry :=
  QueryPlans.mk_entry c (str "localhost") (5000 + c) [str "k"] is_local [(1, [str "a"]); (2, [str "b"])].

Definition full_entries : list QueryPlans.entry := [entry_sample 0 true; entry_sample 1 false; entry_sample 2 false].
Definition cut_entries : list QueryPlans.entry := [entry_sample 0 true; entry_sample 2 false].

Definition rules_sample : list (text * list BridgeRuleFiles.literal) :=
  [(str "a", [(false, 1, str "a"); (true, 2, str "b")]); (str "b", [(false, 2, str "a")])].

Definition options_sample : options :=
  mk_options false 0 5000 2 2 (str "localhost:4999") (str "c.lp") (str "c.br") (str "c.qp") (str "c.oqp") (str "c.rp").

Definition files_sample (name : text) : option text :=
  if bool_decide (name = str "c.br") then Some (BridgeRuleFiles.rules_text rules_sample)
  else if bool_decide (name = str "c.qp") then Some (QueryPlans.plan_file full_entries)
  else if bool_decide (name = str "c.oqp") then Some (QueryPlans.plan_file cut_entries)
  else if bool_decide (name = str "c.rp") then Some ReturnPlans.sample_text
  else None.

Definition after_cut : QueryPlans.semantics (T := list Belief) * option positive :=
  match QueryPlans.parse_query_plan (Q := qi_functions) QueryPlans.sem_new (Some (QueryPlans.plan_file cut_entries)) with
  | Ok r => r | Err _ => (QueryPlans.sem_new, None) end.
Definition after_full : QueryPlans.semantics (T := list Belief) * option positive :=
  match QueryPlans.parse_query_plan (Q := qi_functions) after_cut.1 (Some (QueryPlans.plan_file full_entries)) with
  | Ok r => r | Err _ => (QueryPlans.sem_new, None) end.

Lemma entry_sample_ok c b : c < 2 ^ 16 ->
  QueryPlans.entry_ok (entry_sample c b) /\ QueryPlans.distinct (QueryPlans.e_beliefs (entry_sample c b)).
Proof.
  intros Hc. split; [split_and!; cbn [entry_sample QueryPlans.e_ctx QueryPlans.e_port]; try lia|].
  - by repeat constructor.
  - discriminate.
  - by repeat constructor.
  - discriminate.
  - by repeat constructor.
  - split; apply (bool_decide_unpack _); by vm_compute.
Qed.

Definition main_sample : res (option (setup (T := list Belief) (R := list Tables.BridgeRule))) :=
  main (Q := qi_functions) files_sample options_sample.

Lemma optimised_plan_without_effect_witness :
  exists r, main_sample = Ok (Some r) /\ s_queryplan r = QueryPlans.result after_full.1 /\ s_guessing r = Some [] /\
    Joiner.neighbor_id <$> s_physical r ≡ₚ [1; 2].
Proof.
  eapply (optimised_plan_without_effect (T := list Belief) (R := list Tables.BridgeRule) files_sample options_sample
    (str "localhost", str "4999") _ _ cut_entries full_entries rules_sample after_cut.1 after_full.1 after_cut.2 after_full.2).
  - reflexivity.
  - reflexivity.
  - reflexivity.
  - vm_compute. reflexivity.
  - vm_compute. reflexivity.
  - discriminate.
  - apply Forall_cons. split; [|apply Forall_cons; split; [|constructor]]; (split; [discriminate|]).
    + repeat (apply Forall_cons_2; [apply entry_sample_ok; lia|]). constructor.
    + repeat (apply Forall_cons_2; [apply entry_sample_ok; lia|]). constructor.
  - reflexivity.
  - reflexivity.
  - vm_compute. reflexivity.
  - vm_compute. reflexivity.
  - vm_compute. reflexivity.
  - reflexivity.
  - repeat apply Forall_cons_2; [| |constructor].
    all: split; [split_and!|].
    all: try (split; [discriminate|repeat constructor]).
    all: try discriminate.
    all: repeat apply Forall_cons_2; try constructor.
    all: try (split; [discriminate|repeat constructor]).
    all: try (by apply (bool_decide_unpack _); vm_compute).
    all: eexists; split; vm_compute; reflexivity.
  - apply (bool_decide_unpack _). vm_compute. done.
  - reflexivity.
Defined.

End ServerSetup.
