(* ===== verification/DlvResults.v ===== *)
(** * The answers of dlv, read by the evaluator

    The grammar of include/parser/DLVResultGrammar.tcc, which reads a line of
    dlv into a belief state, and [DLVEvaluator] (src/dmcs/DLVEvaluator.cpp) on
    top of it.  The parser has one belief state, made when the parser is
    constructed: every line is read into it, and every call of [parseString]
    returns the same pointer.  Belief states are therefore kept in a store,
    and the queue of the evaluator holds pointers.

    [Evaluator] is the reference: an evaluator whose parser makes a new belief
    state for each line.

    dlv itself is a parameter: the lines it prints for a program text; that the
    program reaches the process and its lines come back is in [SolverProcess]. *)

From S2P Require Import Prelude BitMagic BeliefState BeliefStateOffset Ident Tables BridgeRules Combination Evaluator Context Spirit Parsing.
Import BitMagic BeliefState BeliefStateOffset Ident Tables BridgeRules Spirit Parsing.

Module DlvResults.

(** ** The grammar *)

Definition atom_char (c : ascii) : bool := is_alnum c || is_char "_" c.

Section grammar.
Context {T : Type} `{I : Indexed Belief belief_conflict (≡ₚ) T}.
Context (o : Offsets) (m_BTab : BeliefTable T) (m_CtxID : N).

(** The action on the belief state that [m_ParsedResult] points to. *)
Definition handleLiteral (m_ParsedResult : NewBeliefState) (source : option ascii * text) : res (NewBeliefState * unit) :=
  let strong_neg := match source.1 with Some _ => true | None => false end in
  let belief_id := btab_getIDByString m_BTab (unstr source.2) in
  _ ← assert (negb (id_eqb belief_id ID_FAIL));
  bs ← (if strong_neg : bool then set_ctx m_ParsedResult m_CtxID (address belief_id) (starting_offsets o) DMCS_FALSE
        else set_ctx m_ParsedResult m_CtxID (address belief_id) (starting_offsets o) DMCS_TRUE);
  mret (bs, tt).

Context `{Q : Qi}.
#[local] Open Scope qi_scope.
#[local] Abbreviation rule := (parser NewBeliefState).

Definition number : rule text :=
  alt (lexeme (attr (fun c => [c]) (char_ (is_char "0"))))
      (lexeme (attr (fun p => p.1 :: p.2) (seq (char_ (between 49 57)) (kleene (char_ is_digit))))).

Definition ident : rule text :=
  alt (lexeme (attr (fun p => p.1.1 :: p.1.2 ++ [p.2])
                (seq (seq (char_ (is_char quote)) (kleene (char_ (fun c => negb (is_char quote c))))) (char_ (is_char quote)))))
      (attr (fun p => p.1 :: p.2) (seq (char_ is_lower) (kleene (char_ atom_char)))).

(** The text of the fact, as it stands in the input. *)
Definition fact : rule text :=
  raw (seq ident (opt (seq (seq (char_ (is_char "(")) (seq (alt ident number)
                                (kleene (seq (char_ (is_char ",")) (alt ident number)))))
                           (char_ (is_char ")"))))).

Definition mlit : rule unit := action (seq (opt (char_ (is_char "-"))) fact <* lit (str ",")) handleLiteral.
Definition flit : rule unit := action (seq (opt (char_ (is_char "-"))) fact <* lit (str "}")) handleLiteral.

Definition answerset : rule unit :=
  alt (lit (str "{") *> lit (str "}")) (lit (str "{") *> kleene mlit *> flit).

Definition is_cost_char (c : ascii) : bool :=
  is_alnum c || is_char "[" c || is_char "]" c || is_char "<" c || is_char ">" c || is_char "(" c || is_char ")" c || is_char ":" c.

Definition costline : rule unit := lit (str "Cost") *> attr (fun _ => tt) (many (char_ is_cost_char)).

Definition dlvline : rule unit := alt (opt (lit (str "Best model:")) *> answerset) costline.

(** [parseString] on the belief state of the parser. *)
Definition parse_line (bs : NewBeliefState) (line : string) : res NewBeliefState :=
  fst <$> parseString dlvline id bs (str line).

End grammar.

(** ** The evaluator *)

Abbreviation loc := positive.
Abbreviation store := (gmap loc NewBeliefState).

(** An entry of [EVAL_OUT_MQ] points to the model. *)
Record evaluator := mk_eval {
  models_counter : N;
  eval_out : list (Heads * option loc);
  heap : store;
}.

(** [Evaluator::Evaluator]: the counter starts at the maximum. *)
Definition eval_new : evaluator := mk_eval (W64 - 1) [] ∅.

(** Using an object that does not exist (any more) is an error. *)
Definition deref (h : store) (l : loc) : res NewBeliefState := not_null (h !! l).

Section solver.
Context (dlv : string -> list string).
Context {T : Type} `{I : Indexed Belief belief_conflict (≡ₚ) T} `{Q : Qi}.
Context (o : Offsets) (local_kb : string) (ctx_id : N) (btab : BeliefTable T).

(** [DLVResultParser_t]: the belief state it is constructed with. *)
Definition parser_new (ev : evaluator) : res (evaluator * loc) :=
  bs ← bs_blocks (no_blocks o) (size_belief_state o) false;
  let l := fresh (dom (heap ev)) in
  mret (mk_eval (models_counter ev) (eval_out ev) (<[l := bs]> (heap ev)), l).

(** The parser with the belief state at [p]: the result is [p] itself. *)
Definition dlv_parseString (p : loc) (line : string) (ev : evaluator) : res evaluator :=
  bs ← deref (heap ev) p;
  bs ← parse_line o btab ctx_id bs line;
  mret (mk_eval (models_counter ev) (eval_out ev) (<[p := bs]> (heap ev))).

Definition test_and_send (local_model : loc) (input_bs : option NewBeliefState) (hs : Heads) (ev : evaluator) : res evaluator :=
  inp ← not_null input_bs;
  m ← deref (heap ev) local_model;
  c ← consistent_with m inp ctx_id (starting_offsets o);
  if negb c then mret (mk_eval (models_counter ev) (eval_out ev) (delete local_model (heap ev)))
  else mret (mk_eval (u64_add (models_counter ev) 1) (eval_out ev ++ [(hs, Some local_model)])
               (<[local_model := bs_or m inp]> (heap ev))).

Fixpoint read_lines (p : loc) (hs : Heads) (lines : list string) (ev : evaluator) : res evaluator :=
  match lines with
  | [] => mret ev
  | str_input :: lines =>
      if bool_decide (str_input = ""%string) then mret ev
      else if Evaluator.is_cost_line str_input then read_lines p hs lines ev
      else
        ev ← dlv_parseString p str_input ev;
        ev ← test_and_send p (input hs) hs ev;
        read_lines p hs lines ev
  end.

Definition read_all (hs : Heads) (lines : list string) (ev : evaluator) : res evaluator :=
  '(ev, p) ← parser_new ev;
  read_lines p hs lines ev.

Fixpoint skip_until (p : loc) (k1 : N) (hs : Heads) (lines : list string) (ev : evaluator) : res (evaluator * list string) :=
  if models_counter ev <? k1 - 1 then
    match lines with
    | [] => mret (ev, [])
    | str_input :: lines =>
        if bool_decide (str_input = ""%string) then mret (ev, lines)
        else if Evaluator.is_cost_line str_input then skip_until p k1 hs lines ev
        else
          ev ← dlv_parseString p str_input ev;
          inp ← not_null (input hs);
          m ← deref (heap ev) p;
          c ← consistent_with m inp ctx_id (starting_offsets o);
          skip_until p k1 hs lines
            (mk_eval (if c : bool then u64_add (models_counter ev) 1 else models_counter ev) (eval_out ev) (delete p (heap ev)))
    end
  else mret (ev, lines).

Fixpoint send_until (p : loc) (k2 : N) (hs : Heads) (lines : list string) (ev : evaluator) : res evaluator :=
  if models_counter ev <? k2 then
    match lines with
    | [] => mret ev
    | str_input :: lines =>
        if bool_decide (str_input = ""%string) then mret ev
        else if Evaluator.is_cost_line str_input then send_until p k2 hs lines ev
        else
          ev ← dlv_parseString p str_input ev;
          ev ← test_and_send p (input hs) hs ev;
          send_until p k2 hs lines ev
    end
  else mret ev.

Definition read_until_k2 (k1 k2 : N) (hs : Heads) (lines : list string) (ev : evaluator) : res evaluator :=
  _ ← assert ((0 <? k1) && (k1 <=? k2));
  '(ev, p) ← parser_new ev;
  '(ev, lines) ← skip_until p k1 hs lines ev;
  if models_counter ev <? k1 - 1 then mret ev
  else send_until p k2 hs lines ev.

(** The program text that is written to dlv, as in the reference. *)
Definition reset_process (hs : Heads) (ev : evaluator) : res (evaluator * list string) :=
  '(ev', lines) ← Evaluator.reset_process dlv o local_kb ctx_id hs btab (Evaluator.mk_eval (models_counter ev) []);
  mret (mk_eval (Evaluator.models_counter ev') (eval_out ev) (heap ev), lines).

Definition solve (hs : Heads) (ev : evaluator) : res evaluator :=
  '(ev, lines) ← reset_process hs ev;
  ev ← (if (k1 hs =? 0) && (k2 hs =? 0) then read_all hs lines ev
        else (_ ← assert (k1 hs <=? k2 hs); read_until_k2 (k1 hs) (k2 hs) hs lines ev));
  mret (mk_eval (models_counter ev) (eval_out ev ++ [(hs, None)]) (heap ev)).

(** [Evaluator::startup]: solve for every heads received, until null. *)
Fixpoint startup (eval_in : list (option Heads)) (ev : evaluator) : res evaluator :=
  match eval_in with
  | [] => mret ev
  | Some hs :: eval_in => ev ← solve hs ev; startup eval_in ev
  | None :: _ => mret ev
  end.

(** ** One object per request *)

(** What a call adds to the queue all points to [l]. *)
Definition extends_by (hs : Heads) (l : loc) (ev ev' : evaluator) : Prop :=
  exists n, eval_out ev' = eval_out ev ++ replicate n (hs, Some l).

Lemma extends_refl hs l ev ev' : eval_out ev' = eval_out ev -> extends_by hs l ev ev'.
Proof. intros E. exists 0%nat. by rewrite E, app_nil_r. Qed.

Lemma extends_trans hs l ev1 ev2 ev3 : extends_by hs l ev1 ev2 -> extends_by hs l ev2 ev3 -> extends_by hs l ev1 ev3.
Proof. intros [n1 E1] [n2 E2]. exists (n1 + n2)%nat. by rewrite E2, E1, <- app_assoc, replicate_add. Qed.

Lemma parse_keeps_queue p line ev ev' : dlv_parseString p line ev = Ok ev' -> eval_out ev' = eval_out ev.
Proof.
  unfold dlv_parseString. intros H. apply bind_ok in H as (b & _ & H). by apply bind_ok in H as (b' & _ & [= <-]).
Qed.

Lemma test_and_send_extends p inp hs ev ev' : test_and_send p inp hs ev = Ok ev' -> extends_by hs p ev ev'.
Proof.
  unfold test_and_send. intros H. apply bind_ok in H as (i & _ & H). apply bind_ok in H as (m & _ & H).
  apply bind_ok in H as (c & _ & H). destruct c; injection H as <-; [by exists 1%nat|by apply extends_refl].
Qed.

Lemma read_step_extends p hs line ev ev1 ev2 :
  dlv_parseString p line ev = Ok ev1 -> test_and_send p (input hs) hs ev1 = Ok ev2 -> extends_by hs p ev ev2.
Proof.
  intros H1%parse_keeps_queue H2%test_and_send_extends. eapply extends_trans; [by apply extends_refl|done].
Qed.

Lemma read_lines_extends p hs lines : forall ev ev', read_lines p hs lines ev = Ok ev' -> extends_by hs p ev ev'.
Proof.
  induction lines as [|l lines IH]; intros ev ev'; cbn [read_lines]; [intros [= ->]; by apply extends_refl|].
  destruct (bool_decide _); [intros [= ->]; by apply extends_refl|]. destruct (Evaluator.is_cost_line l); [apply IH|].
  intros H. apply bind_ok in H as (ev1 & H1 & H). apply bind_ok in H as (ev2 & H2 & H).
  eapply extends_trans; [by eapply read_step_extends|by apply IH].
Qed.

Lemma send_until_extends p k2 hs lines : forall ev ev', send_until p k2 hs lines ev = Ok ev' -> extends_by hs p ev ev'.
Proof.
  induction lines as [|l lines IH]; intros ev ev'; cbn [send_until].
  { destruct (_ <? _); intros [= ->]; by apply extends_refl. }
  destruct (_ <? _); [|intros [= ->]; by apply extends_refl].
  destruct (bool_decide _); [intros [= ->]; by apply extends_refl|]. destruct (Evaluator.is_cost_line l); [apply IH|].
  intros H. apply bind_ok in H as (ev1 & H1 & H). apply bind_ok in H as (ev2 & H2 & H).
  eapply extends_trans; [by eapply read_step_extends|by apply IH].
Qed.

Lemma skip_until_queue p k1 hs lines : forall ev ev' rest, skip_until p k1 hs lines ev = Ok (ev', rest) -> eval_out ev' = eval_out ev.
Proof.
  induction lines as [|l lines IH]; intros ev ev' rest; cbn [skip_until].
  { destruct (_ <? _); by intros [= -> _]. }
  destruct (_ <? _); [|by intros [= -> _]]. destruct (bool_decide _); [by intros [= -> _]|].
  destruct (Evaluator.is_cost_line l); [apply IH|]. intros H. apply bind_ok in H as (ev1 & H1 & H).
  apply bind_ok in H as (i & _ & H). apply bind_ok in H as (m & _ & H). apply bind_ok in H as (c & _ & H).
  apply IH in H. rewrite H. by apply parse_keeps_queue in H1.
Qed.

Lemma parser_new_queue ev ev' p : parser_new ev = Ok (ev', p) -> eval_out ev' = eval_out ev.
Proof. unfold parser_new. intros H. by apply bind_ok in H as (b & _ & [= <- _]). Qed.

(** All models that one call of [solve] sends are one object: however many
    answer sets dlv prints, every entry that the call adds to the queue carries
    the same pointer, so that a context can never receive two different models for
    the same heads. *)
Theorem one_model_per_request hs ev ev' :
  solve hs ev = Ok ev' ->
  exists l n, eval_out ev' = eval_out ev ++ replicate n (hs, Some l) ++ [(hs, None)].
Proof.
  unfold solve, reset_process. intros H. apply bind_ok in H as ([ev0 lines] & H0 & H).
  apply bind_ok in H0 as ([ev1 lines1] & _ & [= <- <-]). apply bind_ok in H as (ev2 & H2 & [= <-]). cbn [eval_out].
  enough (exists l, extends_by hs l ev ev2) as (l & n & E) by (exists l, n; by rewrite E, <- app_assoc).
  destruct ((k1 hs =? 0) && (k2 hs =? 0)).
  - unfold read_all in H2. apply bind_ok in H2 as ([ev3 p] & H3%parser_new_queue & H2%read_lines_extends). exists p.
    eapply extends_trans; [|exact H2]. by apply extends_refl.
  - apply bind_ok in H2 as (_ & _ & H2). unfold read_until_k2 in H2. apply bind_ok in H2 as (_ & _ & H2).
    apply bind_ok in H2 as ([ev3 p] & H3%parser_new_queue & H2). apply bind_ok in H2 as ([ev4 rest] & H4%skip_until_queue & H2).
    exists p. assert (E4 : eval_out ev4 = eval_out ev) by (by rewrite H4, H3).
    destruct (_ <? _); [injection H2 as <-; by apply extends_refl|]. eapply extends_trans; [by apply extends_refl|].
    by eapply send_until_extends.
Qed.

(** ** Answers with a single model *)

(** The lines of an answer that hold a model. *)
Definition model_lines (lines : list string) : list string :=
  filter (fun l => Evaluator.is_cost_line l = false) (Evaluator.answer lines).

(** The belief state a line is read into, if it is the first. *)
Definition first_parse (b0 : NewBeliefState) (line : string) : res NewBeliefState := parse_line o btab ctx_id b0 line.

Lemma model_lines_cons l lines : l <> ""%string ->
  model_lines (l :: lines) = if Evaluator.is_cost_line l then model_lines lines else l :: model_lines lines.
Proof.
  intros Hl. unfold model_lines. cbn [Evaluator.answer]. rewrite bool_decide_false by done. rewrite filter_cons.
  destruct (Evaluator.is_cost_line l); [by rewrite decide_False|by rewrite decide_True].
Qed.

(** Lines without a model change nothing. *)
Lemma no_model_lines p hs k lines : model_lines lines = [] -> forall ev,
  read_lines p hs lines ev = Ok ev /\ send_until p k hs lines ev = Ok ev /\
  exists rest, skip_until p k hs lines ev = Ok (ev, rest) /\ ((models_counter ev <? k - 1) = false -> rest = lines).
Proof.
  induction lines as [|l lines IH]; intros Hm ev; cbn [read_lines send_until skip_until].
  { split_and!; [done|by destruct (_ <? _)|]. exists []. destruct (models_counter ev <? k - 1); split; done. }
  destruct (decide (l = ""%string)) as [->|Hl].
  { rewrite bool_decide_true by done. split_and!; [done|by destruct (_ <? _)|]. destruct (models_counter ev <? k - 1); by eexists. }
  rewrite model_lines_cons in Hm by done. rewrite bool_decide_false by done.
  destruct (Evaluator.is_cost_line l) eqn:Ec; [|done]. destruct (IH Hm ev) as (-> & -> & rest & -> & Hr).
  split; [done|]. split; [by destruct (models_counter ev <? k)|]. destruct (models_counter ev <? k - 1); [by exists rest|]. by exists (l :: lines).
Qed.

Section single.
Context (hs : Heads) (inp b0 : NewBeliefState) (p : loc).
Context (Hinp : input hs = Some inp).

(** Reading the first model. *)
Lemma first_model l m ev :
  heap ev !! p = Some b0 -> models_counter ev = 0 -> Evaluator.is_cost_line l = false ->
  Evaluator.line_model (first_parse b0) o ctx_id inp l = Ok m ->
  (ev ← dlv_parseString p l ev; test_and_send p (input hs) hs ev) =
    Ok (match m with
        | Some x => mk_eval 1 (eval_out ev ++ [(hs, Some p)]) (<[p := x]> (heap ev))
        | None => mk_eval 0 (eval_out ev) (delete p (heap ev))
        end).
Proof.
  intros Hp H0 Hc. unfold Evaluator.line_model. rewrite Hc. intros H. apply bind_ok in H as (b & Hb & H).
  apply bind_ok in H as (c & Hcons & [= <-]). unfold dlv_parseString, test_and_send, deref. rewrite Hp, Hinp.
  change (not_null (Some b0)) with (Ok b0). rsimpl. unfold first_parse in Hb. rewrite Hb. rsimpl. cbn [heap eval_out models_counter].
  change (not_null (Some inp)) with (Ok inp). rsimpl. rewrite lookup_insert_eq. change (not_null (Some b)) with (Ok b). rsimpl.
  rewrite Hcons. rsimpl. rewrite H0. destruct c; cbn [negb]; [by rewrite insert_insert_eq|by rewrite delete_insert_eq].
Qed.

Lemma single_read_lines lines l m ev :
  model_lines lines = [l] -> Evaluator.line_model (first_parse b0) o ctx_id inp l = Ok m ->
  heap ev !! p = Some b0 -> models_counter ev = 0 ->
  let ev' := match m with
             | Some x => mk_eval 1 (eval_out ev ++ [(hs, Some p)]) (<[p := x]> (heap ev))
             | None => mk_eval 0 (eval_out ev) (delete p (heap ev))
             end in
  read_lines p hs lines ev = Ok ev' /\ forall k2, 0 < k2 -> send_until p k2 hs lines ev = Ok ev'.
Proof.
  intros Hm Hl Hp H0 ev'. induction lines as [|l' lines IH]; [done|]. cbn [read_lines send_until].
  destruct (decide (l' = ""%string)) as [->|Hne]; [done|]. rewrite model_lines_cons in Hm by done. rewrite bool_decide_false by done.
  destruct (Evaluator.is_cost_line l') eqn:Ec.
  { destruct (IH Hm) as [-> Hs]. split; [done|]. intros k2 Hk. rewrite Hs by done. by rewrite H0, (proj2 (N.ltb_lt 0 k2) Hk). }
  injection Hm as -> Hm. pose proof (first_model l m ev Hp H0 Ec Hl) as Hf. fold ev' in Hf.
  destruct (dlv_parseString p l ev) as [ev1|]; [|done]. rsimpl. cbn in Hf. rewrite Hf. rsimpl.
  split; [apply (no_model_lines p hs 0 lines Hm)|]. intros k2 Hk. rewrite H0, (proj2 (N.ltb_lt 0 k2) Hk).
  apply (no_model_lines p hs k2 lines Hm).
Qed.

(** Skipping the only model frees it; nothing is left to send. *)
Lemma single_skip k1 lines l m ev :
  1 < k1 -> model_lines lines = [l] -> Evaluator.line_model (first_parse b0) o ctx_id inp l = Ok m ->
  heap ev !! p = Some b0 -> models_counter ev = 0 ->
  exists rest, skip_until p k1 hs lines ev = Ok (mk_eval (match m with Some _ => 1 | None => 0 end) (eval_out ev) (delete p (heap ev)), rest) /\
    (k1 = 2 /\ m <> None -> model_lines rest = []).
Proof.
  intros Hk Hm Hl Hp H0. induction lines as [|l' lines IH]; [done|]. cbn [skip_until].
  rewrite H0. destruct (N.ltb_spec 0 (k1 - 1)); [|lia].
  destruct (decide (l' = ""%string)) as [->|Hne]; [done|]. rewrite model_lines_cons in Hm by done. rewrite bool_decide_false by done.
  destruct (Evaluator.is_cost_line l') eqn:Ec; [by apply IH|]. injection Hm as -> Hm.
  unfold Evaluator.line_model in Hl. rewrite Ec in Hl. apply bind_ok in Hl as (b & Hb & Hl). apply bind_ok in Hl as (c & Hcons & [= <-]).
  unfold dlv_parseString, deref. rewrite Hp. change (not_null (Some b0)) with (Ok b0). rsimpl.
  unfold first_parse in Hb. rewrite Hb. rsimpl. rewrite Hinp. change (not_null (Some inp)) with (Ok inp). rsimpl.
  cbn [heap models_counter eval_out]. rewrite lookup_insert_eq. change (not_null (Some b)) with (Ok b). rsimpl. rewrite Hcons. rsimpl.
  rewrite H0, delete_insert_eq. set (ev1 := mk_eval _ _ _). destruct (no_model_lines p hs k1 lines Hm ev1) as (_ & _ & rest & -> & Hr).
  exists rest. split; [by destruct c|]. intros [-> Hc]. destruct c; [|done]. by rewrite (Hr eq_refl).
Qed.

End single.

(** What the entries of the queue point to. *)
Definition value (h : store) (e : Heads * option loc) : Evaluator.HeadsBeliefStatePair := (e.1, (l ← e.2; h !! l)).

Definition view (ev : evaluator) : Evaluator.evaluator := Evaluator.mk_eval (models_counter ev) (value (heap ev) <$> eval_out ev).

(** The entries point to objects. *)
Definition eval_ok (ev : evaluator) : Prop := forall hs l, (hs, Some l) ∈ eval_out ev -> is_Some (heap ev !! l).

Lemma value_other (h h' : store) p (es : list (Heads * option loc)) : (forall hs l, (hs, Some l) ∈ es -> l <> p) -> (forall l, l <> p -> h' !! l = h !! l) ->
  value h' <$> es = value h <$> es.
Proof.
  intros Hes Hh. apply list_fmap_ext. intros i [hs [l|]] Hi; [|done]. unfold value. cbn. rewrite Hh; [done|].
  apply (Hes hs). by eapply list_elem_of_lookup_2.
Qed.

Lemma models_none f inp lines ms : model_lines lines = [] -> Evaluator.models f o ctx_id inp (Evaluator.answer lines) = Ok ms -> ms = [].
Proof.
  revert ms. induction lines as [|l lines IH]; intros ms Hm; [by intros [= <-]|]. cbn [Evaluator.answer].
  destruct (decide (l = ""%string)) as [->|Hne]; [by intros [= <-]|]. rewrite model_lines_cons in Hm by done. rewrite bool_decide_false by done.
  intros (m & ms' & Hl & H & ->)%Evaluator.models_cons. destruct (Evaluator.is_cost_line l) eqn:Ec; [|done].
  rewrite (Evaluator.line_cost f o ctx_id inp l m Hl Ec). by apply IH.
Qed.

Lemma models_single f inp lines ms l : model_lines lines = [l] -> Evaluator.models f o ctx_id inp (Evaluator.answer lines) = Ok ms ->
  exists m, Evaluator.line_model f o ctx_id inp l = Ok m /\ ms = match m with Some x => [x] | None => [] end.
Proof.
  revert ms. induction lines as [|l' lines IH]; intros ms Hm; [done|]. cbn [Evaluator.answer].
  destruct (decide (l' = ""%string)) as [->|Hne]; [done|]. rewrite model_lines_cons in Hm by done. rewrite bool_decide_false by done.
  intros (m & ms' & Hl & H & ->)%Evaluator.models_cons. destruct (Evaluator.is_cost_line l') eqn:Ec.
  - rewrite (Evaluator.line_cost f o ctx_id inp l' m Hl Ec). by apply IH.
  - injection Hm as -> Hm. rewrite (models_none f inp lines ms' Hm H). eauto.
Qed.

(** The parser's object is new, so the entries of earlier requests keep their values. *)
Lemma fresh_object ev bs : eval_ok ev ->
  let l := fresh (dom (heap ev)) in
  heap ev !! l = None /\ (forall hs l', (hs, Some l') ∈ eval_out ev -> l' <> l) /\
  forall h', (forall l', l' <> l -> h' !! l' = <[l := bs]> (heap ev) !! l') -> value h' <$> eval_out ev = value (heap ev) <$> eval_out ev.
Proof.
  intros Hok l. assert (Hl : heap ev !! l = None) by (apply not_elem_of_dom, is_fresh).
  assert (Hne : forall hs l', (hs, Some l') ∈ eval_out ev -> l' <> l).
  { intros hs l' [x Hx]%Hok ->. congruence. }
  split_and!; [done|done|]. intros h' Hh. apply (value_other (heap ev) h' l); [done|]. intros l' Hl'. rewrite Hh by done.
  by rewrite lookup_insert_ne.
Qed.

(** What remains of the entries when the object [l] has been written or freed. *)
Lemma view_after ev bs hs (n : N) : eval_ok ev ->
  let l := fresh (dom (heap ev)) in
  let h1 := <[l := bs]> (heap ev) in
  (forall x, eval_ok (mk_eval n (eval_out ev ++ [(hs, Some l)]) (<[l := x]> h1)) /\
     value (<[l := x]> h1) <$> (eval_out ev ++ [(hs, Some l)]) = (value (heap ev) <$> eval_out ev) ++ [(hs, Some x)]) /\
  eval_ok (mk_eval n (eval_out ev) (delete l h1)) /\ value (delete l h1) <$> eval_out ev = value (heap ev) <$> eval_out ev /\
  eval_ok (mk_eval n (eval_out ev) h1) /\ value h1 <$> eval_out ev = value (heap ev) <$> eval_out ev.
Proof.
  intros Hok l h1. destruct (fresh_object ev bs Hok) as (Hl & Hne & Hv). fold l in Hl, Hne, Hv. split_and!.
  - intros x. split.
    + intros hs' l'. cbn [eval_out heap]. intros [Hin|Hin]%elem_of_app.
      * rewrite lookup_insert_ne by (symmetry; by eapply Hne). unfold h1. rewrite lookup_insert_ne by (symmetry; by eapply Hne). by eapply Hok.
      * apply list_elem_of_singleton in Hin as [= _ ->]. by rewrite lookup_insert_eq.
    + rewrite fmap_app. cbn [fmap list_fmap]. unfold value at 2. cbn. rewrite lookup_insert_eq. f_equal. apply Hv. intros l' Hl'.
      by rewrite lookup_insert_ne.
  - intros hs' l' Hin. cbn [eval_out heap] in *. rewrite lookup_delete_ne by (symmetry; by eapply Hne). unfold h1.
    rewrite lookup_insert_ne by (symmetry; by eapply Hne). by eapply Hok.
  - apply Hv. intros l' Hl'. by rewrite lookup_delete_ne.
  - intros hs' l' Hin. cbn [eval_out heap] in *. unfold h1. rewrite lookup_insert_ne by (symmetry; by eapply Hne). by eapply Hok.
  - by apply Hv.
Qed.

(** The range, as both functions test it. *)
Lemma range_cases hs : k1 hs = 0 /\ k2 hs = 0 \/ 0 < k1 hs /\ k1 hs <= k2 hs ->
  (k1 hs =? 0) && (k2 hs =? 0) = true /\ k1 hs = 0 /\ k2 hs = 0 \/
  (k1 hs =? 0) && (k2 hs =? 0) = false /\ 0 < k1 hs /\ k1 hs <= k2 hs.
Proof. intros [[-> ->]|[H1 H2]]; [by left|right]. destruct (N.eqb_spec (k1 hs) 0); [lia|done]. Qed.

Lemma read_until_start hs lines ev b0 : bs_blocks (no_blocks o) (size_belief_state o) false = Ok b0 ->
  0 < k1 hs -> k1 hs <= k2 hs ->
  let l := fresh (dom (heap ev)) in
  read_until_k2 (k1 hs) (k2 hs) hs lines ev =
    ('(ev, lines) ← skip_until l (k1 hs) hs lines (mk_eval (models_counter ev) (eval_out ev) (<[l := b0]> (heap ev)));
     if models_counter ev <? k1 hs - 1 then mret ev else send_until l (k2 hs) hs lines ev).
Proof.
  intros Hb H1 H2 l. unfold read_until_k2.
  assert (Has : (0 <? k1 hs) && (k1 hs <=? k2 hs) = true) by (apply andb_true_iff; rewrite N.ltb_lt, N.leb_le; lia).
  rewrite Has. change (assert true) with (Ok tt). rsimpl. unfold parser_new. rewrite Hb. by rsimpl.
Qed.

Lemma skip_none l k1 hs lines ev : k1 <= models_counter ev + 1 -> skip_until l k1 hs lines ev = Ok (ev, lines).
Proof. intros H. destruct lines; cbn [skip_until]; destruct (N.ltb_spec (models_counter ev) (k1 - 1)); (lia || done). Qed.

(** The models numbered [k1] to [k2] have been sent, and counted. *)
Definition served (hs : Heads) (ms : list NewBeliefState) (ev ev' : evaluator) : Prop :=
  eval_ok ev' /\
  models_counter ev' = (if (k1 hs =? 0) && (k2 hs =? 0) then N.of_nat (length ms) else N.min (k2 hs) (N.of_nat (length ms))) /\
  value (heap ev') <$> eval_out ev' = (value (heap ev) <$> eval_out ev) ++ Evaluator.entries hs (Evaluator.slice (k1 hs) (k2 hs) ms).

Section reading.
Context (hs : Heads) (inp b0 : NewBeliefState) (ev : evaluator) (lines : list string).
Context (Hinp : input hs = Some inp) (Hok : eval_ok ev).

#[local] Abbreviation l := (fresh (dom (heap ev))).
#[local] Abbreviation h1 := (<[l := b0]> (heap ev)).
#[local] Abbreviation ev1 := (mk_eval 0 (eval_out ev) h1).

Lemma no_model_served : model_lines lines = [] ->
  exists ev', (if (k1 hs =? 0) && (k2 hs =? 0) then read_lines l hs lines ev1
               else ('(ev, lines) ← skip_until l (k1 hs) hs lines ev1;
                     if models_counter ev <? k1 hs - 1 then mret ev else send_until l (k2 hs) hs lines ev)) = Ok ev' /\ served hs [] ev ev'.
Proof.
  intros El. destruct (view_after ev b0 hs 0 Hok) as (_ & _ & _ & Ho & Hv). exists ev1. split.
  - destruct (_ && _); [apply (no_model_lines l hs 0 lines El)|].
    destruct (no_model_lines l hs (k1 hs) lines El ev1) as (_ & _ & rest & -> & Hr). rsimpl.
    destruct (_ <? _) eqn:Ek; [done|]. rewrite (Hr eq_refl). apply (no_model_lines l hs (k2 hs) lines El).
  - split; [done|]. split; [cbn; destruct (_ && _); [done|by rewrite N.min_0_r]|]. cbn [eval_out heap]. rewrite Hv.
    unfold Evaluator.slice. destruct (_ && _); [by rewrite app_nil_r|]. by rewrite drop_nil, take_nil, app_nil_r.
Qed.

(** The state after the only model was read. *)
Definition after_model (m : option NewBeliefState) : evaluator :=
  match m with
  | Some x => mk_eval 1 (eval_out ev ++ [(hs, Some l)]) (<[l := x]> h1)
  | None => mk_eval 0 (eval_out ev) (delete l h1)
  end.

Lemma after_model_ok m : eval_ok (after_model m) /\
  value (heap (after_model m)) <$> eval_out (after_model m) =
    (value (heap ev) <$> eval_out ev) ++ Evaluator.entries hs (match m with Some x => [x] | None => [] end).
Proof.
  destruct m as [x|]; cbn [after_model heap eval_out Evaluator.entries fmap list_fmap].
  - destruct (view_after ev b0 hs 1 Hok) as (Hs & _). apply Hs.
  - destruct (view_after ev b0 hs 0 Hok) as (_ & Hd & Hv & _). split; [done|]. by rewrite app_nil_r.
Qed.

Lemma one_model_served line m : model_lines lines = [line] -> Evaluator.line_model (first_parse b0) o ctx_id inp line = Ok m ->
  k1 hs = 0 /\ k2 hs = 0 \/ 0 < k1 hs /\ k1 hs <= k2 hs ->
  exists ev', (if (k1 hs =? 0) && (k2 hs =? 0) then read_lines l hs lines ev1
               else ('(ev, lines) ← skip_until l (k1 hs) hs lines ev1;
                     if models_counter ev <? k1 hs - 1 then mret ev else send_until l (k2 hs) hs lines ev)) = Ok ev' /\
    served hs (match m with Some x => [x] | None => [] end) ev ev'.
Proof.
  intros El Hm Hk. assert (Hlk : heap ev1 !! l = Some b0) by apply lookup_insert_eq. destruct (after_model_ok m) as [Ho Hv].
  destruct (single_read_lines hs inp b0 l Hinp lines line m ev1 El Hm Hlk eq_refl) as [Hread Hsend].
  assert (Hcount : models_counter (after_model m) = N.of_nat (length (match m with Some x => [x] | None => [] end))) by (by destruct m).
  unfold served. destruct (range_cases hs Hk) as [(E & E1 & E2)|(E & H1 & H2)]; unfold Evaluator.slice; rewrite E.
  - exists (after_model m). by rewrite Hread.
  - destruct (N.eq_dec (k1 hs) 1) as [E1|Hne].
    + rewrite skip_none by (cbn; lia). rsimpl. cbn [models_counter]. rewrite E1. change (0 <? 1 - 1) with false. cbv iota.
      rewrite Hsend by lia. exists (after_model m). split; [done|]. split; [done|]. rewrite Hcount.
      split; [destruct m; cbn; lia|]. rewrite Hv. f_equal. f_equal. change (drop (N.to_nat (1 - 1)) ?x) with x.
      destruct m; [|by rewrite take_nil]. rewrite take_ge; [done|]. cbn. lia.
    + destruct (single_skip hs inp b0 l Hinp (k1 hs) lines line m ev1) as (rest & -> & Hrest); [lia|done..|]. rsimpl.
      cbn [models_counter eval_out heap]. destruct (view_after ev b0 hs (match m with Some _ => 1 | None => 0 end) Hok) as (_ & Hd & Hdv & _).
      eexists. split; [|split; [exact Hd|]].
      * destruct (_ <? k1 hs - 1) eqn:Ek; [done|]. apply N.ltb_ge in Ek.
        apply (no_model_lines l hs (k2 hs) rest). apply Hrest. destruct m; [split; [lia|done]|lia].
      * cbn [models_counter eval_out heap]. split; [destruct m; cbn; lia|]. rewrite Hdv, drop_ge; [by rewrite take_nil, app_nil_r|].
        destruct m; cbn; lia.
Qed.

End reading.

Lemma reset_keeps hs ev ev0 lines : reset_process hs ev = Ok (ev0, lines) -> ev0 = mk_eval 0 (eval_out ev) (heap ev).
Proof.
  unfold reset_process. intros H. apply bind_ok in H as ([e ls] & H & [= <- <-]). unfold Evaluator.reset_process in H.
  apply bind_ok in H as (off & _ & H). by apply bind_ok in H as (pr & _ & [= <- _]).
Qed.

(** [solve] with its parser in place. *)
Lemma solve_unfold hs ev ev0 lines b0 :
  bs_blocks (no_blocks o) (size_belief_state o) false = Ok b0 -> reset_process hs ev = Ok (ev0, lines) ->
  (k1 hs = 0 /\ k2 hs = 0 \/ 0 < k1 hs /\ k1 hs <= k2 hs) ->
  let l := fresh (dom (heap ev)) in
  let ev1 := mk_eval 0 (eval_out ev) (<[l := b0]> (heap ev)) in
  solve hs ev =
    (ev ← (if (k1 hs =? 0) && (k2 hs =? 0) then read_lines l hs lines ev1
           else ('(ev, lines) ← skip_until l (k1 hs) hs lines ev1;
                 if models_counter ev <? k1 hs - 1 then mret ev else send_until l (k2 hs) hs lines ev));
     mret (mk_eval (models_counter ev) (eval_out ev ++ [(hs, None)]) (heap ev))).
Proof.
  intros Hb Hr Hk l ev1. unfold solve. rewrite Hr, (reset_keeps hs ev ev0 lines Hr). rsimpl.
  destruct (range_cases hs Hk) as [(-> & _)|(-> & H1 & H2)].
  - unfold read_all, parser_new. rewrite Hb. rsimpl. done.
  - rewrite (proj2 (N.leb_le _ _) H2). change (assert true) with (Ok tt). rsimpl. by rewrite (read_until_start hs lines _ b0 Hb H1 H2).
Qed.

Lemma single_model_ok hs inp ev ev0 b0 lines ms :
  input hs = Some inp -> eval_ok ev -> bs_blocks (no_blocks o) (size_belief_state o) false = Ok b0 ->
  reset_process hs ev = Ok (ev0, lines) -> (length (model_lines lines) <= 1)%nat ->
  Evaluator.models (first_parse b0) o ctx_id inp (Evaluator.answer lines) = Ok ms ->
  (k1 hs = 0 /\ k2 hs = 0 \/ 0 < k1 hs /\ k1 hs <= k2 hs) ->
  exists ev', solve hs ev = Ok ev' /\ eval_ok ev' /\
    view ev' = Evaluator.mk_eval (if (k1 hs =? 0) && (k2 hs =? 0) then N.of_nat (length ms) else N.min (k2 hs) (N.of_nat (length ms)))
      (Evaluator.eval_out (view ev) ++ Evaluator.entries hs (Evaluator.slice (k1 hs) (k2 hs) ms) ++ [(hs, None)]).
Proof.
  intros Hinp Hok Hb Hr Hlen Hms Hk. rewrite (solve_unfold hs ev ev0 lines b0 Hb Hr Hk).
  match goal with |- context [mbind _ ?r] => set (run := r) end. enough (exists ev', run = Ok ev' /\ served hs ms ev ev') as (ev' & -> & Ho & Hc & Hv).
  { eexists. split; [done|]. split.
    - intros h l'. cbn [eval_out heap]. intros [Hin|Hin]%elem_of_app; [by eapply Ho|]. by apply list_elem_of_singleton in Hin.
    - unfold view. cbn [models_counter eval_out heap Evaluator.eval_out]. rewrite Hc, fmap_app, Hv, <- app_assoc. done. }
  unfold run. destruct (model_lines lines) as [|line [|]] eqn:El; [| |cbn in Hlen; lia].
  - rewrite (models_none _ _ _ _ El Hms). by apply (no_model_served hs b0 ev lines Hok).
  - destruct (models_single _ _ _ _ _ El Hms) as (m & Hm & ->). exact (one_model_served hs inp b0 ev lines Hinp Hok line m El Hm Hk).
Qed.

(** C14. When dlv prints at most one answer set, [solve] does what a context
    expects of its evaluator: it appends to its queue the models numbered [k1]
    to [k2], or all of them for the range (0, 0), each joined with the input,
    and one end marker; entries of earlier requests keep their values, and the
    counter is the number of models seen. *)
Theorem single_model_served hs inp ev ev0 b0 lines ms :
  input hs = Some inp -> eval_ok ev -> bs_blocks (no_blocks o) (size_belief_state o) false = Ok b0 ->
  reset_process hs ev = Ok (ev0, lines) -> (length (model_lines lines) <= 1)%nat ->
  Evaluator.models (first_parse b0) o ctx_id inp (Evaluator.answer lines) = Ok ms ->
  (k1 hs = 0 /\ k2 hs = 0 \/ 0 < k1 hs /\ k1 hs <= k2 hs) ->
  exists ev', solve hs ev = Ok ev' /\ eval_ok ev' /\
    view ev' = Evaluator.mk_eval (if (k1 hs =? 0) && (k2 hs =? 0) then N.of_nat (length ms) else N.min (k2 hs) (N.of_nat (length ms)))
      (Evaluator.eval_out (view ev) ++ Evaluator.entries hs (Evaluator.slice (k1 hs) (k2 hs) ms) ++ [(hs, None)]).
Proof. apply single_model_ok. Qed.

(** ** A second model *)

(** Once the object is gone, the next model line is an error. *)
Lemma freed_skip p k1 hs lines l rest ev :
  model_lines lines = l :: rest -> heap ev !! p = None -> models_counter ev < k1 - 1 -> skip_until p k1 hs lines ev = Err NullPointer.
Proof.
  intros Hm Hp Hk. induction lines as [|l' lines IH]; [done|]. cbn [skip_until]. rewrite (proj2 (N.ltb_lt _ _) Hk).
  destruct (decide (l' = ""%string)) as [->|Hne]; [done|]. rewrite model_lines_cons in Hm by done. rewrite bool_decide_false by done.
  destruct (Evaluator.is_cost_line l'); [by apply IH|]. unfold dlv_parseString, deref. by rewrite Hp.
Qed.

Lemma freed_send p k2 hs lines l rest ev :
  model_lines lines = l :: rest -> heap ev !! p = None -> models_counter ev < k2 -> send_until p k2 hs lines ev = Err NullPointer.
Proof.
  intros Hm Hp Hk. induction lines as [|l' lines IH]; [done|]. cbn [send_until]. rewrite (proj2 (N.ltb_lt _ _) Hk).
  destruct (decide (l' = ""%string)) as [->|Hne]; [done|]. rewrite model_lines_cons in Hm by done. rewrite bool_decide_false by done.
  destruct (Evaluator.is_cost_line l'); [by apply IH|]. unfold dlv_parseString, deref. by rewrite Hp.
Qed.

(** Skipping the first model frees the object. *)
Lemma skip_first hs inp b0 p k1 lines l rest m ev : input hs = Some inp ->
  1 < k1 -> model_lines lines = l :: rest -> Evaluator.line_model (first_parse b0) o ctx_id inp l = Ok m ->
  heap ev !! p = Some b0 -> models_counter ev = 0 ->
  exists lines', model_lines lines' = rest /\ skip_until p k1 hs lines ev =
    skip_until p k1 hs lines' (mk_eval (match m with Some _ => 1 | None => 0 end) (eval_out ev) (delete p (heap ev))).
Proof.
  intros Hinp Hk Hm Hl Hp H0. induction lines as [|l' lines IH]; [done|]. cbn [skip_until].
  rewrite H0. destruct (N.ltb_spec 0 (k1 - 1)); [|lia].
  destruct (decide (l' = ""%string)) as [->|Hne]; [done|]. rewrite model_lines_cons in Hm by done. rewrite bool_decide_false by done.
  destruct (Evaluator.is_cost_line l') eqn:Ec; [by apply IH|]. injection Hm as -> Hm. exists lines. split; [done|].
  unfold Evaluator.line_model in Hl. rewrite Ec in Hl. apply bind_ok in Hl as (b & Hb & Hl). apply bind_ok in Hl as (c & Hcons & [= <-]).
  unfold dlv_parseString, deref. rewrite Hp. change (not_null (Some b0)) with (Ok b0). rsimpl.
  unfold first_parse in Hb. rewrite Hb. rsimpl. rewrite Hinp. change (not_null (Some inp)) with (Ok inp). rsimpl.
  cbn [heap models_counter eval_out]. rewrite lookup_insert_eq. change (not_null (Some b)) with (Ok b). rsimpl. rewrite Hcons. rsimpl.
  rewrite H0, delete_insert_eq. by destruct c.
Qed.

(** A request that skips models cannot be served when dlv prints a second
    model: skipping the first one deletes the belief state that the parser
    reads the next one into. *)
Theorem second_model_after_free hs inp ev ev0 b0 lines l1 l2 rest m :
  input hs = Some inp -> bs_blocks (no_blocks o) (size_belief_state o) false = Ok b0 ->
  reset_process hs ev = Ok (ev0, lines) -> 1 < k1 hs -> k1 hs <= k2 hs ->
  model_lines lines = l1 :: l2 :: rest -> Evaluator.line_model (first_parse b0) o ctx_id inp l1 = Ok m ->
  solve hs ev = Err NullPointer.
Proof.
  intros Hinp Hb Hr Hk1 Hk2 Hm Hl. rewrite (solve_unfold hs ev ev0 lines b0 Hb Hr) by (right; lia).
  assert (E : (k1 hs =? 0) && (k2 hs =? 0) = false) by (destruct (N.eqb_spec (k1 hs) 0); [lia|done]). rewrite E. clear E.
  set (p := fresh (dom (heap ev))).
  destruct (skip_first hs inp b0 p (k1 hs) lines l1 (l2 :: rest) m (mk_eval 0 (eval_out ev) (<[p := b0]> (heap ev))) Hinp Hk1 Hm Hl)
    as (lines' & Hm' & ->); [apply lookup_insert_eq|done|]. cbn [heap eval_out].
  set (ev2 := mk_eval _ _ _). assert (Hp : heap ev2 !! p = None) by apply lookup_delete_eq.
  destruct (N.ltb_spec (models_counter ev2) (k1 hs - 1)) as [Hlt|Hge].
  - by rewrite (freed_skip p (k1 hs) hs lines' l2 rest ev2 Hm' Hp Hlt).
  - rewrite skip_none by lia. rsimpl. rewrite (proj2 (N.ltb_ge _ _) Hge). rewrite (freed_send p (k2 hs) hs lines' l2 rest ev2 Hm' Hp); [done|].
    unfold ev2. cbn. destruct m; lia.
Qed.

End solver.

(** ** Reading an answer set *)

(** A literal of an answer set: strongly negated or not, and its atom. *)
Abbreviation literal := (bool * text)%type.

Definition literal_text (x : literal) : text := (if x.1 then str "-" else []) ++ x.2.

Fixpoint literals_text (xs : list literal) (last : literal) : text :=
  match xs with
  | [] => literal_text last ++ str "}"
  | x :: xs => literal_text x ++ str ", " ++ literals_text xs last
  end.

(** A line as dlv prints it. *)
Definition answer_text (xs : list literal) : text :=
  match reverse xs with [] => str "{}" | last :: xs => str "{" ++ literals_text (reverse xs) last end.

(** A propositional atom. *)
Definition atom_ok (t : text) : Prop :=
  match t with c :: t => is_lower c = true /\ Forall (fun c => atom_char c = true) t | [] => False end.

Lemma lower_cases c : is_lower c = true -> is_blank c = false /\ is_char "#" c = false /\ is_char quote c = false /\ is_char "-" c = false /\ is_char "}" c = false.
Proof.
  unfold is_lower, between. rewrite andb_true_iff, !N.leb_le. intros [H1 H2].
  assert (Hc : forall d, code d < 97 \/ 122 < code d -> is_char d c = false).
  { intros d Hd. apply Ascii.eqb_neq. intros ->. lia. }
  split_and!; [|apply Hc; cbn; lia..].
  unfold is_blank, between. apply orb_false_iff. rewrite N.eqb_neq, andb_false_iff, !N.leb_gt. lia.
Qed.

Lemma atom_char_cases c : atom_char c = true -> is_blank c = false /\ is_char "#" c = false.
Proof.
  unfold atom_char. intros [H|H]%orb_prop; [by apply is_alnum_cases|]. apply Ascii.eqb_eq in H as ->. done.
Qed.

Section reading_text.
Context {T : Type} `{I : Indexed Belief belief_conflict (≡ₚ) T} `{Q : Qi} `{L : !QiLaws}.
Context (o : Offsets) (btab : BeliefTable T) (ctx : N).

Definition run_literal (bs : NewBeliefState) (x : literal) : res NewBeliefState :=
  fst <$> handleLiteral o btab ctx bs (if x.1 then Some "-"%char else None, x.2).

Lemma read_atom_chars {S} (s : S) w c i :
  Forall (fun c => atom_char c = true) w -> atom_char c = false -> is_blank c = false -> is_char "#" c = false ->
  parse (kleene (char_ atom_char)) sk s (w ++ c :: i) = Ok (s, Some (w, c :: i)).
Proof.
  intros Hw Hc Hb Hh. rewrite Forall_forall in Hw.
  replace (w ++ c :: i) with ((w ≫= fun c => [c]) ++ c :: i) by (f_equal; clear; induction w; cbn; congruence).
  rewrite (parse_kleene_reads _ _ (fun c => [c]) id (fun s _ => Ok s) (fun _ => True) (c :: i)) with (s' := s).
  - by rewrite list_fmap_id.
  - done.
  - intros s'. rewrite parse_char. cbn [pre sk]. by rewrite skip_token, Hc.
  - done.
  - intros d s1 s2 i' Hd _ [= <-]. rewrite parse_char. cbn [pre sk app]. destruct (atom_char_cases d (Hw d Hd)).
    by rewrite skip_token, (Hw d Hd) by done.
  - clear. induction w; [done|]. cbn. done.
Qed.

(** An atom, before a comma or a closing brace. *)
Lemma read_fact (s : NewBeliefState) w c i i' :
  skip i' = w ++ c :: i -> atom_ok w -> c = ","%char \/ c = "}"%char -> parse fact sk s i' = Ok (s, Some (w, c :: i)).
Proof.
  intros Hi Hw Hc. destruct w as [|a w]; [done|]. destruct Hw as [Ha Hw]. destruct (lower_cases a Ha) as (Hb & Hh & Hq & _).
  assert (Hcc : atom_char c = false /\ is_blank c = false /\ is_char "#" c = false /\ is_char "(" c = false) by (destruct Hc as [-> | ->]; done).
  destruct Hcc as (Hc1 & Hc2 & Hc3 & Hc4). unfold fact. rewrite parse_raw. cbn [pre sk]. rewrite Hi. cbn [app].
  rewrite parse_seq. unfold ident. rewrite parse_alt, parse_lexeme. cbn [pre sk]. rewrite skip_token by done.
  rewrite parse_attr, parse_seq, parse_seq, parse_char. cbn [pre]. rewrite Hq. cbn [obind].
  rewrite parse_attr, parse_seq, parse_char. cbn [pre sk]. rewrite skip_token, Ha by done. cbn [obind].
  rewrite (read_atom_chars s w c i) by done. cbn [obind fst snd].
  rewrite parse_opt, parse_seq, parse_seq, parse_char. cbn [pre sk]. rewrite skip_token by done. rewrite Hc4. cbn [obind].
  do 4 f_equal. change (a :: w ++ c :: i) with ((a :: w) ++ c :: i). rewrite length_app.
  replace (length (a :: w) + length (c :: i) - length (c :: i))%nat with (length (a :: w)) by lia. apply take_app_length.
Qed.

Lemma read_signed (s : NewBeliefState) x c i pre :
  atom_ok x.2 -> c = ","%char \/ c = "}"%char -> pre = [] \/ pre = [" "%char] ->
  parse (seq (opt (char_ (is_char "-"))) fact) sk s (pre ++ literal_text x ++ c :: i) =
    Ok (s, Some ((if x.1 then Some "-"%char else None, x.2), c :: i)).
Proof.
  intros Hx Hc Hpre. assert (Hsk : forall t, skip (pre ++ t) = skip t) by (destruct Hpre as [-> | ->]; [done|]; intros t; cbn [app]; by rewrite skip_blank).
  rewrite parse_seq, parse_opt, parse_char. cbn [Spirit.pre sk]. rewrite Hsk. destruct x as [neg [|a w]]; [done|]. cbn [fst snd] in *.
  unfold literal_text. cbn [fst snd]. destruct Hx as [Ha Hw]. destruct (lower_cases a Ha) as (Hb & Hh & _ & Hm & _). destruct neg; cbn [str String.list_ascii_of_string app].
  - rewrite skip_token by done. cbn [is_char Ascii.eqb Bool.eqb obind].
    rewrite (read_fact s (a :: w) c i); [done|by apply skip_token|done|done].
  - rewrite skip_token by done. rewrite Hm. cbn [obind]. rewrite (read_fact s (a :: w) c i); [done| |done|done].
    rewrite Hsk. by apply skip_token.
Qed.

Lemma run_literal_inv bs bs' x : run_literal bs x = Ok bs' ->
  handleLiteral o btab ctx bs (if x.1 then Some "-"%char else None, x.2) = Ok (bs', tt).
Proof. unfold run_literal. destruct (handleLiteral _ _ _ _ _) as [[b []]|]; [|done]. by intros [= ->]. Qed.

Lemma read_mlit bs bs' x i pre : run_literal bs x = Ok bs' -> atom_ok x.2 -> pre = [] \/ pre = [" "%char] ->
  parse (mlit o btab ctx) sk bs (pre ++ literal_text x ++ ","%char :: i) = Ok (bs', Some (tt, i)) /\
  parse (mlit o btab ctx) sk bs (pre ++ literal_text x ++ "}"%char :: i) = Ok (bs, None) /\
  parse (flit o btab ctx) sk bs (pre ++ literal_text x ++ "}"%char :: i) = Ok (bs', Some (tt, i)).
Proof.
  intros Hr%run_literal_inv Hx Hpre. unfold mlit, flit. rewrite !parse_action, !parse_seq_l, !read_signed by auto.
  cbn [obind]. rewrite !parse_lit. texts. skips. cbn [after is_char Ascii.eqb Bool.eqb obind fmap option_fmap option_map]. by rewrite Hr.
Qed.

Lemma read_literals xs last : forall bs bs' i pre,
  foldM run_literal bs (xs ++ [last]) = Ok bs' -> Forall (fun x => atom_ok x.2) (xs ++ [last]) -> pre = [] \/ pre = [" "%char] ->
  parse (seq_r (kleene (mlit o btab ctx)) (flit o btab ctx)) sk bs (pre ++ literals_text xs last ++ i) = Ok (bs', Some (tt, i)).
Proof.
  enough (H : forall bs bs' i pre, foldM run_literal bs (xs ++ [last]) = Ok bs' -> Forall (fun x => atom_ok x.2) (xs ++ [last]) ->
    pre = [] \/ pre = [" "%char] -> exists bs1 rest, parse (kleene (mlit o btab ctx)) sk bs (pre ++ literals_text xs last ++ i) =
      Ok (bs1, Some ((fun _ => tt) <$> xs, rest)) /\ parse (flit o btab ctx) sk bs1 rest = Ok (bs', Some (tt, i))).
  { intros bs bs' i pre Hr Hf Hp. rewrite parse_seq_r. destruct (H bs bs' i pre Hr Hf Hp) as (bs1 & rest & -> & Hfl). cbn [obind]. done. }
  induction xs as [|x xs IH]; intros bs bs' i pre Hr Hf Hp; cbn [app foldM literals_text] in *; apply bind_ok in Hr as (b1 & H1 & Hr);
    apply Forall_cons in Hf as [Hx Hf]; rewrite <- !app_assoc.
  - injection Hr as <-. destruct (read_mlit bs b1 last i pre H1 Hx Hp) as (_ & Hm & Hfl). cbn [str String.list_ascii_of_string app].
    exists bs, (pre ++ literal_text last ++ "}"%char :: i). split; [by apply parse_kleene_stop|done].
  - destruct (IH b1 bs' i [" "%char] Hr Hf) as (bs1 & rest & Hk & Hfl); [by right|]. exists bs1, rest. split; [|done].
    cbn [str String.list_ascii_of_string app] in Hk |- *. destruct (read_mlit bs b1 x (" "%char :: literals_text xs last ++ i) pre H1 Hx Hp) as (Hm & _).
    erewrite parse_kleene_more; [by rewrite Hk|exact Hm|]. rewrite !length_app. cbn [length]. rewrite length_app. cbn [length]. lia.
Qed.

(** The first literal begins with its sign or its atom. *)
Lemma first_token xs last : Forall (fun x => atom_ok x.2) xs /\ atom_ok last.2 ->
  skip (literals_text xs last) = literals_text xs last /\ after (str "}") (literals_text xs last) = None.
Proof.
  assert (H : forall x t, atom_ok x.2 -> skip (literal_text x ++ t) = literal_text x ++ t /\ after (str "}") (literal_text x ++ t) = None).
  { intros [neg [|a w]] t; [done|]. intros [(Hb & Hh & _ & _ & Hc)%lower_cases _]. unfold literal_text.
    destruct neg; cbn [fst snd str String.list_ascii_of_string app after]; [by rewrite skip_token|]. by rewrite skip_token, Hc. }
  intros [Hf Hl]. destruct xs as [|x xs]; cbn [literals_text]; [by apply H|]. apply Forall_cons in Hf as [Hx _]. by apply H.
Qed.

(** A line with an answer set sets its literals one after the other. *)
Lemma read_answer xs bs bs' :
  foldM run_literal bs xs = Ok bs' -> Forall (fun x => atom_ok x.2) xs -> parse_line o btab ctx bs (unstr (answer_text xs)) = Ok bs'.
Proof.
  intros Hr Hf. unfold parse_line, str, unstr. rewrite String.list_ascii_of_string_of_list_ascii.
  enough (H : parse (dlvline o btab ctx) sk bs (answer_text xs) = Ok (bs', Some (tt, []))).
  { unfold parseString. rewrite parse_phrase. fold (@skip Q). change (Some skip) with sk. rewrite H. cbn [obind]. rsimpl. by rewrite skip_nil. }
  unfold dlvline, answerset. destruct xs as [|last xs _] using rev_ind.
  - injection Hr as <-. change (answer_text []) with (str "{}"). rewrite parse_alt. lits. rewrite parse_alt. by lits.
  - replace (answer_text (xs ++ [last])) with (str "{" ++ literals_text xs last)
      by (unfold answer_text; rewrite reverse_snoc, reverse_involutive; done).
    pose proof (read_literals xs last bs bs' [] [] Hr Hf ltac:(by left)) as Hl. rewrite app_nil_r in Hl. cbn [app] in Hl.
    assert (Hx : skip (literals_text xs last) = literals_text xs last /\ after (str "}") (literals_text xs last) = None).
    { apply first_token. by rewrite Forall_app, Forall_singleton in Hf. }
    destruct Hx as [Hsk Haf]. texts_in Haf. rewrite parse_alt, parse_seq_r, parse_opt, parse_lit. texts. skips.
    cbn [after is_char Ascii.eqb Bool.eqb obind fmap option_fmap option_map]. rewrite parse_alt, parse_seq_r, parse_lit. texts. skips.
    cbn [after is_char Ascii.eqb Bool.eqb obind fmap option_fmap option_map]. rewrite parse_lit. cbn [pre sk]. rewrite Hsk, Haf. cbn [obind fmap option_fmap option_map].
    rewrite parse_seq_r, parse_lit. texts. skips. cbn [after is_char Ascii.eqb Bool.eqb obind fmap option_fmap option_map]. by rewrite Hl.
Qed.

Context (nc na : N) (Hmax : nc * (na + 1) <= id_max) (Hctx : ctx < nc) (Ho : o = layout nc na).

#[local] Abbreviation width := (nc * (na + 1)).

Definition belief_of (x : literal) : ID := btab_getIDByString btab (unstr x.2).

(** The atoms are beliefs of the context; no atom comes with both signs. *)
Definition literals_ok (xs : list literal) : Prop :=
  Forall (fun x => atom_ok x.2 /\ belief_of x <> ID_FAIL /\ 1 <= address (belief_of x) /\ address (belief_of x) <= na) xs /\
  forall x y, x ∈ xs -> y ∈ xs -> address (belief_of x) = address (belief_of y) -> x.1 = y.1.

Lemma set_literal_ok bs x : bs_wf width bs -> belief_of x <> ID_FAIL -> address (belief_of x) <= na ->
  run_literal bs x = Ok (put bs (block_start na ctx + address (belief_of x)) (if x.1 then DMCS_FALSE else DMCS_TRUE)).
Proof.
  intros Hwf Hne Ha. unfold run_literal, handleLiteral. cbn [fst snd]. fold (belief_of x).
  assert (E : id_eqb (belief_of x) ID_FAIL = false).
  { unfold id_eqb. apply not_true_is_false. intros [H1%N.eqb_eq H2%N.eqb_eq]%andb_true_iff. apply Hne.
    destruct (belief_of x). cbn in *. by subst. }
  rewrite E. cbn [negb]. change (assert true) with (Ok tt). rsimpl. rewrite Ho.
  assert (Hp : forall v, set_ctx bs ctx (address (belief_of x)) (starting_offsets (layout nc na)) v =
    Ok (put bs (block_start na ctx + address (belief_of x)) v)).
  { intros v. apply (set_ctx_ok width); [done| |unfold block_start; nia]. cbn.
    rewrite list_lookup_fmap, lookup_nrange, decide_True by lia. cbn. do 2 f_equal. lia. }
  destruct x as [[] w]; cbn [fst]; by rewrite Hp.
Qed.

Lemma set_literals_ok xs : literals_ok xs -> forall b0, bs_wf width b0 -> (forall i, truth b0 i = DMCS_UNDEF) ->
  exists bs, foldM run_literal b0 xs = Ok bs /\ bs_wf width bs /\
    forall q, (truth bs q = DMCS_UNDEF <-> forall x, x ∈ xs -> q <> block_start na ctx + address (belief_of x)) /\
      forall x, x ∈ xs -> truth bs (block_start na ctx + address (belief_of x)) = if x.1 then DMCS_FALSE else DMCS_TRUE.
Proof.
  intros [Hf Hd] b0 W0 T0. induction xs as [|x xs IH] using rev_ind.
  - exists b0. split_and!; [done..|]. intros q. split; [|intros x Hx; by apply elem_of_nil in Hx].
    split; [|done]. intros _ x Hx. by apply elem_of_nil in Hx.
  - apply Forall_app in Hf as [Hf [(_ & Hx & H1 & H2) _]%Forall_cons].
    destruct IH as (bs & E & W & Ht); [done|intros y z Hy Hz; apply Hd; apply elem_of_app; by left|].
    assert (Hp : block_start na ctx + address (belief_of x) < width) by (unfold block_start; nia).
    eexists. rewrite foldM_app, E. rsimpl. cbn [foldM]. rewrite set_literal_ok by done. rsimpl. split; [done|].
    split; [by apply wf_put|]. intros q. setoid_rewrite elem_of_app. setoid_rewrite list_elem_of_singleton. split.
    + rewrite truth_put. destruct (N.eqb_spec (block_start na ctx + address (belief_of x)) q) as [Hq|Hq].
      * split; [by destruct x.1|]. intros H. exfalso. by apply (H x); [right|].
      * destruct (Ht q) as [-> _]. split; [intros H y [Hy| ->]; [by apply H|congruence]|]. intros H y Hy. apply H. by left.
    + intros y Hy. rewrite truth_put. destruct (N.eqb_spec (block_start na ctx + address (belief_of x)) (block_start na ctx + address (belief_of y))) as [Hq|Hq].
      * rewrite (Hd x y); [done|apply elem_of_app; right; by apply list_elem_of_singleton| |lia].
        apply elem_of_app. rewrite list_elem_of_singleton. tauto.
      * destruct Hy as [Hy| ->]; [|done]. by apply (Ht q).
Qed.

(** Reading the line of an answer set. *)
Lemma answer_read_ok xs b0 :
  bs_blocks nc na false = Ok b0 -> literals_ok xs ->
  exists bs, parse_line o btab ctx b0 (unstr (answer_text xs)) = Ok bs /\ bs_wf width bs /\
    (forall x, x ∈ xs -> truth bs (block_start na ctx + address (belief_of x)) = if x.1 then DMCS_FALSE else DMCS_TRUE) /\
    (forall q, (forall x, x ∈ xs -> q <> block_start na ctx + address (belief_of x)) -> truth bs q = DMCS_UNDEF) /\
    isEpsilon bs ctx (starting_offsets o) = Ok true /\
    forall inp, bs_wf width inp -> consistent_with bs inp ctx (starting_offsets o) = Ok true.
Proof.
  intros Hb Hx. destruct (bs_wf_blocks nc na Hmax) as (b0' & E0 & W0 & T0). rewrite Hb in E0. injection E0 as <-.
  destruct (set_literals_ok xs Hx b0 W0 T0) as (bs & E & W & Ht). exists bs.
  assert (He : isEpsilon bs ctx (starting_offsets o) = Ok true).
  { rewrite (isEpsilon_ok width bs ctx _ (block_start na ctx)); [|done| |unfold block_start; nia].
    - rewrite bool_decide_true; [done|]. apply (Ht (block_start na ctx)). intros x Hin. destruct Hx as [Hf _].
      rewrite Forall_forall in Hf. destruct (Hf x Hin) as (_ & _ & ? & _). lia.
    - rewrite Ho. cbn. rewrite list_lookup_fmap, lookup_nrange, decide_True by lia. cbn. do 2 f_equal. lia. }
  split_and!; [|done| | |done|].
  - apply read_answer; [done|]. destruct Hx as [Hf _]. eapply Forall_impl; [exact Hf|]. by intros x [? _].
  - intros x Hin. by apply (Ht 0).
  - intros q Hq. by apply (Ht q).
  - intros inp Hi. unfold consistent_with. rewrite (wf_status_size _ _ W), (wf_status_size _ _ Hi), (wf_value_size _ _ W), (wf_value_size _ _ Hi).
    rewrite N.eqb_refl. change (assert true) with (Ok tt). rsimpl. rewrite He. by rsimpl.
Qed.

(** C19. The line of an answer set is read into a new belief state as it stands:
    the beliefs of the answer set are true, the strongly negated ones false,
    all other positions stay undefined.  The epsilon position of the context is
    one of these: the model counts as not computed, and it passes the test
    against the input whatever the input is. *)
Theorem answer_set_read xs b0 :
  bs_blocks nc na false = Ok b0 -> literals_ok xs ->
  exists bs, parse_line o btab ctx b0 (unstr (answer_text xs)) = Ok bs /\ bs_wf width bs /\
    (forall x, x ∈ xs -> truth bs (block_start na ctx + address (belief_of x)) = if x.1 then DMCS_FALSE else DMCS_TRUE) /\
    (forall q, (forall x, x ∈ xs -> q <> block_start na ctx + address (belief_of x)) -> truth bs q = DMCS_UNDEF) /\
    isEpsilon bs ctx (starting_offsets o) = Ok true /\
    forall inp, bs_wf width inp -> consistent_with bs inp ctx (starting_offsets o) = Ok true.
Proof. apply answer_read_ok. Qed.

End reading_text.

(** ** What contexts rely on

    A queue of values as a queue of pointers to them. *)

Definition entry_loc (i : nat) : loc := Pos.of_succ_nat i.

Definition load (a : Evaluator.evaluator) : evaluator :=
  mk_eval (Evaluator.models_counter a) (imap (fun i e => (e.1, _ ← e.2; Some (entry_loc i))) (Evaluator.eval_out a))
    (list_to_map (omap (fun p => v ← p.2.2; Some (entry_loc p.1, v)) (imap (fun i e => (i, e)) (Evaluator.eval_out a)))).

Lemma load_heap a i hs v : Evaluator.eval_out a !! i = Some (hs, Some v) -> heap (load a) !! entry_loc i = Some v.
Proof.
  intros Hi. unfold load. cbn [heap]. apply elem_of_list_to_map.
  - set (l := Evaluator.eval_out a). clear Hi. unfold l. generalize (Evaluator.eval_out a). clear.
    assert (H : forall (l : list Evaluator.HeadsBeliefStatePair) k,
      NoDup (omap (fun p => v ← p.2.2; Some (entry_loc p.1, v)) (imap (fun i e => ((k + i)%nat, e)) l)).*1 /\
      Forall (fun p => exists i, (k <= i)%nat /\ p = entry_loc i) (omap (fun p => v ← p.2.2; Some (entry_loc p.1, v)) (imap (fun i e => ((k + i)%nat, e)) l)).*1).
    { intros l. induction l as [|[hs v] l IH]; intros k; [by split; constructor|]. rewrite imap_cons. cbn [omap list_omap fst snd].
      destruct (IH (S k)) as [Hn Hf].
      assert (E : imap ((fun i e => ((k + i)%nat, e)) ∘ S) l = imap (fun i e => ((S k + i)%nat, e)) l).
      { apply imap_ext. intros i x _. cbn. f_equal. lia. }
      rewrite E. assert (Hf' : forall b, b ∈ (omap (fun p : nat * Evaluator.HeadsBeliefStatePair => v ← p.2.2; Some (entry_loc p.1, v))
        (imap (fun i e => ((S k + i)%nat, e)) l)).*1 -> exists i, (S k <= i)%nat /\ b = entry_loc i) by (by apply Forall_forall).
      destruct v as [v|]; cbn [mbind option_bind].
      - split.
        + cbn [fmap list_fmap fst]. apply NoDup_cons. split; [|done]. intros (i & Hi & E')%Hf'. unfold entry_loc in E'. lia.
        + cbn [fmap list_fmap fst]. apply Forall_cons. split; [by exists k; rewrite Nat.add_0_r|].
          apply Forall_forall. intros b (i & Hi & ->)%Hf'. exists i. split; [lia|done].
      - split; [done|]. apply Forall_forall. intros b (i & Hi & ->)%Hf'. exists i. split; [lia|done]. }
    intros l. apply (H l 0%nat).
  - apply list_elem_of_omap. exists (i, (hs, Some v)). split; [|done]. apply list_elem_of_lookup. exists i. rewrite list_lookup_imap. exact (f_equal (fmap (M := option) (pair i)) Hi).
Qed.

Lemma load_entry a i e : eval_out (load a) !! i = Some e ->
  exists v, Evaluator.eval_out a !! i = Some (e.1, v) /\ e.2 = (_ ← v; Some (entry_loc i)).
Proof.
  unfold load. cbn [eval_out]. rewrite list_lookup_imap. unfold Evaluator.HeadsBeliefStatePair in *.
  intros ([hs v] & E & ->)%fmap_Some. exists v. by split.
Qed.

Lemma load_ok a : eval_ok (load a) /\ view (load a) = a.
Proof.
  split.
  - intros hs l [i Hi]%list_elem_of_lookup. destruct (load_entry a i _ Hi) as (v & Ha & E). cbn in Ha, E.
    destruct v as [v|]; [|done]. injection E as ->. by rewrite (load_heap a i hs v Ha).
  - unfold view. destruct a as [c es]. f_equal. apply list_eq. intros i. rewrite list_lookup_fmap.
    destruct (eval_out (load (Evaluator.mk_eval c es)) !! i) as [e|] eqn:E.
    + destruct (load_entry _ _ _ E) as (v & Ha & Hv). cbn [fmap option_fmap option_map]. transitivity (Some (e.1, v)); [|done].
      f_equal. unfold value. rewrite Hv. f_equal. destruct v as [v|]; [|done]. exact (load_heap _ i e.1 v Ha).
    + unfold load in E. cbn [eval_out Evaluator.eval_out] in E. rewrite list_lookup_imap in E. symmetry. by apply fmap_None in E.
Qed.

Section interface.
Context (dlv : string -> list string).
Context {T : Type} `{I : Indexed Belief belief_conflict (≡ₚ) T} `{Q : Qi}.
Context (o : Offsets) (local_kb : string) (ctx_id : N) (btab : BeliefTable T) (b0 : NewBeliefState).
Context (Hb : bs_blocks (no_blocks o) (size_belief_state o) false = Ok b0).

(** Heads for which dlv prints at most one answer set. *)
Definition single_dom (hs : Heads) : Prop :=
  Context.dlv_dom dlv (first_parse o ctx_id btab b0) o local_kb ctx_id btab hs /\
  exists lines, Context.printed dlv o local_kb ctx_id btab (heads hs) = Ok lines /\ (length (model_lines lines) <= 1)%nat.

(** [DLVEvaluator] implements what a context relies on for such heads. *)
#[export] Instance single_model_solves :
  Context.Solves single_dom (fun hs a => view <$> solve dlv o local_kb ctx_id btab hs (load a))
    (Context.dlv_models dlv (first_parse o ctx_id btab b0) o local_kb ctx_id btab).
Proof.
  intros hs a [(inp & lines & ms & Hinp & Hpr & Hms) (lines' & Hpr' & Hlen)] Hk. cbv zeta. rewrite Hpr in Hpr'. injection Hpr' as <-.
  destruct (load_ok a) as [Hok Hview].
  assert (Hr : reset_process dlv o local_kb ctx_id btab hs (load a) = Ok (mk_eval 0 (eval_out (load a)) (heap (load a)), lines)).
  { unfold reset_process. unfold Context.printed in Hpr. unfold Evaluator.reset_process in Hpr |- *. cbn [heads] in Hpr.
    destruct (vec_at _ _); [|done]. cbn in Hpr |- *.
    destruct (match heads hs with Some _ => _ | None => _ end); [|done]. cbn in *. injection Hpr as <-. done. }
  destruct (single_model_ok dlv o local_kb ctx_id btab hs inp (load a) _ b0 lines ms Hinp Hok Hb Hr Hlen Hms Hk) as (ev' & -> & _ & Hv).
  cbn [fmap res_fmap]. rewrite Hv, Hview. unfold Context.dlv_models. rewrite Hinp, Hpr, Hms. done.
Qed.

End interface.

(** ** Samples

    Two contexts of two beliefs; a dlv that prints one or two answer sets. *)

Definition sample_table : BeliefTable (list Belief) :=
  mk_btab [belief_new_at 0 1 "a"; belief_new_at 0 2 "b"] 0.

Definition one_answer (program : string) : list string := ["{a, -b}"; ""]%string.
Definition two_answers (program : string) : list string := ["{a}"; "Cost ([Weight:Level]): <[1:1]>"; "{b}"; ""]%string.

Definition sample_request (k1 k2 : N) : Heads := mk_heads None k1 k2 (Some sample_input).

Definition sample_solve (dlv : string -> list string) (k1 k2 : N) : res evaluator :=
  solve (T := list Belief) (Q := qi_functions) dlv (layout 2 2) ""%string 0 sample_table (sample_request k1 k2) eval_new.

Definition sample_b0 : NewBeliefState := mk_bs (mk_bvector 6 0) (mk_bvector 6 0).

(** Both answer sets of a request for all models are sent as one object,
    which holds the union of the two. *)
Lemma one_model_per_request_witness :
  exists l n, eval_out (mk_eval 2 [(sample_request 0 0, Some 1%positive); (sample_request 0 0, Some 1%positive); (sample_request 0 0, None)]
                          {[1%positive := mk_bs (mk_bvector 6 30) (mk_bvector 6 30)]}) =
    [] ++ replicate n (sample_request 0 0, Some l) ++ [(sample_request 0 0, None)].
Proof.
  apply (one_model_per_request two_answers (T := list Belief) (Q := qi_functions) (layout 2 2) ""%string 0 sample_table
    (sample_request 0 0) eval_new).
  vm_compute. reflexivity.
Defined.

Lemma single_model_served_witness :
  exists ev', sample_solve one_answer 1 3 = Ok ev' /\ eval_ok ev' /\
    view ev' = Evaluator.mk_eval 1 [(sample_request 1 3, Some (mk_bs (mk_bvector 6 30) (mk_bvector 6 26))); (sample_request 1 3, None)].
Proof.
  eapply (single_model_served one_answer (T := list Belief) (Q := qi_functions) (layout 2 2) ""%string 0 sample_table
    (sample_request 1 3) sample_input eval_new _ sample_b0 (one_answer "") [mk_bs (mk_bvector 6 30) (mk_bvector 6 26)]).
  - reflexivity.
  - intros hs l H. by apply elem_of_nil in H.
  - vm_compute. reflexivity.
  - vm_compute. reflexivity.
  - vm_compute. lia.
  - vm_compute. reflexivity.
  - right. split; [done|discriminate].
Defined.

Lemma second_model_after_free_witness : sample_solve two_answers 2 2 = Err NullPointer.
Proof.
  eapply (second_model_after_free two_answers (T := list Belief) (Q := qi_functions) (layout 2 2) ""%string 0 sample_table
    (sample_request 2 2) sample_input eval_new _ sample_b0 (two_answers "") "{a}"%string "{b}"%string []).
  - reflexivity.
  - vm_compute. reflexivity.
  - vm_compute. reflexivity.
  - reflexivity.
  - discriminate.
  - vm_compute. reflexivity.
  - vm_compute. reflexivity.
Defined.

Lemma answer_set_read_witness :
  exists bs, parse_line (Q := qi_functions) (layout 2 2) sample_table 0 sample_b0 "{a, -b}" = Ok bs /\ bs_wf 6 bs /\
    (forall x, x ∈ [(false, str "a"); (true, str "b")] ->
       truth bs (0 * (2 + 1) + address (belief_of sample_table x)) = if x.1 then DMCS_FALSE else DMCS_TRUE) /\
    (forall q, (forall x, x ∈ [(false, str "a"); (true, str "b")] -> q <> 0 * (2 + 1) + address (belief_of sample_table x)) ->
       truth bs q = DMCS_UNDEF) /\
    isEpsilon bs 0 (starting_offsets (layout 2 2)) = Ok true /\
    forall inp, bs_wf 6 inp -> consistent_with bs inp 0 (starting_offsets (layout 2 2)) = Ok true.
Proof.
  apply (answer_set_read (T := list Belief) (Q := qi_functions) (layout 2 2) sample_table 0 2 2 ltac:(done) ltac:(done) eq_refl
    [(false, str "a"); (true, str "b")] sample_b0).
  - vm_compute. reflexivity.
  - split.
    + repeat apply Forall_cons_2; [| |constructor]; split_and!; try discriminate; by repeat constructor.
    + intros x y Hx Hy. repeat setoid_rewrite elem_of_cons in Hx. repeat setoid_rewrite elem_of_cons in Hy.
      destruct Hx as [->|[->|Hx%elem_of_nil]], Hy as [->|[->|Hy%elem_of_nil]]; done.
Defined.

End DlvResults.
