(* ===== verification/DlvContext.v ===== *)
(** * A context and its dlv

    A context that is evaluated by [DLVEvaluator]: the request loop of
    ContextJoin with the evaluator of DlvResults in the place of the interface
    [Context.Solves].  What is left as a parameter is the program dlv itself
    and the parser library.  The condition on dlv is the one under which
    DlvResults proves the evaluator right: whatever program it is given, dlv
    prints at most one answer set, over the beliefs of the context. *)

From S2P Require Import Prelude BitMagic BeliefState BeliefStateOffset Combination QueryID Ident Tables BridgeRules.
From S2P Require Import Guessing CachePosition Evaluator Context ReturnedBeliefs Dispatch Odometer Joiner ContextJoin Spirit Parsing DlvResults.
Import BitMagic BeliefState BeliefStateOffset Combination Ident Tables BridgeRules Context Dispatch Joiner ContextJoin Spirit Parsing.

Module DlvContext.

Section context.
Context (dlv : string -> list string).
Context {T : Type} `{I : Indexed Belief belief_conflict (≡ₚ) T} `{Q : Qi} `{L : !QiLaws}.
Context (nb sb : N) (local_kb : string) (ctx_id : N) (btab : BeliefTable T) (su : setup).
Local Abbreviation n := (nb * (sb + 1)).
Local Abbreviation o := (layout nb sb).

(** The evaluator as the context uses it: entries of its queue are read through
    their pointers. *)
Definition dlv_solve (hs : Heads) (ev : Evaluator.evaluator) : res Evaluator.evaluator :=
  DlvResults.view <$> DlvResults.solve dlv o local_kb ctx_id btab hs (DlvResults.load ev).

(** The models of the context for heads and an input. *)
Definition dlv_models : option NewBeliefState -> option NewBeliefState -> list NewBeliefState :=
  Context.dlv_models dlv (DlvResults.first_parse o ctx_id btab (unknown nb sb)) o local_kb ctx_id btab.

(** dlv finds at most one answer set, and its atoms are beliefs of the
    context. *)
Definition one_answer_set : Prop :=
  forall program, dlv program = [""%string] \/
    exists xs, DlvResults.literals_ok btab sb xs /\ dlv program = [unstr (DlvResults.answer_text xs); ""%string].

(** The heads of the bridge rules are beliefs of the context. *)
Definition own_heads : Prop :=
  Forall (fun r => lit_ctx (r_head r) = ctx_id /\ 1 <= address (r_head r) /\
    exists b, btab_getByID btab (mk_ID (N.lor MAINKIND_BELIEF ctx_id) (address (r_head r))) = Ok b) (bridge_rules su).

Context (Hnb : 0 < nb) (Hsb : 0 < sb) (Hmax : n <= id_max) (Hctx : ctx_id < nb).
Context (Hoff : offsets su = o) (Hrules : Forall (rule_wf nb sb) (bridge_rules su)).
Context (Hheads : own_heads) (Hdlv : one_answer_set).

Lemma head_facts_ok poss program :
  (forall p, p ∈ poss -> exists a b, p = block_start sb ctx_id + a /\ a <= sb /\
     btab_getByID btab (mk_ID (N.lor MAINKIND_BELIEF ctx_id) a) = Ok b) ->
  exists text, Evaluator.head_facts ctx_id (block_start sb ctx_id) btab poss program = Ok text.
Proof.
  revert program. induction poss as [|p poss IH]; intros program Hp; [by eexists|]. cbn [Evaluator.head_facts].
  destruct (Hp p) as (a & b & -> & Ha & Hb); [by left|].
  assert (block_start sb ctx_id + a < n) by (unfold block_start; nia). unfold id_max in Hmax.
  rewrite u64_sub_small by lia. replace (block_start sb ctx_id + a - block_start sb ctx_id) with a by lia.
  rewrite N.mod_small by (change (2 ^ 32) with 4294967296; lia). rewrite Hb. rsimpl. apply IH. intros q Hq. apply Hp. by right.
Qed.

Lemma start_of_ctx : vec_at (starting_offsets o) ctx_id = Ok (block_start sb ctx_id).
Proof. by apply vec_at_ok, offs_lookup. Qed.

(** Every program the evaluator writes can be written. *)
Lemma printed_ok inp h : bs_wf n inp -> heads_for su inp = Some h ->
  exists program, Context.printed dlv o local_kb ctx_id btab (Some h) = Ok (dlv program).
Proof.
  intros Hinp Hh. unfold heads_for in Hh. rewrite Hoff in Hh.
  destruct (evaluate_bridge_rules_ok nb sb inp (bridge_rules su) 0 0 Hnb Hsb Hmax Hinp Hrules) as (h' & W & Ht & E).
  rewrite E in Hh. cbn [heads] in Hh. injection Hh as ->.
  assert (Hpos : forall p, truth h p = DMCS_TRUE -> exists a b, p = block_start sb ctx_id + a /\ 1 <= a /\ a <= sb /\
    btab_getByID btab (mk_ID (N.lor MAINKIND_BELIEF ctx_id) a) = Ok b).
  { intros p Hp. rewrite Ht in Hp. case_decide as Hx; [|done]. apply Exists_exists in Hx as (r & Hr & _ & <-).
    pose proof (proj1 (Forall_forall _ _) Hheads r Hr) as (Hc & H1 & b & Hb).
    pose proof (proj1 (Forall_forall _ _) Hrules r Hr) as [(_ & _ & Ha) _].
    exists (address (r_head r)), b. unfold head_pos. rewrite Hc. done. }
  unfold Context.printed, Evaluator.reset_process. cbn [heads]. rewrite start_of_ctx. rsimpl.
  rewrite (true_positions_ok n h W).
  2: { intros H0. destruct (Hpos 0 H0) as (a & b & E0 & ? & _). lia. }
  rsimpl. destruct (head_facts_ok (trues n h 1) local_kb) as [text ->].
  { intros p Hp. unfold trues in Hp. apply list_elem_of_filter in Hp as [Hp _].
    destruct (Hpos p Hp) as (a & b & -> & _ & ? & ?). by exists a, b. }
  rsimpl. by eexists.
Qed.

Lemma answer_line xs : unstr (DlvResults.answer_text xs) <> ""%string /\
  Evaluator.is_cost_line (unstr (DlvResults.answer_text xs)) = false.
Proof.
  assert (exists t, DlvResults.answer_text xs = "{"%char :: t) as [t ->].
  { unfold DlvResults.answer_text. destruct (reverse xs); by eexists. }
  split; [done|]. reflexivity.
Qed.

(** What one program gives. *)
Lemma models_ok inp program : bs_wf n inp ->
  exists ms, Evaluator.models (DlvResults.first_parse o ctx_id btab (unknown nb sb)) o ctx_id inp (Evaluator.answer (dlv program)) = Ok ms /\
    (length (DlvResults.model_lines (dlv program)) <= 1)%nat /\ Forall (bs_wf n) ms /\ (length ms <= 1)%nat.
Proof.
  intros Hinp. destruct (Hdlv program) as [->|(xs & Hxs & ->)].
  { exists []. split; [done|]. split; [by apply Nat.le_0_l|]. split; [by apply Forall_nil|by apply Nat.le_0_l]. }
  destruct (answer_line xs) as [Hne Hcost]. destruct (unknown_ok nb sb Hmax) as [Hb _].
  destruct (DlvResults.answer_read_ok o btab ctx_id nb sb Hmax Hctx eq_refl xs _ Hb Hxs) as (bs & Hp & W & _ & _ & _ & Hcons).
  assert (Ha : Evaluator.answer [unstr (DlvResults.answer_text xs); ""%string] = [unstr (DlvResults.answer_text xs)]).
  { cbn [Evaluator.answer]. by rewrite bool_decide_false. }
  exists [bs_or bs inp]. unfold DlvResults.model_lines. rewrite Ha. split; [|split; [|split; [|cbn; lia]]].
  - cbn [Evaluator.models]. unfold Evaluator.line_model. rewrite Hcost. unfold DlvResults.first_parse. rewrite Hp. rsimpl.
    rewrite Hcons by done. rsimpl. done.
  - rewrite filter_cons_True, filter_nil by done. cbn. lia.
  - apply Forall_singleton. by apply wf_or.
Qed.

Lemma inputs_in_domain inp h k1 k2 : bs_wf n inp -> heads_for su inp = Some h ->
  DlvResults.single_dom dlv o local_kb ctx_id btab (unknown nb sb) (mk_heads (Some h) k1 k2 (Some inp)).
Proof.
  intros Hinp Hh. destruct (printed_ok inp h Hinp Hh) as [program Hp].
  destruct (models_ok inp program Hinp) as (ms & Hms & Hl & _). split; [by exists inp, (dlv program), ms|].
  by exists (dlv program).
Qed.

Lemma input_models_ok inp : bs_wf n inp ->
  Forall (bs_wf n) (input_models dlv_models su inp) /\ (length (input_models dlv_models su inp) <= 1)%nat.
Proof.
  intros Hinp. unfold input_models. destruct (heads_for_ok nb sb Hnb Hsb Hmax su Hoff Hrules inp 0 0 Hinp) as (h & Hh & _).
  rewrite Hh. destruct (printed_ok inp h Hinp Hh) as [program Hp].
  destruct (models_ok inp program Hinp) as (ms & Hms & _ & Hw & Hl). unfold dlv_models, Context.dlv_models. by rewrite Hp, Hms.
Qed.

#[export] Instance dlv_solves :
  Solves (DlvResults.single_dom dlv o local_kb ctx_id btab (unknown nb sb)) dlv_solve dlv_models.
Proof. apply DlvResults.single_model_solves. by destruct (unknown_ok nb sb Hmax). Qed.

(** ** A context without neighbors *)

(** C2.  A context with [DLVEvaluator], [LeafJoiner] and without guessing
    neighbors answers every request of a sequence: with the one model dlv finds
    for its knowledge base and the heads that hold when nothing is known of
    other contexts, projected to the interface with the invoker, if there is
    one and the requested range has the number 1, and in any case with an end
    marker, in the order of the requests.  It never blocks, no assertion fails,
    and a shutdown ends the loop.  Provided that dlv prints at most one answer
    set for every program, over beliefs of the context, that the heads of the
    bridge rules are beliefs of the context, that there is a return plan for
    every invoker, and that the query counter stays below 2^24. *)
Theorem dlv_leaf_serves_requests calls msgs nd :
  guessing su = None -> ctx_id < 2 ^ 10 -> Forall (request_wf su ctx_id) msgs -> Evaluator.eval_out (eval (node_ctx nd)) = [] ->
  query_counter nd + 2 * N.of_nat (length msgs) < 2 ^ 24 -> (1 <= calls)%nat ->
  let loop := startup_loop (leaf o) dlv_solve su ctx_id calls in
  (length (input_models dlv_models su (unknown nb sb)) <= 1)%nat /\
  exists nd', (forall rest, loop (msgs ++ rest) nd = loop rest nd') /\
    (forall f rest, QueryID.is_shutdown (fm_qid f) = true -> loop (msgs ++ f :: rest) nd = Ok (nd', true)) /\
    sent (node_ctx nd') = sent (node_ctx nd) ++ (msgs ≫= served dlv_models su [unknown nb sb]).
Proof.
  intros Hguess Hid Hm Hq Hc Hl loop. split.
  - apply (input_models_ok (unknown nb sb)). by destruct (unknown_ok nb sb Hmax).
  - by apply (leaf_serves_requests _ dlv_solve dlv_models nb sb Hnb Hsb Hmax su Hoff Hrules inputs_in_domain Hguess ctx_id Hid).
Qed.

(** ** A context and its neighbors *)

Section networked.
Context (Hguess : guessing su = None) (Hid : ctx_id < 2 ^ 10).
Context (pack_size joff : N) (neighbors : list NewNeighbor).
Context (respond : list request -> list request -> list rvalue).
Context (models : list (list NewBeliefState)) (reply : nat -> N -> N -> list NewBeliefState).
Context (Hnet : Network neighbors respond models reply) (Hnbs : neighbors_wf joff neighbors).
Context (Hlen : length models = length neighbors).
Context (Hwf : Forall (Forall (bs_wf n)) models).
Context (Hbig : Forall (fun ms => N.of_nat (length ms) + 2 * pack_size < W64) models).
Context (jd0 : gmap N N) (Hjd0 : forall id x, jd0 !! id = Some x -> QueryID.joiner_offset_from_qid id <> joff).
Local Abbreviation jn := (streaming pack_size joff neighbors o respond).
Local Abbreviation stream := (joined_stream nb sb pack_size neighbors models reply).

(** C1.  A context with [DLVEvaluator] and without guessing neighbors, whose
    neighbors all have models and answer each request with the models of the
    requested range.  Provided that dlv prints at most one answer set for
    every program, over beliefs of the context, that the heads of the bridge
    rules are beliefs of the context, that there is a return plan for every
    invoker, and that the query counter stays below 2^24, the context answers
    every request of a sequence with exactly the requested slice of its
    models over all joins of its neighbors' models, each projected to the
    interface with the invoker, and an end marker, in the order of the
    requests.  There is at most one model per join.  The order of the models
    is the same for every request, so that consecutive packs of models fit
    together.  It never blocks, no assertion fails, and a shutdown ends the
    loop.  The fuel of the joiner covers the combinations of packs. *)
Theorem dlv_context_serves_requests fuel calls msgs nd :
  Forall (fun ms => ms <> []) models ->
  N.of_nat (S (length neighbors)) * Odometer.capacity (nps pack_size models) <= N.of_nat fuel ->
  (length stream <= calls)%nat ->
  Forall (request_wf su ctx_id) msgs ->
  joiner_ready neighbors jd0 (node_joiner nd) -> Evaluator.eval_out (eval (node_ctx nd)) = [] ->
  query_counter nd + N.of_nat (length msgs) * (N.of_nat (length stream) + 1) < 2 ^ 24 ->
  (forall r, r ∈ stream <-> joined_from nb sb models r) /\
  Forall (fun r => (length (input_models dlv_models su r) <= 1)%nat) stream /\
  exists nd', (forall rest, startup_loop (jn fuel) dlv_solve su ctx_id calls (msgs ++ rest) nd =
                 startup_loop (jn fuel) dlv_solve su ctx_id calls rest nd') /\
    (forall f rest, QueryID.is_shutdown (fm_qid f) = true ->
       startup_loop (jn fuel) dlv_solve su ctx_id calls (msgs ++ f :: rest) nd = Ok (nd', true)) /\
    sent (node_ctx nd') = sent (node_ctx nd) ++ (msgs ≫= served dlv_models su stream) /\
    joiner_ready neighbors jd0 (node_joiner nd').
Proof.
  intros Hne Hf Hl Hm Hr Hq Hc.
  destruct (context_serves_requests _ dlv_solve dlv_models nb sb Hnb Hsb Hmax su Hoff Hrules inputs_in_domain Hguess
    ctx_id Hid pack_size joff neighbors respond models reply Hnet Hnbs Hlen Hwf Hbig jd0 Hjd0 fuel calls msgs nd)
    as [Hin Hrun]; [done..|].
  split; [done|]. split; [|done]. assert (Hw : Forall (bs_wf n) stream) by (by eapply stream_wf).
  eapply Forall_impl; [exact Hw|]. intros r Hwr. by apply input_models_ok.
Qed.

End networked.

(** ** A cycle breaker *)

Section guesses.
Context (parent_qid : N) (interface : NewBeliefState).
Context (Hplan : plan_lookup (return_plan su) (QueryID.invoker_from_qid parent_qid) = Some interface).
Context (total start : NewBeliefState) (first : N).
Local Abbreviation ds := (Guessing.digits n sb total first).
Context (Hgi : Guessing.guessing_wf n sb total first) (Hstart : bs_wf n start).
Context (Hfalse : forall p, p ∈ ds -> truth start p = DMCS_FALSE).

(** C11.  A cycle breaker with [DLVEvaluator] that is asked for all models while
    its cache is empty sends the projections of the models of all guesses,
    guess after guess in the order of the binary counter, at most one per
    guess, and then the end marker.  The conditions are those on dlv and the
    bridge rules (at most one answer set, over beliefs of the context; heads
    that are beliefs of the context), a return plan for the invoker, and a
    start guess in which the beliefs to be guessed are false. *)
Theorem dlv_breaker_serves_all_guesses st :
  guessing su = Some (total, start) -> cache st = [] -> Evaluator.eval_out (eval st) = [] ->
  (forall k, (length (input_models dlv_models su (guess_at nb sb total start k)) <= 1)%nat) /\
  exists st', breaker_request dlv_solve su parent_qid 0 0 st = Ok st' /\ Evaluator.eval_out (eval st') = [] /\
    cache st' = [] /\
    sent st' = sent st ++ (answer_for parent_qid interface <$>
      (List.seq 0 (N.to_nat (2 ^ N.of_nat (length ds))) ≫=
         (fun i => input_models dlv_models su (guess_at nb sb total start i))))
      ++ [(None, parent_qid)].
Proof.
  intros Hg Hc Hq. split.
  - intros k. pose proof (guess_at_ok nb sb total start first Hgi Hstart Hfalse k) as H.
    apply (input_models_ok (guess_at nb sb total start k)). case_decide; [by destruct H|]. unfold guess_at. by rewrite H.
  - by apply (breaker_request_all _ dlv_solve dlv_models nb sb Hnb Hsb Hmax su Hoff Hrules parent_qid interface Hplan
      inputs_in_domain total start first Hgi Hstart Hfalse).
Qed.

End guesses.

End context.

(** ** Samples

    Two contexts of two beliefs; a dlv that knows [a] and not [b]. *)

Lemma sample_literals : DlvResults.literals_ok DlvResults.sample_table 2 [(false, str "a"); (true, str "b")].
Proof.
  split.
  - repeat apply Forall_cons_2; [| |constructor]; split_and!; try discriminate; by repeat constructor.
  - intros x y Hx Hy. repeat setoid_rewrite elem_of_cons in Hx. repeat setoid_rewrite elem_of_cons in Hy.
    destruct Hx as [->|[->|Hx%elem_of_nil]], Hy as [->|[->|Hy%elem_of_nil]]; done.
Qed.

Lemma sample_one_answer : one_answer_set DlvResults.one_answer 2 DlvResults.sample_table.
Proof. intros program. right. exists [(false, str "a"); (true, str "b")]. split; [apply sample_literals|done]. Qed.

Lemma sample_own_heads guess : own_heads 0 DlvResults.sample_table
  (mk_setup (layout 2 2) [sample_rule2] [(0, everything)] guess []).
Proof.
  apply Forall_singleton. split; [by vm_compute|]. split; [by vm_compute|]. eexists. vm_compute. reflexivity.
Qed.

(** Requests to context 0 that come from context 0 of the plan. *)
Definition sample_requests : list ForwardMessage :=
  [fwd_new sample_qid ∅ 2 3; fwd_new (QueryID.query_id2 0 2) {[7]} 0 0].

Lemma sample_requests_wf : Forall (request_wf sample_setup 0) sample_requests.
Proof.
  apply Forall_cons. split; [|apply Forall_singleton]; (split; [reflexivity| |reflexivity| |by eexists]).
  - right. done.
  - set_solver.
  - by left.
  - set_solver.
Qed.

#[local] Abbreviation sample_eval := (dlv_solve (Q := qi_functions) DlvResults.one_answer 2 2 "" 0 DlvResults.sample_table).
#[local] Abbreviation found := (dlv_models (Q := qi_functions) DlvResults.one_answer 2 2 "" 0 DlvResults.sample_table).

Lemma dlv_context_serves_requests_witness :
  let stream := joined_stream 2 2 1 (nbs 2) sample_neighbors (exact_reply sample_neighbors) in
  let loop := startup_loop (streaming 1 3 (nbs 2) (layout 2 2) (in_turn sample_neighbors) 10) sample_eval sample_setup 0 10 in
  let nd := mk_node (mk_ctx [] Evaluator.eval_new []) (start_state 2) 0 in
  (forall r, r ∈ stream <-> joined_from 2 2 sample_neighbors r) /\
  Forall (fun r => (length (input_models found sample_setup r) <= 1)%nat) stream /\
  exists nd', (forall rest, loop (sample_requests ++ rest) nd = loop rest nd') /\
    (forall f rest, QueryID.is_shutdown (fm_qid f) = true -> loop (sample_requests ++ f :: rest) nd = Ok (nd', true)) /\
    sent (node_ctx nd') = [] ++ (sample_requests ≫= served found sample_setup stream) /\
    joiner_ready (nbs 2) ∅ (node_joiner nd').
Proof.
  assert (Hwf : Forall (Forall (bs_wf (2 * (2 + 1)))) sample_neighbors).
  { repeat (first [apply Forall_cons; split | apply Forall_nil; exact I]); by apply small_wf. }
  apply (dlv_context_serves_requests DlvResults.one_answer (Q := qi_functions) 2 2 "" 0 DlvResults.sample_table sample_setup
    ltac:(done) ltac:(done) ltac:(done) ltac:(done) eq_refl sample_rule2_wf (sample_own_heads None) sample_one_answer eq_refl
    ltac:(done) 1 3 (nbs 2) (in_turn sample_neighbors) sample_neighbors (exact_reply sample_neighbors) _
    (nbs_wf 2 3 ltac:(lia) ltac:(done)) eq_refl Hwf).
  - repeat (first [apply Forall_cons; split; [done|] | apply Forall_nil; exact I]).
  - intros id x H. by rewrite lookup_empty in H.
  - repeat (first [apply Forall_cons; split; [done|] | apply Forall_nil; exact I]).
  - vm_compute. discriminate.
  - vm_compute. lia.
  - exact sample_requests_wf.
  - split; [done|done|]. by repeat split.
  - done.
  - vm_compute. reflexivity.
Defined.

Lemma dlv_leaf_serves_requests_witness :
  let loop := startup_loop (leaf (layout 2 2)) sample_eval sample_setup 0 1 in
  let nd := mk_node (mk_ctx [] Evaluator.eval_new []) tt 0 in
  (length (input_models found sample_setup (unknown 2 2)) <= 1)%nat /\
  exists nd', (forall rest, loop (sample_requests ++ rest) nd = loop rest nd') /\
    (forall f rest, QueryID.is_shutdown (fm_qid f) = true -> loop (sample_requests ++ f :: rest) nd = Ok (nd', true)) /\
    sent (node_ctx nd') = [] ++ (sample_requests ≫= served found sample_setup [unknown 2 2]).
Proof.
  apply (dlv_leaf_serves_requests DlvResults.one_answer (Q := qi_functions) 2 2 "" 0 DlvResults.sample_table sample_setup
    ltac:(done) ltac:(done) ltac:(done) ltac:(done) eq_refl sample_rule2_wf (sample_own_heads None) sample_one_answer); try done.
  exact sample_requests_wf.
Defined.

Lemma dlv_breaker_serves_all_guesses_witness :
  (forall k, (length (input_models found breaker_setup (guess_at 2 2 Guessing.sample_total Guessing.sample_start k)) <= 1)%nat) /\
  exists st', breaker_request sample_eval breaker_setup sample_qid 0 0 (mk_ctx [] Evaluator.eval_new []) = Ok st' /\
    Evaluator.eval_out (eval st') = [] /\ cache st' = [] /\
    sent st' = [] ++ (answer_for sample_qid everything <$>
      (List.seq 0 4 ≫= (fun i => input_models found breaker_setup
                             (guess_at 2 2 Guessing.sample_total Guessing.sample_start i)))) ++ [(None, sample_qid)].
Proof.
  apply (dlv_breaker_serves_all_guesses DlvResults.one_answer (Q := qi_functions) 2 2 "" 0 DlvResults.sample_table breaker_setup
    ltac:(done) ltac:(done) ltac:(done) ltac:(done) eq_refl sample_rule2_wf (sample_own_heads _) sample_one_answer sample_qid everything eq_refl
    Guessing.sample_total Guessing.sample_start 3 Guessing.sample_guessing); try done.
  - by apply small_wf.
  - intros p Hp. change (p ∈ [4; 5]) in Hp.
    apply elem_of_cons in Hp as [->|Hp]; [done|]. by apply list_elem_of_singleton in Hp as ->.
Defined.

End DlvContext.
