(* ===== verification/SharedEvaluator.v ===== *)
(** * A context and its cycle breaker on one evaluator

    [NormalContext::startup] (src/mcs/NormalContext.cpp) creates one evaluator
    and hands it to the cycle breaker it starts.  Both threads run
    [NewContext::compute] (src/mcs/NewContext.cpp): they put heads into
    [EVAL_IN_MQ] of the evaluator and read from its [EVAL_OUT_MQ] up to an end
    marker.  Neither looks at whose heads an answer is for, and both read the
    evaluator's counter.

    A run is a sequence of steps: a thread evaluates its bridge rules and hands
    over the heads, the evaluator takes heads and solves for them
    ([DLVEvaluator], by DlvContext), a thread reads and sends.  Each step is
    one of the two halves of [Context.compute], or a turn of
    [Evaluator::startup].  These are not all interleavings (a reader may start
    before the evaluator has ended): they are enough to show what is read.
    The queues hold at least the heads and answers that are under way. *)

From S2P Require Import Prelude BitMagic BeliefState BeliefStateOffset Combination QueryID Ident Tables BridgeRules.
From S2P Require Import Guessing CachePosition Evaluator Context Dispatch Joiner ContextJoin Spirit Parsing DlvResults DlvContext.
Import BitMagic BeliefState BeliefStateOffset Ident Tables BridgeRules Context Dispatch ContextJoin Spirit Parsing DlvContext.

Module SharedEvaluator.

Inductive who := Normal | Breaker.

Inductive event :=
  | Hand (w : who) (inp : NewBeliefState) (k1 k2 : N)
  | Solve
  | Collect (w : who) (parent_qid current_step k1 k2 : N).

(** The queues, the evaluator, the caches of the two threads and what they
    have sent. *)
Record shared := mk_shared {
  eval_in : list Heads;
  ev : Evaluator.evaluator;
  caches : who -> list N;
  out : list (option NewBeliefState * N);
}.

Definition set_cache (w : who) (c : list N) (f : who -> list N) : who -> list N :=
  fun v => match w, v with Normal, Normal | Breaker, Breaker => c | _, _ => f v end.

Section steps.
Context (solve : Heads -> Evaluator.evaluator -> res Evaluator.evaluator) (su : setup).

Definition step (e : event) (s : shared) : res shared :=
  match e with
  | Hand w inp k1 k2 =>
      hs ← evaluate_bridge_rules (Some (offsets su)) (bridge_rules su) inp k1 k2 (starting_offsets (offsets su));
      mret (mk_shared (eval_in s ++ [hs]) (ev s) (caches s) (out s))
  | Solve =>
      match eval_in s with
      | [] => Err Blocked
      | hs :: q => ev ← solve hs (ev s); mret (mk_shared q ev (caches s) (out s))
      end
  | Collect w parent_qid current_step k1 k2 =>
      '(st, _, _, _) ← read_and_send_k1_k2 su parent_qid current_step k1 k2 (mk_ctx (caches s w) (ev s) (out s));
      mret (mk_shared (eval_in s) (eval st) (set_cache w (cache st) (caches s)) (sent st))
  end.

Fixpoint run (es : list event) (s : shared) : res shared :=
  match es with
  | [] => mret s
  | e :: es => s ← step e s; run es s
  end.

End steps.

Definition start (mn mb : list N) : shared :=
  mk_shared [] Evaluator.eval_new (fun w => match w with Normal => mn | Breaker => mb end) [].

(** The inputs that are handed over and the queries that are answered, in the
    order of the steps. *)
Definition inputs (es : list event) : list NewBeliefState :=
  omap (fun e => match e with Hand _ inp _ _ => Some inp | _ => None end) es.
Definition qids (es : list event) : list N :=
  omap (fun e => match e with Collect _ qid _ _ _ => Some qid | _ => None end) es.

(** Steps for all models of each input.  With [p] heads and [a] answers in the
    queues, no step waits for an empty queue. *)
Fixpoint enabled (p a : nat) (es : list event) : Prop :=
  match es with
  | [] => True
  | Hand _ _ k1 k2 :: es => k1 = 0 /\ k2 = 0 /\ enabled (S p) a es
  | Solve :: es => match p with O => False | S p => enabled p (S a) es end
  | Collect _ _ _ k1 k2 :: es => k1 = 0 /\ k2 = 0 /\ match a with O => False | S a => enabled p a es end
  end.

Section shared.
Context (dlv : string -> list string).
Context {T : Type} `{I : Indexed Belief belief_conflict (≡ₚ) T} `{Q : Qi} `{L : !QiLaws}.
Context (nb sb : N) (local_kb : string) (ctx_id : N) (btab : BeliefTable T) (su : setup).
Local Abbreviation n := (nb * (sb + 1)).
Context (Hnb : 0 < nb) (Hsb : 0 < sb) (Hmax : n <= id_max) (Hctx : ctx_id < nb).
Context (Hoff : offsets su = layout nb sb) (Hrules : Forall (rule_wf nb sb) (bridge_rules su)).
Context (Hheads : own_heads ctx_id btab su) (Hdlv : one_answer_set dlv sb btab).
Local Abbreviation solve := (dlv_solve dlv nb sb local_kb ctx_id btab).
Local Abbreviation found := (input_models (dlv_models dlv nb sb local_kb ctx_id btab) su).
Local Abbreviation planned := (plan_lookup (return_plan su)).

(** What the invoker of a query gets to see of a model. *)
Definition shown (qid : N) (m : NewBeliefState) : option NewBeliefState * N :=
  answer_for qid (default m (planned (QueryID.invoker_from_qid qid))) m.

(** The queue entries for an input. *)
Definition heads_of (k1 k2 : N) (inp : NewBeliefState) : Heads := mk_heads (heads_for su inp) k1 k2 (Some inp).
Definition answered (k1 k2 : N) (inp : NewBeliefState) : list Evaluator.HeadsBeliefStatePair :=
  Evaluator.entries (heads_of k1 k2 inp) (Evaluator.slice k1 k2 (found inp)) ++ [(heads_of k1 k2 inp, None)].

Lemma handed inp k1 k2 : bs_wf n inp ->
  evaluate_bridge_rules (Some (offsets su)) (bridge_rules su) inp k1 k2 (starting_offsets (offsets su)) = Ok (heads_of k1 k2 inp).
Proof.
  intros Hi. destruct (heads_for_ok nb sb Hnb Hsb Hmax su Hoff Hrules inp k1 k2 Hi) as (h & Hh & ->). unfold heads_of. by rewrite Hh.
Qed.

Lemma solved inp k1 k2 v : bs_wf n inp -> k1 = 0 /\ k2 = 0 \/ 0 < k1 /\ k1 <= k2 ->
  solve (heads_of k1 k2 inp) v = Ok (Evaluator.mk_eval
    (if (k1 =? 0) && (k2 =? 0) then N.of_nat (length (found inp)) else N.min k2 (N.of_nat (length (found inp))))
    (Evaluator.eval_out v ++ answered k1 k2 inp)).
Proof.
  intros Hi Hk. pose proof (dlv_solves dlv nb sb local_kb ctx_id btab Hmax) as Hs.
  destruct (heads_for_ok nb sb Hnb Hsb Hmax su Hoff Hrules inp k1 k2 Hi) as (h & Hh & _).
  rewrite (solves (Solves := Hs)); [|unfold heads_of; rewrite Hh; by eapply inputs_in_domain|done]. done.
Qed.

Lemma collected inp qid k1 k2 rest acc : bs_wf n inp -> planned (QueryID.invoker_from_qid qid) <> None ->
  read_loop su qid (answered k1 k2 inp ++ rest) acc 0 0 =
    Ok (rest, acc ++ (shown qid <$> Evaluator.slice k1 k2 (found inp)), N.of_nat (length (Evaluator.slice k1 k2 (found inp))), 0).
Proof.
  intros Hi Hp. destruct (planned _) as [i|] eqn:Ei; [|done].
  destruct (heads_for_ok nb sb Hnb Hsb Hmax su Hoff Hrules inp k1 k2 Hi) as (h & Hh & _).
  unfold answered. rewrite <- app_assoc. cbn [app].
  rewrite (read_loop_ok nb sb Hnb Hsb Hmax su qid i Ei (heads_of k1 k2 inp) h) by (unfold heads_of; by rewrite Hh). rewrite N.add_0_l. do 3 f_equal.
  unfold shown. by rewrite Ei.
Qed.

Lemma run_order es : forall p a s,
  enabled (length p) (length a) es -> Forall (bs_wf n) (a ++ p ++ inputs es) ->
  Forall (fun qid => planned (QueryID.invoker_from_qid qid) <> None) (qids es) ->
  eval_in s = heads_of 0 0 <$> p -> Evaluator.eval_out (ev s) = concat (answered 0 0 <$> a) ->
  exists s', run solve su es s = Ok s' /\
    out s' = out s ++ concat (zip_with (fun inp qid => shown qid <$> found inp) (a ++ p ++ inputs es) (qids es)).
Proof.
  induction es as [|e es IH]; intros p a s He Hw Hq Hin Hout.
  { exists s. split; [done|]. cbn. rewrite zip_with_nil_r. cbn. by rewrite app_nil_r. }
  destruct e as [w inp k1 k2| |w qid stp k1 k2]; cbn [enabled] in He; cbn [run step].
  - destruct He as (-> & -> & He). change (inputs (Hand w inp 0 0 :: es)) with (inp :: inputs es) in *.
    change (qids (Hand w inp 0 0 :: es)) with (qids es) in *.
    assert (Hi : bs_wf n inp) by (rewrite Forall_forall in Hw; apply Hw; rewrite !elem_of_app, elem_of_cons; tauto).
    rewrite handed by done. rsimpl. destruct (IH (p ++ [inp]) a (mk_shared (eval_in s ++ [heads_of 0 0 inp]) (ev s) (caches s) (out s)))
      as (s' & -> & Hs'); cbn [eval_in ev out].
    + rewrite length_app. cbn [length]. by rewrite Nat.add_1_r.
    + by rewrite <- app_assoc.
    + done.
    + by rewrite fmap_app, Hin.
    + done.
    + exists s'. split; [done|]. rewrite Hs'. cbn [out]. by rewrite <- (app_assoc p).
  - destruct p as [|inp p]; [done|]. cbn [length] in He. cbn [fmap list_fmap] in Hin. rewrite Hin.
    change (inputs (Solve :: es)) with (inputs es) in *. change (qids (Solve :: es)) with (qids es) in *.
    assert (Hi : bs_wf n inp) by (rewrite Forall_forall in Hw; apply Hw; rewrite !elem_of_app, elem_of_cons; tauto).
    rewrite solved by (done || by left). rsimpl.
    match goal with |- context [run _ _ es ?x] => destruct (IH p (a ++ [inp]) x) as (s' & -> & Hs') end.
    + rewrite length_app. cbn [length]. by rewrite Nat.add_1_r.
    + by rewrite <- app_assoc.
    + done.
    + done.
    + cbn [ev Evaluator.eval_out]. rewrite fmap_app, concat_app, Hout. cbn. by rewrite app_nil_r.
    + exists s'. split; [done|]. rewrite Hs'. cbn [out]. by rewrite <- (app_assoc a).
  - destruct He as (-> & -> & He). destruct a as [|inp a]; [done|].
    change (inputs (Collect w qid stp 0 0 :: es)) with (inputs es) in *.
    change (qids (Collect w qid stp 0 0 :: es)) with (qid :: qids es) in *.
    apply Forall_cons in Hq as [Hp Hq]. cbn [app] in Hw. apply Forall_cons in Hw as [Hi Hw].
    unfold read_and_send_k1_k2, read_and_send. cbn [eval Context.sent cache]. rewrite Hout. cbn [fmap list_fmap concat].
    rewrite collected by done. rsimpl. cbn [N.eqb andb]. rsimpl.
    match goal with |- context [run _ _ es ?x] => destruct (IH p a x) as (s' & -> & Hs'); [done..|] end.
    exists s'. split; [done|]. rewrite Hs'. cbn [out app zip_with concat Context.sent]. by rewrite <- app_assoc.
Qed.

(** C12.  Answers of the evaluator that a context shares with its cycle breaker
    are not matched to the heads they are for.  In every sequence of steps
    (heads handed over by either thread, the evaluator solving, either thread
    collecting an answer; all for all models) in which no queue is read while
    empty, no assertion fails, and the [i]-th answer that is collected has the
    models of the [i]-th input handed over, sent under the query of whoever
    collects it: threads that take turns get their own models, and when both
    have handed over heads and the second collects first, each sends the
    other's models.  Conditions: dlv prints at most one answer set per
    program, over beliefs of the context; the heads of the bridge rules are
    beliefs of the context; there is a return plan for every invoker. *)
Theorem answers_go_to_first_reader es mn mb :
  enabled 0 0 es -> Forall (bs_wf n) (inputs es) ->
  Forall (fun qid => planned (QueryID.invoker_from_qid qid) <> None) (qids es) ->
  exists s, run solve su es (start mn mb) = Ok s /\
    out s = concat (zip_with (fun inp qid => shown qid <$> found inp) (inputs es) (qids es)).
Proof. intros He Hw Hq. by apply (run_order es [] [] (start mn mb)). Qed.

(** The first model, when the counter is [c]. *)
Lemma first_collected inp qid ca c rest acc : c < W64 -> bs_wf n inp -> planned (QueryID.invoker_from_qid qid) <> None ->
  read_and_send_k1_k2 su qid 0 1 1 (mk_ctx ca (Evaluator.mk_eval c (answered 1 1 inp ++ rest)) acc) =
    match found inp with
    | [] => if c <? 1 then Ok (mk_ctx ca (Evaluator.mk_eval c rest) acc, 1, 1, false) else Err AssertFailed
    | m :: _ => Ok (mk_ctx ca (Evaluator.mk_eval c rest) (acc ++ [shown qid m]), 1, 1, true)
    end.
Proof.
  intros Hc Hi Hp. unfold read_and_send_k1_k2, read_and_send. cbn [eval Context.sent cache Evaluator.eval_out Evaluator.models_counter].
  rewrite collected by done. rsimpl. cbn [N.eqb andb eval Evaluator.models_counter]. rewrite (proj2 (N.leb_le 0 c)) by lia.
  change (assert true) with (Ok tt). rsimpl. rewrite (u64_sub_small c 0), N.sub_0_r by lia.
  destruct (found inp) as [|m ms]; cbn.
  - rewrite app_nil_r. destruct (N.ltb_spec c 1); [|done]. by assert (c = 0) as -> by lia.
  - done.
Qed.

(** C13.  Sharing the counter makes an assertion fail.  A context and its cycle
    breaker, both asked for their first model, hand over heads; dlv finds no
    model for the input of the first and one for that of the second.  When the
    second collects first, it reads the empty answer of the first while the
    counter is that of its own heads, and the assertion that fewer models were
    counted than skipped fails.  Taking turns, both are served. *)
Theorem shared_counter_aborts w w' i i' q q' mn mb m :
  bs_wf n i -> bs_wf n i' -> planned (QueryID.invoker_from_qid q) <> None -> planned (QueryID.invoker_from_qid q') <> None ->
  found i = [] -> found i' = [m] ->
  run solve su [Hand w i 1 1; Hand w' i' 1 1; Solve; Solve; Collect w' q' 0 1 1; Collect w q 0 1 1] (start mn mb) = Err AssertFailed /\
  exists s, run solve su [Hand w i 1 1; Solve; Collect w q 0 1 1; Hand w' i' 1 1; Solve; Collect w' q' 0 1 1] (start mn mb) = Ok s /\
    out s = [shown q' m].
Proof.
  intros Hi Hi' Hq Hq' Hf Hf'. split; cbn [run step]; rewrite !handed by done; rsimpl; cbn [eval_in start app ev caches out].
  - do 2 (rewrite solved by (done || by right); rsimpl; cbn [eval_in ev caches out Evaluator.eval_out]). cbn [app Evaluator.eval_new Evaluator.eval_out].
    rewrite <- (app_nil_r (answered 1 1 i')), (first_collected i) by (rewrite ?Hf, ?Hf'; done). by rewrite Hf, Hf'.
  - rewrite solved by (done || by right). rsimpl. cbn [eval_in ev caches out Evaluator.eval_out Evaluator.eval_new app].
    rewrite <- (app_nil_r (answered 1 1 i)), (first_collected i) by (rewrite ?Hf, ?Hf'; done). rewrite Hf. cbn [length].
    match goal with |- context [if ?b <? 1 then _ else _] => change (b <? 1) with true end. rsimpl.
    cbn [eval_in ev caches out eval cache Context.sent app].
    cbn [eval_in ev caches out]. rewrite solved by (done || by right). rsimpl. cbn [eval_in ev caches out Evaluator.eval_out app].
    rewrite <- (app_nil_r (answered 1 1 i')), (first_collected i') by (rewrite ?Hf, ?Hf'; done). rewrite Hf'. rsimpl. by eexists.
Qed.

End shared.

(** ** Samples

    The inputs and the setup of the samples of DlvContext.  The second dlv finds
    nothing for the empty program. *)

#[local] Abbreviation table := DlvResults.sample_table.
#[local] Abbreviation sample_eval := (dlv_solve (Q := qi_functions) DlvResults.one_answer 2 2 "" 0 table).
#[local] Abbreviation found := (input_models (dlv_models (Q := qi_functions) DlvResults.one_answer 2 2 "" 0 table) sample_setup).

Definition qid_n : N := QueryID.query_id2 0 1.
Definition qid_b : N := QueryID.query_id2 0 2.

(** Both hand over heads, and the breaker is the first to collect. *)
Definition crossed : list event :=
  [Hand Normal BridgeRules.sample_input 0 0; Hand Breaker Combination.right2 0 0; Solve; Solve; Collect Breaker qid_b 0 0 0; Collect Normal qid_n 0 0 0].

Lemma answers_go_to_first_reader_witness : exists s,
  run sample_eval sample_setup crossed (start [] []) = Ok s /\
  out s = (shown sample_setup qid_b <$> found BridgeRules.sample_input) ++ (shown sample_setup qid_n <$> found Combination.right2).
Proof.
  edestruct (answers_go_to_first_reader DlvResults.one_answer (Q := qi_functions) 2 2 "" 0 table sample_setup
    ltac:(done) ltac:(done) ltac:(done) ltac:(done) eq_refl sample_rule2_wf (sample_own_heads None) sample_one_answer crossed [] [])
    as (s & Hr & Ho); [by repeat split| | |].
  - by repeat (apply Forall_cons; split; [by apply Combination.small_wf|]).
  - by repeat (apply Forall_cons; split; [by vm_compute|]).
  - exists s. split; [exact Hr|]. rewrite Ho. cbn. by rewrite app_nil_r.
Defined.

Definition picky (program : string) : list string :=
  if bool_decide (program = ""%string) then [""%string] else DlvResults.one_answer program.

Lemma picky_one_answer : one_answer_set picky 2 table.
Proof. intros program. unfold picky. case_bool_decide; [by left|]. apply sample_one_answer. Qed.

#[local] Abbreviation picky_eval := (dlv_solve (Q := qi_functions) picky 2 2 "" 0 table).

Lemma shared_counter_aborts_witness :
  let i := Combination.right2 in let i' := BridgeRules.sample_input in
  run picky_eval sample_setup [Hand Normal i 1 1; Hand Breaker i' 1 1; Solve; Solve; Collect Breaker qid_b 0 1 1; Collect Normal qid_n 0 1 1]
    (start [] []) = Err AssertFailed /\
  exists s, run picky_eval sample_setup [Hand Normal i 1 1; Solve; Collect Normal qid_n 0 1 1; Hand Breaker i' 1 1; Solve; Collect Breaker qid_b 0 1 1]
      (start [] []) = Ok s /\ out s = [shown sample_setup qid_b (mk_bs (mk_bvector 6 30) (mk_bvector 6 26))].
Proof.
  apply (shared_counter_aborts picky (Q := qi_functions) 2 2 "" 0 table sample_setup
    ltac:(done) ltac:(done) ltac:(done) ltac:(done) eq_refl sample_rule2_wf (sample_own_heads None) picky_one_answer);
    (by apply Combination.small_wf) || (by vm_compute).
Defined.

End SharedEvaluator.
