(* ===== verification/SolverProcess.v ===== *)
(** * The solver process and the knowledge base

    Loading the knowledge base of a context ([InputProvider] and
    [DLVInstantiator] of src/dmcs/), and the process an evaluator talks to:
    the stream buffer [NewProcessBuf] and [DLVProcess] of src/process/.

    The system calls are modelled by what they do to the two pipes.  How many
    bytes a call of [read] or [write] transfers, or that it fails, is the
    system's choice: the next element of a list.  The solver is a parameter, a
    function from the arguments and the text on its standard input to the text
    it prints; it prints when its input is complete.  [pipe], [dup2] and
    [fork] succeed. *)

From S2P Require Import Prelude BitMagic BeliefState BeliefStateOffset Ident Tables BridgeRules Evaluator Spirit Parsing.
Import BeliefState BeliefStateOffset Ident Tables BridgeRules Spirit Parsing.

Module SolverProcess.

(** ** Streams in memory *)

(** [std::stringstream]: what is left to read, and the state bits. *)
Record stringstream := mk_ss { rest : text; failbit : bool; eofbit : bool }.

Definition good (s : stringstream) : bool := negb (failbit s || eofbit s).

(** [stream << buf]: inserting nothing is a failure. *)
Definition insert_buf (s : stringstream) (t : text) : stringstream :=
  if good s then mk_ss (rest s ++ t) (bool_decide (t = [])) (eofbit s) else mk_ss (rest s) true (eofbit s).

(** [stream << str]. *)
Definition insert_string (s : stringstream) (t : text) : stringstream :=
  if good s then mk_ss (rest s ++ t) false (eofbit s) else mk_ss (rest s) true (eofbit s).

(** [std::getline(stream, line)] with an empty [line]. *)
Definition ss_getline (s : stringstream) : text * stringstream :=
  if good s then
    let '(line, rest, eof) := getline (rest s) in (line, mk_ss rest (eof && bool_decide (line = [])) eof)
  else ([], mk_ss (rest s) true (eofbit s)).

(** ** [InputProvider] *)

Record InputProvider := mk_provider { stream : stringstream; contentNames : list text }.

Definition provider_new : InputProvider := mk_provider (mk_ss [] false false) [].

Definition addStreamInput (p : InputProvider) (i : text) (contentname : text) : InputProvider :=
  mk_provider (insert_buf (stream p) i) (contentNames p ++ [contentname]).

Definition addStringInput (p : InputProvider) (content contentname : text) : InputProvider :=
  mk_provider (insert_string (stream p) content) (contentNames p ++ [contentname]).

Definition addFileInput (fs : text -> option text) (p : InputProvider) (filename : text) : res InputProvider :=
  match fs filename with
  | None => Err AssertFailed
  | Some i => mret (mk_provider (insert_buf (stream p) i) (contentNames p ++ [filename]))
  end.

Definition hasContent (p : InputProvider) : bool := negb (bool_decide (contentNames p = [])).

Definition getAsStream (p : InputProvider) : res stringstream :=
  _ ← assert (hasContent p);
  mret (stream p).

(** ** [DLVInstantiator]: the knowledge base without its empty lines *)

Fixpoint load_lines (fuel : nat) (iss : stringstream) (local_kb : text) : res text :=
  match fuel with
  | O => Err OutOfFuel
  | S fuel =>
      if eofbit iss then mret local_kb
      else
        let '(line, iss) := ss_getline iss in
        load_lines fuel iss (if bool_decide (line = []) then local_kb else local_kb ++ line ++ [nl])
  end.

Definition load_kb (fuel : nat) (fs : text -> option text) (kbspec : text) : res text :=
  inp ← addFileInput fs provider_new kbspec;
  iss ← getAsStream inp;
  load_lines fuel iss [].

(** The lines of a text; a newline ends the last line. *)
Fixpoint lines (t : text) : list text :=
  match t with
  | [] => []
  | c :: t =>
      if is_char nl c then [] :: lines t
      else match lines t with [] => [[c]] | l :: ls => (c :: l) :: ls end
  end.

Definition unlines (ls : list text) : text := ls ≫= fun l => l ++ [nl].

Lemma lines_getline t : t <> [] -> let '(line, rest, eof) := getline t in
  lines t = line :: (if eof then [] else lines rest) /\ (eof = true -> line <> []).
Proof.
  induction t as [|c t IH]; [done|]. intros _. cbn [getline lines]. destruct (is_char nl c) eqn:E; [done|].
  destruct t as [|d t]; [done|]. specialize (IH ltac:(done)). destruct (getline (d :: t)) as [[line rest] eof].
  destruct IH as [-> IH]. split; [done|]. done.
Qed.

(** From a stream in good state all lines are read. *)
Lemma load_lines_ok fuel : forall t kb, (length t + 1 < fuel)%nat ->
  load_lines fuel (mk_ss t false false) kb = Ok (kb ++ unlines (filter (fun l => l <> []) (lines t))).
Proof.
  induction fuel as [|fuel IH]; intros t kb Hf; [lia|]. cbn [load_lines eofbit ss_getline good failbit orb negb rest].
  assert (Hend : forall b kb', load_lines fuel (mk_ss [] b true) kb' = Ok kb') by (intros; destruct fuel; [lia|done]).
  destruct (decide (t = [])) as [->|Ht].
  - cbn. rewrite Hend. by rewrite app_nil_r.
  - pose proof (lines_getline t Ht) as Hl. destruct (getline t) as [[line rst] eof] eqn:E. destruct Hl as [-> Hne].
    rewrite filter_cons. pose proof (getline_app _ _ _ _ E) as Ht'. destruct eof.
    + rewrite bool_decide_false by auto. rewrite decide_True by auto. cbn [andb].
      assert (rst = []) as ->.
      { clear -E. revert line E. induction t as [|c t IH]; intros line; cbn; [by intros [= _ <-]|]. destruct (is_char nl c); [done|].
        destruct (getline t) as [[l r] e]. intros [= _ -> ->]. by eapply IH. }
      rewrite Hend. cbn. by rewrite app_nil_r.
    + apply getline_length in E. cbn [andb]. rewrite IH by lia. f_equal. case_bool_decide as Hd.
      * by rewrite decide_False by auto.
      * rewrite decide_True by done. unfold unlines. cbn [mbind list_bind]. by rewrite <- !app_assoc.
Qed.

(** After a failed insertion the end of the stream is never reached. *)
Lemma load_failed fuel t kb : load_lines fuel (mk_ss t true false) kb = Err OutOfFuel.
Proof. revert kb. induction fuel as [|fuel IH]; intros kb; [done|]. cbn. apply IH. Qed.

(** C21. The knowledge base of a context is its file without the empty lines,
    each line ended by a newline, and it is loaded in at most two steps more
    than the file has characters; but an empty file is never loaded: copying
    it into the stream sets the failure bit, and the loop waits for the end of
    the stream. *)
Theorem knowledge_base_loaded (fs : text -> option text) (kbspec t : text) :
  fs kbspec = Some t ->
  (t <> [] -> load_kb (length t + 2) fs kbspec = Ok (unlines (filter (fun l => l <> []) (lines t)))) /\
  (t = [] -> forall fuel, load_kb fuel fs kbspec = Err OutOfFuel).
Proof.
  intros Hf. unfold load_kb, addFileInput. rewrite Hf. rsimpl. unfold getAsStream, hasContent. cbn [contentNames provider_new app].
  rewrite bool_decide_false by done. change (assert (negb false)) with (Ok tt). rsimpl. split.
  - intros Ht. unfold insert_buf. cbn [stream provider_new good failbit eofbit orb negb rest app]. rewrite bool_decide_false by done.
    rewrite load_lines_ok by lia. done.
  - intros -> fuel. apply load_failed.
Qed.

(** ** The system *)

(** The other end of the pipes: the process with its arguments, what has
    arrived on its standard input, whether the input is complete, and how much
    of its output has been read. *)
Record child := mk_child { pid : Z; av : list text; stdin : text; input_closed : bool; taken : nat }.

(** What the next system calls do: the bytes that calls of [write] and [read]
    transfer at most, [None] for a failure, as many as possible when nothing
    is listed; the identifiers of new processes; whether a process still runs
    when it is closed, and the status it ends with. *)
Record system := mk_sys {
  writes : list (option N);
  reads : list (option N);
  pids : list Z;
  exits : list (bool * N);
}.

(** [NewProcessBuf]: the characters that wait in the two buffers, the open
    ends of the pipes ([inpipes[1]] and [outpipes[0]]) and the signals sent. *)
Record procbuf := mk_pb {
  process : option child;
  status : N;
  obuf : text;
  ibuf : text;
  in_fd : bool;
  out_fd : bool;
  sys : system;
  signals : list (Z * Z);
}.

Definition bufsize : nat := 256.
Definition SIGTERM : Z := 15.

Definition pb_new (sy : system) : procbuf := mk_pb None 0 [] [] false false sy [].

Definition set_obuf (pb : procbuf) (t : text) : procbuf :=
  mk_pb (process pb) (status pb) t (ibuf pb) (in_fd pb) (out_fd pb) (sys pb) (signals pb).
Definition set_ibuf (pb : procbuf) (t : text) : procbuf :=
  mk_pb (process pb) (status pb) (obuf pb) t (in_fd pb) (out_fd pb) (sys pb) (signals pb).
Definition set_child (pb : procbuf) (ch : child) (sy : system) : procbuf :=
  mk_pb (Some ch) (status pb) (obuf pb) (ibuf pb) (in_fd pb) (out_fd pb) sy (signals pb).

Section process.
Context (exec : list text -> text -> text).

(** [::write] on [inpipes[1]]. *)
Definition sys_write (pb : procbuf) (data : text) : Z * procbuf :=
  match process pb with
  | Some ch =>
      if in_fd pb then
        let put n ws := (Z.of_nat n, set_child pb (mk_child (pid ch) (av ch) (stdin ch ++ take n data) (input_closed ch) (taken ch))
                                       (mk_sys ws (reads (sys pb)) (pids (sys pb)) (exits (sys pb)))) in
        match writes (sys pb) with
        | [] => put (length data) []
        | Some n :: ws => put (N.to_nat n `min` length data)%nat ws
        | None :: ws => (-1, set_child pb ch (mk_sys ws (reads (sys pb)) (pids (sys pb)) (exits (sys pb))))%Z
        end
      else ((-1)%Z, pb)
  | None => ((-1)%Z, pb)
  end.

(** [::read] of at most [bufsize] bytes on [outpipes[0]]: nothing at the end
    of the output. *)
Definition sys_read (pb : procbuf) : res (option text * procbuf) :=
  match process pb with
  | Some ch =>
      if out_fd pb then
        if input_closed ch then
          let get n rs :=
            let t := take n (drop (taken ch) (exec (av ch) (stdin ch))) in
            (Some t, set_child pb (mk_child (pid ch) (av ch) (stdin ch) (input_closed ch) (taken ch + length t))
                       (mk_sys (writes (sys pb)) rs (pids (sys pb)) (exits (sys pb)))) in
          match reads (sys pb) with
          | [] => mret (get bufsize [])
          | Some n :: rs => mret (get (1 `max` (N.to_nat n `min` bufsize))%nat rs)
          | None :: rs => mret (None, set_child pb ch (mk_sys (writes (sys pb)) rs (pids (sys pb)) (exits (sys pb))))
          end
        else Err Blocked
      else mret (None, pb)
  | None => mret (None, pb)
  end.

(** ** [NewProcessBuf] *)

(** The loop of [sync] and the result of its last call of [write]. *)
Fixpoint write_loop (fuel : nat) (data : text) (pb : procbuf) : res (Z * procbuf) :=
  match fuel with
  | O => Err OutOfFuel
  | S fuel =>
      let '(ret, pb) := sys_write pb data in
      if (ret =? -1)%Z || (ret =? 0)%Z then mret (ret, pb)
      else match drop (Z.to_nat ret) data with
           | [] => mret (ret, pb)
           | data => write_loop fuel data pb
           end
  end.

Definition sync (pb : procbuf) : res (Z * procbuf) :=
  let pb := set_ibuf pb [] in
  match obuf pb with
  | [] => mret (0%Z, pb)
  | data =>
      '(ret, pb) ← write_loop (length data) data pb;
      let pb := set_obuf pb [] in
      if (ret =? 0)%Z then mret ((-1)%Z, pb)
      else if (ret <? 0)%Z then Err (Thrown "Process prematurely closed pipe before I could write")
      else mret (0%Z, pb)
  end.

(** [None] is the end of file. *)
Definition overflow (c : option ascii) (pb : procbuf) : res (bool * procbuf) :=
  '(r, pb) ← (if (bufsize <=? length (obuf pb))%nat then sync pb else mret (0%Z, pb));
  if (r =? -1)%Z then mret (false, pb)
  else match c with
       | Some c => mret (true, set_obuf pb (obuf pb ++ [c]))
       | None => mret (true, pb)
       end.

Definition underflow (pb : procbuf) : res (option ascii * procbuf) :=
  match ibuf pb with
  | c :: _ => mret (Some c, pb)
  | [] =>
      '(r, pb) ← sys_read pb;
      match r with
      | None => Err (Thrown "Process prematurely closed pipe before I could read")
      | Some [] => mret (None, pb)
      | Some (c :: t) => mret (Some c, set_ibuf pb (c :: t))
      end
  end.

Definition endoffile (pb : procbuf) : procbuf :=
  let pb := set_obuf pb [] in
  match process pb with
  | Some ch =>
      if in_fd pb then
        mk_pb (Some (mk_child (pid ch) (av ch) (stdin ch) true (taken ch))) (status pb) (obuf pb) (ibuf pb) false (out_fd pb) (sys pb) (signals pb)
      else pb
  | None => mk_pb None (status pb) (obuf pb) (ibuf pb) false (out_fd pb) (sys pb) (signals pb)
  end.

Definition close (kill : bool) (pb : procbuf) : Z * procbuf :=
  match process pb with
  | None => ((-1)%Z, pb)
  | Some ch =>
      let pb := set_ibuf (endoffile pb) [] in
      let '(running, st) := hd (false, 0) (exits (sys pb)) in
      let sy := mk_sys (writes (sys pb)) (reads (sys pb)) (pids (sys pb)) (tl (exits (sys pb))) in
      (Z.of_N (N.land (N.shiftr st 8) 255),
       mk_pb None st (obuf pb) (ibuf pb) (in_fd pb) false sy (if running : bool then signals pb ++ [(pid ch, SIGTERM)] else signals pb))
  end.

Definition open (args : list text) (pb : procbuf) : Z * procbuf :=
  let '(ret, pb) := match process pb with Some _ => close false pb | None => (0%Z, pb) end in
  if (ret =? 0)%Z then
    let new := hd 1%Z (pids (sys pb)) in
    let sy := mk_sys (writes (sys pb)) (reads (sys pb)) (tl (pids (sys pb))) (exits (sys pb)) in
    (new, mk_pb (Some (mk_child new args [] false 0)) (status pb) (obuf pb) (ibuf pb) true true sy (signals pb))
  else ((if (ret <? 0)%Z then ret else - ret)%Z, pb).

(** ** The stream classes of the standard library on the buffer *)

Definition sputc (c : ascii) (pb : procbuf) : res (bool * procbuf) :=
  if (length (obuf pb) <? bufsize)%nat then mret (true, set_obuf pb (obuf pb ++ [c])) else overflow (Some c) pb.

Fixpoint sputn (t : text) (pb : procbuf) : res (bool * procbuf) :=
  match t with
  | [] => mret (true, pb)
  | c :: t =>
      '(ok, pb) ← sputc c pb;
      if ok : bool then sputn t pb else mret (false, pb)
  end.

(** [os << t] and [os.flush()]; the streams throw when they become bad. *)
Definition insert (t : text) (pb : procbuf) : res procbuf :=
  '(ok, pb) ← sputn t pb;
  if ok : bool then mret pb else Err (Thrown "basic_ios::clear").

Definition flush (pb : procbuf) : res procbuf :=
  '(r, pb) ← sync pb;
  if (r =? -1)%Z then Err (Thrown "basic_ios::clear") else mret pb.

(** The characters of a line, and whether the end was reached before its
    delimiter. *)
Fixpoint getline_loop (fuel : nat) (pb : procbuf) : res (text * bool * procbuf) :=
  match fuel with
  | O => Err OutOfFuel
  | S fuel =>
      '(c, pb) ← underflow pb;
      match c with
      | None => mret ([], true, pb)
      | Some c =>
          let pb := set_ibuf pb (tl (ibuf pb)) in
          if is_char nl c then mret ([], false, pb)
          else '(line, eof, pb) ← getline_loop fuel pb; mret (c :: line, eof, pb)
      end
  end.

(** ** [DLVProcess] *)

(** [piped]: both stream pointers are set; [eof_seen]: the end-of-file bit of
    the input stream. *)
Record DLVProcess := mk_dlv { proc : procbuf; piped : bool; eof_seen : bool; executable : text; argv : list text }.

Definition set_proc (p : DLVProcess) (pb : procbuf) : DLVProcess := mk_dlv pb (piped p) (eof_seen p) (executable p) (argv p).

Definition dlv_new (sy : system) : DLVProcess := mk_dlv (pb_new sy) false false [] [].

Definition addOption (p : DLVProcess) (option : text) : DLVProcess :=
  mk_dlv (proc p) (piped p) (eof_seen p) (executable p) (argv p ++ [option]).

Definition setPath (p : DLVProcess) (path : text) : DLVProcess :=
  mk_dlv (proc p) (piped p) (eof_seen p) path (argv p).

Definition commandline (p : DLVProcess) : res (list text) :=
  _ ← assert (negb (bool_decide (executable p = [])));
  mret (executable p :: argv p).

Definition setupStreams (p : DLVProcess) : DLVProcess :=
  if piped p then p else mk_dlv (proc p) true false (executable p) (argv p).

Definition spawn (p : DLVProcess) : res DLVProcess :=
  let p := setupStreams p in
  cl ← commandline p;
  mret (set_proc p (open cl (proc p)).2).

Definition spawn_with (opt : list text) (p : DLVProcess) : res DLVProcess :=
  let p := setupStreams p in
  _ ← assert (negb (bool_decide (executable p = [])));
  mret (set_proc p (open (executable p :: opt) (proc p)).2).

Definition dlv_endoffile (p : DLVProcess) : DLVProcess := set_proc p (endoffile (proc p)).

Definition dlv_close (kill : bool) (p : DLVProcess) : res (Z * DLVProcess) :=
  _ ← assert (piped p);
  let '(r, pb) := close kill (proc p) in
  mret (r, mk_dlv pb (piped p) false (executable p) (argv p)).

(** [getOutput() << t] and [getOutput().flush()]. *)
Definition output (t : text) (p : DLVProcess) : res DLVProcess :=
  _ ← assert (piped p);
  pb ← insert t (proc p);
  mret (set_proc p pb).

Definition output_flush (p : DLVProcess) : res DLVProcess :=
  _ ← assert (piped p);
  pb ← flush (proc p);
  mret (set_proc p pb).

(** [std::getline(getInput(), line)] with an empty [line]: nothing is read
    after the end. *)
Definition input_line (fuel : nat) (p : DLVProcess) : res (text * DLVProcess) :=
  _ ← assert (piped p);
  if eof_seen p then mret ([], p)
  else
    '(line, eof, pb) ← getline_loop fuel (proc p);
    mret (line, mk_dlv pb (piped p) eof (executable p) (argv p)).

End process.

(** ** The evaluator and its process *)

(** The options of [Evaluator] and [DLVEvaluator]. *)
Definition includeFacts : bool := true.
Definition arguments : list text := [str "-silent"].

Section evaluator.
Context (exec : list text -> text -> text) (DLVPATH : text).
Context {T : Type} `{I : Indexed Belief belief_conflict (≡ₚ) T}.

Definition start_dlv (sy : system) : res DLVProcess :=
  let proc := setPath (dlv_new sy) DLVPATH in
  let proc := addOption proc (if includeFacts then str "-facts" else str "-nofacts") in
  let proc := fold_left addOption arguments proc in
  spawn (addOption proc (str "--")).

Fixpoint output_facts (ctx_id this_starting_offset : N) (btab : BeliefTable T) (poss : list N) (p : DLVProcess)
    : res DLVProcess :=
  match poss with
  | [] => mret p
  | pos :: poss =>
      belief ← btab_getByID btab (mk_ID (N.lor MAINKIND_BELIEF ctx_id) (u64_sub pos this_starting_offset mod 2 ^ 32));
      p ← output (str (b_text belief)) p;
      p ← output (str "." ++ [nl]) p;
      output_facts ctx_id this_starting_offset btab poss p
  end.

(** [DLVEvaluator::reset_process] on the process; [proc0] is what the member
    [proc] points to, null at construction and after every [solve]. *)
Definition reset_process (o : Offsets) (local_kb : string) (ctx_id : N) (hs : Heads) (btab : BeliefTable T)
    (proc0 : option DLVProcess) (sy : system) : res DLVProcess :=
  _ ← assert (match proc0 with None => true | Some _ => false end);
  p ← start_dlv sy;
  p ← output (str local_kb) p;
  off ← vec_at (starting_offsets o) ctx_id;
  p ← match heads hs with
      | None => mret p
      | Some head_input => poss ← true_positions head_input; output_facts ctx_id off btab poss p
      end;
  p ← output_flush p;
  mret (dlv_endoffile p).

(** The lines read up to an empty one, as the loops of the evaluator do. *)
Fixpoint read_answer (k fuel : nat) (p : DLVProcess) : res (list text * DLVProcess) :=
  match fuel with
  | O => Err OutOfFuel
  | S fuel =>
      '(line, p) ← input_line exec k p;
      match line with
      | [] => mret ([], p)
      | _ => '(ls, p) ← read_answer k fuel p; mret (line :: ls, p)
      end
  end.

End evaluator.

(** ** What arrives *)

Definition takes (c : option N) : Prop := exists n, c = Some n /\ 0 < n.

(** No call of [write] fails. *)
Definition steady (pb : procbuf) : Prop := Forall takes (writes (sys pb)).

(** The text [t] is on its way: sent or in the buffer. *)
Definition sending (args : list text) (rs : list (option N)) (t : text) (pb : procbuf) : Prop :=
  exists ch, process pb = Some ch /\ av ch = args /\ input_closed ch = false /\ taken ch = 0%nat /\
    stdin ch ++ obuf pb = t /\ in_fd pb = true /\ out_fd pb = true /\ reads (sys pb) = rs /\ ibuf pb = [] /\
    (length (obuf pb) <= bufsize)%nat.

(** A step that adds to the text, or throws because a call of [write] failed. *)
Definition sends (args : list text) (rs : list (option N)) (t : text) (pb : procbuf) (r : res procbuf) : Prop :=
  match r with
  | Ok pb' => sending args rs t pb' /\ (steady pb -> steady pb')
  | Err e => (exists w, e = Thrown w) /\ ~ steady pb
  end.

Lemma write_loop_ok ch fuel : forall data pb, process pb = Some ch -> in_fd pb = true -> data <> [] -> (length data <= fuel)%nat ->
  exists ret ws st, write_loop fuel data pb =
      Ok (ret, set_child pb (mk_child (pid ch) (av ch) st (input_closed ch) (taken ch))
                 (mk_sys ws (reads (sys pb)) (pids (sys pb)) (exits (sys pb)))) /\
    ((0 < ret)%Z /\ st = stdin ch ++ data /\ (steady pb -> Forall takes ws) \/ (ret = -1 \/ ret = 0)%Z /\ ~ steady pb).
Proof.
  revert ch. induction fuel as [|fuel IH]; intros ch data pb Hch Hfd Hd Hf; [destruct data; [done|cbn in Hf; lia]|].
  cbn [write_loop]. unfold sys_write. rewrite Hch, Hfd. destruct (writes (sys pb)) as [|[n|] ws] eqn:Hw.
  - exists (Z.of_nat (length data)), [], (stdin ch ++ data). destruct data as [|c data]; [done|].
    rewrite take_ge, Nat2Z.id, drop_ge by lia. destruct (Z.eqb_spec (Z.of_nat (length (c :: data))) (-1)); [lia|].
    destruct (Z.eqb_spec (Z.of_nat (length (c :: data))) 0); [cbn in *; lia|]. split; [done|]. left. split_and!; [cbn; lia|done|constructor].
  - set (m := (N.to_nat n `min` length data)%nat). destruct (Z.eqb_spec (Z.of_nat m) (-1)); [lia|].
    destruct (Z.eqb_spec (Z.of_nat m) 0) as [Hm|Hm]; cbn [orb].
    + do 3 eexists. split; [done|]. right. split; [by right|]. unfold steady. rewrite Hw. intros [(k & [= ->] & Hk) _]%Forall_cons.
      destruct data; [done|]. cbn in *. lia.
    + rewrite Nat2Z.id. destruct (drop m data) as [|c data'] eqn:Hdrop.
      * do 3 eexists. split; [done|]. left. split; [lia|]. split.
        -- f_equal. rewrite <- (take_drop m data) at 2. by rewrite Hdrop, app_nil_r.
        -- unfold steady. rewrite Hw. by intros [_ ?]%Forall_cons.
      * set (pb1 := set_child _ _ _).
        destruct (IH (mk_child (pid ch) (av ch) (stdin ch ++ take m data) (input_closed ch) (taken ch)) (c :: data') pb1) as (ret & ws' & st & -> & Hr);
          [done|done|done| |].
        { rewrite <- Hdrop, length_drop. lia. }
        exists ret, ws', st. split; [done|]. unfold steady in Hr |- *. cbn in Hr. rewrite Hw. destruct Hr as [(H1 & -> & H2)|[H1 H2]].
        -- left. split; [done|]. split; [|intros [_ ?]%Forall_cons; auto]. by rewrite <- app_assoc, <- Hdrop, take_drop.
        -- right. split; [done|]. intros [_ ?]%Forall_cons. by apply H2.
  - exists (-1)%Z, ws, (stdin ch). split; [by destruct ch|]. right. split; [by left|]. unfold steady. rewrite Hw. by intros [(k & [=] & _) _]%Forall_cons.
Qed.

Section sending.
Context (args : list text) (rs : list (option N)).

Lemma sync_ok t pb : sending args rs t pb ->
  match sync pb with
  | Ok (r, pb') => r = 0%Z /\ sending args rs t pb' /\ obuf pb' = [] /\ (steady pb -> steady pb') \/ r = (-1)%Z /\ ~ steady pb
  | Err e => (exists w, e = Thrown w) /\ ~ steady pb
  end.
Proof.
  intros (ch & Hch & Hav & Hc & Ht & <- & Hi & Ho & Hr & Hib & Hlen). unfold sync. cbn [obuf set_ibuf].
  destruct (obuf pb) as [|c data] eqn:Hob.
  - left. split_and!; [done| |done|done]. exists ch. cbn. rewrite Hob. by split_and!.
  - destruct (write_loop_ok ch (length (c :: data)) (c :: data) (set_ibuf pb [])) as (ret & ws & st & -> & Hres); [done..|]. rsimpl.
    destruct Hres as [(Hpos & -> & Hs)|[Hneg Hs]].
    + destruct (Z.eqb_spec ret 0); [lia|]. destruct (Z.ltb_spec ret 0); [lia|]. left. split_and!; [done| |done|exact Hs].
      eexists. split; [done|]. cbn. rewrite app_nil_r. split_and!; try done. lia.
    + destruct Hneg as [-> | ->]; cbn; [split; [by eexists|exact Hs]|]. right. split; [done|exact Hs].
Qed.

Lemma flush_ok t pb : sending args rs t pb ->
  match flush pb with
  | Ok pb' => sending args rs t pb' /\ obuf pb' = [] /\ (steady pb -> steady pb')
  | Err e => (exists w, e = Thrown w) /\ ~ steady pb
  end.
Proof.
  intros H%sync_ok. unfold flush. destruct (sync pb) as [[r pb']|e]; [|done]. rsimpl.
  destruct H as [(-> & ? & ? & ?)|[-> ?]]; [done|]. cbn. split; [by eexists|done].
Qed.

Lemma put_sending t pb c : sending args rs t pb -> (length (obuf pb) < bufsize)%nat ->
  sending args rs (t ++ [c]) (set_obuf pb (obuf pb ++ [c])).
Proof.
  intros (ch & Hch & Hav & Hc & Ht & <- & Hi & Ho & Hr & Hib & _) Hlen. exists ch. cbn. split_and!; try done.
  - by rewrite app_assoc.
  - rewrite length_app. cbn. lia.
Qed.

Lemma sputc_ok t pb c : sending args rs t pb ->
  match sputc c pb with
  | Ok (ok, pb') => ok = true /\ sending args rs (t ++ [c]) pb' /\ (steady pb -> steady pb') \/ ok = false /\ ~ steady pb
  | Err e => (exists w, e = Thrown w) /\ ~ steady pb
  end.
Proof.
  intros H. unfold sputc. destruct (Nat.ltb_spec (length (obuf pb)) bufsize) as [Hl|Hl].
  - left. split; [done|]. split; [by apply put_sending|done].
  - unfold overflow. destruct (Nat.leb_spec bufsize (length (obuf pb))); [|lia].
    pose proof (sync_ok t pb H) as Hs. destruct (sync pb) as [[r pb']|e]; [|done]. rsimpl.
    destruct Hs as [(-> & Hse & Hob & Hst)|[-> Hst]]; [|by right]. cbn. left. split; [done|]. split; [|done].
    apply put_sending; [done|]. rewrite Hob. cbn. unfold bufsize. lia.
Qed.

Lemma insert_ok u : forall t pb, sending args rs t pb -> sends args rs (t ++ u) pb (insert u pb).
Proof.
  unfold insert. induction u as [|c u IH]; intros t pb H; cbn [sputn]; [by rewrite app_nil_r|].
  pose proof (sputc_ok t pb c H) as Hc. destruct (sputc c pb) as [[ok pb']|e]; [|done]. rsimpl.
  destruct Hc as [(-> & Hse & Hst)|[-> Hst]]; [|by split; [eexists|]].
  specialize (IH (t ++ [c]) pb' Hse). rewrite <- app_assoc in IH.
  destruct (r ← sputn u pb'; _) as [pb2|e]; destruct IH as [H1 H2]; (split; [done|auto]).
Qed.

(** The same on the process object. *)
Definition sends_p (t : text) (p : DLVProcess) (r : res DLVProcess) : Prop :=
  match r with
  | Ok p' => sending args rs t (proc p') /\ (steady (proc p) -> steady (proc p')) /\ piped p' = true /\ eof_seen p' = false
  | Err e => (exists w, e = Thrown w) /\ ~ steady (proc p)
  end.

Lemma output_ok t u p : sending args rs t (proc p) -> piped p = true -> eof_seen p = false ->
  sends_p (t ++ u) p (output u p).
Proof.
  intros H Hp He. unfold output. rewrite Hp. change (assert true) with (Ok tt). rsimpl.
  pose proof (insert_ok u t (proc p) H) as Hi. destruct (insert u (proc p)); [|done]. destruct Hi. rsimpl. done.
Qed.

End sending.

(** ** Writing the program *)

Lemma str_app (a b : string) : str (a ++ b)%string = str a ++ str b.
Proof. unfold str. induction a as [|c a IH]; [done|]. exact (f_equal (cons c) IH). Qed.

Section writing.
Context (args : list text) (rs : list (option N)).

Lemma sends_bind t t' p r (f : DLVProcess -> res DLVProcess) : sends_p args rs t p r ->
  (forall p', sending args rs t (proc p') -> piped p' = true -> eof_seen p' = false -> sends_p args rs t' p' (f p')) ->
  sends_p args rs t' p (p' ← r; f p').
Proof.
  intros H Hf. destruct r as [p'|e]; [|done]. destruct H as (Hs & Hst & Hp & He). specialize (Hf p' Hs Hp He). rsimpl.
  destruct (f p'); cbn in *; tauto.
Qed.

Context {T : Type} `{I : Indexed Belief belief_conflict (≡ₚ) T}.

Lemma output_facts_ok ctx off (btab : BeliefTable T) poss : forall program program' p,
  Evaluator.head_facts ctx off btab poss program = Ok program' ->
  sending args rs (str program) (proc p) -> piped p = true -> eof_seen p = false ->
  sends_p args rs (str program') p (output_facts ctx off btab poss p).
Proof.
  induction poss as [|pos poss IH]; intros program program' p; cbn [Evaluator.head_facts output_facts].
  - intros [= ->] Hs Hp He. done.
  - intros H Hs Hp He. apply bind_ok in H as (b & Hb & H). rewrite Hb. rsimpl.
    eapply (sends_bind (str program ++ str (b_text b))); [by apply output_ok|]. intros p1 H1 Hp1 He1.
    eapply sends_bind; [by apply output_ok|]. intros p2 H2 Hp2 He2. eapply IH; [exact H| |done|done].
    by rewrite !str_app, !app_assoc in *.
Qed.

End writing.

(** ** Reading the answer *)

Section reading.
Context (exec : list text -> text -> text).

(** [u] is what can still be read; no call of [read] fails. *)
Definition pending (u : text) (pb : procbuf) : Prop :=
  exists ch, process pb = Some ch /\ input_closed ch = true /\ out_fd pb = true /\
    ibuf pb ++ drop (taken ch) (exec (av ch) (stdin ch)) = u /\ Forall (fun c => c <> None) (reads (sys pb)).

Lemma sys_read_ok u pb : pending u pb -> ibuf pb = [] ->
  exists t pb', sys_read exec pb = Ok (Some t, pb') /\ (t = [] <-> u = []) /\ pending u (set_ibuf pb' t).
Proof.
  intros (ch & Hch & Hc & Ho & Hu & Hr) Hib. rewrite Hib in Hu. cbn [app] in Hu. unfold sys_read. rewrite Hch, Ho, Hc, Hu.
  assert (Hget : forall n rs, (0 < n)%nat -> Forall (fun c => c <> None) rs -> let t := take n u in (t = [] <-> u = []) /\
    pending u (set_ibuf (set_child pb (mk_child (pid ch) (av ch) (stdin ch) true (taken ch + length t))
                           (mk_sys (writes (sys pb)) rs (pids (sys pb)) (exits (sys pb)))) t)).
  { intros n rs Hn Hrs t. split; [destruct u, n; cbn; (lia || done)|]. eexists. cbn. split_and!; [done..| |done].
    cbn [taken av stdin]. rewrite <- drop_drop, Hu. subst t. rewrite length_take. destruct (Nat.le_ge_cases n (length u)).
    - by rewrite Nat.min_l, take_drop by lia.
    - by rewrite Nat.min_r, take_ge, drop_all, app_nil_r by lia. }
  destruct (reads (sys pb)) as [|[n|] rs].
  - do 2 eexists. split; [done|]. apply Hget; [unfold bufsize; lia|done].
  - apply Forall_cons in Hr as [_ Hr]. do 2 eexists. split; [done|]. apply Hget; [lia|done].
  - by apply Forall_cons in Hr as [? _].
Qed.

Lemma underflow_ok u pb : pending u pb ->
  match u with
  | [] => exists pb', underflow exec pb = Ok (None, pb') /\ pending [] (set_ibuf pb' [])
  | c :: u => exists pb', underflow exec pb = Ok (Some c, pb') /\ pending u (set_ibuf pb' (tl (ibuf pb')))
  end.
Proof.
  intros H. unfold underflow. destruct (ibuf pb) as [|c t] eqn:Hib.
  - destruct (sys_read_ok u pb H Hib) as (t & pb' & -> & Ht & Hp). rsimpl. destruct t as [|c t].
    + destruct u; [|discriminate (proj1 Ht eq_refl)]. by exists pb'.
    + destruct u as [|d u]; [discriminate (proj2 Ht eq_refl)|]. destruct Hp as (ch & H1 & H2 & H3 & H4 & H5). cbn in H4. injection H4 as -> H4.
      eexists. split; [done|]. cbn. exists ch. cbn. done.
  - destruct H as (ch & H1 & H2 & H3 & <- & H5). rewrite Hib. cbn. exists pb. split; [done|]. exists ch. cbn. by rewrite Hib.
Qed.

Lemma getline_loop_ok fuel : forall u pb, pending u pb -> (length u < fuel)%nat ->
  let '(line, rest, eof) := getline u in
  exists pb', getline_loop exec fuel pb = Ok (line, eof, pb') /\ (eof = false -> pending rest pb').
Proof.
  induction fuel as [|fuel IH]; intros u pb Hp Hf; [lia|]. pose proof (underflow_ok u pb Hp) as Hu.
  destruct u as [|c u]; cbn [getline getline_loop].
  - destruct Hu as (pb' & -> & _). rsimpl. by exists pb'.
  - destruct Hu as (pb' & -> & Hp'). rsimpl. destruct (is_char nl c); [by eexists|]. cbn in Hf. specialize (IH u _ Hp' ltac:(lia)).
    destruct (getline u) as [[line rst] eof]. destruct IH as (pb2 & -> & H2). rsimpl. by exists pb2.
Qed.

Lemma read_answer_ok k fuel : forall u p, pending u (proc p) -> piped p = true -> eof_seen p = false ->
  (length u < k)%nat -> (length u + 1 < fuel)%nat ->
  exists p', read_answer exec k fuel p = Ok (str <$> Evaluator.answer (unstr <$> lines u), p').
Proof.
  induction fuel as [|fuel IH]; intros u p Hu Hp He Hk Hf; [lia|]. cbn [read_answer]. unfold input_line. rewrite Hp, He.
  change (assert true) with (Ok tt). rsimpl. pose proof (getline_loop_ok k u (proc p) Hu Hk) as Hl.
  destruct (decide (u = [])) as [->|Hne].
  - cbn in Hl. destruct Hl as (pb' & -> & _). rsimpl. by eexists.
  - pose proof (lines_getline u Hne) as Hlines. destruct (getline u) as [[line rst] eof] eqn:E. destruct Hlines as [-> Heof].
    destruct Hl as (pb' & -> & Hrest). rsimpl. destruct line as [|c line]; [by eexists|].
    cbn [fmap list_fmap Evaluator.answer]. rewrite bool_decide_false by done. cbn [fmap list_fmap].
    assert (Hs : str (unstr (c :: line)) = c :: line) by apply String.list_ascii_of_string_of_list_ascii. rewrite Hs.
    destruct eof.
    + destruct fuel as [|fuel]; [lia|]. cbn [read_answer]. unfold input_line. cbn [piped eof_seen]. change (assert true) with (Ok tt). rsimpl. by eexists.
    + apply getline_length in E. destruct (IH rst (mk_dlv pb' true false (executable p) (argv p))) as (p' & ->);
        [by apply Hrest|done|done|lia|lia|]. rsimpl. by eexists.
Qed.

End reading.

(** ** The conversation with the solver *)

Section conversation.
Context (exec : list text -> text -> text) (DLVPATH : text) (Hpath : DLVPATH <> []).
Context {T : Type} `{I : Indexed Belief belief_conflict (≡ₚ) T}.

Definition dlv_args : list text := [DLVPATH; str "-facts"; str "-silent"; str "--"].

(** The solver as a function from programs to the lines it prints. *)
Definition solver (program : string) : list string := unstr <$> lines (exec dlv_args (str program)).

(** The process has read the program and its end. *)
Definition received (program : string) (p : DLVProcess) : Prop :=
  exists ch, process (proc p) = Some ch /\ av ch = dlv_args /\ stdin ch = str program /\ input_closed ch = true.

Lemma start_dlv_ok sy : exists p, start_dlv DLVPATH sy = Ok p /\ sending dlv_args (reads sy) [] (proc p) /\
  piped p = true /\ eof_seen p = false /\ writes (sys (proc p)) = writes sy.
Proof.
  unfold start_dlv, spawn, commandline. cbn. rewrite bool_decide_false by done. change (assert (negb false)) with (Ok tt). rsimpl.
  eexists. split; [done|]. cbn. split; [|done]. eexists. cbn. split_and!; try done. lia.
Qed.

(** The end of the program is sent after everything was flushed. *)
Lemma finish_ok program (rs : list (option N)) p : sending dlv_args rs (str program) (proc p) -> piped p = true -> eof_seen p = false ->
  match (p ← output_flush p; mret (dlv_endoffile p)) with
  | Ok p' => received program p' /\ piped p' = true /\ eof_seen p' = false /\
      (Forall (fun c => c <> None) rs -> pending exec (exec dlv_args (str program)) (proc p'))
  | Err e => (exists w, e = Thrown w) /\ ~ steady (proc p)
  end.
Proof.
  intros Hs Hp He. unfold output_flush. rewrite Hp. change (assert true) with (Ok tt). rsimpl.
  pose proof (flush_ok _ _ _ _ Hs) as Hf. destruct (flush (proc p)) as [pb|e]; [|done]. rsimpl.
  destruct Hf as ((ch & Hch & Hav & Hc & Ht & Hst & Hi & Ho & Hr & Hib & _) & Hob & _). rewrite Hob, app_nil_r in Hst.
  unfold dlv_endoffile, endoffile. cbn. rewrite Hch, Hi. split; [|split; [done|split; [done|]]].
  - eexists. cbn. done.
  - intros Hrs. eexists. cbn. split; [done|]. cbn. rewrite Hib, Ht, Hav, Hst, Hr. done.
Qed.

(** Writing the whole program. *)
Lemma reset_process_ok o local_kb ctx hs (btab : BeliefTable T) sy ev ev' ls :
  Evaluator.reset_process solver o local_kb ctx hs btab ev = Ok (ev', ls) ->
  match reset_process DLVPATH o local_kb ctx hs btab None sy with
  | Ok p => exists program, ls = solver program /\ received program p /\ piped p = true /\ eof_seen p = false /\
      (Forall (fun c => c <> None) (reads sy) -> pending exec (exec dlv_args (str program)) (proc p))
  | Err e => (exists w, e = Thrown w) /\ ~ Forall takes (writes sy)
  end.
Proof.
  unfold Evaluator.reset_process, reset_process. change (assert true) with (Ok tt). rsimpl.
  intros H. apply bind_ok in H as (off & Hoff & H).
  apply bind_ok in H as (program & Hprog & [= _ <-]). destruct (start_dlv_ok sy) as (p0 & -> & Hs0 & Hp0 & He0 & Hw). rsimpl.
  assert (H : sends_p dlv_args (reads sy) (str program) p0
    (p ← output (str local_kb) p0; off ← vec_at (starting_offsets o) ctx;
     match heads hs with None => mret p | Some h => poss ← true_positions h; output_facts ctx off btab poss p end)).
  { eapply sends_bind; [by apply output_ok|]. intros p1 H1 Hp1 He1. cbn [app] in H1. rewrite Hoff. rsimpl.
    destruct (heads hs) as [h|]; [|by injection Hprog as ->]. apply bind_ok in Hprog as (poss & -> & Hprog). rsimpl.
    by eapply output_facts_ok. }
  match goal with |- match ?r with _ => _ end => assert (Er : r = (p ← (p ← output (str local_kb) p0; off ← vec_at (starting_offsets o) ctx;
     match heads hs with None => mret p | Some h => poss ← true_positions h; output_facts ctx off btab poss p end);
     p ← output_flush p; mret (dlv_endoffile p))) end.
  { destruct (output (str local_kb) p0); [|done]. rsimpl. by destruct (vec_at _ _). }
  rewrite Er. clear Er. match goal with |- context [mbind _ ?r] => destruct r as [p1|e] end.
  - destruct H as (H1 & Hst & Hp1 & He1). rsimpl. pose proof (finish_ok program (reads sy) p1 H1 Hp1 He1) as Hf.
    destruct (p ← output_flush p1; _) as [p2|e]; [exists program; tauto|]. split; [tauto|]. intros Hall. apply Hf, Hst. unfold steady. by rewrite Hw.
  - destruct H as [Hth Hns]. split; [done|]. unfold steady in Hns. by rewrite Hw in Hns.
Qed.

(** C20. However the system cuts the bytes, the solver process gets exactly the
    program: [reset_process], called with no process left, ends with the complete text and the end of file on
    its standard input, or with an exception, which is raised only when a call
    of [write] has failed.  The loop of [getline] calls that follows then reads
    the lines the process prints, up to the first empty one, and ends. *)
Theorem solver_conversation o local_kb ctx hs (btab : BeliefTable T) sy ev ev' ls :
  Evaluator.reset_process solver o local_kb ctx hs btab ev = Ok (ev', ls) ->
  match reset_process DLVPATH o local_kb ctx hs btab None sy with
  | Ok p => (exists program, ls = solver program /\ received program p) /\
      (Forall (fun c => c <> None) (reads sy) ->
       exists n, forall k, (n <= k)%nat -> exists p', read_answer exec k k p = Ok (str <$> Evaluator.answer ls, p'))
  | Err e => (exists w, e = Thrown w) /\ ~ Forall takes (writes sy)
  end.
Proof.
  intros H%(reset_process_ok _ _ _ _ _ sy). destruct (reset_process _ _ _ _ _ _ _ _) as [p|]; [|done].
  destruct H as (program & -> & Hr & Hp & He & Hpend). split; [by eauto|]. intros Hrs.
  exists (length (exec dlv_args (str program)) + 2)%nat. intros k Hk.
  by apply read_answer_ok; [apply Hpend| | |lia|lia].
Qed.

End conversation.

(** ** Further behaviour *)

(** A file of lines that are not empty is loaded as it stands. *)
Lemma lines_unlines (ls : list text) : Forall (fun l => nl ∉ l) ls -> lines (unlines ls) = ls.
Proof.
  induction 1 as [|l ls Hl _ IH]; [done|]. unfold unlines in *. cbn [mbind list_bind]. rewrite <- app_assoc. cbn [app].
  induction l as [|c l IHl]; cbn [app lines]; [by rewrite IH|]. apply not_elem_of_cons in Hl as [Hc Hl].
  assert (E : is_char nl c = false) by (apply Ascii.eqb_neq; congruence). by rewrite E, (IHl Hl).
Qed.

(** The argument of [close] has no effect: a process that still runs is always
    sent a signal. *)
Lemma close_ignores_kill pb : close true pb = close false pb.
Proof. done. Qed.

Lemma close_signals pb ch st rest : process pb = Some ch -> exits (sys pb) = (true, st) :: rest ->
  signals (close false pb).2 = signals pb ++ [(pid ch, SIGTERM)].
Proof. intros Hch He. unfold close, endoffile. rewrite Hch. cbn. rewrite Hch. destruct (in_fd pb); cbn; by rewrite He. Qed.

(** A process that was not reset is never replaced. *)
Lemma running_process_kept {T} `{I : Indexed Belief belief_conflict (≡ₚ) T} path o kb ctx hs (btab : BeliefTable T) p sy :
  reset_process path o kb ctx hs btab (Some p) sy = Err AssertFailed.
Proof. done. Qed.

(** What was not flushed is lost at the end of file. *)
Lemma unflushed_text_lost pb ch : process pb = Some ch -> in_fd pb = true ->
  exists ch', process (endoffile pb) = Some ch' /\ stdin ch' = stdin ch /\ obuf (endoffile pb) = [].
Proof. intros Hch Hi. unfold endoffile. cbn. rewrite Hch, Hi. cbn. by eexists. Qed.

(** Flushing the output drops what was received but not yet read. *)
Lemma sync_drops_input pb r pb' : sync pb = Ok (r, pb') -> ibuf pb' = [].
Proof.
  assert (H : forall fuel data q r q', write_loop fuel data q = Ok (r, q') -> ibuf q' = ibuf q).
  { induction fuel as [|fuel IH]; intros data q z q'; [done|]. cbn [write_loop]. destruct (sys_write q data) as [ret q1] eqn:E.
    assert (E1 : ibuf q1 = ibuf q).
    { unfold sys_write in E. destruct (process q); [|by injection E as _ <-]. destruct (in_fd q); [|by injection E as _ <-].
      destruct (writes (sys q)) as [|[|]]; by injection E as _ <-. }
    destruct (_ || _); [intros [= _ <-]; done|]. destruct (drop _ data); [intros [= _ <-]; done|]. intros H%IH. by rewrite H. }
  unfold sync. cbn [obuf set_ibuf]. destruct (obuf pb); [by intros [= _ <-]|]. intros Hb. apply bind_ok in Hb as ([ret q] & Hw%H & Hb).
  destruct (_ =? _)%Z; [injection Hb as _ <-; done|]. destruct (_ <? _)%Z; [done|]. injection Hb as _ <-. done.
Qed.

(** ** Samples *)

(** A file with an empty line. *)
Definition kb_file (name : text) : option text := Some (str "a." ++ [nl; nl] ++ str "b:- a.").

Lemma knowledge_base_loaded_witness :
  (str "a." ++ [nl; nl] ++ str "b:- a." <> [] ->
     load_kb (length (str "a." ++ [nl; nl] ++ str "b:- a.") + 2) kb_file [] =
       Ok (unlines (filter (fun l => l <> []) (lines (str "a." ++ [nl; nl] ++ str "b:- a."))))) /\
  (str "a." ++ [nl; nl] ++ str "b:- a." = [] -> forall fuel, load_kb fuel kb_file [] = Err OutOfFuel).
Proof. apply (knowledge_base_loaded kb_file [] (str "a." ++ [nl; nl] ++ str "b:- a.")). reflexivity. Defined.

Lemma kb_sample : load_kb 12 kb_file [] = Ok (str "a." ++ [nl] ++ str "b:- a." ++ [nl]).
Proof. vm_compute. reflexivity. Qed.

(** A solver that repeats its input in braces, between pipes that transfer one
    to three bytes at a time. *)
Definition echo (args : list text) (t : text) : text := str "{" ++ filter (fun c => c <> nl) t ++ str "}" ++ [nl].

Definition slow_pipes : system := mk_sys [Some 3; Some 1; Some 2] [Some 1; Some 0; Some 5] [] [].

Definition echo_heads : Heads := mk_heads None 0 0 (Some sample_input).

Definition echo_reset : res DLVProcess :=
  reset_process (T := list Belief) (str "dlv") (layout 2 2) "a:- not b." 0 echo_heads btab_new None slow_pipes.

Lemma solver_conversation_witness :
  match echo_reset with
  | Ok p => (exists program, ["{a:- not b.}"%string] = solver echo (str "dlv") program /\ received (str "dlv") program p) /\
      (Forall (fun c => c <> None) (reads slow_pipes) ->
       exists n, forall k, (n <= k)%nat -> exists p', read_answer echo k k p = Ok (str <$> Evaluator.answer ["{a:- not b.}"%string], p'))
  | Err e => (exists w, e = Thrown w) /\ ~ Forall takes (writes slow_pipes)
  end.
Proof.
  unfold echo_reset. refine (solver_conversation echo (str "dlv") _ (T := list Belief) (layout 2 2) "a:- not b." 0 echo_heads btab_new
    slow_pipes Evaluator.eval_new (Evaluator.mk_eval 0 []) ["{a:- not b.}"%string] _).
  - discriminate.
  - vm_compute. reflexivity.
Defined.

Lemma echo_sample : (p ← echo_reset; fst <$> read_answer echo 20 20 p) = Ok [str "{a:- not b.}"].
Proof. vm_compute. reflexivity. Qed.

End SolverProcess.
