(* ===== verification/BeliefStateOps.v ===== *)
(** * Sequences of operations on a belief state

    A belief state is built by one of the constructors of [NewBeliefState]
    (include/mcs/NewBeliefState.h) and then changed by its operators, its
    setters, [resize], [clear], [operator&] with a mask and [combine].  Here
    they are the instructions of a small language, in which the type
    invariant [bs_wf] is a typing judgement: what is built is well-formed, and
    the only way to go wrong is a failing assertion or an index outside a
    vector of offsets or masks. *)

From S2P Require Import Prelude BitMagic BeliefState.
Import BitMagic BeliefState.

Module BeliefStateOps.

Inductive creation :=
  | New
  | NewSized (n : N) (setall : bool)
  | NewBlocks (no_bs bs_size : N) (setall : bool).

Definition create (c : creation) : res NewBeliefState :=
  match c with
  | New => mret bs_default
  | NewSized n setall => bs_sized n setall
  | NewBlocks no_bs bs_size setall => bs_blocks no_bs bs_size setall
  end.

Inductive operation :=
  | Set_ (pos : N) (val : TruthVal)
  | SetCtx (ctx_id pos : N) (starting_offset : list N) (val : TruthVal)
  | SetEpsilon (ctx_id : N) (starting_offset : list N)
  | SetEpsilonAll (starting_offset : list N)
  | Or (bs : NewBeliefState)
  | And (bs : NewBeliefState)
  | AndMask (mask : bvector)
  | Assign (bs : NewBeliefState)
  | Resize (n : N)
  | Clear
  | Combine (t : NewBeliefState) (starting_offsets : list N) (masks : list bvector).

Definition apply_op (bs : NewBeliefState) (op : operation) : res NewBeliefState :=
  match op with
  | Set_ pos val => set bs pos val
  | SetCtx ctx_id pos offs val => set_ctx bs ctx_id pos offs val
  | SetEpsilon ctx_id offs => setEpsilon bs ctx_id offs
  | SetEpsilonAll offs => setEpsilon_all bs offs
  | Or b => mret (bs_or bs b)
  | And b => mret (bs_and bs b)
  | AndMask mask => and_bm bs mask
  | Assign b => bs_assign bs b
  | Resize n => bs_resize bs n
  | Clear => mret (bs_clear bs)
  | Combine t offs masks => snd <$> combine bs t offs masks
  end.

Definition build (c : creation) (ops : list operation) : res NewBeliefState :=
  bs ← create c;
  foldM apply_op bs ops.

(** ** Typing *)

(** Well-formed at some size. *)
Definition typed (bs : NewBeliefState) : Prop := exists n, bs_wf n bs.

(** Sizes are 32-bit numbers below the maximum. *)
Definition creation_typed (c : creation) : Prop :=
  match c with
  | New => True
  | NewSized n _ => n <= id_max
  | NewBlocks no_bs bs_size _ => no_bs * (bs_size + 1) <= id_max
  end.

Definition op_typed (op : operation) : Prop :=
  match op with
  | Or b | And b | Assign b => typed b
  | Resize n => n <= id_max
  | Combine t _ _ => typed t
  | _ => True
  end.

(** A result that satisfies [P], or one of the two failures that the code
    checks for or that an index can cause. *)
Definition safe {A} (P : A -> Prop) (r : res A) : Prop :=
  match r with
  | Ok a => P a
  | Err AssertFailed | Err IndexOutOfRange => True
  | Err _ => False
  end.

Lemma safe_bind {A B} (P : A -> Prop) (Q : B -> Prop) (r : res A) (f : A -> res B) :
  safe P r -> (forall a, P a -> safe Q (f a)) -> safe Q (a ← r; f a).
Proof. destruct r as [a|e]; cbn; [auto|done]. Qed.

Lemma safe_assert b : safe (fun _ => b = true) (assert b).
Proof. by destruct b. Qed.

Lemma safe_vec_at {A} (l : list A) i : safe (fun _ => True) (vec_at l i).
Proof. unfold vec_at. by destruct (l !! N.to_nat i). Qed.

Lemma safe_mono {A} (P Q : A -> Prop) r : safe P r -> (forall a, P a -> Q a) -> safe Q r.
Proof. destruct r; cbn; auto. Qed.

Lemma safe_foldM {A B} (P : B -> Prop) (Q : A -> Prop) (f : B -> A -> res B) l b :
  P b -> Forall Q l -> (forall b a, P b -> Q a -> safe P (f b a)) -> safe P (foldM f b l).
Proof.
  intros Hb Hl Hf. revert b Hb. induction Hl as [|a l Ha _ IH]; intros b Hb; cbn; [done|].
  eapply safe_bind; [by apply Hf|]. intros b' Hb'. by apply IH.
Qed.

(** ** Every operation is typed *)

Ltac safe_step := eapply safe_bind; [first [apply safe_assert|apply safe_vec_at]|]; cbn beta; intros.

Lemma wf_or_max n m a b : bs_wf n a -> bs_wf m b -> bs_wf (N.max n m) (bs_or a b).
Proof.
  intros [] []. split; cbn; [congruence|congruence|lia|auto with bits..].
  intros i. autorewrite with bits. rewrite !orb_true_iff. intuition.
Qed.

Lemma wf_and_max n m a b : bs_wf n a -> bs_wf m b -> bs_wf (N.max n m) (bs_and a b).
Proof.
  intros [] []. split; cbn; [congruence|congruence|lia|auto with bits..].
  intros i. autorewrite with bits. rewrite !andb_true_iff. intuition.
Qed.

Lemma set_typed n bs pos val : bs_wf n bs -> safe (bs_wf n) (set bs pos val).
Proof.
  intros H. destruct (N.lt_ge_cases pos n) as [Hp|Hp].
  - rewrite (set_ok n) by done. by apply wf_put.
  - unfold set. rewrite (bs_size_ok _ _ H). rsimpl. by rewrite (proj2 (N.ltb_ge _ _) Hp).
Qed.

Lemma set_ctx_typed n bs c pos offs val : bs_wf n bs -> safe (bs_wf n) (set_ctx bs c pos offs val).
Proof. intros H. unfold set_ctx. safe_step. safe_step. rewrite (bs_size_ok _ _ H). rsimpl. safe_step. by apply set_typed. Qed.

Lemma setEpsilon_typed n bs c offs : bs_wf n bs -> safe (bs_wf n) (setEpsilon bs c offs).
Proof.
  intros H. unfold setEpsilon. destruct (vec_at offs c) as [off|e] eqn:E; rsimpl; [|by pose proof (safe_vec_at offs c) as Hs; rewrite E in Hs].
  destruct (N.lt_ge_cases off n) as [Hp|Hp].
  - rewrite !set_bit_ok by (by rewrite ?(wf_status_size _ _ H), ?(wf_value_size _ _ H)). rsimpl.
    change (mk_bs _ _) with (put bs off DMCS_TRUE). by apply wf_put.
  - assert (set_bit (status_bit bs) off true = Err AssertFailed) as ->; [|done].
    unfold set_bit. by rewrite (wf_status_size _ _ H), (proj2 (N.ltb_ge _ _) Hp).
Qed.

Lemma setEpsilon_all_typed n bs offs : bs_wf n bs -> safe (bs_wf n) (setEpsilon_all bs offs).
Proof.
  intros H. apply (safe_foldM _ (fun _ => True)); [done|by apply Forall_true|]. intros b c Hb _. by apply setEpsilon_typed.
Qed.

Lemma and_bm_typed n bs mask : bs_wf n bs -> safe (fun r => bs_wf n r /\ size_ mask = n) (and_bm bs mask).
Proof.
  intros H. destruct (N.eq_dec (size_ mask) n) as [E|E].
  - destruct (and_bm_ok n bs mask H E) as (b & -> & Hb & _). done.
  - unfold and_bm. rewrite (bs_size_ok _ _ H). rsimpl. destruct (N.eqb_spec n (size_ mask)); [congruence|done].
Qed.

Lemma testbit_range_mask lo hi i : lo <= i -> i <= hi -> N.testbit (range_mask lo hi) i = true.
Proof. intros H1 H2. unfold range_mask. rewrite N.shiftl_spec_high' by done. apply N.ones_spec_low. lia. Qed.

Lemma wf_resize v n : wf v -> wf (resize v n).
Proof.
  intros H. unfold resize. destruct (N.eqb_spec (size_ v) n); [done|]. destruct (N.ltb_spec (size_ v) n).
  - intros i Hi. apply H. cbn in Hi. lia.
  - intros i Hi. cbn [bits set_range_no_check size_] in *. rewrite N.ldiff_spec. destruct (N.lt_ge_cases i (size_ v)) as [Hl|Hl].
    + rewrite testbit_range_mask by lia. by rewrite andb_false_r.
    + by rewrite H.
Qed.

Lemma resize_typed n m bs : bs_wf n bs -> m <= id_max -> safe (bs_wf m) (bs_resize bs m).
Proof.
  intros [E1 E2 Hm W1 W2 Hc] Hn. unfold bs_resize. safe_step. cbn [safe mret res_ret].
  split; cbn [status_bit value_bit]; [apply size_resize|apply size_resize|done|by apply wf_resize|by apply wf_resize|].
  intros i. unfold resize. rewrite E1, E2. destruct (n =? m); [apply Hc|]. destruct (n <? m); [apply Hc|].
  cbn [bits set_range_no_check]. rewrite !N.ldiff_spec, !andb_true_iff. intros [? ?]. auto.
Qed.

Lemma assign_typed bs b n : bs_wf n b -> safe (bs_wf n) (bs_assign bs b).
Proof. intros H. unfold bs_assign. safe_step. rewrite !assign_eq. by destruct b. Qed.

Lemma clear_typed n bs : bs_wf n bs -> bs_wf n (bs_clear bs).
Proof. intros []. split; cbn; try done; apply bits_below_0. Qed.

Lemma isEpsilon_safe bs c offs : safe (fun _ => True) (isEpsilon bs c offs).
Proof.
  unfold isEpsilon. safe_step. unfold get_bit. eapply (safe_bind (fun _ => True)); [|by intros].
  eapply safe_bind; [apply safe_assert|]. by intros.
Qed.

Lemma combine_typed n bs t offs masks : bs_wf n bs -> typed t -> safe (fun r => bs_wf n r.2) (combine bs t offs masks).
Proof.
  intros H [m Ht]. unfold combine. safe_step. rewrite (bs_size_ok _ _ H), (bs_size_ok _ _ Ht). rsimpl. safe_step. safe_step. safe_step. safe_step.
  match goal with H : (n =? m) = true |- _ => apply N.eqb_eq in H; subst m end.
  eapply (safe_bind (fun _ => True)).
  { destruct (1 <? _); [|done]. do 3 safe_step. eapply safe_mono; [apply safe_assert|done]. }
  intros _ _. eapply (safe_bind (fun _ => True)).
  { apply (safe_foldM _ (fun _ => True)); [done|by apply Forall_true|]. intros [check comb] i _ _. unfold combine_mask_step.
    eapply safe_bind; [apply isEpsilon_safe|]. intros es _. eapply safe_bind; [apply isEpsilon_safe|]. intros et _. safe_step.
    by destruct (negb es && negb et), (es && negb et). }
  intros [check comb] _. eapply safe_bind; [by apply and_bm_typed|]. intros s1 _. eapply safe_bind; [by apply and_bm_typed|]. intros t1 _.
  destruct (bs_neqb s1 t1); [done|]. eapply safe_bind; [by apply and_bm_typed|]. intros s2 [Hs2 _].
  eapply safe_bind; [by apply and_bm_typed|]. intros t2 [Ht2 _]. cbn. by repeat apply wf_or.
Qed.

Lemma set_all_wf v : wf v -> size_ v <= id_max ->
  safe (fun w => wf w /\ size_ w = size_ v /\ forall i, i < size_ v -> N.testbit (bits w) i = true) (set_all v).
Proof.
  intros H Hm. unfold set_all, set_range. destruct (N.ltb_spec ((size_ v + id_max) mod (id_max + 1)) 0) as [H0|_]; [by apply N.nlt_0_r in H0|]. safe_step.
  match goal with H : _ |- _ => apply N.ltb_lt in H end.
  assert (E : (size_ v + id_max) mod (id_max + 1) = size_ v - 1).
  { replace (size_ v + id_max) with (size_ v - 1 + 1 * (id_max + 1)) by lia. rewrite N.Div0.mod_add. apply N.mod_small. lia. }
  rewrite E. safe_step. cbn [safe mret res_ret]. unfold set_range_no_check, wf. cbn [bits size_]. split_and!; [|done|].
  - apply bits_below_lor; [done|]. intros i Hi. unfold range_mask. rewrite N.shiftl_spec_high' by lia. apply N.ones_spec_high. lia.
  - intros i Hi. rewrite N.lor_spec, testbit_range_mask by lia. apply orb_true_r.
Qed.

Lemma new_typed n (setall : bool) : n <= id_max ->
  safe (bs_wf n) (if setall then set_both (mk_bs (bvector_sized n) (bvector_sized n)) else mret (mk_bs (bvector_sized n) (bvector_sized n))).
Proof.
  intros Hn. destruct setall; [|split; cbn; auto with bits].
  unfold set_both. cbn [status_bit value_bit]. eapply safe_bind; [by apply (set_all_wf _ (wf_sized n))|]. intros s (Ws & Es & Hs).
  eapply safe_bind; [by apply (set_all_wf _ (wf_sized n))|]. intros v (Wv & Ev & Hv). split; cbn; try done.
  intros i Hi. apply Hs. cbn. destruct (N.lt_ge_cases i n) as [?|Hge]; [done|]. rewrite Wv in Hi; [done|]. by rewrite Ev.
Qed.

Lemma create_typed c : creation_typed c -> safe typed (create c).
Proof.
  intros H. destruct c as [|n b|x y b]; cbn in *.
  - exists id_max. split; cbn; try done; apply bits_below_0.
  - eapply safe_mono; [by apply new_typed|]. intros bs Hbs. by exists n.
  - eapply safe_mono; [by apply new_typed|]. intros bs Hbs. by eexists.
Qed.

Lemma apply_op_typed bs op : typed bs -> op_typed op -> safe typed (apply_op bs op).
Proof.
  intros [n H] Ho. destruct op as [| | | |b|b| |b| | |]; cbn in *.
  - eapply safe_mono; [by apply (set_typed n)|]. by exists n.
  - eapply safe_mono; [by apply (set_ctx_typed n)|]. by exists n.
  - eapply safe_mono; [by apply (setEpsilon_typed n)|]. by exists n.
  - eapply safe_mono; [by apply (setEpsilon_all_typed n)|]. by exists n.
  - destruct Ho as [m Hb]. eexists. by apply wf_or_max.
  - destruct Ho as [m Hb]. eexists. by apply wf_and_max.
  - eapply safe_mono; [by apply (and_bm_typed n)|]. intros r [? _]. by exists n.
  - destruct Ho as [m Hb]. eapply safe_mono; [by apply (assign_typed _ _ m)|]. by exists m.
  - eapply safe_mono; [by apply (resize_typed n)|]. by eexists.
  - exists n. by apply clear_typed.
  - eapply safe_bind; [by apply (combine_typed n)|]. intros [a r] Hr. by exists n.
Qed.

(** C5. A belief state that is built by any constructor and any sequence of
    operations is well-formed, whatever the indices and masks: both vectors
    have one size, hold nothing beyond it, and no position has a value
    without being assigned.  The sequence can only fail in an assertion or
    with an index outside a vector. *)
Theorem operations_keep_type c ops : creation_typed c -> Forall op_typed ops -> safe typed (build c ops).
Proof.
  intros Hc Ho. unfold build. eapply safe_bind; [by apply create_typed|]. intros bs Hbs.
  apply (safe_foldM _ op_typed); [done|done|]. intros b op. apply apply_op_typed.
Qed.

(** Two blocks of two beliefs: a belief of context 1 is set, and the state is
    combined with one that has context 0. *)
Definition two_masks : list bvector := [mk_bvector 6 7; mk_bvector 6 56].
Definition block_zero : NewBeliefState := mk_bs (mk_bvector 6 7) (mk_bvector 6 3).

Lemma block_zero_typed : typed block_zero.
Proof.
  exists 6. split; [done..| | |]; unfold wf; cbn [status_bit value_bit bits size_ block_zero];
    [by apply lt_pow2_bits|by apply lt_pow2_bits|]. change 3 with (N.land 3 7). intros i. rewrite N.land_spec. by intros [_ ?]%andb_prop.
Qed.

Lemma operations_keep_type_witness :
  safe typed (build (NewBlocks 2 2 false) [SetEpsilon 1 [0; 3]; SetCtx 1 2 [0; 3] DMCS_FALSE; Combine block_zero [0; 3] two_masks]) /\
  build (NewBlocks 2 2 false) [SetEpsilon 1 [0; 3]; SetCtx 1 2 [0; 3] DMCS_FALSE; Combine block_zero [0; 3] two_masks]
    = Ok (mk_bs (mk_bvector 6 47) (mk_bvector 6 11)).
Proof.
  split; [|vm_compute; reflexivity]. apply operations_keep_type; [by vm_compute|].
  apply Forall_cons_2; [done|]. apply Forall_cons_2; [done|]. apply Forall_cons_2; [apply block_zero_typed|apply Forall_nil_2].
Defined.

End BeliefStateOps.
