(* ===== verification/ClientProgram.v ===== *)
(** * The client program

    [main] of src/new_dmcsc.cpp: it checks the requested range, starts a
    [NewClient] and runs it in rounds.  A round is a run of the client's
    [io_service], the conversation of [Client]; the callback
    [handle_belief_states] collects the equilibria in a set and prints each
    new one.  After a round the program asks for more, or ends the
    conversation.

    The [std::set] of equilibria is a list in the order of insertion: only its
    size and membership are used.  A signature file, when one is named, is
    given by the plan that [QueryPlans] reads from it.  The sampling thread and
    the handler of interrupts, which print counters, are left out. *)

From S2P Require Import Prelude BitMagic BeliefState QueryID Ident Tables Dispatch Connection Archives Sessions Client.
From S2P Require Import Spirit Parsing QueryPlans.
Import BitMagic BeliefState Ident Tables Dispatch Connection Archives Sessions Client Spirit Parsing.

Module ClientProgram.

(** ** Printing belief states *)

(** The loop both printers have: the items of the positions that are on, from
    [bit] to the last; an item is told whether another one follows. *)
Fixpoint print_loop (item : N -> bool -> res text) (fuel : nat) (v : bvector) (bit : N) : res text :=
  match fuel with
  | O => Err OutOfFuel
  | S fuel =>
      let next := get_next v bit in
      t ← item bit (negb (next =? 0));
      if next =? 0 then mret t
      else
        rest ← print_loop item fuel v next;
        mret (t ++ rest)
  end.

Definition print_fuel (v : bvector) : nat := S (N.size_nat (bits v)).

(** [NewBeliefState::print]. *)
Definition bit_item (bs : NewBeliefState) (bit : N) (more : bool) : res text :=
  v ← get_bit (value_bit bs) bit;
  mret ((if v : bool then str " " else str "-") ++ dec bit ++ (if more then str ", " else [])).

Definition bs_print (bs : NewBeliefState) : res text :=
  if count (status_bit bs) =? 0 then mret (str "[ ]")
  else
    t ← print_loop (bit_item bs) (print_fuel (status_bit bs)) (status_bit bs) (get_first (status_bit bs));
    mret (str "[" ++ t ++ str "]").

Section program.
Context {T : Type} `{I : Indexed Belief belief_conflict (≡ₚ) T}.
Context {BST : Boost} {BVS : BvSerializer}.

Abbreviation plan_map := (gmap N (QueryPlans.ContextQueryPlan T)).

(** What [print_belief_state] of the program prints for a position: the
    context and the belief, nothing for the position of epsilon. *)
Definition belief_name (query_plan : plan_map) (bs_size bit : N) : res text :=
  let ctx_id := bit / (bs_size + 1) in
  let local_pos := bit mod (bs_size + 1) in
  cqp ← not_null (query_plan !! ctx_id);
  if 0 <? local_pos then
    signature ← not_null (QueryPlans.localSignature cqp);
    b ← btab_getByID signature (mk_ID MAINKIND_BELIEF local_pos);
    mret (dec ctx_id ++ str ":" ++ str (b_text b))
  else mret [].

Definition belief_item (query_plan : plan_map) (bs_size : N) (bs : NewBeliefState) (bit : N) (more : bool) : res text :=
  v ← get_bit (value_bit bs) bit;
  name ← belief_name query_plan bs_size bit;
  mret ((if v : bool then [] else str "-") ++ name ++ (if (0 <? bit mod (bs_size + 1)) && more then str ", " else [])).

Definition print_belief_state (query_plan : plan_map) (bs_size : N) (bs : NewBeliefState) : res text :=
  let st := status_bit bs in
  t ← print_loop (belief_item query_plan bs_size bs) (print_fuel st) st (get_first st);
  mret ((if count st =? 0 then str "[ ]" else []) ++ str "[" ++ t).

(** ** The callback *)

Record program := mk_program {
  cl : client;
  final_result : list NewBeliefState;
  no_belief_states : N;
  handled_belief_states : N;
  printed : list text;          (* the lines on the standard output *)
}.

Context (query_plan : option plan_map) (bs_size : N).

Definition show (bs : NewBeliefState) : res text :=
  match query_plan with
  | Some plan => print_belief_state plan bs_size bs
  | None => bs_print bs
  end.

Definition equilibrium_line (n : N) (t : text) : text :=
  str "Partial Equilibrium #" ++ dec n ++ str ": ( " ++ t ++ str ")".

(** Neither is before the other in the set. *)
Definition equivalent (a b : NewBeliefState) : bool := negb (bs_ltb a b) && negb (bs_ltb b a).

Definition handle_one (p : program) (r : rvalue) : res program :=
  match r.1 with
  | None => mret p
  | Some bs =>
      if existsb (equivalent bs) (final_result p) then mret p
      else
        let n := u64_add (no_belief_states p) 1 in
        t ← show bs;
        mret (mk_program (cl p) (final_result p ++ [bs]) n (handled_belief_states p) (printed p ++ [equilibrium_line n t]))
  end.

Definition handle_belief_states (p : program) (result : list rvalue) : res program :=
  p ← foldM handle_one p result;
  mret (mk_program (cl p) (final_result p) (no_belief_states p)
    (u64_add (handled_belief_states p) (N.of_nat (length result))) (printed p)).

(** [io_service->run()]: the conversation with the server, until the client
    waits for nothing; the callback sees the answers in order. *)
Definition talk (c : client) : nat := S (N.to_nat (getPackSize (mess c))).

Definition with_client (p : program) (c : client) : program :=
  mk_program c (final_result p) (no_belief_states p) (handled_belief_states p) (printed p).

Section server.
Context {S : Type} (serve : S -> ForwardMessage -> res (S * list rvalue)).

Definition io_run (sv : S) (p : program) : res (S * program) :=
  '(sv, c) ← converse serve (talk (cl p)) sv (cl p);
  p ← foldM handle_belief_states p (callbacks c);
  mret (sv, with_client p (mk_client (cl_phase c) (loop c) (mess c) [] (cl_in c) (c_out c))).

(** ** The rounds *)

Record loop_state := mk_loop { prog : program; k1 : N; k2 : N; diff_count : N; last_round : bool }.

Definition result_size (p : program) : N := N.of_nat (length (final_result p)).

(** The body of [while (keep_running)]: another round, or the end with the
    program's last state.  Without looping the end message is posted, but
    nothing runs that would write it. *)
Definition round (lp : bool) (pack_size : N) (request end_message : ForwardMessage) (sv : S) (s : loop_state)
    : res (S * (loop_state + program)) :=
  '(sv, p) ← io_run sv (prog s);
  let diff := u64_sub (result_size p) (diff_count s) in
  if negb lp then mret (sv, inr p)
  else if last_round s then mret (sv, inr p)
  else if (0 <? diff) && (result_size p <? pack_size) then
    let left_to_request := u64_sub pack_size (result_size p) in
    let k1 := u64_add (k2 s) 1 in
    let k2 := u64_add k1 left_to_request in
    m ← setPackRequest request k1 k2;
    c ← next m (cl p);
    mret (sv, inl (mk_loop (with_client p c) k1 k2 diff false))
  else
    c ← terminate end_message (cl p);
    mret (sv, inl (mk_loop (with_client p c) (k1 s) (k2 s) diff true)).

Fixpoint rounds (fuel : nat) (lp : bool) (pack_size : N) (request end_message : ForwardMessage) (sv : S) (s : loop_state)
    : res program :=
  match fuel with
  | O => Err OutOfFuel
  | Datatypes.S fuel =>
      '(sv, r) ← round lp pack_size request end_message sv s;
      match r with
      | inl s => rounds fuel lp pack_size request end_message sv s
      | inr p => mret p
      end
  end.

Definition total_line (p : program) : text := str "Total Number of Equilibria: " ++ dec (result_size p).

Definition INVOKER_ID : N := 1023.

Definition first_request (root_ctx k1 k2 : N) : ForwardMessage := fwd_new (QueryID.query_id3 INVOKER_ID root_ctx 1) {[INVOKER_ID]} k1 k2.
Definition end_request (root_ctx : N) : ForwardMessage := fwd_new (QueryID.shutdown_query_id INVOKER_ID root_ctx) {[INVOKER_ID]} 0 0.

Definition pack_size_of (k1 k2 : N) : N := if 0 <? k1 then u64_add (u64_sub k2 k1) 1 else 0.

Definition begin (root_ctx k1 k2 : N) (lp : bool) : res loop_state :=
  c ← client_new HEADER_REQ_DMCS (first_request root_ctx k1 k2) lp;
  mret (mk_loop (mk_program c [] 0 0 []) k1 k2 0 false).

(** [None] when the options are refused. *)
Definition main (fuel : nat) (sv : S) (root_ctx k1 k2 : N) (lp : bool) : res (option program) :=
  if (k2 <? k1) || ((k1 =? 0) && negb (k2 =? 0)) then mret None
  else
    s ← begin root_ctx k1 k2 lp;
    if (match query_plan with Some _ => bs_size =? 0 | None => false end) then mret None
    else
      p ← rounds fuel lp (pack_size_of k1 k2) (first_request root_ctx k1 k2) (end_request root_ctx) sv s;
      mret (Some (mk_program (cl p) (final_result p) (no_belief_states p) (handled_belief_states p) (printed p ++ [total_line p]))).

End server.
End program.

(** ** What is printed for a belief state *)

(** The positions that are on, from [k] on. *)
Definition on_from (v : bvector) (k : N) : list N := filter (fun i => N.testbit (bits v) i = true) (nrange k (size_ v)).

(** The items of a list of positions, all but the last with one to follow. *)
Fixpoint items (item : N -> bool -> res text) (l : list N) : res text :=
  match l with
  | [] => mret []
  | [p] => item p false
  | p :: l => t ← item p true; rest ← items item l; mret (t ++ rest)
  end.

Lemma on_lt v p : wf v -> N.testbit (bits v) p = true -> p < size_ v.
Proof. intros Hwf Hp. destruct (N.lt_ge_cases p (size_ v)) as [?|Hge]; [done|]. by rewrite Hwf in Hp. Qed.

Lemma on_from_step v k p : k <= p -> N.testbit (bits v) p = true -> wf v ->
  (forall i, k <= i -> i < p -> N.testbit (bits v) i = false) -> on_from v k = p :: on_from v (p + 1).
Proof.
  intros Hk Hp Hwf Hbelow. unfold on_from. assert (p < size_ v) by (by apply on_lt).
  rewrite (nrange_split k p (size_ v)) by lia. rewrite filter_app, (nrange_cons p (size_ v)) by done.
  rewrite filter_cons_True by done. replace (filter _ (nrange k p)) with (@nil N); [done|].
  symmetry. apply elem_of_nil_inv. intros i. rewrite list_elem_of_filter, elem_of_nrange. intros [Hi [? ?]].
  by rewrite Hbelow in Hi.
Qed.

Lemma on_from_nil v k : (forall i, k <= i -> N.testbit (bits v) i = false) -> on_from v k = [].
Proof.
  intros H. apply elem_of_nil_inv. intros i. unfold on_from. rewrite list_elem_of_filter, elem_of_nrange. intros [Hi [? _]].
  by rewrite H in Hi.
Qed.

Lemma print_loop_ok item v fuel : forall p, wf v -> size_ v <= id_max -> N.testbit (bits v) p = true ->
  N.of_nat (N.size_nat (bits v)) < N.of_nat fuel + p ->
  print_loop item fuel v p = items item (p :: on_from v (p + 1)).
Proof.
  induction fuel as [|fuel IH]; intros p Hwf Hs Hp Hf.
  { apply testbit_size_nat in Hp. lia. }
  cbn [print_loop]. destruct (get_next_spec v p Hwf Hs) as [[E Hnone]|(Hlt & Hon & Hbelow)].
  - rewrite E. change (0 =? 0) with true. cbn [negb]. rewrite (on_from_nil v (p + 1)); [cbn [items]; by destruct (item p false)|]. intros i Hi. apply Hnone. lia.
  - destruct (N.eqb_spec (get_next v p) 0); [lia|]. cbn [negb]. rewrite (on_from_step v (p + 1) (get_next v p)); [|lia|done|done|intros; apply Hbelow; lia].
    rewrite IH by (done || lia). done.
Qed.

(** Texts with a comma after each but the last; [sep] says which ones get
    one. *)
Fixpoint listing (f : N -> text) (sep : N -> bool) (l : list N) : text :=
  match l with
  | [] => []
  | [p] => f p
  | p :: l => f p ++ (if sep p then str ", " else []) ++ listing f sep l
  end.

Lemma items_listing item f sep l :
  (forall p more, p ∈ l -> item p more = Ok (f p ++ (if sep p && more then str ", " else []))) ->
  items item l = Ok (listing f sep l).
Proof.
  induction l as [|p l IH]; intros H; [done|]. cbn [items listing]. destruct l as [|q l].
  - rewrite H by left. by rewrite andb_false_r, app_nil_r.
  - rewrite H, IH; [|intros; apply H; by right|by left]. rsimpl. by rewrite andb_true_r, <- app_assoc.
Qed.

Lemma elem_of_on_from v k p : p ∈ on_from v k <-> k <= p /\ p < size_ v /\ N.testbit (bits v) p = true.
Proof. unfold on_from. rewrite list_elem_of_filter, elem_of_nrange. tauto. Qed.

(** Scanning from [get_first]. *)
Lemma print_scan item v : wf v -> size_ v <= id_max -> bits v <> 0 ->
  print_loop item (print_fuel v) v (get_first v) = items item (on_from v 0).
Proof.
  intros Hwf Hs Hb. unfold get_first. destruct (check_or_next_spec v 0) as [[_ H]|(_ & Hon & Hbelow)].
  - destruct Hb. apply N.bits_inj_0. intros i. apply H. lia.
  - rewrite (on_from_step v 0 (check_or_next v 0)) by (done || lia). apply print_loop_ok; [done|done|done|].
    unfold print_fuel. lia.
Qed.

Definition signed_position (bs : NewBeliefState) (p : N) : text :=
  (if N.testbit (bits (value_bit bs)) p then str " " else str "-") ++ dec p.

(** The assigned positions in increasing order, the false ones with a minus
    sign. *)
Lemma bs_print_ok n bs : bs_wf n bs ->
  bs_print bs = Ok (if bits (status_bit bs) =? 0 then str "[ ]"
                    else str "[" ++ listing (signed_position bs) (fun _ => true) (on_from (status_bit bs) 0) ++ str "]").
Proof.
  intros [E1 E2 Hm H1 H2 _]. unfold bs_print. destruct (N.eqb_spec (bits (status_bit bs)) 0) as [Hz|Hz].
  - by rewrite (proj2 (count_0 _) Hz).
  - destruct (N.eqb_spec (count (status_bit bs)) 0) as [?%count_0|_]; [done|]. rewrite print_scan by (done || lia).
    rewrite (items_listing _ (signed_position bs) (fun _ => true)); [done|]. intros p more (_ & Hp & _)%elem_of_on_from.
    unfold bit_item. rewrite get_bit_ok by lia. rsimpl. unfold signed_position. by rewrite <- app_assoc.
Qed.

Section equilibria.
Context {T : Type} `{I : Indexed Belief belief_conflict (≡ₚ) T}.
Context (plan : gmap N (QueryPlans.ContextQueryPlan T)) (s : N).

Definition signed_belief (bs : NewBeliefState) (p : N) : text :=
  (if N.testbit (bits (value_bit bs)) p then [] else str "-") ++
  match belief_name plan s p with Ok t => t | Err _ => [] end.

(** When the signatures know all beliefs, those of a state are listed in
    increasing order, the false ones with a minus sign; nothing closes the
    bracket.  For a state without assigned positions position 0 is looked at
    all the same. *)
Lemma print_belief_state_ok n bs : bs_wf n bs ->
  (forall p, p ∈ on_from (status_bit bs) 0 -> exists t, belief_name plan s p = Ok t) ->
  bits (status_bit bs) <> 0 ->
  print_belief_state plan s bs =
    Ok (str "[" ++ listing (signed_belief bs) (fun p => 0 <? p mod (s + 1)) (on_from (status_bit bs) 0)).
Proof.
  intros [E1 E2 Hm H1 H2 _] Hn Hz. unfold print_belief_state. rewrite print_scan by (done || lia).
  destruct (N.eqb_spec (count (status_bit bs)) 0) as [?%count_0|_]; [done|].
  rewrite (items_listing _ (signed_belief bs) (fun p => 0 <? p mod (s + 1))); [done|]. intros p more Hp.
  destruct (Hn p Hp) as [t Et]. apply elem_of_on_from in Hp as (_ & Hp & _).
  unfold belief_item, signed_belief. rewrite get_bit_ok by lia. rsimpl. rewrite Et. rsimpl. by rewrite <- app_assoc.
Qed.

End equilibria.

(** ** The rounds against a server *)

Lemma equivalent_eq n a b : bs_wf n a -> bs_wf n b -> equivalent a b = true <-> a = b.
Proof.
  intros Ha Hb. unfold equivalent. rewrite andb_true_iff, !negb_true_iff. split.
  - intros [H1 H2]. destruct (bs_lt_total a b) as [?|[E|?]]; [unfold bs_lt in *; congruence| |unfold bs_lt in *; congruence].
    unfold bs_eqb in E. apply andb_true_iff in E as [E1%bv_eqb_eq E2%bv_eqb_eq].
    destruct a as [[sa x] [sb y]], b as [[sc z] [sd w]], Ha, Hb. cbn in *. congruence.
  - intros ->. by rewrite bs_lt_irrefl.
Qed.

Definition add_new (fs : list NewBeliefState) (m : NewBeliefState) : list NewBeliefState :=
  if existsb (equivalent m) fs then fs else fs ++ [m].

Definition collect (fs ms : list NewBeliefState) : list NewBeliefState := foldl add_new fs ms.

Lemma add_new_in n fs m : Forall (bs_wf n) fs -> bs_wf n m ->
  add_new fs m = if bool_decide (m ∈ fs) then fs else fs ++ [m].
Proof.
  intros Hf Hm. unfold add_new. assert (existsb (equivalent m) fs = bool_decide (m ∈ fs)) as ->; [|done].
  apply eq_true_iff_eq. rewrite existsb_exists, bool_decide_eq_true. setoid_rewrite <- list_elem_of_In. split.
  - intros (x & Hx & E). apply (equivalent_eq n) in E as ->; [done|done|]. by eapply Forall_forall in Hf.
  - intros Hx. exists m. split; [done|]. by apply (equivalent_eq n).
Qed.

Lemma collect_distinct n fs ms : Forall (bs_wf n) (fs ++ ms) -> NoDup (fs ++ ms) -> collect fs ms = fs ++ ms.
Proof.
  revert fs. induction ms as [|m ms IH]; intros fs Hw Hd; cbn; [by rewrite app_nil_r|].
  replace (fs ++ m :: ms) with ((fs ++ [m]) ++ ms) in * by (by rewrite <- app_assoc).
  assert (add_new fs m = fs ++ [m]) as ->; [|by apply IH].
  apply Forall_app in Hw as [[Hf Hm]%Forall_app _]. rewrite (add_new_in n fs m Hf (proj1 (Forall_singleton _ _) Hm)).
  apply NoDup_app in Hd as [(_ & Hd & _)%NoDup_app _]. rewrite bool_decide_false; [done|]. intros Hx. by apply (Hd m Hx), list_elem_of_singleton.
Qed.

Lemma length_client_slice {A} k1 k2 (l : list A) : 0 < k1 ->
  length (slice k1 k2 l) = Nat.min (N.to_nat (k2 - (k1 - 1))) (length l - N.to_nat (k1 - 1)).
Proof.
  intros H. unfold slice, Evaluator.Evaluator.slice. destruct (N.eqb_spec k1 0); [lia|]. cbn [andb]. by rewrite length_take, length_drop.
Qed.

Lemma slice_submseteq {A} k1 k2 (l : list A) : slice k1 k2 l `sublist_of` l.
Proof. unfold slice, Evaluator.Evaluator.slice. destruct (_ && _); [done|]. etrans; [apply sublist_take|apply sublist_drop]. Qed.

Section service.
Context {T : Type} `{I : Indexed Belief belief_conflict (≡ₚ) T}.
Context {BST : Boost} {BVS : BvSerializer} {BSTL : BoostLaws} {BVSL : BvSerializerLaws}.
Context {S : Type} (serve : S -> ForwardMessage -> res (S * list rvalue)) (ready : nat -> S -> Prop).
Context (dom : ForwardMessage -> Prop) (models : list NewBeliefState) (Hserve : Serves serve ready dom models).
Context (qid : N) (hist : gset N) (Hdom : forall k1 k2, k2 + 1 < W64 -> dom (mk_fwd qid k1 k2 hist)).
Context (Hans : sendable HEADER_ANS) (Hnext : sendable HEADER_NEXT) (Hterm : sendable HEADER_TERMINATE).
Context (Hreq : forall k1 k2, k1 < W64 -> k2 < W64 -> sendable (mk_fwd qid k1 k2 hist)).
Context (Hpack : forall ms, NoDup ms -> (forall m, m ∈ ms -> m ∈ models) -> sendable (records qid ms ++ [(None, qid)])).
(** All models have the same size and can be printed. *)
Context (n : N) (Hwf : Forall (bs_wf n) models).
Context (query_plan : option (gmap N (QueryPlans.ContextQueryPlan T))) (bs_size : N) (img : NewBeliefState -> text).
Context (Hshow : forall m, m ∈ models -> show query_plan bs_size m = Ok (img m)).

Definition numbered (fs : list NewBeliefState) : list text :=
  imap (fun i m => equilibrium_line ((N.of_nat i + 1) mod W64) (img m)) fs.

(** What has been printed is what has been collected. *)
Record good (p : program) : Prop := {
  good_printed : printed p = numbered (final_result p);
  good_count : no_belief_states p = N.of_nat (length (final_result p)) mod W64;
  good_models : forall m, m ∈ final_result p -> m ∈ models;
}.

Lemma handle_one_ok p m q : good p -> m ∈ models ->
  exists p', handle_one query_plan bs_size p (Some m, q) = Ok p' /\ good p' /\
    final_result p' = add_new (final_result p) m /\ cl p' = cl p.
Proof.
  intros [G1 G2 G3] Hm. unfold handle_one, add_new. cbn [fst]. destruct (existsb _ _); [by exists p|].
  rewrite (Hshow m Hm). rsimpl. eexists. split; [done|]. split; [|done].
  assert (E : u64_add (no_belief_states p) 1 = (N.of_nat (length (final_result p)) + 1) mod W64).
  { unfold u64_add. rewrite G2. by rewrite N.Div0.add_mod_idemp_l. }
  split; cbn [printed final_result no_belief_states].
  - unfold numbered. rewrite imap_app, G1, E. cbn. by rewrite Nat.add_0_r.
  - rewrite E, length_app. f_equal. cbn. lia.
  - intros x [?| ->%list_elem_of_singleton]%elem_of_app; auto.
Qed.

Lemma handle_records ms : forall p, good p -> (forall m, m ∈ ms -> m ∈ models) ->
  exists p', foldM (handle_one query_plan bs_size) p (records qid ms) = Ok p' /\ good p' /\
    final_result p' = collect (final_result p) ms /\ cl p' = cl p.
Proof.
  induction ms as [|m ms IH]; intros p Hg Hm; [by exists p|]. change (records qid (m :: ms)) with ((Some m, qid) :: records qid ms). cbn [foldM].
  destruct (handle_one_ok p m qid Hg) as (p1 & -> & Hg1 & E1 & E2); [apply Hm; by left|]. rsimpl.
  destruct (IH p1 Hg1) as (p2 & -> & Hg2 & E3 & E4); [intros; apply Hm; by right|].
  exists p2. split; [done|]. split; [done|]. split; [|congruence]. rewrite E3, E1. done.
Qed.

Lemma records_app_inv ms l k : l ++ k = records qid ms ->
  exists ms1 ms2, ms = ms1 ++ ms2 /\ l = records qid ms1 /\ k = records qid ms2.
Proof. intros E. symmetry in E. apply fmap_app_inv in E as (ms1 & ms2 & E1 & E2 & E3). by exists ms1, ms2. Qed.

Lemma handle_pack p ms : good p -> (forall m, m ∈ ms -> m ∈ models) ->
  exists p', handle_belief_states query_plan bs_size p (records qid ms) = Ok p' /\ good p' /\
    final_result p' = collect (final_result p) ms.
Proof.
  intros Hg Hm. unfold handle_belief_states. destruct (handle_records ms p Hg Hm) as (p1 & -> & Hg1 & F1 & _). rsimpl.
  eexists. split; [done|]. by destruct Hg1.
Qed.

Lemma handle_ok cbs : forall p ms, good p -> (forall m, m ∈ ms -> m ∈ models) -> concat cbs = records qid ms ->
  exists p', foldM (handle_belief_states query_plan bs_size) p cbs = Ok p' /\ good p' /\
    final_result p' = collect (final_result p) ms.
Proof.
  induction cbs as [|l cbs IH]; intros p ms Hg Hm E; cbn [concat] in E.
  - destruct ms; [|done]. by exists p.
  - apply records_app_inv in E as (ms1 & ms2 & -> & -> & E2). cbn [foldM].
    destruct (handle_pack p ms1 Hg) as (p1 & -> & Hg1 & F1); [intros; apply Hm, elem_of_app; by left|]. rsimpl.
    destruct (IH p1 ms2 Hg1) as (p2 & -> & Hg2 & F2); [intros; apply Hm, elem_of_app; by right|done|].
    exists p2. split; [done|]. split; [done|]. rewrite F2, F1. unfold collect. by rewrite foldl_app.
Qed.

(** A run of the client whose conversation brings [ms]. *)
Lemma io_run_ok sv sv' p c' ms : good p -> (forall m, m ∈ ms -> m ∈ models) ->
  converse serve (talk (cl p)) sv (cl p) = Ok (sv', c') -> ended c' -> concat (callbacks c') = records qid ms ->
  exists p', io_run query_plan bs_size serve sv p = Ok (sv', p') /\ good p' /\ final_result p' = collect (final_result p) ms /\
    cl p' = mk_client CDone true (mess c') [] [] (c_out c').
Proof.
  intros Hg Hm E (Hp & Hl & Hi) Hc. unfold io_run. rewrite E. rsimpl.
  destruct (handle_ok (callbacks c') p ms Hg Hm Hc) as (p1 & -> & Hg1 & F1). rsimpl. eexists. split; [done|].
  split; [by destruct Hg1|]. split; [done|]. cbn. by rewrite Hp, Hl, Hi.
Qed.

(** The end of the conversation: the end message is written, and a last run
    finds nothing to do. *)
Lemma rounds_end f sv sv' s p' m out pack request e : last_round s = false -> good p' -> sendable e ->
  io_run query_plan bs_size serve sv (prog s) = Ok (sv', p') -> cl p' = mk_client CDone true m [] [] out ->
  (0 <? u64_sub (result_size p') (diff_count s)) && (result_size p' <? pack) = false ->
  exists p'', rounds query_plan bs_size serve (Datatypes.S (Datatypes.S f)) true pack request e sv s = Ok p'' /\ good p'' /\
    final_result p'' = final_result p' /\ c_out (cl p'') = out ++ frame HEADER_TERMINATE ++ frame e.
Proof.
  intros Hl Hg He Hr Hc Hcond. set (c := mk_client CDone true m [] [] (out ++ frame HEADER_TERMINATE ++ frame e)).
  assert (E1 : round query_plan bs_size serve true pack request e sv s =
    Ok (sv', inl (mk_loop (with_client p' c) (k1 s) (k2 s) (u64_sub (result_size p') (diff_count s)) true))).
  { unfold round. rewrite Hr. rsimpl. cbn [negb]. rewrite Hl, Hcond. unfold terminate. rewrite Hc.
    cbn [c_out loop mess callbacks cl_in]. rewrite (conn_write_ok _ _ Hterm). rsimpl. rewrite (conn_write_ok _ _ He). rsimpl.
    by rewrite <- app_assoc. }
  assert (E2 : forall a b d, round query_plan bs_size serve true pack request e sv' (mk_loop (with_client p' c) a b d true) =
    Ok (sv', inr (with_client p' c))) by done.
  exists (with_client p' c). cbn [rounds]. rewrite E1. rsimpl. rewrite E2. rsimpl. split; [done|]. split; [by destruct Hg|done].
Qed.

(** The answers of a server with pairwise distinct models. *)
Lemma answers_permute k1 k2 ms : NoDup models -> NoDup ms -> (forall m, m ∈ ms <-> m ∈ slice k1 k2 models) ->
  ms ≡ₚ slice k1 k2 models.
Proof.
  intros Hd Hn Hms. apply NoDup_Permutation; [done| |done]. eapply sublist_NoDup; [exact Hd|apply slice_submseteq].
Qed.

Local Abbreviation round_ok := (round_ok serve ready dom models Hserve qid hist Hdom Hans Hnext Hreq Hpack).
Local Abbreviation converse_round := (converse_round serve qid hist).

Lemma ready_weaken k k' sv : (k' <= k)%nat -> ready k sv -> ready k' sv.
Proof. induction 1 as [|k _ IH]; [done|]. intros Hr. by apply IH, (ready_less (Serves := Hserve)). Qed.

Lemma range_run k sv k1 k2 out : ready (2 + k) sv -> NoDup models -> 0 < k1 -> k1 <= k2 -> 3 * k2 + 2 < W64 ->
  exists sv' c' ms, converse serve (talk (waiting qid hist k1 k2 [] out)) sv (waiting qid hist k1 k2 [] out) = Ok (sv', c') /\
    ready k sv' /\ ended c' /\ concat (callbacks c') = records qid ms /\ ms ≡ₚ slice k1 k2 models.
Proof.
  intros Hr Hd H1 H2 Hw.
  assert (Ht : exists t, talk (waiting qid hist k1 k2 [] out) = Datatypes.S (Datatypes.S t)).
  { unfold talk, getPackSize. cbn [waiting mess fm_k1 fm_k2]. destruct (N.eqb_spec k2 0); [lia|].
    rewrite u64_sub_small by lia. rewrite u64_add_small by lia. exists (N.to_nat (k2 - k1)). lia. }
  destruct Ht as [t ->].
  destruct (round_ok (1 + k) sv k1 k2 [] out Hr H1 H2 ltac:(lia))
    as (sv1 & ms & bs & c' & Es & Hr1 & Ew & Ea & Hn & Hms & Hln & Hle & Hcb & Hcase).
  pose proof (answers_permute _ _ _ Hd Hn Hms) as Hperm.
  rewrite (converse_round _ _ _ _ _ _ _ _ _ _ Es Ew Ea).
  destruct Hcase as [(Hne & Hlt & cbs' & out' & ->)|[_ Hend]].
  - set (L := N.of_nat (length ms)) in *. assert (0 < L) by (unfold L; destruct ms; [done|cbn; lia]).
    pose proof (length_client_slice k1 k2 models H1) as Hsl. rewrite <- Hperm in Hsl.
    destruct (round_ok k sv1 (k2 + 1) (k2 + (k2 - k1 + 1 - L)) cbs' out' Hr1 ltac:(lia) ltac:(lia) ltac:(lia))
      as (sv2 & ms2 & bs2 & c2 & Es2 & Hr2 & Ew2 & Ea2 & _ & _ & Hln2 & _ & Hcb2 & Hcase2).
    rewrite length_client_slice in Hln2 by lia. assert (ms2 = []) as -> by (destruct ms2; [done|cbn in Hln2; lia]).
    rewrite (converse_round _ _ _ _ _ _ _ _ _ _ Es2 Ew2 Ea2).
    destruct Hcase2 as [(? & _)|[_ Hend]]; [done|]. exists sv2, c2, ms.
    split; [by apply converse_done, Hend|]. split; [done|]. split; [done|]. split; [|done].
    cbn [callbacks waiting] in Hcb. by rewrite Hcb2, Hcb, app_nil_r.
  - exists sv1, c', ms. split; [by apply converse_done, Hend|]. split; [by apply (ready_less (Serves := Hserve))|done].
Qed.

(** A request for all models is answered at once. *)
Lemma all_run k sv out : ready (1 + k) sv -> NoDup models ->
  exists sv' c' ms, converse serve (talk (waiting qid hist 0 0 [] out)) sv (waiting qid hist 0 0 [] out) = Ok (sv', c') /\
    ready k sv' /\ ended c' /\ concat (callbacks c') = records qid ms /\ ms ≡ₚ slice 0 0 models.
Proof.
  intros Hr Hd. set (w := waiting qid hist 0 0 [] out).
  destruct (served serve ready dom models Hserve qid hist Hdom Hpack k sv 0 0 Hr ltac:(by left) ltac:(done))
    as (sv1 & ms & Es & Hr1 & Hsend & Hn & Hms & _).
  destruct (answer_arrives Hans w _ eq_refl eq_refl Hsend) as (bs & Ew & Hrun).
  assert (Hread : exists c', client_read_answer (records qid ms ++ [(None, qid)]) [] w = Ok c' /\ ended c' /\ concat (callbacks c') = records qid ms).
  { unfold client_read_answer. rewrite pop_back_snoc. rsimpl.
    change (assert (bool_decide (fst (@None NewBeliefState, qid) = None))) with (Ok tt). rsimpl.
    destruct (records qid ms) as [|r rs]; eexists; (split; [reflexivity|]); (split; [done|]); cbn; by rewrite ?app_nil_r. }
  destruct Hread as (c' & Hread & Hend & Hcb). specialize (Hrun c' Hread (proj2 (proj2 Hend))).
  exists sv1, c', ms. split; [|split; [done|]; split; [done|]; split; [done|by apply answers_permute]].
  change (talk w) with 1%nat. unfold w. rewrite (converse_round _ _ _ _ _ _ _ _ _ _ Es Ew Hrun). by apply converse_done, Hend.
Qed.

Lemma sent_models_wf ms k1 k2 : ms ≡ₚ slice k1 k2 models ->
  (forall m, m ∈ ms -> m ∈ models) /\ Forall (bs_wf n) ms.
Proof.
  intros Hp. assert (H : forall m, m ∈ ms -> m ∈ models).
  { intros m Hm. rewrite Hp in Hm. eapply elem_of_submseteq; [exact Hm|apply sublist_submseteq, slice_submseteq]. }
  split; [done|]. apply Forall_forall. intros m Hm. eapply Forall_forall in Hwf; eauto.
Qed.

(** Asking again. *)
Lemma round_asks sv sv' s p' m out k1 k2 pack e : last_round s = false ->
  io_run query_plan bs_size serve sv (prog s) = Ok (sv', p') -> cl p' = mk_client CDone true m [] [] out ->
  (0 <? u64_sub (result_size p') (diff_count s)) && (result_size p' <? pack) = true -> ClientProgram.k2 s + 1 + pack < W64 ->
  let a := ClientProgram.k2 s + 1 in let b := a + (pack - result_size p') in
  round query_plan bs_size serve true pack (mk_fwd qid k1 k2 hist) e sv s =
    Ok (sv', inl (mk_loop (with_client p' (waiting qid hist a b [] (out ++ frame HEADER_NEXT ++ frame (mk_fwd qid a b hist))))
      a b (u64_sub (result_size p') (diff_count s)) false)).
Proof.
  intros Hl Hr Hc Hcond Hw a b. unfold round. rewrite Hr. rsimpl. cbn [negb]. rewrite Hl, Hcond.
  apply andb_prop in Hcond as [_ Hlt%N.ltb_lt]. rewrite (u64_sub_small pack) by lia.
  rewrite !u64_add_small by (rewrite ?u64_add_small; lia). fold a b. unfold setPackRequest.
  rewrite (proj2 (N.leb_le a b)) by lia. change (assert true) with (Ok tt). rsimpl. cbn [fm_qid history].
  unfold next, send. rewrite Hc. cbn [c_out loop callbacks cl_in]. rewrite (conn_write_ok _ _ Hnext). rsimpl.
  assert (Hq := Hreq a b ltac:(lia) ltac:(lia)). rewrite (conn_write_ok _ _ Hq). rsimpl. unfold waiting. by rewrite <- app_assoc.
Qed.

(** A run for a range behind the last model brings nothing. *)
Lemma nothing_behind k sv p a b out : ready (1 + k) sv ->
  good p -> 0 < a -> a <= b -> N.of_nat (length models) < a -> b + (b - a + 1) < W64 ->
  exists sv' p', io_run query_plan bs_size serve sv (with_client p (waiting qid hist a b [] out)) = Ok (sv', p') /\
    ready k sv' /\ good p' /\ final_result p' = final_result p /\ exists m out', cl p' = mk_client CDone true m [] [] out'.
Proof.
  intros Hr Hg Ha Hab Hlast Hw.
  destruct (round_ok k sv a b [] out Hr Ha Hab Hw)
    as (sv1 & ms & bs & c' & Es & Hr1 & Ew & Ea & _ & _ & Hln & _ & Hcb & Hcase).
  rewrite length_client_slice in Hln by lia. assert (ms = []) as -> by (destruct ms; [done|cbn in Hln; lia]).
  destruct Hcase as [(? & _)|[_ Hend]]; [done|].
  destruct (io_run_ok sv sv1 (with_client p (waiting qid hist a b [] out)) c' []) as (p' & -> & Hg' & Hf' & Hc'); [by destruct Hg|by intros ? ?%not_elem_of_nil| |done|done|].
  - unfold talk. cbn [cl with_client]. rewrite (converse_round _ _ _ _ _ _ _ _ _ _ Es Ew Ea). by apply converse_done, Hend.
  - eauto 10.
Qed.

Definition asks (k1 k2 : N) : Prop := k1 = 0 /\ k2 = 0 \/ 0 < k1 /\ k1 <= k2 /\ 6 * k2 + 5 < W64.

(** With pairwise distinct models the program ends after at most three
    rounds. *)
Lemma rounds_distinct sv k1 k2 out e : ready 3 sv -> NoDup models -> asks k1 k2 -> sendable e ->
  exists p, rounds query_plan bs_size serve 3 true (pack_size_of k1 k2) (mk_fwd qid k1 k2 hist) e sv
      (mk_loop (mk_program (waiting qid hist k1 k2 [] out) [] 0 0 []) k1 k2 0 false) = Ok p /\ good p /\
    final_result p ≡ₚ slice k1 k2 models /\ exists out', c_out (cl p) = out' ++ frame HEADER_TERMINATE ++ frame e.
Proof.
  intros Hr0 Hd Hk He. set (p0 := mk_program (waiting qid hist k1 k2 [] out) [] 0 0 []).
  assert (Hg0 : good p0) by (split; [done|done|by intros m ?%not_elem_of_nil]).
  assert (Hrun : exists sv' c' ms, converse serve (talk (waiting qid hist k1 k2 [] out)) sv (waiting qid hist k1 k2 [] out) = Ok (sv', c') /\
    ready 1 sv' /\ ended c' /\ concat (callbacks c') = records qid ms /\ ms ≡ₚ slice k1 k2 models).
  { destruct Hk as [[-> ->]|(? & ? & ?)]; [apply all_run; [by apply (ready_less (Serves := Hserve))|done]|apply range_run; (done || lia)]. }
  destruct Hrun as (sv1 & c' & ms & Hc & Hr1 & Hend & Hcb & Hperm). destruct (sent_models_wf _ _ _ Hperm) as [Hin Hmw].
  destruct (io_run_ok sv sv1 p0 c' ms Hg0 Hin Hc Hend Hcb) as (p1 & Hr & Hg1 & Hf1 & Hcl1).
  assert (Hdm : NoDup ms). { rewrite Hperm. eapply sublist_NoDup; [exact Hd|apply slice_submseteq]. }
  rewrite (collect_distinct n) in Hf1 by done. cbn [final_result p0 app] in Hf1.
  assert (Hsize : result_size p1 = N.of_nat (length (slice k1 k2 models))) by (unfold result_size; by rewrite Hf1, Hperm).
  destruct ((0 <? u64_sub (result_size p1) 0) && (result_size p1 <? pack_size_of k1 k2)) eqn:Hcond.
  2:{ destruct (rounds_end 1 sv sv1 (mk_loop p0 k1 k2 0 false) p1 (mess c') (c_out c') (pack_size_of k1 k2) (mk_fwd qid k1 k2 hist) e)
        as (p2 & -> & Hg2 & Hf2 & Hc2); [done..|]. exists p2. rewrite Hf2, Hf1. eauto. }
  assert (Hp : 0 < k1 /\ k1 <= k2 /\ 6 * k2 + 5 < W64 /\ pack_size_of k1 k2 = k2 - k1 + 1).
  { destruct Hk as [[-> ->]|(? & ? & ?)]; [rewrite andb_comm in Hcond; by destruct (result_size p1)|]. unfold pack_size_of.
    rewrite (proj2 (N.ltb_lt 0 k1)) by done. rewrite u64_sub_small, u64_add_small; [done|rewrite ?u64_sub_small; lia|lia|lia]. }
  destruct Hp as (Hk1 & Hk2 & Hw & Hps). rewrite Hps in Hcond |- *.
  pose proof (proj2 (andb_prop _ _ Hcond)) as Hlt%N.ltb_lt.
  cbn [rounds]. rewrite (round_asks sv sv1 (mk_loop p0 k1 k2 0 false) p1 (mess c') (c_out c')) by (done || (cbn; lia)). rsimpl.
  cbn [ClientProgram.k2 diff_count]. rewrite (u64_sub_small (result_size p1) 0), N.sub_0_r by lia. set (left := k2 - k1 + 1 - result_size p1).
  rewrite length_client_slice in Hsize by done.
  destruct (nothing_behind 0 sv1 p1 (k2 + 1) (k2 + 1 + left) (c_out c' ++ frame HEADER_NEXT ++ frame (mk_fwd qid (k2 + 1) (k2 + 1 + left) hist)))
    as (sv2 & p2 & Hr2 & _ & Hg2 & Hf2 & m2 & out2 & Hcl2); [done|done|lia|lia|lia|lia|].
  destruct (rounds_end 0 sv1 sv2 (mk_loop (with_client p1 (waiting qid hist (k2 + 1) (k2 + 1 + left) []
      (c_out c' ++ frame HEADER_NEXT ++ frame (mk_fwd qid (k2 + 1) (k2 + 1 + left) hist)))) (k2 + 1) (k2 + 1 + left) (result_size p1) false)
    p2 m2 out2 (k2 - k1 + 1) (mk_fwd qid k1 k2 hist) e) as (p3 & E3 & Hg3 & Hf3 & Hc3); [done..| |].
  { cbn [diff_count]. replace (result_size p2) with (result_size p1) by (unfold result_size; by rewrite Hf2). rewrite u64_sub_small by lia. by rewrite N.sub_diag. }
  exists p3. split; [exact E3|]. split; [done|]. rewrite Hf3, Hf2, Hf1. eauto.
Qed.

(** *** Asking for ever

    After a round the difference is the size of the set less the difference
    before: between 0 and the size it stays there.  The bound keeps the ranges
    within a machine word. *)
Lemma rounds_diverge k1 k2 pack e f : forall sv p a b out d, ready f sv -> good p ->
  0 < d -> d < result_size p -> result_size p < pack ->
  0 < a -> a <= b -> b - a + 1 <= pack -> N.of_nat (length models) < a -> b + 2 * pack + N.of_nat f * (pack + 1) < W64 ->
  rounds query_plan bs_size serve f true pack (mk_fwd qid k1 k2 hist) e sv
    (mk_loop (with_client p (waiting qid hist a b [] out)) a b d false) = Err OutOfFuel.
Proof.
  induction f as [|f IH]; intros sv p a b out d Hr0 Hg Hd1 Hd2 Hs Ha Hab Hp Hl Hw; [done|].
  destruct (nothing_behind f sv p a b out Hr0) as (sv' & p' & Hr & Hr1 & Hg' & Hf' & m & out' & Hc); [done|lia|lia|lia|nia|].
  assert (E : result_size p' = result_size p) by (unfold result_size; by rewrite Hf').
  assert (Hdiff : u64_sub (result_size p') d = result_size p - d) by (rewrite E; apply u64_sub_small; nia).
  cbn [rounds]. rewrite (round_asks sv sv' _ p' m out'); [|done|done|done| |cbn; nia].
  - rsimpl. cbn [ClientProgram.k2 diff_count]. rewrite Hdiff, E. apply IH; [done|done|lia..|nia].
  - cbn [diff_count]. rewrite Hdiff, E, andb_true_iff, !N.ltb_lt. lia.
Qed.

(** A range whose models all look the same: one of them comes back, and the
    client asks for as many further models as are missing. *)
Lemma same_answer k sv a b cbs out x j : ready (1 + k) sv -> 0 < a -> a <= b -> b + (b - a + 1) < W64 ->
  slice a b models = replicate (1 + j) x ->
  exists sv' c', ready k sv' /\
    (forall f, converse serve (1 + f) sv (waiting qid hist a b cbs out) = converse serve f sv' c') /\
    concat (callbacks c') = concat cbs ++ records qid [x] /\
    (a = b -> ended c') /\
    (a <> b -> exists cbs' out', c' = waiting qid hist (b + 1) (b + (b - a)) cbs' out').
Proof.
  intros Hr Ha Hab Hw Hsl.
  destruct (round_ok k sv a b cbs out Hr Ha Hab Hw)
    as (sv1 & ms & bs & c' & Es & Hr1 & Ew & Ea & Hn & Hms & _ & _ & Hcb & Hcase).
  assert (ms = [x]) as ->.
  { rewrite Hsl in Hms. assert (Hx : x ∈ ms) by (apply Hms; by left).
    destruct ms as [|y [|z ms]]; [by apply not_elem_of_nil in Hx| |].
    - apply list_elem_of_singleton in Hx as ->. done.
    - exfalso. assert (Hy : y ∈ replicate (1 + j) x) by (apply Hms; by left).
      assert (Hz : z ∈ replicate (1 + j) x) by (apply Hms; by right; left).
      apply elem_of_replicate in Hy as [-> _], Hz as [-> _].
      apply NoDup_cons in Hn as [Hn _]. apply Hn. by left. }
  exists sv1, c'. split; [done|]. split; [intros f; by rewrite <- (converse_round f _ _ _ _ _ _ _ _ _ Es Ew Ea)|]. split; [done|].
  cbn [length] in Hcase. destruct Hcase as [(_ & Hlt & cbs' & out' & ->)|[[?|Hlen] Hend]]; [|done|].
  - split; [lia|]. intros _. exists cbs', out'. by replace (b - a + 1 - N.of_nat 1) with (b - a) by lia.
  - split; [done|]. lia.
Qed.

Lemma no_answer k sv a b cbs out : ready (1 + k) sv -> 0 < a -> a <= b -> b + (b - a + 1) < W64 ->
  slice a b models = [] ->
  exists sv' c', ready k sv' /\
    (forall f, converse serve (1 + f) sv (waiting qid hist a b cbs out) = Ok (sv', c')) /\
    concat (callbacks c') = concat cbs /\ ended c'.
Proof.
  intros Hr Ha Hab Hw Hsl.
  destruct (round_ok k sv a b cbs out Hr Ha Hab Hw)
    as (sv1 & ms & bs & c' & Es & Hr1 & Ew & Ea & Hn & Hms & Hln & _ & Hcb & Hcase).
  rewrite Hsl in Hln. assert (ms = []) as -> by (destruct ms; [done|cbn in Hln; lia]).
  destruct Hcase as [(? & _)|[_ Hend]]; [done|]. exists sv1, c'. split; [done|]. split; [|by rewrite Hcb, app_nil_r].
  intros f. change (1 + f)%nat with (Datatypes.S f). rewrite (converse_round _ _ _ _ _ _ _ _ _ _ Es Ew Ea). by apply converse_done, Hend.
Qed.

(** *** Six models that look the same, and one that differs *)

Section same.
Context (A B : NewBeliefState) (Hmodels : models = replicate 6 A ++ [B]) (Hne : A <> B).

Lemma first_conversation k sv out : ready (3 + k) sv ->
  exists sv' c', converse serve (talk (waiting qid hist 1 3 [] out)) sv (waiting qid hist 1 3 [] out) = Ok (sv', c') /\
    ready k sv' /\ ended c' /\ concat (callbacks c') = records qid [A; A; A].
Proof.
  intros Hr. change (talk (waiting qid hist 1 3 [] out)) with 4%nat.
  destruct (same_answer (2 + k) sv 1 3 [] out A 2) as (sv1 & c1 & Hr1 & E1 & H1 & _ & Hc1); [done..|by rewrite Hmodels|].
  destruct (Hc1 ltac:(done)) as (cbs1 & out1 & ->). cbn [callbacks waiting concat app] in H1.
  destruct (same_answer (1 + k) sv1 4 5 cbs1 out1 A 1) as (sv2 & c2 & Hr2 & E2 & H2 & _ & Hc2); [done..|by rewrite Hmodels|].
  destruct (Hc2 ltac:(done)) as (cbs2 & out2 & ->). cbn [callbacks waiting] in H2.
  destruct (same_answer k sv2 6 6 cbs2 out2 A 0) as (sv3 & c3 & Hr3 & E3 & H3 & Hc3 & _); [done..|by rewrite Hmodels|].
  exists sv3, c3. split; [|split; [done|]; split; [by apply Hc3|by rewrite H3, H2, H1]].
  etransitivity; [exact (E1 3%nat)|].
  etransitivity; [exact (E2 2%nat)|].
  etransitivity; [exact (E3 1%nat)|]. by apply converse_done, Hc3.
Qed.

Lemma second_conversation k sv out : ready (3 + k) sv ->
  exists sv' c', converse serve (talk (waiting qid hist 4 6 [] out)) sv (waiting qid hist 4 6 [] out) = Ok (sv', c') /\
    ready k sv' /\ ended c' /\ concat (callbacks c') = records qid [A; B].
Proof.
  intros Hr. change (talk (waiting qid hist 4 6 [] out)) with 4%nat.
  destruct (same_answer (2 + k) sv 4 6 [] out A 2) as (sv1 & c1 & Hr1 & E1 & H1 & _ & Hc1); [done..|by rewrite Hmodels|].
  destruct (Hc1 ltac:(done)) as (cbs1 & out1 & ->). cbn [callbacks waiting concat app] in H1.
  destruct (same_answer (1 + k) sv1 7 8 cbs1 out1 B 0) as (sv2 & c2 & Hr2 & E2 & H2 & _ & Hc2); [done..|by rewrite Hmodels|].
  destruct (Hc2 ltac:(done)) as (cbs2 & out2 & ->). cbn [callbacks waiting] in H2.
  destruct (no_answer k sv2 9 9 cbs2 out2) as (sv3 & c3 & Hr3 & E3 & H3 & Hc3); [done..|by rewrite Hmodels|].
  exists sv3, c3. split; [|split; [done|]; split; [done|by rewrite H3, H2, H1]].
  etransitivity; [exact (E1 3%nat)|].
  etransitivity; [exact (E2 2%nat)|].
  exact (E3 1%nat).
Qed.

Lemma third_conversation k sv out : ready (2 + k) sv ->
  exists sv' c', converse serve (talk (waiting qid hist 7 8 [] out)) sv (waiting qid hist 7 8 [] out) = Ok (sv', c') /\
    ready k sv' /\ ended c' /\ concat (callbacks c') = records qid [B].
Proof.
  intros Hr. change (talk (waiting qid hist 7 8 [] out)) with 3%nat.
  destruct (same_answer (1 + k) sv 7 8 [] out B 0) as (sv1 & c1 & Hr1 & E1 & H1 & _ & Hc1); [done..|by rewrite Hmodels|].
  destruct (Hc1 ltac:(done)) as (cbs1 & out1 & ->). cbn [callbacks waiting concat app] in H1.
  destruct (no_answer k sv1 9 9 cbs1 out1) as (sv2 & c2 & Hr2 & E2 & H2 & Hc2); [done..|by rewrite Hmodels|].
  exists sv2, c2. split; [|split; [done|]; split; [done|by rewrite H2, H1]].
  etransitivity; [exact (E1 2%nat)|].
  exact (E2 1%nat).
Qed.

Lemma same_wf : bs_wf n A /\ bs_wf n B.
Proof. rewrite Hmodels in Hwf. apply Forall_app in Hwf as [[? _]%Forall_cons [? _]%Forall_cons]. done. Qed.

Lemma equivalent_AB : equivalent A A = true /\ equivalent B B = true /\ equivalent B A = false.
Proof.
  destruct same_wf as [HA HB]. rewrite (equivalent_eq n A A), (equivalent_eq n B B) by done. split; [done|]. split; [done|].
  apply not_true_is_false. by rewrite (equivalent_eq n B A) by done.
Qed.

(** One round that brings [ms] and is followed by another question. *)
Lemma round_brings sv sv' p c' ms fs out a b d a' b' d' k1 k2 pack e :
  good p -> (forall m, m ∈ ms -> m ∈ models) ->
  converse serve (talk (waiting qid hist a b [] out)) sv (waiting qid hist a b [] out) = Ok (sv', c') ->
  ended c' -> concat (callbacks c') = records qid ms -> collect (final_result p) ms = fs ->
  let r := N.of_nat (length fs) in
  d < r -> r < pack -> pack < W64 -> b + 1 + pack < W64 ->
  a' = b + 1 -> b' = a' + (pack - r) -> d' = r - d ->
  exists p' out', good p' /\ final_result p' = fs /\
    round query_plan bs_size serve true pack (mk_fwd qid k1 k2 hist) e sv (mk_loop (with_client p (waiting qid hist a b [] out)) a b d false) =
      Ok (sv', inl (mk_loop (with_client p' (waiting qid hist a' b' [] out')) a' b' d' false)).
Proof.
  intros Hg Hm Hc Hend Hcb <- r Hd Hrp Hp Hw -> -> ->.
  destruct (io_run_ok sv sv' (with_client p (waiting qid hist a b [] out)) c' ms) as (p' & Er & Hg' & Hf' & Hcl); [by destruct Hg|done..|].
  cbn [final_result with_client] in Hf'. assert (Hsz : result_size p' = r) by (unfold result_size, r; by rewrite Hf').
  assert (Hdiff : u64_sub (result_size p') d = r - d) by (rewrite Hsz; apply u64_sub_small; lia).
  exists p'. eexists. split; [done|]. split; [done|].
  rewrite (round_asks sv sv' _ p' (mess c') (c_out c')); [|done|done|done| |cbn; lia].
  - cbn [ClientProgram.k2 diff_count]. by rewrite Hdiff, Hsz.
  - cbn [diff_count]. rewrite Hdiff, Hsz, andb_true_iff, !N.ltb_lt. lia.
Qed.

Lemma rounds_for_ever f sv out e : ready (8 + f) sv -> N.of_nat f < 2 ^ 60 ->
  rounds query_plan bs_size serve f true 3 (mk_fwd qid 1 3 hist) e sv
    (mk_loop (mk_program (waiting qid hist 1 3 [] out) [] 0 0 []) 1 3 0 false) = Err OutOfFuel.
Proof.
  intros Hr Hf. destruct f as [|f]; [done|]. destruct equivalent_AB as (EA & EB & EBA).
  set (p0 := mk_program (waiting qid hist 1 3 [] out) [] 0 0 []).
  assert (Hg0 : good p0) by (split; [done|done|by intros m ?%not_elem_of_nil]).
  assert (HA : A ∈ models) by (rewrite Hmodels; by left).
  assert (HB : B ∈ models) by (rewrite Hmodels; apply elem_of_app; right; by left).
  change (mk_loop p0 1 3 0 false) with (mk_loop (with_client p0 (waiting qid hist 1 3 [] out)) 1 3 0 false).
  destruct (first_conversation (6 + f) sv out Hr) as (sv1 & c1 & E1 & Hr1 & Hc1 & Hcb1).
  destruct (round_brings sv sv1 p0 c1 [A; A; A] [A] out 1 3 0 4 6 1 1 3 3 e Hg0) as (p1 & out1 & Hg1 & Hf1 & R1); try done.
  { intros m. rewrite !elem_of_cons. by intros [->|[->|[->|?%not_elem_of_nil]]]. }
  { unfold collect, add_new. cbn. by rewrite EA; cbn; rewrite EA. }
  cbn [rounds]. rewrite R1. rsimpl. destruct f as [|f]; [done|].
  destruct (second_conversation (4 + f) sv1 out1 Hr1) as (sv2 & c2 & E2 & Hr2 & Hc2 & Hcb2).
  destruct (round_brings sv1 sv2 p1 c2 [A; B] [A; B] out1 4 6 1 7 8 1 1 3 3 e Hg1) as (p2 & out2 & Hg2 & Hf2 & R2); try done.
  { intros m. rewrite !elem_of_cons. by intros [->|[->|?%not_elem_of_nil]]. }
  { rewrite Hf1. unfold collect, add_new. cbn. by rewrite EA; cbn; rewrite EBA. }
  cbn [rounds]. rewrite R2. rsimpl. destruct f as [|f]; [done|].
  destruct (third_conversation (3 + f) sv2 out2 Hr2) as (sv3 & c3 & E3 & Hr3 & Hc3 & Hcb3).
  destruct (round_brings sv2 sv3 p2 c3 [B] [A; B] out2 7 8 1 9 10 1 1 3 3 e Hg2) as (p3 & out3 & Hg3 & Hf3 & R3); try done.
  { intros m. rewrite !elem_of_cons. by intros [->|?%not_elem_of_nil]. }
  { rewrite Hf2. unfold collect, add_new. cbn. by rewrite EBA, EB. }
  cbn [rounds]. rewrite R3. rsimpl.
  assert (Hsz : result_size p3 = 2) by (unfold result_size; by rewrite Hf3).
  change (2 ^ 60) with 1152921504606846976 in Hf.
  apply rounds_diverge; [|done|done|by rewrite Hsz|by rewrite Hsz|done|done|done|by rewrite Hmodels|cbn; lia].
  eapply ready_weaken; [|exact Hr3]. lia.
Qed.

End same.

End service.

Section outcome.
Context {T : Type} `{I : Indexed Belief belief_conflict (≡ₚ) T}.
Context {BST : Boost} {BVS : BvSerializer} {BSTL : BoostLaws} {BVSL : BvSerializerLaws}.
Context {S : Type} (serve : S -> ForwardMessage -> res (S * list rvalue)) (ready : nat -> S -> Prop).
Context (dom : ForwardMessage -> Prop) (models : list NewBeliefState) (Hserve : Serves serve ready dom models).
Context (root_ctx : N) (Hdom : forall k1 k2, k2 + 1 < W64 -> dom (first_request root_ctx k1 k2)).
Context (Hheaders : Forall sendable [HEADER_REQ_DMCS; HEADER_ANS; HEADER_NEXT; HEADER_TERMINATE]).
Context (Hreq : forall k1 k2, k1 < W64 -> k2 < W64 -> sendable (first_request root_ctx k1 k2)).
Local Abbreviation qid := (QueryID.query_id3 INVOKER_ID root_ctx 1).
Context (Hpack : forall ms, NoDup ms -> (forall m, m ∈ ms -> m ∈ models) -> sendable (records qid ms ++ [(None, qid)])).
Context (Hend : sendable (end_request root_ctx)).
Context (n : N) (Hwf : Forall (bs_wf n) models).
Context (query_plan : option (gmap N (QueryPlans.ContextQueryPlan T))) (bs_size : N) (img : NewBeliefState -> text).
Context (Hshow : forall m, m ∈ models -> show query_plan bs_size m = Ok (img m)).
Context (Hoptions : query_plan = None \/ bs_size <> 0).

(** The program after its options were read. *)
Lemma main_begins fuel sv k1 k2 : k1 = 0 /\ k2 = 0 \/ 0 < k1 /\ k1 <= k2 -> k2 < W64 ->
  exists out, main query_plan bs_size serve fuel sv root_ctx k1 k2 true =
    (p ← rounds query_plan bs_size serve fuel true (pack_size_of k1 k2) (first_request root_ctx k1 k2) (end_request root_ctx) sv
       (mk_loop (mk_program (waiting qid {[INVOKER_ID]} k1 k2 [] out) [] 0 0 []) k1 k2 0 false);
     mret (Some (mk_program (cl p) (final_result p) (no_belief_states p) (handled_belief_states p) (printed p ++ [total_line p])))).
Proof.
  intros Hk HW. pose proof Hheaders as Hh. rewrite !Forall_cons in Hh. destruct Hh as (Hq & _). unfold main.
  assert (Hk' : (k2 <? k1) || ((k1 =? 0) && negb (k2 =? 0)) = false /\ k1 < W64).
  { destruct Hk as [[-> ->]|(? & ?)]; [done|]. split; [|lia]. rewrite (proj2 (N.ltb_ge k2 k1)) by lia. by destruct (N.eqb_spec k1 0); [lia|]. }
  destruct Hk' as (-> & H1). unfold begin, client_new, send. cbn [c_out loop callbacks cl_in]. rewrite (conn_write_ok _ _ Hq). rsimpl.
  assert (Hreq' := Hreq k1 k2 H1 HW). rewrite (conn_write_ok _ _ Hreq'). rsimpl.
  assert (match query_plan with Some _ => bs_size =? 0 | None => false end = false) as ->.
  { destruct query_plan; [|done]. destruct Hoptions; [done|]. by apply N.eqb_neq. }
  by eexists.
Qed.

(** The client program, looping, asks a server with pairwise distinct models
    of one size for all of them or for a range.  It ends after at most three
    rounds, has collected exactly the models of the range, has printed each of
    them once, numbered from 1 on, and then their total number, and has told
    the server to end the conversation. *)
Lemma client_prints_ok sv k1 k2 : ready 3 sv -> NoDup models -> asks k1 k2 ->
  exists p, main query_plan bs_size serve 3 sv root_ctx k1 k2 true = Ok (Some p) /\
    final_result p ≡ₚ slice k1 k2 models /\
    printed p = numbered img (final_result p) ++ [total_line p] /\
    exists out, c_out (cl p) = out ++ frame HEADER_TERMINATE ++ frame (end_request root_ctx).
Proof.
  intros Hr Hd Hk. pose proof Hheaders as Hh. rewrite !Forall_cons in Hh. destruct Hh as (_ & Hans & Hnext & Hterm & _).
  destruct (main_begins 3 sv k1 k2) as [out ->]; [destruct Hk as [?|(? & ? & ?)]; tauto|destruct Hk as [[-> ->]|(? & ? & ?)]; [done|lia]|].
  edestruct (rounds_distinct serve ready dom models Hserve qid {[INVOKER_ID]} Hdom Hans Hnext Hterm Hreq Hpack n Hwf
    query_plan bs_size img Hshow sv k1 k2 out) as (p & Hp & [G1 _ _] & Hf & Ho); [done|done|done|exact Hend|].
  unfold first_request, fwd_new. rewrite Hp. rsimpl. eexists. split; [done|]. cbn [final_result printed cl]. by rewrite G1.
Qed.

(** Of seven models the first six look the same and the seventh differs; the
    program asks for the first three.  It has found the two after two rounds,
    but its count of new equilibria never becomes 0 again: it goes on asking
    for ranges behind the last model. *)
Lemma client_asks_on A B f sv : models = replicate 6 A ++ [B] -> A <> B -> ready (8 + f) sv -> N.of_nat f < 2 ^ 60 ->
  main query_plan bs_size serve f sv root_ctx 1 3 true = Err OutOfFuel.
Proof.
  intros Hm Hne Hr Hf. pose proof Hheaders as Hh. rewrite !Forall_cons in Hh. destruct Hh as (_ & Hans & Hnext & Hterm & _).
  destruct (main_begins f sv 1 3) as [out ->]; [by right|done|].
  change (pack_size_of 1 3) with 3. change (first_request root_ctx 1 3) with (mk_fwd qid 1 3 {[INVOKER_ID]}).
  by rewrite (rounds_for_ever serve ready dom models Hserve qid {[INVOKER_ID]} Hdom Hans Hnext Hreq Hpack n Hwf
    query_plan bs_size img Hshow A B Hm Hne f sv out _ Hr Hf).
Qed.

End outcome.

End ClientProgram.
