(* ===== verification/Equilibria.v ===== *)
(** * From a server to the equilibria a client prints

    The threads of a server that a client talks to: the request loop of its
    context (ContextJoin, with the evaluator of DlvContext) and the output
    thread that writes the answers (ReturnedBeliefs).  Composed, they implement
    [Client.Serves], which the client (Client, ClientProgram) is proved
    against; the theorems of the client are stated here of this server.

    The context sends a [ReturnedBeliefState] for each model and one for the
    end of its answer, which are allocated here; the output dispatcher hands
    them to the output thread in order. *)

From S2P Require Import Prelude BitMagic BeliefState BeliefStateOffset Combination QueryID Ident Tables BridgeRules.
From S2P Require Import Guessing CachePosition Evaluator Context ReturnedBeliefs MessageQueue Dispatch Odometer Joiner ContextJoin.
From S2P Require Import Connection Archives Sessions Client Spirit Parsing QueryPlans DlvResults DlvContext ClientProgram.
Import BitMagic BeliefState BeliefStateOffset Ident Tables BridgeRules Context Dispatch Joiner ContextJoin Connection Archives
  Sessions Client Spirit Parsing DlvContext ClientProgram.

Module Equilibria.

Abbreviation heap := ReturnedBeliefs.heap.

(** ** Records on the heap *)

(** [new ReturnedBeliefState(belief_state, parent_qid)].  The belief state is an
    object of its own: with one answer set per program every model comes from
    a parser of its own (DlvResults). *)
Definition new_record (h : heap) (v : rvalue) : heap * ReturnedBeliefs.loc :=
  let l := base.fresh (dom (ReturnedBeliefs.bs_heap h)) in
  let r := base.fresh (dom (ReturnedBeliefs.rbs_heap h)) in
  match v.1 with
  | None => (ReturnedBeliefs.mk_heap (ReturnedBeliefs.bs_heap h) (<[r := (None, v.2)]> (ReturnedBeliefs.rbs_heap h)), r)
  | Some bs => (ReturnedBeliefs.mk_heap (<[l := bs]> (ReturnedBeliefs.bs_heap h)) (<[r := (Some l, v.2)]> (ReturnedBeliefs.rbs_heap h)), r)
  end.

Fixpoint new_records (h : heap) (vs : list rvalue) : heap * list ReturnedBeliefs.loc :=
  match vs with
  | [] => (h, [])
  | v :: vs => let '(h, p) := new_record h v in let '(h, ps) := new_records h vs in (h, p :: ps)
  end.

(** Records that were allocated since [h]: each points to a belief state that
    was allocated since, and no two share one. *)
Record allocated (h h' : heap) (ps : list ReturnedBeliefs.loc) (vs : list rvalue) : Prop := {
  al_bs : ReturnedBeliefs.bs_heap h ⊆ ReturnedBeliefs.bs_heap h';
  al_rbs : ReturnedBeliefs.rbs_heap h ⊆ ReturnedBeliefs.rbs_heap h';
  al_nodup : NoDup ps;
  al_new : forall p, p ∈ ps -> ReturnedBeliefs.rbs_heap h !! p = None;
  al_read : Forall2 (fun p v => ReturnedBeliefs.read_rbs h' p = Ok v) ps vs;
  al_fresh : forall p l q, p ∈ ps -> ReturnedBeliefs.rbs_heap h' !! p = Some (Some l, q) -> ReturnedBeliefs.bs_heap h !! l = None;
  al_distinct : forall p p' l q q', p ∈ ps -> p' ∈ ps ->
    ReturnedBeliefs.rbs_heap h' !! p = Some (Some l, q) -> ReturnedBeliefs.rbs_heap h' !! p' = Some (Some l, q') -> p = p';
}.

Lemma fresh_not_in {A} (m : gmap N A) : m !! base.fresh (dom m) = None.
Proof. apply not_elem_of_dom. apply is_fresh. Qed.

Lemma read_rbs_mono h h' p v :
  ReturnedBeliefs.bs_heap h ⊆ ReturnedBeliefs.bs_heap h' -> ReturnedBeliefs.rbs_heap h ⊆ ReturnedBeliefs.rbs_heap h' ->
  ReturnedBeliefs.read_rbs h p = Ok v -> ReturnedBeliefs.read_rbs h' p = Ok v.
Proof.
  intros Hb Hr (c & Hc & Hv & E)%ReturnedBeliefs.read_rbs_inv. unfold ReturnedBeliefs.read_rbs.
  rewrite (proj2 (ReturnedBeliefs.deref_ok _ _ _) (lookup_weaken _ _ _ _ Hc Hr)). rsimpl.
  assert (ReturnedBeliefs.read_bs h' c.1 = Ok v.1) as ->.
  { destruct c as [[l|] q]; [|done]. cbn [ReturnedBeliefs.read_bs fst] in Hv |- *.
    apply bind_ok in Hv as (bs & Hl%ReturnedBeliefs.deref_ok & Hv).
    by rewrite (proj2 (ReturnedBeliefs.deref_ok _ _ _) (lookup_weaken _ _ _ _ Hl Hb)). }
  rsimpl. rewrite <- E. by destruct v.
Qed.

Lemma read_cell h p l q bs :
  ReturnedBeliefs.rbs_heap h !! p = Some (Some l, q) -> ReturnedBeliefs.bs_heap h !! l = Some bs ->
  ReturnedBeliefs.read_rbs h p = Ok (Some bs, q).
Proof.
  intros Hp Hl. unfold ReturnedBeliefs.read_rbs. rewrite (proj2 (ReturnedBeliefs.deref_ok _ _ _) Hp). rsimpl.
  cbn [fst ReturnedBeliefs.read_bs]. by rewrite (proj2 (ReturnedBeliefs.deref_ok _ _ _) Hl).
Qed.

Lemma read_null h p q : ReturnedBeliefs.rbs_heap h !! p = Some (None, q) -> ReturnedBeliefs.read_rbs h p = Ok (None, q).
Proof. intros Hp. unfold ReturnedBeliefs.read_rbs. by rewrite (proj2 (ReturnedBeliefs.deref_ok _ _ _) Hp). Qed.

Lemma new_record_ok h v h' p : new_record h v = (h', p) -> allocated h h' [p] [v].
Proof.
  unfold new_record. set (l := base.fresh (dom (ReturnedBeliefs.bs_heap h))). set (r := base.fresh (dom (ReturnedBeliefs.rbs_heap h))).
  pose proof (fresh_not_in (ReturnedBeliefs.bs_heap h) : _ !! l = None) as Hl.
  pose proof (fresh_not_in (ReturnedBeliefs.rbs_heap h) : _ !! r = None) as Hr.
  destruct v as [[bs|] q]; cbn [fst snd]; intros [= <- <-].
  - split; cbn [ReturnedBeliefs.bs_heap ReturnedBeliefs.rbs_heap].
    + by apply insert_subseteq.
    + by apply insert_subseteq.
    + apply NoDup_singleton.
    + by intros p ->%list_elem_of_singleton.
    + apply Forall2_cons. split; [|done]. eapply read_cell; apply lookup_insert_eq.
    + intros p l' q' ->%list_elem_of_singleton. rewrite lookup_insert_eq. by intros [= <- _].
    + by intros p p' l' q' q'' ->%list_elem_of_singleton ->%list_elem_of_singleton.
  - split; cbn [ReturnedBeliefs.bs_heap ReturnedBeliefs.rbs_heap].
    + done.
    + by apply insert_subseteq.
    + apply NoDup_singleton.
    + by intros p ->%list_elem_of_singleton.
    + apply Forall2_cons. split; [|done]. apply read_null, lookup_insert_eq.
    + intros p l' q' ->%list_elem_of_singleton. by rewrite lookup_insert_eq.
    + by intros p p' l' q' q'' ->%list_elem_of_singleton ->%list_elem_of_singleton.
Qed.

Lemma new_records_ok vs : forall h h' ps, new_records h vs = (h', ps) -> allocated h h' ps vs.
Proof.
  induction vs as [|v vs IH]; intros h h' ps; cbn [new_records].
  { intros [= <- <-]. split; try done; try (by intros ? ?%not_elem_of_nil); try (by intros ??? ?%not_elem_of_nil);
      try (by intros ????? ?%not_elem_of_nil). apply NoDup_nil_2. }
  destruct (new_record h v) as [h1 p] eqn:E1. destruct (new_records h1 vs) as [h2 ps2] eqn:E2. intros [= <- <-].
  apply new_record_ok in E1 as [B1 R1 _ N1 F1 A1 D1]. apply IH in E2 as [B2 R2 Nd N2 F2 A2 D2].
  apply Forall2_cons in F1 as [F1 _]. pose proof (N1 p ltac:(by left)) as Hp.
  assert (Hin : exists c, ReturnedBeliefs.rbs_heap h1 !! p = Some c).
  { apply ReturnedBeliefs.read_rbs_inv in F1 as (c & Hc & _). by exists c. }
  destruct Hin as [c Hc].
  assert (Hnp : p ∉ ps2) by (intros Hx%N2; congruence).
  assert (Hcell : ReturnedBeliefs.rbs_heap h2 !! p = Some c) by (by eapply lookup_weaken).
  assert (Hown : forall l q, c = (Some l, q) -> ReturnedBeliefs.bs_heap h1 !! l <> None).
  { intros l q ->. apply ReturnedBeliefs.read_rbs_inv in F1 as (c' & Hc' & Hv & _). rewrite Hc in Hc'. injection Hc' as <-.
    cbn in Hv. apply bind_ok in Hv as (bs & Hl%ReturnedBeliefs.deref_ok & _). congruence. }
  split; [by etrans|by etrans|by apply NoDup_cons| | | |].
  - intros q [->|Hq%N2]%elem_of_cons; [done|]. by eapply lookup_weaken_None.
  - apply Forall2_cons. split; [by eapply read_rbs_mono|done].
  - intros q l z [->|Hq]%elem_of_cons Hl.
    + rewrite Hcell in Hl. injection Hl as ->. eapply A1; [by left|exact Hc].
    + pose proof (A2 _ _ _ Hq Hl). by eapply lookup_weaken_None.
  - intros q q' l z z' [->|Hq]%elem_of_cons [->|Hq']%elem_of_cons Hl Hl'; [done| | |by eapply D2].
    + rewrite Hcell in Hl. injection Hl as ->. exfalso. apply (Hown l z eq_refl). by eapply A2.
    + rewrite Hcell in Hl'. injection Hl' as ->. exfalso. apply (Hown l z' eq_refl). by eapply A2.
Qed.

Lemma allocated_owned h h' ps vs : allocated h h' ps vs -> ReturnedBeliefs.owned h' ps.
Proof.
  intros [_ _ Hn _ Hf _ Hd]. split; [done| |done]. intros p Hp.
  apply list_elem_of_lookup in Hp as [i Hi]. destruct (Forall2_lookup_l _ _ _ _ _ Hf Hi) as (v & _ & Hv). by exists v.
Qed.

Lemma allocated_values h h' ps vs : allocated h h' ps vs -> ReturnedBeliefs.value_of h' <$> ps = vs.
Proof.
  intros [_ _ _ _ Hf _ _]. induction Hf as [|p v ps vs Hv _ IH]; [done|]. cbn [fmap list_fmap]. rewrite IH.
  unfold ReturnedBeliefs.value_of. by rewrite Hv.
Qed.

(** ** The output thread *)

Lemma output_collects iid h w : forall ps acc rest,
  (forall p, p ∈ ps -> exists l q, ReturnedBeliefs.rbs_heap h !! p = Some (Some l, q) /\ QueryID.ctxid_from_qid q = iid) ->
  ReturnedBeliefs.output_startup iid (ReturnedBeliefs.mk_output h acc w) ((Some <$> ps) ++ rest) =
  ReturnedBeliefs.output_startup iid (ReturnedBeliefs.mk_output h (acc ++ ps) w) rest.
Proof.
  induction ps as [|p ps IH]; intros acc rest Hp; [by rewrite app_nil_r|]. cbn [fmap list_fmap app ReturnedBeliefs.output_startup].
  destruct (Hp p) as (l & q & Hc & Hq); [by left|]. unfold ReturnedBeliefs.output_step at 1. cbn [ReturnedBeliefs.o_heap].
  rewrite (proj2 (ReturnedBeliefs.deref_ok _ _ _) Hc). rsimpl. cbn [snd fst]. rewrite Hq, N.eqb_refl. change (assert true) with (Ok tt).
  rsimpl. cbn [ReturnedBeliefs.output_list ReturnedBeliefs.o_written]. rewrite IH by (intros; apply Hp; by right). by rewrite <- app_assoc.
Qed.

(** Belief states of one size are equal when their bits are. *)
Lemma bs_eqb_wf n a b : bs_wf n a -> bs_wf n b -> bs_eqb a b = true -> a = b.
Proof.
  intros [Ha1 Ha2 _ _ _ _] [Hb1 Hb2 _ _ _ _] [E1 E2]%ReturnedBeliefs.bs_eqb_bits.
  destruct a as [[] []], b as [[] []]. cbn in *. congruence.
Qed.

Lemma sorted_nodup l : StronglySorted ReturnedBeliefs.lt_value l -> NoDup l.
Proof.
  induction 1 as [|v l _ IH Hv]; [apply NoDup_nil_2|]. apply NoDup_cons. split; [|done]. intros Hin.
  pose proof (proj1 (Forall_forall _ _) Hv v Hin) as Hlt. unfold ReturnedBeliefs.lt_value in Hlt. by rewrite ReturnedBeliefs.my_compare_irrefl in Hlt.
Qed.

(** What the thread makes of models for one request and the end marker: each of
    the models once, and the end marker. *)
Lemma output_answer n h qid models : Forall (bs_wf n) models ->
  let '(h', ps) := new_records h (records qid models ++ [(None, qid)]) in
  exists h'' ms, ReturnedBeliefs.output_startup (QueryID.ctxid_from_qid qid) (ReturnedBeliefs.mk_output h' [] []) (Some <$> ps) =
      Ok (ReturnedBeliefs.mk_output h'' [] [records qid ms ++ [(None, qid)]]) /\
    NoDup ms /\ forall m, m ∈ ms <-> m ∈ models.
Proof.
  intros Hw. destruct (new_records h (records qid models ++ [(None, qid)])) as [h' ps] eqn:E. apply new_records_ok in E as Hal.
  pose proof (allocated_owned _ _ _ _ Hal) as Hown. pose proof (allocated_values _ _ _ _ Hal) as Hval.
  pose proof (al_read _ _ _ _ Hal) as Hrd. apply Forall2_app_inv_r in Hrd as (ps1 & ps2 & Hr1 & Hr2 & ->).
  destruct ps2 as [|pe [|]]; [by inversion Hr2| |by inversion Hr2 as [|? ? ? ? ? Hx]; inversion Hx].
  apply Forall2_cons in Hr2 as [Hpe _]. rewrite fmap_app, output_collects.
  2: { intros p [i Hi]%list_elem_of_lookup. destruct (Forall2_lookup_l _ _ _ _ _ Hr1 Hi) as (v & Hv & Hp).
       unfold records in Hv. apply list_lookup_fmap_Some in Hv as (m & -> & _).
       apply ReturnedBeliefs.read_rbs_inv in Hp as ([[l|] q] & Hc & Hb & Hq); [|done]. cbn in Hq. subst q. by exists l, qid. }
  apply ReturnedBeliefs.read_rbs_inv in Hpe as ([c q] & Hc & Hb & Hq). cbn in Hq. subst q.
  assert (c = None) as ->. { destruct c as [l|]; [|done]. cbn in Hb. by apply bind_ok in Hb as (? & _ & ?). }
  destruct (ReturnedBeliefs.write_result_values h' (ps1 ++ [pe]) Hown) as (h'' & msg & Ew & Hs & Hin & Hall); [by destruct ps1|].
  cbn [fmap list_fmap app ReturnedBeliefs.output_startup]. unfold ReturnedBeliefs.output_step.
  cbn [ReturnedBeliefs.o_heap ReturnedBeliefs.output_list ReturnedBeliefs.o_written].
  rewrite (proj2 (ReturnedBeliefs.deref_ok _ _ _) Hc). rsimpl. cbn [fst snd]. rewrite N.eqb_refl. change (assert true) with (Ok tt). rsimpl.
  rewrite Ew. rsimpl.
  assert (Hmsg : forall v, v ∈ msg -> v ∈ records qid models ++ [(None, qid)]).
  { intros v (p & Hp & <-)%Hin. rewrite <- Hval. by apply list_elem_of_fmap_2. }
  assert (Hcov : forall v, v ∈ records qid models ++ [(None, qid)] -> exists u, u ∈ msg /\ ReturnedBeliefs.rbs_eqb u v = true).
  { intros v. rewrite <- Hval. intros (p & -> & Hp)%list_elem_of_fmap. by apply Hall. }
  destruct (Hcov (None, qid)) as ([[b|] e] & He & Hx); [apply elem_of_app; right; by left|done|].
  destruct (ReturnedBeliefs.null_last msg _ Hs He eq_refl) as (msg' & -> & Hnn).
  assert (e = qid) as ->.
  { apply Hmsg, elem_of_app in He as [(m & ? & _)%list_elem_of_fmap|He%list_elem_of_singleton]; congruence. }
  assert (Hform : exists ms, msg' = records qid ms).
  { clear -Hmsg Hnn. induction msg' as [|v msg' IH]; [by exists []|]. destruct IH as [ms ->].
    - intros u Hu. apply Hmsg. by right.
    - intros u Hu. apply Hnn. by right.
    - assert (Hv : v ∈ records qid models ++ [(None, qid)]) by (apply Hmsg; by left).
      apply elem_of_app in Hv as [(m & -> & _)%list_elem_of_fmap| ->%list_elem_of_singleton]; [by exists (m :: ms)|].
      by destruct (Hnn (None, qid) ltac:(by left)). }
  destruct Hform as [ms ->]. exists h'', ms. split; [done|].
  assert (Hiff : forall m, m ∈ ms <-> m ∈ models).
  { assert (Hfwd : forall m, m ∈ ms -> m ∈ models).
    { intros m Hm. assert (Hv : (Some m, qid) ∈ records qid models ++ [(None, qid)]).
      { apply Hmsg, elem_of_app. left. apply list_elem_of_fmap. by exists m. }
      apply elem_of_app in Hv as [(x & [= ->] & Hx')%list_elem_of_fmap|Hv%list_elem_of_singleton]; [done|congruence]. }
    intros m. split; [by apply Hfwd|]. intros Hm.
    destruct (Hcov (Some m, qid)) as (u & Hu & Eu); [apply elem_of_app; left; apply list_elem_of_fmap; by exists m|].
    apply elem_of_app in Hu as [(x & -> & Hxm)%list_elem_of_fmap| ->%list_elem_of_singleton]; [|done].
    cbn in Eu. apply andb_prop in Eu as [Eu _]. rewrite Forall_forall in Hw.
    by rewrite <- (bs_eqb_wf n x m (Hw x (Hfwd x Hxm)) (Hw m Hm) Eu). }
  split; [|done]. apply sorted_nodup, NoDup_app in Hs as [Hs _]. by eapply NoDup_fmap_1.
Qed.

(** ** The server *)

Record server (J : Type) := mk_server { sv_node : node J; sv_heap : heap }.
Arguments mk_server {J}.
Arguments sv_node {J}.
Arguments sv_heap {J}.

Section server.
Context {J : Type} (jn : BaseJoiner J) (solve : Heads -> Evaluator.evaluator -> res Evaluator.evaluator) (su : setup).
Context (ctx_id : N) (calls : nat).

(** A request on its way through the server: the turn of the context, the
    records it sends, and the message that the output thread of the invoker
    writes for them. *)
Definition server_turn (sv : server J) (f : ForwardMessage) : res (server J * list rvalue) :=
  r ← startup_turn jn solve su ctx_id calls f (sv_node sv);
  match r with
  | None => Err Blocked
  | Some nd =>
      let answer := drop (length (sent (node_ctx (sv_node sv)))) (sent (node_ctx nd)) in
      let '(h, ps) := new_records (sv_heap sv) answer in
      o ← ReturnedBeliefs.output_startup (QueryID.invoker_from_qid (fm_qid f)) (ReturnedBeliefs.mk_output h [] []) (Some <$> ps);
      match ReturnedBeliefs.o_written o with
      | [msg] => mret (mk_server nd (ReturnedBeliefs.o_heap o), msg)
      | _ => Err Blocked
      end
  end.

(** *** It serves clients *)

Context (heads_dom : Heads -> Prop) (models_of : option NewBeliefState -> option NewBeliefState -> list NewBeliefState).
Context `{Hsolve : !Solves heads_dom solve models_of}.
Context (nb sb : N) (Hnb : 0 < nb) (Hsb : 0 < sb) (Hmax : nb * (sb + 1) <= id_max).
Local Abbreviation n := (nb * (sb + 1)).
Context (Hoff : offsets su = layout nb sb) (Hrules : Forall (rule_wf nb sb) (bridge_rules su)).
Context (Hdom : forall inp h k1 k2, bs_wf n inp -> heads_for su inp = Some h -> heads_dom (mk_heads (Some h) k1 k2 (Some inp))).
Context (Hguess : guessing su = None) (Hid : ctx_id < 2 ^ 10).
Context (ready : J -> Prop) (stream : list NewBeliefState) `{Hfeeds : !Feeds jn ready ready stream}.
Context (Hstream : Forall (bs_wf n) stream) (Hcalls : (length stream <= calls)%nat).
Context (interface : NewBeliefState) (Hiface : bs_wf n interface).
Context (Hmodels : forall inp, bs_wf n inp -> Forall (bs_wf n) (input_models models_of su inp)).

(** The requests of an invoker with the given interface. *)
Record accepted (f : ForwardMessage) : Prop := {
  ac_type : QueryID.is_shutdown (fm_qid f) = false;
  ac_width : fm_k2 f + 1 < W64;
  ac_history : ctx_id ∉ history f;
  ac_plan : plan_lookup (return_plan su) (QueryID.invoker_from_qid (fm_qid f)) = Some interface;
}.

(** [k] more requests fit into the query counter. *)
Definition can_serve (k : nat) (sv : server J) : Prop :=
  ready (node_joiner (sv_node sv)) /\ Evaluator.eval_out (eval (node_ctx (sv_node sv))) = [] /\
  query_counter (sv_node sv) + N.of_nat k * (N.of_nat (length stream) + 1) < 2 ^ 24.

(** What the invoker can see of the models. *)
Definition visible : list NewBeliefState := (fun m => bs_and m interface) <$> all_models models_of su stream.

Lemma visible_wf : Forall (bs_wf n) visible.
Proof.
  apply Forall_fmap, Forall_forall. intros m (inp & Hm & Hinp)%list_elem_of_bind.
  rewrite Forall_forall in Hstream. pose proof (Hmodels inp (Hstream inp Hinp)) as Hf. rewrite Forall_forall in Hf.
  apply wf_and; [by apply Hf|done].
Qed.

Lemma slice_fmap {A B} (g : A -> B) k1 k2 (l : list A) : slice k1 k2 (g <$> l) = g <$> slice k1 k2 l.
Proof. unfold slice, Evaluator.slice. destruct (_ && _); [done|]. by rewrite fmap_take, fmap_drop. Qed.

Lemma served_visible f : accepted f ->
  ContextJoin.served models_of su stream f = records (fm_qid f) (slice (fm_k1 f) (fm_k2 f) visible) ++ [(None, fm_qid f)].
Proof.
  intros [_ _ _ Hp]. unfold ContextJoin.served, visible. rewrite Hp. cbn [default]. rewrite slice_fmap.
  unfold records. rewrite <- list_fmap_compose. done.
Qed.

#[export] Instance server_serves : Serves server_turn can_serve accepted visible.
Proof.
  split.
  - intros k [nd h] f (Hr & Hq & Hc) Hf Hk. cbn [sv_node] in *. pose proof Hf as [H1 H2 H3 H4].
    destruct (startup_turn_ok heads_dom solve models_of nb sb Hnb Hsb Hmax su Hoff Hrules Hdom Hguess ctx_id Hid jn ready ready
      stream Hstream f calls nd) as (nd' & E & Hs & _ & Hq' & Hr' & Hc'); [split; [done..|by eexists]|done|done| |done|].
    { rewrite Nat2N.inj_succ in Hc. nia. }
    unfold server_turn. cbn [sv_node sv_heap]. rewrite E. rsimpl. rewrite Hs, drop_app_length, served_visible by done.
    pose proof (output_answer n h (fm_qid f) (slice (fm_k1 f) (fm_k2 f) visible)) as Ho.
    destruct (new_records h _) as [h' ps]. destruct Ho as (h'' & ms & Eo & Hd & Hms).
    { apply Forall_forall. intros m Hm. apply slice_in in Hm. pose proof visible_wf as Hw. rewrite Forall_forall in Hw. by apply Hw. }
    unfold QueryID.invoker_from_qid. rewrite Eo. rsimpl. eexists _, ms. split; [done|]. split; [|done].
    split; [done|]. split; [done|]. cbn [sv_node]. rewrite Nat2N.inj_succ in Hc. nia.
  - intros k sv (Hr & Hq & Hc). split; [done|]. split; [done|]. rewrite Nat2N.inj_succ in Hc. nia.
Qed.

End server.

(** ** The requests of the client program *)

Lemma client_qid ctx : ctx < 2 ^ 10 ->
  QueryID.is_shutdown (QueryID.query_id3 INVOKER_ID ctx 1) = false /\
  QueryID.invoker_from_qid (QueryID.query_id3 INVOKER_ID ctx 1) = INVOKER_ID.
Proof.
  intros Hc. assert (H1 : INVOKER_ID < 2 ^ 10) by done. assert (H2 : 1 < 2 ^ 24) by done. assert (H3 : QueryID.TYPE_REQUEST < 2 ^ 4) by done.
  unfold QueryID.is_shutdown, QueryID.invoker_from_qid, QueryID.query_id3.
  rewrite QueryID.type_field, QueryID.ctxid_field, !QueryID.field_lor.
  change (QueryID.query_order_shift QueryID.instance) with 4. change (QueryID.local_context_shift QueryID.instance) with 34.
  change (QueryID.neighbor_id_shift QueryID.instance) with 54.
  rewrite (QueryID.field_other ctx 10 54 10 34), (QueryID.field_other ctx 10 54 4 0) by (done || lia). done.
Qed.

(** ** A client and the server of its root context *)

Section root.
Context (dlv : string -> list string).
Context {T : Type} `{I : Indexed Belief belief_conflict (≡ₚ) T} `{Q : Qi} `{L : !QiLaws}.
Context (nb sb : N) (local_kb : string) (ctx_id : N) (btab : BeliefTable T) (su : setup).
Local Abbreviation n := (nb * (sb + 1)).
Context (Hnb : 0 < nb) (Hsb : 0 < sb) (Hmax : n <= id_max) (Hctx : ctx_id < nb) (Hid : ctx_id < INVOKER_ID).
Context (Hoff : offsets su = layout nb sb) (Hrules : Forall (rule_wf nb sb) (bridge_rules su)) (Hguess : guessing su = None).
(** dlv and the beliefs of the context. *)
Context (Hheads : own_heads ctx_id btab su) (Hdlv : one_answer_set dlv sb btab).
(** The neighbors: all have models and answer with the models asked for. *)
Context (pack_size joff : N) (neighbors : list NewNeighbor).
Context (respond : list request -> list request -> list rvalue).
Context (models : list (list NewBeliefState)) (reply : nat -> N -> N -> list NewBeliefState).
Context (Hnet : Network neighbors respond models reply) (Hnbs : neighbors_wf joff neighbors).
Context (Hlen : length models = length neighbors) (Hwf : Forall (Forall (bs_wf n)) models).
Context (Hbig : Forall (fun ms => N.of_nat (length ms) + 2 * pack_size < W64) models).
Context (Hne : Forall (fun ms => ms <> []) models).
Context (jd0 : gmap N N) (Hjd0 : forall id x, jd0 !! id = Some x -> QueryID.joiner_offset_from_qid id <> joff).
Local Abbreviation stream := (joined_stream nb sb pack_size neighbors models reply).
Context (fuel calls : nat) (Hfuel : N.of_nat (S (length neighbors)) * Odometer.capacity (nps pack_size models) <= N.of_nat fuel).
Context (Hcalls : (length stream <= calls)%nat).
(** The interface with the client. *)
Context (interface : NewBeliefState) (Hiface : bs_wf n interface).

Definition root_turn : server jstate -> ForwardMessage -> res (server jstate * list rvalue) :=
  server_turn (streaming pack_size joff neighbors (layout nb sb) respond fuel) (dlv_solve dlv nb sb local_kb ctx_id btab) su ctx_id calls.

(** The server can serve [k] more requests. *)
Definition root_ready : nat -> server jstate -> Prop := can_serve (joiner_ready neighbors jd0) stream.

(** The models of the root context for all joins of the neighbors' models, as
    the client sees them. *)
Definition equilibria : list NewBeliefState := visible su (dlv_models dlv nb sb local_kb ctx_id btab) stream interface.

Lemma stream_all_wf : Forall (bs_wf n) stream.
Proof. by eapply stream_wf. Qed.

Lemma root_serves : Serves root_turn root_ready (accepted su ctx_id interface) equilibria.
Proof.
  assert (Hfeeds : Feeds (streaming pack_size joff neighbors (layout nb sb) respond fuel) (joiner_ready neighbors jd0) (joiner_ready neighbors jd0) stream).
  { pose proof (streaming_feeds nb sb Hnb Hsb Hmax pack_size joff neighbors respond models reply Hnet Hnbs Hlen Hwf Hbig jd0 Hjd0 fuel Hfuel) as Hf.
    intros hist qids j Hj Hq. eapply feeds_impl; [|by apply Hf]. intros j' Hj'. by apply Hj'. }
  apply (server_serves _ (dlv_solve dlv nb sb local_kb ctx_id btab) su ctx_id calls
    (DlvResults.single_dom dlv (layout nb sb) local_kb ctx_id btab (unknown nb sb)) (dlv_models dlv nb sb local_kb ctx_id btab)
    (Hsolve := dlv_solves dlv nb sb local_kb ctx_id btab Hmax) nb sb Hnb Hsb Hmax Hoff Hrules); try done.
  - intros inp h k1 k2 Hi Hh. by eapply inputs_in_domain.
  - unfold INVOKER_ID in Hid. change (2 ^ 10) with 1024. lia.
  - apply stream_all_wf.
  - intros inp Hinp. by apply (input_models_ok dlv nb sb local_kb ctx_id btab su Hnb Hsb Hmax Hctx Hoff Hrules Hheads Hdlv inp).
Qed.

Lemma equilibria_wf : Forall (bs_wf n) equilibria.
Proof.
  apply visible_wf; [apply stream_all_wf|done|]. intros inp Hinp.
  by apply (input_models_ok dlv nb sb local_kb ctx_id btab su Hnb Hsb Hmax Hctx Hoff Hrules Hheads Hdlv inp).
Qed.

Context {BST : Boost} {BVS : BvSerializer} {BSTL : BoostLaws} {BVSL : BvSerializerLaws}.

(** An answer fits into a frame. *)
Definition fits (qid : N) (ms : list NewBeliefState) : Prop :=
  N.of_nat (length (saved (records qid ms ++ [(None, qid)]))) < 2 ^ 32.

Lemma pack_sendable qid ms : (forall m, m ∈ ms -> m ∈ equilibria) -> fits qid ms -> sendable (records qid ms ++ [(None, qid)]).
Proof.
  intros Hin Hfit. split; [|exact Hfit]. cbn [storable rvalues_archive]. apply forallb_forall. intros r Hr%list_elem_of_In.
  apply elem_of_app in Hr as [(m & -> & Hm)%list_elem_of_fmap| ->%list_elem_of_singleton]; [|done].
  apply (wf_storable n); [nia|]. pose proof equilibria_wf as Hw. rewrite Forall_forall in Hw. by apply Hw, Hin.
Qed.

(** C27.  A client that loops and asks the server of a root context for the
    models [k1] to [k2].  The server runs [NormalContext] with
    [DLVEvaluator] and the output thread.  Conditions: dlv prints at most one
    answer set per program, over beliefs of the context; there are no guessing
    neighbors, every neighbor has models and answers with those asked for;
    there is a return plan for the client; all messages are below four
    gigabytes, and the query counter of the server stays below 2^24.  Then the
    conversation ends after at most as many rounds as models were asked for,
    no assertion fails in either program, and the callback has been given
    either as many records as were asked for, all of them models from [k1] on
    without a gap, or all models from [k1] on because there are not enough. *)
Theorem client_collects sv qid hist k1 k2 :
  QueryID.is_shutdown qid = false -> ctx_id ∉ hist ->
  plan_lookup (return_plan su) (QueryID.invoker_from_qid qid) = Some interface ->
  Forall sendable [HEADER_REQ_DMCS; HEADER_ANS; HEADER_NEXT] ->
  (forall k1 k2, k1 < W64 -> k2 < W64 -> sendable (mk_fwd qid k1 k2 hist)) ->
  (forall ms, NoDup ms -> (forall m, m ∈ ms -> m ∈ equilibria) -> fits qid ms) ->
  root_ready (N.to_nat (k2 - k1 + 1)) sv ->
  0 < k1 -> k1 <= k2 -> k2 + (k2 - k1 + 1) * (k2 - k1 + 2) < W64 ->
  exists c0 sv' c' ms, client_new HEADER_REQ_DMCS (mk_fwd qid k1 k2 hist) true = Ok c0 /\
    converse root_turn (N.to_nat (k2 - k1 + 1)) sv c0 = Ok (sv', c') /\ cl_phase c' = CDone /\
    concat (callbacks c') = records qid ms /\ collected equilibria k1 k2 ms.
Proof.
  intros Ht Hh Hp Hheaders Hreq Hfit Hr H1 H2 Hw. rewrite !Forall_cons in Hheaders. destruct Hheaders as (Hq & Hans & Hnext & _).
  apply (client_collects_ok root_turn root_ready (accepted su ctx_id interface) equilibria root_serves qid hist); try done.
  intros ms Hd Hin. apply pack_sendable; [done|by apply Hfit].
Qed.

(** The client program. *)
Context (Hplan : plan_lookup (return_plan su) INVOKER_ID = Some interface).
Context (Hheaders : Forall sendable [HEADER_REQ_DMCS; HEADER_ANS; HEADER_NEXT; HEADER_TERMINATE]).
Context (Hreq : forall k1 k2, k1 < W64 -> k2 < W64 -> sendable (first_request ctx_id k1 k2)) (Hend : sendable (end_request ctx_id)).
Context (Hfit : forall ms, NoDup ms -> (forall m, m ∈ ms -> m ∈ equilibria) -> fits (QueryID.query_id3 INVOKER_ID ctx_id 1) ms).
Context (query_plan : option (gmap N (QueryPlans.ContextQueryPlan T))) (bs_size : N) (img : NewBeliefState -> text).
Context (Hshow : forall m, m ∈ equilibria -> show query_plan bs_size m = Ok (img m)) (Hoptions : query_plan = None \/ bs_size <> 0).

Lemma client_accepted k1 k2 : k2 + 1 < W64 -> accepted su ctx_id interface (first_request ctx_id k1 k2).
Proof.
  intros Hk. destruct (client_qid ctx_id) as [H1 H2]; [unfold INVOKER_ID in Hid; change (2 ^ 10) with 1024; lia|].
  split; cbn [fm_qid fm_k2 history first_request fwd_new]; [done|done|intros ?%elem_of_singleton; lia|by rewrite H2].
Qed.

(** C28.  The client program, started with looping, asks the server of a root
    context for all models or a range of them, the models being pairwise
    distinct as the client sees them.  Conditions on the server: dlv prints at
    most one answer set per program, over beliefs of the context; no guessing
    neighbors; every neighbor has models and answers with those asked for; a
    return plan for the client; messages below four gigabytes; a query
    counter with room for three requests.  The models can be printed.  The
    program ends after at most three rounds, has collected exactly the
    models of the range, has printed each of them once, numbered from 1 on,
    and then their total number, and has told the server to end the
    conversation. *)
Theorem client_prints_each_equilibrium_once sv k1 k2 : root_ready 3 sv -> NoDup equilibria -> asks k1 k2 ->
  exists p, main query_plan bs_size root_turn 3 sv ctx_id k1 k2 true = Ok (Some p) /\
    final_result p ≡ₚ slice k1 k2 equilibria /\
    printed p = numbered img (final_result p) ++ [total_line p] /\
    exists out, c_out (cl p) = out ++ frame HEADER_TERMINATE ++ frame (end_request ctx_id).
Proof.
  apply (client_prints_ok root_turn root_ready (accepted su ctx_id interface) equilibria root_serves ctx_id client_accepted
    Hheaders Hreq) with (n := n); try done.
  - intros ms Hd Hin. apply pack_sendable; [done|by apply Hfit].
  - apply equilibria_wf.
Qed.

(** C29.  The client program can ask for ever.  The server of the root context,
    under the conditions of the previous theorem, has seven models, of which
    the first six look the same to the client and the seventh does not.  The
    program, looping, asks for the first three.  It has found the two models
    after two rounds, but its count of new equilibria never becomes 0 again:
    whatever number of rounds it is given, up to 2^60 and as long as the query
    counter of the server has room, it goes on asking for ranges behind the
    last model and does not end. *)
Theorem client_program_asks_for_ever sv A B f :
  equilibria = replicate 6 A ++ [B] -> A <> B -> root_ready (8 + f) sv -> N.of_nat f < 2 ^ 60 ->
  main query_plan bs_size root_turn f sv ctx_id 1 3 true = Err OutOfFuel.
Proof.
  apply (client_asks_on root_turn root_ready (accepted su ctx_id interface) equilibria root_serves ctx_id client_accepted
    Hheaders Hreq) with (n := n) (img := img); try done.
  - intros ms Hd Hin. apply pack_sendable; [done|by apply Hfit].
  - apply equilibria_wf.
Qed.

End root.

(** ** Samples

    Two contexts of two beliefs.  Context 0, which the client asks, has the dlv
    of the samples of DlvContext; its neighbor, context 1, has the given
    models. *)

Definition root_setup (interface : NewBeliefState) : setup := mk_setup (layout 2 2) [sample_rule2] [(INVOKER_ID, interface)] None [].

Definition sample_server : server jstate :=
  mk_server (mk_node (mk_ctx [] Evaluator.eval_new []) (start_state 1) 0) (ReturnedBeliefs.mk_heap ∅ ∅).

#[local] Abbreviation table := DlvResults.sample_table.
#[local] Abbreviation sample_equilibria ms interface :=
  (equilibria (Q := qi_functions) DlvResults.one_answer 2 2 "" 0 table (root_setup interface) 1 (nbs 1) [ms] (exact_reply [ms]) interface).
#[local] Abbreviation sample_turn ms interface :=
  (root_turn (Q := qi_functions) DlvResults.one_answer 2 2 "" 0 table (root_setup interface) 1 3 (nbs 1) (in_turn [ms]) 40 10).
#[local] Abbreviation no_plan := (@None (gmap N (QueryPlans.ContextQueryPlan (list Belief)))).
#[local] Existing Instances comma_boost comma_boost_laws plain_bits plain_bits_laws.

Definition state (status value : N) : NewBeliefState := mk_bs (mk_bvector 6 status) (mk_bvector 6 value).

(** Two models, both visible. *)
Definition two : list NewBeliefState := [state 56 24; state 56 40].

(** Six models that agree on the last belief of context 1, and one that does
    not; the client sees only that belief. *)
Definition seven : list NewBeliefState :=
  [state 32 0; state 40 8; state 48 0; state 48 16; state 56 8; state 56 24; state 56 40].
Definition last_belief : NewBeliefState := state 32 32.

Definition picture (m : NewBeliefState) : text := match bs_print m with Ok t => t | Err _ => [] end.

Lemma pictures ms : Forall (bs_wf 6) ms -> forall m, m ∈ ms -> show no_plan 0 m = Ok (picture m).
Proof. intros H m Hm. cbn [show]. unfold picture. eapply Forall_forall in H; [|exact Hm]. by rewrite (bs_print_ok 6 m H). Qed.

Lemma states_wf (l : list (N * N)) : Forall (fun x => x.1 < 64 /\ N.land x.2 x.1 = x.2) l -> Forall (bs_wf (2 * (2 + 1))) ((fun x => state x.1 x.2) <$> l).
Proof. intros H. apply Forall_fmap. eapply Forall_impl; [exact H|]. intros x [H1 H2]. by apply Combination.small_wf. Qed.

Lemma headers_sendable : Forall sendable [HEADER_REQ_DMCS; HEADER_ANS; HEADER_NEXT; HEADER_TERMINATE].
Proof. do 4 (apply Forall_cons_2; [by vm_compute|]). apply Forall_nil_2. Qed.

Lemma request_sendable k1 k2 : k1 < W64 -> k2 < W64 -> sendable (first_request 0 k1 k2).
Proof.
  intros H1 H2. split; [done|]. unfold saved. cbn [save fwd_archive oarchive comma_boost]. unfold first_request, fwd_new, fwd_save.
  cbn [fm_qid fm_k1 fm_k2 history]. change (elements ({[INVOKER_ID]} : gset N)) with [INVOKER_ID].
  cbn -[encode bits_of]. repeat (rewrite length_app; cbn [length]).
  pose proof (length_number (QueryID.query_id3 INVOKER_ID 0 1) eq_refl). pose proof (length_number INVOKER_ID eq_refl).
  pose proof (length_number k1 H1). pose proof (length_number k2 H2).
  assert (length (bits_of (encode (inl (1%nat, 2%nat) : Archives.item))) < 20)%nat by (vm_compute; lia).
  assert (length (bits_of (encode (inl (4%nat, 3%nat) : Archives.item))) < 20)%nat by (vm_compute; lia). unfold Archives.item in *. lia.
Qed.

(** Answers with at most two models. *)
Lemma pairs (l ms : list NewBeliefState) A B : (forall m, m ∈ l -> m = A \/ m = B) -> NoDup ms -> (forall m, m ∈ ms -> m ∈ l) ->
  ms ∈ [[]; [A]; [B]; [A; B]; [B; A]].
Proof.
  intros Hl Hd Hm. assert (Hab : forall m, m ∈ ms -> m = A \/ m = B) by auto. clear Hm.
  assert (Hlen : (length ms <= length [A; B])%nat).
  { apply submseteq_length, NoDup_submseteq; [done|]. intros m [->| ->]%Hab; [by left|by right; left]. }
  destruct ms as [|x [|y [|z ms]]]; [by left| | |cbn in Hlen; lia].
  - destruct (Hab x) as [->| ->]; [by left| |]; rewrite !elem_of_cons; tauto.
  - apply NoDup_cons in Hd as [Hx _].
    destruct (Hab x) as [->| ->], (Hab y) as [->| ->]; try (by left); try (by right; left); rewrite ?elem_of_cons in *; tauto.
Qed.

Lemma small_answers qid A B (l : list NewBeliefState) : (forall m, m ∈ l -> m = A \/ m = B) ->
  forallb (fun ms => N.of_nat (length (saved (records qid ms ++ [(None, qid)]))) <? 2 ^ 32) [[]; [A]; [B]; [A; B]; [B; A]] = true ->
  forall ms, NoDup ms -> (forall m, m ∈ ms -> m ∈ l) -> fits qid ms.
Proof.
  intros Hl Hf ms Hd Hm. pose proof (pairs l ms A B Hl Hd Hm) as Hin%list_elem_of_In.
  by apply (proj1 (forallb_forall _ _) Hf), N.ltb_lt in Hin.
Qed.

Lemma root_heads interface : own_heads 0 table (root_setup interface).
Proof. apply Forall_singleton. split; [by vm_compute|]. split; [by vm_compute|]. eexists. vm_compute. reflexivity. Qed.

Lemma no_ids : forall id x, (∅ : gmap N N) !! id = Some x -> QueryID.joiner_offset_from_qid id <> 3.
Proof. intros id x H. by rewrite lookup_empty in H. Qed.

Lemma sample_ready (ms : list NewBeliefState) k : N.of_nat k * (N.of_nat (length (joined_stream 2 2 1 (nbs 1) [ms] (exact_reply [ms]))) + 1) < 2 ^ 24 ->
  root_ready 2 2 1 (nbs 1) [ms] (exact_reply [ms]) ∅ k sample_server.
Proof. intros Hk. split; [split; [done|done|by repeat split]|]. by split. Qed.

Lemma two_equilibria : sample_equilibria two everything = [state 62 26; state 62 42].
Proof. vm_compute. reflexivity. Qed.

Lemma two_fit : forall ms, NoDup ms -> (forall m, m ∈ ms -> m ∈ sample_equilibria two everything) -> fits (QueryID.query_id3 INVOKER_ID 0 1) ms.
Proof.
  rewrite two_equilibria. apply (small_answers _ (state 62 26) (state 62 42)); [|vm_compute; reflexivity].
  intros m. rewrite !elem_of_cons. intros [?|[?|?%not_elem_of_nil]]; [by left|by right|done].
Qed.

Lemma seven_equilibria : sample_equilibria seven last_belief = replicate 6 (state 32 0) ++ [state 32 32].
Proof. vm_compute. reflexivity. Qed.

Lemma seven_fit : forall ms, NoDup ms -> (forall m, m ∈ ms -> m ∈ sample_equilibria seven last_belief) -> fits (QueryID.query_id3 INVOKER_ID 0 1) ms.
Proof.
  rewrite seven_equilibria. apply (small_answers _ (state 32 0) (state 32 32)); [|vm_compute; reflexivity].
  intros m. rewrite elem_of_app, elem_of_replicate, list_elem_of_singleton. tauto.
Qed.

Lemma two_wf : Forall (bs_wf (2 * (2 + 1))) two.
Proof. apply (states_wf [(56, 24); (56, 40)]). by repeat (apply Forall_cons; split). Qed.

Lemma seven_wf : Forall (bs_wf (2 * (2 + 1))) seven.
Proof. apply (states_wf [(32, 0); (40, 8); (48, 0); (48, 16); (56, 8); (56, 24); (56, 40)]). by repeat (apply Forall_cons; split). Qed.

Lemma small_states_wf l : forallb (fun m => (bits (status_bit m) <? 64) && (N.land (bits (value_bit m)) (bits (status_bit m)) =? bits (value_bit m)) &&
    bool_decide (m = state (bits (status_bit m)) (bits (value_bit m)))) l = true -> Forall (bs_wf 6) l.
Proof.
  intros H. apply Forall_forall. intros m Hm%list_elem_of_In. apply (proj1 (forallb_forall _ _) H) in Hm.
  rewrite !andb_true_iff, N.ltb_lt, N.eqb_eq, bool_decide_eq_true in Hm. destruct Hm as [[H1 H2] ->]. by apply Combination.small_wf.
Qed.

Lemma two_pictures m : m ∈ sample_equilibria two everything -> show no_plan 0 m = Ok (picture m).
Proof. rewrite two_equilibria. apply pictures, small_states_wf. vm_compute. reflexivity. Qed.

Lemma seven_pictures m : m ∈ sample_equilibria seven last_belief -> show no_plan 0 m = Ok (picture m).
Proof. rewrite seven_equilibria. apply pictures, small_states_wf. vm_compute. reflexivity. Qed.

(** What the samples have in common. *)
Ltac sample_world :=
  match goal with
  | |- Forall (rule_wf _ _) _ => exact sample_rule2_wf
  | |- own_heads _ _ _ => apply root_heads
  | |- one_answer_set _ _ _ => exact sample_one_answer
  | |- Network _ _ _ _ => apply in_turn_network
  | |- neighbors_wf _ _ => apply nbs_wf; [lia|done]
  | |- BoostLaws => exact comma_boost_laws
  | |- BvSerializerLaws => exact plain_bits_laws
  | |- Forall _ [_] => apply Forall_singleton; first [exact two_wf | exact seven_wf | done]
  | |- bs_wf _ _ => apply Combination.small_wf; done
  | |- (_ <= _)%nat => vm_compute; lia
  | |- _ <= _ => vm_compute; discriminate
  | |- Forall sendable _ => first [exact headers_sendable | repeat (apply Forall_cons_2; [by vm_compute|]); apply Forall_nil_2]
  | |- forall k1 k2, k1 < _ -> _ => exact request_sendable
  | |- forall ms, NoDup ms -> _ => first [exact two_fit | exact seven_fit]
  | |- forall m, m ∈ _ -> show _ _ _ = _ => first [exact two_pictures | exact seven_pictures]
  | |- forall id x, _ !! id = Some x -> _ => exact no_ids
  | |- root_ready _ _ _ _ _ _ _ _ _ => apply sample_ready; vm_compute; reflexivity
  | |- sample_equilibria _ _ = _ => exact seven_equilibria
  | |- _ => done
  end.

(** Asked for the second to the fifth of two models. *)
Lemma client_collects_witness :
  exists c0 sv' c' ms, client_new HEADER_REQ_DMCS (first_request 0 2 5) true = Ok c0 /\
    converse (sample_turn two everything) 4 sample_server c0 = Ok (sv', c') /\ cl_phase c' = CDone /\
    concat (callbacks c') = records (QueryID.query_id3 INVOKER_ID 0 1) ms /\ collected (sample_equilibria two everything) 2 5 ms.
Proof.
  apply (client_collects DlvResults.one_answer (Q := qi_functions) 2 2 "" 0 table (root_setup everything)) with
    (models := [two]) (reply := exact_reply [two]) (jd0 := ∅) (interface := everything); sample_world.
Defined.

Lemma client_prints_each_equilibrium_once_witness : exists p,
  main no_plan 0 (sample_turn two everything) 3 sample_server 0 1 2 true = Ok (Some p) /\
  final_result p ≡ₚ slice 1 2 (sample_equilibria two everything) /\
  printed p = numbered picture (final_result p) ++ [total_line p] /\
  exists out, c_out (cl p) = out ++ frame HEADER_TERMINATE ++ frame (end_request 0).
Proof.
  apply (client_prints_each_equilibrium_once DlvResults.one_answer (Q := qi_functions) 2 2 "" 0 table (root_setup everything)) with
    (models := [two]) (reply := exact_reply [two]) (jd0 := ∅); try sample_world.
  - by left.
  - rewrite two_equilibria. apply (bool_decide_unpack _). by vm_compute.
  - right. done.
Defined.

Lemma client_program_asks_for_ever_witness : 
  main no_plan 0 (sample_turn seven last_belief) 1000 sample_server 0 1 3 true = Err OutOfFuel.
Proof.
  apply (client_program_asks_for_ever DlvResults.one_answer (Q := qi_functions) 2 2 "" 0 table (root_setup last_belief)) with
    (models := [seven]) (reply := exact_reply [seven]) (jd0 := ∅) (img := picture) (A := state 32 0) (B := state 32 32) (interface := last_belief); try sample_world.
  by left.
Defined.

(** Without looping there is one round, and the end message is never
    written; here to a server whose dlv finds nothing. *)
Lemma single_round_writes_no_end :
  match main no_plan 0 (root_turn (Q := qi_functions) (fun _ => [""%string]) 2 2 "" 0 table (root_setup everything) 1 3 (nbs 1)
      (in_turn [two]) 40 10) 1 sample_server 0 1 2 false with
  | Ok (Some p) => final_result p = [] /\ c_out (cl p) = frame HEADER_REQ_DMCS ++ frame (first_request 0 1 2)
  | _ => False
  end.
Proof. vm_compute. by split. Qed.

End Equilibria.
