(* ===== verification/CommandLines.v ===== *)
(** * The command lines the generator writes

    [add_cmdline_options], [print_dmcsd_line], [print_command_lines_file],
    [update_filename] and [print_command_lines] of
    src/generator/new_staticGen.cpp: the commands that start the manager, the
    servers and the client of a generated system, and the options a server
    (src/new_dmcsd.cpp) reads from its command.

    The shell and boost::program_options are the parameters [Shell] and
    [ProgramOptions]. *)

From S2P Require Import Prelude BitMagic BeliefState BeliefStateOffset Ident Tables Spirit Parsing.
From S2P Require Import ReturnPlans Topologies OptTopologies GenContexts PlanFiles ServerSetup.
Import Tables Spirit Parsing.

Module CommandLines.

Definition DMCSD : text := str "new_dmcsd".
Definition DMCSC : text := str "new_dmcsc".
Definition DMCSM : text := str "new_dmcsm".
Definition TESTDIR : text := str ".".
Definition MANAGER_PORT : N := 4999.

Definition line (t : text) : text := t ++ [nl].

(** ** The options of the servers *)

(** A [std::map<std::string, std::string>] in the order of its keys;
    insertion keeps a value that is there. *)
Abbreviation OptionValueMap := (list (string * text)).

Fixpoint insert_option (m : OptionValueMap) (k : string) (v : text) : OptionValueMap :=
  match m with
  | [] => [(k, v)]
  | (k', v') :: m' =>
      match String.compare k k' with
      | Lt => (k, v) :: m
      | Eq => m
      | Gt => (k', v') :: insert_option m' k v
      end
  end.

(** [it->second = v] for [it = m.find(k)]. *)
Definition update_option (m : OptionValueMap) (k : string) (v : text) : res OptionValueMap :=
  _ ← assert (existsb (fun e => bool_decide (e.1 = k)) m);
  mret ((fun e => if bool_decide (e.1 = k) then (k, v) else e) <$> m).

Definition add_cmdline_options (opts : Topologies.options) : OptionValueMap :=
  let p := str (Topologies.prefix opts) in
  foldl (fun m e => insert_option m e.1 e.2) []
    [("manager"%string, str "localhost:" ++ dec MANAGER_PORT); ("context"%string, []); ("port"%string, []); ("packsize"%string, []);
     ("system-size"%string, dec (Topologies.no_contexts opts)); ("belief-state-size"%string, dec (Topologies.no_atoms opts));
     ("kb"%string, p ++ str ".lp"); ("br"%string, p ++ str ".br"); ("queryplan"%string, p ++ str ".qp"); ("returnplan"%string, p ++ str ".rp")].

(** The text before the first dot, and the dot with what follows. *)
Fixpoint split_dot (t : text) : option (text * text) :=
  match t with
  | [] => None
  | c :: t' => if is_char "." c then Some ([], t) else (fun r => (c :: r.1, r.2)) <$> split_dot t'
  end.

(** The value an option gets in the command of context [i]: a number where
    none is set, and the context's number before the first dot of a file
    name. *)
Definition final_value (i ps : N) (testpath : text) (e : string * text) : text :=
  match e.2 with
  | [] =>
      if bool_decide (e.1 = "context"%string) then dec i
      else if bool_decide (e.1 = "packsize"%string) then dec ps
      else dec (u64_add PlanFiles.BASE_PORT i)
  | _ =>
      match split_dot e.2 with
      | Some (before, rest) => testpath ++ str "/" ++ before ++ str "-" ++ dec i ++ rest
      | None => e.2
      end
  end.

Definition option_word (i ps : N) (testpath : text) (e : string * text) : text :=
  str "--" ++ str e.1 ++ str "=" ++ final_value i ps testpath e.

Definition print_dmcsd_line (cmdline_options : OptionValueMap) (is_shellscript : bool) (i ps : N) (testpath path : text)
    (want_log : bool) : res text :=
  let command := path ++ str "/" ++ DMCSD ++ str " " ++
    concat ((fun e => option_word i ps testpath e ++ str " ") <$> cmdline_options) in
  redirect ← (if is_shellscript then
      if want_log then
        it ← (match List.find (fun e => bool_decide (e.1 = "kb"%string)) cmdline_options with
              | Some it => mret it
              | None => Err AssertFailed
              end);
        '(before, _) ← (match split_dot it.2 with Some r => mret r | None => Err AssertFailed end);
        mret (str " >" ++ before ++ str "-" ++ dec i ++ str ".log" ++ str " 2>&1 &")
      else mret (str " >/dev/null 2>&1 &")
    else mret []);
  mret (line (command ++ redirect) ++ (if is_shellscript then line (str "sleep 2") else [])).

(** ** The files *)

Section files.
Context (opts : Topologies.options) (timeout pack_size : N).

Abbreviation prefix := (str (Topologies.prefix opts)).

Definition print_command_lines_file (cmdline_options : OptionValueMap) (is_shellscript : bool) (testpath path : text) (k1 k2 : N)
    (loop want_log : bool) : res text :=
  let preamble :=
    if is_shellscript then
      line (str "#!/bin/bash") ++ line (str "export TIMEFORMAT=$'\nreal\t%3R\nuser\t%3U\nsys\t%3S'") ++
      line (str "export TIMEOUT=" ++ dec timeout) ++ line (str "export TESTPATH='" ++ testpath ++ str "'") ++
      line (str "export DMCSPATH='" ++ path ++ str "'") ++ line (str "killall " ++ DMCSD) ++ line (str "killall " ++ DMCSM) ++
      line (str "sleep 5")
    else [] in
  let testpath := if is_shellscript then str "$TESTPATH" else testpath in
  let path := if is_shellscript then str "$DMCSPATH" else path in
  let manager := line (path ++ str "/" ++ DMCSM ++ str " --port=" ++ dec MANAGER_PORT ++ str " --system-size=" ++
    dec (Topologies.no_contexts opts) ++ str " &") ++ (if is_shellscript then line (str "sleep 5") else []) in
  servers ← foldM (fun t i => l ← print_dmcsd_line cmdline_options is_shellscript i k2 testpath path want_log; mret (t ++ l))
    [] (nrange 0 (Topologies.no_contexts opts));
  let client :=
    (if is_shellscript then line (str "sleep " ++ dec (Topologies.startup_time opts)) else []) ++
    str "/usr/bin/time --verbose -o " ++ prefix ++ str "-time.log " ++
    (if is_shellscript then str "/usr/bin/timeout -k 20 $TIMEOUT " else []) ++
    path ++ str "/" ++ DMCSC ++ str " --hostname=localhost --port=" ++ dec PlanFiles.BASE_PORT ++ str " --root=0 --signature=" ++ testpath ++
    str "/client.qp --belief-state-size=" ++ dec (Topologies.no_atoms opts) ++ str " --k1=" ++ dec k1 ++ str " --k2=" ++ dec k2 ++ str " " ++
    (if loop then str "--loop=1 " else str "--loop=0 ") ++
    line (str "> " ++ prefix ++ str ".log 2> " ++ prefix ++ str "-err.log") in
  mret (preamble ++ manager ++ servers ++ client).

Definition update_filename (filename update_part : text) : res text :=
  match split_dot filename with
  | Some (before, rest) => mret (before ++ update_part ++ rest)
  | None => Err AssertFailed
  end.

(** One of the files: its name and its text. *)
Definition command_file (m : OptionValueMap) (k1 k2 : N) (f : text * bool * bool * bool) : res (text * text) :=
  let '(name, is_shellscript, loop, want_log) := f in
  t ← print_command_lines_file m is_shellscript TESTDIR (str (Topologies.dmcspath opts)) k1 k2 loop want_log;
  mret (name, t).

Definition print_command_lines_range (m : OptionValueMap) (filename_text filename_shell filename_log_shell : text) (k1 k2 : N)
    : res (list (text * text)) :=
  l ← mapM (command_file m k1 k2)
    [(filename_text, false, true, false); (filename_shell, true, true, false); (filename_log_shell, true, true, true)];
  if 0 <? k2 then
    unique_text ← update_filename filename_text (str "-noloop");
    unique_shell ← update_filename filename_shell (str "-noloop");
    unique_log ← update_filename filename_log_shell (str "-noloop");
    l' ← mapM (command_file m k1 k2)
      [(unique_text, false, false, false); (unique_shell, true, false, false); (unique_log, true, false, true)];
    mret (l ++ l')
  else mret l.

(** The files for all models and for the first [pack_size]. *)
Definition print_command_lines_kind (m : OptionValueMap) (kind : string) : res (list (text * text)) :=
  let name (middle ext : text) := prefix ++ str kind ++ middle ++ ext in
  let files (middle : text) (k1 k2 : N) :=
    print_command_lines_range m (name middle (str ".txt")) (name middle (str ".sh")) (name middle (str "-log.sh")) k1 k2 in
  l ← files (str "all") 0 0;
  l' ← (if 0 <? pack_size then files (dec pack_size) 1 pack_size else mret []);
  mret (l ++ l').

(** The optimised plans are asked for whatever the topology. *)
Definition optimised (m : OptionValueMap) : res OptionValueMap :=
  m ← update_option m "returnplan" (prefix ++ str ".orp");
  mret (insert_option m "optqueryplan" (prefix ++ str ".oqp")).

Definition print_command_lines : res (list (text * text)) :=
  let m := add_cmdline_options opts in
  l ← print_command_lines_kind m "-command-line-";
  m ← optimised m;
  l' ← print_command_lines_kind m "-command-line-opt-";
  mret (l ++ l').

End files.

(** ** Reading a command *)

(** Characters without a meaning to the shell. *)
Definition plain (c : ascii) : bool := is_alnum c || existsb (fun d => is_char d c) (str "-_=/.:").

(** The shell splits a command at blanks. *)
Class Shell := { words_of : text -> list text }.

Class ShellLaws `{S : Shell} : Prop := {
  words_plain ws : Forall (fun w => w <> [] /\ Forall (fun c => plain c = true) w) ws ->
    words_of (concat ((fun w => w ++ str " ") <$> ws)) = ws;
}.

(** boost::program_options: the name and the value of a word, and the number a
    text stands for. *)
Class ProgramOptions := { option_of : text -> option (text * text); number_of : text -> option N }.

Class ProgramOptionsLaws `{P : ProgramOptions} : Prop := {
  option_long name value : Forall (fun c => is_char "=" c = false) name ->
    option_of (str "--" ++ name ++ str "=" ++ value) = Some (name, value);
  number_dec n : n < W64 -> number_of (dec n) = Some n;
}.

Section reading.
Context `{P : ProgramOptions}.

#[local] Abbreviation options := ServerSetup.options.

Definition number (t : text) : res N :=
  match number_of t with Some n => mret n | None => Err (Thrown "invalid_option_value") end.

(** The options of a server, given with their full names. *)
Definition assign_option (o : options) (name v : text) : res options :=
  let '(ServerSetup.mk_options help myid myport size bs_size manager kb br qp oqp rp) := o in
  if bool_decide (name = str "context") then
    n ← number v; mret (ServerSetup.mk_options help n myport size bs_size manager kb br qp oqp rp)
  else if bool_decide (name = str "port") then
    n ← number v;
    if n <? 2 ^ 31 then mret (ServerSetup.mk_options help myid (Z.of_N n) size bs_size manager kb br qp oqp rp)
    else Err (Thrown "invalid_option_value")
  else if bool_decide (name = str "manager") then mret (ServerSetup.mk_options help myid myport size bs_size v kb br qp oqp rp)
  else if bool_decide (name = str "system-size") then
    n ← number v; mret (ServerSetup.mk_options help myid myport n bs_size manager kb br qp oqp rp)
  else if bool_decide (name = str "belief-state-size") then
    n ← number v; mret (ServerSetup.mk_options help myid myport size n manager kb br qp oqp rp)
  else if bool_decide (name = str "queue-size") || bool_decide (name = str "packsize") then n ← number v; mret o
  else if bool_decide (name = str "kb") then mret (ServerSetup.mk_options help myid myport size bs_size manager v br qp oqp rp)
  else if bool_decide (name = str "br") then mret (ServerSetup.mk_options help myid myport size bs_size manager kb v qp oqp rp)
  else if bool_decide (name = str "queryplan") then mret (ServerSetup.mk_options help myid myport size bs_size manager kb br v oqp rp)
  else if bool_decide (name = str "optqueryplan") then mret (ServerSetup.mk_options help myid myport size bs_size manager kb br qp v rp)
  else if bool_decide (name = str "returnplan") then mret (ServerSetup.mk_options help myid myport size bs_size manager kb br qp oqp v)
  else Err (Thrown "unknown_option").

Definition server_option (o : options) (w : text) : res options :=
  match option_of w with
  | Some (name, v) => assign_option o name v
  | None =>
      if bool_decide (w = str "--help") then
        let '(ServerSetup.mk_options _ myid myport size bs_size manager kb br qp oqp rp) := o in
        mret (ServerSetup.mk_options true myid myport size bs_size manager kb br qp oqp rp)
      else Err (Thrown "unknown_option")
  end.

Definition no_options : options := ServerSetup.mk_options false 0 0 0 0 [] [] [] [] [] [].

(** The first word is the program. *)
Definition read_options (argv : list text) : res options := foldM server_option no_options (tail argv).

End reading.

(** ** The commands name the generated files *)

Lemma split_dot_first before rest : Forall (fun c => is_char "." c = false) before ->
  split_dot (before ++ "."%char :: rest) = Some (before, "."%char :: rest).
Proof. induction 1 as [|c b Hc _ IH]; [done|]. cbn. by rewrite Hc, IH. Qed.

Lemma split_dot_none t : Forall (fun c => is_char "." c = false) t -> split_dot t = None.
Proof. induction 1 as [|c t Hc _ IH]; [done|]. cbn. by rewrite Hc, IH. Qed.

Lemma dec_no_dot n : n < W64 -> Forall (fun c => is_char "." c = false) (dec n).
Proof.
  intros H. destruct (dec_ok n H) as (_ & Hd & _). eapply Forall_impl; [exact Hd|]. intros c Hc. cbn in Hc.
  destruct (is_char "." c) eqn:E; [|done]. by apply Ascii.eqb_eq in E as ->.
Qed.

Lemma dec_plain n : n < W64 -> Forall (fun c => plain c = true) (dec n).
Proof.
  intros H. destruct (dec_ok n H) as (_ & Hd & _). eapply Forall_impl; [exact Hd|]. intros c Hc. cbn in Hc.
  unfold plain, is_alnum. by rewrite Hc, ?orb_true_r.
Qed.

Section commands.
Context `{S : Shell} `{!ShellLaws} `{P : ProgramOptions} `{!ProgramOptionsLaws}.
Context (opts : Topologies.options) (path : text) (ps : N).
Abbreviation prefix := (str (Topologies.prefix opts)).

(** The prefix and the path are plain words, and the prefix has no dot. *)
Context (Hprefix : Forall (fun c => plain c = true) prefix) (Hdot : Forall (fun c => is_char "." c = false) prefix).
Context (Hpath : Forall (fun c => plain c = true) path).
Context (Hn : 0 < Topologies.no_contexts opts < 2 ^ 30) (Hatoms : 0 < Topologies.no_atoms opts < W64) (Hps : ps < W64).

(** The options with or without the optimised plans. *)
Definition server_options (opt : bool) : res OptionValueMap :=
  if opt then optimised opts (add_cmdline_options opts) else mret (add_cmdline_options opts).

(** A file of context [i] in the directory of the test. *)
Definition here (i : N) (ext : string) : text := TESTDIR ++ str "/" ++ PlanFiles.file_name (Topologies.prefix opts) i ext.

Definition named_values (i : N) (opt : bool) : list (string * text) :=
  [("belief-state-size"%string, dec (Topologies.no_atoms opts)); ("br"%string, here i ".br"); ("context"%string, dec i);
   ("kb"%string, here i ".lp"); ("manager"%string, str "localhost:4999")] ++
  (if opt then [("optqueryplan"%string, here i ".oqp")] else []) ++
  [("packsize"%string, dec ps); ("port"%string, dec (PlanFiles.BASE_PORT + i)); ("queryplan"%string, here i ".qp");
   ("returnplan"%string, here i (if opt then ".orp" else ".rp")); ("system-size"%string, dec (Topologies.no_contexts opts))].

Definition word_of (e : string * text) : text := str "--" ++ str e.1 ++ str "=" ++ e.2.

Lemma final_file i k ext : final_value i ps TESTDIR (k, prefix ++ "."%char :: ext) = TESTDIR ++ str "/" ++ prefix ++ str "-" ++ dec i ++ "."%char :: ext.
Proof.
  unfold final_value. cbn [fst snd]. rewrite split_dot_first by done.
  by destruct prefix.
Qed.

Lemma final_number i k n : n < W64 -> final_value i ps TESTDIR (k, dec n) = dec n.
Proof.
  intros Hlt. unfold final_value. cbn [fst snd]. rewrite split_dot_none by (by apply dec_no_dot).
  pose proof (dec_ok n Hlt) as (Hne & _). by destruct (dec n).
Qed.

Definition raw_values (opt : bool) : OptionValueMap :=
  [("belief-state-size"%string, dec (Topologies.no_atoms opts)); ("br"%string, prefix ++ str ".br"); ("context"%string, []);
   ("kb"%string, prefix ++ str ".lp"); ("manager"%string, str "localhost:4999")] ++
  (if opt then [("optqueryplan"%string, prefix ++ str ".oqp")] else []) ++
  [("packsize"%string, []); ("port"%string, []); ("queryplan"%string, prefix ++ str ".qp");
   ("returnplan"%string, prefix ++ str (if opt then ".orp" else ".rp")); ("system-size"%string, dec (Topologies.no_contexts opts))].

Lemma server_options_raw opt : server_options opt = Ok (raw_values opt).
Proof. by destruct opt. Qed.

Lemma option_words i opt : i < Topologies.no_contexts opts ->
  (fun e => option_word i ps TESTDIR e) <$> raw_values opt = word_of <$> named_values i opt.
Proof.
  intros Hi. assert (Hport : u64_add PlanFiles.BASE_PORT i = PlanFiles.BASE_PORT + i) by (apply u64_add_small; unfold PlanFiles.BASE_PORT; lia).
  assert (Hf : forall k ext, option_word i ps TESTDIR (k, prefix ++ "."%char :: ext) =
    word_of (k, TESTDIR ++ str "/" ++ prefix ++ str "-" ++ dec i ++ "."%char :: ext)) by (intros; unfold option_word; by rewrite final_file).
  assert (Hd : forall k n, n < W64 -> option_word i ps TESTDIR (k, dec n) = word_of (k, dec n)) by (intros; unfold option_word; by rewrite final_number).
  assert (Hp : option_word i ps TESTDIR ("port"%string, []) = word_of ("port"%string, dec (PlanFiles.BASE_PORT + i))).
  { unfold option_word, final_value. cbn [fst snd]. rewrite !bool_decide_false by done. by rewrite Hport. }
  unfold raw_values, named_values. rewrite !fmap_app. cbn [fmap list_fmap]. rewrite !Hd, Hp by lia.
  f_equal; [do 5 f_equal; [apply (Hf "br"%string)|f_equal; apply (Hf "kb"%string)]|]. f_equal.
  - destruct opt; [|done]. cbn. f_equal. apply (Hf "optqueryplan"%string).
  - do 2 f_equal. f_equal; [apply (Hf "queryplan"%string)|]. f_equal. destruct opt; apply (Hf "returnplan"%string).
Qed.

(** What the server is told. *)
Definition configured (i : N) (opt : bool) : ServerSetup.options :=
  ServerSetup.mk_options false i (Z.of_N (PlanFiles.BASE_PORT + i)) (Topologies.no_contexts opts) (Topologies.no_atoms opts)
    (str "localhost:4999") (here i ".lp") (here i ".br") (here i ".qp") (if opt then here i ".oqp" else [])
    (here i (if opt then ".orp" else ".rp")).

Lemma number_read n : n < W64 -> number (dec n) = Ok n.
Proof. intros Hlt. unfold number. by rewrite number_dec. Qed.

Lemma read_words l o : forallb (fun e => forallb (fun c => negb (is_char "=" c)) (str e.1)) l = true ->
  foldM server_option o (word_of <$> l) = foldM (fun o e => assign_option o (str e.1) e.2) o l.
Proof.
  revert o. induction l as [|[k v] l IH]; intros o Hl; [done|]. cbn [forallb fst] in Hl. apply andb_prop in Hl as [Hk Hl].
  cbn [fmap list_fmap foldM fst snd]. assert (server_option o (word_of (k, v)) = assign_option o (str k) v) as ->.
  { unfold server_option, word_of. cbn [fst snd]. rewrite option_long; [done|]. apply Forall_forall. intros c Hc.
    rewrite forallb_forall in Hk. apply negb_true_iff, Hk. by apply list_elem_of_In. }
  destruct (assign_option o (str k) v); [|done]. by apply IH.
Qed.

Lemma read_named i opt : i < Topologies.no_contexts opts ->
  foldM server_option no_options (word_of <$> named_values i opt) = Ok (configured i opt).
Proof.
  intros Hi. rewrite read_words by (by destruct opt).
  assert (Hport : PlanFiles.BASE_PORT + i < 2 ^ 31) by (unfold PlanFiles.BASE_PORT; lia).
  assert (Hnum : forall n, n < W64 -> number_of (dec n) = Some n) by apply number_dec.
  unfold named_values, no_options. destruct opt; cbn [app foldM fst snd]; unfold assign_option, number.
  all: repeat (rewrite ?bool_decide_false by done; rewrite ?bool_decide_true by done; cbn [orb]; rewrite ?Hnum by lia; rewrite ?(proj2 (N.ltb_lt _ _) Hport); rsimpl).
  all: done.
Qed.

Lemma words_are_plain i opt : i < Topologies.no_contexts opts ->
  Forall (fun w => w <> [] /\ Forall (fun c => plain c = true) w) ((path ++ str "/" ++ DMCSD) :: (word_of <$> named_values i opt)).
Proof.
  intros Hi. assert (Hd : forall n, n < W64 -> Forall (fun c => plain c = true) (dec n)) by apply dec_plain.
  assert (Hs : forall t : string, forallb plain (str t) = true -> Forall (fun c => plain c = true) (str t)).
  { intros t Ht. apply Forall_forall. intros c Hc. rewrite forallb_forall in Ht. apply Ht. by apply list_elem_of_In. }
  assert (Hh : forall ext, forallb plain (str ext) = true -> Forall (fun c => plain c = true) (here i ext)).
  { intros ext He. unfold here, PlanFiles.file_name, TESTDIR. rewrite !Forall_app. split_and!; try (by apply Hs); [done|apply Hd; lia]. }
  assert (Hw : forall k v, forallb plain (str k) = true -> Forall (fun c => plain c = true) v ->
    word_of (k, v) <> [] /\ Forall (fun c => plain c = true) (word_of (k, v))).
  { intros k v Hk Hv. split; [done|]. unfold word_of. cbn [fst snd]. rewrite !Forall_app. split_and!; [by apply Hs|by apply Hs|by apply Hs|done]. }
  assert (PlanFiles.BASE_PORT + i < W64) by (unfold PlanFiles.BASE_PORT; lia).
  apply Forall_cons. split.
  { split; [by destruct path|]. rewrite !Forall_app. split_and!; [done|by apply Hs|by apply Hs]. }
  destruct opt; unfold named_values; cbn [app fmap list_fmap];
    repeat (apply Forall_cons; split; [apply Hw; [done|first [by apply Hh|apply Hd; lia|by apply Hs]]|]); by apply Forall_nil.
Qed.

(** The files of the optimised plans are written only when there are
    optimised interfaces; the commands that name them are printed always. *)
Lemma plan_files_written {T} `{I : Indexed Belief belief_conflict (≡ₚ) T} `{K : PlanFiles.Tokenizer} o (sigma_vec : list (BeliefTable T)) g lcim i files :
  PlanFiles.context_plans o opts sigma_vec g lcim i = Ok files ->
  files.*1 = match lcim with
    | Some _ => (fun ext => PlanFiles.file_name (Topologies.prefix opts) i ext) <$> [".qp"; ".oqp"; ".rp"; ".orp"]%string
    | None => (fun ext => PlanFiles.file_name (Topologies.prefix opts) i ext) <$> [".qp"; ".rp"]%string
    end.
Proof.
  unfold PlanFiles.context_plans. intros Hf. apply bind_ok in Hf as (qp & _ & Hf). apply bind_ok in Hf as (oqp & Ho & Hf).
  apply bind_ok in Hf as (rp & _ & Hf). apply bind_ok in Hf as (orp & Hr & [= <-]). destruct lcim as [m|].
  - apply bind_ok in Ho as (t & _ & [= <-]). apply bind_ok in Hr as (es & _ & Hr). apply bind_ok in Hr as (t' & _ & [= <-]). done.
  - injection Ho as <-. injection Hr as <-. done.
Qed.

(** The plans a command names. *)
Definition named_plans (c : ServerSetup.options) (opt : bool) : list text :=
  [ServerSetup.filename_query_plan c; ServerSetup.filename_return_plan c] ++ (if opt then [ServerSetup.filename_opt_query_plan c] else []).

Lemma plans_named {T} `{I : Indexed Belief belief_conflict (≡ₚ) T} `{K : PlanFiles.Tokenizer} o (sigma_vec : list (BeliefTable T)) g lcim i files opt :
  PlanFiles.context_plans o opts sigma_vec g lcim i = Ok files -> (opt = true -> lcim <> None) ->
  Forall (fun f => f ∈ (fun e => TESTDIR ++ str "/" ++ e.1) <$> files) (named_plans (configured i opt) opt).
Proof.
  intros Hf Ho. apply plan_files_written in Hf.
  replace ((fun e : text * text => TESTDIR ++ str "/" ++ e.1) <$> files) with ((fun f => TESTDIR ++ str "/" ++ f) <$> files.*1)
    by (by rewrite <- list_fmap_compose).
  rewrite Hf. unfold named_plans, configured, here.
  destruct lcim as [m|], opt; [..|by destruct Ho|]; cbn [ServerSetup.filename_query_plan ServerSetup.filename_return_plan
    ServerSetup.filename_opt_query_plan app fmap list_fmap]; repeat (apply Forall_cons; split; [rewrite !elem_of_cons; tauto|]); by apply Forall_nil.
Qed.

(** C17. The command that the generator prints for a context, with or without
    the optimised plans, is read by the server as a complete set of options:
    its context, the port 5000 + context, the sizes of the system and of the
    belief states, the manager at localhost:4999, and the names of the
    context's files in the directory of the test; the query plan and the
    return plan it names are among the files the generator writes for that
    context.  Conditions: prefix and path consist of characters without a
    meaning to the shell, and the prefix has no dot; when optimised plans are
    named, the generator has optimised interfaces to write; there are less
    than 2^30 contexts. *)
Theorem server_command_configures {T} `{I : Indexed Belief belief_conflict (≡ₚ) T} `{K : PlanFiles.Tokenizer} i opt :
  i < Topologies.no_contexts opts ->
  exists command,
    (m ← server_options opt; print_dmcsd_line m false i ps TESTDIR path false) = Ok (line command) /\
    read_options (words_of command) = Ok (configured i opt) /\
    ServerSetup.options_complete (configured i opt) = true /\
    ServerSetup.split_manager (ServerSetup.manager (configured i opt)) = Some (str "localhost", str "4999") /\
    forall o (sigma_vec : list (BeliefTable T)) g lcim files,
      PlanFiles.context_plans o opts sigma_vec g lcim i = Ok files -> (opt = true -> lcim <> None) ->
      Forall (fun f => f ∈ (fun e => TESTDIR ++ str "/" ++ e.1) <$> files) (named_plans (configured i opt) opt).
Proof.
  intros Hi. set (ws := (path ++ str "/" ++ DMCSD) :: (word_of <$> named_values i opt)).
  exists (concat ((fun w => w ++ str " ") <$> ws)). split_and!.
  - rewrite server_options_raw. rsimpl. unfold print_dmcsd_line. rsimpl. rewrite !app_nil_r. unfold ws. cbn [fmap list_fmap concat].
    rewrite <- (option_words i opt Hi). rewrite <- list_fmap_compose. do 2 f_equal. rewrite <- !app_assoc. done.
  - rewrite words_plain by (by apply words_are_plain). by apply read_named.
  - unfold ServerSetup.options_complete, configured. cbn [ServerSetup.myport ServerSetup.system_size ServerSetup.bs_size ServerSetup.filename_local_kb
      ServerSetup.filename_bridge_rules ServerSetup.filename_query_plan ServerSetup.filename_return_plan ServerSetup.manager].
    destruct (Z.eqb_spec (Z.of_N (PlanFiles.BASE_PORT + i)) 0); [unfold PlanFiles.BASE_PORT in *; lia|].
    destruct (N.eqb_spec (Topologies.no_contexts opts) 0); [lia|]. destruct (N.eqb_spec (Topologies.no_atoms opts) 0); [lia|]. by destruct opt.
  - done.
  - intros o sigma_vec g lcim files Hf Ho. by apply (plans_named o sigma_vec g lcim i files opt).
Qed.

End commands.

(** ** A concrete shell *)

#[local] Instance blank_shell : Shell := {| words_of := PlanFiles.split_tokens is_blank [] |}.

Lemma plain_not_blank c : plain c = true -> is_blank c = false.
Proof. destruct c as [[] [] [] [] [] [] [] []]; vm_compute; done. Qed.

Lemma split_word w rest cur : Forall (fun c => plain c = true) w -> cur ++ w <> [] ->
  PlanFiles.split_tokens is_blank cur (w ++ " "%char :: rest) = (cur ++ w) :: PlanFiles.split_tokens is_blank [] rest.
Proof.
  intros Hw. revert cur. induction Hw as [|c w Hc _ IH]; intros cur Hne; cbn.
  - rewrite app_nil_r in *. by destruct cur.
  - rewrite (plain_not_blank _ Hc), IH; rewrite <- app_assoc; [done|]. by destruct cur.
Qed.

#[local] Instance blank_shell_laws : ShellLaws.
Proof.
  split. cbn. intros ws Hws. induction Hws as [|w ws [Hne Hw] _ IH]; [done|]. cbn [fmap list_fmap concat].
  rewrite <- app_assoc. etrans; [by apply (split_word w _ [])|]. cbn [app]. by rewrite IH.
Qed.

Fixpoint split_equals (t : text) : option (text * text) :=
  match t with
  | [] => None
  | c :: t => if is_char "=" c then Some ([], t) else (fun r => (c :: r.1, r.2)) <$> split_equals t
  end.

#[local] Instance long_options : ProgramOptions := {|
  option_of w := match w with
                 | a :: b :: w => if is_char "-" a && is_char "-" b then split_equals w else None
                 | _ => None
                 end;
  number_of t := match t with
                 | [] => None
                 | _ => if forallb is_digit t then Some (Spirit.number t) else None
                 end;
|}.

#[local] Instance long_options_laws : ProgramOptionsLaws.
Proof.
  split.
  - intros name value Hn. cbn. induction Hn as [|c name Hc _ IH]; [done|]. cbn. by rewrite Hc, IH.
  - intros n Hlt. cbn [number_of long_options]. destruct (dec_ok n Hlt) as (Hne & Hd & E). destruct (dec n) as [|c t]; [done|].
    assert (forallb is_digit (c :: t) = true) as ->; [|by rewrite E].
    apply forallb_forall. intros x Hx. by eapply Forall_forall in Hd; [|apply list_elem_of_In].
Qed.

Definition ring_options : Topologies.options := Topologies.mk_options false 3 4 2 2 4 "ring" "." 10 0.

Lemma server_command_configures_witness : exists command,
  (m ← server_options ring_options true; print_dmcsd_line m false 2 5 TESTDIR (str "build/src") false) = Ok (line command) /\
  read_options (words_of command) = Ok (configured ring_options 2 true) /\
  ServerSetup.options_complete (configured ring_options 2 true) = true /\
  ServerSetup.split_manager (ServerSetup.manager (configured ring_options 2 true)) = Some (str "localhost", str "4999") /\
  forall o (sigma_vec : list (BeliefTable (list Belief))) g lcim files,
    PlanFiles.context_plans (K := PlanFiles.split_tokenizer) o ring_options sigma_vec g lcim 2 = Ok files -> (true = true -> lcim <> None) ->
    Forall (fun f => f ∈ (fun e => TESTDIR ++ str "/" ++ e.1) <$> files) (named_plans (configured ring_options 2 true) true).
Proof.
  apply (server_command_configures ring_options (str "build/src") 5); try done;
    by apply (bool_decide_unpack _); vm_compute.
Defined.

(** With a dot in the prefix the number is put before that dot, and the
    command does not name the file that is written. *)
Definition dotted_options : Topologies.options := Topologies.mk_options false 3 4 2 2 4 "./ring" "." 10 0.

Lemma dotted_prefix_misnamed : exists o,
  (t ← (m ← server_options dotted_options false; print_dmcsd_line m false 2 5 TESTDIR (str "build/src") false);
   read_options (words_of t)) = Ok o /\
  ServerSetup.filename_query_plan o = str "./-2./ring.qp" /\ here dotted_options 2 ".qp" = str "././ring-2.qp".
Proof. eexists. split; [vm_compute; reflexivity|]. by vm_compute. Qed.

(** *** The files of a system of three contexts *)
Lemma command_files : (fun l => l.*1) <$> print_command_lines ring_options 60 5 = Ok (str <$>
  ["ring-command-line-all.txt"; "ring-command-line-all.sh"; "ring-command-line-all-log.sh";
   "ring-command-line-5.txt"; "ring-command-line-5.sh"; "ring-command-line-5-log.sh";
   "ring-command-line-5-noloop.txt"; "ring-command-line-5-noloop.sh"; "ring-command-line-5-log-noloop.sh";
   "ring-command-line-opt-all.txt"; "ring-command-line-opt-all.sh"; "ring-command-line-opt-all-log.sh";
   "ring-command-line-opt-5.txt"; "ring-command-line-opt-5.sh"; "ring-command-line-opt-5-log.sh";
   "ring-command-line-opt-5-noloop.txt"; "ring-command-line-opt-5-noloop.sh"; "ring-command-line-opt-5-log-noloop.sh"]%string).
Proof. vm_compute. reflexivity. Qed.

End CommandLines.
