(* ===== verification/Pool.v ===== *)
(** * The pool of memory slots

    [Pool] (include/mcs/Pool.h): a fixed number of slots, handed out by
    [malloc] and taken back by [free] under one mutex; [malloc] waits on a
    condition variable when no slot is free.

    Each operation holds the mutex, so that the threads are counted: how many
    wait, and how many have been woken and will go on with [malloc] where they
    waited.  A slot is its distance from the start of the data. *)

From S2P Require Import Prelude.

Module Pool.

Record pool := mk_pool {
  n : N;
  back_slot : N;
  datasize : N;
  free_slots : list Z;
  (* the slots that have been handed out, and the threads inside [malloc] *)
  holding : list Z;
  waiting : nat;
  woken : nat;
}.

Definition slot_at (datasize i : N) : Z := Z.of_N (u64_mul i datasize).

Definition pool_new (limit ds : N) : pool :=
  mk_pool limit limit ds (slot_at ds <$> nrange 0 limit) [] 0 0.

(** [free_slots[--back_slot]]. *)
Definition take_slot (p : pool) (woken : nat) : res pool :=
  let b := u64_sub (back_slot p) 1 in
  slot ← vec_at (free_slots p) b;
  mret (mk_pool (n p) b (datasize p) (free_slots p) (holding p ++ [slot]) (waiting p) woken).

(** A thread calls [malloc]. *)
Definition malloc (p : pool) : res pool :=
  if back_slot p =? 0 then
    mret (mk_pool (n p) (back_slot p) (datasize p) (free_slots p) (holding p) (S (waiting p)) (woken p))
  else take_slot p (woken p).

(** A thread that was woken goes on behind [cond.wait]. *)
Definition resume (p : pool) : res (option pool) :=
  match woken p with
  | O => mret None
  | S w => Some <$> take_slot p w
  end.

(** A wake-up, by [notify_one] or without a reason. *)
Definition wake (p : pool) : pool :=
  match waiting p with
  | O => p
  | S w => mk_pool (n p) (back_slot p) (datasize p) (free_slots p) (holding p) w (S (woken p))
  end.

Fixpoint remove_first (x : Z) (l : list Z) : list Z :=
  match l with [] => [] | y :: l => if bool_decide (x = y) then l else y :: remove_first x l end.

Definition free (slot : Z) (p : pool) : res pool :=
  _ ← assert (bool_decide (0 <= slot)%Z && bool_decide (slot <= Z.of_N (u64_mul (u64_sub (n p) 1) (datasize p)))%Z);
  _ ← assert (back_slot p <=? u64_sub (n p) 1);
  _ ← vec_at (free_slots p) (back_slot p);
  mret (wake (mk_pool (n p) (u64_add (back_slot p) 1) (datasize p) (<[N.to_nat (back_slot p) := slot]> (free_slots p))
    (remove_first slot (holding p)) (waiting p) (woken p))).

(** ** Runs *)

Inductive event := Malloc | Free (slot : Z) | Resume | Spurious.

Definition step (p : pool) (e : event) : res pool :=
  match e with
  | Malloc => malloc p
  | Free slot => free slot p
  | Resume => default p <$> resume p
  | Spurious => mret (wake p)
  end.

Definition run (es : list event) (p : pool) : res pool := foldM step p es.

(** ** Slots are conserved when nobody is robbed *)

Lemma NoDup_nrange lo hi : NoDup (nrange lo hi).
Proof. unfold nrange. apply NoDup_fmap_2_strong; [|apply NoDup_seq]. intros i j _ _ E. lia. Qed.


Definition slots (p : pool) : list Z := slot_at (datasize p) <$> nrange 0 (n p).

(** Every slot is free or handed out, and every thread that was woken has a
    free slot. *)
Record good (p : pool) : Prop := {
  good_len : length (free_slots p) = N.to_nat (n p);
  good_back : back_slot p <= n p;
  good_slots : holding p ++ take (N.to_nat (back_slot p)) (free_slots p) ≡ₚ slots p;
  good_woken : N.of_nat (woken p) <= back_slot p;
  good_size : n p * datasize p < W64 /\ n p < W64;
}.

(** An event that takes no slot from a thread that was woken; a freed slot is
    one that was handed out. *)
Definition fair (p : pool) (e : event) : Prop :=
  match e with
  | Malloc => back_slot p = 0 \/ N.of_nat (woken p) < back_slot p
  | Spurious => waiting p = O \/ N.of_nat (woken p) < back_slot p
  | Free slot => slot ∈ holding p
  | Resume => True
  end.

Lemma pool_new_good limit ds : limit * ds < W64 -> limit < W64 -> good (pool_new limit ds).
Proof.
  intros H1 H2. split; cbn; [by rewrite length_fmap, length_nrange, N.sub_0_r|done| |lia|done].
  rewrite take_ge; [done|]. by rewrite length_fmap, length_nrange, N.sub_0_r.
Qed.

Lemma take_slot_good p w : good p -> 0 < back_slot p -> N.of_nat w < back_slot p ->
  exists p', take_slot p w = Ok p' /\ good p' /\ length (holding p') = S (length (holding p)).
Proof.
  intros [Hl Hb Hs Hw [Hn Hn']] H0 Hlt. unfold take_slot. rewrite u64_sub_small by lia.
  destruct (vec_at_lt (free_slots p) (back_slot p - 1)) as (slot & E & Hx); [lia|]. rewrite E. rsimpl. eexists. split; [done|].
  split; [|cbn; rewrite length_app; cbn; lia]. split; cbn [free_slots n back_slot holding woken datasize]; [done|lia| |lia|done].
  unfold slots in *. cbn [n datasize]. rewrite <- Hs, <- app_assoc. apply Permutation_app_head.
  replace (N.to_nat (back_slot p)) with (S (N.to_nat (back_slot p - 1))) by lia.
  rewrite (take_S_r _ _ _ Hx). by rewrite Permutation_app_comm.
Qed.

Lemma remove_first_perm x l : x ∈ l -> l ≡ₚ x :: remove_first x l.
Proof.
  induction l as [|y l IH]; intros Hx; [by apply not_elem_of_nil in Hx|]. cbn. case_bool_decide as E; [by subst|].
  apply elem_of_cons in Hx as [?|Hx]; [done|]. etrans; [apply perm_skip, (IH Hx)|apply perm_swap].
Qed.

Lemma length_holding p : good p -> (length (holding p) + N.to_nat (back_slot p) = N.to_nat (n p))%nat.
Proof.
  intros [Hl Hb Hs _ _]. apply Permutation_length in Hs. rewrite length_app, length_take in Hs.
  unfold slots in Hs. rewrite length_fmap, length_nrange in Hs. lia.
Qed.

Lemma held_slot p slot : good p -> slot ∈ holding p -> exists i, i < n p /\ slot = Z.of_N (i * datasize p).
Proof.
  intros Hg Hx. assert (slot ∈ slots p) as Hs by (rewrite <- (good_slots p Hg); apply elem_of_app; by left).
  apply list_elem_of_fmap in Hs as (i & -> & [_ Hi]%elem_of_nrange). exists i. split; [done|]. unfold slot_at, u64_mul.
  rewrite N.mod_small; [done|]. destruct (good_size p Hg). nia.
Qed.

Lemma wake_good p : good p -> waiting p = O \/ N.of_nat (woken p) < back_slot p -> good (wake p).
Proof.
  intros Hg Hw. unfold wake. destruct (waiting p) as [|w]; [done|]. destruct Hw as [?|Hw]; [done|].
  destruct Hg. split; cbn; try done. lia.
Qed.

Lemma free_good p slot : good p -> slot ∈ holding p ->
  exists p', free slot p = Ok p' /\ good p' /\ S (length (holding p')) = length (holding p).
Proof.
  intros Hg Hx. pose proof (length_holding p Hg) as Hlen. destruct (held_slot p slot Hg Hx) as (i & Hi & Es).
  assert (Hne : (0 < length (holding p))%nat) by (destruct (holding p); [by apply not_elem_of_nil in Hx|cbn; lia]).
  pose proof (remove_first_perm slot _ Hx) as Hperm. remember (remove_first slot (holding p)) as hs eqn:Ehs.
  destruct Hg as [Hl Hb Hs Hw [Hn Hn']]. unfold free. rewrite <- Ehs, u64_sub_small by lia.
  assert (Hm : u64_mul (n p - 1) (datasize p) = (n p - 1) * datasize p) by (unfold u64_mul; apply N.mod_small; nia).
  rewrite Hm, bool_decide_true by (subst; lia). rewrite bool_decide_true by (subst; nia). rsimpl.
  rewrite (proj2 (N.leb_le _ _)) by lia. change (assert true) with (Ok tt). rsimpl.
  destruct (vec_at_lt (free_slots p) (back_slot p)) as (old & -> & _); [lia|]. rsimpl. rewrite u64_add_small by lia.
  eexists. split; [done|]. split; [|unfold wake; cbn [waiting]; destruct (waiting p); cbn [holding]; apply Permutation_length in Hperm; by rewrite Hperm].
  apply wake_good; [|cbn; lia].
  split; cbn [free_slots n back_slot holding woken datasize]; [by rewrite length_insert|lia| |lia|done].
  unfold slots in *. cbn [n datasize]. rewrite <- Hs, Hperm. replace (N.to_nat (back_slot p + 1)) with (S (N.to_nat (back_slot p))) by lia.
  rewrite (take_S_r _ _ slot) by (apply list_lookup_insert_eq; lia). rewrite take_insert_ge by lia.
  rewrite app_assoc, <- Permutation_cons_append. done.
Qed.

Lemma step_good p e : good p -> fair p e -> exists p', step p e = Ok p' /\ good p' /\ n p' = n p /\ datasize p' = datasize p.
Proof.
  intros Hg Hf. assert (Hsame : forall p', step p e = Ok p' -> n p' = n p /\ datasize p' = datasize p).
  { assert (Hw : forall q, n (wake q) = n q /\ datasize (wake q) = datasize q) by (intros q; unfold wake; by destruct (waiting q)).
    assert (Ht : forall w q, take_slot p w = Ok q -> n q = n p /\ datasize q = datasize p) by (intros w q E; by apply bind_ok in E as (? & _ & [= <-])).
    intros p'. destruct e as [|slot| |]; cbn [step].
    - unfold malloc. destruct (_ =? _); [by intros [= <-]|apply Ht].
    - intros E. do 3 apply bind_ok in E as (? & _ & E). injection E as <-. split; etrans; [apply Hw|done|apply Hw|done].
    - unfold resume. destruct (woken p); [by intros [= <-]|]. destruct (take_slot p _) as [q|] eqn:E; [|done]. intros [= <-]. by eapply Ht.
    - intros [= <-]. apply Hw. }
  enough (exists p', step p e = Ok p' /\ good p') as (p' & E & Hg') by (exists p'; split; [done|]; split; [done|by apply Hsame]).
  clear Hsame. destruct e as [|slot| |]; cbn [step fair] in *.
  - unfold malloc. destruct (N.eqb_spec (back_slot p) 0) as [E|E].
    + eexists. split; [done|]. destruct Hg. by split.
    + destruct Hf as [?|Hf]; [done|]. destruct (take_slot_good p (woken p) Hg) as (p' & -> & Hg' & _); [lia|done|]. eauto.
  - destruct (free_good p slot Hg Hf) as (p' & -> & Hg' & _). eauto.
  - unfold resume. destruct (woken p) as [|w] eqn:Ew; [by exists p|].
    pose proof (good_woken p Hg) as Hw. rewrite Ew in Hw.
    destruct (take_slot_good p w Hg) as (p' & -> & Hg' & _); [lia|lia|]. by exists p'.
  - eexists. split; [done|]. by apply wake_good.
Qed.

Fixpoint fair_run (p : pool) (es : list event) : Prop :=
  match es with
  | [] => True
  | e :: es => fair p e /\ forall p', step p e = Ok p' -> fair_run p' es
  end.

Lemma run_good es : forall p, good p -> fair_run p es ->
  exists p', run es p = Ok p' /\ good p' /\ n p' = n p /\ datasize p' = datasize p.
Proof.
  unfold run. induction es as [|e es IH]; intros p Hg Hf; [by exists p|]. destruct Hf as [He Hf].
  destruct (step_good p e Hg He) as (p1 & E1 & Hg1 & E2 & E3). cbn [foldM]. rewrite E1. rsimpl.
  destruct (IH p1 Hg1 (Hf p1 E1)) as (p2 & E4 & Hg2 & E5 & E6). exists p2. split; [done|]. split; [done|]. by rewrite E5, E6.
Qed.

(** As long as no thread takes the slot that another one was woken for, a
    pool never fails, hands no slot out twice, and every slot is free or
    handed out. *)
Theorem pool_conserves_slots limit ds es : 0 < ds -> limit * ds < W64 -> limit < W64 ->
  fair_run (pool_new limit ds) es ->
  exists p, run es (pool_new limit ds) = Ok p /\ NoDup (holding p) /\
    holding p ++ take (N.to_nat (back_slot p)) (free_slots p) ≡ₚ (fun i => Z.of_N (i * ds)) <$> nrange 0 limit.
Proof.
  intros Hds H1 H2 Hf. destruct (run_good es _ (pool_new_good limit ds H1 H2) Hf) as (p & E & Hg & En & Ed).
  assert (Hs : slots p = (fun i => Z.of_N (i * ds)) <$> nrange 0 limit).
  { unfold slots. rewrite En, Ed. cbn [n datasize pool_new]. apply list_fmap_ext. intros k i Hi.
    apply list_elem_of_lookup_2, elem_of_nrange in Hi. unfold slot_at, u64_mul. rewrite N.mod_small; [done|nia]. }
  pose proof (good_slots p Hg) as Hp. rewrite Hs in Hp. exists p. split; [done|]. split; [|done].
  assert (Hd : NoDup ((fun i => Z.of_N (i * ds)) <$> nrange 0 limit)).
  { apply NoDup_fmap_2_strong; [|apply NoDup_nrange]. intros i j _ _ Eij. nia. }
  rewrite <- Hp in Hd. by apply NoDup_app in Hd as [? _].
Qed.

Lemma pool_conserves_slots_witness : exists p,
  run [Malloc; Malloc; Malloc; Free 8; Resume; Free 0]%Z (pool_new 2 8) = Ok p /\ NoDup (holding p) /\
  holding p ++ take (N.to_nat (back_slot p)) (free_slots p) ≡ₚ (fun i => Z.of_N (i * 8)) <$> nrange 0 2.
Proof.
  apply (pool_conserves_slots 2 8); [done|done|done|]. cbn [fair_run].
  repeat (split; [cbn; first [by right|by left|done|by apply (bool_decide_unpack _)]|intros ? [= <-]]). done.
Defined.

(** Without a free slot the index is the largest number of a word. *)
Lemma resume_empty es p w : run es (pool_new 1 8) = Ok p -> woken p = S w -> back_slot p = 0 -> length (free_slots p) = 1%nat ->
  run (es ++ [Resume]) (pool_new 1 8) = Err IndexOutOfRange.
Proof.
  intros E Hw Hb Hl. unfold run in *. rewrite foldM_app, E. rsimpl. cbn [foldM step]. unfold resume. rewrite Hw. unfold take_slot.
  assert (vec_at (free_slots p) (u64_sub (back_slot p) 1) = Err IndexOutOfRange) as ->; [|done].
  rewrite Hb. unfold vec_at. rewrite lookup_ge_None_2; [done|]. rewrite Hl. change (u64_sub 0 1) with 18446744073709551615. lia.
Qed.

(** [malloc] tests for a free slot once and not again after it has waited.
    With one slot: a thread waits, the slot is freed and wakes it, a third
    thread takes the slot first; the woken thread then reads before the
    beginning of the list of free slots.  A spurious wake-up has the same
    effect. *)
Theorem woken_thread_is_robbed :
  run [Malloc; Malloc; Free 0; Malloc; Resume]%Z (pool_new 1 8) = Err IndexOutOfRange /\
  run [Malloc; Malloc; Spurious; Resume] (pool_new 1 8) = Err IndexOutOfRange /\
  exists p, run [Malloc; Malloc; Free 0; Resume]%Z (pool_new 1 8) = Ok p /\ holding p = [0%Z].
Proof.
  split; [|split].
  - eapply (resume_empty [Malloc; Malloc; Free 0; Malloc]%Z); [vm_compute; reflexivity|done..].
  - eapply (resume_empty [Malloc; Malloc; Spurious]); [vm_compute; reflexivity|done..].
  - eexists. split; [vm_compute; reflexivity|done].
Qed.

End Pool.
