(* ===== verification/Threads.v ===== *)
(** * The threads of a server

    [NewThreadFactory] (src/network/NewThreadFactory.cpp) creates the threads
    of the dispatchers, of the neighbors and of the contexts, and stops them
    when the server shuts down.

    Thread objects live in a heap; a pointer to an object that was deleted
    cannot be followed.  A thread is joinable until it has been joined; a
    thread that is interrupted ends at its next blocking call, so that joining
    it returns. *)

From S2P Require Import Prelude.

Module Threads.

Abbreviation loc := positive.

Record factory := mk_factory {
  request_dispatcher_thread : option loc;
  output_dispatcher_thread : option loc;
  joiner_dispatcher_thread : option loc;
  context_thread_vec : list loc;
  neighbor_thread_vec : list loc;
  threads : gmap loc bool;   (* the objects that exist, and whether they are joinable *)
  ended : list loc;          (* the threads that were interrupted and joined *)
}.

Definition factory_new : factory := mk_factory None None None [] [] ∅ [].

(** [new boost::thread(...)]. *)
Definition new_thread (h : gmap loc bool) : loc * gmap loc bool :=
  let l := fresh (dom h) in (l, <[l := true]> h).

Definition createMainThreads (has_joiner_dispatcher : bool) (f : factory) : factory :=
  let '(r, h) := new_thread (threads f) in
  let '(o, h) := new_thread h in
  if has_joiner_dispatcher then
    let '(j, h) := new_thread h in
    mk_factory (Some r) (Some o) (Some j) (context_thread_vec f) (neighbor_thread_vec f) h (ended f)
  else mk_factory (Some r) (Some o) (joiner_dispatcher_thread f) (context_thread_vec f) (neighbor_thread_vec f) h (ended f).

Fixpoint createNeighborThreads (no_neighbors : nat) (f : factory) : factory :=
  match no_neighbors with
  | O => f
  | S k =>
      let '(l, h) := new_thread (threads f) in
      createNeighborThreads k (mk_factory (request_dispatcher_thread f) (output_dispatcher_thread f) (joiner_dispatcher_thread f)
        (context_thread_vec f) (neighbor_thread_vec f ++ [l]) h (ended f))
  end.

Fixpoint createContextThreads (no_contexts : nat) (f : factory) : factory :=
  match no_contexts with
  | O => f
  | S k =>
      let '(l, h) := new_thread (threads f) in
      createContextThreads k (mk_factory (request_dispatcher_thread f) (output_dispatcher_thread f) (joiner_dispatcher_thread f)
        (context_thread_vec f ++ [l]) (neighbor_thread_vec f) h (ended f))
  end.

(** [interrupt], [join] and [delete] of a joinable thread; a thread that is not
    joinable is left alone. *)
Definition stop (f : factory) (l : loc) : res (factory * bool) :=
  joinable ← not_null (threads f !! l);
  if joinable : bool then
    mret (mk_factory (request_dispatcher_thread f) (output_dispatcher_thread f) (joiner_dispatcher_thread f)
      (context_thread_vec f) (neighbor_thread_vec f) (delete l (threads f)) (ended f ++ [l]), true)
  else mret (f, false).

(** A dispatcher's thread; its pointer is reset. *)
Definition stop_main (field : factory -> option loc) (reset : factory -> factory) (f : factory) : res factory :=
  match field f with
  | None => mret f
  | Some l => '(f, stopped) ← stop f l; mret (if stopped : bool then reset f else f)
  end.

(** The threads of a vector; the vector keeps its pointers. *)
Definition stop_all (ls : list loc) (f : factory) : res factory := foldM (fun f l => fst <$> stop f l) f ls.

Definition reset_request (f : factory) : factory :=
  mk_factory None (output_dispatcher_thread f) (joiner_dispatcher_thread f) (context_thread_vec f) (neighbor_thread_vec f) (threads f) (ended f).
Definition reset_output (f : factory) : factory :=
  mk_factory (request_dispatcher_thread f) None (joiner_dispatcher_thread f) (context_thread_vec f) (neighbor_thread_vec f) (threads f) (ended f).
Definition reset_joiner (f : factory) : factory :=
  mk_factory (request_dispatcher_thread f) (output_dispatcher_thread f) None (context_thread_vec f) (neighbor_thread_vec f) (threads f) (ended f).

Definition killThreads (f : factory) : res factory :=
  f ← stop_main request_dispatcher_thread reset_request f;
  f ← stop_main output_dispatcher_thread reset_output f;
  f ← stop_main joiner_dispatcher_thread reset_joiner f;
  f ← stop_all (neighbor_thread_vec f) f;
  stop_all (context_thread_vec f) f.

(** [second_initialization_phase] of a server: the threads of its neighbors if
    it has any, of the dispatchers and of its contexts. *)
Definition start_threads (neighbors : option nat) (no_contexts : nat) : factory :=
  let f := match neighbors with
           | Some k => createMainThreads true (createNeighborThreads k factory_new)
           | None => createMainThreads false factory_new
           end in
  createContextThreads no_contexts f.

(** ** Every thread is stopped once *)

(** The pointers in the order in which the threads are stopped. *)
Definition pointers (f : factory) : list loc :=
  option_list (request_dispatcher_thread f) ++ option_list (output_dispatcher_thread f) ++
  option_list (joiner_dispatcher_thread f) ++ neighbor_thread_vec f ++ context_thread_vec f.

(** The pointers are distinct, they point to joinable threads, and there are
    no other threads. *)
Definition running (f : factory) : Prop :=
  NoDup (pointers f) /\ (forall l, threads f !! l = Some true <-> l ∈ pointers f) /\
  (forall l b, threads f !! l = Some b -> b = true) /\ ended f = [].

(** A new thread at any place of the list. *)
Lemma new_thread_running h l h' ps ps' : new_thread h = (l, h') -> ps' ≡ₚ l :: ps ->
  NoDup ps /\ (forall l, h !! l = Some true <-> l ∈ ps) /\ (forall l b, h !! l = Some b -> b = true) ->
  NoDup ps' /\ (forall l, h' !! l = Some true <-> l ∈ ps') /\ (forall l b, h' !! l = Some b -> b = true).
Proof.
  intros [= <- <-] Hp (Hd & He & Ho). assert (Hf : h !! fresh (dom h) = None) by (apply not_elem_of_dom, is_fresh).
  split_and!.
  - rewrite Hp. apply NoDup_cons. split; [|done]. rewrite <- He. congruence.
  - intros l. rewrite Hp, elem_of_cons, lookup_insert_Some, <- He. split; [intros [[-> _]|[_ ?]]; auto|].
    intros [-> |Hl]; [by left|]. destruct (decide (fresh (dom h) = l)) as [<-|]; [congruence|auto].
  - intros l b. rewrite lookup_insert_Some. intros [[_ <-]|[_ ?]]; [done|by eapply Ho].
Qed.

Lemma main_running b f : running f -> request_dispatcher_thread f = None -> output_dispatcher_thread f = None -> joiner_dispatcher_thread f = None ->
  running (createMainThreads b f).
Proof.
  intros (H1 & H2 & H3 & H4) Er Eo Ej. unfold createMainThreads.
  destruct (new_thread (threads f)) as [r h1] eqn:E1. destruct (new_thread h1) as [o h2] eqn:E2.
  pose proof (new_thread_running _ _ _ (pointers f) (r :: pointers f) E1 ltac:(done) (conj H1 (conj H2 H3))) as R1.
  pose proof (new_thread_running _ _ _ _ (r :: o :: pointers f) E2 (perm_swap _ _ _) R1) as R2.
  assert (Hp : pointers f = neighbor_thread_vec f ++ context_thread_vec f) by (unfold pointers; by rewrite Er, Eo, Ej).
  destruct b; [destruct (new_thread h2) as [j h3] eqn:E3|].
  - pose proof (new_thread_running _ _ _ _ (r :: o :: j :: pointers f) E3 ltac:(by rewrite (Permutation_middle [r; o] (pointers f) j)) R2) as (A & B & C).
    unfold running, pointers. cbn. rewrite Hp in A, B. by rewrite H4.
  - destruct R2 as (A & B & C). unfold running, pointers. cbn. rewrite Ej, Hp in *. by rewrite H4.
Qed.

Lemma neighbors_running k : forall f, running f -> running (createNeighborThreads k f).
Proof.
  induction k as [|k IH]; intros f (H1 & H2 & H3 & H4); [done|]. cbn [createNeighborThreads].
  destruct (new_thread (threads f)) as [l h] eqn:E. apply IH.
  match goal with |- running ?f' => destruct (new_thread_running _ _ _ (pointers f) (pointers f') E) as (A & B & C); [|by split_and!|by split_and!] end.
  unfold pointers. cbn. rewrite !app_assoc. rewrite <- (app_assoc _ [l]). symmetry. apply Permutation_middle.
Qed.

Lemma contexts_running k : forall f, running f -> running (createContextThreads k f).
Proof.
  induction k as [|k IH]; intros f (H1 & H2 & H3 & H4); [done|]. cbn [createContextThreads].
  destruct (new_thread (threads f)) as [l h] eqn:E. apply IH.
  match goal with |- running ?f' => destruct (new_thread_running _ _ _ (pointers f) (pointers f') E) as (A & B & C); [|by split_and!|by split_and!] end.
  unfold pointers. cbn. rewrite !app_assoc. by rewrite Permutation_app_comm.
Qed.

Lemma length_pointers_main b f : request_dispatcher_thread f = None -> output_dispatcher_thread f = None -> joiner_dispatcher_thread f = None ->
  length (pointers (createMainThreads b f)) = (length (pointers f) + (if b then 3 else 2))%nat.
Proof.
  intros E1 E2 E3. unfold createMainThreads, pointers. destruct (new_thread (threads f)), (new_thread _). destruct b; [destruct (new_thread _)|];
    cbn; rewrite E1, E2, E3; cbn; lia.
Qed.

Lemma length_pointers_neighbors k : forall f, length (pointers (createNeighborThreads k f)) = (length (pointers f) + k)%nat /\
  request_dispatcher_thread (createNeighborThreads k f) = request_dispatcher_thread f /\
  output_dispatcher_thread (createNeighborThreads k f) = output_dispatcher_thread f /\
  joiner_dispatcher_thread (createNeighborThreads k f) = joiner_dispatcher_thread f.
Proof.
  induction k as [|k IH]; intros f; cbn [createNeighborThreads]; [split_and!; [lia|done..]|]. destruct (new_thread (threads f)) as [l h].
  match goal with |- context [createNeighborThreads k ?g] => destruct (IH g) as (-> & -> & -> & ->) end. split_and!; [|done..].
  unfold pointers. cbn. rewrite !length_app. cbn. lia.
Qed.

Lemma length_pointers_contexts k : forall f, length (pointers (createContextThreads k f)) = (length (pointers f) + k)%nat.
Proof.
  induction k as [|k IH]; intros f; cbn [createContextThreads]; [lia|]. destruct (new_thread (threads f)) as [l h]. rewrite IH.
  unfold pointers. cbn. rewrite !length_app. cbn. lia.
Qed.

Lemma start_length neighbors no_contexts : length (pointers (start_threads neighbors no_contexts)) =
  (match neighbors with Some k => 3 + k | None => 2 end + no_contexts)%nat.
Proof.
  unfold start_threads. rewrite length_pointers_contexts. destruct neighbors as [k|].
  - destruct (length_pointers_neighbors k factory_new) as (E & A & B & C). rewrite length_pointers_main by done. rewrite E. cbn. lia.
  - rewrite length_pointers_main by done. cbn. lia.
Qed.

Lemma start_running neighbors no_contexts : running (start_threads neighbors no_contexts).
Proof.
  assert (H0 : running factory_new).
  { split_and!; [apply NoDup_nil_2| |intros l b; cbn; by rewrite lookup_empty|done]. intros l. cbn.
    rewrite lookup_empty. split; [done|]. by intros ?%not_elem_of_nil. }
  apply contexts_running. destruct neighbors as [k|]; [|by apply main_running]. destruct (length_pointers_neighbors k factory_new) as (_ & A & B & C).
  apply main_running; [by apply neighbors_running|done..].
Qed.

(** ** Stopping *)

Definition keeps (f f' : factory) : Prop :=
  context_thread_vec f' = context_thread_vec f /\ neighbor_thread_vec f' = neighbor_thread_vec f.

Lemma stop_ok f l : threads f !! l = Some true ->
  stop f l = Ok (mk_factory (request_dispatcher_thread f) (output_dispatcher_thread f) (joiner_dispatcher_thread f)
    (context_thread_vec f) (neighbor_thread_vec f) (delete l (threads f)) (ended f ++ [l]), true).
Proof. intros H. unfold stop. by rewrite H. Qed.

(** The threads [ls] are gone, and what else there was is not touched. *)
Definition stopped (ls : list loc) (f f' : factory) : Prop :=
  keeps f f' /\ ended f' = ended f ++ ls /\ forall l, threads f' !! l = if bool_decide (l ∈ ls) then None else threads f !! l.

Lemma stop_all_ok ls : forall f, NoDup ls -> (forall l, l ∈ ls -> threads f !! l = Some true) ->
  exists f', stop_all ls f = Ok f' /\ stopped ls f f' /\
    request_dispatcher_thread f' = request_dispatcher_thread f /\ output_dispatcher_thread f' = output_dispatcher_thread f /\
    joiner_dispatcher_thread f' = joiner_dispatcher_thread f.
Proof.
  unfold stop_all. induction ls as [|l ls IH]; intros f Hd Hr.
  { exists f. split; [done|]. split; [|done]. split; [done|]. by rewrite app_nil_r. }
  apply NoDup_cons in Hd as [Hl Hd]. cbn [foldM]. rewrite stop_ok by (apply Hr; by left). rsimpl. cbn [fst].
  edestruct IH as (f' & E & ((K1 & K2) & Ee & Eh) & F); [done| |exists f'; split; [exact E|]; split; [|exact F]].
  { intros x Hx. cbn [threads]. rewrite lookup_delete_ne by (intros ->; done). apply Hr. by right. }
  split; [done|]. split; [by rewrite Ee; cbn [ended]; rewrite <- app_assoc|]. intros x. rewrite Eh. cbn [threads].
  destruct (decide (x ∈ ls)) as [Hx|Hx].
  - rewrite !bool_decide_true by (done || by right). done.
  - rewrite bool_decide_false by done. destruct (decide (x = l)) as [-> |Hne].
    + rewrite lookup_delete_eq, bool_decide_true by left. done.
    + rewrite lookup_delete_ne by done. rewrite bool_decide_false; [done|]. by intros [?|?]%elem_of_cons.
Qed.

Lemma stopped_trans ls ls' f f1 f2 : stopped ls f f1 -> stopped ls' f1 f2 -> stopped (ls ++ ls') f f2.
Proof.
  intros ((K1 & K2) & E & H) ((K3 & K4) & E' & H'). split; [split; congruence|]. split; [by rewrite E', E, app_assoc|].
  intros l. rewrite H', H. destruct (decide (l ∈ ls')); [rewrite !bool_decide_true by (done || apply elem_of_app; auto); done|].
  rewrite bool_decide_false by done. destruct (decide (l ∈ ls)); [rewrite !bool_decide_true by (done || apply elem_of_app; auto); done|].
  rewrite !bool_decide_false; [done| |done]. by intros [?|?]%elem_of_app.
Qed.

(** [reset] changes only the pointer [field]. *)
Lemma stop_main_ok field reset f : (forall g, keeps g (reset g) /\ threads (reset g) = threads g /\ ended (reset g) = ended g) ->
  (forall l, l ∈ option_list (field f) -> threads f !! l = Some true) ->
  exists f', stop_main field reset f = Ok f' /\ stopped (option_list (field f)) f f' /\ (f' = f \/ exists l, f' = reset (mk_factory
    (request_dispatcher_thread f) (output_dispatcher_thread f) (joiner_dispatcher_thread f)
    (context_thread_vec f) (neighbor_thread_vec f) (delete l (threads f)) (ended f ++ [l]))).
Proof.
  intros Hr Hl. unfold stop_main. destruct (field f) as [l|]; cbn [option_list] in *.
  - rewrite stop_ok by (apply Hl; by left). rsimpl. eexists. split; [done|]. split; [|by right; exists l].
    match goal with |- stopped _ _ (reset ?g) => destruct (Hr g) as (K & Et & Ee) end.
    split; [exact K|]. split; [exact Ee|]. intros x. rewrite Et. cbn [threads]. destruct (decide (x = l)) as [-> |Hne].
    + by rewrite lookup_delete_eq, bool_decide_true by left.
    + rewrite lookup_delete_ne by done. rewrite bool_decide_false; [done|]. by intros ?%list_elem_of_singleton.
  - exists f. split; [done|]. split; [|by left]. split; [done|]. by rewrite app_nil_r.
Qed.

(** The threads that are still to be stopped. *)
Lemma still_running (ls ls' : list loc) f f' : stopped ls f f' -> (forall l, l ∈ ls' -> threads f !! l = Some true /\ l ∉ ls) ->
  forall l, l ∈ ls' -> threads f' !! l = Some true.
Proof. intros (_ & _ & H) Hr l Hl. destruct (Hr l Hl) as [Ht Hn]. by rewrite H, bool_decide_false. Qed.

Lemma kill_ok f : running f -> exists f', killThreads f = Ok f' /\ stopped (pointers f) f f'.
Proof.
  intros (Hd & He & _ & _).
  assert (Hin : forall l, l ∈ pointers f -> threads f !! l = Some true) by (intros l; apply He). clear He.
  unfold pointers in *. set (R := option_list (request_dispatcher_thread f)) in *. set (O := option_list (output_dispatcher_thread f)) in *.
  set (J := option_list (joiner_dispatcher_thread f)) in *. set (V := neighbor_thread_vec f) in *. set (C := context_thread_vec f) in *.
  assert (Hsep : forall a b, R ++ O ++ J ++ V ++ C = a ++ b -> forall l, l ∈ b -> threads f !! l = Some true /\ l ∉ a).
  { intros a b E l Hl. rewrite E in Hin, Hd. split; [apply Hin, elem_of_app; by right|]. apply NoDup_app in Hd as (_ & Hx & _). intros Ha. by apply (Hx l Ha). }
  unfold killThreads.
  destruct (stop_main_ok request_dispatcher_thread reset_request f) as (f1 & -> & S1 & F1); [done|intros l Hl; apply Hin, elem_of_app; by left|]. rsimpl.
  assert (E1 : output_dispatcher_thread f1 = output_dispatcher_thread f /\ joiner_dispatcher_thread f1 = joiner_dispatcher_thread f) by (by destruct F1 as [-> |[? ->]]).
  destruct E1 as [Eo Ej]. fold R in S1.
  destruct (stop_main_ok output_dispatcher_thread reset_output f1) as (f2 & -> & S2 & F2); [done| |].
  { rewrite Eo. fold O. intros l Hl. eapply still_running; [exact S1| |exact Hl]. intros x Hx. eapply (Hsep R); [done|]. apply elem_of_app. by left. }
  rsimpl. assert (E2 : joiner_dispatcher_thread f2 = joiner_dispatcher_thread f) by (rewrite <- Ej; by destruct F2 as [-> |[? ->]]).
  rewrite Eo in S2. fold O in S2. pose proof (stopped_trans _ _ _ _ _ S1 S2) as S12.
  destruct (stop_main_ok joiner_dispatcher_thread reset_joiner f2) as (f3 & -> & S3 & _); [done| |].
  { rewrite E2. fold J. intros l Hl. eapply still_running; [exact S12| |exact Hl]. intros x Hx. eapply (Hsep (R ++ O)); [by rewrite <- app_assoc|]. apply elem_of_app. by left. }
  rsimpl. rewrite E2 in S3. fold J in S3. pose proof (stopped_trans _ _ _ _ _ S12 S3) as S13.
  rewrite (proj2 (proj1 S13)). fold V. apply NoDup_app in Hd as (_ & _ & Hd). apply NoDup_app in Hd as (_ & _ & Hd). apply NoDup_app in Hd as (_ & _ & Hd).
  apply NoDup_app in Hd as (DV & _ & DC).
  destruct (stop_all_ok V f3 DV) as (f4 & -> & S4 & _).
  { intros l Hl. eapply still_running; [exact S13| |exact Hl]. intros x Hx. eapply (Hsep ((R ++ O) ++ J)); [by rewrite <- !app_assoc|]. apply elem_of_app. by left. }
  rsimpl. pose proof (stopped_trans _ _ _ _ _ S13 S4) as S14. rewrite (proj1 (proj1 S14)). fold C.
  destruct (stop_all_ok C f4 DC) as (f5 & -> & S5 & _).
  { intros l Hl. eapply still_running; [exact S14| |exact Hl]. intros x Hx. eapply (Hsep (((R ++ O) ++ J) ++ V)); [by rewrite <- !app_assoc|done]. }
  exists f5. split; [done|]. pose proof (stopped_trans _ _ _ _ _ S14 S5) as S15. by rewrite <- !app_assoc in S15.
Qed.

(** Stopping the threads that a server has started interrupts and joins each
    of them exactly once, the dispatchers first, then the neighbors, then the
    contexts, and leaves no thread object behind. *)
Theorem kill_stops_all_threads neighbors no_contexts :
  let f := start_threads neighbors no_contexts in
  exists f', killThreads f = Ok f' /\ threads f' = ∅ /\ ended f' = pointers f /\ NoDup (pointers f) /\
    length (pointers f) = (match neighbors with Some k => 3 + k | None => 2 end + no_contexts)%nat.
Proof.
  intros f. pose proof (start_running neighbors no_contexts) as Hr. fold f in Hr. destruct (kill_ok f Hr) as (f' & E & (_ & Ee & Eh)).
  destruct Hr as (Hd & He & Ho & Hz). exists f'. split; [done|]. split_and!; [|by rewrite Ee, Hz|done|].
  - apply map_empty. intros l. rewrite Eh. case_bool_decide as Hl; [done|]. destruct (threads f !! l) as [b|] eqn:Eb; [|done].
    destruct Hl. apply He. by rewrite (Ho l b Eb) in Eb.
  - apply start_length.
Qed.

(** A second call follows the pointers to the deleted threads, which the
    vectors still hold. *)
Lemma second_kill_fails : exists f',
  killThreads (start_threads (Some 1%nat) 1) = Ok f' /\ killThreads f' = Err NullPointer.
Proof. eexists. split; [vm_compute; reflexivity|]. vm_compute. reflexivity. Qed.

End Threads.
